(* ===== verification/_CoqProject ===== *)
-Q . S2P
Prelude.v
Pod.v
Checksum.v
JournalFormat.v
JournalTags.v
Device.v
Geometry.v
Revoke.v
LogWalk.v
LogModel.v
LogInv.v
Transaction.v
JournalState.v
JournalInv.v
Handles.v
Commit.v
Recovery.v
Checkpoint.v
CrashSafety.v
Mount.v
Durability.v
Bitmap.v
SuperBlock.v
MetaStore.v
GroupDesc.v
BlockGroup.v
Alloc.v
AllocSpec.v
Calm.v
ExtentNode.v
Credits.v
ExtentMap.v
ExtentTree.v
ExtentWrite.v
ExtentSpec.v
ExtentManager.v
ExtentTotal.v
ExtentTheorems.v
InodeRecord.v
OrphanChain.v
InodeTable.v
Orphan.v
InodeTheorems.v
DirHash.v
Htree.v
PageCache.v
DirEntry.v
DirBlock.v
InodeInner.v
Dir.v
DirSpec.v
DirEdit.v
DirGrow.v
DirDots.v
DirInode.v
DirDegrade.v
DirSample.v
DirTheorems.v
Symlink.v
Namespace.v
NsSpec.v
NsTheorems.v
