(* ===== verification/Prelude.v ===== *)
(** * The ext4 file system of Asterinas, verified

    The program is the ext4 implementation of the Asterinas kernel, under
    [src/kernel/src/fs/fs_impls/ext4/] (paths below are relative to it).
    This library translates it into Rocq functions, from the bytes of the
    log up to [rename], and proves what the parts promise each other.

    ** The parts and how they interact

    - The journal ([journal/]) makes groups of metadata writes atomic and
      durable.  An operation opens a handle with a number of credits,
      captures and patches blocks in the running transaction, and closes the
      handle.  A commit writes the transaction to the log, a checkpoint
      writes logged images home, and recovery replays the log after a
      failure.
    - The allocator ([block_group.rs], [fs.rs], [super_block.rs]) hands out
      blocks and inodes.  It changes bitmaps, descriptors and the superblock
      through the open handle.
    - The extent manager ([inode/extent_manager/]) maps the blocks of a file
      to blocks of the volume by a tree, whose nodes it journals and whose
      blocks it takes from the allocator.
    - The inode table and the orphan list ([inode/mod.rs], [fs.rs]) store
      inodes and remember those whose deletion is not finished.
    - Directories ([inode/dir/]) are files of records in the page cache;
      each block that changes is sealed and captured whole.  Symbolic links
      ([inode/symlink.rs]) keep a target in the inode or in a data block.
    - The namespace operations ([inode/dir/mod.rs]) put all of it together,
      under one handle and with several inodes locked.

    ** The files

    Generic: this file (errors, the [result] and state monads, slices and
    splices of bytes, serial numbers, tactics), [Pod] (byte layouts of
    [repr(C)] structs), [Device] (the block device, its history of writes and
    flushes, and the disks a crash can leave).

    Journal: [Checksum] ([checksum.rs]); [JournalFormat] and [JournalTags]
    ([journal/format.rs]); [Geometry] (transaction ids, the ring, loading:
    [journal/mod.rs]); [Revoke] ([journal/revoke.rs]); [LogWalk] (the four
    loops that read a chain back); [Transaction] and [JournalState]
    ([journal/transaction.rs], [journal/mod.rs]); [Commit], [Recovery],
    [Checkpoint] (the files of these names); [Mount] (the journal part of
    opening, [fs.rs]).  [LogModel], [LogInv] and [JournalInv] hold the meaning
    of a log and the invariants of disk and memory, [Handles] the transition
    system of the handles, [CrashSafety] and [Durability] the theorems on
    crashes.

    The boundary: [MetaStore] is a class with the calls the file system makes
    on the journal under one open handle and the laws it relies on.  [Op], a
    journal with a handle of [JournalState], is an instance, with the laws
    proved; everything below is proved against the class.

    Allocation: [Bitmap] ([kernel/src/fs/utils/id_bitmap.rs]), [SuperBlock]
    ([super_block.rs], [feature.rs]), [GroupDesc] and [BlockGroup]
    ([block_group.rs]), [Alloc] ([fs.rs]), with the theorems in [AllocSpec]
    and the absence of panics in [Calm].

    Extents: [ExtentNode], [ExtentMap], [ExtentTree] and [ExtentManager]
    ([inode/extent_manager/]), [Credits] (the estimates of [fs.rs]), with the
    proofs in [ExtentWrite], [ExtentSpec], [ExtentTotal] and [ExtentTheorems].

    Inodes: [InodeRecord] (the record and the descriptor of [inode/mod.rs]),
    [InodeTable], [OrphanChain] and [Orphan] ([fs.rs]), [InodeTheorems].

    Directories: [DirHash], [Htree] and [DirEntry] ([inode/dir/hash.rs],
    [htree.rs], [dir_entry.rs]), [PageCache] ([kernel/src/vm/page_cache]),
    [InodeInner] (the inode in memory, [inode/mod.rs]), [Dir] (the directory
    methods of [inode/dir/mod.rs]); [DirBlock], [DirSpec], [DirEdit],
    [DirGrow], [DirDots], [DirInode] and [DirDegrade] prove what each does,
    [DirSample] is a concrete volume, [DirTheorems] has the theorems.

    Names: [Symlink] ([inode/symlink.rs]), [Namespace] (the [Inode] methods
    of [inode/dir/mod.rs] with [create_inode] and the inode cache of
    [fs.rs]), [NsSpec] and [NsTheorems].

    ** How the code is represented

    Integers are [Z]; where a width matters the wrap-around, the check or the
    panic of the code is written out.  On-disk data is [list byte].  A fallible
    function returns [result]; stateful code is a function of the state monad
    [M], with the state the code mutates.  A lock that is held across an
    operation makes it one step.  A loop that waits is one attempt, whose
    outcome says what it waits for.  A Rust panic is the error [PANIC]; a loop
    whose fuel runs out is [DIVERGE], so a theorem that gives a result or a
    [handled] error also says that the code terminates without panic.

    ** What the theorems show

    - The journal refines an atomic and durable store of metadata blocks,
      over every interleaving of handles, commits, checkpoints, power
      failures (also during recovery) and remounts.
    - No block is handed out twice; allocation and freeing change exactly what
      they say in bitmaps, counters and images; a freed block stays out until
      its free has committed.
    - An extent tree refines a partial map from blocks of the file to blocks
      of the volume, at any depth; insertion, filling of holes, conversion,
      truncation and punch change the map as they should and no other block.
    - An inode reads back as it was written; a write-back changes one record;
      the orphan list on the volume is the list in memory.
    - A directory refines a finite map from names to inodes; an edit changes
      one block of the volume; flattening an index keeps the names; a lookup
      in a damaged index is safe.
    - [unlink], [rmdir] and [rename] do exactly what they should to names,
      link counts, records and the orphan list; a link's target reads back;
      the locks of several inodes cannot deadlock.
    - Some theorems state a defect of the code, with the input that shows it:
      a punch on a full volume, times from 2038 on, inodes above 256 bytes, a
      hard link in an indexed directory.

    ** Bounds and fuel

    The walkers of a log chain count the log blocks they consume against the
    length of the journal, and their fuel is one more than that.  The scan of
    recovery has one more round than the ring has blocks: each round finds a
    commit record of another id.  The loop of a checkpoint has the distance of
    two serial numbers.  The loops over a run of blocks have the length of
    the run, the descent of an extent tree its depth (at most 5), the descent
    of a directory index its levels (at most 2), the iterator of a directory
    block the size of the block (a record takes eight bytes at least), the
    walk of the orphan list the number of inodes.  For each there is a lemma
    that the fuel does not run out.

    ** Assumptions

    The device keeps a write that a completed flush follows, and of the
    others any subset.  The flush of the data pages of an inode in a commit
    is a parameter, assumed not to write the journal's blocks.  The block map
    of the journal inode is a parameter of [Mount].  The clock, the
    credentials of the caller and the random generation of an inode are
    arguments.

    ** Not modelled

    - The commit thread, the wait queues and the memory ordering of the
      atomic counters: operations are steps that run one after another, in
      any order.
    - Volumes without a journal: the directory, extent and inode code is
      modelled under a live handle.
    - The states of a page in the page cache (dirty, under write-back), its
      write-out and memory mappings: a page holds its content.
    - The reclaim of an inode by [Drop], [fsync] and the background flush.
    - The adapters to the virtual file system ([impl_for_vfs/]), which only
      forward calls, and the rest of the kernel. *)

From Stdlib Require Export ZArith Lia List.
From stdpp Require Export base numbers list gmap.
From coqutil Require Export Byte Word.LittleEndianList.

#[global] Open Scope Z_scope.

(** ** Errors

    Fallible code returns [result]: the kernel's [Result<T>] with the errno
    of [return_errno_with_message!].  The message text is not modelled.
    [PANIC] stands for a Rust panic (an index out of bounds, a failed
    assertion, an arithmetic overflow), which no caller handles;
    [DIVERGE] stands for a loop that has not ended when its fuel runs out. *)

Inductive errno : Set :=
  | EINVAL | EUCLEAN | EIO | ENOSPC | EFBIG | EROFS | ENOMEM | EEXIST
  | ENOENT | ENOTDIR | EISDIR | ENOTEMPTY | EDEADLK | EMLINK | ENAMETOOLONG | ESTALE
  | EPERM | EXDEV | EOPNOTSUPP | EOVERFLOW
  | PANIC | DIVERGE.

#[export] Instance errno_eq_dec : EqDecision errno.
Proof. solve_decision. Defined.

(** The errors the code returns, as opposed to the two above. *)
Definition handled (e : errno) : bool := match e with PANIC | DIVERGE => false | _ => true end.

Inductive result (A : Type) : Type :=
  | Ok (a : A)
  | Err (e : errno).
Arguments Ok {A} _.
Arguments Err {A} _.

Definition rbind {A B} (m : result A) (f : A -> result B) : result B :=
  match m with Ok a => f a | Err e => Err e end.

Definition is_ok {A} (m : result A) : bool :=
  match m with Ok _ => true | Err _ => false end.

Declare Scope ext4_scope.
Delimit Scope ext4_scope with ext4.
Notation "'let?' x ':=' m 'in' k" := (rbind m (fun x => k))
  (at level 10, x pattern, m at level 100, k at level 200) : ext4_scope.
Notation "'check' b 'else' e 'in' k" := (if b then k else Err e)
  (at level 10, b at level 100, e at level 100, k at level 200) : ext4_scope.
#[global] Open Scope ext4_scope.

Lemma rbind_ok {A B} (m : result A) (f : A -> result B) b :
  rbind m f = Ok b <-> exists a, m = Ok a /\ f a = Ok b.
Proof.
  destruct m as [a|e]; simpl; split; [by eauto|by intros (? & [= ->] & ?)|done|by intros (? & ? & _)].
Qed.

(** [inv_result] exposes every successful step of a monadic computation. *)
Ltac inv_result :=
  repeat match goal with
  | H : rbind _ _ = Ok _ |- _ =>
      apply rbind_ok in H as (? & ? & H)
  | H : (if ?b then _ else Err _) = Ok _ |- _ =>
      let E := fresh "Hck" in destruct b eqn:E; [|discriminate H]
  | H : (if ?b then Err _ else _) = Ok _ |- _ =>
      let E := fresh "Hck" in destruct b eqn:E; [discriminate H|]
  | H : Ok _ = Ok _ |- _ => injection H as H
  | H : Err _ = Ok _ |- _ => discriminate H
  end.

(** [bool_hyps] turns boolean hypotheses about integers into propositions. *)
Ltac bool_hyps :=
  repeat match goal with
  | H : negb _ = true |- _ => apply negb_true_iff in H
  | H : negb _ = false |- _ => apply negb_false_iff in H
  | H : _ || _ = false |- _ => apply orb_false_iff in H as [? ?]
  | H : _ && _ = true |- _ => apply andb_prop in H as [? ?]
  | H : (_ =? _)%Z = false |- _ => apply Z.eqb_neq in H
  | H : (_ <? _)%Z = false |- _ => apply Z.ltb_ge in H
  | H : (_ <=? _)%Z = false |- _ => apply Z.leb_gt in H
  | H : (_ =? _)%Z = true |- _ => apply Z.eqb_eq in H
  | H : (_ <? _)%Z = true |- _ => apply Z.ltb_lt in H
  | H : (_ <=? _)%Z = true |- _ => apply Z.leb_le in H
  end.

(** [vm_decide] evaluates the decision procedure of a closed proposition. *)
Ltac vm_decide :=
  match goal with |- ?P => apply (bool_decide_eq_true_1 P); vm_compute; reflexivity end.

(** ** Machine integers

    A [w]-bit unsigned integer is a [Z]; [wrap w] is the wrap-around of the
    [wrapping_*] operations and of [as] casts, [sat_sub] is
    [saturating_sub], and [fits w] says the value is in range. *)

Definition wrap (w z : Z) : Z := z mod 2 ^ w.
Definition u16 (z : Z) : Z := wrap 16 z.
Definition u32 (z : Z) : Z := wrap 32 z.
Definition u64 (z : Z) : Z := wrap 64 z.
Definition fits (w z : Z) : Prop := 0 <= z < 2 ^ w.
Definition fitsb (w z : Z) : bool := (0 <=? z) && (z <? 2 ^ w).
Definition sat_sub (a b : Z) : Z := Z.max 0 (a - b).
Definition div_ceil (a b : Z) : Z := (a + b - 1) / b.
(** Bitwise complement of a 32-bit value, Rust's [!x]. *)
Definition not32 (z : Z) : Z := Z.lxor z (2 ^ 32 - 1).

Lemma fitsb_spec w z : fitsb w z = true <-> fits w z.
Proof. unfold fitsb, fits. rewrite andb_true_iff, Z.leb_le, Z.ltb_lt. done. Qed.

Lemma wrap_small w z : fits w z -> wrap w z = z.
Proof. intros H. apply Z.mod_small, H. Qed.

Lemma wrap_fits w z : 0 <= w -> fits w (wrap w z).
Proof. intros. apply Z.mod_pos_bound. lia. Qed.

Lemma testbit_fits w z n : 0 <= w <= n -> fits w z -> Z.testbit z n = false.
Proof. intros Hw Hz. rewrite <- (wrap_small w z Hz). apply Z.mod_pow2_bits_high. lia. Qed.

Lemma fits_of_bits w z : 0 <= w -> (forall n, w <= n -> Z.testbit z n = false) -> fits w z.
Proof.
  intros Hw H. assert (z = wrap w z) as ->; [|by apply wrap_fits].
  apply Z.bits_inj'. intros n Hn. unfold wrap. destruct (decide (n < w)).
  - by rewrite Z.mod_pow2_bits_low by lia.
  - rewrite Z.mod_pow2_bits_high by lia. apply H. lia.
Qed.

Lemma land_fits w a b : 0 <= w -> fits w a -> fits w (Z.land a b).
Proof.
  intros Hw Ha. apply fits_of_bits; [done|]. intros n Hn. by rewrite Z.land_spec, (testbit_fits w).
Qed.

Lemma lor_fits w a b : 0 <= w -> fits w a -> fits w b -> fits w (Z.lor a b).
Proof.
  intros Hw Ha Hb. apply fits_of_bits; [done|]. intros n Hn. by rewrite Z.lor_spec, !(testbit_fits w).
Qed.

Lemma lxor_fits w a b : 0 <= w -> fits w a -> fits w b -> fits w (Z.lxor a b).
Proof.
  intros Hw Ha Hb. apply fits_of_bits; [done|]. intros n Hn. by rewrite Z.lxor_spec, !(testbit_fits w).
Qed.

(** ** Values stored in two halves *)

Lemma lor_halves_low k a b : 0 <= k -> fits k a -> wrap k (Z.lor a (Z.shiftl b k)) = a.
Proof.
  intros Hk Ha. unfold wrap. apply Z.bits_inj'. intros n Hn. destruct (decide (n < k)).
  - rewrite Z.mod_pow2_bits_low, Z.lor_spec, Z.shiftl_spec_low by lia. by rewrite orb_false_r.
  - rewrite Z.mod_pow2_bits_high by lia. symmetry. apply (testbit_fits k); [lia|done].
Qed.

Lemma lor_halves_high k a b : 0 <= k -> fits k a -> Z.shiftr (Z.lor a (Z.shiftl b k)) k = b.
Proof.
  intros Hk Ha. apply Z.bits_inj'. intros n Hn. rewrite Z.shiftr_spec, Z.lor_spec, Z.shiftl_spec, (testbit_fits k) by (done || lia).
  cbn. f_equal. lia.
Qed.

Lemma lor_halves_split k w z : 0 <= k -> 0 <= w -> fits (k + w) z -> Z.lor (wrap k z) (Z.shiftl (wrap w (Z.shiftr z k)) k) = z.
Proof.
  intros Hk Hw Hz. rewrite (wrap_small w).
  2:{ unfold fits in *. rewrite Z.shiftr_div_pow2 by lia. rewrite Z.pow_add_r in Hz by lia.
      split; [apply Z.div_pos|apply Z.div_lt_upper_bound]; lia. }
  unfold wrap. apply Z.bits_inj'. intros n Hn. rewrite Z.lor_spec. destruct (decide (n < k)).
  - rewrite Z.mod_pow2_bits_low, Z.shiftl_spec_low by lia. by rewrite orb_false_r.
  - rewrite Z.mod_pow2_bits_high, Z.shiftl_spec, Z.shiftr_spec by lia. cbn. f_equal. lia.
Qed.

Lemma lor_halves_fits k w a b : 0 <= k -> 0 <= w -> fits k a -> fits w b -> fits (k + w) (Z.lor a (Z.shiftl b k)).
Proof.
  intros Hk Hw Ha Hb. apply fits_of_bits; [lia|]. intros n Hn. rewrite Z.lor_spec, Z.shiftl_spec by lia.
  rewrite (testbit_fits k a), (testbit_fits w b); done || lia.
Qed.

(** ** Byte strings

    Offsets and lengths are [Z], as the code's [usize]; every use stays in
    range, and the lemmas below carry the range as a side condition. *)

Definition zlen {A} (l : list A) : Z := Z.of_nat (length l).

(** [&buf[off..off + n]] *)
Definition slice {A} (off n : Z) (l : list A) : list A :=
  take (Z.to_nat n) (drop (Z.to_nat off) l).

(** [buf[off..off + src.len()].copy_from_slice(src)] *)
Definition splice {A} (off : Z) (src l : list A) : list A :=
  take (Z.to_nat off) l ++ src ++ drop (Z.to_nat off + length src) l.

(** [[0u8; n]] *)
Definition zeros (n : Z) : list byte := replicate (Z.to_nat n) Byte.x00.

(** Big- and little-endian integers of [n] bytes. *)
Definition le_bytes (n : nat) (v : Z) : list byte := le_split n v.
Definition be_bytes (n : nat) (v : Z) : list byte := rev (le_split n v).
Definition of_le (b : list byte) : Z := le_combine b.
Definition of_be (b : list byte) : Z := le_combine (rev b).

(** Fields of a structure at a byte offset. *)
Definition get_be (n : nat) (off : Z) (b : list byte) : Z := of_be (slice off (Z.of_nat n) b).
Definition put_be (n : nat) (off v : Z) (b : list byte) : list byte := splice off (be_bytes n v) b.
Definition get_le (n : nat) (off : Z) (b : list byte) : Z := of_le (slice off (Z.of_nat n) b).
Definition put_le (n : nat) (off v : Z) (b : list byte) : list byte := splice off (le_bytes n v) b.

#[global] Arguments slice : simpl never.
#[global] Arguments splice : simpl never.
#[global] Arguments zlen : simpl never.
#[global] Arguments zeros : simpl never.
#[global] Arguments be_bytes : simpl never.
#[global] Arguments le_bytes : simpl never.
#[global] Arguments of_be : simpl never.
#[global] Arguments of_le : simpl never.
#[global] Arguments get_be : simpl never.
#[global] Arguments put_be : simpl never.
#[global] Arguments get_le : simpl never.
#[global] Arguments put_le : simpl never.
#[global] Arguments wrap : simpl never.

Create Rewrite HintDb zlen.

Section Lists.
Context {A : Type}.
Implicit Types (l k s : list A) (o n m : Z) (i : nat).

Lemma zlen_nonneg l : 0 <= zlen l.
Proof. unfold zlen. lia. Qed.

Lemma zlen_nil : zlen (@nil A) = 0.
Proof. done. Qed.

Lemma zlen_cons x l : zlen (x :: l) = 1 + zlen l.
Proof. unfold zlen. simpl length. lia. Qed.

Lemma zlen_app l k : zlen (l ++ k) = zlen l + zlen k.
Proof. unfold zlen. rewrite length_app. lia. Qed.

Lemma zlen_rev l : zlen (rev l) = zlen l.
Proof. unfold zlen. by rewrite length_rev. Qed.

Lemma zlen_map {B} (f : B -> A) (l : list B) : zlen (map f l) = zlen l.
Proof. unfold zlen. by rewrite length_map. Qed.

Lemma zlen_nil_inv l : zlen l = 0 -> l = [].
Proof. destruct l; [done|]. rewrite zlen_cons. pose proof (zlen_nonneg l). lia. Qed.

Lemma zlen_slice o n l : 0 <= o -> 0 <= n -> o + n <= zlen l -> zlen (slice o n l) = n.
Proof. unfold zlen, slice. intros. rewrite length_take, length_drop. lia. Qed.

Lemma zlen_splice o s l : 0 <= o -> o + zlen s <= zlen l -> zlen (splice o s l) = zlen l.
Proof. unfold zlen, splice. intros. rewrite !length_app, length_take, length_drop. lia. Qed.

Lemma lookup_slice o n l i :
  slice o n l !! i = (if decide (Z.of_nat i < n) then l !! (Z.to_nat o + i)%nat else None).
Proof.
  unfold slice. case_decide.
  - rewrite lookup_take_lt by lia. by rewrite lookup_drop.
  - by rewrite lookup_take_ge by lia.
Qed.

Lemma lookup_splice o s l i :
  0 <= o -> o + zlen s <= zlen l ->
  splice o s l !! i =
    (if decide (o <= Z.of_nat i < o + zlen s) then s !! (i - Z.to_nat o)%nat else l !! i).
Proof.
  unfold splice, zlen. intros. case_decide.
  - rewrite lookup_app_r; rewrite length_take; [|lia].
    rewrite lookup_app_l by lia. f_equal. lia.
  - destruct (decide (Z.of_nat i < o)).
    + rewrite lookup_app_l by (rewrite length_take; lia). by rewrite lookup_take_lt by lia.
    + rewrite lookup_app_r; rewrite length_take; [|lia].
      rewrite lookup_app_r by lia. rewrite lookup_drop. f_equal. lia.
Qed.

Lemma slice_splice_same o n s l :
  0 <= o -> zlen s = n -> o + n <= zlen l -> slice o n (splice o s l) = s.
Proof.
  intros Ho Hn Hl. apply list_eq. intros i. rewrite lookup_slice. case_decide.
  - rewrite lookup_splice by lia. rewrite decide_True by lia. f_equal. lia.
  - symmetry. apply lookup_ge_None. unfold zlen in *. lia.
Qed.

Lemma slice_splice_other o n p s l :
  0 <= o -> 0 <= p -> p + zlen s <= zlen l -> o + n <= p \/ p + zlen s <= o ->
  slice o n (splice p s l) = slice o n l.
Proof.
  intros. apply list_eq. intros i. rewrite !lookup_slice. case_decide; [|done].
  rewrite lookup_splice by lia. by rewrite decide_False by lia.
Qed.

Lemma slice_splice_inner o n p s l :
  0 <= p -> p + zlen s <= zlen l -> p <= o -> o + n <= p + zlen s ->
  slice o n (splice p s l) = slice (o - p) n s.
Proof.
  intros. apply list_eq. intros i. rewrite !lookup_slice. case_decide; [|done].
  rewrite lookup_splice by lia. rewrite decide_True by lia. f_equal. lia.
Qed.

Lemma slice_splice_prefix m p s l :
  0 <= p -> p + zlen s <= m -> m <= zlen l -> slice 0 m (splice p s l) = splice p s (slice 0 m l).
Proof.
  intros. pose proof (zlen_nonneg s). apply list_eq. intros i.
  rewrite lookup_slice, !lookup_splice; rewrite ?zlen_slice by lia; try lia.
  rewrite lookup_slice. repeat case_decide; done || lia.
Qed.

Lemma slice_splice_suffix o m p s l :
  0 <= o -> o <= p -> p + zlen s <= o + m -> o + m <= zlen l ->
  slice o m (splice p s l) = splice (p - o) s (slice o m l).
Proof.
  intros. pose proof (zlen_nonneg s). apply list_eq. intros i.
  rewrite lookup_slice, !lookup_splice; rewrite ?zlen_slice by lia; try lia.
  rewrite lookup_slice. repeat case_decide; done || lia || (f_equal; lia).
Qed.

Lemma slice_slice o n p m l :
  0 <= o -> 0 <= p -> o + n <= m -> slice o n (slice p m l) = slice (p + o) n l.
Proof.
  intros. apply list_eq. intros i. rewrite !lookup_slice. case_decide; [|done].
  rewrite decide_True by lia. f_equal. lia.
Qed.

Lemma slice_full n l : n = zlen l -> slice 0 n l = l.
Proof. intros ->. unfold slice, zlen. rewrite Nat2Z.id. by rewrite firstn_all. Qed.

Lemma slice_all o n l : o = 0 -> n = zlen l -> slice o n l = l.
Proof. intros ->. apply slice_full. Qed.

Lemma slice_nil o n l : n <= 0 -> slice o n l = [].
Proof. intros. unfold slice. by replace (Z.to_nat n) with 0%nat by lia. Qed.

Lemma slice_app_l o n l k : 0 <= o -> o + n <= zlen l -> slice o n (l ++ k) = slice o n l.
Proof.
  intros. apply list_eq. intros i. rewrite !lookup_slice. case_decide; [|done].
  apply lookup_app_l. unfold zlen in *. lia.
Qed.

Lemma slice_app_r o n l k : zlen l <= o -> slice o n (l ++ k) = slice (o - zlen l) n k.
Proof.
  intros. apply list_eq. intros i. rewrite !lookup_slice. case_decide; [|done].
  rewrite lookup_app_r by (unfold zlen in *; lia). f_equal. unfold zlen in *. lia.
Qed.

Lemma slice_split o n m l :
  0 <= o -> 0 <= n -> 0 <= m -> slice o (n + m) l = slice o n l ++ slice (o + n) m l.
Proof.
  intros. unfold slice. rewrite !Z2Nat.inj_add by lia.
  rewrite <- drop_drop. by rewrite take_take_drop.
Qed.

Lemma splice_slice o n l : 0 <= o -> 0 <= n -> o + n <= zlen l -> splice o (slice o n l) l = l.
Proof.
  intros. apply list_eq. intros i. rewrite lookup_splice; rewrite ?zlen_slice by lia; try lia.
  case_decide; [|done]. rewrite lookup_slice, decide_True by lia. f_equal. lia.
Qed.

Lemma splice_comm o p s k l :
  0 <= o -> 0 <= p -> o + zlen s <= p -> p + zlen k <= zlen l ->
  splice o s (splice p k l) = splice p k (splice o s l).
Proof.
  intros. pose proof (zlen_nonneg s). pose proof (zlen_nonneg k).
  apply list_eq. intros i.
  rewrite !lookup_splice by (rewrite ?zlen_splice by lia; lia).
  repeat case_decide; done || lia.
Qed.

Lemma splice_splice_same o s k l :
  0 <= o -> zlen s = zlen k -> o + zlen k <= zlen l -> splice o s (splice o k l) = splice o s l.
Proof.
  intros. apply list_eq. intros i.
  rewrite !lookup_splice by (rewrite ?zlen_splice by lia; lia).
  repeat case_decide; done || lia.
Qed.

Lemma splice_app_l o s l k :
  0 <= o -> o + zlen s <= zlen l -> splice o s (l ++ k) = splice o s l ++ k.
Proof.
  intros Ho Hs. pose proof (zlen_nonneg s). pose proof (zlen_nonneg k). apply list_eq. intros i.
  rewrite lookup_splice by (rewrite ?zlen_app; lia).
  destruct (decide (Z.of_nat i < zlen l)).
  - rewrite !lookup_app_l; [by rewrite lookup_splice by lia| |unfold zlen in *; lia].
    pose proof (zlen_splice o s l ltac:(lia) ltac:(lia)). unfold zlen in *; lia.
  - rewrite decide_False by lia.
    pose proof (zlen_splice o s l ltac:(lia) ltac:(lia)).
    rewrite !lookup_app_r by (unfold zlen in *; lia). f_equal. unfold zlen in *; lia.
Qed.

(** Two lists that agree on a prefix and on the rest are equal. *)
Lemma slice_ext l k n :
  0 <= n -> zlen l = zlen k -> slice 0 n l = slice 0 n k ->
  slice n (zlen l - n) l = slice n (zlen l - n) k -> l = k.
Proof.
  intros Hn Hz H1 H2. destruct (decide (n <= zlen l)).
  - rewrite <- (slice_full (n + (zlen l - n)) l) by lia.
    rewrite <- (slice_full (n + (zlen l - n)) k) by lia.
    rewrite !slice_split by lia. rewrite Z.add_0_l. by f_equal.
  - unfold slice in H1. rewrite !drop_0, !take_ge in H1; [done| |]; unfold zlen in *; lia.
Qed.
End Lists.

Lemma zlen_zeros n : 0 <= n -> zlen (zeros n) = n.
Proof. intros. unfold zlen, zeros. rewrite length_replicate. lia. Qed.

Lemma zlen_le_bytes n v : zlen (le_bytes n v) = Z.of_nat n.
Proof. unfold zlen, le_bytes. by rewrite length_le_split. Qed.

Lemma zlen_be_bytes n v : zlen (be_bytes n v) = Z.of_nat n.
Proof. unfold be_bytes. rewrite zlen_rev. apply zlen_le_bytes. Qed.

#[export] Hint Rewrite @zlen_nil @zlen_cons @zlen_app @zlen_rev @zlen_map zlen_le_bytes zlen_be_bytes : zlen.
#[export] Hint Rewrite zlen_zeros @zlen_slice @zlen_splice using lia : zlen.

(** [len] normalises lengths and closes the arithmetic. *)
Ltac len := autorewrite with zlen in *; try lia.

(** ** Endian codecs *)

Lemma le_combine_fits b : fits (zlen b * 8) (le_combine b).
Proof. unfold fits, zlen. rewrite Z.mul_comm. apply le_combine_bound. Qed.

Lemma of_le_bytes n v : of_le (le_bytes n v) = wrap (Z.of_nat n * 8) v.
Proof. apply le_combine_split. Qed.

Lemma of_be_bytes n v : of_be (be_bytes n v) = wrap (Z.of_nat n * 8) v.
Proof. unfold of_be, be_bytes. rewrite rev_involutive. apply le_combine_split. Qed.

Lemma le_bytes_of n b : zlen b = Z.of_nat n -> le_bytes n (of_le b) = b.
Proof. unfold zlen. intros H. apply split_le_combine'. lia. Qed.

Lemma be_bytes_of n b : zlen b = Z.of_nat n -> be_bytes n (of_be b) = b.
Proof.
  unfold zlen. intros H. unfold be_bytes, of_be.
  rewrite split_le_combine' by (rewrite length_rev; lia). apply rev_involutive.
Qed.

Lemma of_be_inj b1 b2 : zlen b1 = zlen b2 -> of_be b1 = of_be b2 -> b1 = b2.
Proof.
  unfold zlen, of_be. intros Hz H. apply le_combine_inj in H.
  - rewrite <- (rev_involutive b1), H. apply rev_involutive.
  - rewrite !length_rev. lia.
Qed.

Section Fields.
Implicit Types (n : nat) (o v : Z) (b s : list byte).

Lemma zlen_put_be n o v b : 0 <= o -> o + Z.of_nat n <= zlen b -> zlen (put_be n o v b) = zlen b.
Proof. intros. unfold put_be. len. rewrite zlen_splice; len. Qed.

Lemma zlen_put_le n o v b : 0 <= o -> o + Z.of_nat n <= zlen b -> zlen (put_le n o v b) = zlen b.
Proof. intros. unfold put_le. rewrite zlen_splice; len. Qed.

Lemma get_be_fits n o b : 0 <= o -> o + Z.of_nat n <= zlen b -> fits (Z.of_nat n * 8) (get_be n o b).
Proof.
  intros. unfold get_be, of_be. pose proof (le_combine_fits (rev (slice o (Z.of_nat n) b))) as Hf.
  by rewrite zlen_rev, zlen_slice in Hf by lia.
Qed.

Lemma get_le_fits n o b : 0 <= o -> o + Z.of_nat n <= zlen b -> fits (Z.of_nat n * 8) (get_le n o b).
Proof.
  intros. unfold get_le, of_le. pose proof (le_combine_fits (slice o (Z.of_nat n) b)) as Hf.
  by rewrite zlen_slice in Hf by lia.
Qed.

Lemma get_be_put_same n o v b :
  0 <= o -> o + Z.of_nat n <= zlen b -> get_be n o (put_be n o v b) = wrap (Z.of_nat n * 8) v.
Proof. intros. unfold get_be, put_be. rewrite slice_splice_same by len. apply of_be_bytes. Qed.

Lemma get_le_put_same n o v b :
  0 <= o -> o + Z.of_nat n <= zlen b -> get_le n o (put_le n o v b) = wrap (Z.of_nat n * 8) v.
Proof. intros. unfold get_le, put_le. rewrite slice_splice_same by len. apply of_le_bytes. Qed.

Lemma get_be_splice_other n o p s b :
  0 <= o -> 0 <= p -> p + zlen s <= zlen b -> o + Z.of_nat n <= p \/ p + zlen s <= o ->
  get_be n o (splice p s b) = get_be n o b.
Proof. intros. unfold get_be. by rewrite slice_splice_other by lia. Qed.

Lemma get_le_splice_other n o p s b :
  0 <= o -> 0 <= p -> p + zlen s <= zlen b -> o + Z.of_nat n <= p \/ p + zlen s <= o ->
  get_le n o (splice p s b) = get_le n o b.
Proof. intros. unfold get_le. by rewrite slice_splice_other by lia. Qed.

Lemma get_be_put_other n m o p v b :
  0 <= o -> 0 <= p -> p + Z.of_nat m <= zlen b -> o + Z.of_nat n <= p \/ p + Z.of_nat m <= o ->
  get_be n o (put_be m p v b) = get_be n o b.
Proof. intros. apply get_be_splice_other; len. Qed.

Lemma get_le_put_other n m o p v b :
  0 <= o -> 0 <= p -> p + Z.of_nat m <= zlen b -> o + Z.of_nat n <= p \/ p + Z.of_nat m <= o ->
  get_le n o (put_le m p v b) = get_le n o b.
Proof. intros. apply get_le_splice_other; len. Qed.

(** Writing a field back with the value it has changes nothing. *)
Lemma put_be_get n o b : 0 <= o -> o + Z.of_nat n <= zlen b -> put_be n o (get_be n o b) b = b.
Proof. intros. unfold put_be, get_be. rewrite be_bytes_of by len. apply splice_slice; lia. Qed.

Lemma put_le_get n o b : 0 <= o -> o + Z.of_nat n <= zlen b -> put_le n o (get_le n o b) b = b.
Proof. intros. unfold put_le, get_le. rewrite le_bytes_of by len. apply splice_slice; lia. Qed.
End Fields.

#[export] Hint Rewrite zlen_put_be zlen_put_le using lia : zlen.

(** ** Rust's [slice::chunks] *)

Fixpoint chunks_of {A} (fuel : nat) (n : nat) (l : list A) : list (list A) :=
  match fuel, l with
  | Datatypes.S fuel, _ :: _ => take n l :: chunks_of fuel n (drop n l)
  | _, _ => []
  end.
Definition chunks {A} (n : Z) (l : list A) : list (list A) := chunks_of (length l) (Z.to_nat n) l.

Lemma chunks_of_spec {A} n : (0 < n)%nat -> forall fuel (l : list A), (length l <= fuel)%nat ->
  concat (chunks_of fuel n l) = l /\ Forall (fun c => c <> [] /\ (length c <= n)%nat) (chunks_of fuel n l) /\
  zlen (chunks_of fuel n l) = div_ceil (zlen l) (Z.of_nat n).
Proof.
  intros Hn. assert (H0 : 0 = div_ceil 0 (Z.of_nat n)) by (unfold div_ceil; rewrite Z.div_small; lia).
  induction fuel as [|fuel IH]; intros l Hl; cbn [chunks_of].
  - destruct l; [|cbn in Hl; lia]. split_and!; [done|constructor|done].
  - destruct l as [|x l]; [split_and!; [done|constructor|done]|].
    destruct (IH (drop n (x :: l))) as (I1 & I2 & I3). { rewrite length_drop. cbn in *. lia. }
    cbn [concat]. rewrite I1. split_and!; [by rewrite take_drop| |].
    + constructor; [|done]. split; [destruct n; [lia|done]|]. rewrite length_take. lia.
    + rewrite zlen_cons, I3. unfold zlen. rewrite length_drop. unfold div_ceil. pose proof (zlen_nonneg l). unfold zlen in *.
      destruct (decide (length (x :: l) <= n)%nat) as [Hle|Hgt].
      * replace (length (x :: l) - n)%nat with 0%nat by lia. rewrite Z.div_small by lia.
        replace (Z.of_nat (length (x :: l)) + Z.of_nat n - 1) with (1 * Z.of_nat n + (Z.of_nat (length (x :: l)) - 1)) by lia.
        rewrite Z.div_add_l, Z.div_small by (cbn in *; lia). lia.
      * rewrite Nat2Z.inj_sub by lia.
        replace (Z.of_nat (length (x :: l)) + Z.of_nat n - 1) with (1 * Z.of_nat n + (Z.of_nat (length (x :: l)) - Z.of_nat n + Z.of_nat n - 1)) by lia.
        rewrite Z.div_add_l by lia. lia.
Qed.

Lemma chunks_spec {A} n (l : list A) : 0 < n ->
  concat (chunks n l) = l /\ Forall (fun c => c <> [] /\ zlen c <= n) (chunks n l) /\ zlen (chunks n l) = div_ceil (zlen l) n.
Proof.
  intros Hn. destruct (chunks_of_spec (Z.to_nat n) ltac:(lia) (length l) l ltac:(lia)) as (P1 & P2 & P3). unfold chunks.
  rewrite Z2Nat.id in P3 by lia. split_and!; [done| |done]. eapply Forall_impl; [exact P2|]. intros c [H1 H2]. split; [done|]. unfold zlen. lia.
Qed.

Lemma chunks_fmap {A B} (f : A -> B) n (l : list A) : chunks n (f <$> l : list B) = (fmap (M := list) f) <$> chunks n l.
Proof.
  unfold chunks. rewrite length_fmap. generalize (length l) as fuel. intros fuel. revert l. induction fuel as [|fuel IH]; intros l; [done|].
  destruct l as [|x l]; [done|]. cbn [fmap list_fmap chunks_of]. rewrite <- IH, <- !fmap_cons, fmap_take, fmap_drop. done.
Qed.
