(* ===== verification/Pod.v ===== *)
(** * Plain-old-data codecs

    The on-disk structures are [repr(C)] structs of big- or little-endian
    fields that the code turns into bytes and back with [Pod::as_bytes] and
    [Pod::from_bytes].  A [codec] is such a layout; [CodecOk] is what its
    clients rely on, and the combinators discharge it field by field. *)

From S2P Require Import Prelude.

Record codec (A : Type) : Type := Codec {
  c_size : Z;
  c_wf : A -> Prop;
  as_bytes : A -> list byte;
  from_bytes : list byte -> A;
}.
Arguments Codec {A} _ _ _ _.
Arguments c_size {A} _.
Arguments c_wf {A} _ _.
Arguments as_bytes {A} _ _.
Arguments from_bytes {A} _ _.

Class CodecOk {A} (c : codec A) : Prop := {
  codec_size_nonneg : 0 <= c_size c;
  codec_len a : c_wf c a -> zlen (as_bytes c a) = c_size c;
  codec_dec_enc a : c_wf c a -> from_bytes c (as_bytes c a) = a;
  codec_dec_wf b : zlen b = c_size c -> c_wf c (from_bytes c b);
  codec_enc_dec b : zlen b = c_size c -> as_bytes c (from_bytes c b) = b;
}.

(** ** Combinators *)

(** [Be16], [Be32], [Be64], and [u8] as [be 1]. *)
Definition be (n : nat) : codec Z :=
  Codec (Z.of_nat n) (fits (Z.of_nat n * 8)) (be_bytes n) of_be.

(** Native (little-endian) integers of the ext4 structures. *)
Definition le (n : nat) : codec Z :=
  Codec (Z.of_nat n) (fits (Z.of_nat n * 8)) (le_bytes n) of_le.

(** [[u8; n]] *)
Definition raw (n : Z) : codec (list byte) :=
  Codec n (fun b => zlen b = n) (fun b => b) (fun b => b).

(** Two consecutive fields. *)
Definition cpair {A B} (ca : codec A) (cb : codec B) : codec (A * B) :=
  Codec (c_size ca + c_size cb)
        (fun p => c_wf ca p.1 /\ c_wf cb p.2)
        (fun p => as_bytes ca p.1 ++ as_bytes cb p.2)
        (fun b => (from_bytes ca (slice 0 (c_size ca) b),
                   from_bytes cb (slice (c_size ca) (c_size cb) b))).

(** [[T; n]] *)
Fixpoint array_dec {A} (c : codec A) (n : nat) (b : list byte) : list A :=
  match n with
  | O => []
  | S n => from_bytes c (slice 0 (c_size c) b) :: array_dec c n (slice (c_size c) (Z.of_nat n * c_size c) b)
  end.

Definition array {A} (n : nat) (c : codec A) : codec (list A) :=
  Codec (Z.of_nat n * c_size c) (fun l => length l = n /\ Forall (c_wf c) l)
        (fun l => concat (map (as_bytes c) l)) (array_dec c n).

(** A struct whose fields, in order, are the components of a tuple. *)
Definition struct {A B} (f : A -> B) (g : B -> A) (c : codec A) : codec B :=
  Codec (c_size c) (fun x => c_wf c (g x)) (fun x => as_bytes c (g x)) (fun b => f (from_bytes c b)).

(** Reading a struct at an offset of a buffer, and writing one there. *)
Definition read_at {A} (c : codec A) (off : Z) (b : list byte) : A :=
  from_bytes c (slice off (c_size c) b).
Definition write_at {A} (c : codec A) (off : Z) (a : A) (b : list byte) : list byte :=
  splice off (as_bytes c a) b.

#[global] Arguments read_at : simpl never.
#[global] Arguments write_at : simpl never.

Declare Scope codec_scope.
Delimit Scope codec_scope with codec.
Notation "a ⊗ b" := (cpair a b) (at level 60, right associativity) : codec_scope.

(** ** Laws *)

#[export] Instance be_ok n : CodecOk (be n).
Proof.
  split; simpl.
  - lia.
  - intros. apply zlen_be_bytes.
  - intros a Ha. rewrite of_be_bytes. by apply wrap_small.
  - intros b Hb. pose proof (le_combine_fits (rev b)) as H. by rewrite zlen_rev, Hb in H.
  - intros b Hb. by apply be_bytes_of.
Qed.

#[export] Instance le_ok n : CodecOk (le n).
Proof.
  split; simpl.
  - lia.
  - intros. apply zlen_le_bytes.
  - intros a Ha. rewrite of_le_bytes. by apply wrap_small.
  - intros b Hb. pose proof (le_combine_fits b) as H. by rewrite Hb in H.
  - intros b Hb. by apply le_bytes_of.
Qed.

(** The size is decided by computation at each use. *)
Lemma raw_ok n : (0 <=? n) = true -> CodecOk (raw n).
Proof. intros H%Z.leb_le. by split. Qed.
#[export] Hint Extern 1 (CodecOk (raw _)) => apply raw_ok; reflexivity : typeclass_instances.

#[export] Instance cpair_ok {A B} (ca : codec A) (cb : codec B) :
  CodecOk ca -> CodecOk cb -> CodecOk (cpair ca cb).
Proof.
  intros Ha Hb. pose proof (codec_size_nonneg (c := ca)). pose proof (codec_size_nonneg (c := cb)).
  split; simpl.
  - lia.
  - intros [a b] [Wa Wb]. simpl in *. rewrite zlen_app, !codec_len; done.
  - intros [a b] [Wa Wb]. simpl in *.
    rewrite slice_app_l, slice_full, slice_app_r by (rewrite ?codec_len by done; lia).
    rewrite (codec_len a), Z.sub_diag, slice_full by (rewrite ?codec_len; done).
    by rewrite !codec_dec_enc.
  - intros b Hz. split; apply codec_dec_wf; apply zlen_slice; lia.
  - intros b Hz. rewrite !codec_enc_dec by (apply zlen_slice; lia).
    rewrite <- (Z.add_0_l (c_size ca)) at 2. rewrite <- slice_split by lia. apply slice_full. lia.
Qed.

#[export] Instance array_ok {A} n (c : codec A) : CodecOk c -> CodecOk (array n c).
Proof.
  intros Hc. pose proof (codec_size_nonneg (c := c)).
  assert (Hlen : forall l, Forall (c_wf c) l -> zlen (concat (map (as_bytes c) l)) = zlen l * c_size c).
  { induction 1 as [|a l Ha Hl IH]; [done|]. simpl. rewrite zlen_app, IH, codec_len, zlen_cons by done. lia. }
  split; simpl.
  - lia.
  - intros l [Hn Hl]. rewrite Hlen by done. unfold zlen. by rewrite Hn.
  - intros l [Hn Hl]. subst n. induction Hl as [|a l Ha Hl IH]; [done|]. simpl.
    rewrite slice_app_l, slice_full, codec_dec_enc by (rewrite ?codec_len by done; lia || done). f_equal.
    rewrite slice_app_r, (codec_len a Ha), Z.sub_diag by (rewrite codec_len by done; lia).
    rewrite slice_full; [done|]. by rewrite Hlen.
  - intros b Hb. revert b Hb. induction n as [|n IH]; intros b Hb; simpl; [by split|].
    destruct (IH (slice (c_size c) (Z.of_nat n * c_size c) b)) as [IH1 IH2]; [apply zlen_slice; lia|].
    split; [by rewrite IH1|]. apply Forall_cons. split; [|done]. apply codec_dec_wf, zlen_slice; lia.
  - intros b Hb. revert b Hb. induction n as [|n IH]; intros b Hb; simpl; [symmetry; apply zlen_nil_inv; lia|].
    rewrite codec_enc_dec, IH by (apply zlen_slice; lia).
    rewrite <- (Z.add_0_l (c_size c)) at 2. rewrite <- slice_split by lia. apply slice_full. lia.
Qed.

Lemma struct_ok {A B} (f : A -> B) (g : B -> A) (c : codec A) :
  (forall a, g (f a) = a) -> (forall b, f (g b) = b) -> CodecOk c -> CodecOk (struct f g c).
Proof.
  intros Hgf Hfg Hc. split; simpl.
  - apply codec_size_nonneg.
  - intros. by apply codec_len.
  - intros. by rewrite codec_dec_enc.
  - intros. rewrite Hgf. by apply codec_dec_wf.
  - intros. rewrite Hgf. by apply codec_enc_dec.
Qed.

Section ReadWrite.
Context {A : Type} (c : codec A) `{!CodecOk c}.

Lemma zlen_write_at off a b :
  0 <= off -> off + c_size c <= zlen b -> c_wf c a -> zlen (write_at c off a b) = zlen b.
Proof. intros. apply zlen_splice; rewrite ?codec_len; lia || done. Qed.

Lemma read_write_same off a b :
  0 <= off -> off + c_size c <= zlen b -> c_wf c a -> read_at c off (write_at c off a b) = a.
Proof.
  intros. unfold read_at, write_at. rewrite slice_splice_same; [by apply codec_dec_enc|done| |done].
  by apply codec_len.
Qed.

Lemma slice_write_other off a b o n :
  0 <= off -> off + c_size c <= zlen b -> c_wf c a -> 0 <= o ->
  o + n <= off \/ off + c_size c <= o -> slice o n (write_at c off a b) = slice o n b.
Proof. intros. apply slice_splice_other; rewrite ?codec_len; done || lia. Qed.

Lemma read_at_wf off b : 0 <= off -> off + c_size c <= zlen b -> c_wf c (read_at c off b).
Proof.
  intros. pose proof (codec_size_nonneg (c := c)).
  apply codec_dec_wf, zlen_slice; lia.
Qed.

Lemma read_at_splice_other off b p s :
  0 <= off -> 0 <= p -> p + zlen s <= zlen b ->
  off + c_size c <= p \/ p + zlen s <= off -> read_at c off (splice p s b) = read_at c off b.
Proof. intros. unfold read_at. by rewrite slice_splice_other by lia. Qed.

Lemma read_at_put_be_other off b n p v :
  0 <= off -> 0 <= p -> p + Z.of_nat n <= zlen b ->
  off + c_size c <= p \/ p + Z.of_nat n <= off -> read_at c off (put_be n p v b) = read_at c off b.
Proof. intros. apply read_at_splice_other; rewrite ?zlen_be_bytes; lia. Qed.

Lemma as_bytes_inj a1 a2 : c_wf c a1 -> c_wf c a2 -> as_bytes c a1 = as_bytes c a2 -> a1 = a2.
Proof.
  intros W1 W2 H. rewrite <- (codec_dec_enc (c := c) a1), <- (codec_dec_enc (c := c) a2) by done.
  by rewrite H.
Qed.
End ReadWrite.
