(* ===== verification/Checksum.v ===== *)
(** * CRC-32C and the metadata checksum seeds

    Models [checksum.rs]: the table built at compile time, the table-driven
    [crc32c], and the per-filesystem and per-inode seeds.  The lemmas relate
    the table to the bit-serial shift register and give the algebra the
    checksum clients need: chaining, 32-bit results and detection of every
    change confined to four consecutive bytes. *)

From S2P Require Import Prelude.

(** ** The code *)

(** The reflected Castagnoli polynomial, [POLY]. *)
Definition POLY : Z := 0x82F63B78.

(** One iteration of the inner [while bit < 8] loop. *)
Definition crc_bit (crc : Z) : Z :=
  if negb (Z.land crc 1 =? 0) then Z.lxor (Z.shiftr crc 1) POLY else Z.shiftr crc 1.

(** [CRC32C_TABLE]: entry [i] is [i] after eight iterations. *)
Definition CRC32C_TABLE : list Z :=
  map (fun i => Nat.iter 8 crc_bit (Z.of_nat i)) (seq 0 256).

Definition crc32c_byte (crc : Z) (b : byte) : Z :=
  Z.lxor (Z.shiftr crc 8)
         (nth (Z.to_nat (Z.land (Z.lxor crc (byte.unsigned b)) 0xFF)) CRC32C_TABLE 0).

Definition crc32c (seed : Z) (data : list byte) : Z := fold_left crc32c_byte data seed.

(** [FsCsumSeed] and [InodeCsumSeed] are newtypes of [u32]. *)
Record FsCsumSeed : Type := { fs_seed : Z }.
Record InodeCsumSeed : Type := { inode_seed : Z }.

(** [FsCsumSeed::derive_inode] *)
Definition derive_inode (s : FsCsumSeed) (ino generation : Z) : InodeCsumSeed :=
  let s1 := crc32c (fs_seed s) (le_bytes 4 ino) in
  {| inode_seed := crc32c s1 (le_bytes 4 generation) |}.

#[global] Arguments crc32c : simpl never.

(** ** Reference: the bit-serial register *)

Definition crc_serial (seed : Z) (data : list byte) : Z :=
  fold_left (fun crc b => Nat.iter 8 crc_bit (Z.lxor crc (byte.unsigned b))) data seed.

(** ** Lemmas *)

Lemma crc_bit_odd c :
  crc_bit c = if Z.odd c then Z.lxor (Z.shiftr c 1) POLY else Z.shiftr c 1.
Proof.
  unfold crc_bit. change 1 with (Z.ones 1) at 1. rewrite Z.land_ones by lia.
  change (2 ^ 1) with 2. rewrite Zmod_odd. by destruct (Z.odd c).
Qed.

Lemma crc_bit_lxor a b : crc_bit (Z.lxor a b) = Z.lxor (crc_bit a) (crc_bit b).
Proof.
  rewrite !crc_bit_odd. rewrite <- !Z.bit0_odd, Z.lxor_spec, Z.shiftr_lxor.
  destruct (Z.testbit a 0), (Z.testbit b 0); simpl; apply Z.bits_inj'; intros n Hn;
    rewrite ?Z.lxor_spec;
    destruct (Z.testbit (a ≫ 1) n), (Z.testbit (b ≫ 1) n), (Z.testbit POLY n); done.
Qed.

Lemma crc_bits_lxor n a b :
  Nat.iter n crc_bit (Z.lxor a b) = Z.lxor (Nat.iter n crc_bit a) (Nat.iter n crc_bit b).
Proof. induction n as [|n IH]; simpl; [done|]. by rewrite IH, crc_bit_lxor. Qed.

Lemma crc_bits_add n m a :
  Nat.iter n crc_bit (Nat.iter m crc_bit a) = Nat.iter (n + m) crc_bit a.
Proof. by rewrite Nat.iter_add. Qed.

(** Shifting a value up by [n] and clocking [n] times gives it back. *)
Lemma crc_bits_shift n z : Nat.iter n crc_bit (Z.shiftl z (Z.of_nat n)) = z.
Proof.
  induction n as [|n IH]; [by rewrite Z.shiftl_0_r|].
  rewrite Nat.iter_succ_r. rewrite <- IH at 2. f_equal.
  rewrite crc_bit_odd, <- Z.bit0_odd, Z.shiftl_spec_low by lia.
  rewrite Z.shiftr_shiftl_l by lia. f_equal. lia.
Qed.

Lemma crc_bit_fits c : fits 32 c -> fits 32 (crc_bit c).
Proof.
  intros Hc. rewrite crc_bit_odd.
  assert (H1 : fits 32 (Z.shiftr c 1)).
  { unfold fits in *. rewrite Z.shiftr_div_pow2 by lia. change (2 ^ 1) with 2. split;
      [apply Z.div_pos | apply Z.div_lt_upper_bound]; lia. }
  destruct (Z.odd c); [|done]. apply lxor_fits; [lia|done|]. by unfold fits, POLY.
Qed.

Lemma crc_bits_fits n c : fits 32 c -> fits 32 (Nat.iter n crc_bit c).
Proof. intros. induction n as [|n IH]; simpl; [done|]. by apply crc_bit_fits. Qed.

Lemma lxor_cancel_l a b c : Z.lxor a b = Z.lxor a c -> b = c.
Proof.
  intros H. apply (f_equal (Z.lxor a)) in H.
  by rewrite <- !Z.lxor_assoc, Z.lxor_nilpotent, !Z.lxor_0_l in H.
Qed.

(** The register loses no information: bit 31 of the result tells which way
    the step went, because the polynomial has it set and the shift clears it. *)
Lemma crc_bit_zero c : fits 32 c -> crc_bit c = 0 -> c = 0.
Proof.
  unfold fits. rewrite crc_bit_odd. intros Hc H. destruct (Z.odd c) eqn:Ho.
  - exfalso. apply (f_equal (fun z => Z.testbit z 31)) in H.
    rewrite Z.lxor_spec, Z.shiftr_spec, Z.bits_0 in H by lia.
    replace (Z.testbit POLY 31) with true in H by reflexivity.
    by rewrite (testbit_fits 32) in H by (done || lia).
  - rewrite Z.shiftr_div_pow2 in H by lia. change (2 ^ 1) with 2 in H.
    pose proof (Z.div_mod c 2 ltac:(lia)) as Hd. rewrite Zmod_odd, Ho in Hd. lia.
Qed.

Lemma crc_bits_zero n c : fits 32 c -> Nat.iter n crc_bit c = 0 -> c = 0.
Proof.
  intros Hc. induction n as [|n IH]; simpl; [done|]. intros H.
  apply IH. apply crc_bit_zero; [by apply crc_bits_fits|done].
Qed.

Lemma crc_bits_inj n a b :
  fits 32 a -> fits 32 b -> Nat.iter n crc_bit a = Nat.iter n crc_bit b -> a = b.
Proof.
  intros Ha Hb H. apply (f_equal (Z.lxor (Nat.iter n crc_bit b))) in H.
  rewrite <- crc_bits_lxor, Z.lxor_nilpotent in H.
  apply crc_bits_zero in H; [|by apply lxor_fits]. by apply Z.lxor_eq in H.
Qed.

Lemma byte_fits b : fits 8 (byte.unsigned b).
Proof. apply byte.unsigned_range. Qed.

Lemma CRC32C_TABLE_lookup i :
  0 <= i < 256 -> nth (Z.to_nat i) CRC32C_TABLE 0 = Nat.iter 8 crc_bit i.
Proof.
  intros Hi. unfold CRC32C_TABLE. set (f := fun i => Nat.iter 8 crc_bit (Z.of_nat i)).
  rewrite (nth_indep _ 0 (f 0%nat)) by (rewrite length_map, length_seq; lia).
  rewrite map_nth, seq_nth by lia. subst f. cbv beta. rewrite Nat.add_0_l. by rewrite Z2Nat.id by lia.
Qed.

(** One table step is eight clocks of the register. *)
Lemma crc32c_byte_serial crc b :
  crc32c_byte crc b = Nat.iter 8 crc_bit (Z.lxor crc (byte.unsigned b)).
Proof.
  unfold crc32c_byte. set (x := Z.lxor crc (byte.unsigned b)).
  assert (Hsr : Z.shiftr crc 8 = Z.shiftr x 8).
  { subst x. rewrite Z.shiftr_lxor. rewrite (Z.shiftr_div_pow2 (byte.unsigned b)) by lia.
    rewrite Z.div_small by apply byte_fits. by rewrite Z.lxor_0_r. }
  change 0xFF with (Z.ones 8). rewrite Z.land_ones by lia.
  pose proof (Z.mod_pos_bound x (2 ^ 8) ltac:(lia)).
  rewrite CRC32C_TABLE_lookup, Hsr by lia.
  rewrite <- (crc_bits_shift 8 (Z.shiftr x 8)) at 1. rewrite <- crc_bits_lxor. f_equal.
  apply Z.bits_inj'. intros n Hn. rewrite Z.lxor_spec. change (Z.of_nat 8) with 8.
  destruct (decide (n < 8)).
  - by rewrite Z.shiftl_spec_low, Z.mod_pow2_bits_low, xorb_false_l by lia.
  - rewrite Z.shiftl_spec, Z.shiftr_spec, Z.mod_pow2_bits_high, xorb_false_r by lia.
    f_equal. lia.
Qed.

Lemma crc32c_nil seed : crc32c seed [] = seed.
Proof. done. Qed.

Lemma crc32c_cons seed b l :
  crc32c seed (b :: l) = crc32c (Nat.iter 8 crc_bit (Z.lxor seed (byte.unsigned b))) l.
Proof. unfold crc32c. simpl fold_left. by rewrite crc32c_byte_serial. Qed.

Lemma crc32c_app seed a b : crc32c seed (a ++ b) = crc32c (crc32c seed a) b.
Proof. apply fold_left_app. Qed.

Lemma crc32c_fits seed data : fits 32 seed -> fits 32 (crc32c seed data).
Proof.
  revert seed. induction data as [|b l IH]; intros seed Hs; [done|].
  rewrite crc32c_cons. apply IH, crc_bits_fits, lxor_fits; [lia|done|].
  pose proof (byte_fits b). unfold fits in *. lia.
Qed.

Lemma le_combine_cons_lxor b l :
  le_combine (b :: l) = Z.lxor (byte.unsigned b) (Z.shiftl (le_combine l) 8).
Proof.
  change (le_combine (b :: l)) with (Z.lor (byte.unsigned b) (Z.shiftl (le_combine l) 8)).
  apply Z.bits_inj'. intros n Hn. rewrite Z.lor_spec, Z.lxor_spec.
  destruct (decide (n < 8)).
  - rewrite Z.shiftl_spec_low by lia. by destruct (Z.testbit _ n).
  - rewrite (testbit_fits 8 (byte.unsigned b)); [done|lia|apply byte_fits].
Qed.

(** The checksum of a message is the register clocked over the message read
    as one little-endian number. *)
Lemma crc32c_clock seed data :
  crc32c seed data = Nat.iter (8 * length data) crc_bit (Z.lxor seed (le_combine data)).
Proof.
  revert seed. induction data as [|b l IH]; intros seed; [simpl; by rewrite Z.lxor_0_r|].
  rewrite crc32c_cons, IH, le_combine_cons_lxor.
  replace (8 * length (b :: l))%nat with (8 * length l + 8)%nat by (simpl length; lia).
  rewrite <- crc_bits_add. f_equal.
  pose proof (crc_bits_shift 8 (le_combine l)) as Hsh. change (Z.of_nat 8) with 8 in Hsh.
  by rewrite <- Z.lxor_assoc, (crc_bits_lxor 8 _ (_ ≪ 8)), Hsh.
Qed.

Lemma crc32c_inj_seed s1 s2 data :
  fits 32 s1 -> fits 32 s2 -> crc32c s1 data = crc32c s2 data -> s1 = s2.
Proof.
  rewrite !crc32c_clock, !crc_bits_lxor. intros H1 H2 H.
  rewrite !(Z.lxor_comm (Nat.iter _ _ s1)), !(Z.lxor_comm (Nat.iter _ _ s2)) in H.
  apply lxor_cancel_l in H. by apply crc_bits_inj in H.
Qed.

Lemma crc32c_inj_short seed w1 w2 :
  fits 32 seed -> zlen w1 = zlen w2 -> zlen w1 <= 4 -> crc32c seed w1 = crc32c seed w2 -> w1 = w2.
Proof.
  intros Hs Hz Hl. rewrite !crc32c_clock.
  assert (Hfit : forall w, zlen w <= 4 -> fits 32 (le_combine w)).
  { intros w Hw. pose proof (le_combine_fits w) as [? Hf]. split; [lia|].
    eapply Z.lt_le_trans; [exact Hf|]. apply Z.pow_le_mono_r; unfold zlen in *; lia. }
  unfold zlen in *. replace (length w2) with (length w1) by lia. intros H.
  apply crc_bits_inj in H; [|apply lxor_fits; [lia|done|apply Hfit; lia]..].
  apply lxor_cancel_l in H. by apply le_combine_inj in H; [|lia].
Qed.

(** ** Properties *)

(** the table-driven [crc32c] computes what the bit-serial CRC-32C
    register computes, for every 32-bit seed and every message. *)
Theorem crc32c_table_correct seed data : crc32c seed data = crc_serial seed data.
Proof.
  revert seed. induction data as [|b l IH]; intros seed; [done|].
  rewrite crc32c_cons. apply IH.
Qed.

(** a change confined to four consecutive bytes always changes the
    checksum, wherever it is in the message. *)
Theorem crc32c_detects_burst seed p w1 w2 s :
  fits 32 seed -> zlen w1 = zlen w2 -> zlen w1 <= 4 -> w1 <> w2 ->
  crc32c seed (p ++ w1 ++ s) <> crc32c seed (p ++ w2 ++ s).
Proof.
  intros Hs Hz Hl Hne H. rewrite !crc32c_app in H.
  pose proof (crc32c_fits _ p Hs).
  apply crc32c_inj_seed in H; [|by apply crc32c_fits..].
  by apply crc32c_inj_short in H.
Qed.

(** The published check value of CRC-32C. *)
Example crc32c_check_value :
  not32 (crc32c (not32 0) (map (fun d => byte.of_Z (Z.of_nat d + 0x30)) (seq 1 9))) = 0xE3069283.
Proof. vm_compute. reflexivity. Qed.
