(* ===== verification/JournalFormat.v ===== *)
(** * The on-disk format of the journal: blocks, headers, checksums

    Models the first half of [journal/format.rs]: the raw big-endian
    structures, and the CRC-32C checksums of the superblock, of descriptor
    and revoke blocks (a tail), of commit blocks (an inner field) and of
    logged data blocks. *)

From S2P Require Import Prelude Pod Checksum.

(** ** The code *)

(** [prelude.rs] fixes the block size of the file system at 4 KiB. *)
Definition BLOCK_SIZE : Z := 4096.

(** A value of type [[u8; BLOCK_SIZE]]. *)
Definition is_block (b : list byte) : Prop := zlen b = BLOCK_SIZE.

#[export] Instance is_block_dec b : Decision (is_block b).
Proof. unfold is_block. apply _. Defined.

Definition JBD2_MAGIC : Z := 0xC03B3998.
Definition BLOCKTYPE_DESCRIPTOR : Z := 1.
Definition BLOCKTYPE_COMMIT : Z := 2.
Definition BLOCKTYPE_SUPERBLOCK_V1 : Z := 3.
Definition BLOCKTYPE_SUPERBLOCK_V2 : Z := 4.
Definition BLOCKTYPE_REVOKE : Z := 5.
Definition TAG_FLAG_ESCAPE : Z := 1.
Definition TAG_FLAG_SAME_UUID : Z := 2.
Definition TAG_FLAG_LAST_TAG : Z := 8.
Definition COMPAT_CHECKSUM : Z := 0x1.
Definition INCOMPAT_REVOKE : Z := 0x1.
Definition INCOMPAT_64BIT : Z := 0x2.
Definition INCOMPAT_ASYNC_COMMIT : Z := 0x4.
Definition INCOMPAT_CSUM_V2 : Z := 0x8.
Definition INCOMPAT_CSUM_V3 : Z := 0x10.
Definition INCOMPAT_FAST_COMMIT : Z := 0x20.
Definition INCOMPAT_SUPP : Z :=
  Z.lor (Z.lor (Z.lor INCOMPAT_REVOKE INCOMPAT_64BIT) INCOMPAT_CSUM_V2) INCOMPAT_CSUM_V3.
Definition JBD2_CRC32C_CHKSUM : Z := 4.

(** [flags & mask != 0] *)
Definition has_flag (flags mask : Z) : bool := negb (Z.land flags mask =? 0).

(** The 12-byte header of every journal metadata block. *)
Record RawJournalHeader : Type := {
  h_magic : Z;
  h_blocktype : Z;
  h_sequence : Z;
}.

Definition header_codec : codec RawJournalHeader :=
  struct (fun '(m, (t, s)) => {| h_magic := m; h_blocktype := t; h_sequence := s |})
         (fun h => (h_magic h, (h_blocktype h, h_sequence h)))
         (be 4 ⊗ be 4 ⊗ be 4)%codec.

(** [RawJournalHeader::parse] *)
Definition parse_header (block : list byte) : RawJournalHeader := read_at header_codec 0 block.

(** The journal superblock, 1024 bytes. *)
Record RawJournalSuperblock : Type := {
  s_header : RawJournalHeader;
  s_blocksize : Z;
  s_maxlen : Z;
  s_first : Z;
  s_sequence : Z;
  s_start : Z;
  s_errno : Z;
  s_feature_compat : Z;
  s_feature_incompat : Z;
  s_feature_ro_compat : Z;
  s_uuid : list byte;
  s_nr_users : Z;
  s_dynsuper : Z;
  s_max_transaction : Z;
  s_max_trans_data : Z;
  s_checksum_type : Z;
  s_padding2 : list byte;
  s_num_fc_blks : Z;
  s_head : Z;
  s_padding : list byte;
  s_checksum : Z;
  s_users : list byte;
}.

Definition superblock_codec : codec RawJournalSuperblock :=
  struct
    (fun '(h, (bs, (ml, (fi, (sq, (st, (er, (fc, (fi', (fr, (uu, (nu, (dy, (mt, (md, (ct, (p2,
           (fcb, (hd, (pd, (ck, us))))))))))))))))))))) =>
       Build_RawJournalSuperblock h bs ml fi sq st er fc fi' fr uu nu dy mt md ct p2 fcb hd pd ck us)
    (fun r => (s_header r, (s_blocksize r, (s_maxlen r, (s_first r, (s_sequence r, (s_start r,
       (s_errno r, (s_feature_compat r, (s_feature_incompat r, (s_feature_ro_compat r, (s_uuid r,
       (s_nr_users r, (s_dynsuper r, (s_max_transaction r, (s_max_trans_data r, (s_checksum_type r,
       (s_padding2 r, (s_num_fc_blks r, (s_head r, (s_padding r, (s_checksum r, s_users r))))))))))))))))))))))
    (header_codec ⊗ be 4 ⊗ be 4 ⊗ be 4 ⊗ be 4 ⊗ be 4 ⊗ be 4 ⊗ be 4 ⊗ be 4 ⊗ be 4 ⊗ raw 16
     ⊗ be 4 ⊗ be 4 ⊗ be 4 ⊗ be 4 ⊗ be 1 ⊗ raw 3 ⊗ be 4 ⊗ be 4 ⊗ raw 160 ⊗ be 4 ⊗ raw 768)%codec.

Definition JOURNAL_SUPERBLOCK_SIZE : Z := 1024.

(** [offset_of!(RawJournalSuperblock, s_checksum)] *)
Definition SB_CHECKSUM_OFFSET : Z := 0xFC.

(** [RawJournalSuperblock::checksum] *)
Definition superblock_checksum (r : RawJournalSuperblock) : Z :=
  let bytes := as_bytes superblock_codec r in
  let head := crc32c (not32 0) (slice 0 SB_CHECKSUM_OFFSET bytes) in
  let hole := crc32c head (zeros 4) in
  crc32c hole (slice (SB_CHECKSUM_OFFSET + 4) (zlen bytes - (SB_CHECKSUM_OFFSET + 4)) bytes).

(** [RawJournalSuperblock::recovery_start] *)
Definition recovery_start (r : RawJournalSuperblock) : option Z :=
  if s_start r =? 0 then None else Some (s_start r).

Definition set_s_checksum (r : RawJournalSuperblock) (v : Z) : RawJournalSuperblock :=
  Build_RawJournalSuperblock (s_header r) (s_blocksize r) (s_maxlen r) (s_first r) (s_sequence r)
    (s_start r) (s_errno r) (s_feature_compat r) (s_feature_incompat r) (s_feature_ro_compat r)
    (s_uuid r) (s_nr_users r) (s_dynsuper r) (s_max_transaction r) (s_max_trans_data r)
    (s_checksum_type r) (s_padding2 r) (s_num_fc_blks r) (s_head r) (s_padding r) v (s_users r).

(** [RawJournalSuperblock::stamp_checksum] *)
Definition stamp_checksum (r : RawJournalSuperblock) : RawJournalSuperblock :=
  if has_flag (s_feature_incompat r) (Z.lor INCOMPAT_CSUM_V2 INCOMPAT_CSUM_V3)
  then set_s_checksum r (superblock_checksum r)
  else r.

(** The block tags of a descriptor: the 8-byte prefix form and the 16-byte
    csum-v3 form. *)
Record RawBlockTag : Type := {
  t_blocknr : Z;
  t_checksum : Z;
  t_flags : Z;
}.

Definition block_tag_codec : codec RawBlockTag :=
  struct (fun '(b, (c, f)) => {| t_blocknr := b; t_checksum := c; t_flags := f |})
         (fun t => (t_blocknr t, (t_checksum t, t_flags t)))
         (be 4 ⊗ be 2 ⊗ be 2)%codec.

Record RawJournalBlockTag3 : Type := {
  t3_blocknr : Z;
  t3_flags : Z;
  t3_blocknr_high : Z;
  t3_checksum : Z;
}.

Definition block_tag3_codec : codec RawJournalBlockTag3 :=
  struct (fun '(b, (f, (h, c))) =>
            {| t3_blocknr := b; t3_flags := f; t3_blocknr_high := h; t3_checksum := c |})
         (fun t => (t3_blocknr t, (t3_flags t, (t3_blocknr_high t, t3_checksum t))))
         (be 4 ⊗ be 4 ⊗ be 4 ⊗ be 4)%codec.

Definition BLOCK_TAG_SIZE : Z := 8.
Definition BLOCK_TAG3_SIZE : Z := 16.
Definition TAG_UUID_BYTES : Z := 16.
Definition DESCRIPTOR_TAIL_BYTES : Z := 4.

(** The header of a revoke block. *)
Record RawRevokeHeader : Type := {
  r_header : RawJournalHeader;
  r_count : Z;
}.

Definition revoke_header_codec : codec RawRevokeHeader :=
  struct (fun '(h, c) => {| r_header := h; r_count := c |}) (fun r => (r_header r, r_count r))
         (header_codec ⊗ be 4)%codec.

Definition REVOKE_HEADER_SIZE : Z := 16.

(** [RawRevokeHeader::parse] *)
Definition parse_revoke_header (block : list byte) : RawRevokeHeader :=
  read_at revoke_header_codec 0 block.

(** The commit block, 60 bytes; [h_chksum] is [[Be32; 8]]. *)
Record RawCommitBlock : Type := {
  c_header : RawJournalHeader;
  h_chksum_type : Z;
  h_chksum_size : Z;
  h_padding : list byte;
  h_chksum : Z;
  h_chksum_rest : list byte;
  h_commit_sec : Z;
  h_commit_nsec : Z;
}.

Definition commit_codec : codec RawCommitBlock :=
  struct
    (fun '(h, (ty, (sz, (pd, (ck, (rs, (se, ns))))))) => Build_RawCommitBlock h ty sz pd ck rs se ns)
    (fun c => (c_header c, (h_chksum_type c, (h_chksum_size c, (h_padding c, (h_chksum c,
                (h_chksum_rest c, (h_commit_sec c, h_commit_nsec c))))))))
    (header_codec ⊗ be 1 ⊗ be 1 ⊗ raw 2 ⊗ be 4 ⊗ raw 28 ⊗ be 8 ⊗ be 4)%codec.

Definition COMMIT_BLOCK_SIZE : Z := 60.

(** [offset_of!(RawCommitBlock, h_chksum)] *)
Definition COMMIT_CHKSUM_OFFSET : Z := 16.

(** ** The journal checksum seed *)

Record JournalCsumSeed : Type := { jseed : Z }.

(** [JournalCsumSeed::derive] *)
Definition derive (uuid : list byte) : JournalCsumSeed := {| jseed := crc32c (not32 0) uuid |}.

Definition block_tail_csum (s : JournalCsumSeed) (block : list byte) : Z :=
  let body := crc32c (jseed s) (slice 0 (BLOCK_SIZE - DESCRIPTOR_TAIL_BYTES) block) in
  crc32c body (zeros DESCRIPTOR_TAIL_BYTES).

Definition verify_block_tail (s : JournalCsumSeed) (block : list byte) : bool :=
  let stored := get_be 4 (BLOCK_SIZE - DESCRIPTOR_TAIL_BYTES) block in
  stored =? block_tail_csum s block.

Definition stamp_block_tail (s : JournalCsumSeed) (block : list byte) : list byte :=
  let tail := block_tail_csum s block in
  put_be 4 (BLOCK_SIZE - DESCRIPTOR_TAIL_BYTES) tail block.

Definition commit_block_csum (s : JournalCsumSeed) (block : list byte) : Z :=
  let head := crc32c (jseed s) (slice 0 COMMIT_CHKSUM_OFFSET block) in
  let hole := crc32c head (zeros 4) in
  crc32c hole (slice (COMMIT_CHKSUM_OFFSET + 4) (BLOCK_SIZE - (COMMIT_CHKSUM_OFFSET + 4)) block).

Definition stamp_commit_block (s : JournalCsumSeed) (block : list byte) : list byte :=
  let csum := commit_block_csum s block in
  put_be 4 COMMIT_CHKSUM_OFFSET csum block.

Definition verify_commit_block (s : JournalCsumSeed) (block : list byte) : bool :=
  let stored := get_be 4 COMMIT_CHKSUM_OFFSET block in
  stored =? commit_block_csum s block.

(** The tag checksum of a logged block covers the transaction id and the
    bytes as logged. *)
Definition data_block_csum (s : JournalCsumSeed) (tid : Z) (logged_block : list byte) : Z :=
  let seq := crc32c (jseed s) (be_bytes 4 tid) in
  crc32c seq logged_block.

#[global] Arguments parse_header : simpl never.
#[global] Arguments parse_revoke_header : simpl never.

(** ** Lemmas *)

(** A struct codec is lawful when the field tuple is. *)
Ltac struct_codec :=
  apply struct_ok; [intros; repeat match goal with x : (_ * _)%type |- _ => destruct x end; reflexivity
                   |intros []; reflexivity | apply _].

#[export] Instance header_codec_ok : CodecOk header_codec.
Proof. struct_codec. Qed.

#[export] Instance superblock_codec_ok : CodecOk superblock_codec.
Proof. struct_codec. Qed.

#[export] Instance block_tag_codec_ok : CodecOk block_tag_codec.
Proof. struct_codec. Qed.

#[export] Instance block_tag3_codec_ok : CodecOk block_tag3_codec.
Proof. struct_codec. Qed.

#[export] Instance revoke_header_codec_ok : CodecOk revoke_header_codec.
Proof. struct_codec. Qed.

#[export] Instance commit_codec_ok : CodecOk commit_codec.
Proof. struct_codec. Qed.

Lemma header_size : c_size header_codec = 12.
Proof. done. Qed.
Lemma superblock_size : c_size superblock_codec = JOURNAL_SUPERBLOCK_SIZE.
Proof. done. Qed.
Lemma revoke_header_size : c_size revoke_header_codec = REVOKE_HEADER_SIZE.
Proof. done. Qed.
Lemma commit_size : c_size commit_codec = COMMIT_BLOCK_SIZE.
Proof. done. Qed.

Lemma header_wf m t s :
  fits 32 m -> fits 32 t -> fits 32 s ->
  c_wf header_codec {| h_magic := m; h_blocktype := t; h_sequence := s |}.
Proof. done. Qed.

(** Putting the value of one field between what precedes and follows it. *)
Lemma put_be_split n o v b :
  0 <= o -> o + Z.of_nat n <= zlen b ->
  put_be n o v b = slice 0 o b ++ be_bytes n v ++ slice (o + Z.of_nat n) (zlen b - (o + Z.of_nat n)) b.
Proof.
  intros. unfold put_be, splice, slice. rewrite drop_0. f_equal. f_equal.
  pose proof (zlen_be_bytes n v) as Hl. unfold zlen in *.
  rewrite take_ge by (rewrite length_drop; lia). f_equal. lia.
Qed.

Lemma seed_fits uuid : fits 32 (jseed (derive uuid)).
Proof. apply crc32c_fits. by unfold fits, not32. Qed.

Section Checksums.
Context (s : JournalCsumSeed) (Hs : fits 32 (jseed s)).
Implicit Types b block : list byte.

Lemma block_tail_csum_fits block : fits 32 (block_tail_csum s block).
Proof. by repeat apply crc32c_fits. Qed.

Lemma commit_block_csum_fits block : fits 32 (commit_block_csum s block).
Proof. by repeat apply crc32c_fits. Qed.

Lemma data_block_csum_fits tid block : fits 32 (data_block_csum s tid block).
Proof. by repeat apply crc32c_fits. Qed.

(** The tail checksum does not depend on the stored tail. *)
Lemma block_tail_csum_put v block :
  is_block block ->
  block_tail_csum s (put_be 4 (BLOCK_SIZE - DESCRIPTOR_TAIL_BYTES) v block) = block_tail_csum s block.
Proof.
  unfold is_block, block_tail_csum, put_be, BLOCK_SIZE, DESCRIPTOR_TAIL_BYTES. intros.
  by rewrite slice_splice_other by len.
Qed.

Lemma commit_block_csum_put v block :
  is_block block -> commit_block_csum s (put_be 4 COMMIT_CHKSUM_OFFSET v block) = commit_block_csum s block.
Proof.
  unfold is_block, commit_block_csum, put_be, BLOCK_SIZE, COMMIT_CHKSUM_OFFSET. intros.
  by rewrite !slice_splice_other by len.
Qed.

Lemma stamp_block_tail_block block : is_block block -> is_block (stamp_block_tail s block).
Proof.
  unfold is_block, stamp_block_tail, BLOCK_SIZE, DESCRIPTOR_TAIL_BYTES. intros. by rewrite zlen_put_be by lia.
Qed.

Lemma stamp_commit_block_block block : is_block block -> is_block (stamp_commit_block s block).
Proof.
  unfold is_block, stamp_commit_block, COMMIT_CHKSUM_OFFSET, BLOCK_SIZE. intros. by rewrite zlen_put_be by lia.
Qed.

Lemma slice_stamp_block_tail block o n :
  is_block block -> 0 <= o -> o + n <= BLOCK_SIZE - DESCRIPTOR_TAIL_BYTES ->
  slice o n (stamp_block_tail s block) = slice o n block.
Proof.
  unfold is_block, stamp_block_tail, put_be, BLOCK_SIZE, DESCRIPTOR_TAIL_BYTES. intros.
  by rewrite slice_splice_other by len.
Qed.

Lemma slice_stamp_commit_block block o n :
  is_block block -> 0 <= o -> o + n <= COMMIT_CHKSUM_OFFSET ->
  slice o n (stamp_commit_block s block) = slice o n block.
Proof.
  unfold is_block, stamp_commit_block, put_be, BLOCK_SIZE, COMMIT_CHKSUM_OFFSET. intros.
  by rewrite slice_splice_other by len.
Qed.

Lemma verify_stamp_block_tail block :
  is_block block -> verify_block_tail s (stamp_block_tail s block) = true.
Proof.
  intros Hb. unfold verify_block_tail, stamp_block_tail. rewrite block_tail_csum_put by done.
  rewrite get_be_put_same by (unfold is_block, BLOCK_SIZE, DESCRIPTOR_TAIL_BYTES in *; lia).
  rewrite wrap_small by apply block_tail_csum_fits. apply Z.eqb_refl.
Qed.

Lemma verify_stamp_commit_block block :
  is_block block -> verify_commit_block s (stamp_commit_block s block) = true.
Proof.
  intros Hb. unfold verify_commit_block, stamp_commit_block. rewrite commit_block_csum_put by done.
  rewrite get_be_put_same by (unfold is_block, BLOCK_SIZE, COMMIT_CHKSUM_OFFSET in *; lia).
  rewrite wrap_small by apply commit_block_csum_fits. apply Z.eqb_refl.
Qed.

(** The crc of a region tells apart two contents that differ in at most
    four consecutive bytes of it. *)
Lemma crc32c_splice_ne seed o w b :
  fits 32 seed -> 0 <= o -> zlen w <= 4 -> o + zlen w <= zlen b -> slice o (zlen w) b <> w ->
  crc32c seed (splice o w b) <> crc32c seed b.
Proof.
  intros Hf Ho Hw Hb Hne. pose proof (zlen_nonneg w).
  rewrite <- (splice_slice o (zlen w) b) at 2 by lia. unfold splice at 1 2.
  rewrite !crc32c_app. set (p := crc32c seed _). assert (fits 32 p) by by apply crc32c_fits.
  assert (Hl : zlen (slice o (zlen w) b) = zlen w) by (apply zlen_slice; lia).
  replace (length (slice o (zlen w) b)) with (length w) by (unfold zlen in Hl at 1 3; lia).
  intros He. apply crc32c_inj_seed in He; [|by apply crc32c_fits..].
  apply crc32c_inj_short in He; [congruence|done|lia|lia].
Qed.
End Checksums.

(** The superblock bytes, split around the checksum field. *)
Lemma superblock_bytes r :
  c_wf superblock_codec r ->
  exists pre, zlen pre = SB_CHECKSUM_OFFSET /\ zlen (s_users r) = 768 /\
    forall v, as_bytes superblock_codec (set_s_checksum r v) = pre ++ be_bytes 4 v ++ s_users r.
Proof.
  intros W. assert (Hu : zlen (s_users r) = 768) by (do 21 destruct W as [_ W]; exact W).
  eexists (slice 0 SB_CHECKSUM_OFFSET (as_bytes superblock_codec r)). split; [|split; [done|]].
  - apply zlen_slice; [done..|]. by rewrite codec_len.
  - intros v. pose proof (codec_len (c := superblock_codec) r W) as Hl.
    cbn -[Z.of_nat be_bytes zlen slice header_codec set_s_checksum] in *.
    unfold set_s_checksum; simpl s_header.
    revert Hl. rewrite !app_assoc. match goal with |- context [zlen ((?p ++ be_bytes 4 (s_checksum r)) ++ _)] =>
      set (pre := p) end.
    intros Hl. rewrite header_size in Hl. rewrite <- !app_assoc. unfold SB_CHECKSUM_OFFSET. cbn [s_blocksize s_maxlen s_first s_sequence s_start s_errno s_feature_compat
      s_feature_incompat s_feature_ro_compat s_uuid s_nr_users s_dynsuper s_max_transaction
      s_max_trans_data s_checksum_type s_padding2 s_num_fc_blks s_head s_padding s_checksum s_users].
    rewrite slice_app_l, slice_full; [by subst pre; rewrite <- !app_assoc|len|len..].
Qed.

Lemma superblock_checksum_set r v :
  c_wf superblock_codec r -> superblock_checksum (set_s_checksum r v) = superblock_checksum r.
Proof.
  intros W. destruct (superblock_bytes r W) as (pre & Hp & Hu & Hb).
  assert (Hr : as_bytes superblock_codec r = pre ++ be_bytes 4 (s_checksum r) ++ s_users r)
    by (rewrite <- Hb; by destruct r).
  unfold superblock_checksum. rewrite Hb, Hr. clear Hr Hb. unfold SB_CHECKSUM_OFFSET in *.
  assert (Hg : forall v, let b := pre ++ be_bytes 4 v ++ s_users r in
    slice 0 252 b = pre /\ slice (252 + 4) (zlen b - (252 + 4)) b = s_users r).
  { intros v'. cbn zeta. rewrite slice_app_l, slice_full by len. split; [done|].
    rewrite app_assoc, slice_app_r, !zlen_app, !zlen_be_bytes by len.
    apply slice_all; len. }
  destruct (Hg v) as [-> ->], (Hg (s_checksum r)) as [-> ->]. done.
Qed.

Lemma superblock_checksum_fits r : fits 32 (superblock_checksum r).
Proof. repeat apply crc32c_fits. by unfold fits, not32. Qed.

Lemma stamp_checksum_wf r : c_wf superblock_codec r -> c_wf superblock_codec (stamp_checksum r).
Proof.
  unfold stamp_checksum. destruct (has_flag _ _); [|done]. intros W.
  pose proof (superblock_checksum_fits r). cbn in W |- *. destruct_and!; split_and!; done.
Qed.

(** ** Properties *)

(** a descriptor or revoke block stamped with its checksum tail verifies,
    and a change of at most four consecutive bytes, in the body or in the
    tail, makes verification fail. *)
Theorem block_tail_detects s block o w :
  fits 32 (jseed s) -> is_block block -> 0 <= o -> zlen w <= 4 ->
  o + zlen w <= BLOCK_SIZE - DESCRIPTOR_TAIL_BYTES \/
    (BLOCK_SIZE - DESCRIPTOR_TAIL_BYTES <= o /\ o + zlen w <= BLOCK_SIZE) ->
  slice o (zlen w) (stamp_block_tail s block) <> w ->
  verify_block_tail s (stamp_block_tail s block) = true /\
  verify_block_tail s (splice o w (stamp_block_tail s block)) = false.
Proof.
  intros Hs Hb Ho Hw Hwin Hne. split; [by apply verify_stamp_block_tail|].
  pose proof (stamp_block_tail_block s block Hb) as Hb'. pose proof (verify_stamp_block_tail s Hs block Hb) as Hv.
  set (b := stamp_block_tail s block) in *. clearbody b. pose proof (zlen_nonneg w).
  unfold verify_block_tail in *. apply Z.eqb_eq in Hv. apply Z.eqb_neq.
  unfold is_block, block_tail_csum, BLOCK_SIZE, DESCRIPTOR_TAIL_BYTES in *.
  destruct Hwin as [Hin|[Hin1 Hin2]].
  - rewrite get_be_splice_other by lia. rewrite Hv.
    rewrite (slice_splice_prefix (4096 - 4) o w b) by lia. intros He.
    apply crc32c_inj_seed in He; [|by apply crc32c_fits..]. symmetry in He. revert He.
    apply crc32c_splice_ne; [done|done|lia|len|]. by rewrite slice_slice by lia.
  - rewrite slice_splice_other by lia. rewrite <- Hv. intros He. apply Hne.
    apply of_be_inj in He; [|by rewrite !zlen_slice by (rewrite ?zlen_splice by lia; lia)]. apply (f_equal (slice (o - 4092) (zlen w))) in He.
    rewrite !slice_slice in He by lia. replace (4096 - 4 + (o - 4092)) with o in He by lia.
    rewrite slice_splice_same in He by lia. congruence.
Qed.

Lemma block_tail_detects_witness :
  verify_block_tail {| jseed := 7 |} (stamp_block_tail {| jseed := 7 |} (zeros BLOCK_SIZE)) = true /\
  verify_block_tail {| jseed := 7 |}
    (splice 100 [Byte.x01] (stamp_block_tail {| jseed := 7 |} (zeros BLOCK_SIZE))) = false.
Proof.
  apply (block_tail_detects {| jseed := 7 |} (zeros BLOCK_SIZE) 100 [Byte.x01]).
  - done.
  - done.
  - lia.
  - done.
  - left. done.
  - vm_compute. discriminate.
Defined.

(** a commit block stamped with its checksum verifies, the 12-byte header
    survives the stamp, and a change of at most four consecutive bytes on
    either side of the checksum field makes verification fail. *)
Theorem commit_block_detects s block o w :
  fits 32 (jseed s) -> is_block block -> 0 <= o -> zlen w <= 4 ->
  o + zlen w <= COMMIT_CHKSUM_OFFSET \/ (COMMIT_CHKSUM_OFFSET + 4 <= o /\ o + zlen w <= BLOCK_SIZE) ->
  slice o (zlen w) (stamp_commit_block s block) <> w ->
  verify_commit_block s (stamp_commit_block s block) = true /\
  parse_header (stamp_commit_block s block) = parse_header block /\
  verify_commit_block s (splice o w (stamp_commit_block s block)) = false.
Proof.
  intros Hs Hb Ho Hw Hwin Hne. split; [by apply verify_stamp_commit_block|].
  split; [unfold parse_header, read_at; by rewrite slice_stamp_commit_block|].
  pose proof (stamp_commit_block_block s block Hb) as Hb'.
  pose proof (verify_stamp_commit_block s Hs block Hb) as Hv.
  set (b := stamp_commit_block s block) in *. clearbody b. pose proof (zlen_nonneg w).
  unfold verify_commit_block in *. apply Z.eqb_eq in Hv. apply Z.eqb_neq.
  unfold is_block, commit_block_csum, BLOCK_SIZE, COMMIT_CHKSUM_OFFSET in *.
  rewrite get_be_splice_other by lia. rewrite Hv. destruct Hwin as [Hin|[Hin1 Hin2]].
  - rewrite (slice_splice_prefix 16 o w b) by lia. rewrite slice_splice_other by lia. intros He.
    do 2 (apply crc32c_inj_seed in He; [|by repeat apply crc32c_fits..]). symmetry in He. revert He.
    apply crc32c_splice_ne; [done|done|lia|len|]. by rewrite slice_slice by lia.
  - rewrite slice_splice_other by lia.
    rewrite (slice_splice_suffix (16 + 4) (4096 - (16 + 4)) o w b) by lia. intros He. symmetry in He. revert He.
    apply crc32c_splice_ne; [by repeat apply crc32c_fits|lia|lia|len|].
    rewrite slice_slice by lia. by replace (16 + 4 + (o - (16 + 4))) with o by lia.
Qed.

Lemma commit_block_detects_witness :
  verify_commit_block {| jseed := 7 |} (stamp_commit_block {| jseed := 7 |} (zeros BLOCK_SIZE)) = true /\
  parse_header (stamp_commit_block {| jseed := 7 |} (zeros BLOCK_SIZE)) = parse_header (zeros BLOCK_SIZE) /\
  verify_commit_block {| jseed := 7 |}
    (splice 48 [Byte.x01] (stamp_commit_block {| jseed := 7 |} (zeros BLOCK_SIZE))) = false.
Proof.
  apply (commit_block_detects {| jseed := 7 |} (zeros BLOCK_SIZE) 48 [Byte.x01]).
  - done.
  - done.
  - lia.
  - done.
  - right. done.
  - vm_compute. discriminate.
Defined.

(** stamping a superblock whose features ask for checksums leaves every
    field but [s_checksum] as it was, gives a field equal to the checksum the
    reader recomputes from the stamped bytes, and the bytes decode back to
    the stamped structure. *)
Theorem superblock_stamp_roundtrip r :
  c_wf superblock_codec r ->
  has_flag (s_feature_incompat r) (Z.lor INCOMPAT_CSUM_V2 INCOMPAT_CSUM_V3) = true ->
  let r' := from_bytes superblock_codec (as_bytes superblock_codec (stamp_checksum r)) in
  s_checksum r' = superblock_checksum r' /\ set_s_checksum r' (s_checksum r) = r.
Proof.
  intros W Hf r'. subst r'. rewrite codec_dec_enc by by apply stamp_checksum_wf.
  unfold stamp_checksum. rewrite Hf. rewrite superblock_checksum_set by done. by destruct r.
Qed.


Lemma superblock_stamp_roundtrip_witness :
  let r := from_bytes superblock_codec (put_be 4 0x28 INCOMPAT_CSUM_V3 (zeros 1024)) in
  let r' := from_bytes superblock_codec (as_bytes superblock_codec (stamp_checksum r)) in
  s_checksum r' = superblock_checksum r' /\ set_s_checksum r' (s_checksum r) = r.
Proof.
  apply (superblock_stamp_roundtrip (from_bytes superblock_codec (put_be 4 0x28 INCOMPAT_CSUM_V3 (zeros 1024)))).
  - apply codec_dec_wf. vm_compute. reflexivity.
  - vm_compute. reflexivity.
Defined.
