(* ===== verification/JournalTags.v ===== *)
(** * Descriptor tags and revoke blocks

    Models the second half of [journal/format.rs]: the tag layout a journal's
    features select, the writer that lays tags out in a descriptor block, the
    walker that reads them back, and the writer and walker of revoke blocks.
    A writer is a state passed explicitly; a walker is the iterator's state
    with its [next]. *)

From S2P Require Import Prelude Pod Checksum JournalFormat.

(** ** Tag layout *)

Record TagLayout : Set := {
  tag_bytes : Z;
  has_blocknr_high : bool;
  csum_v3 : bool;
  descriptor_tail_bytes : Z;
}.

(** [TagLayout::from_features] *)
Definition from_features (feature_incompat : Z) : result TagLayout :=
  let v2 := has_flag feature_incompat INCOMPAT_CSUM_V2 in
  let v3 := has_flag feature_incompat INCOMPAT_CSUM_V3 in
  check negb (v2 && v3) else EINVAL in
  let high := has_flag feature_incompat INCOMPAT_64BIT in
  Ok {| tag_bytes :=
          if v3 then BLOCK_TAG3_SIZE
          else BLOCK_TAG_SIZE + (if high then 4 else 0) + (if v2 then 2 else 0);
        has_blocknr_high := high;
        csum_v3 := v3;
        descriptor_tail_bytes := if v2 || v3 then DESCRIPTOR_TAIL_BYTES else 0 |}.

Definition first_tag_offset : Z := 12.
Definition tag_area_end (l : TagLayout) : Z := BLOCK_SIZE - descriptor_tail_bytes l.

Definition tags_per_descriptor (l : TagLayout) : Z :=
  (tag_area_end l - first_tag_offset - TAG_UUID_BYTES) / tag_bytes l.

Inductive RevokeEntryWidth : Set := Narrow | Wide.

Definition width_bytes (w : RevokeEntryWidth) : Z :=
  match w with Narrow => 4 | Wide => 8 end.

Definition revoke_entry_width (l : TagLayout) : RevokeEntryWidth :=
  if has_blocknr_high l then Wide else Narrow.

Definition revoke_entries_per_block (l : TagLayout) : Z :=
  (tag_area_end l - REVOKE_HEADER_SIZE) / width_bytes (revoke_entry_width l).

Definition has_csum (l : TagLayout) : bool := negb (descriptor_tail_bytes l =? 0).

(** Low and high halves of a 64-bit block number. *)
Definition split_blocknr (blocknr : Z) : Z * Z :=
  let bytes := be_bytes 8 blocknr in
  let high := of_be (slice 0 4 bytes) in
  let low := of_be (slice 4 4 bytes) in
  (low, high).

Definition join_blocknr (low high : Z) : Z := Z.lor low (Z.shiftl high 32).

(** ** Writing tags *)

Inductive TagCsumMode : Type :=
  | MPlain
  | MV2 (seed : JournalCsumSeed)
  | MV3 (seed : JournalCsumSeed).

Record TagWriter : Type := {
  tw_layout : TagLayout;
  tw_block : list byte;
  tw_offset : Z;
  tw_tid : Z;
  tw_mode : TagCsumMode;
}.

(** [TagLayout::writer] *)
Definition writer (l : TagLayout) (block : list byte) (tid : Z) (seed : option JournalCsumSeed)
  : result TagWriter :=
  let? mode :=
    match seed with
    | None => if negb (has_csum l) then Ok MPlain else Err EINVAL
    | Some s => if csum_v3 l then Ok (MV3 s) else if has_csum l then Ok (MV2 s) else Err EINVAL
    end in
  Ok {| tw_layout := l; tw_block := block; tw_offset := first_tag_offset; tw_tid := tid; tw_mode := mode |}.

(** [TagWriter::put_prefix_tag] *)
Definition put_prefix_tag (l : TagLayout) (block : list byte) (offset low high checksum flags : Z)
  : list byte :=
  let tag := {| t_blocknr := low; t_checksum := checksum; t_flags := flags |} in
  let block1 := write_at block_tag_codec offset tag block in
  if has_blocknr_high l then put_be 4 (offset + BLOCK_TAG_SIZE) high block1 else block1.

(** [TagWriter::put]; an error leaves the writer as it was. *)
Definition put (w : TagWriter) (blocknr flags : Z) (logged_block : list byte) : result TagWriter :=
  let l := tw_layout w in
  let '(low, high) := split_blocknr blocknr in
  check negb (negb (high =? 0) && negb (has_blocknr_high l)) else EFBIG in
  let offset := tw_offset w in
  let fin := offset + tag_bytes l + (if has_flag flags TAG_FLAG_SAME_UUID then 0 else TAG_UUID_BYTES) in
  check negb (tag_area_end l <? fin) else ENOSPC in
  let block' :=
    match tw_mode w with
    | MV3 seed =>
        let tag3 := {| t3_blocknr := low; t3_flags := flags; t3_blocknr_high := high;
                       t3_checksum := data_block_csum seed (tw_tid w) logged_block |} in
        write_at block_tag3_codec offset tag3 (tw_block w)
    | MV2 seed =>
        let be32 := be_bytes 4 (data_block_csum seed (tw_tid w) logged_block) in
        put_prefix_tag l (tw_block w) offset low high (of_be (slice 2 2 be32)) flags
    | MPlain => put_prefix_tag l (tw_block w) offset low high 0 flags
    end in
  Ok {| tw_layout := l; tw_block := block'; tw_offset := fin; tw_tid := tw_tid w; tw_mode := tw_mode w |}.

(** [TagWriter::finish] *)
Definition finish (w : TagWriter) : list byte :=
  match tw_mode w with
  | MPlain => tw_block w
  | MV2 seed | MV3 seed => stamp_block_tail seed (tw_block w)
  end.

(** ** Reading tags *)

Inductive TagChecksum : Set :=
  | CsumV2 (low16 : Z)
  | CsumV3 (full : Z).

Record DescriptorTag : Set := {
  dt_blocknr : Z;
  dt_flags : Z;
  dt_checksum : option TagChecksum;
}.

Definition is_escaped (t : DescriptorTag) : bool := has_flag (dt_flags t) TAG_FLAG_ESCAPE.
Definition is_last (t : DescriptorTag) : bool := has_flag (dt_flags t) TAG_FLAG_LAST_TAG.
Definition reuses_uuid (t : DescriptorTag) : bool := has_flag (dt_flags t) TAG_FLAG_SAME_UUID.

(** [DescriptorTag::verify_data_csum] *)
Definition verify_data_csum (t : DescriptorTag) (seed : JournalCsumSeed) (tid : Z)
    (logged_block : list byte) : bool :=
  match dt_checksum t with
  | None => true
  | Some stored =>
      let csum32 := data_block_csum seed tid logged_block in
      match stored with
      | CsumV2 low16 => low16 =? Z.land csum32 0xFFFF
      | CsumV3 full => full =? csum32
      end
  end.

(** [TagLayout::decode_tag] *)
Definition decode_tag (l : TagLayout) (descriptor : list byte) (offset : Z) : result DescriptorTag :=
  if csum_v3 l then
    let r := read_at block_tag3_codec offset descriptor in
    check fitsb 16 (t3_flags r) else EUCLEAN in
    let high := if has_blocknr_high l then t3_blocknr_high r else 0 in
    Ok {| dt_blocknr := join_blocknr (t3_blocknr r) high; dt_flags := t3_flags r;
          dt_checksum := Some (CsumV3 (t3_checksum r)) |}
  else
    let r := read_at block_tag_codec offset descriptor in
    let high := if has_blocknr_high l then get_be 4 (offset + BLOCK_TAG_SIZE) descriptor else 0 in
    Ok {| dt_blocknr := join_blocknr (t_blocknr r) high; dt_flags := t_flags r;
          dt_checksum := if has_csum l then Some (CsumV2 (t_checksum r)) else None |}.

Record TagWalk : Type := {
  wk_layout : TagLayout;
  wk_descriptor : list byte;
  wk_offset : Z;
  wk_done : bool;
}.

(** [TagLayout::walk] *)
Definition walk (l : TagLayout) (descriptor : list byte) : TagWalk :=
  {| wk_layout := l; wk_descriptor := descriptor; wk_offset := first_tag_offset; wk_done := false |}.

(** [TagWalk::next] *)
Definition walk_next (k : TagWalk) : option (result DescriptorTag) * TagWalk :=
  let stop := {| wk_layout := wk_layout k; wk_descriptor := wk_descriptor k;
                 wk_offset := wk_offset k; wk_done := true |} in
  if wk_done k then (None, k)
  else if tag_area_end (wk_layout k) <? wk_offset k + tag_bytes (wk_layout k)
  then (Some (Err EUCLEAN), stop)
  else match decode_tag (wk_layout k) (wk_descriptor k) (wk_offset k) with
       | Err e => (Some (Err e), stop)
       | Ok tag =>
           let offset := wk_offset k + tag_bytes (wk_layout k)
                         + (if reuses_uuid tag then 0 else TAG_UUID_BYTES) in
           (Some (Ok tag), {| wk_layout := wk_layout k; wk_descriptor := wk_descriptor k;
                              wk_offset := offset; wk_done := is_last tag |})
       end.

(** The items a [for] loop over the iterator sees, at most [fuel] of them. *)
Fixpoint walk_items (fuel : nat) (k : TagWalk) : list (result DescriptorTag) :=
  match fuel with
  | O => []
  | S f => match walk_next k with
           | (None, _) => []
           | (Some t, k') => t :: walk_items f k'
           end
  end.

(** Tags are at least eight bytes, so a block has fewer than 512 of them. *)
Definition WALK_FUEL : nat := 513.

Definition walk_tags (l : TagLayout) (descriptor : list byte) : list (result DescriptorTag) :=
  walk_items WALK_FUEL (walk l descriptor).

(** ** Revoke blocks *)

Record RevokeBlockWriter : Type := {
  rw_layout : TagLayout;
  rw_width : RevokeEntryWidth;
  rw_block : list byte;
  rw_offset : Z;
  rw_seed : option JournalCsumSeed;
}.

(** [TagLayout::revoke_writer] *)
Definition revoke_writer (l : TagLayout) (tid : Z) (seed : option JournalCsumSeed)
  : result RevokeBlockWriter :=
  check Bool.eqb (bool_decide (is_Some seed)) (has_csum l) else EINVAL in
  let header := {| h_magic := JBD2_MAGIC; h_blocktype := BLOCKTYPE_REVOKE; h_sequence := tid |} in
  Ok {| rw_layout := l; rw_width := revoke_entry_width l;
        rw_block := write_at header_codec 0 header (zeros BLOCK_SIZE);
        rw_offset := REVOKE_HEADER_SIZE; rw_seed := seed |}.

(** [RevokeBlockWriter::put]; the space check comes before the width check. *)
Definition revoke_put (w : RevokeBlockWriter) (blocknr : Z) : result RevokeBlockWriter :=
  let fin := rw_offset w + width_bytes (rw_width w) in
  check negb (tag_area_end (rw_layout w) <? fin) else ENOSPC in
  let? block' :=
    match rw_width w with
    | Wide => Ok (put_be 8 (rw_offset w) blocknr (rw_block w))
    | Narrow => check fitsb 32 blocknr else EFBIG in Ok (put_be 4 (rw_offset w) blocknr (rw_block w))
    end in
  Ok {| rw_layout := rw_layout w; rw_width := rw_width w; rw_block := block';
        rw_offset := fin; rw_seed := rw_seed w |}.

(** [RevokeBlockWriter::finish]; [r_count] is the cursor, header included. *)
Definition R_COUNT_OFFSET : Z := 12.
Definition revoke_finish (w : RevokeBlockWriter) : list byte :=
  let block := put_be 4 R_COUNT_OFFSET (rw_offset w) (rw_block w) in
  match rw_seed w with
  | Some seed => stamp_block_tail seed block
  | None => block
  end.

Record RevokeEntryWalk : Type := {
  rk_width : RevokeEntryWidth;
  rk_block : list byte;
  rk_offset : Z;
  rk_end : Z;
}.

(** [TagLayout::walk_revoke] *)
Definition walk_revoke (l : TagLayout) (block : list byte) : result RevokeEntryWalk :=
  let fin := r_count (parse_revoke_header block) in
  check negb (tag_area_end l <? fin) else EUCLEAN in
  Ok {| rk_width := revoke_entry_width l; rk_block := block;
        rk_offset := REVOKE_HEADER_SIZE; rk_end := fin |}.

(** [RevokeEntryWalk::next] *)
Definition revoke_next (k : RevokeEntryWalk) : option Z * RevokeEntryWalk :=
  let fin := rk_offset k + width_bytes (rk_width k) in
  if rk_end k <? fin then (None, k)
  else
    let v := match rk_width k with
             | Narrow => get_be 4 (rk_offset k) (rk_block k)
             | Wide => get_be 8 (rk_offset k) (rk_block k)
             end in
    (Some v, {| rk_width := rk_width k; rk_block := rk_block k; rk_offset := fin; rk_end := rk_end k |}).

Fixpoint revoke_items (fuel : nat) (k : RevokeEntryWalk) : list Z :=
  match fuel with
  | O => []
  | S f => match revoke_next k with
           | (None, _) => []
           | (Some b, k') => b :: revoke_items f k'
           end
  end.

(** Entries are at least four bytes, so a block has at most 1020 of them. *)
Definition REVOKE_FUEL : nat := 1021.

(** The block numbers a revoke block holds. *)
Definition revoke_entries (l : TagLayout) (block : list byte) : result (list Z) :=
  let? k := walk_revoke l block in Ok (revoke_items REVOKE_FUEL k).

#[global] Arguments put : simpl never.
#[global] Arguments decode_tag : simpl never.
#[global] Arguments walk_next : simpl never.
#[global] Arguments revoke_put : simpl never.
#[global] Arguments revoke_next : simpl never.
#[global] Arguments finish : simpl never.

(** ** Lemmas: layouts *)

(** The layouts [from_features] can produce. *)
Definition layout_ok (l : TagLayout) : Prop :=
  (csum_v3 l = true -> tag_bytes l = 16 /\ descriptor_tail_bytes l = 4) /\
  (csum_v3 l = false ->
     tag_bytes l = 8 + (if has_blocknr_high l then 4 else 0) + (if has_csum l then 2 else 0)) /\
  (descriptor_tail_bytes l = 0 \/ descriptor_tail_bytes l = 4).

Lemma from_features_ok f l : from_features f = Ok l -> layout_ok l.
Proof.
  unfold from_features, layout_ok. intros H. inv_result. subst l. simpl.
  destruct (has_flag f INCOMPAT_CSUM_V3), (has_flag f INCOMPAT_CSUM_V2), (has_flag f INCOMPAT_64BIT);
    simpl in *; split_and!; try done; auto.
Qed.

Section Layout.
Context (l : TagLayout) (Hl : layout_ok l).

Lemma has_csum_tail : descriptor_tail_bytes l = if has_csum l then 4 else 0.
Proof. unfold has_csum. destruct Hl as (_ & _ & [-> | ->]); done. Qed.

Lemma tag_bytes_range : 8 <= tag_bytes l <= 16.
Proof.
  destruct Hl as (H3 & Hn & _). destruct (csum_v3 l); [destruct H3 as [-> _]; done || lia|].
  rewrite Hn by done. destruct (has_blocknr_high l), (has_csum l); lia.
Qed.

Lemma tag_area_end_range : BLOCK_SIZE - 4 <= tag_area_end l <= BLOCK_SIZE.
Proof. unfold tag_area_end. destruct Hl as (_ & _ & [-> | ->]); lia. Qed.

Lemma csum_v3_has_csum : csum_v3 l = true -> has_csum l = true.
Proof. intros H3. destruct Hl as (H & _ & _). unfold has_csum. by destruct (H H3) as [_ ->]. Qed.

Lemma width_range : 4 <= width_bytes (revoke_entry_width l) <= 8.
Proof. unfold revoke_entry_width. destruct (has_blocknr_high l); simpl; lia. Qed.
End Layout.

Lemma split_blocknr_spec b : split_blocknr b = (wrap 32 b, wrap 32 (Z.shiftr b 32)).
Proof.
  unfold split_blocknr, be_bytes.
  assert (Hsp : le_split 8 b = le_split 4 b ++ le_split 4 (Z.shiftr b 32)).
  { rewrite <- (firstn_skipn 4 (le_split 8 b)). f_equal. }
  rewrite Hsp, rev_app_distr.
  assert (forall z, zlen (rev (le_split 4 z)) = 4) as Hz by (intros; apply (zlen_be_bytes 4)).
  rewrite slice_app_r, slice_all, slice_app_l, slice_full by (rewrite ?Hz; lia).
  assert (forall z, of_be (rev (le_split 4 z)) = wrap 32 z) as Hr by exact (of_be_bytes 4).
  by rewrite !Hr.
Qed.

Lemma join_split_wide b : fits 64 b -> join_blocknr (wrap 32 b) (wrap 32 (Z.shiftr b 32)) = b.
Proof.
  intros Hb. unfold join_blocknr, wrap. apply Z.bits_inj'. intros n Hn.
  rewrite Z.lor_spec. destruct (decide (n < 32)).
  - by rewrite Z.mod_pow2_bits_low, Z.shiftl_spec_low, orb_false_r by lia.
  - rewrite Z.mod_pow2_bits_high, Z.shiftl_spec, orb_false_l by lia.
    destruct (decide (n < 64)).
    + rewrite Z.mod_pow2_bits_low, Z.shiftr_spec by lia. f_equal. lia.
    + rewrite Z.mod_pow2_bits_high by lia. symmetry. apply (testbit_fits 64); [lia|done].
Qed.

Lemma join_split_narrow b : fits 64 b -> wrap 32 (Z.shiftr b 32) = 0 -> join_blocknr (wrap 32 b) 0 = b.
Proof. intros Hb H0. rewrite <- (join_split_wide b Hb) at 2. by rewrite H0. Qed.

Lemma csum_low16 c : fits 32 c -> of_be (slice 2 2 (be_bytes 4 c)) = Z.land c 0xFFFF.
Proof.
  intros Hc. change 0xFFFF with (Z.ones 16). rewrite Z.land_ones by lia.
  exact (of_be_bytes 2 c).
Qed.

(** ** Lemmas: writing and walking tags *)

(** A writer's checksum mode fits its layout. *)
Definition mode_ok (l : TagLayout) (m : TagCsumMode) : Prop :=
  match m with
  | MPlain => has_csum l = false
  | MV2 s => has_csum l = true /\ csum_v3 l = false /\ fits 32 (jseed s)
  | MV3 s => csum_v3 l = true /\ fits 32 (jseed s)
  end.

(** The tag the reader gets for a logged block. *)
Definition tag_of (m : TagCsumMode) (tid blocknr flags : Z) (logged : list byte) : DescriptorTag :=
  {| dt_blocknr := blocknr; dt_flags := flags;
     dt_checksum :=
       match m with
       | MPlain => None
       | MV2 s => Some (CsumV2 (Z.land (data_block_csum s tid logged) 0xFFFF))
       | MV3 s => Some (CsumV3 (data_block_csum s tid logged))
       end |}.

Lemma tag_of_verifies m tid bn fl logged s :
  match m with MPlain => True | MV2 s' | MV3 s' => s = s' end ->
  verify_data_csum (tag_of m tid bn fl logged) s tid logged = true.
Proof. unfold verify_data_csum, tag_of. destruct m; simpl; [done|intros ->; apply Z.eqb_refl..]. Qed.

Lemma decode_tag_ext l b1 b2 o :
  layout_ok l -> 0 <= o -> slice o (tag_bytes l) b1 = slice o (tag_bytes l) b2 ->
  decode_tag l b1 o = decode_tag l b2 o.
Proof.
  intros Hl Ho He. pose proof (tag_bytes_range l Hl) as Ht. destruct Hl as (H3 & Hn & _).
  assert (Hsub : forall p n, 0 <= p -> p + n <= tag_bytes l -> slice (o + p) n b1 = slice (o + p) n b2).
  { intros p n Hp Hpn. by rewrite <- !(slice_slice p n o (tag_bytes l)), He by lia. }
  unfold decode_tag, read_at, get_be. destruct (csum_v3 l).
  - destruct H3 as [H3 _]; [done|]. rewrite H3 in He. change (c_size block_tag3_codec) with 16. by rewrite He.
  - change (c_size block_tag_codec) with 8. specialize (Hn eq_refl).
    pose proof (Hsub 0 8 ltac:(lia) ltac:(destruct (has_blocknr_high l), (has_csum l); lia)) as H8.
    rewrite Z.add_0_r in H8. rewrite H8. destruct (has_blocknr_high l); [|done].
    unfold BLOCK_TAG_SIZE. change (Z.of_nat 4) with 4. rewrite (Hsub 8 4); [done|lia|destruct (has_csum l); lia].
Qed.

Section Prefix.
Context (l : TagLayout) (Hl : layout_ok l) (H3 : csum_v3 l = false).
Context (b : list byte) (Hb : is_block b) (o : Z) (Ho : 0 <= o) (Hend : o + tag_bytes l <= BLOCK_SIZE).
Context (low high ck fl : Z) (Wl : fits 32 low) (Wh : fits 32 high) (Wc : fits 16 ck) (Wf : fits 16 fl).

Lemma prefix_bytes : tag_bytes l = 8 + (if has_blocknr_high l then 4 else 0) + (if has_csum l then 2 else 0).
Proof. destruct Hl as (_ & H & _). by apply H. Qed.

Lemma prefix_tag_wf : c_wf block_tag_codec {| t_blocknr := low; t_checksum := ck; t_flags := fl |}.
Proof. done. Qed.

Lemma prefix_tag_len : zlen (write_at block_tag_codec o {| t_blocknr := low; t_checksum := ck; t_flags := fl |} b) = BLOCK_SIZE.
Proof.
  unfold is_block in Hb. rewrite (zlen_write_at block_tag_codec); [done|done| |apply prefix_tag_wf]. change (c_size _) with 8.
  pose proof (tag_bytes_range l Hl). lia.
Qed.

Lemma put_prefix_tag_slice p n :
  0 <= p -> p + n <= o \/ o + tag_bytes l <= p ->
  slice p n (put_prefix_tag l b o low high ck fl) = slice p n b.
Proof.
  intros Hp Hd. pose proof prefix_bytes as Ht. pose proof prefix_tag_len as Hz.
  unfold put_prefix_tag, put_be, BLOCK_TAG_SIZE in *. unfold is_block in Hb.
  assert (Hw : slice p n (write_at block_tag_codec o {| t_blocknr := low; t_checksum := ck; t_flags := fl |} b)
               = slice p n b).
  { apply (slice_write_other block_tag_codec); [done| |apply prefix_tag_wf|done|]; change (c_size _) with 8;
      destruct (has_blocknr_high l), (has_csum l); lia. }
  destruct (has_blocknr_high l); [|done].
  rewrite slice_splice_other; [done|lia|lia| |]; rewrite ?zlen_be_bytes, ?Hz; destruct (has_csum l); lia.
Qed.

Lemma put_prefix_tag_block : is_block (put_prefix_tag l b o low high ck fl).
Proof.
  pose proof prefix_bytes as Ht. pose proof prefix_tag_len as Hz.
  unfold put_prefix_tag, is_block, BLOCK_TAG_SIZE in *. destruct (has_blocknr_high l); [|done].
  rewrite zlen_put_be; [done|lia|]. rewrite Hz. destruct (has_csum l); lia.
Qed.

Lemma decode_put_prefix_tag :
  decode_tag l (put_prefix_tag l b o low high ck fl) o =
    Ok {| dt_blocknr := join_blocknr low (if has_blocknr_high l then high else 0); dt_flags := fl;
          dt_checksum := if has_csum l then Some (CsumV2 ck) else None |}.
Proof.
  pose proof prefix_bytes as Ht. pose proof prefix_tag_len as Hz. unfold decode_tag. rewrite H3.
  unfold put_prefix_tag, BLOCK_TAG_SIZE in *. unfold is_block in Hb.
  assert (Ho8 : o + 8 <= zlen b) by (pose proof (tag_bytes_range l Hl); lia).
  destruct (has_blocknr_high l).
  - rewrite (read_at_put_be_other block_tag_codec); rewrite ?Hz; change (c_size block_tag_codec) with 8;
      [|destruct (has_csum l); lia..].
    rewrite (read_write_same block_tag_codec); [|lia|done|apply prefix_tag_wf].
    rewrite get_be_put_same, wrap_small; [done|exact Wh|lia|]. rewrite Hz. destruct (has_csum l); lia.
  - rewrite (read_write_same block_tag_codec); [done|lia|done|apply prefix_tag_wf].
Qed.
End Prefix.

(** The state of a writer between two tags. *)
Definition writer_ok (w : TagWriter) : Prop :=
  layout_ok (tw_layout w) /\ is_block (tw_block w) /\
  first_tag_offset <= tw_offset w <= tag_area_end (tw_layout w) /\
  mode_ok (tw_layout w) (tw_mode w).

Lemma tag3_write_spec l b o low high ck fl :
  is_block b -> layout_ok l -> csum_v3 l = true -> 0 <= o -> o + tag_bytes l <= BLOCK_SIZE ->
  fits 32 low -> fits 32 high -> fits 32 ck -> fits 16 fl ->
  let t := {| t3_blocknr := low; t3_flags := fl; t3_blocknr_high := high; t3_checksum := ck |} in
  let b' := write_at block_tag3_codec o t b in
  is_block b' /\
  (forall p n, 0 <= p -> p + n <= o \/ o + tag_bytes l <= p -> slice p n b' = slice p n b) /\
  decode_tag l b' o = Ok {| dt_blocknr := join_blocknr low (if has_blocknr_high l then high else 0);
                            dt_flags := fl; dt_checksum := Some (CsumV3 ck) |}.
Proof.
  intros Hb Hl H3 Ho He Wl Wh Wc Wf t b'. destruct Hl as (Ht & _ & _). destruct Ht as [Ht _]; [done|].
  assert (W : c_wf block_tag3_codec t).
  { repeat split; try apply Wl; try apply Wh; try apply Wc; simpl; unfold fits in *; lia. }
  unfold is_block in *. assert (o + c_size block_tag3_codec <= zlen b) by (change (c_size _) with 16; lia).
  split; [|split].
  - unfold b'. by rewrite (zlen_write_at block_tag3_codec).
  - intros p n Hp Hd. apply (slice_write_other block_tag3_codec); [done..|]. change (c_size _) with 16. lia.
  - unfold decode_tag, b'. rewrite H3, (read_write_same block_tag3_codec) by done. simpl.
    assert (fitsb 16 fl = true) as -> by by apply fitsb_spec. done.
Qed.

Lemma prefix_write_spec l b o bn ck fl :
  is_block b -> layout_ok l -> csum_v3 l = false -> 0 <= o -> o + tag_bytes l <= BLOCK_SIZE ->
  join_blocknr (wrap 32 bn) (if has_blocknr_high l then wrap 32 (Z.shiftr bn 32) else 0) = bn ->
  fits 16 fl -> fits 16 ck ->
  let b' := put_prefix_tag l b o (wrap 32 bn) (wrap 32 (Z.shiftr bn 32)) ck fl in
  is_block b' /\
  (forall p n, 0 <= p -> p + n <= o \/ o + tag_bytes l <= p -> slice p n b' = slice p n b) /\
  decode_tag l b' o = Ok {| dt_blocknr := bn; dt_flags := fl;
                            dt_checksum := if has_csum l then Some (CsumV2 ck) else None |}.
Proof.
  intros Hb Hl H3 Ho He Hjoin Wf Wc b'. pose proof (wrap_fits 32 bn ltac:(lia)).
  pose proof (wrap_fits 32 (Z.shiftr bn 32) ltac:(lia)). split; [|split].
  - by apply put_prefix_tag_block.
  - intros. by apply put_prefix_tag_slice.
  - unfold b'. by rewrite decode_put_prefix_tag, Hjoin by done.
Qed.

(** One [put]: where the cursor goes, which bytes change, and what the reader
    decodes there. *)
Lemma put_spec w bn fl logged w' :
  writer_ok w -> fits 64 bn -> fits 16 fl -> put w bn fl logged = Ok w' ->
  writer_ok w' /\
  tw_layout w' = tw_layout w /\ tw_tid w' = tw_tid w /\ tw_mode w' = tw_mode w /\
  tw_offset w' = tw_offset w + tag_bytes (tw_layout w)
                 + (if has_flag fl TAG_FLAG_SAME_UUID then 0 else TAG_UUID_BYTES) /\
  (forall p n, 0 <= p -> p + n <= tw_offset w \/ tw_offset w + tag_bytes (tw_layout w) <= p ->
     slice p n (tw_block w') = slice p n (tw_block w)) /\
  decode_tag (tw_layout w) (tw_block w') (tw_offset w) = Ok (tag_of (tw_mode w) (tw_tid w) bn fl logged).
Proof.
  intros (Hl & Hb & Ho & Hm) Wb Wf H. unfold put in H. rewrite split_blocknr_spec in H.
  unfold first_tag_offset in *. inv_result. set (l := tw_layout w) in *. set (o := tw_offset w) in *.
  pose proof (tag_bytes_range l Hl) as Ht. pose proof (tag_area_end_range l Hl) as Ha.
  apply negb_true_iff, Z.ltb_ge in Hck0.
  assert (Wlo : fits 32 (wrap 32 bn)) by by apply wrap_fits.
  assert (Whi : fits 32 (wrap 32 (Z.shiftr bn 32))) by by apply wrap_fits.
  set (pad := if has_flag fl TAG_FLAG_SAME_UUID then 0 else TAG_UUID_BYTES) in *.
  assert (0 <= pad) by (subst pad; destruct (has_flag _ _); done).
  assert (Hend : o + tag_bytes l <= BLOCK_SIZE) by lia.
  assert (Hjoin : join_blocknr (wrap 32 bn) (if has_blocknr_high l then wrap 32 (Z.shiftr bn 32) else 0) = bn).
  { destruct (has_blocknr_high l); [by apply join_split_wide|]. apply join_split_narrow; [done|].
    destruct (Z.eqb_spec (wrap 32 (Z.shiftr bn 32)) 0); [done|]. by simpl in Hck. }
  pose proof (fun ck H3 => prefix_write_spec l (tw_block w) o bn ck fl Hb Hl H3 ltac:(lia) Hend Hjoin Wf) as Hprefix.
  rewrite <- H. unfold writer_ok. cbn [tw_layout tw_tid tw_mode tw_offset tw_block]. fold l o pad.
  unfold first_tag_offset. unfold mode_ok in Hm. unfold tag_of.
  destruct (tw_mode w) as [|s|s] eqn:Em.
  - destruct (Hprefix 0) as (H1 & H2 & H3);
      [by destruct (csum_v3 l) eqn:E; [rewrite csum_v3_has_csum in Hm|]|done|].
    rewrite Hm in H3. split_and!; try done; lia.
  - destruct Hm as (Hc & H3 & Hs). pose proof (data_block_csum_fits s Hs (tw_tid w) logged) as Hd.
    rewrite csum_low16 by done.
    destruct (Hprefix (Z.land (data_block_csum s (tw_tid w) logged) 0xFFFF)) as (H1 & H2 & H4); [done| |].
    { change 0xFFFF with (Z.ones 16). rewrite Z.land_ones by lia. by apply (wrap_fits 16). }
    rewrite Hc in H4. split_and!; try done; lia.
  - destruct Hm as (H3 & Hs). pose proof (data_block_csum_fits s Hs (tw_tid w) logged) as Hd.
    destruct (tag3_write_spec l (tw_block w) o (wrap 32 bn) (wrap 32 (Z.shiftr bn 32))
      (data_block_csum s (tw_tid w) logged) fl) as (H1 & H2 & H4); [done || lia..|].
    rewrite Hjoin in H4. split_and!; try done; lia.
Qed.

(** A run of [put]s; an item is a block number, its flags and the logged image. *)
Fixpoint put_all (w : TagWriter) (items : list (Z * Z * list byte)) : result TagWriter :=
  match items with
  | [] => Ok w
  | (bn, fl, logged) :: rest => let? w1 := put w bn fl logged in put_all w1 rest
  end.

Definition item_ok (i : Z * Z * list byte) : Prop := fits 64 i.1.1 /\ fits 16 i.1.2.

Definition item_tag (w : TagWriter) (i : Z * Z * list byte) : DescriptorTag :=
  tag_of (tw_mode w) (tw_tid w) i.1.1 i.1.2 i.2.

(** Exactly the last item carries the last-tag flag. *)
Fixpoint last_flagged (items : list (Z * Z * list byte)) : Prop :=
  match items with
  | [] => False
  | [i] => has_flag i.1.2 TAG_FLAG_LAST_TAG = true
  | i :: rest => has_flag i.1.2 TAG_FLAG_LAST_TAG = false /\ last_flagged rest
  end.

Lemma put_all_spec items w w' :
  writer_ok w -> Forall item_ok items -> put_all w items = Ok w' ->
  writer_ok w' /\ tw_layout w' = tw_layout w /\ tw_tid w' = tw_tid w /\ tw_mode w' = tw_mode w /\
  tw_offset w + 8 * zlen items <= tw_offset w' /\
  (forall p n, 0 <= p -> p + n <= tw_offset w -> slice p n (tw_block w') = slice p n (tw_block w)).
Proof.
  revert w. induction items as [|[[bn fl] lg] rest IH]; intros w Hw Hi H; cbn [put_all] in H.
  - injection H as <-. change (zlen []) with 0. split_and!; try done. lia.
  - apply Forall_cons in Hi as [[Wb Wf] Hi]. cbn [fst snd] in Wb, Wf. inv_result. rename x into w1, H0 into Hp.
    destruct (put_spec _ _ _ _ _ Hw Wb Wf Hp) as (Hw1 & El & Et & Em & Eo & Hs & _).
    destruct (IH w1 Hw1 Hi H) as (Hw' & El' & Et' & Em' & Ho' & Hs').
    pose proof (tag_bytes_range _ (proj1 Hw)).
    assert (0 <= if has_flag fl TAG_FLAG_SAME_UUID then 0 else TAG_UUID_BYTES) by by destruct (has_flag _ _).
    rewrite zlen_cons. split_and!; [done|congruence..|lia|].
    intros p n Hp0 Hpn. rewrite Hs' by lia. apply Hs; lia.
Qed.

(** Walking a descriptor that agrees with the written block up to the tag area's end. *)
Lemma walk_put_all items fuel w w' d :
  writer_ok w -> Forall item_ok items -> last_flagged items -> put_all w items = Ok w' ->
  (forall p n, 0 <= p -> p + n <= tag_area_end (tw_layout w) -> slice p n d = slice p n (tw_block w')) ->
  (length items <= fuel)%nat ->
  walk_items fuel {| wk_layout := tw_layout w; wk_descriptor := d; wk_offset := tw_offset w; wk_done := false |}
  = map (fun i => Ok (item_tag w i)) items.
Proof.
  revert fuel w. induction items as [|[[bn fl] lg] rest IH]; intros fuel w Hw Hi Hlast H Hd Hf; [done|].
  destruct fuel as [|fuel]; [simpl in Hf; lia|]. cbn [put_all] in H. inv_result. rename x into w1, H0 into Hp.
  apply Forall_cons in Hi as [[Wb Wf] Hi]. cbn [fst snd] in Wb, Wf.
  destruct (put_spec _ _ _ _ _ Hw Wb Wf Hp) as (Hw1 & El & Et & Em & Eo & _ & Hdec).
  destruct (put_all_spec rest w1 w' Hw1 Hi H) as (Hw' & El' & _ & _ & _ & Hs').
  pose proof Hw as (Hl & Hb & Ho & Hm). pose proof Hw1 as (_ & _ & Ho1 & _).
  assert (0 <= if has_flag fl TAG_FLAG_SAME_UUID then 0 else TAG_UUID_BYTES) by by destruct (has_flag _ _).
  unfold first_tag_offset in *. pose proof (tag_bytes_range _ Hl). rewrite El in Ho1.
  assert (Hdec' : decode_tag (tw_layout w) d (tw_offset w) = Ok (item_tag w (bn, fl, lg))).
  { etrans; [|exact Hdec]. apply decode_tag_ext; [done|lia|]. rewrite Hd by lia. apply Hs'; lia. }
  cbn [walk_items]. unfold walk_next. cbn [wk_done wk_layout wk_offset wk_descriptor].
  destruct (Z.ltb_spec (tag_area_end (tw_layout w)) (tw_offset w + tag_bytes (tw_layout w))); [lia|].
  rewrite Hdec'.
  change (reuses_uuid _) with (has_flag fl TAG_FLAG_SAME_UUID).
  change (is_last _) with (has_flag fl TAG_FLAG_LAST_TAG). rewrite <- Eo. cbn [map]. f_equal.
  destruct rest as [|i2 rest]; cbn [last_flagged fst snd] in Hlast.
  - rewrite Hlast. destruct fuel; done.
  - destruct Hlast as [-> Hlast]. specialize (IH fuel w1 Hw1 Hi Hlast H). rewrite El in IH.
    rewrite IH by (done || (cbn [length] in *; lia)).
    apply map_ext. intros i. unfold item_tag. by rewrite Em, Et.
Qed.

(** The checksum seed a journal has exactly when its layout has checksums. *)
Definition seed_ok (l : TagLayout) (seed : option JournalCsumSeed) : Prop :=
  match seed with
  | Some s => has_csum l = true /\ fits 32 (jseed s)
  | None => has_csum l = false
  end.

Definition mode_for (l : TagLayout) (seed : option JournalCsumSeed) : TagCsumMode :=
  match seed with
  | None => MPlain
  | Some s => if csum_v3 l then MV3 s else MV2 s
  end.

Lemma writer_spec l block tid seed :
  layout_ok l -> is_block block -> seed_ok l seed ->
  exists w, writer l block tid seed = Ok w /\ writer_ok w /\ tw_layout w = l /\ tw_block w = block /\
    tw_offset w = first_tag_offset /\ tw_tid w = tid /\ tw_mode w = mode_for l seed.
Proof.
  intros Hl Hb Hs. pose proof (tag_area_end_range l Hl) as Ha.
  exists {| tw_layout := l; tw_block := block; tw_offset := first_tag_offset; tw_tid := tid;
            tw_mode := mode_for l seed |}.
  split; [|split; [|by cbn]].
  - unfold writer, mode_for. destruct seed as [s|]; simpl in Hs; [|by rewrite Hs].
    destruct Hs as [Hc _]. destruct (csum_v3 l); [done|]. by rewrite Hc.
  - unfold writer_ok, first_tag_offset, BLOCK_SIZE in *. cbn. split_and!; try done; [lia|].
    unfold mode_for. destruct seed as [s|]; [|done]. destruct Hs as [Hc Hf], (csum_v3 l) eqn:E; done.
Qed.

Lemma finish_spec w :
  writer_ok w ->
  is_block (finish w) /\
  (forall p n, 0 <= p -> p + n <= tag_area_end (tw_layout w) -> slice p n (finish w) = slice p n (tw_block w)).
Proof.
  intros (Hl & Hb & Ho & Hm). unfold finish, tag_area_end. rewrite has_csum_tail by done. unfold mode_ok in Hm.
  destruct (tw_mode w) as [|s|s].
  - done.
  - destruct Hm as (-> & _ & Hs). split; [by apply stamp_block_tail_block|].
    intros. by apply slice_stamp_block_tail.
  - destruct Hm as (H3 & Hs). rewrite csum_v3_has_csum by done. split; [by apply stamp_block_tail_block|].
    intros. by apply slice_stamp_block_tail.
Qed.

Lemma finish_verifies w l seed :
  writer_ok w -> tw_mode w = mode_for l seed ->
  match seed with Some s => verify_block_tail s (finish w) = true | None => True end.
Proof.
  intros (Hl & Hb & Ho & Hm) Em. unfold finish. rewrite Em in *. unfold mode_for in *.
  destruct seed as [s|]; [|done]. destruct (csum_v3 l), Hm as [? Hm]; try destruct Hm as [? Hm];
    by apply verify_stamp_block_tail.
Qed.

(** The block numbers a layout can carry. *)
Definition blocknr_ok (l : TagLayout) (bn : Z) : Prop :=
  fits 64 bn /\ (has_blocknr_high l = false -> bn < 2 ^ 32).

Definition item_size (l : TagLayout) (i : Z * Z * list byte) : Z :=
  tag_bytes l + (if has_flag i.1.2 TAG_FLAG_SAME_UUID then 0 else TAG_UUID_BYTES).

Definition items_size (l : TagLayout) (items : list (Z * Z * list byte)) : Z :=
  foldr (fun i n => item_size l i + n) 0 items.

Lemma items_size_nonneg l items : layout_ok l -> 0 <= items_size l items.
Proof.
  intros Hl. pose proof (tag_bytes_range l Hl). induction items as [|i rest IH]; [done|].
  change (0 <= item_size l i + items_size l rest). unfold item_size. destruct (has_flag _ _); unfold TAG_UUID_BYTES; lia.
Qed.

Lemma high_zero l bn : blocknr_ok l bn -> has_blocknr_high l = false -> wrap 32 (Z.shiftr bn 32) = 0.
Proof.
  intros [[H0 _] Hn] Hh. specialize (Hn Hh). rewrite Z.shiftr_div_pow2, Z.div_small by lia. done.
Qed.

(** [put] fails only when the number does not fit the tag or the area is full. *)
Lemma put_ok w bn fl logged :
  blocknr_ok (tw_layout w) bn ->
  tw_offset w + item_size (tw_layout w) (bn, fl, logged) <= tag_area_end (tw_layout w) ->
  exists w', put w bn fl logged = Ok w'.
Proof.
  intros Hbn Hsz. unfold put. rewrite split_blocknr_spec.
  destruct (has_blocknr_high (tw_layout w)) eqn:Hh; rewrite ?andb_false_r; cbn [negb andb];
    rewrite ?(high_zero _ _ Hbn Hh); cbn [Z.eqb negb andb]; unfold item_size in Hsz; cbn [fst snd] in Hsz;
    (destruct (Z.ltb_spec (tag_area_end (tw_layout w))
       (tw_offset w + tag_bytes (tw_layout w) + (if has_flag fl TAG_FLAG_SAME_UUID then 0 else TAG_UUID_BYTES)));
     [lia|cbn; eauto]).
Qed.

Lemma put_all_ok items w :
  writer_ok w -> Forall (fun i => blocknr_ok (tw_layout w) i.1.1 /\ fits 16 i.1.2) items ->
  tw_offset w + items_size (tw_layout w) items <= tag_area_end (tw_layout w) ->
  exists w', put_all w items = Ok w'.
Proof.
  revert w. induction items as [|[[bn fl] lg] rest IH]; intros w Hw Hi Hsz; [by eexists|].
  apply Forall_cons in Hi as [[Hbn Wf] Hi]. cbn [fst snd items_size foldr] in *. fold (items_size (tw_layout w) rest) in *.
  pose proof (items_size_nonneg _ rest (proj1 Hw)).
  destruct (put_ok w bn fl lg Hbn) as [w1 Hp]; [lia|].
  destruct (put_spec _ _ _ _ _ Hw (proj1 Hbn) Wf Hp) as (Hw1 & El & _ & _ & Eo & _ & _).
  destruct (IH w1 Hw1) as [w' Hw']; [by rewrite El| |].
  - rewrite El. unfold item_size in Hsz. cbn [fst snd] in Hsz. lia.
  - exists w'. cbn [put_all]. by rewrite Hp.
Qed.

Lemma put_full w bn fl logged :
  blocknr_ok (tw_layout w) bn ->
  tag_area_end (tw_layout w) < tw_offset w + item_size (tw_layout w) (bn, fl, logged) ->
  put w bn fl logged = Err ENOSPC.
Proof.
  intros Hbn Hsz. unfold put. rewrite split_blocknr_spec.
  destruct (has_blocknr_high (tw_layout w)) eqn:Hh; rewrite ?andb_false_r; cbn [negb andb];
    rewrite ?(high_zero _ _ Hbn Hh); cbn [Z.eqb negb andb]; unfold item_size in Hsz; cbn [fst snd] in Hsz;
    (destruct (Z.ltb_spec (tag_area_end (tw_layout w))
       (tw_offset w + tag_bytes (tw_layout w) + (if has_flag fl TAG_FLAG_SAME_UUID then 0 else TAG_UUID_BYTES)));
     [done|lia]).
Qed.

Lemma put_all_full items w :
  writer_ok w -> Forall (fun i => blocknr_ok (tw_layout w) i.1.1 /\ fits 16 i.1.2) items ->
  tag_area_end (tw_layout w) < tw_offset w + items_size (tw_layout w) items ->
  put_all w items = Err ENOSPC.
Proof.
  revert w. induction items as [|[[bn fl] lg] rest IH]; intros w Hw Hi Hsz.
  { destruct Hw as (_ & _ & Ho & _). cbn in Hsz. lia. }
  apply Forall_cons in Hi as [[Hbn Wf] Hi]. cbn [fst snd items_size foldr] in *. fold (items_size (tw_layout w) rest) in *.
  cbn [put_all].
  destruct (decide (tw_offset w + item_size (tw_layout w) (bn, fl, lg) <= tag_area_end (tw_layout w))).
  - destruct (put_ok w bn fl lg Hbn) as [w1 Hp]; [lia|]. rewrite Hp. cbn [rbind].
    destruct (put_spec _ _ _ _ _ Hw (proj1 Hbn) Wf Hp) as (Hw1 & El & _ & _ & Eo & _ & _).
    apply IH; [done|by rewrite El|]. rewrite El. unfold item_size in Hsz. cbn [fst snd] in Hsz. lia.
  - by rewrite put_full by (done || lia).
Qed.

(** The flags of a descriptor run: only the first tag is followed by a UUID. *)
Definition chain_flags (items : list (Z * Z * list byte)) : Prop :=
  match items with
  | [] => True
  | i :: rest => has_flag i.1.2 TAG_FLAG_SAME_UUID = false /\
                 Forall (fun i => has_flag i.1.2 TAG_FLAG_SAME_UUID = true) rest
  end.

Lemma items_size_same l items :
  Forall (fun i : Z * Z * list byte => has_flag i.1.2 TAG_FLAG_SAME_UUID = true) items ->
  items_size l items = tag_bytes l * zlen items.
Proof.
  induction 1 as [|i rest Hi _ IH]; [change (0 = tag_bytes l * 0); lia|].
  change (items_size l (i :: rest)) with (item_size l i + items_size l rest).
  unfold item_size. rewrite IH, Hi, zlen_cons. lia.
Qed.

Lemma items_size_chain l items :
  items <> [] -> chain_flags items -> items_size l items = TAG_UUID_BYTES + tag_bytes l * zlen items.
Proof.
  destruct items as [|i rest]; [done|]. intros _ [Hi Hr].
  change (items_size l (i :: rest)) with (item_size l i + items_size l rest).
  unfold item_size. rewrite (items_size_same _ _ Hr), Hi, zlen_cons. lia.
Qed.

(** [n] tags fit a descriptor exactly when [n <= tags_per_descriptor]. *)
Lemma tags_per_descriptor_spec l n :
  layout_ok l ->
  (first_tag_offset + (TAG_UUID_BYTES + tag_bytes l * n) <= tag_area_end l <-> n <= tags_per_descriptor l).
Proof.
  intros Hl. pose proof (tag_bytes_range l Hl). unfold tags_per_descriptor.
  pose proof (Z.mul_div_le (tag_area_end l - first_tag_offset - TAG_UUID_BYTES) (tag_bytes l) ltac:(lia)).
  split; intros H1; [apply Z.div_le_lower_bound; lia|nia].
Qed.

Lemma tags_per_descriptor_pos l : layout_ok l -> 1 <= tags_per_descriptor l.
Proof.
  intros Hl. apply tags_per_descriptor_spec; [done|]. pose proof (tag_bytes_range l Hl).
  pose proof (tag_area_end_range l Hl). unfold first_tag_offset, TAG_UUID_BYTES, BLOCK_SIZE in *. lia.
Qed.

(** ** Lemmas: revoke blocks *)

Lemma r_count_get b : r_count (parse_revoke_header b) = get_be 4 R_COUNT_OFFSET b.
Proof.
  unfold parse_revoke_header, read_at. cbn [from_bytes revoke_header_codec struct cpair r_count].
  rewrite slice_slice by done. done.
Qed.

Lemma r_header_parse b : r_header (parse_revoke_header b) = parse_header b.
Proof.
  unfold parse_revoke_header, parse_header, read_at. cbn [from_bytes revoke_header_codec struct cpair r_header].
  rewrite slice_slice by done. done.
Qed.

Definition rwriter_ok (w : RevokeBlockWriter) : Prop :=
  layout_ok (rw_layout w) /\ is_block (rw_block w) /\ rw_width w = revoke_entry_width (rw_layout w) /\
  REVOKE_HEADER_SIZE <= rw_offset w <= tag_area_end (rw_layout w) /\ seed_ok (rw_layout w) (rw_seed w).

Definition rget (w : RevokeEntryWidth) (off : Z) (b : list byte) : Z :=
  match w with Narrow => get_be 4 off b | Wide => get_be 8 off b end.

Lemma rget_ext w off b1 b2 :
  slice off (width_bytes w) b1 = slice off (width_bytes w) b2 -> rget w off b1 = rget w off b2.
Proof.
  unfold rget, get_be. change (Z.of_nat 4) with 4. change (Z.of_nat 8) with 8.
  destruct w; cbn [width_bytes]; by intros ->.
Qed.

Lemma revoke_put_spec w bn w' :
  rwriter_ok w -> fits 64 bn -> revoke_put w bn = Ok w' ->
  rwriter_ok w' /\ rw_layout w' = rw_layout w /\ rw_seed w' = rw_seed w /\
  rw_offset w' = rw_offset w + width_bytes (rw_width w) /\
  (forall p n, 0 <= p -> p + n <= rw_offset w \/ rw_offset w' <= p ->
     slice p n (rw_block w') = slice p n (rw_block w)) /\
  rget (rw_width w) (rw_offset w) (rw_block w') = bn.
Proof.
  intros (Hl & Hb & Hwd & Ho & Hs) Wb H. unfold revoke_put in H. inv_result.
  apply negb_true_iff, Z.ltb_ge in Hck. pose proof (tag_area_end_range _ Hl) as Ha.
  unfold is_block, REVOKE_HEADER_SIZE in *. subst w'.
  unfold rwriter_ok, is_block, REVOKE_HEADER_SIZE. cbn [rw_layout rw_seed rw_offset rw_block rw_width].
  destruct (rw_width w); cbn [width_bytes rget] in *; inv_result; subst x.
  - rewrite zlen_put_be by lia. split_and!; try done; try lia.
    + intros. unfold put_be. apply slice_splice_other; len.
    + rewrite get_be_put_same by lia. apply wrap_small. by apply fitsb_spec.
  - rewrite zlen_put_be by lia. split_and!; try done; try lia.
    + intros. unfold put_be. apply slice_splice_other; len.
    + rewrite get_be_put_same by lia. by apply wrap_small.
Qed.

Lemma revoke_put_ok w bn :
  rw_width w = revoke_entry_width (rw_layout w) -> blocknr_ok (rw_layout w) bn ->
  rw_offset w + width_bytes (rw_width w) <= tag_area_end (rw_layout w) ->
  exists w', revoke_put w bn = Ok w'.
Proof.
  intros Hwd Hbn Ho. unfold revoke_put. destruct (Z.ltb_spec (tag_area_end (rw_layout w))
    (rw_offset w + width_bytes (rw_width w))); [lia|]. cbn [negb]. rewrite Hwd. unfold revoke_entry_width.
  destruct Hbn as [[H0 H64] Hn]. destruct (has_blocknr_high (rw_layout w)); [by eexists|].
  assert (fitsb 32 bn = true) as -> by (apply fitsb_spec; split; [done|by apply Hn]). by eexists.
Qed.

Fixpoint revoke_put_all (w : RevokeBlockWriter) (bns : list Z) : result RevokeBlockWriter :=
  match bns with
  | [] => Ok w
  | bn :: rest => let? w1 := revoke_put w bn in revoke_put_all w1 rest
  end.

Lemma revoke_put_all_spec bns w w' :
  rwriter_ok w -> Forall (fits 64) bns -> revoke_put_all w bns = Ok w' ->
  rwriter_ok w' /\ rw_layout w' = rw_layout w /\ rw_seed w' = rw_seed w /\
  rw_offset w' = rw_offset w + width_bytes (rw_width w) * zlen bns /\
  (forall p n, 0 <= p -> p + n <= rw_offset w -> slice p n (rw_block w') = slice p n (rw_block w)).
Proof.
  revert w. induction bns as [|bn rest IH]; intros w Hw Hi H; cbn [revoke_put_all] in H.
  - injection H as <-. rewrite zlen_nil. split_and!; done || lia.
  - apply Forall_cons in Hi as [Wb Hi]. inv_result. rename x into w1, H0 into Hp.
    destruct (revoke_put_spec _ _ _ Hw Wb Hp) as (Hw1 & El & Es & Eo & Hs & _).
    destruct (IH w1 Hw1 Hi H) as (Hw' & El' & Es' & Eo' & Hs').
    assert (Ew : rw_width w1 = rw_width w)
      by (destruct Hw as (_ & _ & -> & _), Hw1 as (_ & _ & -> & _); by rewrite El).
    assert (0 <= width_bytes (rw_width w)) by by destruct (rw_width w).
    rewrite zlen_cons. split_and!; [done|congruence..|rewrite Eo', Eo, Ew; lia|].
    intros p n Hp0 Hpn. rewrite Hs' by lia. apply Hs; lia.
Qed.

Lemma revoke_put_all_ok bns w :
  rwriter_ok w -> Forall (blocknr_ok (rw_layout w)) bns ->
  rw_offset w + width_bytes (rw_width w) * zlen bns <= tag_area_end (rw_layout w) ->
  exists w', revoke_put_all w bns = Ok w'.
Proof.
  revert w. induction bns as [|bn rest IH]; intros w Hw Hi Hsz; [by eexists|].
  apply Forall_cons in Hi as [Hbn Hi]. rewrite zlen_cons in Hsz. pose proof (zlen_nonneg rest).
  assert (4 <= width_bytes (rw_width w)) by (destruct (rw_width w); cbn; lia).
  destruct (revoke_put_ok w bn) as [w1 Hp]; [apply Hw|done|nia|].
  destruct (revoke_put_spec _ _ _ Hw (proj1 Hbn) Hp) as (Hw1 & El & _ & Eo & _ & _).
  assert (Ew : rw_width w1 = rw_width w)
    by (destruct Hw as (_ & _ & -> & _), Hw1 as (_ & _ & -> & _); by rewrite El).
  destruct (IH w1 Hw1) as [w' Hw']; [by rewrite El|rewrite El, Eo, Ew; lia|].
  exists w'. cbn [revoke_put_all]. by rewrite Hp.
Qed.

Lemma revoke_writer_spec l tid seed :
  layout_ok l -> seed_ok l seed -> fits 32 tid ->
  exists w, revoke_writer l tid seed = Ok w /\ rwriter_ok w /\ rw_layout w = l /\ rw_seed w = seed /\
    rw_offset w = REVOKE_HEADER_SIZE /\ rw_width w = revoke_entry_width l /\
    parse_header (rw_block w) = {| h_magic := JBD2_MAGIC; h_blocktype := BLOCKTYPE_REVOKE; h_sequence := tid |}.
Proof.
  intros Hl Hs Ht. pose proof (tag_area_end_range l Hl) as Ha.
  assert (Wh : c_wf header_codec {| h_magic := JBD2_MAGIC; h_blocktype := BLOCKTYPE_REVOKE; h_sequence := tid |})
    by by apply header_wf.
  unfold revoke_writer.
  assert (Bool.eqb (bool_decide (is_Some seed)) (has_csum l) = true) as ->.
  { destruct seed as [s|]; cbn in Hs; [destruct Hs as [-> _]|rewrite Hs]; done. }
  eexists. split; [reflexivity|]. unfold rwriter_ok, REVOKE_HEADER_SIZE in *.
  cbn [rw_layout rw_seed rw_offset rw_block rw_width].
  assert (0 + c_size header_codec <= zlen (zeros BLOCK_SIZE)) by (rewrite zlen_zeros by done; done).
  assert (is_block (write_at header_codec 0 {| h_magic := JBD2_MAGIC; h_blocktype := BLOCKTYPE_REVOKE;
                                               h_sequence := tid |} (zeros BLOCK_SIZE))).
  { unfold is_block. rewrite (zlen_write_at header_codec) by done. by rewrite zlen_zeros. }
  split_and!; try assumption; try reflexivity; try (unfold BLOCK_SIZE in *; lia).
  unfold parse_header. by rewrite (read_write_same header_codec).
Qed.

Lemma revoke_finish_spec w :
  rwriter_ok w ->
  is_block (revoke_finish w) /\
  r_count (parse_revoke_header (revoke_finish w)) = rw_offset w /\
  parse_header (revoke_finish w) = parse_header (rw_block w) /\
  (forall p n, REVOKE_HEADER_SIZE <= p -> p + n <= tag_area_end (rw_layout w) ->
     slice p n (revoke_finish w) = slice p n (rw_block w)) /\
  match rw_seed w with Some s => verify_block_tail s (revoke_finish w) = true | None => True end.
Proof.
  intros (Hl & Hb & _ & Ho & Hs). pose proof (tag_area_end_range _ Hl) as Ha.
  unfold is_block, R_COUNT_OFFSET, REVOKE_HEADER_SIZE in *. rewrite r_count_get. unfold tag_area_end in *.
  rewrite has_csum_tail in * by done. unfold revoke_finish, R_COUNT_OFFSET.
  set (b1 := put_be 4 12 (rw_offset w) (rw_block w)).
  assert (Hz1 : zlen b1 = BLOCK_SIZE) by (unfold b1, BLOCK_SIZE in *; by rewrite zlen_put_be by lia).
  assert (Hg1 : get_be 4 12 b1 = rw_offset w).
  { unfold b1. rewrite get_be_put_same by (unfold BLOCK_SIZE in *; lia). apply wrap_small.
    unfold fits, BLOCK_SIZE in *. lia. }
  assert (Hh1 : parse_header b1 = parse_header (rw_block w)).
  { unfold parse_header, b1. apply (read_at_put_be_other header_codec); unfold BLOCK_SIZE in *;
      change (c_size header_codec) with 12; lia. }
  assert (Hs1 : forall p n, 16 <= p -> slice p n b1 = slice p n (rw_block w)).
  { intros p n Hp. unfold b1, put_be. apply slice_splice_other; unfold BLOCK_SIZE in *; len. }
  destruct (rw_seed w) as [s|]; [|split_and!; auto]. destruct Hs as [Hc Hf]. rewrite Hc in *. split_and!.
  - by apply stamp_block_tail_block.
  - unfold get_be. rewrite slice_stamp_block_tail; [exact Hg1|done..].
  - rewrite <- Hh1. unfold parse_header, read_at. by rewrite slice_stamp_block_tail.
  - intros p n Hp Hpn. rewrite slice_stamp_block_tail by (done || lia). by apply Hs1.
  - by apply verify_stamp_block_tail.
Qed.

Lemma revoke_items_spec bns fuel w w' d e :
  rwriter_ok w -> Forall (fits 64) bns -> revoke_put_all w bns = Ok w' -> rw_offset w' = e ->
  (forall p n, REVOKE_HEADER_SIZE <= p -> p + n <= tag_area_end (rw_layout w) ->
     slice p n d = slice p n (rw_block w')) ->
  (length bns < fuel)%nat ->
  revoke_items fuel {| rk_width := rw_width w; rk_block := d; rk_offset := rw_offset w; rk_end := e |} = bns.
Proof.
  revert fuel w. induction bns as [|bn rest IH]; intros fuel w Hw Hi H He Hd Hf;
    (destruct fuel as [|fuel]; [cbn in Hf; lia|]); cbn [revoke_items]; unfold revoke_next;
    cbn [rk_width rk_block rk_offset rk_end]; cbn [revoke_put_all] in H.
  - injection H as <-. destruct (Z.ltb_spec e (rw_offset w + width_bytes (rw_width w))); [done|].
    destruct (rw_width w); cbn [width_bytes] in *; lia.
  - apply Forall_cons in Hi as [Wb Hi]. inv_result. rename x into w1, H0 into Hp.
    destruct (revoke_put_spec _ _ _ Hw Wb Hp) as (Hw1 & El & Es & Eo & Hs & Hg).
    destruct (revoke_put_all_spec rest w1 w' Hw1 Hi H) as (Hw' & El' & Es' & Eo' & Hs').
    assert (Ew : rw_width w1 = rw_width w)
      by (destruct Hw as (_ & _ & -> & _), Hw1 as (_ & _ & -> & _); by rewrite El).
    assert (Hwd : 4 <= width_bytes (rw_width w)) by (destruct (rw_width w); cbn; lia).
    pose proof (zlen_nonneg rest). destruct Hw as (_ & _ & _ & Ho & _). pose proof Hw1 as (_ & _ & _ & Ho1 & _).
    destruct (Z.ltb_spec e (rw_offset w + width_bytes (rw_width w))); [rewrite Ew in Eo'; nia|].
    assert (Hrg : rget (rw_width w) (rw_offset w) d = bn).
    { rewrite <- Hg. apply rget_ext. rewrite El in Ho1. unfold REVOKE_HEADER_SIZE in *.
      rewrite Hd by lia. apply Hs'; lia. }
    unfold rget in Hrg. rewrite Hrg. f_equal. rewrite <- Eo, <- Ew.
    apply IH; [done|done|done|done|by rewrite El|cbn in Hf; lia].
Qed.

(** ** Termination of the walkers on any block *)

Lemma walk_items_fuel k fuel extra :
  layout_ok (wk_layout k) ->
  tag_area_end (wk_layout k) - wk_offset k < 8 * Z.of_nat fuel - 8 ->
  (2 <= fuel)%nat -> walk_items (fuel + extra) k = walk_items fuel k.
Proof.
  revert k. induction fuel as [|fuel IH]; intros k Hl Hm Hf; [lia|]. cbn [walk_items Nat.add].
  destruct (walk_next k) as [[t|] k'] eqn:E; [|done]. f_equal. unfold walk_next in E.
  pose proof (tag_bytes_range _ Hl). destruct (wk_done k) eqn:Ed; [done|].
  assert (Hstop : forall k, wk_done k = true -> walk_items (fuel + extra) k = walk_items fuel k).
  { intros k0 Hd. destruct fuel as [|fuel']; [lia|]. cbn [walk_items Nat.add]. unfold walk_next. by rewrite Hd. }
  destruct (Z.ltb_spec (tag_area_end (wk_layout k)) (wk_offset k + tag_bytes (wk_layout k))).
  { injection E as <- <-. by apply Hstop. }
  destruct (decode_tag _ _ _) as [tag|e]; injection E as <- <-; [|by apply Hstop].
  assert (0 <= if reuses_uuid tag then 0 else TAG_UUID_BYTES) by by destruct (reuses_uuid tag).
  apply IH; cbn [wk_layout wk_offset]; [done|lia|lia].
Qed.

Lemma revoke_items_fuel k fuel extra :
  rk_end k - rk_offset k < 4 * Z.of_nat fuel -> (1 <= fuel)%nat ->
  revoke_items (fuel + extra) k = revoke_items fuel k.
Proof.
  revert k. induction fuel as [|fuel IH]; intros k Hm Hf; [lia|]. cbn [revoke_items Nat.add].
  assert (4 <= width_bytes (rk_width k)) by (destruct (rk_width k); cbn; lia).
  unfold revoke_next. destruct (Z.ltb_spec (rk_end k) (rk_offset k + width_bytes (rk_width k))); [done|].
  f_equal. apply IH; cbn [rk_end rk_offset]; lia.
Qed.

(** ** What a finished block reads back as *)

Lemma descriptor_reads_back l block tid seed w items w' :
  layout_ok l -> is_block block -> seed_ok l seed -> fits 32 tid ->
  writer l block tid seed = Ok w ->
  Forall item_ok items -> last_flagged items -> put_all w items = Ok w' ->
  is_block (finish w') /\
  walk_tags l (finish w') = map (fun i => Ok (tag_of (mode_for l seed) tid i.1.1 i.1.2 i.2)) items /\
  parse_header (finish w') = parse_header block /\
  match seed with
  | Some s => verify_block_tail s (finish w') = true /\
      Forall (fun i => verify_data_csum (tag_of (mode_for l seed) tid i.1.1 i.1.2 i.2) s tid i.2 = true) items
  | None => True
  end.
Proof.
  intros Hl Hb Hs Ht Hw Hi Hla Hp.
  destruct (writer_spec l block tid seed Hl Hb Hs) as (w0 & Hw0 & Hok & El & Eb & Eo & Et & Em).
  rewrite Hw0 in Hw. injection Hw as ->. subst l. rename Hw0 into Hw.
  destruct (put_all_spec _ _ _ Hok Hi Hp) as (Hok' & El' & _ & Em' & Ho' & Hsl).
  destruct (finish_spec w' Hok') as [Hbf Hsf]. pose proof Hok' as (_ & _ & Ho2 & _).
  pose proof (tag_area_end_range _ Hl) as Ha. rewrite El' in *.
  unfold first_tag_offset, BLOCK_SIZE in *. split_and!; [done| | |].
  - unfold walk_tags, walk, first_tag_offset. rewrite <- Eo.
    rewrite (walk_put_all items WALK_FUEL w w' (finish w')); [|done..|].
    + apply map_ext. intros i. unfold item_tag. by rewrite Em, Et.
    + unfold zlen, WALK_FUEL in *. lia.
  - unfold parse_header, read_at. change (c_size header_codec) with 12. rewrite Hsf, Hsl, Eb by lia. done.
  - pose proof (finish_verifies w' (tw_layout w) seed Hok' ltac:(congruence)) as Hv. destruct seed as [s|]; [|done].
    split; [done|]. apply Forall_forall. intros i _. apply tag_of_verifies.
    unfold mode_for. by destruct (csum_v3 (tw_layout w)).
Qed.

Lemma revoke_reads_back l tid seed w bns w' :
  layout_ok l -> seed_ok l seed -> fits 32 tid -> Forall (fits 64) bns ->
  revoke_writer l tid seed = Ok w -> revoke_put_all w bns = Ok w' ->
  is_block (revoke_finish w') /\ revoke_entries l (revoke_finish w') = Ok bns /\
  parse_header (revoke_finish w') =
    {| h_magic := JBD2_MAGIC; h_blocktype := BLOCKTYPE_REVOKE; h_sequence := tid |} /\
  match seed with Some s => verify_block_tail s (revoke_finish w') = true | None => True end.
Proof.
  intros Hl Hs Ht Hi Hw Hp.
  destruct (revoke_writer_spec l tid seed Hl Hs Ht) as (w0 & Hw0 & Hok & El & Es & Eo & Ew & Hh).
  rewrite Hw0 in Hw. injection Hw as ->. subst l.
  destruct (revoke_put_all_spec _ _ _ Hok Hi Hp) as (Hok' & El' & Es' & Eo' & Hsl).
  destruct (revoke_finish_spec w' Hok') as (Hb & Hr & Hh' & Hsf & Hv). rewrite El' in *.
  pose proof Hok' as (_ & Hb' & _ & Ho' & _). pose proof (tag_area_end_range _ Hl) as Ha. rewrite El' in Ho'.
  unfold REVOKE_HEADER_SIZE, BLOCK_SIZE in *. split_and!; [done| | |].
  - unfold revoke_entries, walk_revoke. rewrite Hr.
    destruct (Z.ltb_spec (tag_area_end (rw_layout w)) (rw_offset w')); [lia|]. cbn [negb rbind]. f_equal.
    unfold REVOKE_HEADER_SIZE. rewrite <- Ew, <- Eo.
    apply (revoke_items_spec _ _ _ w'); [done..| |].
    + intros p n Hp1 Hp2. apply Hsf; done.
    + assert (4 <= width_bytes (rw_width w)) by (destruct (rw_width w); cbn; lia).
      pose proof (zlen_nonneg bns). unfold REVOKE_FUEL, zlen in *. nia.
  - rewrite Hh', <- Hh. unfold parse_header, read_at. change (c_size header_codec) with 12.
    by rewrite Hsl by lia.
  - by rewrite Es', Es in Hv.
Qed.

(** Runs up to the capacity always fit. *)
Lemma descriptor_fits l block tid seed items :
  layout_ok l -> is_block block -> seed_ok l seed -> fits 32 tid -> items <> [] -> chain_flags items ->
  Forall (fun i => blocknr_ok l i.1.1 /\ fits 16 i.1.2) items -> zlen items <= tags_per_descriptor l ->
  exists w w', writer l block tid seed = Ok w /\ put_all w items = Ok w'.
Proof.
  intros Hl Hb Hs Ht Hne Hc Hi Hn.
  destruct (writer_spec l block tid seed Hl Hb Hs) as (w & Hw & Hok & El & _ & Eo & _). exists w. subst l.
  destruct (put_all_ok items w Hok Hi) as [w' Hw']; [|by exists w'].
  rewrite Eo, (items_size_chain _ _ Hne Hc). by apply tags_per_descriptor_spec.
Qed.

Lemma revoke_fits l tid seed bns :
  layout_ok l -> seed_ok l seed -> fits 32 tid -> Forall (blocknr_ok l) bns ->
  zlen bns <= revoke_entries_per_block l ->
  exists w w', revoke_writer l tid seed = Ok w /\ revoke_put_all w bns = Ok w'.
Proof.
  intros Hl Hs Ht Hi Hn.
  destruct (revoke_writer_spec l tid seed Hl Hs Ht) as (w & Hw & Hok & El & _ & Eo & Ew & _). exists w. subst l.
  destruct (revoke_put_all_ok bns w Hok Hi) as [w' Hw']; [|by exists w'].
  pose proof (width_range (rw_layout w)). unfold revoke_entries_per_block in Hn. rewrite Ew, Eo.
  pose proof (Z.mul_div_le (tag_area_end (rw_layout w) - REVOKE_HEADER_SIZE) (width_bytes (revoke_entry_width (rw_layout w)))). nia.
Qed.

(** ** Properties *)

(** C40: the tags a descriptor writer lays out are the tags the walker reads
    back: same order, block numbers and flags, each carrying the checksum
    its logged image verifies against; the header is untouched and a
    checksummed descriptor's tail verifies. *)
Theorem descriptor_roundtrip f l block tid seed w items w' :
  from_features f = Ok l -> is_block block -> seed_ok l seed -> fits 32 tid ->
  writer l block tid seed = Ok w ->
  Forall item_ok items -> last_flagged items -> put_all w items = Ok w' ->
  walk_tags l (finish w') = map (fun i => Ok (tag_of (mode_for l seed) tid i.1.1 i.1.2 i.2)) items /\
  parse_header (finish w') = parse_header block /\
  match seed with
  | Some s => verify_block_tail s (finish w') = true /\
      Forall (fun i => verify_data_csum (tag_of (mode_for l seed) tid i.1.1 i.1.2 i.2) s tid i.2 = true) items
  | None => True
  end.
Proof. intros Hf. by apply descriptor_reads_back, (from_features_ok f). Qed.

(** Two blocks logged under a csum-v3 layout: the first tag carries a UUID,
    the second the last-tag flag. *)
Definition example_items : list (Z * Z * list byte) :=
  [(7, 0, zeros 4096); (2 ^ 33 + 5, Z.lor TAG_FLAG_SAME_UUID TAG_FLAG_LAST_TAG, zeros 4096)].

Lemma descriptor_roundtrip_witness :
  exists l w w', from_features 0x12 = Ok l /\
    writer l (zeros 4096) 9 (Some (derive (zeros 16))) = Ok w /\ put_all w example_items = Ok w' /\
    walk_tags l (finish w') =
      map (fun i => Ok (tag_of (mode_for l (Some (derive (zeros 16)))) 9 i.1.1 i.1.2 i.2)) example_items.
Proof.
  assert (Hok : exists l w w', from_features 0x12 = Ok l /\
    writer l (zeros 4096) 9 (Some (derive (zeros 16))) = Ok w /\ put_all w example_items = Ok w' /\ has_csum l = true).
  { do 3 eexists. split; [reflexivity|]. split; [vm_compute; reflexivity|]. split; [vm_compute; reflexivity|].
    vm_compute. reflexivity. }
  destruct Hok as (l & w & w' & Hf & Hw & Hp & Hc). exists l, w, w'. split_and!; [done..|].
  apply (descriptor_roundtrip 0x12 l (zeros 4096) 9 (Some (derive (zeros 16))) w example_items w');
    [done|done|split; [done|apply seed_fits]|done|done| |by repeat split|done].
  repeat constructor; done.
Defined.

(** a descriptor takes exactly [tags_per_descriptor] tags of a run (the
    first followed by a UUID, the others sharing it): so many always fit,
    one more is refused with [ENOSPC]. *)
Theorem descriptor_capacity f l block tid seed w items :
  from_features f = Ok l -> is_block block -> seed_ok l seed -> fits 32 tid ->
  writer l block tid seed = Ok w -> items <> [] -> chain_flags items ->
  Forall (fun i => blocknr_ok l i.1.1 /\ fits 16 i.1.2) items ->
  if decide (zlen items <= tags_per_descriptor l)
  then exists w', put_all w items = Ok w'
  else put_all w items = Err ENOSPC.
Proof.
  intros Hf Hb Hs Ht Hw Hne Hc Hi. apply from_features_ok in Hf as Hl.
  destruct (writer_spec l block tid seed Hl Hb Hs) as (w0 & Hw0 & Hok & El & Eb & Eo & Et & Em).
  rewrite Hw0 in Hw. injection Hw as ->. subst l. pose proof (items_size_chain (tw_layout w) items Hne Hc) as Hz.
  pose proof (tags_per_descriptor_spec (tw_layout w) (zlen items) Hl) as Hcap.
  case_decide as Hd.
  - apply put_all_ok; [done..|]. rewrite Eo, Hz. by apply Hcap.
  - apply put_all_full; [done..|]. rewrite Eo, Hz. rewrite <- Hcap in Hd. lia.
Qed.

Lemma descriptor_capacity_witness :
  exists l w, from_features 0 = Ok l /\ writer l (zeros 4096) 9 None = Ok w /\
    (exists w', put_all w [(7, 0, zeros 4096); (9, 2, zeros 4096)] = Ok w') /\
    put_all w ((7, 0, zeros 4096) :: repeat (9, 2, zeros 4096) 509) = Err ENOSPC.
Proof.
  assert (exists l w, from_features 0 = Ok l /\ writer l (zeros 4096) 9 None = Ok w /\
    tags_per_descriptor l = 508 /\ has_blocknr_high l = false /\ has_csum l = false) as (l & w & Hf & Hw & Ht & Hh & Hc).
  { do 2 eexists. split; [reflexivity|]. split; [vm_compute; reflexivity|]. vm_compute. auto. }
  assert (Hb : forall n, fits 64 n -> n < 2 ^ 32 -> blocknr_ok l n) by (intros; split; done).
  exists l, w. split; [done|]. split; [done|]. split.
  - pose proof (descriptor_capacity 0 l (zeros 4096) 9 None w [(7, 0, zeros 4096); (9, 2, zeros 4096)] Hf) as H.
    rewrite decide_True in H by (rewrite Ht; done).
    apply H; [done..|by repeat constructor|repeat constructor; (apply Hb || done); done].
  - pose proof (descriptor_capacity 0 l (zeros 4096) 9 None w
      ((7, 0, zeros 4096) :: repeat (9, 2, zeros 4096) 509) Hf) as H.
    rewrite decide_False in H by (rewrite Ht; unfold zlen; cbn [length]; rewrite repeat_length; lia).
    apply H; [done..| |].
    + split; [done|]. apply Forall_forall. intros x Hx%list_elem_of_In%repeat_spec. by subst x.
    + apply Forall_forall. intros x Hx%list_elem_of_In. destruct Hx as [<-|Hx%repeat_spec]; [|subst x];
        (split; [apply Hb|]; done).
Defined.

(** a revoke block returns exactly the block numbers put into it, in
    order, under every layout, and its tail verifies when the journal has
    checksums. *)
Theorem revoke_roundtrip f l tid seed w bns w' :
  from_features f = Ok l -> seed_ok l seed -> fits 32 tid -> Forall (fits 64) bns ->
  revoke_writer l tid seed = Ok w -> revoke_put_all w bns = Ok w' ->
  revoke_entries l (revoke_finish w') = Ok bns /\
  parse_header (revoke_finish w') =
    {| h_magic := JBD2_MAGIC; h_blocktype := BLOCKTYPE_REVOKE; h_sequence := tid |} /\
  match seed with Some s => verify_block_tail s (revoke_finish w') = true | None => True end.
Proof. intros Hf Hs Ht Hi Hw Hp. apply (revoke_reads_back l tid seed w bns w'); try done. by apply (from_features_ok f). Qed.

Lemma revoke_roundtrip_witness :
  exists l w w', from_features 0x1B = Err EINVAL /\ from_features 0x13 = Ok l /\
    revoke_writer l 5 (Some (derive (zeros 16))) = Ok w /\ revoke_put_all w [3; 2 ^ 40; 77] = Ok w' /\
    revoke_entries l (revoke_finish w') = Ok [3; 2 ^ 40; 77].
Proof.
  assert (exists l w w', from_features 0x13 = Ok l /\ revoke_writer l 5 (Some (derive (zeros 16))) = Ok w /\
    revoke_put_all w [3; 2 ^ 40; 77] = Ok w' /\ has_csum l = true) as (l & w & w' & Hf & Hw & Hp & Hc).
  { do 3 eexists. split; [reflexivity|]. split; [vm_compute; reflexivity|]. split; [vm_compute; reflexivity|].
    vm_compute. reflexivity. }
  exists l, w, w'. split_and!; [done..|].
  apply (revoke_roundtrip 0x13 l 5 (Some (derive (zeros 16))) w [3; 2 ^ 40; 77] w');
    [done|split; [done|apply seed_fits]|done|by repeat constructor|done|done].
Defined.

(** on any block, however corrupt, the tag walker ends within
    [WALK_FUEL] steps and the revoke walker within [REVOKE_FUEL]: more fuel
    gives no further items. *)
Theorem walkers_terminate f l block k extra :
  from_features f = Ok l -> walk_revoke l block = Ok k ->
  walk_items (WALK_FUEL + extra) (walk l block) = walk_tags l block /\
  revoke_items (REVOKE_FUEL + extra) k = revoke_items REVOKE_FUEL k.
Proof.
  intros Hf Hk. apply from_features_ok in Hf as Hl. pose proof (tag_area_end_range l Hl) as Ha.
  unfold BLOCK_SIZE in *. split.
  - apply walk_items_fuel; cbn [walk wk_layout wk_offset]; [done| |by apply Nat.leb_le].
    change (Z.of_nat WALK_FUEL) with 513. unfold first_tag_offset. lia.
  - apply revoke_items_fuel; [|by apply Nat.leb_le]. unfold walk_revoke in Hk. inv_result. subst k.
    change (r_count (parse_revoke_header block) - REVOKE_HEADER_SIZE < 4 * 1021).
    apply negb_true_iff, Z.ltb_ge in Hck. unfold REVOKE_HEADER_SIZE. lia.
Qed.

Lemma walkers_terminate_witness :
  exists l k, from_features 0 = Ok l /\ walk_revoke l (zeros 4096) = Ok k /\
    walk_items (WALK_FUEL + 7) (walk l (zeros 4096)) = walk_tags l (zeros 4096).
Proof.
  assert (exists l k, from_features 0 = Ok l /\ walk_revoke l (zeros 4096) = Ok k) as (l & k & Hf & Hk).
  { do 2 eexists. split; [reflexivity|]. vm_compute. reflexivity. }
  exists l, k. split_and!; [done..|]. apply (walkers_terminate 0 l (zeros 4096) k 7 Hf Hk).
Defined.
