(* ===== verification/Device.v ===== *)
(** * The block device the journal runs on

    The code reaches the disk only through [read_bytes], [write_bytes],
    [read_val], [write_val] and [sync] of the [BlockDevice] trait
    ([kernel/comps/block]).  A device holds the blocks a reader sees, the
    blocks whose reads or writes fail, whether a flush completes, and the
    history of writes and flushes since it was opened.  The history gives the
    crash semantics: a write is durable once a later flush completed; before
    that, any subset of the writes may have reached the medium. *)

From S2P Require Import Prelude Pod JournalFormat.

(** ** State and error monad

    A fallible stateful function takes its state and returns its outcome and
    the state it leaves behind, on the error path too. *)

Definition M (S A : Type) : Type := S -> result A * S.

#[export] Instance M_ret {S} : MRet (M S) := fun A a s => (Ok a, s).
#[export] Instance M_bind {S} : MBind (M S) := fun A B f m s =>
  match m s with
  | (Ok a, s') => f a s'
  | (Err e, s') => (Err e, s')
  end.

Definition fail {S A} (e : errno) : M S A := fun s => (Err e, s).
Definition lift {S A} (r : result A) : M S A := fun s => (r, s).
Definition get {S} : M S S := fun s => (Ok s, s).
Definition modify {S} (f : S -> S) : M S unit := fun s => (Ok tt, f s).
Definition guard {S} (b : bool) (e : errno) : M S unit := if b then mret tt else fail e.

Fixpoint forM {S A} (l : list A) (f : A -> M S unit) : M S unit :=
  match l with
  | [] => mret tt
  | a :: rest => f a ;; forM rest f
  end.

(** ** Devices *)

Inductive event : Type :=
  | EvWrite (bid : Z) (data : list byte)
  | EvFlush.

#[export] Instance byte_eq_dec : EqDecision byte := Byte.byte_eq_dec.

#[export] Instance event_eq_dec : EqDecision event.
Proof. solve_decision. Defined.

Record device : Type := Device {
  d_disk : gmap Z (list byte);
  d_hist : list event;
  d_rd : Z -> bool;
  d_wr : Z -> bool;
  d_sync : bool;
}.

(** [Bid::to_offset] multiplies by the block size in [usize], so a block
    number is taken modulo 2^52. *)
Definition to_offset (bid : Z) : Z := u64 (bid * BLOCK_SIZE).
Definition block_of (offset : Z) : Z := offset / BLOCK_SIZE.

(** [read_bytes] of one block. *)
Definition dev_read (d : device) (bid : Z) : result (list byte) :=
  let b := block_of (to_offset bid) in
  check d_rd d b else EIO in
  match d_disk d !! b with
  | Some data => Ok data
  | None => Err EIO
  end.

(** [write_bytes] of one block: out of range or faulty is an error. *)
Definition dev_write (bid : Z) (data : list byte) : M device unit := fun d =>
  let b := block_of (to_offset bid) in
  match d_disk d !! b with
  | Some _ =>
      if d_wr d b
      then (Ok tt, Device (<[b := data]> (d_disk d)) (d_hist d ++ [EvWrite b data]) (d_rd d) (d_wr d) (d_sync d))
      else (Err EIO, d)
  | None => (Err EIO, d)
  end.

(** [commit::barrier]: the flush must be accepted and complete. *)
Definition barrier : M device unit := fun d =>
  if d_sync d
  then (Ok tt, Device (d_disk d) (d_hist d ++ [EvFlush]) (d_rd d) (d_wr d) (d_sync d))
  else (Err EIO, d).

(** [read_val] of a struct at the start of a block. *)
Definition dev_read_val {A} (c : codec A) (d : device) (bid : Z) : result A :=
  let? b := dev_read d bid in Ok (read_at c 0 b).

(** [write_val] of a struct at the start of a block: the rest of the block is
    kept (a read-modify-write of the sectors involved). *)
Definition dev_write_val {A} (c : codec A) (bid : Z) (a : A) : M device unit := fun d =>
  match d_disk d !! block_of (to_offset bid) with
  | Some b => dev_write bid (write_at c 0 a b) d
  | None => (Err EIO, d)
  end.

(** ** Crashes *)

Definition apply_event (disk : gmap Z (list byte)) (e : event) : gmap Z (list byte) :=
  match e with
  | EvWrite b data => <[b := data]> disk
  | EvFlush => disk
  end.

Definition apply_events (evs : list event) (disk : gmap Z (list byte)) : gmap Z (list byte) :=
  fold_left apply_event evs disk.

Definition is_flush (e : event) : bool := match e with EvFlush => true | _ => false end.

(** The disks a crash can leave: the machine stopped after some prefix of the
    history; everything up to the last flush of it is on the medium, and of
    the writes after that flush any subset is. *)
Inductive crash_disk (disk0 : gmap Z (list byte)) (hist : list event) : gmap Z (list byte) -> Prop :=
  | CrashDisk (durable pending lost kept : list event) :
      hist = durable ++ pending ++ lost ->
      durable = [] \/ (exists d, durable = d ++ [EvFlush]) ->
      Forall (fun e => is_flush e = false) pending ->
      sublist kept pending ->
      crash_disk disk0 hist (apply_events kept (apply_events durable disk0)).

(** A reopened device over a crash disk has an empty history. *)
Definition reopen (d : device) (disk : gmap Z (list byte)) : device :=
  Device disk [] (d_rd d) (d_wr d) (d_sync d).

(** ** Lemmas *)

Definition bid_ok (b : Z) : Prop := 0 <= b < 2 ^ 52.

Lemma block_of_to_offset b : bid_ok b -> block_of (to_offset b) = b.
Proof.
  unfold bid_ok, block_of, to_offset, u64, BLOCK_SIZE. intros Hb.
  rewrite wrap_small by (unfold fits; lia). by rewrite Z.div_mul.
Qed.

(** Every block of a well-formed disk has the block size. *)
Definition disk_ok (disk : gmap Z (list byte)) : Prop :=
  map_Forall (fun _ b => is_block b) disk.

#[export] Instance disk_ok_dec disk : Decision (disk_ok disk).
Proof. unfold disk_ok. apply _. Defined.

(** A device without faults. *)
Definition healthy (d : device) : Prop :=
  (forall b, d_rd d b = true) /\ (forall b, d_wr d b = true) /\ d_sync d = true.

Lemma dev_read_ok d b data :
  healthy d -> bid_ok b -> d_disk d !! b = Some data -> dev_read d b = Ok data.
Proof. intros (Hr & _ & _) Hb Hd. unfold dev_read. by rewrite block_of_to_offset, Hr, Hd by done. Qed.

Lemma dev_read_block d b data : disk_ok (d_disk d) -> dev_read d b = Ok data -> is_block data.
Proof.
  intros Hd H. unfold dev_read in H. inv_result. case_match eqn:E; [|done].
  injection H as <-. by apply (Hd _ _ E).
Qed.

Lemma bind_ok {S A B} (m : M S A) (f : A -> M S B) s a s' :
  m s = (Ok a, s') -> (m ≫= f) s = f a s'.
Proof. intros H. unfold mbind, M_bind. by rewrite H. Qed.

Lemma bind_ext {S A B} (m : M S A) (f f' : A -> M S B) s :
  (forall a s', m s = (Ok a, s') -> f a s' = f' a s') -> (m ≫= f) s = (m ≫= f') s.
Proof. intros H. unfold mbind, M_bind. destruct (m s) as [[a|e] s'] eqn:E; [by apply H|done]. Qed.

Lemma bind_inv {S A B} (m : M S A) (f : A -> M S B) s b s' :
  (m ≫= f) s = (Ok b, s') -> exists a s1, m s = (Ok a, s1) /\ f a s1 = (Ok b, s').
Proof.
  unfold mbind, M_bind. destruct (m s) as [[a|e] s1]; [|done]. eauto.
Qed.

Lemma apply_events_app e1 e2 disk : apply_events (e1 ++ e2) disk = apply_events e2 (apply_events e1 disk).
Proof. apply fold_left_app. Qed.
