(* ===== verification/Geometry.v ===== *)
(** * Transaction ids, the parsed journal superblock and the log ring

    Models [Tid], [JournalGeometry], [upgrade_journal_on_mount] and
    [load_geometry] of [journal/mod.rs], and [JournalSuperblock] of
    [journal/format.rs].  A log block number is a position in the journal
    inode; [block_map] gives its physical block.  The positions
    [first, maxlen) form the ring transactions are written to. *)

From S2P Require Import Prelude Pod Checksum JournalFormat JournalTags Device.

(** ** Transaction ids: 32-bit serial numbers *)

Module Tid.

Definition next (t : Z) : Z := u32 (t + 1).
Definition prev (t : Z) : Z := u32 (t - 1).

(** [as i32]: the upper half of the range is negative. *)
Definition as_i32 (z : Z) : Z := if z <? 2 ^ 31 then z else z - 2 ^ 32.

(** [Tid::geq]: the wrapping difference, read as signed, is not negative. *)
Definition geq (t other : Z) : bool := 0 <=? as_i32 (u32 (t - other)).

End Tid.

(** ** The parsed superblock *)

Record JournalSuperblock : Type := {
  jsb_maxlen : Z;
  jsb_first : Z;
  jsb_sequence : Z;
  jsb_start : option Z;
  jsb_errno : Z;
  jsb_blocksize : Z;
  jsb_tag_layout : TagLayout;
  jsb_csum_seed : option JournalCsumSeed;
}.

(** [JournalSuperblock::try_from] *)
Definition try_from (raw : RawJournalSuperblock) : result JournalSuperblock :=
  check h_magic (s_header raw) =? JBD2_MAGIC else EINVAL in
  let blocktype := h_blocktype (s_header raw) in
  check (blocktype =? BLOCKTYPE_SUPERBLOCK_V2) || (blocktype =? BLOCKTYPE_SUPERBLOCK_V1) else EINVAL in
  let blocksize := s_blocksize raw in
  check blocksize =? BLOCK_SIZE else EINVAL in
  let maxlen := s_maxlen raw in
  check negb (maxlen <? 2) else EUCLEAN in
  let first := s_first raw in
  check negb ((first =? 0) || (maxlen <=? first)) else EUCLEAN in
  let feature_incompat :=
    if blocktype =? BLOCKTYPE_SUPERBLOCK_V2 then s_feature_incompat raw else 0 in
  let? layout := from_features feature_incompat in
  check negb (has_csum layout && has_flag (s_feature_compat raw) COMPAT_CHECKSUM) else EINVAL in
  let? seed :=
    if has_csum layout then
      check s_checksum_type raw =? JBD2_CRC32C_CHKSUM else EINVAL in
      check s_checksum raw =? superblock_checksum raw else EUCLEAN in
      Ok (Some (derive (s_uuid raw)))
    else Ok None in
  Ok {| jsb_maxlen := maxlen; jsb_first := first; jsb_sequence := s_sequence raw;
        jsb_start := recovery_start raw; jsb_errno := s_errno raw; jsb_blocksize := blocksize;
        jsb_tag_layout := layout; jsb_csum_seed := seed |}.

(** ** Geometry *)

Record JournalGeometry : Type := {
  block_map : list Z;
  g_superblock : JournalSuperblock;
}.

Definition maxlen (g : JournalGeometry) : Z := jsb_maxlen (g_superblock g).
Definition first (g : JournalGeometry) : Z := jsb_first (g_superblock g).
Definition sequence (g : JournalGeometry) : Z := jsb_sequence (g_superblock g).
Definition g_errno (g : JournalGeometry) : Z := jsb_errno (g_superblock g).
Definition start (g : JournalGeometry) : option Z := jsb_start (g_superblock g).
Definition tag_layout (g : JournalGeometry) : TagLayout := jsb_tag_layout (g_superblock g).
Definition csum_seed (g : JournalGeometry) : option JournalCsumSeed := jsb_csum_seed (g_superblock g).

(** [block_map.get(log)] *)
Definition log_block_to_physical (g : JournalGeometry) (log : Z) : option Z :=
  block_map g !! Z.to_nat log.

Definition next_log_block (g : JournalGeometry) (cur : Z) : Z :=
  let next := cur + 1 in if maxlen g <=? next then first g else next.

Definition advance (g : JournalGeometry) (pos count : Z) : Z :=
  Nat.iter (Z.to_nat count) (next_log_block g) pos.

(** The free segment runs from the head to the tail; a clean log is all free. *)
Definition free_log_blocks (g : JournalGeometry) (head : Z) (dirty_tail : option Z) : Z :=
  let ring := maxlen g - first g in
  match dirty_tail with
  | None => ring
  | Some tail =>
      let head_off := head - first g in
      let tail_off := tail - first g in
      if head_off <=? tail_off then tail_off - head_off else ring - (head_off - tail_off)
  end.

Definition read_log_block (g : JournalGeometry) (d : device) (log : Z) : result (list byte) :=
  match log_block_to_physical g log with
  | None => Err EUCLEAN
  | Some pblock => dev_read d pblock
  end.

(** [commit::write_log_block] *)
Definition write_log_block (g : JournalGeometry) (log : Z) (block_buf : list byte) : M device unit :=
  match log_block_to_physical g log with
  | None => fail EUCLEAN
  | Some pblock => dev_write pblock block_buf
  end.

(** [superblock_offset]: the block that holds the superblock. *)
Definition superblock_block (g : JournalGeometry) : result Z :=
  match log_block_to_physical g 0 with
  | None => Err EUCLEAN
  | Some sb_pblock => Ok sb_pblock
  end.

Definition read_raw_superblock (g : JournalGeometry) (d : device) : result RawJournalSuperblock :=
  let? b := superblock_block g in dev_read_val superblock_codec d b.

(** [write_superblock] stamps the checksum and flushes. *)
Definition write_superblock (g : JournalGeometry) (raw : RawJournalSuperblock) : M device unit :=
  b ← lift (superblock_block g);
  dev_write_val superblock_codec b (stamp_checksum raw) ;;
  barrier.

(** Field updates of a raw superblock the code makes before writing it. *)
Definition set_log_state (raw : RawJournalSuperblock) (start sequence : Z) (head : option Z)
  : RawJournalSuperblock :=
  Build_RawJournalSuperblock (s_header raw) (s_blocksize raw) (s_maxlen raw) (s_first raw) sequence
    start (s_errno raw) (s_feature_compat raw) (s_feature_incompat raw) (s_feature_ro_compat raw)
    (s_uuid raw) (s_nr_users raw) (s_dynsuper raw) (s_max_transaction raw) (s_max_trans_data raw)
    (s_checksum_type raw) (s_padding2 raw) (s_num_fc_blks raw)
    (match head with Some h => h | None => s_head raw end) (s_padding raw) (s_checksum raw) (s_users raw).

(** ** Upgrading the journal's features at mount *)

Record JournalUpgradeNeeds : Set := {
  fs_has_metadata_csum : bool;
  fs_is_64bit : bool;
}.

Definition set_features (raw : RawJournalSuperblock) (compat incompat csum_type : Z) : RawJournalSuperblock :=
  Build_RawJournalSuperblock (s_header raw) (s_blocksize raw) (s_maxlen raw) (s_first raw) (s_sequence raw)
    (s_start raw) (s_errno raw) compat incompat (s_feature_ro_compat raw)
    (s_uuid raw) (s_nr_users raw) (s_dynsuper raw) (s_max_transaction raw) (s_max_trans_data raw)
    csum_type (s_padding2 raw) (s_num_fc_blks raw) (s_head raw) (s_padding raw) (s_checksum raw) (s_users raw).

(** [upgrade_journal_on_mount]; the result says whether it rewrote the superblock. *)
Definition upgrade_journal_on_mount (g : JournalGeometry) (needs : JournalUpgradeNeeds) : M device bool :=
  fun d =>
  if negb (fs_has_metadata_csum needs) then (Ok false, d)
  else match read_raw_superblock g d with
  | Err e => (Err e, d)
  | Ok raw =>
      if negb (h_blocktype (s_header raw) =? BLOCKTYPE_SUPERBLOCK_V2) then (Ok false, d)
      else if negb (s_feature_incompat raw =? 0) then (Ok false, d)
      else match recovery_start raw with
      | Some _ => (Ok false, d)
      | None =>
          let incompat := if fs_is_64bit needs then Z.lor INCOMPAT_CSUM_V3 INCOMPAT_64BIT else INCOMPAT_CSUM_V3 in
          let compat := Z.land (s_feature_compat raw) (not32 COMPAT_CHECKSUM) in
          (write_superblock g (set_features raw compat incompat JBD2_CRC32C_CHKSUM) ;; mret true) d
      end
  end.

(** ** Loading the geometry

    [load_geometry] takes from the file system: the superblock's journal
    fields and, through the journal inode, its size and its block map. *)

Definition JOURNAL_INO : Z := 8.

Record journal_inode : Type := {
  ji_is_extent_based : bool;
  ji_size : Z;
  (** [map_all_blocks] for a block count, as the extent tree answers it. *)
  ji_map_all_blocks : Z -> result (list Z);
}.

Definition load_geometry (has_journal : bool) (journal_ino journal_dev : Z)
    (read_inode : Z -> result journal_inode) (d : device) : result (option JournalGeometry) :=
  if negb has_journal then Ok None
  else
  check journal_ino =? JOURNAL_INO else EINVAL in
  check journal_dev =? 0 else EINVAL in
  let? desc := read_inode JOURNAL_INO in
  check ji_is_extent_based desc else EUCLEAN in
  let nblocks := div_ceil (ji_size desc) BLOCK_SIZE in
  check fitsb 32 nblocks else EUCLEAN in
  check negb (nblocks <? 2) else EUCLEAN in
  let? map := ji_map_all_blocks desc nblocks in
  let? raw := dev_read_val superblock_codec d (nth 0 map 0) in
  check negb ((h_blocktype (s_header raw) =? BLOCKTYPE_SUPERBLOCK_V2)
              && negb (Z.land (s_feature_incompat raw) (not32 INCOMPAT_SUPP) =? 0)) else EINVAL in
  check negb ((h_blocktype (s_header raw) =? BLOCKTYPE_SUPERBLOCK_V2)
              && negb (s_feature_ro_compat raw =? 0)) else EINVAL in
  let? sb := try_from raw in
  check negb (zlen map <? jsb_maxlen sb) else EUCLEAN in
  Ok (Some {| block_map := map; g_superblock := sb |}).

(** ** Lemmas: transaction ids *)

Lemma u32_fits z : fits 32 (u32 z).
Proof. by apply wrap_fits. Qed.

Lemma next_fits t : fits 32 (Tid.next t).
Proof. apply u32_fits. Qed.

Lemma u32_small z : fits 32 z -> u32 z = z.
Proof. apply wrap_small. Qed.

Lemma u32_add_l a b : u32 (u32 a + b) = u32 (a + b).
Proof. unfold u32, wrap. by rewrite Zplus_mod_idemp_l. Qed.

Lemma u32_sub a b : u32 (u32 a - u32 b) = u32 (a - b).
Proof. unfold u32, wrap. by rewrite Zminus_mod_idemp_l, Zminus_mod_idemp_r. Qed.

Lemma next_u32 a : Tid.next (u32 a) = u32 (a + 1).
Proof. apply u32_add_l. Qed.

Lemma prev_u32 a : Tid.prev (u32 a) = u32 (a - 1).
Proof. unfold Tid.prev, u32, wrap. by rewrite Zminus_mod_idemp_l. Qed.

Lemma prev_next a : fits 32 a -> Tid.prev (Tid.next a) = a.
Proof.
  intros Ha. unfold Tid.prev, Tid.next. unfold u32 at 1. unfold wrap.
  unfold u32, wrap. rewrite Zminus_mod_idemp_l. replace (a + 1 - 1) with a by lia. by apply wrap_small.
Qed.

(** Serial-number order is the order of the counters when they are less than
    half the range apart. *)
Lemma geq_window a b : - 2 ^ 31 <= a - b < 2 ^ 31 -> Tid.geq (u32 a) (u32 b) = (b <=? a).
Proof.
  intros H. unfold Tid.geq. rewrite u32_sub. unfold Tid.as_i32.
  destruct (decide (0 <= a - b)).
  - rewrite u32_small by (unfold fits; lia).
    destruct (Z.ltb_spec (a - b) (2 ^ 31)); [|lia].
    transitivity true; [|symmetry]; apply Z.leb_le; lia.
  - assert (Hw : u32 (a - b) = a - b + 2 ^ 32).
    { unfold u32, wrap. rewrite <- (Z.mod_add _ 1) by lia. apply Z.mod_small. lia. }
    rewrite Hw. destruct (Z.ltb_spec (a - b + 2 ^ 32) (2 ^ 31)); [lia|].
    transitivity false; [|symmetry]; apply Z.leb_gt; lia.
Qed.

(** ** Lemmas: the ring *)

(** What a loaded geometry satisfies. *)
Record geometry_ok (g : JournalGeometry) : Prop := {
  geo_first : 1 <= first g < maxlen g;
  geo_maxlen : fits 32 (maxlen g);
  geo_map : maxlen g <= zlen (block_map g);
  geo_layout : layout_ok (tag_layout g);
  geo_seed : seed_ok (tag_layout g) (csum_seed g);
}.

Definition ring (g : JournalGeometry) : Z := maxlen g - first g.
Definition in_ring (g : JournalGeometry) (p : Z) : Prop := first g <= p < maxlen g.

Section Ring.
Context (g : JournalGeometry) (Hg : geometry_ok g).

Lemma ring_pos : 0 < ring g.
Proof. unfold ring. pose proof (geo_first g Hg). lia. Qed.

Lemma next_in_ring p : in_ring g p -> in_ring g (next_log_block g p).
Proof.
  unfold in_ring, next_log_block. pose proof (geo_first g Hg). intros Hp.
  destruct (Z.leb_spec (maxlen g) (p + 1)); lia.
Qed.

Lemma next_mod p : in_ring g p -> next_log_block g p = first g + (p - first g + 1) mod ring g.
Proof.
  unfold in_ring, next_log_block, ring. pose proof (geo_first g Hg). intros Hp.
  destruct (Z.leb_spec (maxlen g) (p + 1)).
  - replace (p - first g + 1) with (maxlen g - first g) by lia. rewrite Z.mod_same by lia. lia.
  - rewrite Z.mod_small by lia. lia.
Qed.

Lemma advance_0 p : advance g p 0 = p.
Proof. done. Qed.

Lemma advance_succ p n : 0 <= n -> advance g p (n + 1) = next_log_block g (advance g p n).
Proof.
  intros Hn. unfold advance. replace (Z.to_nat (n + 1)) with (S (Z.to_nat n)) by lia. done.
Qed.

Lemma advance_add p n m : 0 <= n -> 0 <= m -> advance g (advance g p n) m = advance g p (n + m).
Proof.
  intros Hn Hm. unfold advance. rewrite <- Nat.iter_add. f_equal. lia.
Qed.

Lemma advance_next p n : 0 <= n -> advance g (next_log_block g p) n = advance g p (n + 1).
Proof. intros. replace (next_log_block g p) with (advance g p 1) by done. rewrite advance_add by lia. f_equal. lia. Qed.

Lemma advance_mod p n :
  in_ring g p -> 0 <= n -> advance g p n = first g + (p - first g + n) mod ring g.
Proof.
  intros Hp Hn. pose proof ring_pos as Hr. revert n Hn. apply natlike_ind.
  - rewrite advance_0, Z.add_0_r, Z.mod_small by (unfold in_ring, ring in *; lia). lia.
  - intros n Hn IH. rewrite <- Z.add_1_r, advance_succ by done. rewrite IH.
    rewrite next_mod by (unfold in_ring, ring in *; pose proof (Z.mod_pos_bound (p - first g + n) (maxlen g - first g)); lia).
    f_equal. replace (first g + (p - first g + n) mod ring g - first g + 1)
      with ((p - first g + n) mod ring g + 1) by lia.
    rewrite Zplus_mod_idemp_l. f_equal. lia.
Qed.

Lemma advance_in_ring p n : in_ring g p -> 0 <= n -> in_ring g (advance g p n).
Proof.
  intros Hp Hn. rewrite advance_mod by done. pose proof ring_pos as Hr.
  pose proof (Z.mod_pos_bound (p - first g + n) (ring g) Hr). unfold in_ring, ring in *. lia.
Qed.

(** The first [ring] steps from a position visit distinct positions. *)
Lemma advance_inj p i j :
  in_ring g p -> 0 <= i < ring g -> 0 <= j < ring g -> advance g p i = advance g p j -> i = j.
Proof.
  intros Hp Hi Hj. rewrite !advance_mod by (done || lia). intros H.
  assert (Hm : (p - first g + i) mod ring g = (p - first g + j) mod ring g) by lia.
  pose proof ring_pos as Hr. unfold in_ring in Hp. unfold ring in *.
  assert (Hsm : forall k, 0 <= k < maxlen g - first g ->
    (p - first g + k) mod (maxlen g - first g) =
      if decide (p - first g + k < maxlen g - first g) then p - first g + k
      else p - first g + k - (maxlen g - first g)).
  { intros k Hk. case_decide; [apply Z.mod_small; lia|].
    rewrite <- (Z.mod_small (p - first g + k - (maxlen g - first g)) (maxlen g - first g)) by lia.
    rewrite <- (Z.mod_add (p - first g + k - (maxlen g - first g)) 1) by lia. f_equal. lia. }
  rewrite !Hsm in Hm by lia. repeat case_decide; lia.
Qed.

(** In a dirty log the head is [ring - free] steps after the tail. *)
Lemma free_log_blocks_range h t :
  in_ring g h -> in_ring g t -> 0 <= free_log_blocks g h (Some t) < ring g.
Proof.
  unfold in_ring, free_log_blocks, ring. intros Hh Ht.
  destruct (Z.leb_spec (h - first g) (t - first g)); lia.
Qed.

Lemma advance_free h t :
  in_ring g h -> in_ring g t -> advance g h (free_log_blocks g h (Some t)) = t.
Proof.
  intros Hh Ht. pose proof (free_log_blocks_range h t Hh Ht). rewrite advance_mod by (done || lia).
  unfold in_ring, free_log_blocks, ring in *. destruct (Z.leb_spec (h - first g) (t - first g)).
  - rewrite Z.mod_small by lia. lia.
  - replace (h - first g + (maxlen g - first g - (h - first g - (t - first g))))
      with (t - first g + 1 * (maxlen g - first g)) by lia.
    rewrite Z.mod_add, Z.mod_small by lia. lia.
Qed.

Lemma advance_used h t :
  in_ring g h -> in_ring g t -> advance g t (ring g - free_log_blocks g h (Some t)) = h.
Proof.
  intros Hh Ht. pose proof (free_log_blocks_range h t Hh Ht).
  rewrite <- (advance_free h t Hh Ht) at 1. rewrite advance_add by lia.
  replace (_ + _) with (ring g) by lia. rewrite advance_mod by (done || lia).
  rewrite <- (Z.mul_1_l (ring g)) at 1. pose proof ring_pos. rewrite Z.mod_add by lia.
  unfold in_ring, ring in *. rewrite Z.mod_small by lia. lia.
Qed.

Lemma log_mapped p : in_ring g p -> exists b, log_block_to_physical g p = Some b.
Proof.
  unfold in_ring, log_block_to_physical. intros Hp. pose proof (geo_map g Hg). pose proof (geo_first g Hg).
  unfold zlen in *. apply lookup_lt_is_Some. lia.
Qed.
End Ring.

(** ** Lemmas: parsing and rewriting the superblock *)

Lemma dev_read_val_wf {A} (c : codec A) `{!CodecOk c} d b a :
  disk_ok (d_disk d) -> c_size c <= BLOCK_SIZE -> dev_read_val c d b = Ok a -> c_wf c a.
Proof.
  intros Hd Hs H. unfold dev_read_val in H. inv_result. rename x into blk. subst a.
  apply dev_read_block in H0; [|done]. apply read_at_wf; [done|lia|]. unfold is_block in H0. lia.
Qed.

Lemma try_from_ok raw sb :
  c_wf superblock_codec raw -> try_from raw = Ok sb ->
  1 <= jsb_first sb < jsb_maxlen sb /\ fits 32 (jsb_maxlen sb) /\ layout_ok (jsb_tag_layout sb) /\
  seed_ok (jsb_tag_layout sb) (jsb_csum_seed sb) /\
  jsb_maxlen sb = s_maxlen raw /\ jsb_first sb = s_first raw /\ jsb_sequence sb = s_sequence raw /\
  jsb_start sb = recovery_start raw.
Proof.
  intros W H. unfold try_from in H. inv_result. rename x into l, x0 into seed. subst sb. cbn.
  assert (Wm : fits 32 (s_maxlen raw)) by apply W. assert (Wf : fits 32 (s_first raw)) by apply W.
  apply negb_true_iff in Hck2, Hck3. apply Z.ltb_ge in Hck2. apply orb_false_iff in Hck3 as [H3 H4].
  apply Z.eqb_neq in H3. apply Z.leb_gt in H4. apply from_features_ok in H0 as Hl.
  unfold fits in *. split_and!; try done; try lia.
  unfold seed_ok. destruct (has_csum l); inv_result; subst seed; [|done]. split; [done|apply seed_fits].
Qed.

Lemma load_geometry_inv hj ino dv ri d g :
  disk_ok (d_disk d) -> load_geometry hj ino dv ri d = Ok (Some g) ->
  exists raw, dev_read_val superblock_codec d (nth 0 (block_map g) 0) = Ok raw /\
    try_from raw = Ok (g_superblock g) /\ jsb_maxlen (g_superblock g) <= zlen (block_map g).
Proof.
  intros Hd H. unfold load_geometry in H. destruct hj; cbn [negb] in H; [|done]. inv_result.
  rename x0 into map, x1 into raw, x2 into sb. subst g. cbn [block_map g_superblock].
  exists raw. split_and!; [done..|]. apply negb_true_iff, Z.ltb_ge in Hck6. done.
Qed.

Lemma set_log_state_wf raw st sq h :
  c_wf superblock_codec raw -> fits 32 st -> fits 32 sq ->
  match h with Some h => fits 32 h | None => True end ->
  c_wf superblock_codec (set_log_state raw st sq h).
Proof. intros W Hst Hsq Hh. cbn in W |- *. destruct_and!. split_and!; try done. by destruct h. Qed.

Lemma dev_write_val_ok {A} (c : codec A) `{!CodecOk c} d bid a blk :
  healthy d -> bid_ok bid -> d_disk d !! bid = Some blk ->
  dev_write_val c bid a d =
    (Ok tt, Device (<[bid := write_at c 0 a blk]> (d_disk d)) (d_hist d ++ [EvWrite bid (write_at c 0 a blk)])
                   (d_rd d) (d_wr d) (d_sync d)).
Proof.
  intros (_ & Hw & _) Hb Hd. unfold dev_write_val, dev_write. by rewrite block_of_to_offset, Hd, Hw by done.
Qed.

Lemma dev_write_ok d bid data blk :
  healthy d -> bid_ok bid -> d_disk d !! bid = Some blk ->
  dev_write bid data d =
    (Ok tt, Device (<[bid := data]> (d_disk d)) (d_hist d ++ [EvWrite bid data]) (d_rd d) (d_wr d) (d_sync d)).
Proof.
  intros (_ & Hw & _) Hb Hd. unfold dev_write. by rewrite block_of_to_offset, Hd, Hw by done.
Qed.

Lemma write_superblock_ok g d raw b blk :
  healthy d -> superblock_block g = Ok b -> bid_ok b -> d_disk d !! b = Some blk ->
  let blk' := write_at superblock_codec 0 (stamp_checksum raw) blk in
  write_superblock g raw d =
    (Ok tt, Device (<[b := blk']> (d_disk d)) (d_hist d ++ [EvWrite b blk'; EvFlush]) (d_rd d) (d_wr d) (d_sync d)).
Proof.
  intros Hh Hb Hbid Hd blk'. unfold write_superblock. rewrite (bind_ok _ _ d b d) by (unfold lift; by rewrite Hb).
  rewrite (bind_ok _ _ _ _ _ (dev_write_val_ok superblock_codec d b (stamp_checksum raw) blk Hh Hbid Hd)).
  unfold barrier. cbn [d_sync d_disk d_hist d_rd d_wr]. destruct Hh as (_ & _ & ->).
  by rewrite <- app_assoc.
Qed.

(** What a reader gets back after [write_superblock]. *)
Lemma read_back_superblock g d raw b blk h r w s :
  c_wf superblock_codec raw -> is_block blk -> superblock_block g = Ok b -> bid_ok b ->
  (forall x, r x = true) ->
  read_raw_superblock g
    (Device (<[b := write_at superblock_codec 0 (stamp_checksum raw) blk]> (d_disk d)) h r w s)
  = Ok (stamp_checksum raw).
Proof.
  intros W Hblk Hb Hbid Hr. unfold read_raw_superblock. rewrite Hb. cbn [rbind]. unfold dev_read_val, dev_read.
  cbn [d_rd d_disk]. rewrite block_of_to_offset, Hr, lookup_insert_eq by done. cbn [rbind].
  f_equal. apply read_write_same; [apply _|done|unfold is_block in Hblk; by rewrite Hblk|by apply stamp_checksum_wf].
Qed.

Lemma set_features_wf raw c i t :
  c_wf superblock_codec raw -> fits 32 c -> fits 32 i -> fits 8 t ->
  c_wf superblock_codec (set_features raw c i t).
Proof. intros W Hc Hi Ht. cbn in W |- *. destruct_and!. by split_and!. Qed.

(** Whether the mount-time upgrade applies. *)
Definition wants_upgrade (needs : JournalUpgradeNeeds) (raw : RawJournalSuperblock) : bool :=
  fs_has_metadata_csum needs && (h_blocktype (s_header raw) =? BLOCKTYPE_SUPERBLOCK_V2)
  && (s_feature_incompat raw =? 0) && bool_decide (recovery_start raw = None).

Definition upgraded_incompat (needs : JournalUpgradeNeeds) : Z :=
  if fs_is_64bit needs then Z.lor INCOMPAT_CSUM_V3 INCOMPAT_64BIT else INCOMPAT_CSUM_V3.

Definition upgraded (needs : JournalUpgradeNeeds) (raw : RawJournalSuperblock) : RawJournalSuperblock :=
  set_features raw (Z.land (s_feature_compat raw) (not32 COMPAT_CHECKSUM)) (upgraded_incompat needs)
    JBD2_CRC32C_CHKSUM.

Lemma upgraded_wf needs raw : c_wf superblock_codec raw -> c_wf superblock_codec (upgraded needs raw).
Proof.
  intros W. apply set_features_wf; [done| | |done].
  - apply land_fits; [done|]. apply W.
  - unfold upgraded_incompat. by destruct (fs_is_64bit needs).
Qed.

Lemma stamp_upgraded needs raw :
  stamp_checksum (upgraded needs raw) = set_s_checksum (upgraded needs raw) (superblock_checksum (upgraded needs raw)).
Proof.
  unfold stamp_checksum. cbn [upgraded set_features s_feature_incompat].
  unfold upgraded_incompat. by destruct (fs_is_64bit needs).
Qed.

(** The rewritten superblock parses, now with csum-v3 tags. *)
Lemma try_from_upgraded needs raw sb :
  c_wf superblock_codec raw -> try_from raw = Ok sb -> wants_upgrade needs raw = true ->
  try_from (stamp_checksum (upgraded needs raw)) =
    Ok {| jsb_maxlen := jsb_maxlen sb; jsb_first := jsb_first sb; jsb_sequence := jsb_sequence sb;
          jsb_start := None; jsb_errno := jsb_errno sb; jsb_blocksize := jsb_blocksize sb;
          jsb_tag_layout := {| tag_bytes := 16; has_blocknr_high := fs_is_64bit needs; csum_v3 := true;
                               descriptor_tail_bytes := 4 |};
          jsb_csum_seed := Some (derive (s_uuid raw)) |}.
Proof.
  intros W Ht Hw. unfold wants_upgrade in Hw. rewrite !andb_true_iff in Hw.
  destruct Hw as [[[_ Hv2] _] Hst]. apply bool_decide_eq_true in Hst.
  pose proof (superblock_checksum_set (upgraded needs raw) (superblock_checksum (upgraded needs raw))
    (upgraded_wf needs raw W)) as Hck. rewrite stamp_upgraded.
  set (x := set_s_checksum _ _) in *. change (superblock_checksum (upgraded needs raw)) with (s_checksum x) in Hck.
  unfold try_from in *. rewrite Hck, (Z.eqb_refl (s_checksum x)).
  change (s_header x) with (s_header raw). change (s_blocksize x) with (s_blocksize raw).
  change (s_maxlen x) with (s_maxlen raw). change (s_first x) with (s_first raw).
  change (s_checksum_type x) with JBD2_CRC32C_CHKSUM. change (s_feature_incompat x) with (upgraded_incompat needs).
  change (s_feature_compat x) with (Z.land (s_feature_compat raw) (not32 COMPAT_CHECKSUM)).
  change (recovery_start x) with (recovery_start raw). change (s_uuid x) with (s_uuid raw).
  change (s_sequence x) with (s_sequence raw). change (s_errno x) with (s_errno raw).
  rewrite Hst. clear Hck. inv_result. subst sb. cbn [jsb_maxlen jsb_first jsb_sequence jsb_errno jsb_blocksize].
  rewrite Hv2. assert (has_flag (Z.land (s_feature_compat raw) (not32 COMPAT_CHECKSUM)) COMPAT_CHECKSUM = false) as ->.
  { unfold has_flag. by rewrite <- Z.land_assoc, Z.land_0_r. }
  unfold upgraded_incompat. destruct (fs_is_64bit needs); done.
Qed.

(** A rewritten log state parses as before, with the new start and sequence. *)
Lemma from_features_csum i l :
  from_features i = Ok l -> has_csum l = true -> has_flag i (Z.lor INCOMPAT_CSUM_V2 INCOMPAT_CSUM_V3) = true.
Proof.
  unfold from_features. intros H Hc. inv_result. subst l. unfold has_csum in Hc. cbn [descriptor_tail_bytes] in Hc.
  unfold has_flag in *. rewrite Z.land_lor_distr_r. apply negb_true_iff, Z.eqb_neq. intros E. apply Z.lor_eq_0_iff in E as [E2 E3].
  by rewrite E2, E3 in Hc.
Qed.

(** Two superblocks that differ in the log's state only. *)
Definition same_static (raw raw' : RawJournalSuperblock) : Prop :=
  s_header raw' = s_header raw /\ s_blocksize raw' = s_blocksize raw /\ s_maxlen raw' = s_maxlen raw /\ s_first raw' = s_first raw /\
  s_feature_incompat raw' = s_feature_incompat raw /\ s_feature_compat raw' = s_feature_compat raw /\
  s_feature_ro_compat raw' = s_feature_ro_compat raw /\ s_checksum_type raw' = s_checksum_type raw /\ s_uuid raw' = s_uuid raw.

Definition restated (sb : JournalSuperblock) (raw : RawJournalSuperblock) : JournalSuperblock :=
  {| jsb_maxlen := jsb_maxlen sb; jsb_first := jsb_first sb; jsb_sequence := s_sequence raw; jsb_start := recovery_start raw;
     jsb_errno := s_errno raw; jsb_blocksize := jsb_blocksize sb; jsb_tag_layout := jsb_tag_layout sb;
     jsb_csum_seed := jsb_csum_seed sb |}.

Lemma stamp_proj {A} (proj : RawJournalSuperblock -> A) r :
  (forall v, proj (set_s_checksum r v) = proj r) -> proj (stamp_checksum r) = proj r.
Proof. intros E. unfold stamp_checksum. destruct (has_flag _ _); [apply E|done]. Qed.

Lemma try_from_restate raw r sb :
  c_wf superblock_codec r -> same_static raw r -> try_from raw = Ok sb -> try_from (stamp_checksum r) = Ok (restated sb r).
Proof.
  intros W (E1 & E2 & E3 & E4 & E5 & E6 & _ & E8 & E9) Ht.
  assert (forall f : bool, (f = true -> s_checksum (stamp_checksum r) = superblock_checksum (stamp_checksum r)) ->
    f = has_csum (jsb_tag_layout sb) -> try_from (stamp_checksum r) = Ok (restated sb r)) as H.
  { intros f Hf Ef. unfold try_from in *.
    pose proof (@stamp_proj) as Hp.
    rewrite (Hp _ s_header), (Hp _ s_blocksize), (Hp _ s_maxlen), (Hp _ s_first), (Hp _ s_feature_incompat), (Hp _ s_feature_compat),
      (Hp _ s_checksum_type), (Hp _ s_uuid), (Hp _ s_sequence), (Hp _ s_errno), (Hp _ recovery_start) by done.
    rewrite E1, E2, E3, E4, E5, E6, E8, E9. inv_result. subst sb. cbn [jsb_tag_layout restated jsb_maxlen jsb_first jsb_errno jsb_blocksize jsb_csum_seed] in *.
    match goal with E : from_features _ = Ok _ |- _ => rewrite E end. cbn [rbind].
    match goal with E : negb (has_csum _ && _) = true |- _ => rewrite E end.
    destruct (has_csum x); [|by inv_result; subst]. rewrite Hf by done. inv_result. subst. by rewrite Z.eqb_refl. }
  apply (H (has_csum (jsb_tag_layout sb))); [|done]. intros Hc. unfold try_from in Ht. inv_result. subst sb. cbn [jsb_tag_layout] in Hc.
  assert (has_flag (s_feature_incompat r) (Z.lor INCOMPAT_CSUM_V2 INCOMPAT_CSUM_V3) = true) as Hfl.
  { rewrite E5.
    match goal with E : from_features (if ?b then _ else _) = Ok _ |- _ => destruct b; [by eapply from_features_csum|] end.
    match goal with E : from_features 0 = Ok _ |- _ => by injection E as <- end. }
  unfold stamp_checksum. rewrite Hfl. by rewrite superblock_checksum_set.
Qed.

Lemma upgrade_writes g needs d b blk raw :
  healthy d -> superblock_block g = Ok b -> bid_ok b -> d_disk d !! b = Some blk -> read_raw_superblock g d = Ok raw ->
  wants_upgrade needs raw = true ->
  let blk' := write_at superblock_codec 0 (stamp_checksum (upgraded needs raw)) blk in
  upgrade_journal_on_mount g needs d =
    (Ok true, Device (<[b := blk']> (d_disk d)) (d_hist d ++ [EvWrite b blk'; EvFlush]) (d_rd d) (d_wr d) (d_sync d)).
Proof.
  intros Hh Hb Hbid Hd Hr Hw. unfold upgrade_journal_on_mount. rewrite Hr.
  unfold wants_upgrade in Hw. rewrite !andb_true_iff in Hw. destruct Hw as [[[-> ->] ->] Hst].
  apply bool_decide_eq_true in Hst. rewrite Hst. cbn [negb]. fold (upgraded_incompat needs). fold (upgraded needs raw).
  by rewrite (bind_ok _ _ _ _ _ (write_superblock_ok g d (upgraded needs raw) b blk Hh Hb Hbid Hd)).
Qed.

Lemma upgrade_reloads g needs d b blk raw sb :
  healthy d -> superblock_block g = Ok b -> bid_ok b -> d_disk d !! b = Some blk -> is_block blk ->
  read_raw_superblock g d = Ok raw -> try_from raw = Ok sb ->
  if wants_upgrade needs raw then
    exists d' sb', upgrade_journal_on_mount g needs d = (Ok true, d') /\
      (let? raw' := read_raw_superblock g d' in try_from raw') = Ok sb' /\
      jsb_maxlen sb' = jsb_maxlen sb /\ jsb_first sb' = jsb_first sb /\
      jsb_sequence sb' = jsb_sequence sb /\ jsb_start sb' = None /\
      csum_v3 (jsb_tag_layout sb') = true /\ has_blocknr_high (jsb_tag_layout sb') = fs_is_64bit needs /\
      jsb_csum_seed sb' = Some (derive (s_uuid raw))
  else upgrade_journal_on_mount g needs d = (Ok false, d).
Proof.
  intros Hh Hb Hbid Hd Hblk Hr Ht.
  assert (W : c_wf superblock_codec raw).
  { unfold read_raw_superblock, dev_read_val in Hr. rewrite Hb in Hr. cbn [rbind] in Hr.
    rewrite (dev_read_ok _ _ _ Hh Hbid Hd) in Hr. cbn [rbind] in Hr. injection Hr as <-.
    apply read_at_wf; [apply _|done|]. unfold is_block in Hblk. by rewrite Hblk. }
  unfold upgrade_journal_on_mount. rewrite Hr. destruct (wants_upgrade needs raw) eqn:Hw.
  - pose proof (try_from_upgraded needs raw sb W Ht Hw) as Hup.
    pose proof (upgrade_writes g needs d b blk raw Hh Hb Hbid Hd Hr Hw) as Hwr. unfold upgrade_journal_on_mount in Hwr. rewrite Hr in Hwr. rewrite Hwr.
    do 2 eexists. split; [reflexivity|]. destruct Hh as (Hrd & _ & _).
    rewrite (read_back_superblock g d) by (done || by apply upgraded_wf). split; [exact Hup|]. done.
  - unfold wants_upgrade in Hw. destruct (fs_has_metadata_csum needs); cbn [negb]; [|done].
    destruct (h_blocktype (s_header raw) =? BLOCKTYPE_SUPERBLOCK_V2); cbn [negb]; [|done].
    destruct (s_feature_incompat raw =? 0); cbn [negb]; [|done]. destruct (recovery_start raw); done.
Qed.

(** ** Properties *)

(** a geometry [load_geometry] accepts satisfies the invariant every
    later computation relies on: a non-empty ring inside the journal inode,
    a tag layout among the six of the format, and a checksum seed exactly
    when that layout has checksums. *)
Theorem load_geometry_ok hj ino dv ri d g :
  disk_ok (d_disk d) -> load_geometry hj ino dv ri d = Ok (Some g) -> geometry_ok g.
Proof.
  intros Hd H. apply load_geometry_inv in H as (raw & Hr & Ht & Hm); [|done].
  apply dev_read_val_wf in Hr; [|apply _|done|done]. apply try_from_ok in Ht; [|done].
  destruct Ht as (? & ? & ? & ? & _). by split.
Qed.

(** the free-space computation of the ring: from the head, exactly
    [free_log_blocks] steps reach the dirty tail and the positions before it
    are distinct from every live position; a clean log offers the whole ring. *)
Theorem free_log_blocks_correct g h t :
  geometry_ok g -> in_ring g h -> in_ring g t ->
  let free := free_log_blocks g h (Some t) in
  let used := ring g - free in
  advance g h free = t /\ advance g t used = h /\ 0 < used <= ring g /\
  (forall i j, 0 <= i < free -> 0 <= j < used -> advance g h i <> advance g t j) /\
  free_log_blocks g h None = ring g.
Proof.
  intros Hg Hh Ht free used. pose proof (free_log_blocks_range g h t Hh Ht) as Hr. fold free in Hr.
  split_and!; [by apply advance_free|by apply advance_used|lia|lia| |done].
  intros i j Hi Hj He. rewrite <- (advance_used g Hg h t Hh Ht) in He. fold free used in He.
  rewrite advance_add in He by lia. apply advance_inj in He; [lia|done|done|lia|lia].
Qed.

(** comparing transaction ids survives wrap-around: [Tid::geq] is the
    order of the unbounded counters whenever they are within half the range
    of each other, and [next]/[prev] follow the counters. *)
Theorem tid_order_wraps a b :
  - 2 ^ 31 <= a - b < 2 ^ 31 ->
  Tid.geq (u32 a) (u32 b) = (b <=? a) /\ Tid.next (u32 a) = u32 (a + 1) /\ Tid.prev (Tid.next (u32 a)) = u32 a.
Proof.
  intros H. split_and!; [by apply geq_window|apply next_u32|apply prev_next, u32_fits].
Qed.

Lemma tid_order_wraps_witness :
  Tid.geq (u32 (2 ^ 32 + 1)) (u32 (2 ^ 32 - 1)) = true /\ Tid.geq (u32 (2 ^ 32 - 1)) (u32 (2 ^ 32 + 1)) = false.
Proof.
  pose proof (tid_order_wraps (2 ^ 32 + 1) (2 ^ 32 - 1) ltac:(lia)) as (-> & _).
  pose proof (tid_order_wraps (2 ^ 32 - 1) (2 ^ 32 + 1) ltac:(lia)) as (-> & _). done.
Defined.

(** the mount-time feature upgrade.  It rewrites the superblock exactly
    when the file system has metadata checksums and the journal is a clean,
    feature-less V2 one; what the mount then reloads is the same ring with
    csum-v3 tags (64-bit ones iff the file system is 64-bit) and the seed of
    the journal's UUID, and the superblock checksum verifies.  In every other
    case the device is untouched. *)
Theorem upgrade_journal_reload g needs d b blk raw sb :
  healthy d -> superblock_block g = Ok b -> bid_ok b -> d_disk d !! b = Some blk -> is_block blk ->
  read_raw_superblock g d = Ok raw -> try_from raw = Ok sb ->
  if wants_upgrade needs raw then
    exists d' sb', upgrade_journal_on_mount g needs d = (Ok true, d') /\
      (let? raw' := read_raw_superblock g d' in try_from raw') = Ok sb' /\
      jsb_maxlen sb' = jsb_maxlen sb /\ jsb_first sb' = jsb_first sb /\
      jsb_sequence sb' = jsb_sequence sb /\ jsb_start sb' = None /\
      csum_v3 (jsb_tag_layout sb') = true /\ has_blocknr_high (jsb_tag_layout sb') = fs_is_64bit needs /\
      jsb_csum_seed sb' = Some (derive (s_uuid raw))
  else upgrade_journal_on_mount g needs d = (Ok false, d).
Proof. apply upgrade_reloads. Qed.

(** ** A sample journal

    A twelve-block journal at physical blocks 100 to 111 of a small disk,
    for evaluating the definitions on concrete input. *)

Module Sample.

Definition header : RawJournalHeader :=
  {| h_magic := JBD2_MAGIC; h_blocktype := BLOCKTYPE_SUPERBLOCK_V2; h_sequence := 0 |}.

Definition raw (incompat : Z) : RawJournalSuperblock :=
  stamp_checksum
    (Build_RawJournalSuperblock header 4096 12 1 5 0 0 0 incompat 0 (zeros 16) 1 0 0 0
       JBD2_CRC32C_CHKSUM (zeros 3) 0 0 (zeros 160) 0 (zeros 768)).

Definition map : list Z := List.map (fun i => 100 + Z.of_nat i) (seq 0 12).

Definition disk (incompat : Z) : gmap Z (list byte) :=
  <[100 := write_at superblock_codec 0 (raw incompat) (zeros BLOCK_SIZE)]>
    (list_to_map (List.map (fun b => (b, zeros BLOCK_SIZE)) ([10; 11; 12; 13; 14] ++ map))).

Definition dev (incompat : Z) : device :=
  Device (disk incompat) [] (fun _ => true) (fun _ => true) true.

Definition inode (_ : Z) : result journal_inode :=
  Ok {| ji_is_extent_based := true; ji_size := 12 * 4096; ji_map_all_blocks := fun _ => Ok map |}.

Definition load (incompat : Z) : result (option JournalGeometry) :=
  load_geometry true JOURNAL_INO 0 inode (dev incompat).

End Sample.

Lemma load_geometry_ok_witness : exists g, Sample.load 0x12 = Ok (Some g) /\ geometry_ok g.
Proof.
  assert (exists g, Sample.load 0x12 = Ok (Some g)) as [g Hg] by (eexists; vm_compute; reflexivity).
  exists g. split; [done|].
  apply (load_geometry_ok true JOURNAL_INO 0 Sample.inode (Sample.dev 0x12)); [|exact Hg].
  vm_decide.
Defined.

Definition sample_geometry : JournalGeometry :=
  {| block_map := Sample.map;
     g_superblock := {| jsb_maxlen := 12; jsb_first := 1; jsb_sequence := 5; jsb_start := None;
       jsb_errno := 0; jsb_blocksize := 4096;
       jsb_tag_layout := {| tag_bytes := 8; has_blocknr_high := false; csum_v3 := false;
                            descriptor_tail_bytes := 0 |};
       jsb_csum_seed := None |} |}.

Lemma sample_geometry_ok : geometry_ok sample_geometry.
Proof. repeat split; try done; left; done. Qed.

Lemma free_log_blocks_correct_witness :
  free_log_blocks sample_geometry 3 (Some 9) = 6 /\ advance sample_geometry 3 6 = 9 /\
  advance sample_geometry 9 (ring sample_geometry - 6) = 3.
Proof.
  pose proof (free_log_blocks_correct sample_geometry 3 9 sample_geometry_ok ltac:(done) ltac:(done))
    as (H1 & H2 & _). done.
Defined.

Lemma upgrade_journal_reload_witness :
  exists d' sb',
    upgrade_journal_on_mount sample_geometry {| fs_has_metadata_csum := true; fs_is_64bit := true |} (Sample.dev 0)
      = (Ok true, d') /\
    (let? raw' := read_raw_superblock sample_geometry d' in try_from raw') = Ok sb' /\
    csum_v3 (jsb_tag_layout sb') = true.
Proof.
  assert (exists blk, d_disk (Sample.dev 0) !! 100 = Some blk /\ is_block blk) as (blk & Hd & Hblk).
  { eexists. split; vm_compute; reflexivity. }
  assert (exists sb, try_from (Sample.raw 0) = Ok sb) as [sb Hsb] by (eexists; vm_compute; reflexivity).
  pose proof (upgrade_journal_reload sample_geometry {| fs_has_metadata_csum := true; fs_is_64bit := true |}
    (Sample.dev 0) 100 blk (Sample.raw 0) sb) as H.
  destruct H as (d' & sb' & H1 & H2 & _ & _ & _ & _ & H3 & _);
    [by repeat split|done|done|exact Hd|exact Hblk|vm_compute; reflexivity|exact Hsb|].
  exists d', sb'. split_and!; [exact H1|exact H2|exact H3].
Defined.
