(* ===== verification/Revoke.v ===== *)
(** * Revoke records

    Models [journal/revoke.rs]: the table of revoked blocks that keeps stale
    log images from being replayed over blocks that were freed and reused,
    and the authorisations that tie freeing a block to revoking it.  A table
    maps a block to the newest transaction that revoked it; ids compare as
    32-bit serial numbers. *)

From S2P Require Import Prelude JournalFormat JournalTags Device Geometry.

(** ** The table *)

Record RevokeTable : Type := { records : gmap Z Z }.

Definition table_new : RevokeTable := {| records := ∅ |}.

(** [RevokeTable::record]: the newest revoke of a block wins. *)
Definition record (t : RevokeTable) (bid tid : Z) : RevokeTable :=
  match records t !! bid with
  | Some existing =>
      if Tid.geq existing tid then t else {| records := <[bid := tid]> (records t) |}
  | None => {| records := <[bid := tid]> (records t) |}
  end.

Definition suppresses (t : RevokeTable) (bid txn_tid : Z) : bool :=
  match records t !! bid with
  | Some r => Tid.geq r txn_tid
  | None => false
  end.

Definition retire_through (t : RevokeTable) (committed : Z) : RevokeTable :=
  {| records := filter (fun p => Tid.geq committed p.2 = false) (records t) |}.

(** ** Authorisations to free blocks *)

Inductive RevokeDuty : Set := forget_decision.

Record BlockFreeAuth : Set := {
  auth_start : Z;
  auth_count : Z;
  auth_duty : option RevokeDuty;
}.

Definition without_revoke_duty (start count : Z) : BlockFreeAuth :=
  {| auth_start := start; auth_count := count; auth_duty := None |}.

Definition forget (start count : Z) : BlockFreeAuth :=
  {| auth_start := start; auth_count := count; auth_duty := Some forget_decision |}.

Inductive DataForgetPolicy : Set := Forget | PlainData.

Definition authorize (p : DataForgetPolicy) (start count : Z) : BlockFreeAuth :=
  match p with
  | Forget => forget start count
  | PlainData => without_revoke_duty start count
  end.

(** ** Lemmas

    The table over unbounded transaction counters, and the simulation
    between the two while all counters lie in one half-range window. *)

Definition arecord (a : gmap Z Z) (b n : Z) : gmap Z Z :=
  <[b := match a !! b with Some m => Z.max m n | None => n end]> a.

Definition in_window (lo n : Z) : Prop := lo <= n < lo + 2 ^ 31.

Definition table_sim (lo : Z) (a : gmap Z Z) (t : RevokeTable) : Prop :=
  records t = u32 <$> a /\ map_Forall (fun _ n => in_window lo n) a.

Lemma table_sim_new lo : table_sim lo ∅ table_new.
Proof. split; [by rewrite fmap_empty|apply map_Forall_empty]. Qed.

Lemma geq_in_window lo a b : in_window lo a -> in_window lo b -> Tid.geq (u32 a) (u32 b) = (b <=? a).
Proof. unfold in_window. intros. apply geq_window. lia. Qed.

Lemma table_sim_record lo a t b n :
  table_sim lo a t -> in_window lo n -> table_sim lo (arecord a b n) (record t b (u32 n)).
Proof.
  intros [Hr Hw] Hn. unfold record, arecord. rewrite Hr, lookup_fmap.
  destruct (a !! b) as [m|] eqn:E; cbn [fmap option_fmap option_map].
  - pose proof (Hw _ _ E) as Hm. rewrite (geq_in_window lo) by done.
    destruct (Z.leb_spec n m).
    + rewrite Z.max_l, insert_id by done. done.
    + rewrite Z.max_r by lia. split; cbn [records]; [by rewrite fmap_insert|by apply map_Forall_insert_2].
  - split; cbn [records]; [by rewrite fmap_insert|by apply map_Forall_insert_2].
Qed.

Lemma table_sim_suppresses lo a t b n :
  table_sim lo a t -> in_window lo n ->
  suppresses t b (u32 n) = match a !! b with Some m => n <=? m | None => false end.
Proof.
  intros [Hr Hw] Hn. unfold suppresses. rewrite Hr, lookup_fmap.
  destruct (a !! b) as [m|] eqn:E; cbn [fmap option_fmap option_map]; [|done].
  by rewrite (geq_in_window lo) by (done || by apply (Hw _ _ E)).
Qed.

Lemma table_sim_retire lo a t n :
  table_sim lo a t -> in_window lo n ->
  table_sim lo (filter (fun p => n < p.2) a) (retire_through t (u32 n)).
Proof.
  intros [Hr Hw] Hn. split.
  - unfold retire_through. cbn [records]. rewrite Hr. apply map_eq. intros b.
    apply option_eq. intros m. split.
    + intros [Hm Hg]%map_lookup_filter_Some. cbn [snd] in Hg.
      rewrite lookup_fmap in Hm. apply fmap_Some in Hm as (m' & Hm' & ->).
      rewrite (geq_in_window lo) in Hg by (done || by apply (Hw _ _ Hm')). apply Z.leb_gt in Hg.
      rewrite lookup_fmap. apply fmap_Some. exists m'. split; [|done]. by apply map_lookup_filter_Some.
    + rewrite lookup_fmap. intros (m' & [Hm' Hlt]%map_lookup_filter_Some & ->)%fmap_Some. cbn [snd] in Hlt.
      apply map_lookup_filter_Some. rewrite lookup_fmap, Hm'. cbn. split; [done|].
      rewrite (geq_in_window lo) by (done || by apply (Hw _ _ Hm')). by apply Z.leb_gt.
  - intros b m [Hm _]%map_lookup_filter_Some. by apply (Hw b).
Qed.

(** Recording a batch of one transaction's revokes. *)
Definition record_all (t : RevokeTable) (bids : list Z) (tid : Z) : RevokeTable :=
  fold_left (fun t b => record t b tid) bids t.

Definition arecord_all (a : gmap Z Z) (bids : list Z) (n : Z) : gmap Z Z :=
  fold_left (fun a b => arecord a b n) bids a.

Lemma table_sim_record_all lo bids a t n :
  table_sim lo a t -> in_window lo n -> table_sim lo (arecord_all a bids n) (record_all t bids (u32 n)).
Proof.
  revert a t. induction bids as [|b rest IH]; intros a t Ht Hn; [done|].
  apply IH; [|done]. by apply table_sim_record.
Qed.

Lemma lookup_arecord_all a bids n b :
  arecord_all a bids n !! b =
    if decide (b ∈ bids) then Some (match a !! b with Some m => Z.max m n | None => n end) else a !! b.
Proof.
  revert a. induction bids as [|c rest IH]; intros a; [by rewrite decide_False by set_solver|].
  change (arecord_all a (c :: rest) n) with (arecord_all (arecord a c n) rest n). rewrite IH.
  unfold arecord. destruct (decide (b = c)) as [->|Hne].
  - rewrite lookup_insert_eq, (decide_True (P := c ∈ c :: rest)) by set_solver. case_decide; [|done].
    destruct (a !! c); f_equal; lia.
  - rewrite lookup_insert_ne by done. repeat case_decide; set_solver.
Qed.

(** A history of revokes, as (block, transaction counter) pairs. *)
Definition record_events (evs : list (Z * Z)) : RevokeTable :=
  fold_left (fun t e => record t e.1 (u32 e.2)) evs table_new.

Lemma record_events_sim lo evs :
  Forall (fun e => in_window lo e.2) evs ->
  exists a, table_sim lo a (record_events evs) /\
    forall b, match a !! b with
              | Some m => (b, m) ∈ evs /\ forall m', (b, m') ∈ evs -> m' <= m
              | None => forall m', (b, m') ∉ evs
              end.
Proof.
  unfold record_events. induction evs as [|[b0 n0] evs IH] using rev_ind; intros Hw.
  { exists ∅. split; [apply table_sim_new|]. intros b. rewrite lookup_empty. set_solver. }
  apply Forall_app in Hw as [Hw Hn]. apply Forall_cons in Hn as [Hn _]. cbn [snd] in Hn.
  destruct (IH Hw) as (a & Hs & Ha). exists (arecord a b0 n0). rewrite fold_left_app. cbn [fold_left fst snd].
  split; [by apply table_sim_record|]. intros b. unfold arecord. specialize (Ha b).
  destruct (decide (b = b0)) as [->|Hne].
  - rewrite lookup_insert_eq. destruct (a !! b0) as [m|].
    + destruct Ha as [Hin Hmax]. split.
      * destruct (Z.max_spec m n0) as [[_ ->]|[_ ->]]; set_solver.
      * intros m' [Hm'| [= ->]%list_elem_of_singleton]%elem_of_app; [specialize (Hmax _ Hm')|]; lia.
    + split; [set_solver|]. intros m' [Hm'| [= ->]%list_elem_of_singleton]%elem_of_app; [by destruct (Ha m')|lia].
  - rewrite lookup_insert_ne by done. destruct (a !! b) as [m|]; set_solver.
Qed.

(** ** Properties *)

(** C39: the revoke table suppresses a transaction's image of a block exactly
    when some recorded revoke of that block is by the same or a later
    transaction, whatever the order of the records, across id wrap-around;
    retiring through a transaction drops exactly the records up to it. *)
Theorem revoke_table_correct lo evs b n k :
  Forall (fun e => in_window lo e.2) evs -> in_window lo n -> in_window lo k ->
  (suppresses (record_events evs) b (u32 n) = true <-> exists m, (b, m) ∈ evs /\ n <= m) /\
  (suppresses (retire_through (record_events evs) (u32 k)) b (u32 n) = true <->
     exists m, (b, m) ∈ evs /\ n <= m /\ k < m).
Proof.
  intros Hw Hn Hk. destruct (record_events_sim lo evs Hw) as (a & Hs & Ha). specialize (Ha b).
  pose proof (table_sim_retire lo a _ k Hs Hk) as Hs'.
  rewrite (table_sim_suppresses lo a _ b n Hs Hn), (table_sim_suppresses lo _ _ b n Hs' Hn). split.
  - destruct (a !! b) as [m|].
    + destruct Ha as [Hin Hmax]. rewrite Z.leb_le. split; [eauto|]. intros (m' & Hm' & ?).
      specialize (Hmax _ Hm'). lia.
    + split; [done|]. intros (m & Hm & _). by destruct (Ha m).
  - destruct (filter _ a !! b) as [m|] eqn:Ef.
    + apply map_lookup_filter_Some in Ef as [Em Hlt]. rewrite Em in Ha. destruct Ha as [Hin Hmax].
      cbn [snd] in Hlt. rewrite Z.leb_le. split; [eauto|]. intros (m' & Hm' & ? & ?).
      specialize (Hmax _ Hm'). lia.
    + split; [done|]. intros (m & Hm & Hnm & Hkm). exfalso. destruct (a !! b) as [m0|] eqn:Ea; [|by destruct (Ha m)].
      destruct Ha as [Hin Hmax]. specialize (Hmax _ Hm).
      apply map_lookup_filter_None in Ef as [?|Ef]; [congruence|]. apply (Ef m0 Ea). cbn [snd]. lia.
Qed.

Lemma revoke_table_correct_witness :
  let evs := [(7, 2 ^ 32 + 1); (7, 2 ^ 32 - 1); (9, 2 ^ 32)] in
  suppresses (record_events evs) 7 (u32 (2 ^ 32)) = true /\
  suppresses (record_events evs) 9 (u32 (2 ^ 32 + 1)) = false /\
  suppresses (retire_through (record_events evs) (u32 (2 ^ 32))) 9 (u32 (2 ^ 32)) = false.
Proof.
  pose proof (revoke_table_correct (2 ^ 32 - 5) [(7, 2 ^ 32 + 1); (7, 2 ^ 32 - 1); (9, 2 ^ 32)] 7 (2 ^ 32) (2 ^ 32)) as H.
  destruct H as [H _]; [repeat constructor; cbn; unfold in_window; lia|unfold in_window; lia|unfold in_window; lia|].
  split; [apply H; exists (2 ^ 32 + 1); split; [left|lia]|]. split; vm_compute; reflexivity.
Defined.
