(* ===== verification/LogWalk.v ===== *)
(** * Walking one transaction's chain in the log

    Models the four loops that read a transaction back from the ring:
    [scan_transaction] and [collect_transaction_revokes] of
    [journal/recovery.rs], [apply_log_transaction] and
    [chain_covers_unpublished] of [journal/checkpoint.rs].  A chain is revoke
    blocks, then runs of a descriptor and the blocks its tags describe, then
    a commit block.  Each loop bounds itself by counting the log blocks it
    consumed against the journal's length; the fuel of the model is one more
    than that bound, and never runs out. *)

From S2P Require Import Prelude Pod Checksum JournalFormat JournalTags Device Geometry Revoke.

(** ** The code *)

(** [seed.is_none_or(|s| s.verify_block_tail(block))] *)
Definition tail_ok (seed : option JournalCsumSeed) (block : list byte) : bool :=
  match seed with Some s => verify_block_tail s block | None => true end.

(** [!seed.is_some_and(|s| !s.verify_commit_block(block))] *)
Definition commit_ok (seed : option JournalCsumSeed) (block : list byte) : bool :=
  match seed with Some s => verify_commit_block s block | None => true end.

(** The [for tag in walk] loop of a reader that only counts tags. *)
Fixpoint skip_tags (g : JournalGeometry) (tags : list (result DescriptorTag)) (log consumed : Z)
  : result (Z * Z) :=
  match tags with
  | [] => Ok (log, consumed)
  | Err e :: _ => Err e
  | Ok _ :: rest => skip_tags g rest (next_log_block g log) (consumed + 1)
  end.

(** [scan_transaction]: where the chain of [expected_tid] ends, or [None]
    when there is no such committed transaction at [log]. *)
Fixpoint scan_loop (fuel : nat) (g : JournalGeometry) (d : device) (expected_tid log consumed : Z)
    (chain_tails_csum_ok : bool) : result (option Z) :=
  match fuel with
  | O => Err EUCLEAN
  | S fuel =>
    let seed := csum_seed g in
    let? block := read_log_block g d log in
    let header := parse_header block in
    let blocktype := h_blocktype header in
    if negb (h_magic header =? JBD2_MAGIC) then Ok None
    else if negb (h_sequence header =? expected_tid) then Ok None
    else if blocktype =? BLOCKTYPE_REVOKE then
      let ok := chain_tails_csum_ok && tail_ok seed block in
      let consumed := consumed + 1 in
      check negb (maxlen g <? consumed) else EUCLEAN in
      scan_loop fuel g d expected_tid (next_log_block g log) consumed ok
    else if negb (blocktype =? BLOCKTYPE_DESCRIPTOR) && negb (blocktype =? BLOCKTYPE_COMMIT) then Ok None
    else if blocktype =? BLOCKTYPE_COMMIT then
      check chain_tails_csum_ok else EUCLEAN in
      check commit_ok seed block else EUCLEAN in
      Ok (Some (next_log_block g log))
    else
      let ok := chain_tails_csum_ok && tail_ok seed block in
      match skip_tags g (walk_tags (tag_layout g) block) log consumed with
      | Err _ => Ok None
      | Ok (log, consumed) =>
          let log := next_log_block g log in
          let consumed := consumed + 1 in
          check negb (maxlen g <? consumed) else EUCLEAN in
          scan_loop fuel g d expected_tid log consumed ok
      end
  end.

(** One iteration consumes at least one log block, and more than [maxlen] of
    them is an error. *)
Definition CHAIN_FUEL (g : JournalGeometry) : nat := S (Z.to_nat (maxlen g)).

Definition scan_transaction (g : JournalGeometry) (d : device) (start_log expected_tid : Z)
  : result (option Z) :=
  scan_loop (CHAIN_FUEL g) g d expected_tid start_log 0 true.

(** [collect_transaction_revokes] *)
Fixpoint collect_loop (fuel : nat) (g : JournalGeometry) (d : device) (expected_tid log consumed : Z)
    (table : RevokeTable) : result (Z * RevokeTable) :=
  match fuel with
  | O => Err EUCLEAN
  | S fuel =>
    let? block := read_log_block g d log in
    let header := parse_header block in
    check h_magic header =? JBD2_MAGIC else EUCLEAN in
    check h_sequence header =? expected_tid else EUCLEAN in
    if h_blocktype header =? BLOCKTYPE_COMMIT then Ok (next_log_block g log, table)
    else
      let? (log, consumed, table) :=
        if h_blocktype header =? BLOCKTYPE_REVOKE then
          let? bids := revoke_entries (tag_layout g) block in
          Ok (log, consumed, record_all table bids expected_tid)
        else if h_blocktype header =? BLOCKTYPE_DESCRIPTOR then
          let? (log, consumed) := skip_tags g (walk_tags (tag_layout g) block) log consumed in
          Ok (log, consumed, table)
        else Err EUCLEAN in
      let log := next_log_block g log in
      let consumed := consumed + 1 in
      check negb (maxlen g <? consumed) else EUCLEAN in
      collect_loop fuel g d expected_tid log consumed table
  end.

Definition collect_transaction_revokes (g : JournalGeometry) (d : device) (start_log expected_tid : Z)
    (table : RevokeTable) : result (Z * RevokeTable) :=
  collect_loop (CHAIN_FUEL g) g d expected_tid start_log 0 table.

(** The image a tag restores: an escaped block gets its magic back. *)
Definition unescape (tag : DescriptorTag) (block : list byte) : list byte :=
  if is_escaped tag then splice 0 (be_bytes 4 JBD2_MAGIC) block else block.

(** The tag loop of [apply_log_transaction]: write home every image that is
    not revoked and whose checksum holds. *)
Fixpoint apply_tags (g : JournalGeometry) (expected_tid : Z) (revoked : RevokeTable)
    (tags : list (result DescriptorTag)) (log consumed : Z) (bad_tag_csum : bool)
  : M device (Z * Z * bool) :=
  match tags with
  | [] => mret (log, consumed, bad_tag_csum)
  | Err e :: _ => fail e
  | Ok tag :: rest =>
      let log := next_log_block g log in
      let consumed := consumed + 1 in
      if suppresses revoked (dt_blocknr tag) expected_tid
      then apply_tags g expected_tid revoked rest log consumed bad_tag_csum
      else
        d ← get;
        block ← lift (read_log_block g d log);
        if match csum_seed g with Some s => negb (verify_data_csum tag s expected_tid block) | None => false end
        then apply_tags g expected_tid revoked rest log consumed true
        else
          dev_write (dt_blocknr tag) (unescape tag block) ;;
          apply_tags g expected_tid revoked rest log consumed bad_tag_csum
  end.

(** [apply_log_transaction] *)
Fixpoint apply_loop (fuel : nat) (g : JournalGeometry) (expected_tid : Z) (revoked : RevokeTable)
    (log consumed : Z) (bad_tag_csum : bool) : M device Z :=
  match fuel with
  | O => fail EUCLEAN
  | S fuel =>
    d ← get;
    chain_block ← lift (read_log_block g d log);
    let header := parse_header chain_block in
    guard (h_magic header =? JBD2_MAGIC) EUCLEAN ;;
    guard (h_sequence header =? expected_tid) EUCLEAN ;;
    if h_blocktype header =? BLOCKTYPE_COMMIT then
      guard (negb bad_tag_csum) EUCLEAN ;;
      mret (next_log_block g log)
    else if h_blocktype header =? BLOCKTYPE_REVOKE then
      let consumed := consumed + 1 in
      guard (negb (maxlen g <? consumed)) EUCLEAN ;;
      apply_loop fuel g expected_tid revoked (next_log_block g log) consumed bad_tag_csum
    else
      guard (h_blocktype header =? BLOCKTYPE_DESCRIPTOR) EUCLEAN ;;
      guard (tail_ok (csum_seed g) chain_block) EUCLEAN ;;
      '(log, consumed, bad_tag_csum) ←
        apply_tags g expected_tid revoked (walk_tags (tag_layout g) chain_block) log consumed bad_tag_csum;
      let log := next_log_block g log in
      let consumed := consumed + 1 in
      guard (negb (maxlen g <? consumed)) EUCLEAN ;;
      apply_loop fuel g expected_tid revoked log consumed bad_tag_csum
  end.

Definition apply_log_transaction (g : JournalGeometry) (start_log expected_tid : Z) (revoked : RevokeTable)
  : M device Z :=
  apply_loop (CHAIN_FUEL g) g expected_tid revoked start_log 0 false.

(** The tag loop of [chain_covers_unpublished]: stop at a member of the set. *)
Fixpoint covers_tags (g : JournalGeometry) (unpublished : gset Z) (tags : list (result DescriptorTag))
    (log consumed : Z) : result (option (Z * Z)) :=
  match tags with
  | [] => Ok (Some (log, consumed))
  | Err e :: _ => Err e
  | Ok tag :: rest =>
      if decide (dt_blocknr tag ∈ unpublished) then Ok None
      else covers_tags g unpublished rest (next_log_block g log) (consumed + 1)
  end.

(** [chain_covers_unpublished] *)
Fixpoint covers_loop (fuel : nat) (g : JournalGeometry) (d : device) (expected_tid log consumed : Z)
    (unpublished : gset Z) : result bool :=
  match fuel with
  | O => Err EUCLEAN
  | S fuel =>
    let? chain_block := read_log_block g d log in
    let header := parse_header chain_block in
    check h_magic header =? JBD2_MAGIC else EUCLEAN in
    check h_sequence header =? expected_tid else EUCLEAN in
    if h_blocktype header =? BLOCKTYPE_COMMIT then Ok false
    else if h_blocktype header =? BLOCKTYPE_REVOKE then
      let consumed := consumed + 1 in
      check negb (maxlen g <? consumed) else EUCLEAN in
      covers_loop fuel g d expected_tid (next_log_block g log) consumed unpublished
    else
      check h_blocktype header =? BLOCKTYPE_DESCRIPTOR else EUCLEAN in
      let? r := covers_tags g unpublished (walk_tags (tag_layout g) chain_block) log consumed in
      match r with
      | None => Ok true
      | Some (log, consumed) =>
          let log := next_log_block g log in
          let consumed := consumed + 1 in
          check negb (maxlen g <? consumed) else EUCLEAN in
          covers_loop fuel g d expected_tid log consumed unpublished
      end
  end.

Definition chain_covers_unpublished (g : JournalGeometry) (d : device) (start_log expected_tid : Z)
    (unpublished : gset Z) : result bool :=
  covers_loop (CHAIN_FUEL g) g d expected_tid start_log 0 unpublished.

(** ** Chains

    The valid chain of a transaction, as the readers see it. *)

Inductive segment : Type :=
  | SegRevoke (blk : list byte) (bids : list Z)
  | SegRun (desc : list byte) (items : list (DescriptorTag * list byte)).

Definition seg_len (s : segment) : Z :=
  match s with SegRevoke _ _ => 1 | SegRun _ items => 1 + zlen items end.

Definition segs_len (segs : list segment) : Z := foldr (fun s n => seg_len s + n) 0 segs.

(** The blocks of a segment, in log order. *)
Definition seg_blocks (s : segment) : list (list byte) :=
  match s with SegRevoke blk _ => [blk] | SegRun desc items => desc :: map snd items end.

Definition chain_header (tid ty : Z) : RawJournalHeader :=
  {| h_magic := JBD2_MAGIC; h_blocktype := ty; h_sequence := tid |}.

Definition item_csum_ok (g : JournalGeometry) (tid : Z) (it : DescriptorTag * list byte) : Prop :=
  match csum_seed g with Some s => verify_data_csum it.1 s tid it.2 = true | None => True end.

Definition seg_valid (g : JournalGeometry) (tid : Z) (s : segment) : Prop :=
  match s with
  | SegRevoke blk bids =>
      parse_header blk = chain_header tid BLOCKTYPE_REVOKE /\ tail_ok (csum_seed g) blk = true /\
      revoke_entries (tag_layout g) blk = Ok bids
  | SegRun desc items =>
      parse_header desc = chain_header tid BLOCKTYPE_DESCRIPTOR /\ tail_ok (csum_seed g) desc = true /\
      walk_tags (tag_layout g) desc = map (fun it => Ok it.1) items /\
      Forall (item_csum_ok g tid) items
  end.

Definition commit_valid (g : JournalGeometry) (tid : Z) (blk : list byte) : Prop :=
  parse_header blk = chain_header tid BLOCKTYPE_COMMIT /\ commit_ok (csum_seed g) blk = true.

(** A block that cannot belong to the chain of [tid]. *)
Definition stale (tid : Z) (blk : list byte) : Prop :=
  ~ (h_magic (parse_header blk) = JBD2_MAGIC /\ h_sequence (parse_header blk) = tid).

Definition chain_bids (segs : list segment) : list Z :=
  flat_map (fun s => match s with SegRevoke _ bids => bids | SegRun _ _ => [] end) segs.

Definition chain_items (segs : list segment) : list (DescriptorTag * list byte) :=
  flat_map (fun s => match s with SegRevoke _ _ => [] | SegRun _ items => items end) segs.

(** Consecutive log positions hold given blocks. *)
Fixpoint log_holds (g : JournalGeometry) (d : device) (pos : Z) (blks : list (list byte)) : Prop :=
  match blks with
  | [] => True
  | b :: rest => read_log_block g d pos = Ok b /\ log_holds g d (next_log_block g pos) rest
  end.

(** ** Lemmas: termination *)

Lemma skip_tags_consumed g tags log c log' c' :
  skip_tags g tags log c = Ok (log', c') -> c <= c'.
Proof.
  revert log c. induction tags as [|[t|e] rest IH]; intros log c H; cbn [skip_tags] in H; [|apply IH in H; lia|done].
  injection H as <- <-. lia.
Qed.

Lemma covers_tags_consumed g u tags log c log' c' :
  covers_tags g u tags log c = Ok (Some (log', c')) -> c <= c'.
Proof.
  revert log c. induction tags as [|[t|e] rest IH]; intros log c H; cbn [covers_tags] in H; [| |done].
  - injection H as <- <-. lia.
  - case_decide; [done|]. apply IH in H. lia.
Qed.

Lemma apply_tags_consumed g tid rv tags log c bad d log' c' bad' d' :
  apply_tags g tid rv tags log c bad d = (Ok (log', c', bad'), d') -> c <= c'.
Proof.
  revert log c bad d. induction tags as [|[t|e] rest IH]; intros log c bad d H; cbn [apply_tags] in H; [| |done].
  - injection H as <- <- _ _. lia.
  - destruct (suppresses _ _ _); [apply IH in H; lia|].
    apply bind_inv in H as (d1 & s1 & _ & H). apply bind_inv in H as (b & s2 & _ & H).
    destruct (match csum_seed g with Some s => _ | None => false end); [apply IH in H; lia|].
    apply bind_inv in H as (u & s3 & _ & H). apply IH in H. lia.
Qed.

Section Fuel.
Context (g : JournalGeometry).

Lemma scan_loop_fuel fuel extra d tid log c ok :
  c <= maxlen g -> maxlen g - c < Z.of_nat fuel ->
  scan_loop (fuel + extra) g d tid log c ok = scan_loop fuel g d tid log c ok.
Proof.
  revert log c ok. induction fuel as [|fuel IH]; intros log c ok Hc Hf; [lia|]. cbn [scan_loop Nat.add].
  destruct (read_log_block g d log) as [blk|e]; cbn [rbind]; [|done].
  repeat (destruct (negb (_ =? _)); [done|]).
  destruct (_ =? BLOCKTYPE_REVOKE).
  { destruct (Z.ltb_spec (maxlen g) (c + 1)); cbn [negb]; [done|]. apply IH; lia. }
  destruct (_ && _); [done|]. destruct (_ =? BLOCKTYPE_COMMIT); [done|].
  destruct (skip_tags _ _ _ _) as [[log' c']|] eqn:E; [|done]. apply skip_tags_consumed in E.
  destruct (Z.ltb_spec (maxlen g) (c' + 1)); cbn [negb]; [done|]. apply IH; lia.
Qed.

Lemma collect_loop_fuel fuel extra d tid log c table :
  c <= maxlen g -> maxlen g - c < Z.of_nat fuel ->
  collect_loop (fuel + extra) g d tid log c table = collect_loop fuel g d tid log c table.
Proof.
  revert log c table. induction fuel as [|fuel IH]; intros log c table Hc Hf; [lia|]. cbn [collect_loop Nat.add].
  destruct (read_log_block g d log) as [blk|e]; cbn [rbind]; [|done].
  do 2 (destruct (_ =? _); [|done]). destruct (_ =? BLOCKTYPE_COMMIT); [done|].
  destruct (_ =? BLOCKTYPE_REVOKE).
  { destruct (revoke_entries _ _) as [bids|]; cbn [rbind]; [|done].
    destruct (Z.ltb_spec (maxlen g) (c + 1)); cbn [negb]; [done|]. apply IH; lia. }
  destruct (_ =? BLOCKTYPE_DESCRIPTOR); [|done].
  destruct (skip_tags _ _ _ _) as [[log' c']|] eqn:E; cbn [rbind]; [|done]. apply skip_tags_consumed in E.
  destruct (Z.ltb_spec (maxlen g) (c' + 1)); cbn [negb]; [done|]. apply IH; lia.
Qed.

Lemma covers_loop_fuel fuel extra d tid log c u :
  c <= maxlen g -> maxlen g - c < Z.of_nat fuel ->
  covers_loop (fuel + extra) g d tid log c u = covers_loop fuel g d tid log c u.
Proof.
  revert log c. induction fuel as [|fuel IH]; intros log c Hc Hf; [lia|]. cbn [covers_loop Nat.add].
  destruct (read_log_block g d log) as [blk|e]; cbn [rbind]; [|done].
  do 2 (destruct (_ =? _); [|done]). destruct (_ =? BLOCKTYPE_COMMIT); [done|].
  destruct (_ =? BLOCKTYPE_REVOKE).
  { destruct (Z.ltb_spec (maxlen g) (c + 1)); cbn [negb]; [done|]. apply IH; lia. }
  destruct (_ =? BLOCKTYPE_DESCRIPTOR); [|done].
  destruct (covers_tags _ _ _ _ _) as [[[log' c']|]|] eqn:E; cbn [rbind]; [|done..]. apply covers_tags_consumed in E.
  destruct (Z.ltb_spec (maxlen g) (c' + 1)); cbn [negb]; [done|]. apply IH; lia.
Qed.

Lemma apply_loop_fuel fuel extra tid rv log c bad d :
  c <= maxlen g -> maxlen g - c < Z.of_nat fuel ->
  apply_loop (fuel + extra) g tid rv log c bad d = apply_loop fuel g tid rv log c bad d.
Proof.
  revert log c bad d. induction fuel as [|fuel IH]; intros log c bad d Hc Hf; [lia|].
  cbn [apply_loop Nat.add]. unfold mbind, M_bind, get, lift, guard, mret, M_ret, fail. 
  destruct (read_log_block g d log) as [blk|e]; [|done].
  do 2 (destruct (_ =? _); [|done]). destruct (_ =? BLOCKTYPE_COMMIT); [done|].
  destruct (_ =? BLOCKTYPE_REVOKE).
  { destruct (Z.ltb_spec (maxlen g) (c + 1)); cbn [negb]; [done|]. apply IH; lia. }
  destruct (_ =? BLOCKTYPE_DESCRIPTOR); [|done]. destruct (tail_ok _ _); [|done].
  destruct (apply_tags _ _ _ _ _ _ _ _) as [[[[log' c'] bad']|] d'] eqn:E; [|done]. apply apply_tags_consumed in E.
  destruct (Z.ltb_spec (maxlen g) (c' + 1)); cbn [negb]; [done|]. apply IH; lia.
Qed.
End Fuel.

(** ** Lemmas: reading a chain *)

(** Decide the tests a walker makes on a chain block whose header is known. *)
Ltac chain_block Hh :=
  rewrite Hh; cbn [chain_header h_magic h_sequence h_blocktype];
  rewrite ?Z.eqb_refl;
  change (BLOCKTYPE_DESCRIPTOR =? BLOCKTYPE_REVOKE) with false;
  change (BLOCKTYPE_DESCRIPTOR =? BLOCKTYPE_COMMIT) with false;
  change (BLOCKTYPE_REVOKE =? BLOCKTYPE_COMMIT) with false;
  cbn [negb andb].

Definition chain_blocks (segs : list segment) : list (list byte) := flat_map seg_blocks segs.

Lemma seg_len_pos s : 1 <= seg_len s.
Proof. destruct s; cbn; [lia|]. pose proof (zlen_nonneg items). lia. Qed.

Lemma zlen_seg_blocks s : zlen (seg_blocks s) = seg_len s.
Proof. destruct s; cbn [seg_blocks seg_len]; [done|]. by rewrite zlen_cons, zlen_map. Qed.

Lemma segs_len_cons s segs : segs_len (s :: segs) = seg_len s + segs_len segs.
Proof. done. Qed.

Lemma segs_len_app s1 s2 : segs_len (s1 ++ s2) = segs_len s1 + segs_len s2.
Proof. induction s1 as [|s s1 IH]; cbn [app]; [done|]. rewrite !segs_len_cons, IH. lia. Qed.

Lemma segs_len_ge segs : zlen segs <= segs_len segs.
Proof.
  induction segs as [|s segs IH]; [done|]. rewrite segs_len_cons, zlen_cons. pose proof (seg_len_pos s). lia.
Qed.

Lemma zlen_chain_blocks segs : zlen (chain_blocks segs) = segs_len segs.
Proof.
  induction segs as [|s segs IH]; [done|]. change (chain_blocks (s :: segs)) with (seg_blocks s ++ chain_blocks segs).
  by rewrite zlen_app, zlen_seg_blocks, IH.
Qed.

Section Chain.
Context (g : JournalGeometry) (tid : Z).
Implicit Types (d : device) (segs : list segment) (pos c : Z).

Lemma log_holds_app d pos b1 b2 :
  log_holds g d pos (b1 ++ b2) <-> log_holds g d pos b1 /\ log_holds g d (advance g pos (zlen b1)) b2.
Proof.
  revert pos. induction b1 as [|b b1 IH]; intros pos; cbn [log_holds app].
  - rewrite advance_0. naive_solver.
  - rewrite IH, zlen_cons, Z.add_comm, advance_next by apply zlen_nonneg. naive_solver.
Qed.

Lemma log_holds_lookup d pos blks :
  log_holds g d pos blks <-> forall i b, blks !! i = Some b -> read_log_block g d (advance g pos (Z.of_nat i)) = Ok b.
Proof.
  revert pos. induction blks as [|b0 blks IH]; intros pos; cbn [log_holds]; [naive_solver|].
  rewrite IH. split.
  - intros [H0 H] [|i] b Hb; cbn in Hb; [injection Hb as <-; done|].
    specialize (H i b Hb). rewrite advance_next in H by lia. by replace (Z.of_nat (S i)) with (Z.of_nat i + 1) by lia.
  - intros H. split; [by apply (H 0%nat)|]. intros i b Hb. rewrite advance_next by lia.
    replace (Z.of_nat i + 1) with (Z.of_nat (S i)) by lia. by apply H.
Qed.

(** The first block of every segment is where the chain puts it; the
    scanner reads nothing else. *)
Fixpoint metas_hold d pos segs : Prop :=
  match segs with
  | [] => True
  | s :: rest =>
      read_log_block g d pos = Ok (match s with SegRevoke blk _ => blk | SegRun desc _ => desc end) /\
      metas_hold d (advance g pos (seg_len s)) rest
  end.

Lemma metas_hold_of d pos segs : log_holds g d pos (chain_blocks segs) -> metas_hold d pos segs.
Proof.
  revert pos. induction segs as [|s segs IH]; intros pos; [done|].
  change (chain_blocks (s :: segs)) with (seg_blocks s ++ chain_blocks segs).
  rewrite log_holds_app, zlen_seg_blocks. intros [H1 H2]. split; [|by apply IH].
  destruct s; apply H1.
Qed.

Lemma skip_tags_ok items pos c :
  skip_tags g (map (fun it : DescriptorTag * list byte => Ok it.1) items) pos c =
    Ok (advance g pos (zlen items), c + zlen items).
Proof.
  revert pos c. induction items as [|it items IH]; intros pos c; cbn [map skip_tags].
  - rewrite advance_0. do 2 f_equal. rewrite zlen_nil. lia.
  - rewrite IH, advance_next, zlen_cons by apply zlen_nonneg. do 2 f_equal; [f_equal; lia|lia].
Qed.

Lemma advance_run pos items :
  next_log_block g (advance g pos (zlen items)) = advance g pos (1 + zlen (A:=DescriptorTag * list byte) items).
Proof. rewrite Z.add_comm, advance_succ by apply zlen_nonneg. done. Qed.

Lemma ltb_false a b : b <= a -> (a <? b) = false.
Proof. intros. by apply Z.ltb_ge. Qed.

Lemma scan_segs d segs fuel pos c :
  Forall (seg_valid g tid) segs -> metas_hold d pos segs -> c + segs_len segs <= maxlen g ->
  scan_loop (length segs + fuel) g d tid pos c true =
    scan_loop fuel g d tid (advance g pos (segs_len segs)) (c + segs_len segs) true.
Proof.
  revert pos c. induction segs as [|s segs IH]; intros pos c Hv Hm Hlen.
  { cbn. by rewrite Z.add_0_r. }
  apply Forall_cons in Hv as [Hs Hv]. destruct Hm as [Hr Hm]. rewrite segs_len_cons in *.
  pose proof (segs_len_ge segs). pose proof (zlen_nonneg segs). pose proof (seg_len_pos s).
  replace (c + (seg_len s + segs_len segs)) with (c + seg_len s + segs_len segs) by lia.
  rewrite <- advance_add by lia. rewrite <- IH; [|done..|lia].
  cbn [length Nat.add scan_loop]. rewrite Hr. cbn [rbind]. destruct s as [blk bids|desc items].
  - destruct Hs as (Hh & Ht & _). rewrite Ht. chain_block Hh. cbn [seg_len] in *. by rewrite ltb_false by lia.
  - destruct Hs as (Hh & Ht & Hw & _). rewrite Ht. chain_block Hh. rewrite Hw, skip_tags_ok. cbn [seg_len] in *.
    rewrite advance_run. replace (c + zlen items + 1) with (c + (1 + zlen items)) by lia.
    by rewrite ltb_false by lia.
Qed.

Lemma scan_commit d fuel pos c blk :
  commit_valid g tid blk -> read_log_block g d pos = Ok blk ->
  scan_loop (S fuel) g d tid pos c true = Ok (Some (next_log_block g pos)).
Proof.
  intros [Hh Hc] Hr. cbn [scan_loop]. rewrite Hr. cbn [rbind]. rewrite Hc. by chain_block Hh.
Qed.

Lemma scan_stale d fuel pos c ok blk :
  stale tid blk -> read_log_block g d pos = Ok blk -> scan_loop (S fuel) g d tid pos c ok = Ok None.
Proof.
  intros Hs Hr. cbn [scan_loop]. rewrite Hr. cbn [rbind].
  destruct (Z.eqb_spec (h_magic (parse_header blk)) JBD2_MAGIC); [|done].
  destruct (Z.eqb_spec (h_sequence (parse_header blk)) tid); [|done]. by destruct Hs.
Qed.

Lemma chain_fuel segs : segs_len segs <= maxlen g -> exists f, CHAIN_FUEL g = (length segs + S f)%nat.
Proof.
  intros H. exists (CHAIN_FUEL g - length segs - 1)%nat. pose proof (segs_len_ge segs). unfold CHAIN_FUEL, zlen in *. lia.
Qed.

(** The scanner accepts a complete chain. *)
Lemma scan_transaction_ok d segs cb pos :
  Forall (seg_valid g tid) segs -> commit_valid g tid cb -> segs_len segs <= maxlen g ->
  metas_hold d pos segs -> read_log_block g d (advance g pos (segs_len segs)) = Ok cb ->
  scan_transaction g d pos tid = Ok (Some (advance g pos (segs_len segs + 1))).
Proof.
  intros Hv Hc Hlen Hm Hr. unfold scan_transaction. destruct (chain_fuel segs Hlen) as [f ->].
  rewrite scan_segs by (done || lia). rewrite (scan_commit _ _ _ _ cb) by done.
  rewrite advance_succ; [done|]. pose proof (segs_len_ge segs). pose proof (zlen_nonneg segs). lia.
Qed.
(** A chain that breaks off at a stale block is no transaction. *)
Lemma scan_transaction_none d segs blk pos :
  Forall (seg_valid g tid) segs -> segs_len segs <= maxlen g -> metas_hold d pos segs ->
  read_log_block g d (advance g pos (segs_len segs)) = Ok blk -> stale tid blk ->
  scan_transaction g d pos tid = Ok None.
Proof.
  intros Hv Hlen Hm Hr Hs. unfold scan_transaction. destruct (chain_fuel segs Hlen) as [f ->].
  rewrite scan_segs by (done || lia). by apply scan_stale with blk.
Qed.

Lemma record_all_app t b1 b2 : record_all t (b1 ++ b2) tid = record_all (record_all t b1 tid) b2 tid.
Proof. apply fold_left_app. Qed.

Lemma collect_segs d segs fuel pos c t :
  Forall (seg_valid g tid) segs -> metas_hold d pos segs -> c + segs_len segs <= maxlen g ->
  collect_loop (length segs + fuel) g d tid pos c t =
    collect_loop fuel g d tid (advance g pos (segs_len segs)) (c + segs_len segs)
      (record_all t (chain_bids segs) tid).
Proof.
  revert pos c t. induction segs as [|s segs IH]; intros pos c t Hv Hm Hlen.
  { cbn. by rewrite Z.add_0_r. }
  apply Forall_cons in Hv as [Hs Hv]. destruct Hm as [Hr Hm]. rewrite segs_len_cons in *.
  pose proof (segs_len_ge segs). pose proof (zlen_nonneg segs). pose proof (seg_len_pos s).
  replace (c + (seg_len s + segs_len segs)) with (c + seg_len s + segs_len segs) by lia.
  rewrite <- advance_add by lia. cbn [chain_bids flat_map]. rewrite record_all_app.
  fold (chain_bids segs). rewrite <- IH; [|done..|lia].
  cbn [length Nat.add collect_loop]. rewrite Hr. cbn [rbind]. destruct s as [blk bids|desc items].
  - destruct Hs as (Hh & _ & He). chain_block Hh. rewrite He. cbn [rbind seg_len] in *. by rewrite ltb_false by lia.
  - destruct Hs as (Hh & _ & Hw & _). chain_block Hh. rewrite Hw, skip_tags_ok. cbn [rbind seg_len] in *.
    rewrite advance_run. replace (c + zlen items + 1) with (c + (1 + zlen items)) by lia.
    by rewrite ltb_false by lia.
Qed.

(** The revoke pass records exactly the chain's revoked blocks. *)
Lemma collect_transaction_revokes_ok d segs cb pos t :
  Forall (seg_valid g tid) segs -> commit_valid g tid cb -> segs_len segs <= maxlen g ->
  metas_hold d pos segs -> read_log_block g d (advance g pos (segs_len segs)) = Ok cb ->
  collect_transaction_revokes g d pos tid t =
    Ok (advance g pos (segs_len segs + 1), record_all t (chain_bids segs) tid).
Proof.
  intros Hv [Hh _] Hlen Hm Hr. unfold collect_transaction_revokes. destruct (chain_fuel segs Hlen) as [f ->].
  rewrite collect_segs by (done || lia). cbn [collect_loop]. rewrite Hr. cbn [rbind]. chain_block Hh.
  rewrite advance_succ; [done|]. pose proof (segs_len_ge segs). pose proof (zlen_nonneg segs). lia.
Qed.

(** Whether some block of a chain is in a set. *)
Definition items_cover (u : gset Z) (items : list (DescriptorTag * list byte)) : bool :=
  existsb (fun it => bool_decide (dt_blocknr it.1 ∈ u)) items.

Lemma covers_tags_ok u items pos c :
  covers_tags g u (map (fun it : DescriptorTag * list byte => Ok it.1) items) pos c =
    if items_cover u items then Ok None else Ok (Some (advance g pos (zlen items), c + zlen items)).
Proof.
  unfold items_cover. revert pos c.
  induction items as [|it items IH]; intros pos c; cbn [map covers_tags existsb].
  - rewrite advance_0. by replace (c + zlen []) with c by (rewrite zlen_nil; lia).
  - case_decide; [by rewrite bool_decide_true|]. rewrite bool_decide_false by done. cbn [orb].
    rewrite IH, advance_next, zlen_cons by apply zlen_nonneg.
    replace (c + 1 + zlen items) with (c + (1 + zlen items)) by lia. by rewrite (Z.add_comm 1).
Qed.

Lemma covers_segs d u segs fuel pos c :
  Forall (seg_valid g tid) segs -> metas_hold d pos segs -> c + segs_len segs <= maxlen g ->
  covers_loop (length segs + fuel) g d tid pos c u =
    if items_cover u (chain_items segs) then Ok true
    else covers_loop fuel g d tid (advance g pos (segs_len segs)) (c + segs_len segs) u.
Proof.
  revert pos c. induction segs as [|s segs IH]; intros pos c Hv Hm Hlen.
  { cbn. by rewrite Z.add_0_r. }
  apply Forall_cons in Hv as [Hs Hv]. destruct Hm as [Hr Hm]. rewrite segs_len_cons in *.
  pose proof (segs_len_ge segs). pose proof (zlen_nonneg segs). pose proof (seg_len_pos s).
  replace (c + (seg_len s + segs_len segs)) with (c + seg_len s + segs_len segs) by lia.
  rewrite <- advance_add by lia. cbn [length Nat.add covers_loop]. rewrite Hr. cbn [rbind].
  specialize (IH (advance g pos (seg_len s)) (c + seg_len s) Hv Hm ltac:(lia)).
  destruct s as [blk bids|desc items].
  - destruct Hs as (Hh & _ & He). chain_block Hh. cbn [seg_len] in *. rewrite ltb_false by lia. exact IH.
  - destruct Hs as (Hh & _ & Hw & _). chain_block Hh. rewrite Hw, covers_tags_ok.
    cbn [chain_items flat_map]. unfold items_cover in *. rewrite existsb_app.
    destruct (existsb _ items); cbn [rbind orb]; [done|]. cbn [seg_len] in *.
    rewrite advance_run. replace (c + zlen items + 1) with (c + (1 + zlen items)) by lia.
    rewrite ltb_false by lia. exact IH.
Qed.

Lemma chain_covers_unpublished_ok d u segs cb pos :
  Forall (seg_valid g tid) segs -> commit_valid g tid cb -> segs_len segs <= maxlen g ->
  metas_hold d pos segs -> read_log_block g d (advance g pos (segs_len segs)) = Ok cb ->
  chain_covers_unpublished g d pos tid u = Ok (items_cover u (chain_items segs)).
Proof.
  intros Hv [Hh _] Hlen Hm Hr. unfold chain_covers_unpublished. destruct (chain_fuel segs Hlen) as [f ->].
  rewrite covers_segs by (done || lia). destruct (items_cover u _); [done|].
  cbn [covers_loop]. rewrite Hr. cbn [rbind]. by chain_block Hh.
Qed.
End Chain.

(** ** Lemmas: applying a chain *)

(** A device after a run of successful writes. *)
Definition write_events (evs : list event) (d : device) : device :=
  Device (apply_events evs (d_disk d)) (d_hist d ++ evs) (d_rd d) (d_wr d) (d_sync d).

Lemma write_events_nil d : write_events [] d = d.
Proof. destruct d. unfold write_events. cbn. by rewrite app_nil_r. Qed.

Lemma write_events_app e1 e2 d : write_events (e1 ++ e2) d = write_events e2 (write_events e1 d).
Proof. unfold write_events. cbn [d_disk d_hist d_rd d_wr d_sync]. by rewrite apply_events_app, app_assoc. Qed.

Lemma write_events_healthy evs d : healthy d -> healthy (write_events evs d).
Proof. done. Qed.

Lemma dev_write_events d bid data blk :
  healthy d -> bid_ok bid -> d_disk d !! bid = Some blk ->
  dev_write bid data d = (Ok tt, write_events [EvWrite bid data] d).
Proof. intros. by apply dev_write_ok with blk. Qed.

Lemma barrier_ok d : healthy d -> barrier d = (Ok tt, write_events [EvFlush] d).
Proof. intros (_ & _ & Hs). unfold barrier, write_events. by rewrite Hs. Qed.

Definition event_block (e : event) : option Z :=
  match e with EvWrite b _ => Some b | EvFlush => None end.

Lemma lookup_apply_events_other evs disk b :
  Forall (fun e => event_block e <> Some b) evs -> apply_events evs disk !! b = disk !! b.
Proof.
  revert disk. induction evs as [|e evs IH]; intros disk H; [done|].
  apply Forall_cons in H as [He H]. change (apply_events (e :: evs) disk) with (apply_events evs (apply_event disk e)).
  rewrite IH by done. destruct e; [|done]. cbn. apply lookup_insert_ne. cbn in He. congruence.
Qed.

Lemma apply_events_is_Some evs disk b : is_Some (disk !! b) -> is_Some (apply_events evs disk !! b).
Proof.
  revert disk. induction evs as [|e evs IH]; intros disk H; [done|]. apply IH. destruct e; [|done].
  cbn. apply lookup_insert_is_Some. destruct (decide (bid = b)); auto.
Qed.

(** The journal's own blocks: addressable and distinct. *)
Record map_ok (g : JournalGeometry) : Prop := {
  map_bids : Forall bid_ok (block_map g);
  map_nodup : NoDup (block_map g);
}.

Section Apply.
Context (g : JournalGeometry) (Hg : map_ok g) (tid : Z) (rv : RevokeTable).
Implicit Types (d : device) (segs : list segment) (pos c : Z).

(** Writes outside the journal leave the log as it is. *)
Lemma read_log_frame evs d pos :
  Forall (fun e => forall b, event_block e = Some b -> b ∉ block_map g) evs ->
  read_log_block g (write_events evs d) pos = read_log_block g d pos.
Proof.
  intros H. unfold read_log_block. destruct (log_block_to_physical g pos) as [p|] eqn:Ep; [|done].
  apply list_elem_of_lookup_2 in Ep as Hin. pose proof (proj1 (Forall_forall _ _) (map_bids g Hg) _ Hin) as Hb.
  unfold dev_read. rewrite block_of_to_offset by done. cbn [d_rd write_events d_disk].
  rewrite lookup_apply_events_other; [done|]. eapply Forall_impl; [exact H|]. cbn. intros e He Heq.
  by apply (He p).
Qed.

Lemma log_holds_frame evs d pos blks :
  Forall (fun e => forall b, event_block e = Some b -> b ∉ block_map g) evs ->
  log_holds g d pos blks -> log_holds g (write_events evs d) pos blks.
Proof.
  intros He. revert pos. induction blks as [|b blks IH]; intros pos; [done|]. intros [H1 H2].
  split; [by rewrite read_log_frame|by apply IH].
Qed.

(** A home block an image may be written to. *)
Definition home_ok d (it : DescriptorTag * list byte) : Prop :=
  bid_ok (dt_blocknr it.1) /\ is_Some (d_disk d !! dt_blocknr it.1) /\ dt_blocknr it.1 ∉ block_map g.

Definition home_event (it : DescriptorTag * list byte) : list event :=
  if suppresses rv (dt_blocknr it.1) tid then [] else [EvWrite (dt_blocknr it.1) (unescape it.1 it.2)].

Definition home_events (items : list (DescriptorTag * list byte)) : list event := flat_map home_event items.

Lemma home_event_frame d it :
  home_ok d it -> Forall (fun e => forall b, event_block e = Some b -> b ∉ block_map g) (home_event it).
Proof.
  intros (_ & _ & Hn). unfold home_event. destruct (suppresses _ _ _); repeat constructor.
  cbn. intros b [= <-]. done.
Qed.

Lemma home_ok_events evs d it : home_ok d it -> home_ok (write_events evs d) it.
Proof. intros (H1 & H2 & H3). split_and!; [done| |done]. by apply apply_events_is_Some. Qed.

Lemma apply_tags_ok d items pos c bad :
  healthy d -> Forall (item_csum_ok g tid) items -> Forall (home_ok d) items ->
  log_holds g d (next_log_block g pos) (map snd items) ->
  apply_tags g tid rv (map (fun it => Ok it.1) items) pos c bad d =
    (Ok (advance g pos (zlen items), c + zlen items, bad), write_events (home_events items) d).
Proof.
  revert d pos c. induction items as [|it items IH]; intros d pos c Hh Hc Ho Hl; cbn [map apply_tags].
  { rewrite zlen_nil, Z.add_0_r, advance_0, write_events_nil. done. }
  apply Forall_cons in Hc as [Hci Hc]. apply Forall_cons in Ho as [Hoi Ho]. destruct Hl as [Hr Hl].
  cbn [home_events flat_map]. rewrite write_events_app.
  assert (Hfin : forall d1, d1 = write_events (home_event it) d ->
    apply_tags g tid rv (map (fun it => Ok it.1) items) (next_log_block g pos) (c + 1) bad d1 =
      (Ok (advance g pos (zlen (it :: items)), c + zlen (it :: items), bad), write_events (home_events items) d1)).
  { intros d1 ->. rewrite IH, advance_next, zlen_cons by (apply zlen_nonneg || done || 
      (eapply Forall_impl; [exact Ho|]; intros; by apply home_ok_events) ||
      (apply log_holds_frame; [by eapply home_event_frame|done])).
    rewrite (Z.add_comm (zlen items)). by replace (c + 1 + zlen items) with (c + (1 + zlen items)) by lia. }
  unfold home_event in *. destruct (suppresses rv (dt_blocknr it.1) tid) eqn:Es.
  - rewrite write_events_nil in *. by apply Hfin.
  - unfold get, lift. unfold mbind at 1 2, M_bind at 1 2. rewrite Hr.
    unfold item_csum_ok in Hci. destruct Hoi as (Hb & [old Hold] & Hn).
    assert (match csum_seed g with Some s => negb (verify_data_csum it.1 s tid it.2) | None => false end = false) as ->
      by (destruct (csum_seed g); [by rewrite Hci|done]).
    rewrite (bind_ok _ _ _ _ _ (dev_write_events d _ (unescape it.1 it.2) old Hh Hb Hold)). by apply Hfin.
Qed.

Lemma bind_guard {A} b e (f : M device A) d : b = true -> (guard b e ;; f) d = f d.
Proof. by intros ->. Qed.

Lemma home_events_frame d items :
  Forall (home_ok d) items ->
  Forall (fun e => forall b, event_block e = Some b -> b ∉ block_map g) (home_events items).
Proof.
  induction 1 as [|it items Hi _ IH]; [constructor|]. cbn [home_events flat_map]. apply Forall_app. split; [|done].
  by eapply home_event_frame.
Qed.

Lemma home_events_app i1 i2 : home_events (i1 ++ i2) = home_events i1 ++ home_events i2.
Proof. apply flat_map_app. Qed.

Lemma apply_segs d segs fuel pos c :
  healthy d -> Forall (seg_valid g tid) segs -> Forall (home_ok d) (chain_items segs) ->
  log_holds g d pos (chain_blocks segs) -> c + segs_len segs <= maxlen g ->
  apply_loop (length segs + fuel) g tid rv pos c false d =
    apply_loop fuel g tid rv (advance g pos (segs_len segs)) (c + segs_len segs) false
      (write_events (home_events (chain_items segs)) d).
Proof.
  revert d pos c. induction segs as [|s segs IH]; intros d pos c Hh Hv Ho Hl Hlen.
  { cbn. rewrite Z.add_0_r, write_events_nil. done. }
  apply Forall_cons in Hv as [Hs Hv]. rewrite segs_len_cons in *.
  change (chain_blocks (s :: segs)) with (seg_blocks s ++ chain_blocks segs) in Hl.
  apply log_holds_app in Hl as [Hl1 Hl2]. rewrite zlen_seg_blocks in Hl2.
  pose proof (segs_len_ge segs). pose proof (zlen_nonneg segs). pose proof (seg_len_pos s).
  replace (c + (seg_len s + segs_len segs)) with (c + seg_len s + segs_len segs) by lia.
  rewrite <- advance_add by lia. cbn [length Nat.add apply_loop]. cbn [chain_items flat_map] in *.
  unfold get, lift. unfold mbind at 1 2, M_bind at 1 2.
  destruct s as [blk bids|desc items]; destruct Hl1 as [Hr Hl1]; rewrite Hr.
  - destruct Hs as (Hh' & _ & _). chain_block Hh'. rewrite !bind_guard by done. cbn [seg_len app] in *.
    rewrite bind_guard by by rewrite ltb_false by lia. by apply IH; [..|lia].
  - destruct Hs as (Hh' & Ht & Hw & Hc). apply Forall_app in Ho as [Ho1 Ho2]. fold (chain_items segs) in *.
    chain_block Hh'. change (BLOCKTYPE_DESCRIPTOR =? BLOCKTYPE_DESCRIPTOR) with true.
    rewrite !bind_guard by done. rewrite Hw.
    rewrite (bind_ok _ _ _ _ _ (apply_tags_ok d items pos c false Hh Hc Ho1 Hl1)). cbn [seg_len] in *.
    rewrite advance_run. replace (c + zlen items + 1) with (c + (1 + zlen items)) by lia.
    rewrite bind_guard by by rewrite ltb_false by lia. rewrite home_events_app, write_events_app.
    apply IH; [done|done| |apply log_holds_frame; [by eapply home_events_frame|done]|lia].
    eapply Forall_impl; [exact Ho2|]. intros. by apply home_ok_events.
Qed.

(** Applying a valid chain writes home exactly its unsuppressed images, in order. *)
Lemma apply_log_transaction_ok d segs cb pos :
  healthy d -> Forall (seg_valid g tid) segs -> commit_valid g tid cb ->
  Forall (home_ok d) (chain_items segs) -> segs_len segs <= maxlen g ->
  log_holds g d pos (chain_blocks segs ++ [cb]) ->
  apply_log_transaction g pos tid rv d =
    (Ok (advance g pos (segs_len segs + 1)), write_events (home_events (chain_items segs)) d).
Proof.
  intros Hh Hv [Hh' _] Ho Hlen Hl. apply log_holds_app in Hl as [Hl Hcb]. rewrite zlen_chain_blocks in Hcb.
  unfold apply_log_transaction. destruct (chain_fuel g segs Hlen) as [f ->].
  rewrite apply_segs by (done || lia). cbn [apply_loop]. unfold get, lift. unfold mbind at 1 2, M_bind at 1 2.
  rewrite read_log_frame by by eapply home_events_frame. destruct Hcb as [-> _].
  chain_block Hh'. rewrite !bind_guard by done. cbn [mret M_ret]. rewrite advance_succ; [done|].
  pose proof (segs_len_ge segs). pose proof (zlen_nonneg segs). lia.
Qed.
End Apply.
