(* ===== verification/LogModel.v ===== *)
(** * The log as a list of transactions

    What the readers of [LogWalk] see, lifted to the whole log: a list of
    complete chains with consecutive transaction counters, and what such a
    log means for a home block.  Counters are unbounded; the code's ids are
    their values modulo 2^32.  The second half relates device histories to
    the log: which log positions a run of writes changes, and which disks a
    crash can leave. *)

From S2P Require Import Prelude Pod JournalFormat JournalTags Device Geometry Revoke LogWalk.

(** ** Logged transactions *)

Record logged : Type := {
  lg_segs : list segment;
  lg_commit : list byte;
}.

Definition lg_len (x : logged) : Z := segs_len (lg_segs x) + 1.
Definition lg_blocks (x : logged) : list (list byte) := chain_blocks (lg_segs x) ++ [lg_commit x].
Definition log_len (xs : list logged) : Z := foldr (fun x n => lg_len x + n) 0 xs.

Definition logged_valid (g : JournalGeometry) (n : Z) (x : logged) : Prop :=
  Forall (seg_valid g (u32 n)) (lg_segs x) /\ commit_valid g (u32 n) (lg_commit x).

(** From [pos] on, the log holds the transactions [n], [n+1], ... *)
Fixpoint log_contains (g : JournalGeometry) (d : device) (pos n : Z) (xs : list logged) : Prop :=
  match xs with
  | [] => True
  | x :: rest => logged_valid g n x /\ log_holds g d pos (lg_blocks x) /\
                 log_contains g d (advance g pos (lg_len x)) (n + 1) rest
  end.

(** The image an item restores to its home block. *)
Definition home_image (it : DescriptorTag * list byte) : Z * list byte := (dt_blocknr it.1, unescape it.1 it.2).

Definition images (x : logged) : list (Z * list byte) := map home_image (chain_items (lg_segs x)).
Definition revokes (x : logged) : list Z := chain_bids (lg_segs x).

(** The last image a transaction has of a block. *)
Definition image (x : logged) (b : Z) : option (list byte) := (list_to_map (rev (images x)) : gmap Z (list byte)) !! b.

Definition or_else {A} (o p : option A) : option A := match o with Some _ => o | None => p end.

(** What the log says of a home block: the newest image no later revoke
    cancels. *)
Definition log_image (xs : list logged) (b : Z) : option (list byte) :=
  fold_left (fun acc x => if decide (b ∈ revokes x) then None else or_else (image x b) acc) xs None.

(** The block as recovery leaves it. *)
Definition contents (disk : gmap Z (list byte)) (xs : list logged) (b : Z) : option (list byte) :=
  or_else (log_image xs b) (disk !! b).

(** ** What the passes compute *)

Fixpoint table_of (t : RevokeTable) (n : Z) (xs : list logged) : RevokeTable :=
  match xs with
  | [] => t
  | x :: rest => table_of (record_all t (revokes x) (u32 n)) (n + 1) rest
  end.

Fixpoint replay_events (rv : RevokeTable) (n : Z) (xs : list logged) : list event :=
  match xs with
  | [] => []
  | x :: rest => home_events (u32 n) rv (chain_items (lg_segs x)) ++ replay_events rv (n + 1) rest
  end.

(** ** Lemmas: lengths *)

Lemma lg_len_pos x : 1 <= lg_len x.
Proof. unfold lg_len. pose proof (segs_len_ge (lg_segs x)). pose proof (zlen_nonneg (lg_segs x)). lia. Qed.

Lemma zlen_lg_blocks x : zlen (lg_blocks x) = lg_len x.
Proof. unfold lg_blocks, lg_len. by rewrite zlen_app, zlen_chain_blocks. Qed.

Lemma log_len_cons x xs : log_len (x :: xs) = lg_len x + log_len xs.
Proof. done. Qed.

Lemma log_len_app xs ys : log_len (xs ++ ys) = log_len xs + log_len ys.
Proof. induction xs as [|x xs IH]; [done|]. cbn [app]. rewrite !log_len_cons, IH. lia. Qed.

Lemma log_len_ge xs : zlen xs <= log_len xs.
Proof. induction xs as [|x xs IH]; [done|]. rewrite log_len_cons, zlen_cons. pose proof (lg_len_pos x). lia. Qed.

Lemma log_contains_app g d pos n xs ys :
  log_contains g d pos n (xs ++ ys) <->
  log_contains g d pos n xs /\ log_contains g d (advance g pos (log_len xs)) (n + zlen xs) ys.
Proof.
  revert pos n. induction xs as [|x xs IH]; intros pos n; cbn [app log_contains].
  - rewrite advance_0, zlen_nil, Z.add_0_r. naive_solver.
  - rewrite IH, log_len_cons, zlen_cons. pose proof (log_len_ge xs). pose proof (zlen_nonneg xs). pose proof (lg_len_pos x).
    rewrite advance_add by lia. replace (n + 1 + zlen xs) with (n + (1 + zlen xs)) by lia. tauto.
Qed.

(** ** Lemmas: the meaning of a log *)

Lemma or_else_assoc {A} (a b c : option A) : or_else (or_else a b) c = or_else a (or_else b c).
Proof. by destruct a. Qed.

(** Writing a list of images in order: the last one of a block stays. *)
Definition image_writes (l : list (Z * list byte)) : list event := map (fun e => EvWrite e.1 e.2) l.

Lemma image_writes_lookup l disk b :
  apply_events (image_writes l) disk !! b = or_else ((list_to_map (rev l) : gmap Z (list byte)) !! b) (disk !! b).
Proof.
  unfold image_writes. induction l as [|[b0 i0] l IH] using rev_ind; [done|].
  rewrite map_app, apply_events_app, rev_app_distr. cbn [map rev app list_to_map foldr apply_events fold_left apply_event fst snd].
  destruct (decide (b = b0)) as [->|Hne]; [by rewrite !lookup_insert_eq|]. by rewrite !lookup_insert_ne.
Qed.

Lemma home_events_lookup t rv items disk b :
  apply_events (home_events t rv items) disk !! b =
    if suppresses rv b t then disk !! b
    else or_else ((list_to_map (rev (map home_image items)) : gmap Z (list byte)) !! b) (disk !! b).
Proof.
  revert disk. induction items as [|it items IH] using rev_ind; intros disk; [by destruct (suppresses rv b t)|].
  rewrite home_events_app, apply_events_app, map_app, rev_app_distr.
  cbn [home_events flat_map map rev app list_to_map foldr]. rewrite app_nil_r. unfold home_event, home_image. cbn [fst snd].
  destruct (decide (b = dt_blocknr it.1)) as [->|Hne].
  - destruct (suppresses rv (dt_blocknr it.1) t) eqn:E; cbn [apply_events fold_left apply_event]; [by rewrite IH|].
    by rewrite !lookup_insert_eq.
  - rewrite (lookup_insert_ne (M := gmap Z)) by done.
    destruct (suppresses rv (dt_blocknr it.1) t); cbn [apply_events fold_left apply_event]; [|rewrite lookup_insert_ne by done]; apply IH.
Qed.

(** The newest revoke of a block. *)
Fixpoint last_revoke (n : Z) (xs : list logged) (b : Z) (acc : option Z) : option Z :=
  match xs with
  | [] => acc
  | x :: rest => last_revoke (n + 1) rest b (if decide (b ∈ revokes x) then Some n else acc)
  end.

Lemma last_revoke_app n xs ys b acc :
  last_revoke n (xs ++ ys) b acc = last_revoke (n + zlen xs) ys b (last_revoke n xs b acc).
Proof.
  revert n acc. induction xs as [|x xs IH]; intros n acc; cbn [app last_revoke].
  - by rewrite zlen_nil, Z.add_0_r.
  - rewrite IH, zlen_cons. by replace (n + 1 + zlen xs) with (n + (1 + zlen xs)) by lia.
Qed.

Lemma last_revoke_bound n xs b acc m :
  last_revoke n xs b acc = Some m -> acc = Some m \/ n <= m < n + zlen xs.
Proof.
  revert n acc. induction xs as [|x xs IH]; intros n acc; cbn [last_revoke]; [by left|].
  rewrite zlen_cons. pose proof (zlen_nonneg xs). intros [E|]%IH; [|lia]. case_decide; [|by left]. injection E as ->. lia.
Qed.

(** The table the code builds knows the newest revoke of every block. *)
Lemma table_of_sim lo n xs t a :
  table_sim lo a t -> map_Forall (fun _ m => m < n) a -> lo <= n -> n + zlen xs <= lo + 2 ^ 31 ->
  exists a', table_sim lo a' (table_of t n xs) /\ map_Forall (fun _ m => m < n + zlen xs) a' /\
    forall b, a' !! b = last_revoke n xs b (a !! b).
Proof.
  revert n t a. induction xs as [|x xs IH]; intros n t a Hs Ha Hlo Hhi; cbn [table_of last_revoke].
  - exists a. rewrite zlen_nil, Z.add_0_r. done.
  - rewrite zlen_cons in *. pose proof (zlen_nonneg xs).
    assert (forall b, arecord_all a (revokes x) n !! b = if decide (b ∈ revokes x) then Some n else a !! b) as Hl.
    { intros b. rewrite lookup_arecord_all. case_decide; [|done]. destruct (a !! b) as [m|] eqn:E; [|done].
      specialize (Ha _ _ E). cbn in Ha. f_equal. lia. }
    destruct (IH (n + 1) (record_all t (revokes x) (u32 n)) (arecord_all a (revokes x) n)) as (a' & Hs' & Ha' & Hb).
    + apply table_sim_record_all; [done|]. unfold in_window. lia.
    + intros b m. rewrite Hl. case_decide; [intros [= <-]; lia|]. intros E. specialize (Ha _ _ E). cbn in Ha. lia.
    + lia.
    + lia.
    + exists a'. replace (n + (1 + zlen xs)) with (n + 1 + zlen xs) by lia. split_and!; [done..|].
      intros b. by rewrite Hb, Hl.
Qed.

(** What replaying does to one block, given the newest revoke the table knows. *)
Fixpoint replay_at (r : option Z) (n : Z) (xs : list logged) (b : Z) (acc : option (list byte)) : option (list byte) :=
  match xs with
  | [] => acc
  | x :: rest =>
      replay_at r (n + 1) rest b
        (if match r with Some m => n <=? m | None => false end then acc else or_else (image x b) acc)
  end.

Lemma replay_at_app r n xs ys b acc :
  replay_at r n (xs ++ ys) b acc = replay_at r (n + zlen xs) ys b (replay_at r n xs b acc).
Proof.
  revert n acc. induction xs as [|x xs IH]; intros n acc; cbn [app replay_at].
  - by rewrite zlen_nil, Z.add_0_r.
  - rewrite IH, zlen_cons. by replace (n + 1 + zlen xs) with (n + (1 + zlen xs)) by lia.
Qed.

Lemma replay_at_suppressed m n xs b acc : n + zlen xs <= m + 1 -> replay_at (Some m) n xs b acc = acc.
Proof.
  revert n acc. induction xs as [|x xs IH]; intros n acc H; [done|]. rewrite zlen_cons in H. cbn [replay_at].
  pose proof (zlen_nonneg xs). rewrite (proj2 (Z.leb_le n m)) by lia. apply IH. lia.
Qed.

Lemma replay_lookup lo a t n xs disk b :
  table_sim lo a t -> lo <= n -> n + zlen xs <= lo + 2 ^ 31 ->
  apply_events (replay_events t n xs) disk !! b = replay_at (a !! b) n xs b (disk !! b).
Proof.
  intros Hs. revert n disk. induction xs as [|x xs IH]; intros n disk Hlo Hhi; [done|]. rewrite zlen_cons in Hhi.
  pose proof (zlen_nonneg xs). cbn [replay_events replay_at]. rewrite apply_events_app, IH by lia. f_equal.
  rewrite home_events_lookup, (table_sim_suppresses lo a) by (done || unfold in_window; lia). done.
Qed.

Lemma log_image_snoc xs x b :
  log_image (xs ++ [x]) b = if decide (b ∈ revokes x) then None else or_else (image x b) (log_image xs b).
Proof. unfold log_image. by rewrite fold_left_app. Qed.

(** Replaying a whole log leaves what the log says. *)
Lemma replay_at_whole n xs b acc : replay_at (last_revoke n xs b None) n xs b acc = or_else (log_image xs b) acc.
Proof.
  induction xs as [|x xs IH] using rev_ind; [done|].
  rewrite last_revoke_app, log_image_snoc. cbn [last_revoke]. case_decide as Hr.
  - apply replay_at_suppressed. rewrite zlen_app, zlen_cons, zlen_nil. lia.
  - rewrite replay_at_app, IH. cbn [replay_at].
    destruct (last_revoke n xs b None) as [m|] eqn:E; [|by rewrite or_else_assoc].
    apply last_revoke_bound in E as [E|E]; [done|]. rewrite (proj2 (Z.leb_gt _ _)) by lia. by rewrite or_else_assoc.
Qed.

Definition revoked_in (xs : list logged) (b : Z) : bool := existsb (fun x => bool_decide (b ∈ revokes x)) xs.

Lemma last_revoke_in n xs b acc :
  if revoked_in xs b then exists m, last_revoke n xs b acc = Some m /\ n <= m < n + zlen xs
  else last_revoke n xs b acc = acc.
Proof.
  revert n acc. induction xs as [|x xs IH]; intros n acc; [done|]. cbn [revoked_in existsb last_revoke].
  fold (revoked_in xs b). rewrite zlen_cons. pose proof (zlen_nonneg xs).
  specialize (IH (n + 1) (if decide (b ∈ revokes x) then Some n else acc)).
  case_bool_decide as Hx; cbn [orb].
  - rewrite decide_True in * by done. destruct (revoked_in xs b); [|exists n; split; [done|lia]].
    destruct IH as (m & ? & ?). exists m. split; [done|lia].
  - rewrite decide_False in * by done. destruct (revoked_in xs b); [|done].
    destruct IH as (m & ? & ?). exists m. split; [done|lia].
Qed.

Lemma log_image_app xs ys b :
  log_image (xs ++ ys) b = if revoked_in ys b then log_image ys b else or_else (log_image ys b) (log_image xs b).
Proof.
  induction ys as [|y ys IH] using rev_ind; [by rewrite app_nil_r|]. rewrite app_assoc, !log_image_snoc.
  unfold revoked_in. rewrite existsb_app. fold (revoked_in ys b). cbn [existsb]. rewrite orb_false_r.
  case_decide as Hy; [by rewrite bool_decide_true, orb_true_r|]. rewrite bool_decide_false, orb_false_r by done.
  rewrite IH. destruct (revoked_in ys b); [done|]. by rewrite or_else_assoc.
Qed.

(** Replaying a prefix under the table of the whole log spares the blocks a
    later transaction revokes. *)
Lemma replay_prefix n xs ys disk b :
  zlen (xs ++ ys) <= 2 ^ 31 ->
  apply_events (replay_events (table_of table_new n (xs ++ ys)) n xs) disk !! b =
    if revoked_in ys b then disk !! b else contents disk xs b.
Proof.
  intros Hlen. rewrite zlen_app in Hlen. pose proof (zlen_nonneg xs). pose proof (zlen_nonneg ys).
  destruct (table_of_sim n n (xs ++ ys) table_new ∅ (table_sim_new n)) as (a & Hs & _ & Hb);
    [apply map_Forall_empty|lia|rewrite zlen_app; lia|].
  rewrite (replay_lookup n a) by (done || lia). rewrite Hb, lookup_empty, last_revoke_app.
  pose proof (last_revoke_in (n + zlen xs) ys b (last_revoke n xs b None)) as Hr. destruct (revoked_in ys b).
  - destruct Hr as (m & -> & Hm). by apply replay_at_suppressed; lia.
  - rewrite Hr. apply replay_at_whole.
Qed.

(** Applying a prefix of the log home does not change what the log means. *)
Lemma contents_prefix n xs ys disk disk' b :
  zlen (xs ++ ys) <= 2 ^ 31 ->
  disk' !! b = apply_events (replay_events (table_of table_new n (xs ++ ys)) n xs) disk !! b ->
  contents disk' ys b = contents disk (xs ++ ys) b.
Proof.
  intros Hlen E. unfold contents at 1. rewrite E, replay_prefix by done. unfold contents. rewrite log_image_app.
  destruct (revoked_in ys b); [done|]. by rewrite or_else_assoc.
Qed.

(** Nor does any part of those writes: they only touch blocks the log
    determines anyway. *)
Lemma replay_touches n xs ys b data :
  zlen (xs ++ ys) <= 2 ^ 31 ->
  EvWrite b data ∈ replay_events (table_of table_new n (xs ++ ys)) n xs -> is_Some (log_image (xs ++ ys) b).
Proof.
  intros Hlen Hin.
  assert (forall disk, apply_events (replay_events (table_of table_new n (xs ++ ys)) n xs) disk !! b <> None) as Hne.
  { intros disk. apply list_elem_of_split in Hin as (l1 & l2 & ->). rewrite apply_events_app.
    change (apply_events (EvWrite b data :: l2) ?d) with (apply_events l2 (<[b := data]> d)).
    destruct (apply_events_is_Some l2 (<[b := data]> (apply_events l1 disk)) b) as [? ->]; [by rewrite lookup_insert_eq|done]. }
  specialize (Hne ∅). rewrite replay_prefix in Hne by done. unfold contents in Hne. rewrite lookup_empty in Hne.
  rewrite log_image_app. destruct (revoked_in ys b); [done|]. destruct (log_image ys b); [by eexists|].
  cbn. by destruct (log_image xs b); [eexists|].
Qed.

(** ** Lemmas: crashes *)

(** A flush cuts a history in two: a crash before it loses the second part, a
    crash after it has the first part in full. *)
Lemma crash_cut disk0 h1 h2 c :
  crash_disk disk0 (h1 ++ EvFlush :: h2) c -> crash_disk disk0 h1 c \/ crash_disk (apply_events h1 disk0) h2 c.
Proof.
  inversion 1 as [durable pending lost kept Eh Hd Hp Hk]; subst c.
  destruct (decide (length durable <= length h1)%nat) as [Hle|Hgt].
  - left. assert (exists rest, h1 = durable ++ rest /\ pending ++ lost = rest ++ EvFlush :: h2) as (rest & -> & E2).
    { symmetry in Eh. apply app_eq_inv in Eh as [(k & E1 & E2)|(k & E1 & E2)].
      - subst durable. rewrite length_app in Hle. destruct k; [|cbn in Hle; lia]. exists []. by rewrite !app_nil_r in *.
      - by exists k. }
    symmetry in E2. apply app_eq_inv in E2 as [(k & E3 & E4)|(k & E3 & E4)].
    + subst rest. by apply (CrashDisk _ _ durable pending k kept).
    + destruct k as [|e k]; [rewrite app_nil_r in E3; subst pending; by apply (CrashDisk _ _ durable rest [] kept); [rewrite app_nil_r| | |]|].
      injection E4 as <- _. subst pending. apply Forall_app in Hp as [_ Hp]. by apply Forall_cons in Hp as [Hp _].
  - right. apply app_eq_inv in Eh as [(k & E1 & E2)|(k & E1 & E2)].
    + exfalso. rewrite E1, length_app in Hgt. lia.
    + destruct k as [|e k]; [rewrite app_nil_r in E1; subst; lia|]. injection E2 as <- E2. subst durable.
      rewrite apply_events_app. cbn [apply_events fold_left apply_event]. apply (CrashDisk _ _ k pending lost kept); [done| |done|done].
      destruct Hd as [Hd|[d0 Hd]]; [by destruct h1|].
      destruct k as [|e0 k] using rev_ind; [by left|right]. exists k.
      rewrite app_comm_cons, app_assoc in Hd. apply app_inj_tail in Hd as [_ ->]. done.
Qed.

(** Without a flush, any subset of the writes may have reached the medium. *)
Lemma crash_unflushed disk0 h c :
  Forall (fun e => is_flush e = false) h -> crash_disk disk0 h c -> exists kept, sublist kept h /\ c = apply_events kept disk0.
Proof.
  intros Hf [durable pending lost kept Eh Hd Hp Hk]. destruct Hd as [->|[d0 ->]].
  - exists kept. split; [|done]. rewrite Eh. cbn [app]. by apply sublist_inserts_r.
  - exfalso. subst h. rewrite <- app_assoc in Hf. apply Forall_app in Hf as [_ Hf]. by apply Forall_cons in Hf as [Hf _].
Qed.

(** A crash changes only blocks the history wrote. *)
(** Losing nothing is one of the crashes. *)
Lemma crash_final disk0 h : crash_disk disk0 h (apply_events h disk0).
Proof.
  assert (exists d p, h = d ++ p /\ (d = [] \/ exists d', d = d' ++ [EvFlush]) /\ Forall (fun e => is_flush e = false) p)
    as (d & p & -> & Hd & Hp).
  { induction h as [|e h IH] using rev_ind; [exists [], []; eauto|]. destruct IH as (d & p & -> & Hd & Hp). destruct e as [b data|].
    - exists d, (p ++ [EvWrite b data]). rewrite app_assoc. split_and!; [done|done|]. apply Forall_app. by repeat constructor.
    - exists ((d ++ p) ++ [EvFlush]), []. rewrite app_nil_r. eauto. }
  rewrite apply_events_app. apply (CrashDisk _ _ d p [] p); [by rewrite app_nil_r|done|done|done].
Qed.

Lemma crash_nothing disk c : crash_disk disk [] c -> c = disk.
Proof. intros (kept & Hk & ->)%crash_unflushed; [|constructor]. apply sublist_nil_r in Hk. by subst. Qed.

(** One durable write: it is there or not. *)
Lemma crash_single disk p blk c : crash_disk disk [EvWrite p blk; EvFlush] c -> c = disk \/ c = <[p := blk]> disk.
Proof.
  intros Hc. apply (crash_cut _ [EvWrite p blk] []) in Hc as [Hc|Hc].
  - apply crash_unflushed in Hc as (kept & Hk & ->); [|by repeat constructor].
    apply sublist_cons_r in Hk as [Hk|(k & -> & Hk)]; apply sublist_nil_r in Hk; subst; [by left|by right].
  - apply crash_nothing in Hc. by right.
Qed.

(** A failure in a history whose first part is flushed. *)
Lemma crash_app disk h1 h2 c :
  h1 = [] \/ (exists h0, h1 = h0 ++ [EvFlush]) -> crash_disk disk (h1 ++ h2) c ->
  crash_disk disk h1 c \/ crash_disk (apply_events h1 disk) h2 c.
Proof.
  intros [-> | [h0 ->]] Hc; [by right|]. rewrite <- app_assoc in Hc. apply crash_cut in Hc as [[du pe lo ke -> Hd Hp Hk]|Hc].
  - left. apply (CrashDisk _ _ du pe (lo ++ [EvFlush]) ke); [by rewrite <- !app_assoc|done..].
  - right. by rewrite apply_events_app.
Qed.

Lemma crash_frame disk0 h c b :
  crash_disk disk0 h c -> Forall (fun e => event_block e <> Some b) h -> c !! b = disk0 !! b.
Proof.
  intros [durable pending lost kept Eh _ _ Hk] Hf. subst h. apply Forall_app in Hf as [Hf1 Hf2]. apply Forall_app in Hf2 as [Hf2 _].
  rewrite !lookup_apply_events_other; [done..|].
  apply Forall_forall. intros e He. by apply (proj1 (Forall_forall _ _) Hf2), (elem_of_sublist kept).
Qed.

(** Writes that agree on every block leave what they wrote. *)
Lemma apply_events_functional evs disk b data :
  (forall x d1 d2, EvWrite x d1 ∈ evs -> EvWrite x d2 ∈ evs -> d1 = d2) ->
  EvWrite b data ∈ evs -> apply_events evs disk !! b = Some data.
Proof.
  induction evs as [|e evs IH] using rev_ind; intros Hf Hin; [by apply not_elem_of_nil in Hin|].
  rewrite apply_events_app. change (apply_events [e] ?d) with (apply_event d e).
  destruct (decide (event_block e = Some b)) as [E|E].
  - destruct e as [b' data'|]; [|done]. cbn in E. injection E as ->. cbn [apply_event].
    rewrite lookup_insert_eq. f_equal. apply (Hf b); set_solver.
  - assert (EvWrite b data ∈ evs) as Hin'.
    { apply elem_of_app in Hin as [Hin|Hin%list_elem_of_singleton]; [done|]. by subst e. }
    assert (apply_event (apply_events evs disk) e !! b = apply_events evs disk !! b) as ->.
    { destruct e; [|done]. cbn in *. apply lookup_insert_ne. congruence. }
    apply IH; [|done]. intros x d1 d2 H1 H2. apply (Hf x); set_solver.
Qed.

(** ** Lemmas: writing the log *)

(** The writes that put blocks at consecutive log positions. *)
Fixpoint log_writes (g : JournalGeometry) (pos : Z) (blks : list (list byte)) : list event :=
  match blks with
  | [] => []
  | b :: rest =>
      match log_block_to_physical g pos with Some p => [EvWrite p b] | None => [] end ++
      log_writes g (next_log_block g pos) rest
  end.

Section Positions.
Context (g : JournalGeometry) (Hg : geometry_ok g) (Hm : map_ok g).

(** Every position of the ring, and the superblock's, has its own block. *)
Lemma phys_inj p q x : log_block_to_physical g p = Some x -> log_block_to_physical g q = Some x -> 0 <= p -> 0 <= q -> p = q.
Proof.
  unfold log_block_to_physical. intros H1 H2 Hp Hq. pose proof (NoDup_lookup _ _ _ _ (map_nodup g Hm) H1 H2). lia.
Qed.

Lemma phys_ring p : in_ring g p -> exists x, log_block_to_physical g p = Some x /\ x ∈ block_map g /\ bid_ok x.
Proof.
  intros Hp. destruct (log_mapped g Hg p) as [x Hx]; [pose proof (geo_first g Hg); unfold in_ring in *; lia|].
  exists x. split; [done|]. apply list_elem_of_lookup_2 in Hx. split; [done|].
  by apply (proj1 (Forall_forall _ _) (map_bids g Hm)).
Qed.

Lemma read_log_disk d p x :
  (forall b, d_rd d b = true) -> log_block_to_physical g p = Some x -> bid_ok x ->
  read_log_block g d p = match d_disk d !! x with Some blk => Ok blk | None => Err EIO end.
Proof. intros Hr Hx Hb. unfold read_log_block. rewrite Hx. unfold dev_read. by rewrite block_of_to_offset, Hr by done. Qed.

Lemma log_writes_app pos b1 b2 :
  log_writes g pos (b1 ++ b2) = log_writes g pos b1 ++ log_writes g (advance g pos (zlen b1)) b2.
Proof.
  revert pos. induction b1 as [|b b1 IH]; intros pos; cbn [app log_writes]; [by rewrite advance_0|].
  rewrite IH, zlen_cons, Z.add_comm, advance_next by apply zlen_nonneg. by rewrite app_assoc.
Qed.

(** The events are exactly the writes of [blks !! i] at position [pos + i]. *)
Lemma elem_of_log_writes pos blks e :
  in_ring g pos ->
  e ∈ log_writes g pos blks <->
  exists i b x, blks !! i = Some b /\ log_block_to_physical g (advance g pos (Z.of_nat i)) = Some x /\ e = EvWrite x b.
Proof.
  intros Hp. revert pos Hp. induction blks as [|b blks IH]; intros pos Hp; cbn [log_writes].
  { split; [by intros ?%not_elem_of_nil|]. by intros (i & b & x & H & _). }
  destruct (phys_ring pos Hp) as (x0 & Hx0 & _ & _). rewrite Hx0, elem_of_app, list_elem_of_singleton, IH by by apply next_in_ring.
  split.
  - intros [->|(i & b' & x & H1 & H2 & ->)]; [by exists 0%nat, b, x0|]. exists (S i), b', x. split_and!; [done| |done].
    rewrite advance_next in H2 by lia. by replace (Z.of_nat (S i)) with (Z.of_nat i + 1) by lia.
  - intros ([|i] & b' & x & H1 & H2 & ->).
    + left. cbn in H1. injection H1 as <-. rewrite advance_0 in H2. congruence.
    + right. exists i, b', x. split_and!; [done| |done]. rewrite advance_next by lia.
      by replace (Z.of_nat i + 1) with (Z.of_nat (S i)) by lia.
Qed.

Lemma log_writes_no_flush pos blks : Forall (fun e => is_flush e = false) (log_writes g pos blks).
Proof.
  revert pos. induction blks as [|b blks IH]; intros pos; cbn [log_writes]; [constructor|].
  apply Forall_app. split; [|apply IH]. case_match; by repeat constructor.
Qed.

(** Distinct positions: no block is written twice. *)
Lemma log_writes_functional pos blks b d1 d2 :
  in_ring g pos -> zlen blks <= ring g ->
  EvWrite b d1 ∈ log_writes g pos blks -> EvWrite b d2 ∈ log_writes g pos blks -> d1 = d2.
Proof.
  intros Hp Hl (i & b1 & x & Hi & Hx & [= -> ->])%elem_of_log_writes (j & b2 & y & Hj & Hy & [= -> ->])%elem_of_log_writes;
    [|done..].
  pose proof (lookup_lt_Some _ _ _ Hi). pose proof (lookup_lt_Some _ _ _ Hj). unfold zlen in Hl.
  assert (advance g pos (Z.of_nat i) = advance g pos (Z.of_nat j)) as E.
  { eapply phys_inj; [exact Hx|exact Hy|..]; pose proof (geo_first g Hg);
      [pose proof (advance_in_ring g Hg pos (Z.of_nat i) Hp)|pose proof (advance_in_ring g Hg pos (Z.of_nat j) Hp)];
      unfold in_ring in *; lia. }
  apply (advance_inj g Hg) in E; [|done|lia..]. assert (i = j) as -> by lia. congruence.
Qed.

(** What a subset of those writes leaves: each of the positions has its new
    block if it was written and its old one if not; nothing else changes. *)
Lemma kept_log_writes pos blks kept disk :
  in_ring g pos -> zlen blks <= ring g -> sublist kept (log_writes g pos blks) ->
  (forall i b x, blks !! i = Some b -> log_block_to_physical g (advance g pos (Z.of_nat i)) = Some x ->
     (EvWrite x b ∈ kept -> apply_events kept disk !! x = Some b) /\
     (EvWrite x b ∉ kept -> apply_events kept disk !! x = disk !! x)) /\
  (forall x, (forall i, (i < length blks)%nat -> log_block_to_physical g (advance g pos (Z.of_nat i)) <> Some x) ->
     apply_events kept disk !! x = disk !! x).
Proof.
  intros Hp Hl Hk.
  assert (forall x b, EvWrite x b ∈ kept -> EvWrite x b ∈ log_writes g pos blks) as Hin by (intros; by eapply elem_of_sublist).
  split.
  - intros i b x Hi Hx. split.
    + intros He. apply apply_events_functional; [|done]. intros y d1 d2 H1%Hin H2%Hin. by eapply log_writes_functional.
    + intros He. apply lookup_apply_events_other, Forall_forall. intros [x' b'|] Hev; [|done]. cbn. intros [= ->].
      apply He. replace b with b'; [done|]. apply Hin in Hev. eapply log_writes_functional; [exact Hp|exact Hl|exact Hev|].
      apply elem_of_log_writes; [done|]. by exists i, b, x.
  - intros x Hx. apply lookup_apply_events_other, Forall_forall. intros [x' b'|] Hev; [|done]. cbn. intros [= ->].
    apply Hin, elem_of_log_writes in Hev as (i & b & y & Hi & Hy & [= -> ->]); [|done].
    apply (Hx i); [by eapply lookup_lt_Some|done].
Qed.
End Positions.
