(* ===== verification/LogInv.v ===== *)
(** * The invariant of the on-disk log

    What holds of the journal's blocks between operations: where the live
    log is, that it consists of complete chains of consecutive
    transactions, what the superblock says of it, and that nothing else in
    the ring can be mistaken for the next transaction. *)

From S2P Require Import Prelude Pod JournalFormat JournalTags Device Geometry Revoke LogWalk LogModel.

(** A block of a transaction before [hi], or no journal block at all. *)
Definition older (lo hi : Z) (blk : list byte) : Prop :=
  h_magic (parse_header blk) = JBD2_MAGIC -> exists m, lo <= m < hi /\ h_sequence (parse_header blk) = u32 m.

(** Writes that spare the journal's own blocks. *)
Definition off_journal (g : JournalGeometry) (evs : list event) : Prop :=
  Forall (fun e => forall b, event_block e = Some b -> b ∉ block_map g) evs.

(** The live log is [xs], the transactions [n], [n+1], ..., from [tail] on;
    a clean journal has no live log.  Every counter that can be found in the
    ring lies in [[lo, lo + 2^32)]. *)
Record log_body (g : JournalGeometry) (lo : Z) (d : device) (tail : option Z) (n : Z) (xs : list logged) : Prop := {
  li_geo : geometry_ok g;
  li_map : map_ok g;
  li_healthy : healthy d;
  li_present : Forall (fun p => exists blk, d_disk d !! p = Some blk /\ is_block blk) (block_map g);
  li_tail : match tail with Some p => in_ring g p | None => xs = [] end;
  li_len : log_len xs <= ring g;
  li_log : match tail with Some p => log_contains g d p n xs | None => True end;
  li_chain : Forall (fun x => lg_segs x <> []) xs;
  li_home : Forall (fun x => Forall (home_ok g d) (chain_items (lg_segs x))) xs;
  li_old : forall p blk, in_ring g p -> read_log_block g d p = Ok blk ->
    older lo (n + zlen xs + 1) blk;
  li_window : lo <= n /\ n + zlen xs + 1 < lo + 2 ^ 32;
}.

(** What the superblock stores for the start of the log. *)
Definition start_of (tail : option Z) : Z := match tail with Some p => p | None => 0 end.

(** A superblock the mount admits, with the shape of [g]. *)
Definition super_of (g : JournalGeometry) (raw : RawJournalSuperblock) : Prop :=
  negb ((h_blocktype (s_header raw) =? BLOCKTYPE_SUPERBLOCK_V2)
        && negb (Z.land (s_feature_incompat raw) (not32 INCOMPAT_SUPP) =? 0)) = true /\
  negb ((h_blocktype (s_header raw) =? BLOCKTYPE_SUPERBLOCK_V2) && negb (s_feature_ro_compat raw =? 0)) = true /\
  exists sb, try_from raw = Ok sb /\ jsb_maxlen sb = maxlen g /\ jsb_first sb = first g /\
    jsb_tag_layout sb = tag_layout g /\ jsb_csum_seed sb = csum_seed g.

Definition super_says (g : JournalGeometry) (d : device) (tail : option Z) (n : Z) : Prop :=
  exists raw, read_raw_superblock g d = Ok raw /\ s_start raw = start_of tail /\ s_sequence raw = u32 n /\ super_of g raw.

(** The log ends where it says: the scan finds no further transaction. *)
Definition log_ends (g : JournalGeometry) (d : device) (tail : option Z) (n : Z) (xs : list logged) : Prop :=
  match tail with
  | Some p => scan_transaction g d (advance g p (log_len xs)) (u32 (n + zlen xs)) = Ok None
  | None => True
  end.

(** Nothing in the ring can be taken for a block of the next transaction. *)
Definition log_fresh (g : JournalGeometry) (lo : Z) (d : device) (tail : option Z) (n : Z) (xs : list logged) : Prop :=
  match tail with
  | Some _ => forall p blk, in_ring g p -> read_log_block g d p = Ok blk -> older lo (n + zlen xs) blk
  | None => True
  end.

(** What recovery needs of a disk. *)
Definition recoverable (g : JournalGeometry) (lo : Z) (d : device) (tail : option Z) (n : Z) (xs : list logged) : Prop :=
  log_body g lo d tail n xs /\ super_says g d tail n /\ log_ends g d tail n xs.

(** What holds between commits. *)
Definition log_inv (g : JournalGeometry) (lo : Z) (d : device) (tail : option Z) (n : Z) (xs : list logged) : Prop :=
  log_body g lo d tail n xs /\ super_says g d tail n /\ log_fresh g lo d tail n xs.

(** ** Lemmas *)

Lemma u32_neq a b : 0 < b - a < 2 ^ 32 -> u32 a <> u32 b.
Proof.
  intros H E. unfold u32, wrap in E.
  assert ((b - a) mod 2 ^ 32 = 0) by (rewrite Zminus_mod, E, Z.sub_diag; done). rewrite Z.mod_small in *; lia.
Qed.

Lemma older_stale lo hi blk : hi - lo < 2 ^ 32 -> older lo hi blk -> stale (u32 hi) blk.
Proof. intros Hw Ho [Hm Hs]. destruct (Ho Hm) as (m & Hm1 & Hm2). rewrite Hm2 in Hs. revert Hs. apply u32_neq. lia. Qed.

Lemma older_mono lo hi hi' blk : hi <= hi' -> older lo hi blk -> older lo hi' blk.
Proof. intros Hh Ho Hm. destruct (Ho Hm) as (m & ? & ?). exists m. split; [lia|done]. Qed.

Lemma log_len_two xs : Forall (fun x => lg_segs x <> []) xs -> 2 * zlen xs <= log_len xs.
Proof.
  induction 1 as [|x xs Hx _ IH]; [done|]. rewrite log_len_cons, zlen_cons. unfold lg_len.
  destruct (lg_segs x) as [|s segs]; [done|]. rewrite segs_len_cons.
  pose proof (seg_len_pos s). pose proof (segs_len_ge segs). pose proof (zlen_nonneg segs). lia.
Qed.

Section Inv.
Context (g : JournalGeometry) (lo : Z) (d : device) (tail : option Z) (n : Z) (xs : list logged).
Context (Hi : log_body g lo d tail n xs).

Lemma super_phys : exists p blk, superblock_block g = Ok p /\ log_block_to_physical g 0 = Some p /\ p ∈ block_map g /\
  bid_ok p /\ d_disk d !! p = Some blk /\ is_block blk.
Proof.
  pose proof (geo_map g (li_geo _ _ _ _ _ _ Hi)) as Hm. pose proof (geo_first g (li_geo _ _ _ _ _ _ Hi)) as Hf.
  unfold superblock_block, log_block_to_physical. destruct (block_map g !! Z.to_nat 0) as [p|] eqn:E.
  - apply list_elem_of_lookup_2 in E as Hin.
    destruct (proj1 (Forall_forall _ _) (li_present _ _ _ _ _ _ Hi) _ Hin) as (blk & Hb & Hblk).
    exists p, blk. split_and!; try done; apply (proj1 (Forall_forall _ _) (map_bids g (li_map _ _ _ _ _ _ Hi)) _ Hin).
  - exfalso. apply lookup_ge_None in E. unfold zlen in Hm. lia.
Qed.

Lemma super_wf raw : read_raw_superblock g d = Ok raw -> c_wf superblock_codec raw.
Proof.
  destruct super_phys as (p & blk & Hs & _ & _ & Hb & Hd & Hblk). unfold read_raw_superblock. rewrite Hs. cbn [rbind].
  unfold dev_read_val. rewrite (dev_read_ok _ _ _ (li_healthy _ _ _ _ _ _ Hi) Hb Hd). cbn [rbind]. intros [= <-].
  unfold is_block in Hblk. by apply (read_at_wf superblock_codec); [|rewrite Hblk].
Qed.

Lemma ring_present p : in_ring g p -> exists x blk, log_block_to_physical g p = Some x /\ x ∈ block_map g /\ bid_ok x /\
  d_disk d !! x = Some blk /\ is_block blk /\ read_log_block g d p = Ok blk.
Proof.
  intros Hp. destruct (phys_ring g (li_geo _ _ _ _ _ _ Hi) (li_map _ _ _ _ _ _ Hi) p Hp) as (x & Hx & Hin & Hb).
  destruct (proj1 (Forall_forall _ _) (li_present _ _ _ _ _ _ Hi) _ Hin) as (blk & Hd & Hblk). exists x, blk.
  split_and!; try done; try apply Hb. rewrite (read_log_disk g d p x) by (done || apply Hi). by rewrite Hd.
Qed.

(** At most half the ring: a transaction has a commit block and one more. *)
Lemma log_count : 0 <= zlen xs < 2 ^ 31.
Proof.
  pose proof (log_len_two xs (li_chain _ _ _ _ _ _ Hi)). pose proof (li_len _ _ _ _ _ _ Hi). pose proof (geo_maxlen g (li_geo _ _ _ _ _ _ Hi)).
  pose proof (geo_first g (li_geo _ _ _ _ _ _ Hi)). pose proof (zlen_nonneg xs). unfold ring, fits in *. lia.
Qed.
End Inv.


(** ** Lemmas: writes off the journal *)

Lemma read_super_frame g d evs :
  map_ok g -> off_journal g evs -> read_raw_superblock g (write_events evs d) = read_raw_superblock g d.
Proof.
  intros Hm He. unfold read_raw_superblock, superblock_block. pose proof (read_log_frame g Hm evs d 0 He) as Hr.
  unfold read_log_block in Hr. destruct (log_block_to_physical g 0); [|done]. cbn [rbind]. unfold dev_read_val. by rewrite Hr.
Qed.

Lemma log_contains_frame g d evs pos n xs :
  map_ok g -> off_journal g evs -> log_contains g d pos n xs -> log_contains g (write_events evs d) pos n xs.
Proof.
  intros Hm He. revert pos n. induction xs as [|x xs IH]; intros pos n; [done|]. intros (H1 & H2 & H3).
  split_and!; [done|by apply log_holds_frame|by apply IH].
Qed.

Lemma off_journal_lookup g evs disk p : off_journal g evs -> p ∈ block_map g -> apply_events evs disk !! p = disk !! p.
Proof. intros He Hp. apply lookup_apply_events_other. eapply Forall_impl; [exact He|]. intros e H E. by apply (H p). Qed.

Lemma home_ok_frame g d d' it : (forall b, is_Some (d_disk d !! b) -> is_Some (d_disk d' !! b)) -> home_ok g d it -> home_ok g d' it.
Proof. intros H (H1 & H2 & H3). split_and!; [done|by apply H|done]. Qed.

Lemma log_body_frame g lo d tail n xs evs :
  log_body g lo d tail n xs -> off_journal g evs -> log_body g lo (write_events evs d) tail n xs.
Proof.
  intros [] He. constructor; try done.
  - eapply Forall_impl; [apply Forall_and; split; [exact li_present0|apply Forall_forall; intros p Hp; exact Hp]|].
    intros p [H Hp]. cbn [d_disk write_events]. by rewrite (off_journal_lookup g).
  - destruct tail; [|done]. by apply log_contains_frame.
  - eapply Forall_impl; [exact li_home0|]. intros x Hx. eapply Forall_impl; [exact Hx|]. intros it. apply home_ok_frame.
    intros b. apply apply_events_is_Some.
  - intros p blk Hp. rewrite read_log_frame by done. by apply li_old0.
Qed.

Lemma super_says_frame g d tail n evs :
  map_ok g -> off_journal g evs -> super_says g d tail n -> super_says g (write_events evs d) tail n.
Proof. intros Hm He. unfold super_says. by rewrite read_super_frame. Qed.

Lemma log_inv_frame g lo d tail n xs evs :
  log_inv g lo d tail n xs -> off_journal g evs -> log_inv g lo (write_events evs d) tail n xs.
Proof.
  intros (Hb & Hs & Hf) He. split_and!; [by apply log_body_frame|apply super_says_frame; [apply Hb|done..]|].
  destruct tail; [|done]. intros q blk Hq. rewrite read_log_frame by (apply Hb || done). by apply Hf.
Qed.

Lemma log_inv_recoverable g lo d tail n xs : log_inv g lo d tail n xs -> recoverable g lo d tail n xs.
Proof.
  intros (Hb & Hs & Hf). split_and!; [done..|]. destruct tail as [p|]; [|done]. cbn.
  pose proof (log_len_ge xs). pose proof (zlen_nonneg xs). pose proof (li_window _ _ _ _ _ _ Hb).
  assert (in_ring g (advance g p (log_len xs))) as Hp by (apply advance_in_ring; [apply Hb|exact (li_tail _ _ _ _ _ _ Hb)|lia]).
  destruct (ring_present _ _ _ _ _ _ Hb _ Hp) as (x & blk & _ & _ & _ & _ & _ & Hr).
  apply (scan_transaction_none g _ d [] blk); [constructor| |done| |].
  - pose proof (geo_first g (li_geo _ _ _ _ _ _ Hb)). cbn. lia.
  - by rewrite advance_0.
  - eapply older_stale; [|by eapply Hf]. lia.
Qed.

(** ** Lemmas: rewriting the superblock *)

(** Blocks that read the same in the ring hold the same log. *)
Lemma log_holds_ext g d d' pos blks :
  geometry_ok g -> (forall p, in_ring g p -> read_log_block g d' p = read_log_block g d p) ->
  in_ring g pos -> log_holds g d pos blks -> log_holds g d' pos blks.
Proof.
  intros Hg He. revert pos. induction blks as [|b blks IH]; intros pos Hp; [done|]. intros [H1 H2].
  split; [by rewrite He|]. apply IH; [by apply next_in_ring|done].
Qed.

Lemma log_contains_ext g d d' pos n xs :
  geometry_ok g -> (forall p, in_ring g p -> read_log_block g d' p = read_log_block g d p) ->
  in_ring g pos -> log_contains g d pos n xs -> log_contains g d' pos n xs.
Proof.
  intros Hg He. revert pos n. induction xs as [|x xs IH]; intros pos n Hp; [done|]. intros (H1 & H2 & H3).
  split_and!; [done|by eapply log_holds_ext|]. apply IH; [|done]. apply advance_in_ring; [done|done|].
  pose proof (lg_len_pos x). lia.
Qed.

Lemma super_write_ring g d p blk q :
  geometry_ok g -> map_ok g -> log_block_to_physical g 0 = Some p -> in_ring g q ->
  read_log_block g (write_events [EvWrite p blk; EvFlush] d) q = read_log_block g d q.
Proof.
  intros Hg Hm Hp Hq. destruct (phys_ring g Hg Hm q Hq) as (x & Hx & _ & Hb). unfold read_log_block. rewrite Hx.
  unfold dev_read. rewrite block_of_to_offset by done.
  cbn [write_events d_rd d_disk apply_events fold_left apply_event]. rewrite lookup_insert_ne; [done|].
  intros ->. pose proof (geo_first g Hg). unfold in_ring in Hq. pose proof (phys_inj g Hm 0 q x Hp Hx). lia.
Qed.

Lemma log_body_super g lo d tail n xs p blk :
  log_body g lo d tail n xs -> log_block_to_physical g 0 = Some p -> is_block blk ->
  log_body g lo (write_events [EvWrite p blk; EvFlush] d) tail n xs.
Proof.
  intros Hi Hp Hblk. pose proof (li_geo _ _ _ _ _ _ Hi) as Hg. pose proof (li_map _ _ _ _ _ _ Hi) as Hm.
  assert (He : forall q, in_ring g q -> read_log_block g (write_events [EvWrite p blk; EvFlush] d) q = read_log_block g d q)
    by (intros; by apply super_write_ring).
  destruct Hi. constructor; try done.
  - eapply Forall_impl; [exact li_present0|]. intros q (b & Hb & Hbl). cbn [d_disk write_events apply_events fold_left apply_event].
    destruct (decide (q = p)) as [->|]; [exists blk; by rewrite lookup_insert_eq|]. exists b. by rewrite lookup_insert_ne.
  - destruct tail; [|done]. by eapply log_contains_ext.
  - eapply Forall_impl; [exact li_home0|]. intros x Hx. eapply Forall_impl; [exact Hx|]. intros it. apply home_ok_frame.
    intros b. apply apply_events_is_Some.
  - intros q b Hq. rewrite He by done. by apply li_old0.
Qed.

(** Writing the superblock switches the journal from one reading of the same
    ring to another. *)
Lemma super_of_restate g raw raw' :
  c_wf superblock_codec raw' -> same_static raw raw' -> super_of g raw -> super_of g (stamp_checksum raw').
Proof.
  intros W Hss (H1 & H2 & sb & Ht & Hsb). pose proof Hss as (E1 & _ & _ & _ & E5 & _ & E7 & _). unfold super_of.
  rewrite (stamp_proj s_header), (stamp_proj s_feature_incompat), (stamp_proj s_feature_ro_compat), E1, E5, E7 by done.
  split_and!; [done|done|]. eexists. split; [by eapply try_from_restate|done].
Qed.

(** Writing a superblock that differs in the log's state only. *)
Lemma super_rewrite g lo d tail n xs raw raw' tail' n' xs' :
  log_body g lo d tail n xs -> read_raw_superblock g d = Ok raw -> super_of g raw -> log_body g lo d tail' n' xs' ->
  c_wf superblock_codec raw' -> same_static raw raw' -> s_start raw' = start_of tail' -> s_sequence raw' = u32 n' ->
  exists p blk, log_block_to_physical g 0 = Some p /\ p ∈ block_map g /\ is_block blk /\
    write_superblock g raw' d = (Ok tt, write_events [EvWrite p blk; EvFlush] d) /\
    log_body g lo (write_events [EvWrite p blk; EvFlush] d) tail' n' xs' /\
    super_says g (write_events [EvWrite p blk; EvFlush] d) tail' n'.
Proof.
  intros Hi Hraw Hsp Hi' Hwf' Hss Hst Hsq. destruct (super_phys _ _ _ _ _ _ Hi) as (p & old & Hs & Hp & Hin & Hb & Hd & Hold).
  assert (Hblk : is_block (write_at superblock_codec 0 (stamp_checksum raw') old)).
  { unfold is_block in *. rewrite (zlen_write_at superblock_codec); [done|done|by rewrite Hold|by apply stamp_checksum_wf]. }
  exists p, (write_at superblock_codec 0 (stamp_checksum raw') old). split_and!; [done|done|done| | |].
  - apply (write_superblock_ok g d raw' p old (li_healthy _ _ _ _ _ _ Hi) Hs Hb Hd).
  - by apply (log_body_super g lo d).
  - exists (stamp_checksum raw'). split.
    + apply (read_back_superblock g d raw' p old); [done..|apply Hi].
    + split_and!; [by rewrite (stamp_proj s_start)|by rewrite (stamp_proj s_sequence)|by eapply super_of_restate].
Qed.

Lemma super_switch g lo d tail n xs raw h tail' n' xs' :
  log_body g lo d tail n xs -> read_raw_superblock g d = Ok raw -> super_of g raw -> log_body g lo d tail' n' xs' ->
  match h with Some h => fits 32 h | None => True end ->
  exists p blk, log_block_to_physical g 0 = Some p /\ p ∈ block_map g /\ is_block blk /\
    write_superblock g (set_log_state raw (start_of tail') (u32 n') h) d = (Ok tt, write_events [EvWrite p blk; EvFlush] d) /\
    log_body g lo (write_events [EvWrite p blk; EvFlush] d) tail' n' xs' /\
    super_says g (write_events [EvWrite p blk; EvFlush] d) tail' n'.
Proof.
  intros Hi Hraw Hsp Hi' Hh. pose proof (super_wf _ _ _ _ _ _ Hi raw Hraw) as Hwf. pose proof (li_geo _ _ _ _ _ _ Hi) as Hg.
  apply (super_rewrite g lo d tail n xs raw); try done. apply set_log_state_wf; [done| |apply u32_fits|done].
  pose proof (geo_maxlen g Hg). pose proof (geo_first g Hg). pose proof (li_tail _ _ _ _ _ _ Hi').
  destruct tail'; cbn [start_of]; unfold in_ring, fits in *; lia.
Qed.

(** ** Lemmas: only the disk matters *)

Definition same_disk (d d' : device) : Prop := d_disk d = d_disk d' /\ healthy d'.

Lemma read_log_same g d d' p : healthy d -> same_disk d d' -> read_log_block g d' p = read_log_block g d p.
Proof.
  intros (Hr & _) (Ed & Hr' & _). unfold read_log_block. destruct (log_block_to_physical g p); [|done].
  unfold dev_read. by rewrite Hr, Hr', Ed.
Qed.

Lemma scan_transaction_ext g d d' log tid :
  (forall p, read_log_block g d' p = read_log_block g d p) -> scan_transaction g d' log tid = scan_transaction g d log tid.
Proof.
  intros He. unfold scan_transaction. generalize (CHAIN_FUEL g) 0 true. intros fuel. revert log.
  induction fuel as [|fuel IH]; intros log c ok; [done|]. cbn [scan_loop]. rewrite He.
  destruct (read_log_block g d log) as [blk|e]; cbn [rbind]; [|done]. rewrite IH.
  destruct (skip_tags g (walk_tags (tag_layout g) blk) log c) as [[l' c']|]; [|done]. by rewrite IH.
Qed.

Lemma log_body_same g lo d d' tail n xs : log_body g lo d tail n xs -> same_disk d d' -> log_body g lo d' tail n xs.
Proof.
  intros Hb Hs. pose proof (read_log_same g d d') as Hr. destruct Hb. destruct Hs as [Ed Hh]. constructor; try done.
  - by rewrite <- Ed.
  - destruct tail; [|done]. eapply log_contains_ext; [done| |done|done]. intros. by apply Hr.
  - eapply Forall_impl; [exact li_home0|]. intros x Hx. eapply Forall_impl; [exact Hx|]. intros it. apply home_ok_frame.
    intros b. by rewrite Ed.
  - intros p blk Hp. rewrite Hr by done. by apply li_old0.
Qed.

Lemma super_says_same g d d' tail n : healthy d -> super_says g d tail n -> same_disk d d' -> super_says g d' tail n.
Proof.
  intros (Hr & _) (raw & H) (Ed & Hr' & _). exists raw. split; [|apply H]. destruct H as [<- _].
  unfold read_raw_superblock, dev_read_val. destruct (superblock_block g); cbn [rbind]; [|done].
  unfold dev_read. by rewrite Hr, Hr', Ed.
Qed.

Lemma log_ends_same g d d' tail n xs : healthy d -> same_disk d d' -> log_ends g d tail n xs -> log_ends g d' tail n xs.
Proof.
  intros Hh Hs. destruct tail; [|done]. unfold log_ends. rewrite (scan_transaction_ext g d d'); [done|]. intros. by apply read_log_same.
Qed.

Lemma recoverable_same g lo d d' tail n xs :
  recoverable g lo d tail n xs -> same_disk d d' -> recoverable g lo d' tail n xs.
Proof.
  intros (Hb & Hs & He) Hd. pose proof (li_healthy _ _ _ _ _ _ Hb) as Hh.
  split_and!; [by eapply log_body_same|by eapply super_says_same|by eapply log_ends_same].
Qed.

Lemma recoverable_frame g lo d tail n xs evs :
  recoverable g lo d tail n xs -> off_journal g evs -> recoverable g lo (write_events evs d) tail n xs.
Proof.
  intros (Hb & Hs & He) Ho. pose proof (li_map _ _ _ _ _ _ Hb) as Hm.
  split_and!; [by apply log_body_frame|by apply super_says_frame|]. destruct tail; [|done]. unfold log_ends.
  rewrite (scan_transaction_ext g d); [done|]. intros q. by apply read_log_frame.
Qed.

Lemma off_journal_sublist g evs kept : sublist kept evs -> off_journal g evs -> off_journal g kept.
Proof.
  intros Hk Ho. apply Forall_forall. intros e He. apply (proj1 (Forall_forall _ _) Ho). by eapply elem_of_sublist.
Qed.

(** ** Lemmas: writing beyond the live log *)

(** [d'] has at the [len] positions from [pos] on blocks it had before or
    blocks of [P], and is [d] everywhere else. *)
Record ring_patch (g : JournalGeometry) (pos len : Z) (P : list byte -> Prop) (d d' : device) : Prop := {
  rp_healthy : healthy d';
  rp_other : forall x, (forall i, 0 <= i < len -> log_block_to_physical g (advance g pos i) <> Some x) ->
    d_disk d' !! x = d_disk d !! x;
  rp_at : forall i x, 0 <= i < len -> log_block_to_physical g (advance g pos i) = Some x ->
    exists blk, d_disk d' !! x = Some blk /\ is_block blk /\ (d_disk d !! x = Some blk \/ P blk);
}.

Lemma log_holds_ext_at g d d' pos blks :
  (forall k, 0 <= k < zlen blks -> read_log_block g d' (advance g pos k) = read_log_block g d (advance g pos k)) ->
  log_holds g d pos blks -> log_holds g d' pos blks.
Proof.
  rewrite !log_holds_lookup. intros He H i b Hb. rewrite He; [by apply H|].
  apply lookup_lt_Some in Hb. unfold zlen. lia.
Qed.

Lemma log_contains_ext_at g d d' pos n xs :
  (forall k, 0 <= k < log_len xs -> read_log_block g d' (advance g pos k) = read_log_block g d (advance g pos k)) ->
  log_contains g d pos n xs -> log_contains g d' pos n xs.
Proof.
  revert pos n. induction xs as [|x xs IH]; intros pos n He; [done|]. rewrite log_len_cons in He.
  pose proof (lg_len_pos x). pose proof (log_len_ge xs). pose proof (zlen_nonneg xs). intros (Q1 & Q2 & Q3).
  split_and!; [done| |].
  - apply (log_holds_ext_at g d); [|done]. intros k Hk. rewrite zlen_lg_blocks in Hk. apply He. lia.
  - apply IH; [|done]. intros k Hk. rewrite advance_add by lia. apply He. lia.
Qed.

Lemma range_dec len (Q : Z -> Prop) `{!forall i, Decision (Q i)} :
  (exists i, 0 <= i < len /\ Q i) \/ (forall i, 0 <= i < len -> ~ Q i).
Proof.
  destruct (decide (Exists (fun i => Q (Z.of_nat i)) (seq 0 (Z.to_nat len)))) as [He|He].
  - left. apply Exists_exists in He as (i & Hi & HQ). apply elem_of_seq in Hi. exists (Z.of_nat i). split; [lia|done].
  - right. intros i Hi HQ. apply He, Exists_exists. exists (Z.to_nat i). rewrite elem_of_seq, Z2Nat.id by lia. split; [lia|done].
Qed.

Section Patch.
Context (g : JournalGeometry) (lo : Z) (d d' : device) (tail : option Z) (n : Z) (xs : list logged) (pos len : Z) (P : list byte -> Prop).
Context (Hb : log_body g lo d tail n xs) (Hpatch : ring_patch g pos len P d d').
Context (Hpos : match tail with Some p => pos = advance g p (log_len xs) | None => in_ring g pos end).
Context (Hfit : 0 <= len /\ log_len xs + len <= ring g).

Lemma patch_geo : geometry_ok g.
Proof. apply Hb. Qed.

Lemma patch_map : map_ok g.
Proof. apply Hb. Qed.

Lemma patch_tail p : tail = Some p -> in_ring g p /\ pos = advance g p (log_len xs).
Proof. intros ->. split; [exact (li_tail _ _ _ _ _ _ Hb)|exact Hpos]. Qed.

Lemma patch_pos : in_ring g pos.
Proof.
  pose proof (li_tail _ _ _ _ _ _ Hb) as Ht. destruct tail as [p|]; [|done]. rewrite Hpos. apply advance_in_ring; [apply Hb|done|].
  pose proof (log_len_ge xs). pose proof (zlen_nonneg xs). lia.
Qed.

(** A ring position outside the patch reads as before. *)
Lemma patch_read_other p :
  in_ring g p -> (forall i, 0 <= i < len -> advance g pos i <> p) -> read_log_block g d' p = read_log_block g d p.
Proof.
  intros Hp Hne. destruct (phys_ring g patch_geo patch_map p Hp) as (x & Hx & _ & Hbx).
  rewrite !(read_log_disk g _ p x) by (done || apply Hpatch || apply (li_healthy _ _ _ _ _ _ Hb)).
  rewrite (rp_other _ _ _ _ _ _ Hpatch x); [done|]. intros i Hi E. apply (Hne i Hi).
  pose proof (geo_first g patch_geo). pose proof (advance_in_ring g patch_geo pos i patch_pos (proj1 Hi)).
  eapply phys_inj; [exact patch_map|exact E|exact Hx|..]; unfold in_ring in *; lia.
Qed.

Lemma patch_read_at i :
  0 <= i < len -> exists blk, read_log_block g d' (advance g pos i) = Ok blk /\ is_block blk /\
    (read_log_block g d (advance g pos i) = Ok blk \/ P blk).
Proof.
  intros Hi. pose proof (advance_in_ring g patch_geo pos i patch_pos (proj1 Hi)) as Hp.
  destruct (phys_ring g patch_geo patch_map _ Hp) as (x & Hx & _ & Hbx). destruct (rp_at _ _ _ _ _ _ Hpatch i x Hi Hx) as (blk & Hd & Hbl & Ho).
  exists blk. rewrite !(read_log_disk g _ _ x) by (done || apply Hpatch || apply (li_healthy _ _ _ _ _ _ Hb)).
  rewrite Hd. split_and!; [done|done|]. destruct Ho as [Ho|]; [left; by rewrite Ho|by right].
Qed.

(** The live log is not in the patch. *)
Lemma patch_live p k : tail = Some p -> 0 <= k < log_len xs -> read_log_block g d' (advance g p k) = read_log_block g d (advance g p k).
Proof.
  intros Et Hk. destruct (patch_tail p Et) as [Hp Ep]. pose proof Hfit.
  apply patch_read_other; [apply advance_in_ring; [apply patch_geo|done|lia]|]. intros i Hi. rewrite Ep, advance_add by lia.
  intros E. apply (advance_inj g patch_geo) in E; [lia|done|lia|lia].
Qed.

Lemma log_body_patch :
  (forall blk, P blk -> older lo (n + zlen xs + 1) blk) -> log_body g lo d' tail n xs.
Proof.
  intros HP. constructor; try apply Hb.
  - apply Hpatch.
  - apply Forall_forall. intros x Hx. destruct (proj1 (Forall_forall _ _) (li_present _ _ _ _ _ _ Hb) x Hx) as (b & Hbx & Hbl).
    destruct (range_dec len (fun i => log_block_to_physical g (advance g pos i) = Some x)) as [(i & Hi & E)|Hno].
    + destruct (rp_at _ _ _ _ _ _ Hpatch i x Hi E) as (blk & ? & ? & _). by exists blk.
    + exists b. by rewrite (rp_other _ _ _ _ _ _ Hpatch).
  - assert (forall p, tail = Some p -> log_contains g d' p n xs) as Hl.
    { intros p Et. apply (log_contains_ext_at g d); [intros k Hk; by apply patch_live|].
      pose proof (li_log _ _ _ _ _ _ Hb) as H. by rewrite Et in H. }
    clear - Hl. destruct tail; [by apply Hl|done].
  - eapply Forall_impl; [apply (li_home _ _ _ _ _ _ Hb)|]. intros y Hy. eapply Forall_impl; [exact Hy|].
    intros it (Ho1 & Ho2 & Ho3). split; [done|]. split; [|done].
    rewrite (rp_other _ _ _ _ _ _ Hpatch); [done|]. intros i Hi E. apply Ho3. by apply list_elem_of_lookup_2 in E.
  - intros p blk Hp Hr. destruct (range_dec len (fun i => advance g pos i = p)) as [(i & Hi & <-)|Hno].
    + destruct (patch_read_at i Hi) as (blk' & Hr' & _ & Ho). rewrite Hr in Hr'. injection Hr' as <-.
      destruct Ho as [Ho|Ho]; [by eapply (li_old _ _ _ _ _ _ Hb)|by apply HP].
    + rewrite patch_read_other in Hr; [by eapply (li_old _ _ _ _ _ _ Hb)|done|done].
Qed.

Lemma super_says_patch : super_says g d tail n -> super_says g d' tail n.
Proof.
  intros (raw & Hr & Hs). exists raw. split; [|done]. rewrite <- Hr.
  destruct (super_phys _ _ _ _ _ _ Hb) as (p & old & Hsb & Hp & _ & Hbp & _). unfold read_raw_superblock. rewrite Hsb. cbn [rbind].
  unfold dev_read_val, dev_read. rewrite block_of_to_offset by done.
  destruct (rp_healthy _ _ _ _ _ _ Hpatch) as (Hrd & _). destruct (li_healthy _ _ _ _ _ _ Hb) as (Hrd' & _). rewrite Hrd, Hrd'.
  rewrite (rp_other _ _ _ _ _ _ Hpatch); [done|]. intros i Hi E. pose proof (geo_first g patch_geo).
  pose proof (advance_in_ring g patch_geo pos i patch_pos (proj1 Hi)) as Hin. unfold in_ring in Hin.
  pose proof (phys_inj g patch_map _ 0 p E Hp). lia.
Qed.
End Patch.
