(* ===== verification/Transaction.v ===== *)
(** * Transactions: captures, revokes, credits

    Models the data of [journal/transaction.rs]: the captured after-images of
    a transaction, its revoke set, and the credit accounting of its handles.
    A [Capture] remembers the generation under which it was made, so that a
    write credential of an earlier capture is recognised as stale.  The
    ordered-data list holds, per inode, whether the inode is still alive and
    how many bytes the commit must flush first. *)

From stdpp Require Import sorting.
From S2P Require Import Prelude JournalFormat JournalTags Device Geometry Revoke.

(** ** Data *)

Record Capture : Type := {
  generation : Z;
  buffer : list byte;
}.

(** The newest committed image of a block not yet checkpointed. *)
Record UncheckpointedImage : Type := {
  ui_tid : Z;
  ui_image : list byte;
}.

Definition is_checkpointed_by (i : UncheckpointedImage) (committed_tid : Z) : bool :=
  Tid.geq committed_tid (ui_tid i).

Inductive CommitPhase : Set := Locked | Flush | Commit | CommitRecord | Finished.

#[export] Instance CommitPhase_eq_dec : EqDecision CommitPhase.
Proof. solve_decision. Defined.

Definition next_in_pipeline (p : CommitPhase) : option CommitPhase :=
  match p with
  | Locked => Some Flush
  | Flush => Some Commit
  | Commit => Some CommitRecord
  | CommitRecord => Some Finished
  | Finished => None
  end.

Record OrderedData : Type := {
  od_alive : bool;
  od_len : Z;
}.

Record Transaction : Type := {
  tid : Z;
  expires_at : Z;
  t_updates : Z;
  outstanding_credits : Z;
  metadata : gmap Z Capture;
  next_capture_generation : Z;
  revoked : gset Z;
  t_ordered : gmap Z OrderedData;
}.

Definition TIMER_FREQ : Z := 1000.
Definition COMMIT_INTERVAL_JIFFIES : Z := 5 * TIMER_FREQ.

(** [Transaction::new] at time [now]. *)
Definition txn_new (now t : Z) : Transaction :=
  {| tid := t; expires_at := now + COMMIT_INTERVAL_JIFFIES; t_updates := 0; outstanding_credits := 0;
     metadata := ∅; next_capture_generation := 0; revoked := ∅; t_ordered := ∅ |}.

Definition is_expired_at (t : Transaction) (now : Z) : bool := expires_at t <=? now.
Definition until_expiry (t : Transaction) (now : Z) : Z := sat_sub (expires_at t) now.

(** ** Field updates *)

Definition with_credits (t : Transaction) (updates outstanding : Z) : Transaction :=
  {| tid := tid t; expires_at := expires_at t; t_updates := updates; outstanding_credits := outstanding;
     metadata := metadata t; next_capture_generation := next_capture_generation t;
     revoked := revoked t; t_ordered := t_ordered t |}.

Definition with_captures (t : Transaction) (m : gmap Z Capture) (gen : Z) (rv : gset Z) : Transaction :=
  {| tid := tid t; expires_at := expires_at t; t_updates := t_updates t;
     outstanding_credits := outstanding_credits t; metadata := m; next_capture_generation := gen;
     revoked := rv; t_ordered := t_ordered t |}.

Definition with_ordered (t : Transaction) (o : gmap Z OrderedData) : Transaction :=
  {| tid := tid t; expires_at := expires_at t; t_updates := t_updates t;
     outstanding_credits := outstanding_credits t; metadata := metadata t;
     next_capture_generation := next_capture_generation t; revoked := revoked t; t_ordered := o |}.

(** ** Captures *)

Definition nr_metadata_blocks (t : Transaction) : Z := Z.of_nat (size (metadata t)).
Definition nr_revokes (t : Transaction) : Z := Z.of_nat (size (revoked t)).

Definition nr_revoke_blocks (t : Transaction) (l : TagLayout) : Z :=
  div_ceil (nr_revokes t) (revoke_entries_per_block l).

Definition batch_footprint (t : Transaction) (l : TagLayout) : Z :=
  nr_metadata_blocks t + nr_revoke_blocks t l.

Definition reserved_metadata_blocks (t : Transaction) (extra : Z) : Z :=
  nr_metadata_blocks t + outstanding_credits t + extra.

Definition is_captured (t : Transaction) (bid : Z) : bool := bool_decide (is_Some (metadata t !! bid)).

Definition consume_reserved_credit (t : Transaction) : Transaction :=
  with_credits t (t_updates t) (sat_sub (outstanding_credits t) 1).

Definition has_recorded_work (t : Transaction) : bool :=
  (0 <? nr_metadata_blocks t) || negb (bool_decide (revoked t = ∅)).

(** [mint_capture_generation] and the insertion that follows it. *)
Definition fresh_capture (t : Transaction) (bid : Z) (image : list byte) : Transaction * Z :=
  let g := next_capture_generation t in
  (with_captures t (<[bid := {| generation := g; buffer := image |}]> (metadata t)) (g + 1) (revoked t), g).

(** A capture cancels this transaction's revoke of the block. *)
Definition cancel_revoke (t : Transaction) (bid : Z) : Transaction :=
  with_captures t (metadata t) (next_capture_generation t) (revoked t ∖ {[bid]}).

Definition capture_create (t : Transaction) (bid : Z) : Transaction * Z :=
  let t := cancel_revoke t bid in
  match metadata t !! bid with
  | Some c => (t, generation c)
  | None => fresh_capture t bid (zeros BLOCK_SIZE)
  end.

(** [capture_write]; the transaction is returned on the error path too. *)
Definition capture_write (t : Transaction) (bid : Z) (seed : option (list byte)) (d : device)
  : result Z * Transaction :=
  let t := cancel_revoke t bid in
  match metadata t !! bid with
  | Some c => (Ok (generation c), t)
  | None =>
      match (match seed with Some s => Ok s | None => dev_read d bid end) with
      | Ok image => let '(t', g) := fresh_capture t bid image in (Ok g, t')
      | Err _ => (Err EIO, t)
      end
  end.

Definition forget_block (t : Transaction) (bid : Z) : Transaction :=
  with_captures t (delete bid (metadata t)) (next_capture_generation t) ({[bid]} ∪ revoked t).

(** [apply_patch]: a patch is a function on the block. *)
Definition apply_patch (t : Transaction) (bid gen : Z) (patch : list byte -> list byte) : result Transaction :=
  match metadata t !! bid with
  | None => Err EIO
  | Some c =>
      check generation c =? gen else EIO in
      Ok (with_captures t (<[bid := {| generation := generation c; buffer := patch (buffer c) |}]> (metadata t))
            (next_capture_generation t) (revoked t))
  end.

Definition buffer_bytes (t : Transaction) (bid : Z) : option (list byte) := buffer <$> metadata t !! bid.

(** Iteration of a [BTreeMap] or [BTreeSet] is in key order. *)
Definition sorted_keys (s : gset Z) : list Z := merge_sort Z.le (elements s).

Definition metadata_blocks (t : Transaction) : list (Z * list byte) :=
  omap (fun b => (fun c => (b, buffer c)) <$> metadata t !! b) (sorted_keys (dom (metadata t))).

Definition revoked_blocks (t : Transaction) : list Z := sorted_keys (revoked t).

Definition stash_uncheckpointed (t : Transaction) (retained : gmap Z UncheckpointedImage)
  : gmap Z UncheckpointedImage :=
  ((fun c => {| ui_tid := tid t; ui_image := buffer c |}) <$> metadata t) ∪ retained.

Definition stash_revokes (t : Transaction) (table : RevokeTable) : RevokeTable :=
  record_all table (revoked_blocks t) (tid t).

Definition collect_unpublished_revokes (t : Transaction) (out : gset Z) : gset Z := out ∪ revoked t.

Definition register_ordered_data (t : Transaction) (ino len : Z) : Transaction :=
  with_ordered t (<[ino := {| od_alive := true; od_len := len |}]> (t_ordered t)).

(** The inodes a commit flushes, with their lengths, in inode order. *)
Definition ordered_data (t : Transaction) : list (Z * Z) :=
  omap (fun i => match t_ordered t !! i with
                 | Some o => if od_alive o then Some (i, od_len o) else None
                 | None => None
                 end) (sorted_keys (dom (t_ordered t))).

(** ** Handles *)

Record Handle : Set := {
  h_tid : Z;
  h_credits : Z;
  h_remaining : Z;
}.

Definition grant_credits (h : Handle) (extra : Z) : Handle :=
  {| h_tid := h_tid h; h_credits := h_credits h + extra; h_remaining := h_remaining h + extra |}.

Definition spend_one_credit (h : Handle) : Handle :=
  {| h_tid := h_tid h; h_credits := h_credits h; h_remaining := sat_sub (h_remaining h) 1 |}.

(** ** Credit bounds *)

(** [Journal::max_credits] *)
Definition max_credits (g : JournalGeometry) : Z :=
  let usable := maxlen g - first g in
  let tags := tags_per_descriptor (tag_layout g) in
  tags * sat_sub usable 2 / (tags + 1).

Definition batch_trigger_credits (g : JournalGeometry) : Z := Z.max (max_credits g / 4) 1.

Definition checkpoint_low_water (g : JournalGeometry) : Z := Z.max ((maxlen g - first g) / 4) 1.

(** [Journal::worst_case_footprint] *)
Definition worst_case_footprint (g : JournalGeometry) (credits revoke_blocks : Z) : Z :=
  let tags := tags_per_descriptor (tag_layout g) in
  let blocks := credits + revoke_blocks + div_ceil credits tags + 1 in
  if fitsb 32 blocks then blocks else 2 ^ 32 - 1.

Definition reservation_footprint (g : JournalGeometry) (t : Transaction) (credits : Z) : Z :=
  worst_case_footprint g (reserved_metadata_blocks t credits) (nr_revoke_blocks t (tag_layout g)).

Definition check_capacity (g : JournalGeometry) (running : Transaction) (extra : Z) : result unit :=
  let needed := reserved_metadata_blocks running extra + nr_revoke_blocks running (tag_layout g) in
  check negb (max_credits g <? needed) else ENOSPC in Ok tt.

Inductive ExtendOutcome : Set := Granted | NeedsRestart.

#[export] Instance ExtendOutcome_eq_dec : EqDecision ExtendOutcome.
Proof. solve_decision. Defined.

Definition EXTEND_BATCH_BLOCKS : Z := 8.

(** [try_grow_reservation] updates both the transaction and the handle. *)
Definition try_grow_reservation (g : JournalGeometry) (running : Transaction) (h : Handle) (extra : Z)
  : ExtendOutcome * Transaction * Handle :=
  let revoke_blocks := nr_revoke_blocks running (tag_layout g) in
  if max_credits g <? reserved_metadata_blocks running extra + revoke_blocks
  then (NeedsRestart, running, h)
  else (Granted, with_credits running (t_updates running) (outstanding_credits running + extra),
        grant_credits h extra).

(** [charge_fresh_capture]; on [ENOSPC] nothing is charged. *)
Definition charge_fresh_capture (g : JournalGeometry) (running : Transaction) (h : Handle)
  : result unit * Transaction * Handle :=
  let spend '(t, h) := (Ok tt, consume_reserved_credit t, spend_one_credit h) in
  if h_remaining h =? 0 then
    match try_grow_reservation g running h EXTEND_BATCH_BLOCKS with
    | (Granted, t, h) => spend (t, h)
    | (NeedsRestart, t, h) =>
        match try_grow_reservation g t h 1 with
        | (Granted, t, h) => spend (t, h)
        | (NeedsRestart, t, h) => (Err ENOSPC, t, h)
        end
    end
  else spend (running, h).

(** ** Steps

    What can happen to an open transaction's captures. *)

Definition patch_ok (patch : list byte -> list byte) : Prop :=
  forall b, is_block b -> is_block (patch b).

Inductive txn_step : Transaction -> Transaction -> Prop :=
  | StepCreate t bid : txn_step t (capture_create t bid).1
  | StepWrite t bid seed d :
      match seed with Some s => is_block s | None => disk_ok (d_disk d) end ->
      txn_step t (capture_write t bid seed d).2
  | StepForget t bid : txn_step t (forget_block t bid)
  | StepPatch t bid gen patch t' :
      patch_ok patch -> apply_patch t bid gen patch = Ok t' -> txn_step t t'
  | StepOrdered t ino len : txn_step t (register_ordered_data t ino len)
  | StepCredits t u c : txn_step t (with_credits t u c).

(** The invariant of a transaction: images are blocks, generations are below
    the next one to mint, and no block is both captured and revoked. *)
Record txn_ok (t : Transaction) : Prop := {
  ok_blocks : map_Forall (fun _ c => is_block (buffer c)) (metadata t);
  ok_gens : map_Forall (fun _ c => generation c < next_capture_generation t) (metadata t);
  ok_disjoint : dom (metadata t) ## revoked t;
}.

(** ** Lemmas: sorted iteration *)

#[export] Instance Z_le_total : Total Z.le.
Proof. intros x y. lia. Qed.

Lemma elem_of_sorted_keys s b : b ∈ sorted_keys s <-> b ∈ s.
Proof. unfold sorted_keys. by rewrite merge_sort_Permutation, elem_of_elements. Qed.

Lemma NoDup_sorted_keys s : NoDup (sorted_keys s).
Proof. unfold sorted_keys. rewrite merge_sort_Permutation. apply NoDup_elements. Qed.

Lemma length_sorted_keys s : length (sorted_keys s) = size s.
Proof. unfold sorted_keys. by rewrite merge_sort_Permutation. Qed.

Lemma elem_of_metadata_blocks t b img :
  (b, img) ∈ metadata_blocks t <-> exists c, metadata t !! b = Some c /\ img = buffer c.
Proof.
  unfold metadata_blocks. rewrite list_elem_of_omap. split.
  - intros (b' & _ & (c & Hc & [= -> ->])%fmap_Some). eauto.
  - intros (c & Hc & ->). exists b. rewrite elem_of_sorted_keys, elem_of_dom, Hc. eauto.
Qed.

Lemma metadata_blocks_fst_aux (m : gmap Z Capture) l :
  Forall (fun b => is_Some (m !! b)) l ->
  (omap (fun b => (fun c => (b, buffer c)) <$> m !! b) l).*1 = l.
Proof.
  induction 1 as [|b l [c Hc] _ IH]; [done|]. cbn. rewrite Hc. cbn. by rewrite IH.
Qed.

Lemma metadata_blocks_fst t : (metadata_blocks t).*1 = sorted_keys (dom (metadata t)).
Proof.
  apply metadata_blocks_fst_aux. apply Forall_forall. intros b Hb%elem_of_sorted_keys. by apply elem_of_dom.
Qed.

Lemma NoDup_metadata_blocks t : NoDup (metadata_blocks t).*1.
Proof. rewrite metadata_blocks_fst. apply NoDup_sorted_keys. Qed.

Lemma zlen_metadata_blocks t : zlen (metadata_blocks t) = nr_metadata_blocks t.
Proof.
  unfold zlen, nr_metadata_blocks. rewrite <- (length_fmap fst), metadata_blocks_fst, length_sorted_keys.
  by rewrite size_dom.
Qed.

Lemma zlen_revoked_blocks t : zlen (revoked_blocks t) = nr_revokes t.
Proof. unfold zlen, nr_revokes, revoked_blocks. by rewrite length_sorted_keys. Qed.

(** ** Lemmas: the invariant *)

Lemma txn_new_ok now t : txn_ok (txn_new now t).
Proof. split; cbn; [apply map_Forall_empty..|set_solver]. Qed.

Lemma cancel_revoke_ok t bid : txn_ok t -> txn_ok (cancel_revoke t bid).
Proof. intros [H1 H2 H3]. split; cbn; [done..|set_solver]. Qed.

Lemma fresh_capture_ok t bid image :
  txn_ok t -> is_block image -> bid ∉ revoked t -> txn_ok (fresh_capture t bid image).1.
Proof.
  intros [H1 H2 H3] Hi Hr. split; cbn.
  - by apply map_Forall_insert_2.
  - apply map_Forall_insert_2; cbn; [lia|]. eapply map_Forall_impl; [exact H2|]. cbn. intros; lia.
  - rewrite dom_insert. set_solver.
Qed.

Lemma is_block_zeros : is_block (zeros BLOCK_SIZE).
Proof. unfold is_block. by rewrite zlen_zeros. Qed.

Lemma txn_step_ok t t' : txn_step t t' -> txn_ok t -> txn_ok t'.
Proof.
  intros [t0 bid|t0 bid seed d Hs|t0 bid|t0 bid gen patch t1 Hp Ha|t0 ino len|t0 u c] Hok.
  - pose proof (cancel_revoke_ok t0 bid Hok) as Hc. unfold capture_create. destruct (metadata _ !! bid); [done|].
    apply fresh_capture_ok; [done|apply is_block_zeros|cbn; set_solver].
  - pose proof (cancel_revoke_ok t0 bid Hok) as Hc. unfold capture_write. destruct (metadata _ !! bid); [done|].
    assert (Hb : forall img, (match seed with Some s => Ok s | None => dev_read d bid end) = Ok img -> is_block img).
    { intros img E. destruct seed as [s|]; [by injection E as <-|by eapply dev_read_block]. }
    destruct (match seed with Some s => Ok s | None => dev_read d bid end) as [img|e]; [|done].
    apply fresh_capture_ok; [done|by apply Hb|cbn; set_solver].
  - destruct Hok as [H1 H2 H3]. split; cbn; [by apply map_Forall_delete..|rewrite dom_delete; set_solver].
  - destruct Hok as [H1 H2 H3]. unfold apply_patch in Ha. destruct (metadata t0 !! bid) as [c|] eqn:E; [|done].
    inv_result. subst t1. split; cbn.
    + apply map_Forall_insert_2; [|done]. cbn. apply Hp. by apply (H1 _ _ E).
    + apply map_Forall_insert_2; [|done]. cbn. by apply (H2 _ _ E).
    + rewrite dom_insert_lookup_L; [done|by eexists].
  - by destruct Hok; split.
  - by destruct Hok; split.
Qed.

(** A credential for [bid] minted as generation [gen] that no capture honours
    any more. *)
Definition dead_credential (t : Transaction) (bid gen : Z) : Prop :=
  gen < next_capture_generation t /\ forall c, metadata t !! bid = Some c -> generation c <> gen.

Lemma fresh_capture_dead t bid image b gen :
  dead_credential t b gen -> dead_credential (fresh_capture t bid image).1 b gen.
Proof.
  intros [Hg Hd]. split; cbn; [lia|]. intros c. destruct (decide (b = bid)) as [->|Hne].
  - rewrite lookup_insert_eq. intros [= <-]. cbn. lia.
  - rewrite lookup_insert_ne by done. apply Hd.
Qed.

Lemma txn_step_dead t t' b gen : txn_step t t' -> dead_credential t b gen -> dead_credential t' b gen.
Proof.
  intros [t0 bid|t0 bid seed d Hs|t0 bid|t0 bid g patch t1 Hp Ha|t0 ino len|t0 u c] Hd; try done.
  - unfold capture_create. destruct (metadata _ !! bid); [done|]. by apply fresh_capture_dead.
  - unfold capture_write. destruct (metadata _ !! bid); [done|].
    destruct (match seed with Some s => Ok s | None => dev_read d bid end); [|done].
    by apply (fresh_capture_dead (cancel_revoke t0 bid)).
  - destruct Hd as [Hg Hd]. split; [done|]. cbn. intros c [_ Hc]%lookup_delete_Some. by apply Hd.
  - destruct Hd as [Hg Hd]. unfold apply_patch in Ha. destruct (metadata t0 !! bid) as [c|] eqn:E; [|done].
    inv_result. subst t1. split; [done|]. cbn. intros c'. destruct (decide (b = bid)) as [->|Hne].
    + rewrite lookup_insert_eq. intros [= <-]. exact (Hd c E).
    + rewrite lookup_insert_ne by done. apply Hd.
Qed.

Lemma txn_steps_dead t t' b gen : rtc txn_step t t' -> dead_credential t b gen -> dead_credential t' b gen.
Proof. induction 1; [done|]. intros. eauto using txn_step_dead. Qed.

Lemma txn_steps_ok t t' : rtc txn_step t t' -> txn_ok t -> txn_ok t'.
Proof. induction 1; [done|]. eauto using txn_step_ok. Qed.

(** ** Lemmas: credits *)

Lemma div_ceil_spec a b : 0 < b -> b * div_ceil a b <= a + b - 1 < b * div_ceil a b + b.
Proof.
  intros Hb. unfold div_ceil. pose proof (Z.div_mod (a + b - 1) b). pose proof (Z.mod_pos_bound (a + b - 1) b). lia.
Qed.

Lemma div_ceil_nonneg a b : 0 <= a -> 0 < b -> 0 <= div_ceil a b.
Proof. intros. unfold div_ceil. apply Z.div_pos; lia. Qed.

Lemma revoke_entries_per_block_pos l : layout_ok l -> 1 <= revoke_entries_per_block l.
Proof.
  intros Hl. pose proof (width_range l). pose proof (tag_area_end_range l Hl). unfold revoke_entries_per_block.
  apply Z.div_le_lower_bound; unfold BLOCK_SIZE, REVOKE_HEADER_SIZE in *; lia.
Qed.

Lemma nr_revoke_blocks_nonneg t l : layout_ok l -> 0 <= nr_revoke_blocks t l.
Proof.
  intros Hl. pose proof (revoke_entries_per_block_pos l Hl). apply div_ceil_nonneg; unfold nr_revokes; lia.
Qed.

(** What [n] captured and [v] revoke blocks occupy in the log. *)
Definition log_footprint (g : JournalGeometry) (n v : Z) : Z :=
  v + n + div_ceil n (tags_per_descriptor (tag_layout g)) + 1.

Lemma max_credits_fits g n v :
  geometry_ok g -> 0 <= n -> 0 <= v -> n + v <= max_credits g -> log_footprint g n v <= ring g.
Proof.
  intros Hg Hn Hv Hm. unfold log_footprint, max_credits, ring, sat_sub in *.
  pose proof (geo_first g Hg). pose proof (tags_per_descriptor_pos _ (geo_layout g Hg)) as Ht.
  set (t := tags_per_descriptor (tag_layout g)) in *. set (u := maxlen g - first g) in *.
  pose proof (Z.mul_div_le (t * Z.max 0 (u - 2)) (t + 1) ltac:(lia)) as Hd.
  set (m := t * Z.max 0 (u - 2) / (t + 1)) in *. pose proof (div_ceil_spec n t ltac:(lia)) as Hc.
  set (c := div_ceil n t) in *.
  destruct (decide (n + v = 0)).
  - assert (c = 0) by (assert (n = 0) by lia; nia). lia.
  - destruct (decide (u < 2)); [assert (m <= 0) by nia; lia|].
    rewrite Z.max_r in Hd by lia. nia.
Qed.

(** ** Properties *)

(** the credit bound is sound.  A transaction within [max_credits]
    (captured and reserved blocks plus one per revoke block) always fits the
    ring with its descriptors and its commit block, and the reservation-time
    footprint is that exact number. *)
Theorem max_credits_sound g t extra :
  geometry_ok g -> 0 <= outstanding_credits t -> 0 <= extra -> check_capacity g t extra = Ok tt ->
  let n := reserved_metadata_blocks t extra in
  let v := nr_revoke_blocks t (tag_layout g) in
  log_footprint g n v <= ring g /\ reservation_footprint g t extra = log_footprint g n v.
Proof.
  intros Hg Ho He Hc n v. unfold check_capacity in Hc. inv_result. apply negb_true_iff, Z.ltb_ge in Hck.
  assert (Hn : 0 <= n) by (unfold n, reserved_metadata_blocks, nr_metadata_blocks; lia).
  assert (Hv : 0 <= v) by (apply nr_revoke_blocks_nonneg, geo_layout, Hg).
  pose proof (max_credits_fits g n v Hg Hn Hv Hck) as Hfit. split; [done|].
  unfold reservation_footprint, worst_case_footprint. fold n v. unfold log_footprint, ring in *.
  pose proof (geo_maxlen g Hg) as [_ Hmx]. pose proof (geo_first g Hg).
  pose proof (tags_per_descriptor_pos _ (geo_layout g Hg)) as Ht. pose proof (div_ceil_nonneg n (tags_per_descriptor (tag_layout g)) Hn ltac:(lia)).
  replace (n + v) with (v + n) by lia. assert (fitsb 32 (v + n + div_ceil n (tags_per_descriptor (tag_layout g)) + 1) = true) as ->;
    [|done]. apply fitsb_spec. unfold fits. lia.
Qed.

Lemma max_credits_sound_witness :
  log_footprint sample_geometry 5 0 <= ring sample_geometry /\
  reservation_footprint sample_geometry (txn_new 0 9) 5 = log_footprint sample_geometry 5 0.
Proof.
  apply (max_credits_sound sample_geometry (txn_new 0 9) 5 sample_geometry_ok); [done|done|].
  vm_compute. reflexivity.
Defined.

(** the invariant of a transaction (block-sized images, fresh
    generations, captured and revoked blocks disjoint) holds of a new
    transaction and is kept by every sequence of captures, forgets, patches,
    ordered-data registrations and credit changes. *)
Theorem transaction_invariant now id t :
  rtc txn_step (txn_new now id) t -> txn_ok t.
Proof. intros H. eapply txn_steps_ok; [exact H|]. apply txn_new_ok. Qed.

Lemma transaction_invariant_witness :
  txn_ok (forget_block (capture_create (txn_new 0 9) 7).1 7).
Proof.
  apply (transaction_invariant 0 9). eapply rtc_l; [apply (StepCreate _ 7)|]. eapply rtc_l; [apply StepForget|].
  reflexivity.
Defined.

(** once a block is forgotten, a write credential minted for it before
    is dead for good: whatever happens next, including a new capture of the
    block, a patch through it fails with [EIO] and changes nothing. *)
Theorem stale_credential_rejected t bid c t' patch :
  txn_ok t -> metadata t !! bid = Some c ->
  rtc txn_step (forget_block t bid) t' -> apply_patch t' bid (generation c) patch = Err EIO.
Proof.
  intros Hok Hc Hs. assert (Hd : dead_credential (forget_block t bid) bid (generation c)).
  { split; [by apply (ok_gens t Hok _ _ Hc)|]. cbn. intros c'. by rewrite lookup_delete_eq. }
  apply (txn_steps_dead _ _ _ _ Hs) in Hd as [_ Hd]. unfold apply_patch.
  destruct (metadata t' !! bid) as [c'|] eqn:E; [|done]. destruct (Z.eqb_spec (generation c') (generation c)); [|done].
  by destruct (Hd c' eq_refl).
Qed.

Lemma stale_credential_rejected_witness :
  let t := (capture_create (txn_new 0 9) 7).1 in
  apply_patch (capture_create (forget_block t 7) 7).1 7 0 (fun b => b) = Err EIO.
Proof.
  apply (stale_credential_rejected (capture_create (txn_new 0 9) 7).1 7 {| generation := 0; buffer := zeros BLOCK_SIZE |}).
  - eapply txn_step_ok; [apply (StepCreate _ 7)|]. apply txn_new_ok.
  - reflexivity.
  - eapply rtc_l; [apply (StepCreate _ 7)|]. reflexivity.
Defined.

(** re-journaling a revoked block cancels the revoke even when the
    capture then fails: if the device read behind [capture_write] fails, the
    block ends neither captured nor revoked, and the free it recorded has
    lost its revoke record. *)
Theorem failed_capture_drops_revoke t bid d e :
  metadata t !! bid = None -> bid ∈ revoked t -> dev_read d bid = Err e ->
  exists t', capture_write t bid None d = (Err EIO, t') /\
    metadata t' !! bid = None /\ bid ∉ revoked t' /\ outstanding_credits t' = outstanding_credits t.
Proof.
  intros Hm Hr Hd. exists (cancel_revoke t bid). unfold capture_write. cbn [metadata cancel_revoke with_captures].
  rewrite Hm, Hd. split_and!; [done|done|cbn; set_solver|done].
Qed.

Lemma failed_capture_drops_revoke_witness :
  let d := Device ∅ [] (fun _ => true) (fun _ => true) true in
  exists t', capture_write (forget_block (txn_new 0 9) 7) 7 None d = (Err EIO, t') /\
    metadata t' !! 7 = None /\ 7 ∉ revoked t' /\ outstanding_credits t' = 0.
Proof.
  apply (failed_capture_drops_revoke (forget_block (txn_new 0 9) 7) 7
    (Device ∅ [] (fun _ => true) (fun _ => true) true) EIO); [done|cbn; set_solver|reflexivity].
Defined.
