(* ===== verification/JournalState.v ===== *)
(** * The journal's in-memory state and its handles

    Models [Journal], [JournalState] and their non-blocking operations
    ([journal/mod.rs]) with the handle operations of
    [journal/transaction.rs].  A transaction moves from the running seat
    through the locking seat (draining its open handles) to the committing
    slot.  An operation that holds the state lock is one function on the
    state; a loop that waits is modelled by one attempt, whose outcome says
    what it waits for. *)

From S2P Require Import Prelude Pod JournalFormat JournalTags Device Geometry Revoke Transaction.

(** ** Data *)

Record CommittingTxn : Type := {
  ct_txn : Transaction;
  ct_phase : CommitPhase;
}.

(** A run of freed blocks that must not be reused before [pr_tid] commits. *)
Record PinnedRun : Type := {
  pr_count : Z;
  pr_tid : Z;
}.

Record JournalState : Type := {
  running : option Transaction;
  locking : option Transaction;
  commit_request : option Z;
  committing : option CommittingTxn;
  next_tid : Z;
  head : Z;
  tail_block : option Z;
  tail_tid : Z;
  st_revoked : RevokeTable;
  uncheckpointed : gmap Z UncheckpointedImage;
  pinned_frees : gmap Z PinnedRun;
}.

Record Journal : Type := {
  geometry : JournalGeometry;
  j_device : device;
  state : JournalState;
  committed_tid : Z;
  credit_release_epoch : Z;
  stop : bool;
  aborted : bool;
  sb_error : Z;
  op_handle_owners : gset Z;
  space_pressure : bool;
  commit_servicer : bool;
  log_space_waits : Z;
  restart_count : Z;
}.

(** ** Field updates *)

Definition set_seats (st : JournalState) (r l : option Transaction) : JournalState :=
  Build_JournalState r l (commit_request st) (committing st) (next_tid st) (head st) (tail_block st)
    (tail_tid st) (st_revoked st) (uncheckpointed st) (pinned_frees st).

Definition set_commit_request (st : JournalState) (q : option Z) : JournalState :=
  Build_JournalState (running st) (locking st) q (committing st) (next_tid st) (head st) (tail_block st)
    (tail_tid st) (st_revoked st) (uncheckpointed st) (pinned_frees st).

Definition set_committing (st : JournalState) (c : option CommittingTxn) : JournalState :=
  Build_JournalState (running st) (locking st) (commit_request st) c (next_tid st) (head st) (tail_block st)
    (tail_tid st) (st_revoked st) (uncheckpointed st) (pinned_frees st).

Definition set_next_tid (st : JournalState) (t : Z) : JournalState :=
  Build_JournalState (running st) (locking st) (commit_request st) (committing st) t (head st) (tail_block st)
    (tail_tid st) (st_revoked st) (uncheckpointed st) (pinned_frees st).

Definition set_log (st : JournalState) (h : Z) (tb : option Z) (tt : Z) : JournalState :=
  Build_JournalState (running st) (locking st) (commit_request st) (committing st) (next_tid st) h tb
    tt (st_revoked st) (uncheckpointed st) (pinned_frees st).

Definition set_memory (st : JournalState) (rv : RevokeTable) (uc : gmap Z UncheckpointedImage)
    (pf : gmap Z PinnedRun) : JournalState :=
  Build_JournalState (running st) (locking st) (commit_request st) (committing st) (next_tid st) (head st)
    (tail_block st) (tail_tid st) rv uc pf.

Definition with_state (j : Journal) (st : JournalState) : Journal :=
  Build_Journal (geometry j) (j_device j) st (committed_tid j) (credit_release_epoch j) (stop j) (aborted j)
    (sb_error j) (op_handle_owners j) (space_pressure j) (commit_servicer j) (log_space_waits j) (restart_count j).

Definition with_device (j : Journal) (d : device) : Journal :=
  Build_Journal (geometry j) d (state j) (committed_tid j) (credit_release_epoch j) (stop j) (aborted j)
    (sb_error j) (op_handle_owners j) (space_pressure j) (commit_servicer j) (log_space_waits j) (restart_count j).

Definition with_committed (j : Journal) (t : Z) : Journal :=
  Build_Journal (geometry j) (j_device j) (state j) t (credit_release_epoch j) (stop j) (aborted j)
    (sb_error j) (op_handle_owners j) (space_pressure j) (commit_servicer j) (log_space_waits j) (restart_count j).

Definition with_flags (j : Journal) (st ab : bool) (err : Z) (pressure servicer : bool) : Journal :=
  Build_Journal (geometry j) (j_device j) (state j) (committed_tid j) (credit_release_epoch j) st ab
    err (op_handle_owners j) pressure servicer (log_space_waits j) (restart_count j).

Definition with_counters (j : Journal) (epoch waits restarts : Z) : Journal :=
  Build_Journal (geometry j) (j_device j) (state j) (committed_tid j) epoch (stop j) (aborted j)
    (sb_error j) (op_handle_owners j) (space_pressure j) (commit_servicer j) waits restarts.

Definition with_owners (j : Journal) (o : gset Z) : Journal :=
  Build_Journal (geometry j) (j_device j) (state j) (committed_tid j) (credit_release_epoch j) (stop j) (aborted j)
    (sb_error j) o (space_pressure j) (commit_servicer j) (log_space_waits j) (restart_count j).

(** ** [Journal::new] *)

Definition journal_new (g : JournalGeometry) (d : device) : Journal :=
  {| geometry := g; j_device := d;
     state := {| running := None; locking := None; commit_request := None; committing := None;
                 next_tid := sequence g; head := first g; tail_block := start g; tail_tid := sequence g;
                 st_revoked := table_new; uncheckpointed := ∅; pinned_frees := ∅ |};
     committed_tid := Tid.prev (sequence g); credit_release_epoch := 0; stop := false; aborted := false;
     sb_error := g_errno g; op_handle_owners := ∅; space_pressure := false; commit_servicer := false;
     log_space_waits := 0; restart_count := 0 |}.

(** ** The committing slot *)

(** [stage_committing]: retain the images, drop a satisfied request, take the slot. *)
Definition stage_committing (st : JournalState) (txn : Transaction) : JournalState :=
  let st1 := set_memory st (st_revoked st) (stash_uncheckpointed txn (uncheckpointed st)) (pinned_frees st) in
  let st2 := match commit_request st1 with
             | Some requested => if Tid.geq (tid txn) requested then set_commit_request st1 None else st1
             | None => st1
             end in
  set_committing st2 (Some {| ct_txn := txn; ct_phase := Locked |}).

(** [CommittingTxn::advance_to] *)
Definition advance_to (c : CommittingTxn) (t : Z) (to : CommitPhase) : result CommittingTxn :=
  check tid (ct_txn c) =? t else EIO in
  check bool_decide (next_in_pipeline (ct_phase c) = Some to) else EIO in
  Ok {| ct_txn := ct_txn c; ct_phase := to |}.

Definition advance_committing_phase (st : JournalState) (t : Z) (to : CommitPhase) : result JournalState :=
  match committing st with
  | None => Err EIO
  | Some c => let? c' := advance_to c t to in Ok (set_committing st (Some c'))
  end.

(** The committing transaction's revokes are unpublished until it finished. *)
Definition committing_unpublished (c : CommittingTxn) (out : gset Z) : gset Z :=
  if bool_decide (ct_phase c = Finished) then out else collect_unpublished_revokes (ct_txn c) out.

Definition release_pinned_frees (st : JournalState) (committed : Z) : JournalState :=
  set_memory st (st_revoked st) (uncheckpointed st)
    (filter (fun p => Tid.geq committed (pr_tid p.2) = false) (pinned_frees st)).

Definition pins_charged_to (st : JournalState) (t : Z) : bool :=
  existsb (fun p => pr_tid p.2 =? t) (map_to_list (pinned_frees st)).

Definition has_durable_obligation (st : JournalState) (txn : Transaction) : bool :=
  has_recorded_work txn || pins_charged_to st (tid txn).

Definition committable_running (st : JournalState) : option (Transaction * Z) :=
  match running st with
  | Some txn => if has_durable_obligation st txn then Some (txn, tid txn) else None
  | None => None
  end.

(** [clear_committing]: only the retiring transaction's own slot is cleared. *)
Definition clear_committing (st : JournalState) (t : Z) : JournalState :=
  match committing st with
  | Some c => if tid (ct_txn c) =? t then set_committing st None else st
  | None => st
  end.

(** ** The active transaction of a handle *)

Inductive Seat : Set := SeatRunning | SeatLocking.

(** [active_txn_mut]: the running transaction first, then the locking one. *)
Definition active_txn (st : JournalState) (t : Z) : option (Seat * Transaction) :=
  match running st with
  | Some txn => if tid txn =? t then Some (SeatRunning, txn)
                else match locking st with
                     | Some txn => if tid txn =? t then Some (SeatLocking, txn) else None
                     | None => None
                     end
  | None => match locking st with
            | Some txn => if tid txn =? t then Some (SeatLocking, txn) else None
            | None => None
            end
  end.

Definition put_active (st : JournalState) (s : Seat) (txn : Transaction) : JournalState :=
  match s with
  | SeatRunning => set_seats st (Some txn) (locking st)
  | SeatLocking => set_seats st (running st) (Some txn)
  end.

(** [verify_active] / [active_for] *)
Definition verify_active (st : JournalState) (h : Handle) : result (Seat * Transaction) :=
  match active_txn st (h_tid h) with
  | Some a => Ok a
  | None => Err EIO
  end.

(** ** Captures through a handle

    Functions on a handle return it, since its credit cells change. *)

(** A write credential: inert without a handle. *)
Definition WriteAccess : Set := option (Z * Z * Z).   (* handle tid, block, generation *)

(** Charging a fresh capture writes the transaction back even on error. *)
Definition finish_capture (g : JournalGeometry) (st : JournalState) (s : Seat) (txn : Transaction) (h : Handle)
    (fresh : bool) (bid gen : Z) : result WriteAccess * JournalState * Handle :=
  if fresh then
    match charge_fresh_capture g txn h with
    | (Ok _, txn, h) => (Ok (Some (h_tid h, bid, gen)), put_active st s txn, h)
    | (Err e, txn, h) => (Err e, put_active st s txn, h)
    end
  else (Ok (Some (h_tid h, bid, gen)), put_active st s txn, h).

(** [get_write_access] with a handle *)
Definition live_write_access (j : Journal) (h : Handle) (bid : Z) : result WriteAccess * Journal * Handle :=
  let st := state j in
  match active_txn st (h_tid h) with
  | None => (Err EIO, j, h)
  | Some (s, txn) =>
      let locked_predecessor := match s with SeatRunning => locking st | SeatLocking => None end in
      let seed :=
        match (locked ← locked_predecessor; buffer_bytes locked bid) with
        | Some b => Some b
        | None => ui_image <$> uncheckpointed st !! bid
        end in
      let fresh := negb (is_captured txn bid) in
      match capture_write txn bid seed (j_device j) with
      | (Err e, txn) => (Err e, with_state j (put_active st s txn), h)
      | (Ok gen, txn) =>
          match finish_capture (geometry j) st s txn h fresh bid gen with
          | (r, st, h) => (r, with_state j st, h)
          end
      end
  end.

(** [get_create_access] with a handle *)
Definition live_create_access (j : Journal) (h : Handle) (bid : Z) : result WriteAccess * Journal * Handle :=
  let st := state j in
  match verify_active st h with
  | Err e => (Err e, j, h)
  | Ok (s, txn) =>
      let fresh := negb (is_captured txn bid) in
      let '(txn, gen) := capture_create txn bid in
      match finish_capture (geometry j) st s txn h fresh bid gen with
      | (r, st, h) => (r, with_state j st, h)
      end
  end.

(** Without a handle both return an inert credential and touch nothing. *)
Definition with_handle (live : Journal -> Handle -> Z -> result WriteAccess * Journal * Handle)
    (j : Journal) (h : option Handle) (bid : Z) : result WriteAccess * Journal * option Handle :=
  match h with
  | None => (Ok None, j, None)
  | Some h => match live j h bid with (r, j, h) => (r, j, Some h) end
  end.

Definition get_write_access := with_handle live_write_access.
Definition get_create_access := with_handle live_create_access.

(** [WriteAccess::patch]; the credential carries its handle's transaction. *)
Definition patch (j : Journal) (a : WriteAccess) (h : Handle) (f : list byte -> list byte) : result Journal :=
  match a with
  | None => Ok j
  | Some (_, bid, gen) =>
      let? (s, txn) := verify_active (state j) h in
      let? txn' := apply_patch txn bid gen f in
      Ok (with_state j (put_active (state j) s txn'))
  end.

(** [read_metadata_block]: the newest image wins over the device. *)
Definition read_metadata_block (j : option Journal) (d : device) (bid : Z) : result (list byte) :=
  let newest :=
    match j with
    | None => None
    | Some j =>
        let st := state j in
        match (txn ← running st; buffer_bytes txn bid) with
        | Some b => Some b
        | None =>
            match (txn ← locking st; buffer_bytes txn bid) with
            | Some b => Some b
            | None => ui_image <$> uncheckpointed st !! bid
            end
        end
    end in
  match newest with
  | Some bytes => Ok bytes
  | None => dev_read d bid
  end.

(** [pin_freed_run] *)
Definition pin_freed_run (j : Journal) (h : option Handle) (start count : Z) : result Journal :=
  match h with
  | None => Ok j
  | Some h =>
      if count =? 0 then Ok j
      else
        let st := state j in
        let? (_, txn) := verify_active st h in
        let run := match pinned_frees st !! start with
                   | Some r => {| pr_count := Z.max (pr_count r) count; pr_tid := tid txn |}
                   | None => {| pr_count := count; pr_tid := tid txn |}
                   end in
        Ok (with_state j (set_memory st (st_revoked st) (uncheckpointed st) (<[start := run]> (pinned_frees st))))
  end.

(** [pinned_frees_snapshot], in block order *)
Definition pinned_frees_snapshot (j : Journal) : list (Z * Z) :=
  omap (fun b => (fun r => (b, pr_count r)) <$> pinned_frees (state j) !! b)
    (sorted_keys (dom (pinned_frees (state j)))).

(** [RevokeDuty::discharge]: forget each block and evict its retained image. *)
Definition discharge (j : Journal) (h : Handle) (start count : Z) : result Journal :=
  let st := state j in
  let? (s, txn) := verify_active st h in
  let bids := map (fun i => start + Z.of_nat i) (seq 0 (Z.to_nat count)) in
  let txn' := fold_left forget_block bids txn in
  let uc := fold_left (fun m b => delete b m) bids (uncheckpointed st) in
  let st' := put_active st s txn' in
  Ok (with_state j (set_memory st' (st_revoked st') uc (pinned_frees st'))).

(** [try_register_ordered_data] *)
Definition try_register_ordered_data (j : Journal) (h : Handle) (ino len : Z) : result Journal :=
  let? (s, txn) := verify_active (state j) h in
  Ok (with_state j (put_active (state j) s (Transaction.register_ordered_data txn ino len))).

(** ** Starting and stopping handles *)

(** What one pass of the [admit] loop decides. *)
Inductive AdmitOutcome : Set :=
  | AdmitOk (t : Z)
  | WaitRoom (t epoch : Z)
  | WaitSpace (epoch : Z).

(** One pass of [admit]: it may create the running transaction; it charges
    the reservation only when it admits. *)
Definition admit_once (now : Z) (j : Journal) (credits : Z) : result AdmitOutcome * Journal :=
  let g := geometry j in
  if max_credits g <? credits then (Err ENOSPC, j)
  else if aborted j then (Err EIO, j)
  else
    let st := state j in
    match locking st with
    | Some l => (Ok (WaitRoom (tid l) (credit_release_epoch j)), j)
    | None =>
        let '(st, txn) :=
          match running st with
          | Some txn => (st, txn)
          | None =>
              let t := next_tid st in
              let txn := txn_new now t in
              (set_seats (set_next_tid st (Tid.next t)) (Some txn) None, txn)
          end in
        let j := with_state j st in
        if negb (is_ok (check_capacity g txn credits))
        then (Ok (WaitRoom (tid txn) (credit_release_epoch j)), j)
        else if commit_servicer j
                && (free_log_blocks g (head st) (tail_block st) <? reservation_footprint g txn credits)
        then (Ok (WaitSpace (credit_release_epoch j)), j)
        else
          let txn := with_credits txn (t_updates txn + 1) (outstanding_credits txn + credits) in
          (Ok (AdmitOk (tid txn)), with_state j (set_seats st (Some txn) (locking st)))
    end.

(** [journal_start], when admitted. *)
Definition handle_new (t credits : Z) : Handle :=
  {| h_tid := t; h_credits := credits; h_remaining := credits |}.

Definition note_credits_released (j : Journal) : Journal :=
  with_counters j (credit_release_epoch j + 1) (log_space_waits j) (restart_count j).

(** Releasing a handle's update and its unused credits. *)
Definition release_handle (st : JournalState) (h : Handle) : option JournalState :=
  match active_txn st (h_tid h) with
  | Some (s, txn) =>
      Some (put_active st s (with_credits txn (sat_sub (t_updates txn) 1)
                               (sat_sub (outstanding_credits txn) (h_remaining h))))
  | None => None
  end.

(** [journal_stop] *)
Definition journal_stop (j : Journal) (h : Handle) : Journal :=
  match release_handle (state j) h with
  | Some st => note_credits_released (with_state j st)
  | None => j
  end.

(** ** Growing a reservation *)

Definition grow (j : Journal) (h : Handle) (extra : Z) (txn : Transaction) : ExtendOutcome * Journal * Handle :=
  match try_grow_reservation (geometry j) txn h extra with
  | (o, txn, h) => (o, with_state j (set_seats (state j) (Some txn) (locking (state j))), h)
  end.

Definition handle_is_locked (st : JournalState) (h : Handle) : bool :=
  match locking st with Some l => tid l =? h_tid h | None => false end.

(** [journal_extend] *)
Definition journal_extend (j : Journal) (h : Handle) (extra : Z) : result ExtendOutcome * Journal * Handle :=
  if handle_is_locked (state j) h then (Ok NeedsRestart, j, h)
  else match running (state j) with
  | None => (Err EIO, j, h)
  | Some txn => match grow j h extra txn with (o, j, h) => (Ok o, j, h) end
  end.

(** [try_reserve_next] *)
Definition try_reserve_next (j : Journal) (h : Handle) (need : Z) : result ExtendOutcome * Journal * Handle :=
  if need <=? h_remaining h then (Ok Granted, j, h)
  else if handle_is_locked (state j) h then (Ok NeedsRestart, j, h)
  else match running (state j) with
  | None => (Err EIO, j, h)
  | Some txn => match grow j h (need - h_remaining h) txn with (o, j, h) => (Ok o, j, h) end
  end.

(** [extend_reservation_for_burst] *)
Definition extend_reservation_for_burst (j : Journal) (h : Handle) (extra : Z) : result unit * Journal * Handle :=
  if handle_is_locked (state j) h then (Err ENOSPC, j, h)
  else match running (state j) with
  | None => (Err EIO, j, h)
  | Some txn =>
      match grow j h extra txn with
      | (Granted, j, h) => (Ok tt, j, h)
      | (NeedsRestart, j, h) => (Err EFBIG, j, h)
      end
  end.

(** ** Commit requests *)

Definition request_commit_for (st : JournalState) (target : Z) : JournalState :=
  match commit_request st with
  | Some existing => if Tid.geq existing target then st else set_commit_request st (Some target)
  | None => set_commit_request st (Some target)
  end.

Definition request_commit_of_running (st : JournalState) : JournalState :=
  match committable_running st with
  | Some (_, t) => request_commit_for st t
  | None => st
  end.

(** The detaching half of [journal_restart]; the other half is [admit].
    An aborted journal leaves the handle as it is. *)
Definition journal_restart_release (j : Journal) (h : Handle) : Journal :=
  if aborted j then j
  else
    let st := match release_handle (state j) h with Some st => st | None => state j end in
    let j := note_credits_released (with_state j st) in
    let j := with_state j (request_commit_for (state j) (h_tid h)) in
    with_counters j (credit_release_epoch j) (log_space_waits j) (restart_count j + 1).

(** What [ensure_chunk_credits] does before it may have to restart. *)
Definition ensure_chunk_credits (j : Journal) (h : Handle) (need : Z)
  : result ExtendOutcome * Journal * Handle :=
  if need <=? h_remaining h then (Ok Granted, j, h)
  else journal_extend j h (need - h_remaining h).

(** [claim_op_handle] / [release_op_handle]: one open operation per task. *)
Definition claim_op_handle (j : Journal) (owner : option Z) : result (option Z) * Journal :=
  match owner with
  | None => (Ok None, j)
  | Some id =>
      if decide (id ∈ op_handle_owners j) then (Err EDEADLK, j)
      else (Ok (Some id), with_owners j ({[id]} ∪ op_handle_owners j))
  end.

Definition release_op_handle (j : Journal) (id : Z) : Journal :=
  with_owners j (op_handle_owners j ∖ {[id]}).

(** ** The pipeline *)

(** [commit_triggered] *)
Definition commit_triggered (g : JournalGeometry) (txn : Transaction) (now : Z) (requested : option Z) : bool :=
  match requested with Some r => Tid.geq r (tid txn) | None => false end
  || is_expired_at txn now
  || (batch_trigger_credits g <=? batch_footprint txn (tag_layout g)).

Inductive CommitCause : Set := WhenDue | Forced.
Inductive PipelineStep : Type := Staged (txn : Transaction) | Parked | Idle.

(** [advance_pipeline] *)
Definition advance_pipeline (now : Z) (j : Journal) (cause : CommitCause) : PipelineStep * Journal :=
  if aborted j then (Idle, j)
  else
    let st := state j in
    match committing st with
    | Some _ => (Idle, j)
    | None =>
        match locking st with
        | Some l =>
            if t_updates l =? 0
            then (Staged l, with_state j (stage_committing (set_seats st (running st) None) l))
            else (Parked, j)
        | None =>
            match committable_running st with
            | None => (Idle, j)
            | Some (txn, _) =>
                let due := match cause with Forced => true | WhenDue => false end
                           || commit_triggered (geometry j) txn now (commit_request st) in
                if negb due then (Idle, j)
                else if t_updates txn =? 0
                then (Staged txn, with_state j (stage_committing (set_seats st None (locking st)) txn))
                else (Parked, with_state j (set_seats st None (Some txn)))
            end
        end
    end.

Inductive CommitAction : Set := ActExit | ActAdvance | ActRearm.

Definition age_key (st : JournalState) : option Z := snd <$> committable_running st.

(** [poll_commit_action] *)
Definition poll_commit_action (now : Z) (j : Journal) (armed_age_key : option Z) : option CommitAction :=
  if stop j then Some ActExit
  else if aborted j then None
  else
    let st := state j in
    if bool_decide (is_Some (committing st)) then None
    else if space_pressure j then Some ActAdvance
    else match locking st with
    | Some l => if t_updates l =? 0 then Some ActAdvance else None
    | None =>
        let triggered := match committable_running st with
                         | Some (txn, _) => commit_triggered (geometry j) txn now (commit_request st)
                         | None => false
                         end in
        if triggered then Some ActAdvance
        else if negb (bool_decide (age_key st = armed_age_key)) then Some ActRearm
        else None
    end.

(** [age_deadline], when the timer is available *)
Definition age_deadline (now : Z) (j : Journal) : option Z * option Z :=
  if aborted j then (None, None)
  else match committable_running (state j) with
       | None => (None, None)
       | Some (txn, t) => (Some t, Some (until_expiry txn now))
       end.

(** ** Waiting for durability *)

(** [sync_durability_target] *)
Definition sync_durability_target (j : Journal) : result (option Z) :=
  let st := state j in
  let txn := match running st with Some t => Some t | None => locking st end in
  match txn with
  | Some t => if has_durable_obligation st t then Ok (Some (tid t))
              else match committing st with
                   | Some c => Ok (Some (tid (ct_txn c)))
                   | None => if aborted j then Err EIO else Ok None
                   end
  | None => match committing st with
            | Some c => Ok (Some (tid (ct_txn c)))
            | None => if aborted j then Err EIO else Ok None
            end
  end.

(** One poll of the waiters: [None] is to keep waiting. *)
Definition log_wait_commit_poll (j : Journal) (target : Z) : option (result unit) :=
  if Tid.geq (committed_tid j) target then Some (Ok tt)
  else if aborted j then Some (Err EIO) else None.

Definition wait_for_transaction_room_poll (j : Journal) (t epoch : Z) : option (result unit) :=
  if aborted j then Some (Err EIO)
  else if Tid.geq (committed_tid j) t || negb (credit_release_epoch j =? epoch) then Some (Ok tt) else None.

Definition wait_for_log_space_poll (j : Journal) (epoch : Z) : option (result unit) :=
  if aborted j then Some (Err EIO)
  else if negb (commit_servicer j) then Some (Ok tt)
  else if negb (credit_release_epoch j =? epoch) then Some (Ok tt) else None.

(** What [wait_for_log_space] does before it waits. *)
Definition wait_for_log_space_enter (j : Journal) : Journal :=
  if negb (commit_servicer j) then j
  else
    let j := with_counters j (credit_release_epoch j) (log_space_waits j + 1) (restart_count j) in
    let j := with_flags j (stop j) (aborted j) (sb_error j) true (commit_servicer j) in
    with_state j (request_commit_of_running (state j)).

(** ** Aborting *)

Definition S_ERRNO_ERROR_MARKER : Z := 5.

Definition abort (j : Journal) : Journal :=
  with_flags j (stop j) true (sb_error j) (space_pressure j) (commit_servicer j).

Definition set_s_errno (raw : RawJournalSuperblock) (e : Z) : RawJournalSuperblock :=
  Build_RawJournalSuperblock (s_header raw) (s_blocksize raw) (s_maxlen raw) (s_first raw) (s_sequence raw)
    (s_start raw) e (s_feature_compat raw) (s_feature_incompat raw) (s_feature_ro_compat raw)
    (s_uuid raw) (s_nr_users raw) (s_dynsuper raw) (s_max_transaction raw) (s_max_trans_data raw)
    (s_checksum_type raw) (s_padding2 raw) (s_num_fc_blks raw) (s_head raw) (s_padding raw) (s_checksum raw) (s_users raw).

(** Running a device operation of the journal. *)
Definition on_device {A} (m : M device A) : M Journal A := fun j =>
  match m (j_device j) with (r, d) => (r, with_device j d) end.

(** [write_errno_to_super] *)
Definition write_errno_to_super : M Journal unit := fun j =>
  match read_raw_superblock (geometry j) (j_device j) with
  | Err e => (Err e, j)
  | Ok raw => on_device (write_superblock (geometry j) (set_s_errno raw (sb_error j))) j
  end.

(** [abort_with_error]: the flag and the marker stand even when the
    superblock cannot be written. *)
Definition abort_with_error (j : Journal) : Journal :=
  let j := abort j in
  let j := with_flags j (stop j) (aborted j) S_ERRNO_ERROR_MARKER (space_pressure j) (commit_servicer j) in
  snd (write_errno_to_super j).

(** ** Lemmas: device operations *)

Lemma set_s_errno_wf raw e : c_wf superblock_codec raw -> fits 32 e -> c_wf superblock_codec (set_s_errno raw e).
Proof. intros W He. cbn in W |- *. destruct_and!. by split_and!. Qed.

Lemma on_device_ok {A} (m : M device A) j a d' :
  m (j_device j) = (Ok a, d') -> on_device m j = (Ok a, with_device j d').
Proof. intros H. unfold on_device. by rewrite H. Qed.

Lemma on_device_step {A} (m : M device A) j d0 a d' :
  m d0 = (Ok a, d') -> on_device m (with_device j d0) = (Ok a, with_device j d').
Proof. intros H. unfold on_device. cbn [j_device with_device]. by rewrite H. Qed.
