(* ===== verification/JournalInv.v ===== *)
(** * Memory and disk

    The invariant that ties the journal's state in memory to its log on
    disk: the tail and the head delimit the live log, the published id is
    that of its last transaction, and the revoke memory holds exactly the
    revokes of the live log. *)

From S2P Require Import Prelude JournalFormat Device Geometry Revoke LogWalk LogModel LogInv Transaction JournalState.

Record coupled (g : JournalGeometry) (lo n : Z) (xs : list logged) (j : Journal) : Prop := {
  jc_geo : geometry j = g;
  jc_log : log_inv g lo (j_device j) (tail_block (state j)) n xs;
  jc_head : match tail_block (state j) with
            | Some p => head (state j) = advance g p (log_len xs)
            | None => in_ring g (head (state j))
            end;
  jc_tail : tail_tid (state j) = u32 n;
  jc_committed : committed_tid j = u32 (n + zlen xs - 1);
  jc_revoked : st_revoked (state j) = table_of table_new n xs;
}.

(** ** Lemmas: the revoke memory *)

Lemma table_of_app t n xs ys : table_of t n (xs ++ ys) = table_of (table_of t n xs) (n + zlen xs) ys.
Proof.
  revert t n. induction xs as [|x xs IH]; intros t n; cbn [app table_of]; [by rewrite zlen_nil, Z.add_0_r|].
  rewrite IH, zlen_cons. by replace (n + 1 + zlen xs) with (n + (1 + zlen xs)) by lia.
Qed.

Lemma last_revoke_acc n xs b acc acc' :
  revoked_in xs b = true -> last_revoke n xs b acc = last_revoke n xs b acc'.
Proof.
  revert n acc acc'. induction xs as [|x xs IH]; intros n acc acc'; [done|]. cbn [revoked_in existsb last_revoke].
  case_bool_decide as Hx; cbn [orb]; [by rewrite !decide_True by done|]. rewrite !decide_False by done. apply IH.
Qed.

(** Retiring the records of a checkpointed prefix leaves those of the rest. *)
Lemma table_of_retire n ys zs :
  zlen (ys ++ zs) < 2 ^ 31 ->
  retire_through (table_of table_new n (ys ++ zs)) (u32 (n + zlen ys - 1)) = table_of table_new (n + zlen ys) zs.
Proof.
  intros Hl. rewrite zlen_app in Hl. pose proof (zlen_nonneg ys). pose proof (zlen_nonneg zs).
  destruct (table_of_sim (n - 1) n (ys ++ zs) table_new ∅ (table_sim_new _)) as (a & Hs & _ & Ha);
    [apply map_Forall_empty|lia|rewrite zlen_app; lia|].
  destruct (table_of_sim (n - 1) (n + zlen ys) zs table_new ∅ (table_sim_new _)) as (a2 & Hs2 & Hb2 & Ha2);
    [apply map_Forall_empty|lia|lia|].
  apply (table_sim_retire _ _ _ (n + zlen ys - 1)) in Hs; [|unfold in_window; lia].
  assert (filter (fun p => n + zlen ys - 1 < p.2) a = a2) as Ea.
  { apply map_eq. intros b. apply option_eq. intros m. rewrite map_lookup_filter_Some, Ha, Ha2, last_revoke_app, lookup_empty. cbn [snd].
    pose proof (last_revoke_in (n + zlen ys) zs b (last_revoke n ys b None)) as H1.
    pose proof (last_revoke_in (n + zlen ys) zs b None) as H2. destruct (revoked_in zs b) eqn:Er.
    - rewrite (last_revoke_acc _ zs b _ None Er). destruct H2 as (m2 & -> & ?). split; [tauto|]. intros [= ->]. split; [done|lia].
    - rewrite H1, H2. split; [|done]. intros [E Hm]. apply last_revoke_bound in E as [?|?]; [done|lia]. }
  destruct Hs as [Hs _], Hs2 as [Hs2 _]. rewrite Ea, <- Hs2 in Hs.
  destruct (retire_through _ _), (table_of _ _ zs). cbn in Hs. by subst.
Qed.

(** ** Lemmas: a checkpointed prefix *)

Lemma log_body_drop g lo d p n ys zs :
  log_body g lo d (Some p) n (ys ++ zs) -> log_body g lo d (Some (advance g p (log_len ys))) (n + zlen ys) zs.
Proof.
  intros [Hg Hm Hh Hp Ht Hl Hc Hch Hho Hold Hw]. rewrite log_len_app, zlen_app in *.
  pose proof (log_len_ge ys). pose proof (zlen_nonneg ys). pose proof (log_len_ge zs). pose proof (zlen_nonneg zs).
  apply log_contains_app in Hc as [_ Hc]. apply Forall_app in Hch as [_ Hch], Hho as [_ Hho].
  replace (n + (zlen ys + zlen zs) + 1) with (n + zlen ys + zlen zs + 1) in * by lia.
  constructor; try done; [apply advance_in_ring; [done|done|lia]|lia|lia].
Qed.

Lemma log_fresh_drop g lo d p n ys zs :
  log_fresh g lo d (Some p) n (ys ++ zs) -> log_fresh g lo d (Some (advance g p (log_len ys))) (n + zlen ys) zs.
Proof. unfold log_fresh. by rewrite zlen_app, Z.add_assoc. Qed.
