(* ===== verification/Handles.v ===== *)
(** * Handles and their transaction

    The journal together with its open handles, as a transition system over
    the operations of [JournalState]: starting, stopping and restarting a
    handle, growing reservations, capturing, patching, forgetting, pinning,
    and the pipeline's moves.  The invariant ties the credit accounting of
    the active transaction to its handles. *)

From S2P Require Import Prelude Pod JournalFormat JournalTags Device Geometry Revoke Transaction JournalState.

Record world : Type := World {
  w_j : Journal;
  w_open : list Handle;
}.

Inductive world_step : world -> world -> Prop :=
  | WStart now j j' hs credits t :
      0 <= credits -> admit_once now j credits = (Ok (AdmitOk t), j') ->
      world_step (World j hs) (World j' (handle_new t credits :: hs))
  | WWait now j j' hs credits r :
      0 <= credits -> admit_once now j credits = (r, j') -> (forall t, r <> Ok (AdmitOk t)) ->
      world_step (World j hs) (World j' hs)
  | WStop j l1 h l2 : world_step (World j (l1 ++ h :: l2)) (World (journal_stop j h) (l1 ++ l2))
  | WRestart j l1 h l2 :
      aborted j = false ->
      world_step (World j (l1 ++ h :: l2)) (World (journal_restart_release j h) (l1 ++ l2))
  | WExtend j j' l1 h h' l2 extra r :
      0 <= extra -> journal_extend j h extra = (r, j', h') ->
      world_step (World j (l1 ++ h :: l2)) (World j' (l1 ++ h' :: l2))
  | WReserve j j' l1 h h' l2 need r :
      try_reserve_next j h need = (r, j', h') ->
      world_step (World j (l1 ++ h :: l2)) (World j' (l1 ++ h' :: l2))
  | WBurst j j' l1 h h' l2 extra r :
      0 <= extra -> extend_reservation_for_burst j h extra = (r, j', h') ->
      world_step (World j (l1 ++ h :: l2)) (World j' (l1 ++ h' :: l2))
  | WWrite j j' l1 h h' l2 bid r :
      live_write_access j h bid = (r, j', h') ->
      world_step (World j (l1 ++ h :: l2)) (World j' (l1 ++ h' :: l2))
  | WCreate j j' l1 h h' l2 bid r :
      live_create_access j h bid = (r, j', h') ->
      world_step (World j (l1 ++ h :: l2)) (World j' (l1 ++ h' :: l2))
  | WPatch j j' hs h a f : patch j a h f = Ok j' -> world_step (World j hs) (World j' hs)
  | WDischarge j j' hs h start count : discharge j h start count = Ok j' -> world_step (World j hs) (World j' hs)
  | WPin j j' hs h start count : pin_freed_run j h start count = Ok j' -> world_step (World j hs) (World j' hs)
  | WOrdered j j' hs h ino len : try_register_ordered_data j h ino len = Ok j' -> world_step (World j hs) (World j' hs)
  | WPipeline now j j' hs cause s : advance_pipeline now j cause = (s, j') -> world_step (World j hs) (World j' hs)
  | WClear j hs t : world_step (World j hs) (World (with_state j (clear_committing (state j) t)) hs)
  | WAbort j hs : world_step (World j hs) (World (abort_with_error j) hs).

(** The transaction new captures go to: at most one seat is taken. *)
Definition active (st : JournalState) : option Transaction :=
  match running st with Some t => Some t | None => locking st end.

Definition sum_remaining (hs : list Handle) : Z := foldr (fun h n => h_remaining h + n) 0 hs.

(** The accounting of the active transaction matches its open handles. *)
Definition accounts (t : Transaction) (hs : list Handle) : Prop :=
  t_updates t = zlen hs /\ outstanding_credits t = sum_remaining hs /\ Forall (fun h => h_tid h = tid t) hs.

Record seats_ok (st : JournalState) (hs : list Handle) : Prop := {
  seats_exclusive : is_Some (locking st) -> running st = None;
  seats_accounts : match active st with Some t => accounts t hs | None => hs = [] end;
  seats_remaining : Forall (fun h => 0 <= h_remaining h) hs;
}.

(** ** Lemmas *)

Lemma sum_remaining_cons h l : sum_remaining (h :: l) = h_remaining h + sum_remaining l.
Proof. done. Qed.

Lemma sum_remaining_app l1 l2 : sum_remaining (l1 ++ l2) = sum_remaining l1 + sum_remaining l2.
Proof. induction l1 as [|h l1 IH]; [done|]. cbn [app]. rewrite !sum_remaining_cons. lia. Qed.

Lemma sum_remaining_nonneg hs : Forall (fun h => 0 <= h_remaining h) hs -> 0 <= sum_remaining hs.
Proof. induction 1; [done|]. rewrite sum_remaining_cons. lia. Qed.

(** With one seat taken, a handle of that transaction finds it there. *)
Lemma active_txn_of st hs h :
  seats_ok st hs -> h ∈ hs ->
  exists s txn, active_txn st (h_tid h) = Some (s, txn) /\ active st = Some txn /\ tid txn = h_tid h /\
    (forall txn', active (put_active st s txn') = Some txn' /\
       (is_Some (locking (put_active st s txn')) -> running (put_active st s txn') = None)) /\
    s = match running st with Some _ => SeatRunning | None => SeatLocking end.
Proof.
  intros [Hx Ha _] Hin. unfold active, active_txn in *. destruct (running st) as [r|] eqn:Er.
  - destruct Ha as (_ & _ & Hf). pose proof (proj1 (Forall_forall _ _) Hf _ Hin) as Ht. cbn in Ht.
    rewrite (proj2 (Z.eqb_eq _ _)) by done. exists SeatRunning, r. split_and!; try done.
    intros txn'. cbn [put_active set_seats running locking]. split; [done|].
    intros Hl. specialize (Hx Hl). done.
  - destruct (locking st) as [l|] eqn:El; [|subst hs; by apply not_elem_of_nil in Hin].
    destruct Ha as (_ & _ & Hf). pose proof (proj1 (Forall_forall _ _) Hf _ Hin) as Ht. cbn in Ht.
    rewrite (proj2 (Z.eqb_eq _ _)) by done. exists SeatLocking, l. split_and!; try done.
    intros txn'. cbn [put_active set_seats running locking]. by rewrite Er.
Qed.

Lemma seats_ok_put st hs hs' s txn txn' h :
  seats_ok st hs -> h ∈ hs -> active_txn st (h_tid h) = Some (s, txn) ->
  accounts txn' hs' -> Forall (fun h => 0 <= h_remaining h) hs' ->
  seats_ok (put_active st s txn') hs'.
Proof.
  intros Hok Hin Ha Hacc Hrem. destruct (active_txn_of st hs h Hok Hin) as (s0 & t0 & E & _ & _ & Hput & _).
  rewrite Ha in E. injection E as <- <-. destruct (Hput txn') as [H1 H2]. split; [done| |done]. by rewrite H1.
Qed.

(** Changing what the seats' transaction captured keeps the accounting. *)
Lemma accounts_same t t' hs :
  tid t' = tid t -> t_updates t' = t_updates t -> outstanding_credits t' = outstanding_credits t ->
  accounts t hs -> accounts t' hs.
Proof. intros E1 E2 E3 (H1 & H2 & H3). unfold accounts. by rewrite E1, E2, E3. Qed.

Lemma accounts_replace t t' l1 h h' l2 :
  accounts t (l1 ++ h :: l2) -> tid t' = tid t -> t_updates t' = t_updates t -> h_tid h' = h_tid h ->
  outstanding_credits t' - outstanding_credits t = h_remaining h' - h_remaining h ->
  accounts t' (l1 ++ h' :: l2).
Proof.
  intros (H1 & H2 & H3) E1 E2 Eh Ed. unfold accounts in *.
  rewrite zlen_app, zlen_cons, sum_remaining_app, sum_remaining_cons in *.
  apply Forall_app in H3 as [H3 H4]. apply Forall_cons in H4 as [H4 H5]. rewrite E1, E2.
  split_and!; [lia|lia|]. apply Forall_app. split; [done|]. apply Forall_cons. split; [congruence|done].
Qed.

Lemma accounts_in t hs h : accounts t hs -> Forall (fun h => 0 <= h_remaining h) hs -> h ∈ hs ->
  h_remaining h <= outstanding_credits t /\ 1 <= t_updates t.
Proof.
  intros (H1 & H2 & _) Hr (l1 & l2 & ->)%list_elem_of_split. rewrite H1, H2.
  rewrite sum_remaining_app, sum_remaining_cons, zlen_app, zlen_cons.
  apply Forall_app in Hr as [Hr1 Hr2]. apply Forall_cons in Hr2 as [_ Hr2].
  pose proof (sum_remaining_nonneg _ Hr1). pose proof (sum_remaining_nonneg _ Hr2).
  pose proof (zlen_nonneg l1). pose proof (zlen_nonneg l2). lia.
Qed.

Lemma accounts_remove t l1 h l2 :
  accounts t (l1 ++ h :: l2) -> Forall (fun h => 0 <= h_remaining h) (l1 ++ h :: l2) ->
  accounts (with_credits t (sat_sub (t_updates t) 1) (sat_sub (outstanding_credits t) (h_remaining h))) (l1 ++ l2).
Proof.
  intros Ha Hr. destruct (accounts_in t _ h Ha Hr) as [Hle Hu]; [set_solver|]. destruct Ha as (H1 & H2 & H3).
  unfold accounts, sat_sub in *. cbn [t_updates outstanding_credits tid with_credits].
  rewrite zlen_app, zlen_cons, sum_remaining_app, sum_remaining_cons in *.
  apply Forall_app in H3 as [H3 H4]. apply Forall_cons in H4 as [_ H4].
  split_and!; [lia|lia|by apply Forall_app].
Qed.

(** ** Credits follow the handle *)

(** What an operation on one handle does to the transaction's accounting. *)
Definition credit_moves (t t' : Transaction) (h h' : Handle) : Prop :=
  tid t' = tid t /\ t_updates t' = t_updates t /\ h_tid h' = h_tid h /\ 0 <= h_remaining h' /\
  outstanding_credits t' - outstanding_credits t = h_remaining h' - h_remaining h.

Lemma try_grow_moves g t h extra o t' h' :
  0 <= extra -> 0 <= h_remaining h -> try_grow_reservation g t h extra = (o, t', h') -> credit_moves t t' h h'.
Proof.
  intros He Hr. unfold try_grow_reservation, credit_moves. destruct (max_credits g <? _); intros [= <- <- <-].
  - split_and!; try done; lia.
  - cbn [tid with_credits t_updates outstanding_credits grant_credits h_tid h_remaining]. split_and!; try done; lia.
Qed.

Lemma spend_moves t t0 h h0 :
  credit_moves t t0 h h0 -> 1 <= h_remaining h0 -> 1 <= outstanding_credits t0 ->
  credit_moves t (consume_reserved_credit t0) h (spend_one_credit h0).
Proof.
  unfold credit_moves, consume_reserved_credit, spend_one_credit, sat_sub.
  cbn [tid with_credits t_updates outstanding_credits h_tid h_remaining]. lia.
Qed.

Lemma charge_moves g t h r t' h' :
  0 <= h_remaining h -> h_remaining h <= outstanding_credits t ->
  charge_fresh_capture g t h = (r, t', h') -> credit_moves t t' h h'.
Proof.
  intros Hr Hle. unfold charge_fresh_capture. destruct (Z.eqb_spec (h_remaining h) 0) as [E|E].
  - destruct (try_grow_reservation g t h EXTEND_BATCH_BLOCKS) as [[o t1] h1] eqn:E1.
    pose proof (try_grow_moves g t h EXTEND_BATCH_BLOCKS _ _ _ ltac:(done) Hr E1) as M1.
    unfold try_grow_reservation in E1. destruct (max_credits g <? _) in E1; injection E1 as <- <- <-.
    + destruct (try_grow_reservation g t h 1) as [[o t2] h2] eqn:E2.
      pose proof (try_grow_moves g t h 1 _ _ _ ltac:(done) Hr E2) as M2.
      unfold try_grow_reservation in E2. destruct (max_credits g <? _) in E2; injection E2 as <- <- <-.
      * by intros [= <- <- <-].
      * intros [= <- <- <-]. apply spend_moves; [done| |];
          cbn [h_remaining grant_credits outstanding_credits with_credits]; lia.
    + intros [= <- <- <-]. apply spend_moves; [done| |];
        cbn [h_remaining grant_credits outstanding_credits with_credits]; unfold EXTEND_BATCH_BLOCKS; lia.
  - intros [= <- <- <-]. apply spend_moves; [|lia|lia]. unfold credit_moves. split_and!; try done; lia.
Qed.

Lemma moves_seats st l1 h l2 s txn txn1 h1 :
  seats_ok st (l1 ++ h :: l2) -> active_txn st (h_tid h) = Some (s, txn) -> credit_moves txn txn1 h h1 ->
  seats_ok (put_active st s txn1) (l1 ++ h1 :: l2).
Proof.
  intros Hok Ha (M1 & M2 & M3 & M4 & M5).
  destruct (active_txn_of st _ h Hok) as (s0 & t0 & E & Hact & _); [set_solver|].
  rewrite Ha in E. injection E as <- <-. pose proof Hok as [Hx Hacc Hr]. rewrite Hact in Hacc.
  eapply (seats_ok_put st (l1 ++ h :: l2) _ _ _ _ h); [done|set_solver|exact Ha| |].
  - by eapply accounts_replace.
  - apply Forall_app in Hr as [Hr1 Hr2]. apply Forall_cons in Hr2 as [_ Hr2].
    apply Forall_app. split; [done|]. by apply Forall_cons.
Qed.

(** A transaction with the same accounting is as good. *)
Definition same_credits (t t' : Transaction) : Prop :=
  tid t' = tid t /\ t_updates t' = t_updates t /\ outstanding_credits t' = outstanding_credits t.

Lemma same_credits_seats st hs i s txn txn1 :
  seats_ok st hs -> active_txn st i = Some (s, txn) -> same_credits txn txn1 ->
  seats_ok (put_active st s txn1) hs.
Proof.
  intros [Hx Ha Hr] E (M1 & M2 & M3). unfold active_txn, active in *.
  destruct (running st) as [r|] eqn:Er; [|destruct (locking st) as [l|] eqn:El; [|done]].
  - destruct (locking st) as [l|] eqn:El; [by specialize (Hx (mk_is_Some _ _ eq_refl))|].
    destruct (_ =? i); [|done]. injection E as <- <-.
    split; cbn [put_active set_seats active running locking]; [by rewrite El; intros [? [=]]|by eapply accounts_same|done].
  - destruct (_ =? i); [|done]. injection E as <- <-. unfold put_active. rewrite Er.
    split; cbn [set_seats active running locking]; [done|by eapply accounts_same|done].
Qed.

Lemma capture_create_credits t bid : same_credits t (capture_create t bid).1.
Proof. unfold capture_create. by destruct (metadata (cancel_revoke t bid) !! bid). Qed.

Lemma capture_write_credits t bid seed d r t' : capture_write t bid seed d = (r, t') -> same_credits t t'.
Proof.
  unfold capture_write. destruct (metadata (cancel_revoke t bid) !! bid); [by intros [= <- <-]|].
  destruct (match seed with Some s => Ok s | None => dev_read d bid end); by intros [= <- <-].
Qed.

Lemma forget_blocks_credits bids t : same_credits t (fold_left forget_block bids t).
Proof.
  revert t. induction bids as [|b bids IH]; intros t; [done|]. cbn [fold_left].
  unfold same_credits. destruct (IH (forget_block t b)) as (-> & -> & ->). done.
Qed.

Lemma finish_capture_seats g st l1 h l2 s txn txn1 fresh bid gen r st' h' :
  seats_ok st (l1 ++ h :: l2) -> active_txn st (h_tid h) = Some (s, txn) -> same_credits txn txn1 ->
  finish_capture g st s txn1 h fresh bid gen = (r, st', h') -> seats_ok st' (l1 ++ h' :: l2).
Proof.
  intros Hok Ha (M1 & M2 & M3). unfold finish_capture.
  destruct (active_txn_of st _ h Hok) as (s0 & t0 & E & Hact & _); [set_solver|]. rewrite Ha in E. injection E as <- <-.
  pose proof Hok as [Hx Hacc Hr]. rewrite Hact in Hacc.
  destruct (accounts_in _ _ h Hacc Hr) as [Hle _]; [set_solver|].
  assert (0 <= h_remaining h) as H0 by (eapply (proj1 (Forall_forall _ _) Hr); set_solver).
  destruct fresh.
  - destruct (charge_fresh_capture g txn1 h) as [[r1 t1] h1] eqn:E1.
    assert (credit_moves txn t1 h h1) as Hm.
    { assert (h_remaining h <= outstanding_credits txn1) as Hle1 by lia.
      destruct (charge_moves _ _ _ _ _ _ H0 Hle1 E1) as (?&?&?&?&?). unfold credit_moves. split_and!; try congruence; lia. }
    destruct r1; intros [= <- <- <-]; by eapply moves_seats.
  - intros [= <- <- <-]. eapply moves_seats; [done..|]. unfold credit_moves. rewrite M1, M2, M3. split_and!; try done; lia.
Qed.

(** ** The steps keep the invariant *)

Lemma admit_seats now j credits r j' hs :
  0 <= credits -> seats_ok (state j) hs -> admit_once now j credits = (r, j') ->
  seats_ok (state j') match r with Ok (AdmitOk t) => handle_new t credits :: hs | _ => hs end.
Proof.
  intros Hc Hok. unfold admit_once. destruct (_ <? credits); [by intros [= <- <-]|].
  destruct (aborted j); [by intros [= <- <-]|]. destruct (locking (state j)) as [l|] eqn:El; [by intros [= <- <-]|].
  set (p := match running (state j) with Some txn => _ | None => _ end).
  assert (locking p.1 = None /\ running p.1 = Some p.2 /\ seats_ok p.1 hs) as (Hl & Hru & Hp).
  { unfold p. destruct (running (state j)) as [t|] eqn:Er; [done|]. cbn [fst snd running locking set_seats set_next_tid].
    split_and!; try done. destruct Hok as [Hx Ha Hr]. unfold active in Ha. rewrite Er, El in Ha. subst hs.
    split; cbn [active running locking set_seats]; [by intros [? [=]]|done|done]. }
  clearbody p. destruct p as [st txn]. cbn [fst snd] in *.
  destruct (negb _); [by intros [= <- <-]|]. destruct (_ && _); [by intros [= <- <-]|]. intros [= <- <-].
  cbn [state with_state]. destruct Hp as [Hx Ha Hr]. unfold active in Ha. rewrite Hru in Ha. destruct Ha as (A1 & A2 & A3).
  split; cbn [active running locking set_seats]; [by rewrite Hl; intros [? [=]]| |by constructor].
  unfold accounts. cbn [t_updates outstanding_credits tid with_credits]. rewrite zlen_cons, sum_remaining_cons.
  cbn [handle_new h_remaining]. split_and!; [lia|lia|by constructor].
Qed.

Lemma release_seats st l1 h l2 :
  seats_ok st (l1 ++ h :: l2) -> exists st', release_handle st h = Some st' /\ seats_ok st' (l1 ++ l2).
Proof.
  intros Hok. destruct (active_txn_of st _ h Hok) as (s & t & E & Hact & _); [set_solver|].
  unfold release_handle. rewrite E. eexists. split; [done|]. pose proof Hok as [Hx Hacc Hr]. rewrite Hact in Hacc.
  eapply (seats_ok_put _ _ _ _ _ _ h); [exact Hok|set_solver|exact E|by apply accounts_remove|].
  apply Forall_app in Hr as [Hr1 Hr2]. apply Forall_cons in Hr2 as [_ Hr2]. by apply Forall_app.
Qed.

(** Only the seats matter to the invariant. *)
Lemma seats_ok_ext st st' hs :
  running st' = running st -> locking st' = locking st -> seats_ok st hs -> seats_ok st' hs.
Proof. intros E1 E2 [Hx Ha Hr]. split; unfold active in *; rewrite ?E1, ?E2; done. Qed.

Lemma request_commit_for_seats st t :
  running (request_commit_for st t) = running st /\ locking (request_commit_for st t) = locking st.
Proof. unfold request_commit_for. by repeat case_match. Qed.

Lemma grow_seats j l1 h l2 extra txn o j' h' :
  0 <= extra -> seats_ok (state j) (l1 ++ h :: l2) -> running (state j) = Some txn ->
  grow j h extra txn = (o, j', h') -> seats_ok (state j') (l1 ++ h' :: l2).
Proof.
  intros He Hok Hru. unfold grow. destruct (try_grow_reservation _ _ _ _) as [[o1 t1] h1] eqn:E. intros [= <- <- <-].
  cbn [state with_state]. destruct (active_txn_of _ _ h Hok) as (s & t & Ea & Hact & Ht & _ & Hs); [set_solver|].
  rewrite Hru in Hs. subst s. unfold active in Hact. rewrite Hru in Hact. injection Hact as <-.
  eapply (moves_seats _ _ _ _ SeatRunning); [exact Hok|exact Ea|].
  eapply try_grow_moves; [exact He| |exact E]. destruct Hok as [_ _ Hr]. eapply (proj1 (Forall_forall _ _) Hr); set_solver.
Qed.

Lemma extend_seats j l1 h l2 extra r j' h' :
  0 <= extra -> seats_ok (state j) (l1 ++ h :: l2) -> journal_extend j h extra = (r, j', h') ->
  seats_ok (state j') (l1 ++ h' :: l2).
Proof.
  intros He Hok. unfold journal_extend. destruct (handle_is_locked _ _); [by intros [= <- <- <-]|].
  destruct (running (state j)) as [t|] eqn:Er; [|by intros [= <- <- <-]].
  destruct (grow j h extra t) as [[o1 j1] h1] eqn:E. intros [= <- <- <-]. by eapply grow_seats.
Qed.

Lemma reserve_seats j l1 h l2 need r j' h' :
  seats_ok (state j) (l1 ++ h :: l2) -> try_reserve_next j h need = (r, j', h') ->
  seats_ok (state j') (l1 ++ h' :: l2).
Proof.
  intros Hok. unfold try_reserve_next. destruct (Z.leb_spec need (h_remaining h)); [by intros [= <- <- <-]|].
  destruct (handle_is_locked _ _); [by intros [= <- <- <-]|].
  destruct (running (state j)) as [t|] eqn:Er; [|by intros [= <- <- <-]].
  destruct (grow j h _ t) as [[o1 j1] h1] eqn:E. intros [= <- <- <-]. eapply grow_seats; [|done..]. lia.
Qed.

Lemma burst_seats j l1 h l2 extra r j' h' :
  0 <= extra -> seats_ok (state j) (l1 ++ h :: l2) -> extend_reservation_for_burst j h extra = (r, j', h') ->
  seats_ok (state j') (l1 ++ h' :: l2).
Proof.
  intros He Hok. unfold extend_reservation_for_burst. destruct (handle_is_locked _ _); [by intros [= <- <- <-]|].
  destruct (running (state j)) as [t|] eqn:Er; [|by intros [= <- <- <-]].
  destruct (grow j h extra t) as [[o1 j1] h1] eqn:E. destruct o1; intros [= <- <- <-]; by eapply grow_seats.
Qed.

Lemma write_access_seats j l1 h l2 bid r j' h' :
  seats_ok (state j) (l1 ++ h :: l2) -> live_write_access j h bid = (r, j', h') ->
  seats_ok (state j') (l1 ++ h' :: l2).
Proof.
  intros Hok. unfold live_write_access.
  destruct (active_txn_of _ _ h Hok) as (s & t & Ea & _); [set_solver|]. rewrite Ea.
  destruct (capture_write _ _ _ _) as [r1 t1] eqn:E1. pose proof (capture_write_credits _ _ _ _ _ _ E1) as Hc.
  destruct r1 as [gen|e].
  - destruct (finish_capture _ _ _ _ _ _ _ _) as [[r2 st2] h2] eqn:E2. intros [= <- <- <-].
    by eapply finish_capture_seats.
  - intros [= <- <- <-]. by eapply same_credits_seats.
Qed.

Lemma create_access_seats j l1 h l2 bid r j' h' :
  seats_ok (state j) (l1 ++ h :: l2) -> live_create_access j h bid = (r, j', h') ->
  seats_ok (state j') (l1 ++ h' :: l2).
Proof.
  intros Hok. unfold live_create_access, verify_active.
  destruct (active_txn_of _ _ h Hok) as (s & t & Ea & _); [set_solver|]. rewrite Ea.
  pose proof (capture_create_credits t bid) as Hc. destruct (capture_create t bid) as [t1 gen]. cbn [fst] in Hc.
  destruct (finish_capture _ _ _ _ _ _ _ _) as [[r2 st2] h2] eqn:E2. intros [= <- <- <-].
  by eapply finish_capture_seats.
Qed.

Lemma verify_active_inv st h s t : verify_active st h = Ok (s, t) -> active_txn st (h_tid h) = Some (s, t).
Proof. unfold verify_active. destruct (active_txn st (h_tid h)) as [[??]|]; by intros [= <- <-]. Qed.

Lemma patch_seats j a h f j' hs : seats_ok (state j) hs -> patch j a h f = Ok j' -> seats_ok (state j') hs.
Proof.
  intros Hok. destruct a as [[[i bid] gen]|]; cbn [patch]; [|by intros [= <-]].
  destruct (verify_active _ _) as [[s t]|e] eqn:E; cbn [rbind]; [|done]. apply verify_active_inv in E.
  unfold apply_patch. destruct (metadata t !! bid); cbn [rbind]; [|done]. destruct (_ =? gen); cbn [rbind]; [|done].
  intros [= <-]. by eapply same_credits_seats.
Qed.

Lemma discharge_seats j h start count j' hs :
  seats_ok (state j) hs -> discharge j h start count = Ok j' -> seats_ok (state j') hs.
Proof.
  intros Hok. unfold discharge. destruct (verify_active _ _) as [[s t]|e] eqn:E; cbn [rbind]; [|done].
  apply verify_active_inv in E. intros [= <-].
  eapply (seats_ok_ext (put_active (state j) s (fold_left forget_block _ t))); [done..|].
  eapply same_credits_seats; [done..|apply forget_blocks_credits].
Qed.

Lemma pin_seats j h start count j' hs :
  seats_ok (state j) hs -> pin_freed_run j h start count = Ok j' -> seats_ok (state j') hs.
Proof.
  intros Hok. unfold pin_freed_run. destruct h as [h|]; [|by intros [= <-]]. destruct (count =? 0); [by intros [= <-]|].
  destruct (verify_active _ _) as [[s t]|e] eqn:E; cbn [rbind]; [|done]. intros [= <-]. by apply (seats_ok_ext (state j)).
Qed.

Lemma ordered_seats j h ino len j' hs :
  seats_ok (state j) hs -> try_register_ordered_data j h ino len = Ok j' -> seats_ok (state j') hs.
Proof.
  intros Hok. unfold try_register_ordered_data. destruct (verify_active _ _) as [[s t]|e] eqn:E; cbn [rbind]; [|done].
  apply verify_active_inv in E. intros [= <-]. by eapply same_credits_seats.
Qed.

Lemma stage_committing_seats st t :
  running (stage_committing st t) = running st /\ locking (stage_committing st t) = locking st.
Proof.
  unfold stage_committing. cbn [commit_request set_memory].
  destruct (commit_request st) as [q|]; [by destruct (Tid.geq (tid t) q)|done].
Qed.

Lemma committable_running_inv st t i : committable_running st = Some (t, i) -> running st = Some t.
Proof.
  unfold committable_running. destruct (running st) as [t'|]; [|done].
  destruct (has_durable_obligation st t'); [by intros [= <- <-]|done].
Qed.

(** A transaction is staged only when no handle is open on it. *)
Lemma pipeline_seats now j cause s j' hs :
  seats_ok (state j) hs -> advance_pipeline now j cause = (s, j') ->
  seats_ok (state j') hs /\ match s with Staged t => active (state j) = Some t /\ hs = [] | _ => True end.
Proof.
  intros Hok. unfold advance_pipeline. destruct (aborted j); [by intros [= <- <-]|].
  destruct (committing (state j)); [by intros [= <- <-]|]. pose proof Hok as [Hx Ha Hr]. unfold active in *.
  assert (forall t, accounts t hs -> t_updates t = 0 -> hs = []) as Hnil.
  { intros t (E & _) E0. rewrite E0 in E. by destruct hs. }
  destruct (locking (state j)) as [l|] eqn:El.
  - rewrite (Hx (mk_is_Some _ _ eq_refl)) in *. destruct (Z.eqb_spec (t_updates l) 0) as [E0|]; [|by intros [= <- <-]].
    intros [= <- <-]. rewrite (Hnil l Ha E0) in *. split; [|done]. cbn [state with_state].
    eapply seats_ok_ext; [apply stage_committing_seats..|]. split; cbn; [by intros [? [=]]|done|done].
  - destruct (committable_running (state j)) as [[txn i]|] eqn:Ec; [|by intros [= <- <-]].
    apply committable_running_inv in Ec. rewrite Ec in *. destruct (negb _); [by intros [= <- <-]|].
    destruct (Z.eqb_spec (t_updates txn) 0) as [E0|]; intros [= <- <-]; cbn [state with_state].
    + rewrite (Hnil txn Ha E0) in *. split; [|done]. eapply seats_ok_ext; [apply stage_committing_seats..|].
      split; cbn; [done| done|done].
    + split; [|done]. split; cbn; done.
Qed.

Lemma abort_with_error_state j : state (abort_with_error j) = state j.
Proof.
  unfold abort_with_error, write_errno_to_super, on_device.
  repeat (case_match; simplify_eq/=); done.
Qed.

Lemma clear_committing_seats st t :
  running (clear_committing st t) = running st /\ locking (clear_committing st t) = locking st.
Proof. unfold clear_committing. by repeat case_match. Qed.

Lemma journal_stop_seats j l1 h l2 :
  seats_ok (state j) (l1 ++ h :: l2) -> seats_ok (state (journal_stop j h)) (l1 ++ l2).
Proof. intros Hok. destruct (release_seats _ _ _ _ Hok) as (st & E & H). unfold journal_stop. by rewrite E. Qed.

Lemma journal_restart_seats j l1 h l2 :
  aborted j = false -> seats_ok (state j) (l1 ++ h :: l2) ->
  seats_ok (state (journal_restart_release j h)) (l1 ++ l2).
Proof.
  intros Ea Hok. destruct (release_seats _ _ _ _ Hok) as (st & E & H). unfold journal_restart_release. rewrite Ea, E.
  cbn [state with_state with_counters note_credits_released].
  eapply seats_ok_ext; [apply request_commit_for_seats..|done].
Qed.

Lemma world_step_ok w w' :
  world_step w w' -> seats_ok (state (w_j w)) (w_open w) -> seats_ok (state (w_j w')) (w_open w').
Proof.
  destruct 1 as [now j j' hs c t Hc E|now j j' hs c r Hc E Hr|j l1 h l2|j l1 h l2 Ha|j j' l1 h h' l2 e r He E|
    j j' l1 h h' l2 n r E|j j' l1 h h' l2 e r He E|j j' l1 h h' l2 b r E|j j' l1 h h' l2 b r E|j j' hs h a f E|
    j j' hs h st c E|j j' hs h st c E|j j' hs h i n E|now j j' hs c s E|j hs t|j hs]; cbn [w_j w_open]; intros Hok.
  - by apply (admit_seats _ _ _ _ _ _ Hc Hok E).
  - pose proof (admit_seats _ _ _ _ _ _ Hc Hok E) as H. destruct r as [[t| |]|]; try done. by destruct (Hr t).
  - by apply journal_stop_seats.
  - by apply journal_restart_seats.
  - by eapply extend_seats.
  - by eapply reserve_seats.
  - by eapply burst_seats.
  - by eapply write_access_seats.
  - by eapply create_access_seats.
  - by eapply patch_seats.
  - by eapply discharge_seats.
  - by eapply pin_seats.
  - by eapply ordered_seats.
  - by apply (pipeline_seats _ _ _ _ _ _ Hok E).
  - eapply seats_ok_ext; [apply clear_committing_seats..|done].
  - by rewrite abort_with_error_state.
Qed.

Lemma world_steps_ok w w' :
  rtc world_step w w' -> seats_ok (state (w_j w)) (w_open w) -> seats_ok (state (w_j w')) (w_open w').
Proof. induction 1; eauto using world_step_ok. Qed.

Lemma journal_new_seats g d : seats_ok (state (journal_new g d)) [].
Proof. split; cbn; [by intros [? [=]]|done|done]. Qed.

(** ** What an operation reads *)

(** The block as the next operation sees it. *)
Definition view (j : Journal) (bid : Z) : result (list byte) := read_metadata_block (Some j) (j_device j) bid.

(** The read order, over the active transaction. *)
Definition view_of (t : option Transaction) (uc : gmap Z UncheckpointedImage) (d : device) (b : Z) : result (list byte) :=
  match (x ← t; buffer_bytes x b) with
  | Some x => Ok x
  | None => match uc !! b with Some i => Ok (ui_image i) | None => dev_read d b end
  end.

Lemma view_exclusive j b :
  (is_Some (locking (state j)) -> running (state j) = None) ->
  view j b = view_of (active (state j)) (uncheckpointed (state j)) (j_device j) b.
Proof.
  intros Hx. unfold view, view_of, read_metadata_block, active. destruct (running (state j)) as [r|] eqn:Er.
  - destruct (locking (state j)) as [l|]; [by specialize (Hx (mk_is_Some _ _ eq_refl))|].
    cbn. destruct (buffer_bytes r b); [done|]. by destruct (uncheckpointed (state j) !! b).
  - cbn. destruct (locking (state j)) as [l|]; cbn; [destruct (buffer_bytes l b); [done|]|];
      by destruct (uncheckpointed (state j) !! b).
Qed.

Lemma view_active j hs b :
  seats_ok (state j) hs -> view j b = view_of (active (state j)) (uncheckpointed (state j)) (j_device j) b.
Proof. intros [Hx _ _]. by apply view_exclusive. Qed.

Lemma charge_metadata g t h r t' h' : charge_fresh_capture g t h = (r, t', h') ->
  metadata t' = metadata t /\ h_tid h' = h_tid h /\ tid t' = tid t.
Proof.
  unfold charge_fresh_capture, try_grow_reservation. destruct (h_remaining h =? 0); [|by intros [= <- <- <-]].
  destruct (max_credits g <? _); [|by intros [= <- <- <-]].
  destruct (max_credits g <? _); by intros [= <- <- <-].
Qed.

Lemma put_active_active st hs h s t t' :
  seats_ok st hs -> h ∈ hs -> active_txn st (h_tid h) = Some (s, t) ->
  active (put_active st s t') = Some t' /\
  (tid t' = h_tid h -> active_txn (put_active st s t') (h_tid h) = Some (s, t')) /\
  forall t'', put_active (put_active st s t') s t'' = put_active st s t''.
Proof.
  intros Hok Hin E. pose proof (active_txn_of _ _ _ Hok Hin) as (s0 & t0 & E0 & _ & _ & Hput & Hs).
  rewrite E in E0. injection E0 as <- <-. destruct (Hput t') as [H1 H2]. split_and!; [done| |].
  - intros Et. unfold active_txn, put_active in *. destruct s; cbn [running locking set_seats] in *.
    + by rewrite Et, Z.eqb_refl.
    + rewrite (H2 (mk_is_Some _ _ eq_refl)). by rewrite Et, Z.eqb_refl.
  - intros t''. by destruct s.
Qed.

Lemma finish_capture_ok j h s t0 fresh bid c a j1 h1 :
  tid t0 = h_tid h ->
  match finish_capture (geometry j) (state j) s t0 h fresh bid (generation c) with
  | (r, st, h') => (r, with_state j st, h')
  end = (Ok a, j1, h1) ->
  exists t1, j1 = with_state j (put_active (state j) s t1) /\ tid t1 = h_tid h /\ h_tid h1 = h_tid h /\
    a = Some (h_tid h, bid, generation c) /\ metadata t1 = metadata t0.
Proof.
  intros Et E. unfold finish_capture in E. destruct fresh.
  - destruct (charge_fresh_capture _ _ _) as [[r t1] h'] eqn:Ec.
    destruct (charge_metadata _ _ _ _ _ _ Ec) as (Em1 & Eh & Et1).
    destruct r as [u|e]; [|done]. injection E as <- <- <-. exists t1. split_and!; congruence.
  - injection E as <- <- <-. exists t0. split_and!; congruence.
Qed.

(** A granted write access has the block captured with what was read. *)
Lemma write_access_captures j hs h bid a j1 h1 :
  seats_ok (state j) hs -> h ∈ hs -> live_write_access j h bid = (Ok a, j1, h1) ->
  exists img s t t1 c, view j bid = Ok img /\ active_txn (state j) (h_tid h) = Some (s, t) /\
    j1 = with_state j (put_active (state j) s t1) /\ tid t1 = h_tid h /\ h_tid h1 = h_tid h /\
    a = Some (h_tid h, bid, generation c) /\ metadata t1 = <[bid := c]> (metadata t) /\ buffer c = img.
Proof.
  intros Hok Hin. destruct (active_txn_of _ _ h Hok Hin) as (s & t & Ea & Hact & Ht & _).
  unfold live_write_access. rewrite Ea, (view_active _ _ _ Hok), Hact. unfold view_of. cbn [mbind option_bind].
  set (lp := match s with SeatRunning => _ | SeatLocking => None end).
  assert (lp = None) as ->.
  { unfold lp. destruct s; [|done]. pose proof Hok as [Hx _ _]. destruct (locking (state j)) eqn:El; [|done].
    unfold active_txn in Ea. specialize (Hx (mk_is_Some _ _ eq_refl)). rewrite Hx, El in Ea. by destruct (_ =? _). }
  cbn [mbind option_bind]. unfold capture_write. cbn [metadata cancel_revoke with_captures]. unfold buffer_bytes.
  destruct (metadata t !! bid) as [c|] eqn:Em; cbn [fmap option_fmap option_map].
  - intros (t1 & ? & ? & ? & ? & Em1)%(finish_capture_ok _ _ _ _ _ _ c); [|done].
    exists (buffer c), s, t, t1, c. rewrite insert_id by done. by split_and!.
  - destruct (uncheckpointed (state j) !! bid) as [u|] eqn:Eu; cbn [fmap option_fmap option_map].
    + intros (t1 & ? & ? & ? & ? & Em1)%(finish_capture_ok _ _ _ _ _ _ (Build_Capture _ (ui_image u))); [|done].
      eexists _, s, t, t1, _. by split_and!.
    + destruct (dev_read (j_device j) bid) as [img|e] eqn:Ed; [|done].
      intros (t1 & ? & ? & ? & ? & Em1)%(finish_capture_ok _ _ _ _ _ _ (Build_Capture _ img)); [|done].
      eexists _, s, t, t1, _. by split_and!.
Qed.

Lemma stash_view t uc d b : view_of None (stash_uncheckpointed t uc) d b = view_of (Some t) uc d b.
Proof.
  unfold view_of, stash_uncheckpointed, buffer_bytes. cbn [mbind option_bind]. rewrite lookup_union, lookup_fmap.
  destruct (metadata t !! b); cbn; [by destruct (uc !! b)|]. by destruct (uc !! b).
Qed.

Lemma stage_committing_memory st t :
  uncheckpointed (stage_committing st t) = stash_uncheckpointed t (uncheckpointed st).
Proof.
  unfold stage_committing. cbn [commit_request set_memory].
  destruct (commit_request st) as [q|]; [by destruct (Tid.geq (tid t) q)|done].
Qed.

Lemma pipeline_view now j cause s j' hs b :
  seats_ok (state j) hs -> advance_pipeline now j cause = (s, j') ->
  view_of (active (state j')) (uncheckpointed (state j')) (j_device j') b =
  view_of (active (state j)) (uncheckpointed (state j)) (j_device j) b.
Proof.
  intros [Hx _ _]. unfold advance_pipeline. destruct (aborted j); [by intros [= <- <-]|].
  destruct (committing (state j)); [by intros [= <- <-]|]. unfold active in *.
  destruct (locking (state j)) as [l|] eqn:El.
  - rewrite (Hx (mk_is_Some _ _ eq_refl)) in *. destruct (t_updates l =? 0); intros [= <- <-]; cbn [state with_state].
    + destruct (stage_committing_seats (set_seats (state j) None None) l) as [-> ->].
      rewrite stage_committing_memory. apply stash_view.
    + by rewrite El, Hx.
  - destruct (committable_running (state j)) as [[txn i]|] eqn:Ec; [|intros [= <- <-]; by rewrite El].
    apply committable_running_inv in Ec. rewrite Ec in *.
    destruct (negb _); [intros [= <- <-]; by rewrite Ec|]. destruct (t_updates txn =? 0); intros [= <- <-]; [|done].
    cbn [state with_state]. destruct (stage_committing_seats (set_seats (state j) None None) txn) as [-> ->].
    rewrite stage_committing_memory. apply stash_view.
Qed.

Lemma with_state_twice j st st' : with_state (with_state j st) st' = with_state j st'.
Proof. done. Qed.

(** Patching the active transaction's capture of a block. *)
Lemma patched_view j hs h s t t2 bid img b :
  seats_ok (state j) hs -> h ∈ hs -> active_txn (state j) (h_tid h) = Some (s, t) ->
  (exists c, metadata t2 = <[bid := c]> (metadata t) /\ buffer c = img) ->
  view (with_state j (put_active (state j) s t2)) b = if decide (b = bid) then Ok img else view j b.
Proof.
  intros Hok Hin Ea (c & Em & Hb). pose proof (active_txn_of _ _ _ Hok Hin) as (s0 & t0 & E0 & Hact & _ & Hput & Hs).
  rewrite Ea in E0. injection E0 as <- <-. rewrite (view_active j hs b Hok). destruct (Hput t2) as [Hact2 Hx2].
  assert (uncheckpointed (put_active (state j) s t2) = uncheckpointed (state j)) as Eu by (by destruct s).
  assert (view (with_state j (put_active (state j) s t2)) b =
          view_of (Some t2) (uncheckpointed (state j)) (j_device j) b) as ->.
  { rewrite <- Hact2, <- Eu. exact (view_exclusive (with_state j (put_active (state j) s t2)) b Hx2). }
  unfold view_of. rewrite Hact. cbn [mbind option_bind]. unfold buffer_bytes. rewrite Em.
  destruct (decide (b = bid)) as [->|Hne].
  - rewrite lookup_insert_eq. cbn. by rewrite Hb.
  - by rewrite lookup_insert_ne.
Qed.

(** ** Forgetting a run of blocks *)

Definition run_blocks (start count : Z) : list Z := map (fun i => start + Z.of_nat i) (seq 0 (Z.to_nat count)).

Lemma elem_of_run_blocks start count b : b ∈ run_blocks start count <-> start <= b < start + count.
Proof.
  unfold run_blocks. rewrite list_elem_of_fmap. setoid_rewrite elem_of_seq. split.
  - intros (i & -> & Hi). lia.
  - intros Hb. exists (Z.to_nat (b - start)). lia.
Qed.

Lemma forget_blocks_lookup bids t b :
  metadata (fold_left forget_block bids t) !! b = (if decide (b ∈ bids) then None else metadata t !! b) /\
  (b ∈ revoked (fold_left forget_block bids t) <-> b ∈ bids \/ b ∈ revoked t).
Proof.
  revert t. induction bids as [|x bids IH]; intros t; cbn [fold_left].
  - rewrite decide_False by apply not_elem_of_nil. set_solver.
  - destruct (IH (forget_block t x)) as [-> IH2]. rewrite IH2. cbn [metadata revoked forget_block with_captures].
    split; [|set_solver]. destruct (decide (b ∈ bids)); [by rewrite decide_True by set_solver|].
    destruct (decide (b = x)) as [->|]; [rewrite decide_True by set_solver; apply lookup_delete_eq|].
    rewrite decide_False by set_solver. by apply lookup_delete_ne.
Qed.

Lemma evict_lookup {A} bids (m : gmap Z A) b :
  fold_left (fun m b => delete b m) bids m !! b = if decide (b ∈ bids) then None else m !! b.
Proof.
  revert m. induction bids as [|x bids IH]; intros m; cbn [fold_left].
  - by rewrite decide_False by apply not_elem_of_nil.
  - rewrite IH. destruct (decide (b ∈ bids)); [by rewrite decide_True by set_solver|].
    destruct (decide (b = x)) as [->|]; [rewrite decide_True by set_solver; apply lookup_delete_eq|].
    rewrite decide_False by set_solver. by apply lookup_delete_ne.
Qed.

Lemma charge_refused g t h :
  h_remaining h = 0 ->
  max_credits g < reserved_metadata_blocks t 1 + nr_revoke_blocks t (tag_layout g) ->
  charge_fresh_capture g t h = (Err ENOSPC, t, h).
Proof.
  intros Hr Hf. unfold charge_fresh_capture, try_grow_reservation. rewrite Hr, Z.eqb_refl.
  rewrite (proj2 (Z.ltb_lt _ _)); [by rewrite (proj2 (Z.ltb_lt _ _) Hf)|].
  unfold reserved_metadata_blocks, EXTEND_BATCH_BLOCKS in *. lia.
Qed.

(** ** Theorems *)


(** A transaction enters the committing slot only when every handle on it
    has been closed, and staging it leaves every block reading as before: its
    after-images stay visible to the operations that follow. *)
Theorem staging_is_safe g d w now cause s j' :
  rtc world_step (World (journal_new g d) []) w -> advance_pipeline now (w_j w) cause = (s, j') ->
  (forall t, s = Staged t -> w_open w = []) /\ forall b, view j' b = view (w_j w) b.
Proof.
  intros Hw E. pose proof (world_steps_ok _ _ Hw (journal_new_seats g d)) as Hok.
  destruct (pipeline_seats _ _ _ _ _ _ Hok E) as [Hok' Hs]. split; [by intros t ->; destruct Hs|].
  intros b. rewrite (view_active _ _ b Hok'), (view_active _ _ b Hok). by eapply pipeline_view.
Qed.

(** Read your writes.  A granted write access captures exactly what a read
    of the block returned; patching through it makes the block read as the
    patched image, and no other block changes. *)
Theorem read_after_patch g d w h bid a j1 h1 f :
  rtc world_step (World (journal_new g d) []) w -> h ∈ w_open w ->
  live_write_access (w_j w) h bid = (Ok a, j1, h1) ->
  exists img j2, view (w_j w) bid = Ok img /\ patch j1 a h1 f = Ok j2 /\
    view j2 bid = Ok (f img) /\ forall b, b <> bid -> view j2 b = view (w_j w) b.
Proof.
  intros Hw Hin E. pose proof (world_steps_ok _ _ Hw (journal_new_seats g d)) as Hok.
  destruct (write_access_captures _ _ _ _ _ _ _ Hok Hin E) as (img & s & t & t1 & c & Hv & Ea & -> & Et & Eh & -> & Em & Hc).
  destruct (put_active_active _ _ _ _ _ t1 Hok Hin Ea) as (_ & Hfind & Hput).
  exists img. eexists. split; [done|]. cbn [patch state with_state]. unfold verify_active.
  rewrite Eh, (Hfind Et). cbn [rbind]. unfold apply_patch. rewrite Em, lookup_insert_eq, Z.eqb_refl. cbn [rbind].
  split; [done|]. rewrite Hput, with_state_twice.
  split; [|intros b Hne]; rewrite (patched_view _ _ _ _ _ _ bid (f img) _ Hok Hin Ea); try (by case_decide);
    (eexists; split; [apply insert_insert_eq|cbn [buffer]; by rewrite Hc]).
Qed.

(** Discharging a revoke duty through an open handle succeeds and is
    complete: every block of the run is revoked by the handle's transaction,
    captured by it no more, and has no retained image left that a later read
    could resurrect; every other block keeps its capture, its revoke status
    and its image. *)
Theorem discharge_complete g d w h start count :
  rtc world_step (World (journal_new g d) []) w -> h ∈ w_open w ->
  exists s t j' t', verify_active (state (w_j w)) h = Ok (s, t) /\ discharge (w_j w) h start count = Ok j' /\
    active (state j') = Some t' /\
    forall b, if decide (start <= b < start + count)
              then b ∈ revoked t' /\ metadata t' !! b = None /\ uncheckpointed (state j') !! b = None
              else (b ∈ revoked t' <-> b ∈ revoked t) /\ metadata t' !! b = metadata t !! b /\
                   uncheckpointed (state j') !! b = uncheckpointed (state (w_j w)) !! b.
Proof.
  intros Hw Hin. pose proof (world_steps_ok _ _ Hw (journal_new_seats g d)) as Hok.
  destruct (active_txn_of _ _ h Hok Hin) as (s & t & E & _ & _ & Hput & _).
  exists s, t. unfold discharge, verify_active. rewrite E. cbn [rbind].
  eexists _, (fold_left forget_block (run_blocks start count) t). split; [done|]. split; [done|].
  split; [exact (proj1 (Hput _))|]. intros b.
  cbn [state with_state uncheckpointed set_memory]. fold (run_blocks start count).
  destruct (forget_blocks_lookup (run_blocks start count) t b) as [Em Er].
  pose proof (elem_of_run_blocks start count b) as Hb. case_decide as H1.
  - rewrite Em, evict_lookup, !decide_True by tauto. tauto.
  - rewrite Em, evict_lookup, !decide_False by tauto. tauto.
Qed.

(** A capture that finds the transaction full is refused with [ENOSPC],
    but the captured block stays in the transaction, which then exceeds
    [max_credits], the bound under which it is sure to fit the log. *)
Theorem full_capture_overshoots g d w h s t bid :
  rtc world_step (World (journal_new g d) []) w -> h ∈ w_open w -> h_remaining h = 0 ->
  verify_active (state (w_j w)) h = Ok (s, t) -> metadata t !! bid = None -> bid ∉ revoked t ->
  max_credits (geometry (w_j w)) <= batch_footprint t (tag_layout (geometry (w_j w))) ->
  exists j1 t1, live_create_access (w_j w) h bid = (Err ENOSPC, j1, h) /\
    verify_active (state j1) h = Ok (s, t1) /\ nr_metadata_blocks t1 = nr_metadata_blocks t + 1 /\
    max_credits (geometry j1) < batch_footprint t1 (tag_layout (geometry j1)).
Proof.
  intros Hw Hin Hr Ev Em Hrv Hfull. pose proof (world_steps_ok _ _ Hw (journal_new_seats g d)) as Hok.
  pose proof (verify_active_inv _ _ _ _ Ev) as Ea. destruct (active_txn_of _ _ h Hok Hin) as (s0 & t0 & E0 & Hact & Ht & _).
  rewrite Ea in E0. injection E0 as <- <-.
  set (t1 := (capture_create t bid).1).
  assert (Hm1 : nr_metadata_blocks t1 = nr_metadata_blocks t + 1 /\ revoked t1 = revoked t /\ tid t1 = tid t /\
    outstanding_credits t1 = outstanding_credits t).
  { unfold t1, capture_create. cbn [metadata cancel_revoke with_captures]. rewrite Em. cbn. split_and!; try done; [|set_solver].
    unfold nr_metadata_blocks. cbn. rewrite map_size_insert_None by done. lia. }
  destruct Hm1 as (Hn & Hv & Ht1 & Ho). exists (with_state (w_j w) (put_active (state (w_j w)) s t1)), t1.
  destruct (put_active_active _ _ _ _ _ t1 Hok Hin Ea) as (_ & Hfind & _).
  assert (Hb : batch_footprint t1 (tag_layout (geometry (w_j w))) = batch_footprint t (tag_layout (geometry (w_j w))) + 1).
  { unfold batch_footprint, nr_revoke_blocks, nr_revokes. rewrite Hv, Hn. lia. }
  split_and!; [|unfold verify_active; cbn [state with_state]; by rewrite Hfind by congruence|done|cbn [geometry with_state]; lia].
  unfold live_create_access. rewrite Ev.
  assert (is_captured t bid = false) as -> by (unfold is_captured; rewrite Em; apply bool_decide_eq_false_2; by intros [? [=]]).
  destruct (capture_create t bid) as [t1' gen] eqn:Ecc. cbn [fst] in t1. subst t1. cbn [negb finish_capture].
  assert (0 <= outstanding_credits t) as Hout.
  { pose proof Hok as [_ Ha Hrr]. rewrite Hact in Ha. destruct (accounts_in _ _ h Ha Hrr Hin). lia. }
  rewrite (charge_refused (geometry (w_j w)) t1' h Hr); [done|]. unfold batch_footprint in *. unfold reserved_metadata_blocks. lia.
Qed.

(** ** Witnesses

    A journal with one handle open, and one whose only transaction is full. *)

Module SampleHandle.

Definition fresh : Journal := journal_new sample_geometry (Sample.dev 0).
Definition started (credits : Z) (j : Journal) : Journal := (admit_once 0 j credits).2.
Definition w : world := World (started 3 fresh) [handle_new 5 3].

Definition wide_geometry : JournalGeometry :=
  let n := tags_per_descriptor (tag_layout sample_geometry) + 4 in
  let sb := g_superblock sample_geometry in
  {| block_map := List.map (fun i => 1000 + Z.of_nat i) (seq 0 (Z.to_nat n));
     g_superblock := {| jsb_maxlen := n; jsb_first := jsb_first sb; jsb_sequence := jsb_sequence sb;
       jsb_start := None; jsb_errno := 0; jsb_blocksize := jsb_blocksize sb;
       jsb_tag_layout := jsb_tag_layout sb; jsb_csum_seed := None |} |}.

Definition wide : Journal := journal_new wide_geometry (Sample.dev 0).

(** Capture the blocks [0 .. n-1]. *)
Definition creates (n : nat) (j : Journal) (h : Handle) : Journal * Handle :=
  fold_left (fun '(j, h) i => match live_create_access j h (Z.of_nat i) with (_, j, h) => (j, h) end) (seq 0 n) (j, h).

Definition full_credits : Z := max_credits wide_geometry.
Definition full : Journal * Handle :=
  creates (Z.to_nat full_credits) (started full_credits wide) (handle_new 5 full_credits).

End SampleHandle.

Lemma started_step g d credits t :
  0 <= credits -> (admit_once 0 (journal_new g d) credits).1 = Ok (AdmitOk t) ->
  rtc world_step (World (journal_new g d) [])
    (World (SampleHandle.started credits (journal_new g d)) [handle_new t credits]).
Proof.
  intros Hc E. eapply rtc_l; [|apply rtc_refl]. eapply (WStart 0); [done|].
  rewrite (surjective_pairing (admit_once 0 (journal_new g d) credits)), E. done.
Qed.

Lemma creates_steps n j h w0 :
  rtc world_step w0 (World j [h]) ->
  rtc world_step w0 (World (SampleHandle.creates n j h).1 [(SampleHandle.creates n j h).2]).
Proof.
  intros H0. unfold SampleHandle.creates. generalize (seq 0 n). intros l. revert j h H0.
  induction l as [|i l IH]; intros j h H0; [done|]. cbn [fold_left].
  destruct (live_create_access j h (Z.of_nat i)) as [[r j1] h1] eqn:E. apply IH.
  eapply rtc_r; [done|]. by apply (WCreate j j1 [] h h1 [] (Z.of_nat i) r).
Qed.

Lemma triple_eta {A B C} (p : A * B * C) a : p.1.1 = a -> p = (a, p.1.2, p.2).
Proof. by destruct p as [[??]?]; intros <-. Qed.


Lemma staging_is_safe_witness :
  (forall t, (advance_pipeline 0 (w_j SampleHandle.w) Forced).1 = Staged t -> w_open SampleHandle.w = []) /\
  forall b, view (advance_pipeline 0 (w_j SampleHandle.w) Forced).2 b = view (w_j SampleHandle.w) b.
Proof.
  apply (staging_is_safe sample_geometry (Sample.dev 0) SampleHandle.w 0 Forced).
  - apply started_step; [lia|vm_compute; reflexivity].
  - apply surjective_pairing.
Defined.

Lemma read_after_patch_witness : exists j2,
  view (w_j SampleHandle.w) 10 = Ok (zeros BLOCK_SIZE) /\
  view j2 10 = Ok (repeat Byte.x01 4096) /\ forall b, b <> 10 -> view j2 b = view (w_j SampleHandle.w) b.
Proof.
  destruct (read_after_patch sample_geometry (Sample.dev 0) SampleHandle.w (handle_new 5 3) 10
    (Some (5, 10, 0)) (live_write_access (w_j SampleHandle.w) (handle_new 5 3) 10).1.2
    (live_write_access (w_j SampleHandle.w) (handle_new 5 3) 10).2 (fun _ => repeat Byte.x01 4096)) as (img & j2 & H1 & H2 & H3 & H4).
  - apply started_step; [lia|vm_compute; reflexivity].
  - by apply list_elem_of_singleton.
  - apply triple_eta. vm_compute. reflexivity.
  - exists j2. split; [vm_compute; reflexivity|]. done.
Defined.

Lemma discharge_complete_witness : exists j' t',
  discharge (w_j SampleHandle.w) (handle_new 5 3) 20 2 = Ok j' /\ active (state j') = Some t' /\
  20 ∈ revoked t' /\ 21 ∈ revoked t' /\ 22 ∉ revoked t'.
Proof.
  destruct (discharge_complete sample_geometry (Sample.dev 0) SampleHandle.w (handle_new 5 3) 20 2)
    as (s & t & j' & t' & E & Ed & Ea & Hb).
  - apply started_step; [lia|vm_compute; reflexivity].
  - by apply list_elem_of_singleton.
  - exists j', t'. split_and!; [done|done|apply (Hb 20)|apply (Hb 21)|].
    intros H. apply (Hb 22) in H.
    assert (revoked t = ∅) as E0; [|rewrite E0 in H; set_solver].
    vm_compute in E. injection E as _ <-. vm_compute. reflexivity.
Defined.

Lemma full_capture_overshoots_witness : exists j1 t1,
  live_create_access SampleHandle.full.1 SampleHandle.full.2 600 = (Err ENOSPC, j1, SampleHandle.full.2) /\
  nr_metadata_blocks t1 = SampleHandle.full_credits + 1 /\
  ring SampleHandle.wide_geometry < log_footprint SampleHandle.wide_geometry (nr_metadata_blocks t1) 0.
Proof.
  assert (exists s t, verify_active (state SampleHandle.full.1) SampleHandle.full.2 = Ok (s, t)) as (s & t & E).
  { destruct (verify_active _ _) as [[s t]|e] eqn:E; [by eexists _, _|].
    assert (is_ok (verify_active (state SampleHandle.full.1) SampleHandle.full.2) = true) as E1 by (vm_compute; reflexivity).
    by rewrite E in E1. }
  assert (forall P : Transaction -> bool,
    match verify_active (state SampleHandle.full.1) SampleHandle.full.2 with Ok (_, t) => P t | Err _ => false end = P t) as HP
    by (intros P; by rewrite E).
  assert (nr_metadata_blocks t = SampleHandle.full_credits) as Hn.
  { apply Z.eqb_eq. rewrite <- (HP (fun t => nr_metadata_blocks t =? SampleHandle.full_credits)). vm_compute. reflexivity. }
  destruct (full_capture_overshoots SampleHandle.wide_geometry (Sample.dev 0)
    (World SampleHandle.full.1 [SampleHandle.full.2]) SampleHandle.full.2 s t 600) as (j1 & t1 & E1 & _ & E2 & _).
  - apply creates_steps, started_step; [vm_compute; discriminate|vm_compute; reflexivity].
  - by apply list_elem_of_singleton.
  - vm_compute. reflexivity.
  - exact E.
  - apply (bool_decide_eq_true_1 (metadata t !! 600 = None)).
    rewrite <- (HP (fun t => bool_decide (metadata t !! 600 = None))). vm_compute. reflexivity.
  - apply (bool_decide_eq_true_1 (600 ∉ revoked t)).
    rewrite <- (HP (fun t => bool_decide (600 ∉ revoked t))). vm_compute. reflexivity.
  - apply Z.leb_le. cbn [w_j].
    rewrite <- (HP (fun t => max_credits (geometry SampleHandle.full.1) <=? batch_footprint t (tag_layout (geometry SampleHandle.full.1)))).
    vm_compute. reflexivity.
  - exists j1, t1. rewrite E2, Hn. split_and!; [exact E1|done|vm_compute; reflexivity].
Defined.
