(* ===== verification/Commit.v ===== *)
(** * Committing a transaction

    Models [journal/commit.rs]: building the revoke blocks, the descriptor
    runs and the commit block of a transaction, and writing them to the log
    with the ordering a crash relies on.  The page cache of an inode is not
    part of the journal: flushing its dirty range is the parameter
    [flush_range] of the commit. *)

From S2P Require Import Prelude Pod Checksum JournalFormat JournalTags Device Geometry Revoke LogWalk LogModel LogInv Transaction JournalState.

(** ** A fallible [collect] *)

Fixpoint collect {A B} (f : A -> result B) (l : list A) : result (list B) :=
  match l with
  | [] => Ok []
  | a :: rest => let? b := f a in let? bs := collect f rest in Ok (b :: bs)
  end.

(** ** Descriptor runs *)

Record LoggedBlock : Type := {
  lb_bytes : list byte;
  lb_escape : bool;
}.

Record DescriptorRun : Type := {
  dr_descriptor : list byte;
  dr_blocks : list LoggedBlock;
}.

Definition nr_blocks (r : DescriptorRun) : Z := zlen (dr_blocks r).

Definition JBD2_MAGIC_BYTES : list byte := be_bytes 4 JBD2_MAGIC.

(** [bytes[..4] == JBD2_MAGIC_BYTES] *)
Definition needs_escape (bytes : list byte) : bool := bool_decide (slice 0 4 bytes = JBD2_MAGIC_BYTES).

(** [logged[..4].fill(0)] *)
Definition escaped (bytes : list byte) : list byte := splice 0 (zeros 4) bytes.

(** The bytes a logged block has in the log. *)
Definition logged_bytes (b : LoggedBlock) : list byte :=
  if lb_escape b then escaped (lb_bytes b) else lb_bytes b.

(** The flags of tag [i] of a run of [n]. *)
Definition run_flags (i n : Z) (bytes : list byte) : Z :=
  let flags := 0 in
  let flags := if negb (i =? 0) then Z.lor flags TAG_FLAG_SAME_UUID else flags in
  let flags := if i =? n - 1 then Z.lor flags TAG_FLAG_LAST_TAG else flags in
  if needs_escape bytes then Z.lor flags TAG_FLAG_ESCAPE else flags.

(** The loop of [build_descriptor_run]. *)
Fixpoint run_loop (w : TagWriter) (i n : Z) (run : list (Z * list byte)) : result (TagWriter * list LoggedBlock) :=
  match run with
  | [] => Ok (w, [])
  | (bid, bytes) :: rest =>
      let? w := put w bid (run_flags i n bytes) (if needs_escape bytes then escaped bytes else bytes) in
      let? (w, blocks) := run_loop w (i + 1) n rest in
      Ok (w, {| lb_bytes := bytes; lb_escape := needs_escape bytes |} :: blocks)
  end.

Definition build_descriptor_run (t : Z) (l : TagLayout) (seed : option JournalCsumSeed) (run : list (Z * list byte))
  : result DescriptorRun :=
  let header := {| h_magic := JBD2_MAGIC; h_blocktype := BLOCKTYPE_DESCRIPTOR; h_sequence := t |} in
  let block := write_at header_codec 0 header (zeros BLOCK_SIZE) in
  let? w := writer l block t seed in
  let? (w, blocks) := run_loop w 0 (zlen run) run in
  Ok {| dr_descriptor := finish w; dr_blocks := blocks |}.

Definition build_descriptor_chain (txn : Transaction) (l : TagLayout) (seed : option JournalCsumSeed)
  : result (list DescriptorRun) :=
  let captures := metadata_blocks txn in
  check negb (bool_decide (captures = [])) else EINVAL in
  collect (build_descriptor_run (tid txn) l seed) (chunks (tags_per_descriptor l) captures).

(** ** Revoke blocks *)

Definition build_revoke_block (t : Z) (l : TagLayout) (seed : option JournalCsumSeed) (run : list Z) : result (list byte) :=
  let? w := revoke_writer l t seed in
  let? w := revoke_put_all w run in
  Ok (revoke_finish w).

Definition build_revoke_blocks (txn : Transaction) (l : TagLayout) (seed : option JournalCsumSeed)
  : result (list (list byte)) :=
  collect (build_revoke_block (tid txn) l seed) (chunks (revoke_entries_per_block l) (revoked_blocks txn)).

(** ** The commit block, at time [(secs, nsecs)] *)

Definition build_commit_block (t : Z) (seed : option JournalCsumSeed) (now : Z * Z) : list byte :=
  let commit := {| c_header := {| h_magic := JBD2_MAGIC; h_blocktype := BLOCKTYPE_COMMIT; h_sequence := t |};
                   h_chksum_type := 0; h_chksum_size := 0; h_padding := zeros 2; h_chksum := 0;
                   h_chksum_rest := zeros 28; h_commit_sec := now.1; h_commit_nsec := now.2 |} in
  let block := write_at commit_codec 0 commit (zeros BLOCK_SIZE) in
  match seed with
  | Some s => stamp_commit_block s block
  | None => block
  end.

(** ** Writing the log *)

(** [update_superblock_tail] *)
Definition update_superblock_tail (g : JournalGeometry) (txn_start t : Z) : M device unit :=
  d ← get;
  raw ← lift (read_raw_superblock g d);
  write_superblock g (set_log_state raw txn_start t None).

(** Write blocks at consecutive log positions; the next free one. *)
Fixpoint write_log_blocks (g : JournalGeometry) (log : Z) (blks : list (list byte)) : M device Z :=
  match blks with
  | [] => mret log
  | b :: rest => write_log_block g log b ;; write_log_blocks g (next_log_block g log) rest
  end.

Fixpoint write_runs (g : JournalGeometry) (log : Z) (chain : list DescriptorRun) : M device Z :=
  match chain with
  | [] => mret log
  | run :: rest =>
      write_log_block g log (dr_descriptor run) ;;
      log ← write_log_blocks g (next_log_block g log) (map logged_bytes (dr_blocks run));
      write_runs g log rest
  end.

(** ** [try_commit_transaction] *)

Inductive CommitAttempt : Set :=
  | Committed (t : Z)
  | NeedsLogSpace.

Definition enter_phase (t : Z) (p : CommitPhase) : M Journal unit := fun j =>
  match advance_committing_phase (state j) t p with
  | Ok st => (Ok tt, with_state j st)
  | Err e => (Err e, j)
  end.

(** Flushing the data ordered before the transaction. *)
Definition flush_ordered (flush_range : Z -> Z -> M device unit) (txn : Transaction) : M device unit :=
  forM (ordered_data txn) (fun '(ino, len) => flush_range ino len) ;;
  if bool_decide (ordered_data txn = []) then mret tt else barrier.

(** What the commit leaves in memory once its record is durable. *)
Definition publish_commit (txn : Transaction) (start_head footprint : Z) (was_clean : bool) (j : Journal)
  : result Journal :=
  let? st := advance_committing_phase (state j) (tid txn) Finished in
  let new_head := advance (geometry j) start_head footprint in
  let st := if was_clean then set_log st new_head (Some start_head) (tid txn)
            else set_log st new_head (tail_block st) (tail_tid st) in
  let st := set_memory st (stash_revokes txn (st_revoked st)) (uncheckpointed st) (pinned_frees st) in
  let st := release_pinned_frees st (tid txn) in
  Ok (with_committed (with_state j st) (tid txn)).

(** The writes from the ordered flush to the commit record. *)
Definition commit_io (flush_range : Z -> Z -> M device unit) (now : Z * Z) (txn : Transaction)
    (revoke_blocks : list (list byte)) (chain : list DescriptorRun) (start_head : Z) (was_clean : bool) : M Journal unit :=
  j ← get;
  let g := geometry j in
  enter_phase (tid txn) Flush ;;
  on_device (flush_ordered flush_range txn) ;;
  enter_phase (tid txn) Commit ;;
  log ← on_device (write_log_blocks g start_head revoke_blocks);
  commit_log ← on_device (write_runs g log chain);
  on_device barrier ;;
  enter_phase (tid txn) CommitRecord ;;
  on_device (write_log_block g commit_log (build_commit_block (tid txn) (csum_seed g) now)) ;;
  on_device barrier ;;
  if was_clean then on_device (update_superblock_tail g start_head (tid txn)) else mret tt.

Definition finish_commit (txn : Transaction) (start_head footprint : Z) (was_clean : bool) : M Journal CommitAttempt := fun j =>
  match publish_commit txn start_head footprint was_clean j with
  | Ok j => (Ok (Committed (tid txn)), j)
  | Err e => (Err e, j)
  end.

Definition try_commit_transaction (flush_range : Z -> Z -> M device unit) (now : Z * Z) (txn : Transaction)
  : M Journal CommitAttempt :=
  j ← get;
  let g := geometry j in
  let seed := csum_seed g in
  revoke_blocks ← lift (build_revoke_blocks txn (tag_layout g) seed);
  chain ← lift (build_descriptor_chain txn (tag_layout g) seed);
  let nr_data := foldr (fun r n => nr_blocks r + n) 0 chain in
  let footprint := zlen revoke_blocks + nr_data + zlen chain + 1 in
  guard (fitsb 32 footprint) ENOSPC ;;
  let start_head := head (state j) in
  let dirty_tail := tail_block (state j) in
  let was_clean := bool_decide (dirty_tail = None) in
  if free_log_blocks g start_head dirty_tail <? footprint then mret NeedsLogSpace
  else
    commit_io flush_range now txn revoke_blocks chain start_head was_clean ;;
    finish_commit txn start_head footprint was_clean.

(** ** Lemmas: collect *)

Lemma collect_spec {A B} (f : A -> result B) (P : A -> B -> Prop) l :
  Forall (fun a => exists b, f a = Ok b /\ P a b) l -> exists bs, collect f l = Ok bs /\ Forall2 P l bs.
Proof.
  induction 1 as [|a l (b & Hb & HP) _ (bs & Hbs & HF)]; [by exists []|].
  exists (b :: bs). cbn [collect]. rewrite Hb. cbn [rbind]. rewrite Hbs. split; [done|by constructor].
Qed.

(** ** Lemmas: one descriptor run *)

(** The items the loop puts, as [JournalTags] names them. *)
Fixpoint run_items (i n : Z) (run : list (Z * list byte)) : list (Z * Z * list byte) :=
  match run with
  | [] => []
  | (bid, bytes) :: rest =>
      (bid, run_flags i n bytes, if needs_escape bytes then escaped bytes else bytes) :: run_items (i + 1) n rest
  end.

Definition to_logged (e : Z * list byte) : LoggedBlock := {| lb_bytes := e.2; lb_escape := needs_escape e.2 |}.

Lemma run_loop_spec run w i n :
  run_loop w i n run = let? w' := put_all w (run_items i n run) in Ok (w', map to_logged run).
Proof.
  revert w i. induction run as [|[bid bytes] rest IH]; intros w i; cbn [run_loop run_items put_all map]; [done|].
  destruct (put w _ _ _) as [w1|e]; cbn [rbind]; [|done]. rewrite IH.
  by destruct (put_all w1 _) as [w2|e]; cbn [rbind].
Qed.

Lemma run_flags_spec i n bytes :
  fits 16 (run_flags i n bytes) /\
  has_flag (run_flags i n bytes) TAG_FLAG_SAME_UUID = negb (i =? 0) /\
  has_flag (run_flags i n bytes) TAG_FLAG_LAST_TAG = (i =? n - 1) /\
  has_flag (run_flags i n bytes) TAG_FLAG_ESCAPE = needs_escape bytes.
Proof. unfold run_flags. by destruct (i =? 0), (i =? n - 1), (needs_escape bytes). Qed.

Lemma run_items_flags i n run :
  n = i + zlen run -> 0 <= i -> run <> [] ->
  last_flagged (run_items i n run) /\
  Forall (fun it => has_flag it.1.2 TAG_FLAG_SAME_UUID = true) (run_items (i + 1) n run) /\
  (i = 0 -> chain_flags (run_items i n run)).
Proof.
  intros Hn Hi Hne.
  assert (forall run i, 0 < i -> Forall (fun it => has_flag it.1.2 TAG_FLAG_SAME_UUID = true) (run_items i n run)) as Hsame.
  { clear. induction run as [|[bid bytes] rest IH]; intros i Hi; [constructor|]. cbn [run_items]. constructor; [|apply IH; lia].
    cbn [fst snd]. destruct (run_flags_spec i n bytes) as (_ & -> & _). destruct (Z.eqb_spec i 0); [lia|done]. }
  split; [|split; [apply Hsame; lia|]].
  - clear Hsame. revert i Hn Hi. induction run as [|[bid bytes] rest IH]; [done|]. intros i Hn Hi. rewrite zlen_cons in Hn.
    destruct (run_flags_spec i n bytes) as (_ & _ & Hl & _). destruct rest as [|r rest].
    + cbn. rewrite Hl, Hn, zlen_nil. by apply Z.eqb_eq; lia.
    + change (run_items i n ((bid, bytes) :: r :: rest)) with
        ((bid, run_flags i n bytes, if needs_escape bytes then escaped bytes else bytes) :: run_items (i + 1) n (r :: rest)).
      specialize (IH ltac:(done) (i + 1) ltac:(lia) ltac:(lia)). destruct (run_items (i + 1) n (r :: rest)); [done|].
      split; [|done]. cbn [fst snd]. rewrite Hl. rewrite zlen_cons in Hn. pose proof (zlen_nonneg rest). apply Z.eqb_neq. lia.
  - intros ->. destruct run as [|[bid bytes] rest]; [done|]. cbn [run_items chain_flags fst snd].
    destruct (run_flags_spec 0 n bytes) as (_ & -> & _). split; [done|]. apply Hsame. lia.
Qed.

(** The bytes in the log restore the image. *)
Lemma unescape_logged tag bytes :
  is_block bytes -> has_flag (dt_flags tag) TAG_FLAG_ESCAPE = needs_escape bytes ->
  unescape tag (logged_bytes (to_logged (dt_blocknr tag, bytes))) = bytes.
Proof.
  intros Hb Hf. unfold unescape, is_escaped, logged_bytes, to_logged. cbn [lb_escape lb_bytes snd]. rewrite Hf.
  unfold needs_escape. case_bool_decide as E; [|done]. unfold escaped.
  rewrite splice_splice_same by (done || (rewrite zlen_zeros by done; unfold is_block, BLOCK_SIZE in *; lia)). fold JBD2_MAGIC_BYTES. rewrite <- E.
  apply (splice_slice 0 4); unfold is_block, BLOCK_SIZE in *; lia.
Qed.

Section Build.
Context (g : JournalGeometry) (Hg : geometry_ok g) (t : Z) (Ht : fits 32 t).

Definition item_of_put (i : Z * Z * list byte) : DescriptorTag * list byte :=
  (tag_of (mode_for (tag_layout g) (csum_seed g)) t i.1.1 i.1.2 i.2, i.2).

Lemma run_items_images i n run :
  Forall (fun e => is_block e.2) run ->
  map snd (map item_of_put (run_items i n run)) = map logged_bytes (map to_logged run) /\
  map home_image (map item_of_put (run_items i n run)) = run.
Proof.
  intros H. revert i. induction H as [|[bid bytes] rest Hb _ IH]; intros i; [done|]. cbn [run_items map].
  destruct (IH (i + 1)) as [-> ->]. cbn [snd fst item_of_put]. split; [done|]. f_equal.
  unfold home_image. cbn [fst snd]. f_equal. etrans; [|apply (unescape_logged (tag_of (mode_for (tag_layout g) (csum_seed g)) t bid
    (run_flags i n bytes) (if needs_escape bytes then escaped bytes else bytes)) bytes Hb)]; [done|].
  apply run_flags_spec.
Qed.

Lemma run_items_ok i n run :
  Forall (fun e => blocknr_ok (tag_layout g) e.1) run ->
  Forall (fun it => blocknr_ok (tag_layout g) it.1.1 /\ fits 16 it.1.2) (run_items i n run).
Proof.
  intros H. revert i. induction H as [|[bid bytes] rest Hb _ IH]; intros i; [constructor|]. cbn [run_items].
  constructor; [|apply IH]. split; [done|]. apply run_flags_spec.
Qed.

Lemma zlen_run_items i n run : zlen (run_items i n run) = zlen run.
Proof. revert i. induction run as [|[??] rest IH]; intros i; [done|]. cbn [run_items]. by rewrite !zlen_cons, IH. Qed.

(** The captures a transaction may hold: numbers the layout can carry, whole blocks. *)
Definition captures_ok (run : list (Z * list byte)) : Prop :=
  Forall (fun e => blocknr_ok (tag_layout g) e.1 /\ is_block e.2) run.

Lemma header_block ty :
  fits 32 ty ->
  is_block (write_at header_codec 0 (chain_header t ty) (zeros BLOCK_SIZE)) /\
  parse_header (write_at header_codec 0 (chain_header t ty) (zeros BLOCK_SIZE)) = chain_header t ty.
Proof.
  intros Hty. assert (0 + c_size header_codec <= zlen (zeros BLOCK_SIZE)) by (rewrite zlen_zeros by done; done). split.
  - unfold is_block. rewrite (zlen_write_at header_codec); [by rewrite zlen_zeros|done|done|].
    by apply header_wf.
  - apply (read_write_same header_codec); [done|done|]. by apply header_wf.
Qed.

Lemma build_descriptor_run_ok run :
  run <> [] -> zlen run <= tags_per_descriptor (tag_layout g) -> captures_ok run ->
  exists r, build_descriptor_run t (tag_layout g) (csum_seed g) run = Ok r /\
    dr_blocks r = map to_logged run /\ is_block (dr_descriptor r) /\
    seg_valid g t (SegRun (dr_descriptor r) (map item_of_put (run_items 0 (zlen run) run))).
Proof.
  intros Hne Hn Hc. pose proof (geo_layout g Hg) as Hl. pose proof (geo_seed g Hg) as Hs.
  destruct (header_block BLOCKTYPE_DESCRIPTOR) as [Hb Hh]; [done|].
  assert (captures_ok run) as Hc' by done. apply Forall_and in Hc as [Hc1 Hc2].
  pose proof (run_items_ok 0 (zlen run) run Hc1) as Hi.
  destruct (run_items_flags 0 (zlen run) run) as (Hlast & _ & Hfl); [lia|lia|done|].
  assert (run_items 0 (zlen run) run <> []) as Hne' by (destruct run as [|[??]?]; done).
  destruct (descriptor_fits (tag_layout g) _ t (csum_seed g) (run_items 0 (zlen run) run) Hl Hb Hs Ht Hne' (Hfl eq_refl) Hi)
    as (w & w' & Hw & Hp); [by rewrite zlen_run_items|].
  assert (Forall item_ok (run_items 0 (zlen run) run)) as Hio.
  { eapply Forall_impl; [exact Hi|]. intros x [[??] ?]. by split. }
  destruct (descriptor_reads_back _ _ _ _ _ _ _ Hl Hb Hs Ht Hw Hio Hlast Hp) as (Hbf & Hwalk & Hph & Hv).
  eexists. unfold build_descriptor_run. change {| h_magic := JBD2_MAGIC; h_blocktype := BLOCKTYPE_DESCRIPTOR; h_sequence := t |}
    with (chain_header t BLOCKTYPE_DESCRIPTOR). rewrite Hw. cbn [rbind]. rewrite run_loop_spec, Hp. cbn [rbind].
  split; [done|]. cbn [dr_blocks dr_descriptor]. split; [done|]. split; [done|].
  split_and!; [by rewrite Hph| | |].
  - unfold tail_ok. destruct (csum_seed g); [by apply Hv|done].
  - rewrite Hwalk, map_map. done.
  - apply Forall_fmap. unfold item_csum_ok. destruct (csum_seed g) as [s|] eqn:Es; [|by apply Forall_true].
    eapply Forall_impl; [exact (proj2 Hv)|]. intros x Hx. cbn. unfold item_of_put. rewrite Es. exact Hx.
Qed.

Lemma build_revoke_block_ok run :
  zlen run <= revoke_entries_per_block (tag_layout g) -> Forall (blocknr_ok (tag_layout g)) run ->
  exists blk, build_revoke_block t (tag_layout g) (csum_seed g) run = Ok blk /\ is_block blk /\
    seg_valid g t (SegRevoke blk run).
Proof.
  intros Hn Hr. pose proof (geo_layout g Hg) as Hl. pose proof (geo_seed g Hg) as Hs.
  destruct (revoke_fits _ t _ _ Hl Hs Ht Hr Hn) as (w & w' & Hw & Hp).
  assert (Forall (fits 64) run) as Hf by (eapply Forall_impl; [exact Hr|]; by intros x [? _]).
  destruct (revoke_reads_back _ _ _ _ _ _ Hl Hs Ht Hf Hw Hp) as (Hb & He & Hh & Hv).
  exists (revoke_finish w'). unfold build_revoke_block. rewrite Hw. cbn [rbind]. rewrite Hp. cbn [rbind].
  split_and!; [done..|]. split_and!; [done| |done]. unfold tail_ok. by destruct (csum_seed g).
Qed.
End Build.

(** A block that can be taken for a block of transaction [t] at most. *)
Definition own_block (t : Z) (blk : list byte) : Prop :=
  h_magic (parse_header blk) = JBD2_MAGIC -> h_sequence (parse_header blk) = t.

Lemma h_magic_slice b : is_block b -> h_magic (parse_header b) = of_be (slice 0 4 b).
Proof.
  intros Hb. unfold parse_header, read_at. cbn [from_bytes header_codec struct cpair h_magic].
  rewrite slice_slice by done. done.
Qed.

(** A logged data block never starts with the magic number. *)
Lemma logged_not_magic e : is_block e.2 -> is_block (logged_bytes (to_logged e)) /\
  h_magic (parse_header (logged_bytes (to_logged e))) <> JBD2_MAGIC.
Proof.
  intros Hb. unfold logged_bytes, to_logged, needs_escape. cbn [lb_escape lb_bytes].
  case_bool_decide as E.
  - assert (0 + zlen (zeros 4) <= zlen e.2) by (rewrite zlen_zeros by done; unfold is_block, BLOCK_SIZE in *; lia).
    assert (is_block (escaped e.2)) as Hb' by (unfold is_block, escaped; by rewrite zlen_splice).
    split; [done|]. rewrite h_magic_slice by done. unfold escaped. rewrite slice_splice_same; [done|done|by rewrite zlen_zeros|done].
  - split; [done|]. rewrite h_magic_slice by done. intros H. apply E. unfold JBD2_MAGIC_BYTES. rewrite <- H.
    symmetry. apply (be_bytes_of 4). rewrite zlen_slice; unfold is_block, BLOCK_SIZE in *; lia.
Qed.

Lemma header_own t ty blk : parse_header blk = chain_header t ty -> own_block t blk.
Proof. intros H _. by rewrite H. Qed.

(** ** Lemmas: the whole chain of a transaction *)

Lemma commit_block_ok g t now :
  seed_ok (tag_layout g) (csum_seed g) -> fits 32 t -> fits 64 now.1 -> fits 32 now.2 ->
  is_block (build_commit_block t (csum_seed g) now) /\ commit_valid g t (build_commit_block t (csum_seed g) now).
Proof.
  intros Hs Ht Hs1 Hs2. unfold build_commit_block, commit_valid, commit_ok.
  set (c := Build_RawCommitBlock _ _ _ _ _ _ _ _).
  assert (Hwf : c_wf commit_codec c) by (repeat split; done || apply Hs1 || apply Hs2 || apply Ht).
  assert (0 + c_size commit_codec <= zlen (zeros BLOCK_SIZE)) by (rewrite zlen_zeros by done; done).
  set (b := write_at commit_codec 0 c (zeros BLOCK_SIZE)).
  assert (Hb : is_block b).
  { unfold is_block, b. rewrite (zlen_write_at commit_codec) by done. by rewrite zlen_zeros. }
  assert (Hh : parse_header b = chain_header t BLOCKTYPE_COMMIT).
  { change (chain_header t BLOCKTYPE_COMMIT) with (c_header c).
    rewrite <- (read_write_same commit_codec 0 c (zeros BLOCK_SIZE)) by done. fold b.
    unfold parse_header, read_at. cbn [from_bytes commit_codec struct cpair c_header]. by rewrite slice_slice. }
  destruct (csum_seed g) as [s|]; [|done]. destruct Hs as [_ Hs].
  split; [by apply stamp_commit_block_block|]. split; [|by apply verify_stamp_commit_block].
  rewrite <- Hh. unfold parse_header, read_at. by rewrite slice_stamp_commit_block.
Qed.

Definition run_blocks (r : DescriptorRun) : list (list byte) := dr_descriptor r :: map logged_bytes (dr_blocks r).

(** A transaction the commit can log. *)
Record commitable (g : JournalGeometry) (txn : Transaction) : Prop := {
  cm_tid : fits 32 (tid txn);
  cm_some : metadata_blocks txn <> [];
  cm_captures : captures_ok g (metadata_blocks txn);
  cm_revokes : Forall (blocknr_ok (tag_layout g)) (revoked_blocks txn);
}.

Lemma build_revoke_blocks_ok g txn :
  geometry_ok g -> commitable g txn ->
  exists rbs segs, build_revoke_blocks txn (tag_layout g) (csum_seed g) = Ok rbs /\
    Forall (seg_valid g (tid txn)) segs /\ chain_blocks segs = rbs /\
    Forall (fun b => is_block b /\ own_block (tid txn) b) rbs /\
    chain_bids segs = revoked_blocks txn /\ chain_items segs = [] /\
    zlen rbs = nr_revoke_blocks txn (tag_layout g).
Proof.
  intros Hg Hc. pose proof (revoke_entries_per_block_pos _ (geo_layout g Hg)) as Hp.
  destruct (chunks_spec _ (revoked_blocks txn) (proj1 (Z.le_succ_l 0 _) Hp)) as (Hcat & Hch & Hlen).
  unfold build_revoke_blocks, nr_revoke_blocks. rewrite <- zlen_revoked_blocks, <- Hlen.
  set (cs := chunks _ _) in *. clearbody cs.
  assert (Forall (fun run => exists blk, build_revoke_block (tid txn) (tag_layout g) (csum_seed g) run = Ok blk /\
    (is_block blk /\ seg_valid g (tid txn) (SegRevoke blk run))) cs) as Hall.
  { pose proof (cm_revokes g txn Hc) as Hr. rewrite <- Hcat in Hr. apply Forall_concat in Hr.
    eapply Forall_impl; [apply Forall_and; split; [exact Hch|exact Hr]|]. intros run [[_ Hn] Hr'].
    by apply (build_revoke_block_ok g Hg (tid txn) (cm_tid g txn Hc)). }
  destruct (collect_spec _ (fun run blk => is_block blk /\ seg_valid g (tid txn) (SegRevoke blk run)) _ Hall) as (rbs & Hrbs & HF).
  exists rbs, (zip_with SegRevoke rbs cs). split; [done|].
  rewrite <- Hcat. clear Hcat Hch Hlen Hall Hrbs Hc Hp. induction HF as [|run blk cs rbs [Hb Hv] HF (IH1 & IH2 & IH3 & IH4 & IH5 & IH6)];
    [done|]. cbn [zip_with concat]. rewrite !zlen_cons, IH6.
  split_and!; try (constructor; done); try done.
  2:{ constructor; [split; [done|]; by eapply header_own, Hv|done]. }
  - change (chain_blocks (SegRevoke blk run :: zip_with SegRevoke rbs cs)) with (blk :: chain_blocks (zip_with SegRevoke rbs cs)).
    by rewrite IH2.
  - change (chain_bids (SegRevoke blk run :: zip_with SegRevoke rbs cs)) with (run ++ chain_bids (zip_with SegRevoke rbs cs)).
    by rewrite IH4.
Qed.

Definition run_seg (g : JournalGeometry) (t : Z) (r : DescriptorRun) (run : list (Z * list byte)) : segment :=
  SegRun (dr_descriptor r) (map (item_of_put g t) (run_items 0 (zlen run) run)).

Lemma build_descriptor_chain_ok g txn :
  geometry_ok g -> commitable g txn ->
  exists chain segs, build_descriptor_chain txn (tag_layout g) (csum_seed g) = Ok chain /\
    Forall (seg_valid g (tid txn)) segs /\ chain_blocks segs = flat_map run_blocks chain /\
    Forall (fun b => is_block b /\ own_block (tid txn) b) (chain_blocks segs) /\ chain_bids segs = [] /\
    map home_image (chain_items segs) = metadata_blocks txn /\
    foldr (fun r n => nr_blocks r + n) 0 chain = nr_metadata_blocks txn /\
    zlen chain = div_ceil (nr_metadata_blocks txn) (tags_per_descriptor (tag_layout g)).
Proof.
  intros Hg Hc. pose proof (tags_per_descriptor_pos _ (geo_layout g Hg)) as Hp.
  destruct (chunks_spec _ (metadata_blocks txn) (proj1 (Z.le_succ_l 0 _) Hp)) as (Hcat & Hch & Hlen).
  unfold build_descriptor_chain. rewrite bool_decide_false by apply Hc. cbn [negb].
  rewrite <- zlen_metadata_blocks, <- Hlen.
  set (cs := chunks _ _) in *. clearbody cs.
  assert (Forall (fun run => exists r, build_descriptor_run (tid txn) (tag_layout g) (csum_seed g) run = Ok r /\
    (captures_ok g run /\ dr_blocks r = map to_logged run /\ is_block (dr_descriptor r) /\ seg_valid g (tid txn) (run_seg g (tid txn) r run))) cs) as Hall.
  { pose proof (cm_captures g txn Hc) as Hr. unfold captures_ok in Hr. rewrite <- Hcat in Hr. apply Forall_concat in Hr.
    eapply Forall_impl; [apply Forall_and; split; [exact Hch|exact Hr]|]. intros run [[Hne Hn] Hr'].
    destruct (build_descriptor_run_ok g Hg (tid txn) (cm_tid g txn Hc) run Hne Hn Hr') as (r & ? & ? & ? & ?). by exists r. }
  destruct (collect_spec _ _ _ Hall) as (chain & Hchain & HF).
  exists chain, (zip_with (run_seg g (tid txn)) chain cs). split; [done|].
  rewrite <- Hcat. clear Hcat Hch Hlen Hall Hchain Hc Hp.
  induction HF as [|run r cs chain (Hcap & Hblk & Hb & Hv) HF (IH1 & IH2 & IH3 & IH4 & IH5 & IH6 & IH7)]; [done|].
  destruct (run_items_images g (tid txn) 0 (zlen run) run) as [Hi1 Hi2]; [eapply Forall_impl; [exact Hcap|]; by intros ? [??]|].
  cbn [zip_with concat foldr flat_map]. rewrite !zlen_cons, IH7, IH6, zlen_app.
  set (segs := zip_with (run_seg g (tid txn)) chain cs) in *.
  assert (chain_blocks (run_seg g (tid txn) r run :: segs) = run_blocks r ++ flat_map run_blocks chain) as ->.
  { change (chain_blocks (run_seg g (tid txn) r run :: segs)) with (seg_blocks (run_seg g (tid txn) r run) ++ chain_blocks segs).
    rewrite IH2. f_equal. unfold run_seg, seg_blocks, run_blocks. by rewrite Hi1, Hblk. }
  split_and!; try done; try (constructor; done).
  - apply Forall_app. rewrite IH2 in IH3. split; [|done]. constructor; [split; [done|]; by eapply header_own, Hv|]. rewrite Hblk.
    apply Forall_fmap, Forall_fmap. eapply Forall_impl; [exact Hcap|]. intros e [_ Hby]. cbn.
    destruct (logged_not_magic e Hby). split; [done|by intros ?].
  - change (chain_items (run_seg g (tid txn) r run :: segs)) with
      (map (item_of_put g (tid txn)) (run_items 0 (zlen run) run) ++ chain_items segs).
    by rewrite map_app, IH5, Hi2.
  - unfold nr_blocks. by rewrite Hblk, zlen_map.
Qed.

(** What a transaction becomes in the log. *)
Record logged_as (g : JournalGeometry) (txn : Transaction) (x : logged) : Prop := {
  la_valid : Forall (seg_valid g (tid txn)) (lg_segs x) /\ commit_valid g (tid txn) (lg_commit x);
  la_blocks : Forall (fun b => is_block b /\ own_block (tid txn) b) (lg_blocks x);
  la_images : images x = metadata_blocks txn;
  la_revokes : revokes x = revoked_blocks txn;
  la_len : lg_len x = log_footprint g (nr_metadata_blocks txn) (nr_revoke_blocks txn (tag_layout g));
  la_some : lg_segs x <> [];
}.

(** Building always succeeds for a transaction the layout can carry. *)
Lemma build_transaction_ok g txn now :
  geometry_ok g -> commitable g txn -> fits 64 now.1 -> fits 32 now.2 ->
  exists rbs chain x, build_revoke_blocks txn (tag_layout g) (csum_seed g) = Ok rbs /\
    build_descriptor_chain txn (tag_layout g) (csum_seed g) = Ok chain /\ logged_as g txn x /\
    chain_blocks (lg_segs x) = rbs ++ flat_map run_blocks chain /\
    lg_commit x = build_commit_block (tid txn) (csum_seed g) now /\
    zlen rbs + foldr (fun r n => nr_blocks r + n) 0 chain + zlen chain + 1 = lg_len x.
Proof.
  intros Hg Hc Hn1 Hn2.
  destruct (build_revoke_blocks_ok g txn Hg Hc) as (rbs & segs1 & Hr & Hv1 & Hb1 & Hbl1 & Hbids & Hit1 & Hl1).
  destruct (build_descriptor_chain_ok g txn Hg Hc) as (chain & segs2 & Hch & Hv2 & Hb2 & Hbl2 & Hbids2 & Him & Hnd & Hl2).
  destruct (commit_block_ok g (tid txn) now (geo_seed g Hg) (cm_tid g txn Hc) Hn1 Hn2) as [Hcb Hcv].
  set (x := {| lg_segs := segs1 ++ segs2; lg_commit := build_commit_block (tid txn) (csum_seed g) now |}).
  assert (chain_blocks (lg_segs x) = rbs ++ flat_map run_blocks chain) as Ecb.
  { unfold chain_blocks. cbn [lg_segs x]. rewrite flat_map_app. fold (chain_blocks segs1) (chain_blocks segs2). by rewrite Hb1, Hb2. }
  assert (zlen (flat_map run_blocks chain) = foldr (fun r n => nr_blocks r + n) 0 chain + zlen chain) as Ez.
  { clear. induction chain as [|r chain IH]; [done|]. cbn [flat_map foldr]. rewrite zlen_app, zlen_cons, IH.
    unfold run_blocks, nr_blocks. rewrite zlen_cons, zlen_map. lia. }
  assert (lg_len x = zlen rbs + foldr (fun r n => nr_blocks r + n) 0 chain + zlen chain + 1) as Elen.
  { unfold lg_len. rewrite <- zlen_chain_blocks, Ecb, zlen_app, Ez. lia. }
  exists rbs, chain, x. split_and!; try done. constructor.
  - split; [by apply Forall_app|done].
  - unfold lg_blocks. rewrite Ecb. apply Forall_app. split; [apply Forall_app; split; [done|by rewrite <- Hb2]|].
    constructor; [|constructor]. split; [done|]. by eapply header_own, Hcv.
  - unfold images, chain_items. cbn [lg_segs x]. rewrite flat_map_app. fold (chain_items segs1) (chain_items segs2).
    by rewrite Hit1.
  - unfold revokes, chain_bids. cbn [lg_segs x]. rewrite flat_map_app. fold (chain_bids segs1) (chain_bids segs2).
    by rewrite Hbids, Hbids2, app_nil_r.
  - rewrite Elen. unfold log_footprint. rewrite Hl1, Hl2, Hnd. lia.
  - cbn [lg_segs x]. intros E. apply app_eq_nil in E as [_ ->]. by destruct (cm_some g txn Hc).
Qed.

(** ** Lemmas: writing the chain *)

Lemma write_log_blocks_app g b1 b2 log d :
  write_log_blocks g log (b1 ++ b2) d = (l ← write_log_blocks g log b1; write_log_blocks g l b2) d.
Proof.
  revert log d. induction b1 as [|b b1 IH]; intros log d; [done|]. cbn [app write_log_blocks].
  unfold mbind, M_bind. destruct (write_log_block g log b d) as [[u|e] d1]; [|done]. apply IH.
Qed.

Lemma write_runs_blocks g chain log d :
  write_runs g log chain d = write_log_blocks g log (flat_map run_blocks chain) d.
Proof.
  revert log d. induction chain as [|r chain IH]; intros log d; [done|]. cbn [flat_map write_runs].
  rewrite write_log_blocks_app. cbn [run_blocks write_log_blocks]. unfold mbind, M_bind.
  destruct (write_log_block g log _ d) as [[u|e] d1]; [|done].
  destruct (write_log_blocks g _ _ d1) as [[l|e] d2]; [|done]. apply IH.
Qed.

Lemma write_log_block_ok g d pos b :
  geometry_ok g -> map_ok g -> healthy d -> Forall (fun p => is_Some (d_disk d !! p)) (block_map g) -> in_ring g pos ->
  write_log_block g pos b d = (Ok tt, write_events (log_writes g pos [b]) d).
Proof.
  intros Hg Hm Hh Hp Hpos. destruct (phys_ring g Hg Hm pos Hpos) as (x & Hx & Hin & Hb).
  unfold write_log_block. cbn [log_writes]. rewrite Hx. cbn [app].
  destruct (proj1 (Forall_forall _ _) Hp _ Hin) as [old Hold]. by apply dev_write_events with old.
Qed.

Lemma write_log_blocks_ok g d pos blks :
  geometry_ok g -> map_ok g -> healthy d -> Forall (fun p => is_Some (d_disk d !! p)) (block_map g) -> in_ring g pos ->
  write_log_blocks g pos blks d = (Ok (advance g pos (zlen blks)), write_events (log_writes g pos blks) d).
Proof.
  intros Hg Hm. revert d pos. induction blks as [|b blks IH]; intros d pos Hh Hp Hpos; cbn [write_log_blocks log_writes].
  { by rewrite zlen_nil, advance_0, write_events_nil. }
  rewrite (bind_ok _ _ d tt _ (write_log_block_ok g d pos b Hg Hm Hh Hp Hpos)). cbn [log_writes]. rewrite app_nil_r.
  rewrite write_events_app, IH, advance_next, zlen_cons, Z.add_comm; [done|apply zlen_nonneg|done| |by apply next_in_ring].
  eapply Forall_impl; [exact Hp|]. intros p Hs. by apply apply_events_is_Some.
Qed.
