(* ===== verification/Recovery.v ===== *)
(** * Recovery

    Models [recover] of [journal/recovery.rs]: the scan for the end of the
    committed log, the revoke pass, the replay pass, and the return to a
    clean journal.  The scan loop has no bound of its own; it ends because
    every round finds a commit block with a different transaction id, and the
    ring has room for only so many: the fuel is one more than its length. *)

From S2P Require Import Prelude Pod JournalFormat JournalTags Device Geometry Revoke LogWalk LogModel LogInv Transaction JournalState.

(** ** The code *)

(** PASS_SCAN: the id after the last committed transaction, and their number. *)
Fixpoint scan_pass (fuel : nat) (g : JournalGeometry) (d : device) (log tid count : Z) : result (Z * Z) :=
  match fuel with
  | O => Err EUCLEAN
  | S fuel =>
      let? next := scan_transaction g d log tid in
      match next with
      | Some next => scan_pass fuel g d next (Tid.next tid) (count + 1)
      | None => Ok (tid, count)
      end
  end.

Definition SCAN_FUEL (g : JournalGeometry) : nat := S (Z.to_nat (maxlen g)).

(** PASS_REVOKE *)
Fixpoint revoke_pass (count : nat) (g : JournalGeometry) (d : device) (log tid : Z) (revoked : RevokeTable)
  : result RevokeTable :=
  match count with
  | O => Ok revoked
  | S count =>
      let? (log, revoked) := collect_transaction_revokes g d log tid revoked in
      revoke_pass count g d log (Tid.next tid) revoked
  end.

(** PASS_REPLAY *)
Fixpoint replay_pass (count : nat) (g : JournalGeometry) (revoked : RevokeTable) (log tid : Z) : M device unit :=
  match count with
  | O => mret tt
  | S count =>
      log ← apply_log_transaction g log tid revoked;
      replay_pass count g revoked log (Tid.next tid)
  end.

Definition recover : M Journal unit :=
  j ← get;
  let g := geometry j in
  raw ← lift (read_raw_superblock g (j_device j));
  match recovery_start raw with
  | None => mret tt
  | Some s_start =>
      '(end_tid, count) ← lift (scan_pass (SCAN_FUEL g) g (j_device j) s_start (s_sequence raw) 0);
      revoked ← lift (revoke_pass (Z.to_nat count) g (j_device j) s_start (s_sequence raw) table_new);
      on_device (replay_pass (Z.to_nat count) g revoked s_start (s_sequence raw)) ;;
      on_device barrier ;;
      on_device (write_superblock g (set_log_state raw 0 end_tid (Some (first g)))) ;;
      modify (fun j => with_committed
        (with_state j (set_next_tid (set_log (state j) (first g) None end_tid) end_tid)) (Tid.prev end_tid))
  end.

(** ** Lemmas: the scan ends *)

(** A position found committed holds a block with the transaction's id. *)
Lemma scan_loop_commit fuel g d tid log c ok next :
  geometry_ok g -> in_ring g log -> scan_loop fuel g d tid log c ok = Ok (Some next) ->
  exists p blk, in_ring g p /\ next = next_log_block g p /\ read_log_block g d p = Ok blk /\
    h_sequence (parse_header blk) = tid.
Proof.
  intros Hg. revert log c ok. induction fuel as [|fuel IH]; intros log c ok Hlog H; [done|]. cbn [scan_loop] in H.
  destruct (read_log_block g d log) as [blk|e] eqn:Er; cbn [rbind] in H; [|done].
  destruct (negb (h_magic _ =? _)); [done|]. destruct (Z.eqb_spec (h_sequence (parse_header blk)) tid) as [Es|]; [|done].
  cbn [negb] in H. destruct (h_blocktype (parse_header blk) =? BLOCKTYPE_REVOKE).
  { destruct (negb (maxlen g <? _)); [|done]. eapply IH; [|exact H]. by apply next_in_ring. }
  destruct (negb _ && negb _); [done|]. destruct (h_blocktype (parse_header blk) =? BLOCKTYPE_COMMIT).
  - destruct ok; [|done]. destruct (commit_ok _ _); [|done]. injection H as <-. by exists log, blk.
  - destruct (skip_tags g _ log c) as [[log' c']|e] eqn:Ek; [|done].
    destruct (negb (maxlen g <? _)); [|done]. eapply IH; [|exact H]. apply next_in_ring; [done|].
    revert Ek. generalize (walk_tags (tag_layout g) blk). intros tags. clear -Hlog Hg. revert log c Hlog.
    induction tags as [|[t|e] tags IH]; intros log c Hlog; cbn [skip_tags]; [by intros [= <- _]| |done].
    apply IH. by apply next_in_ring.
Qed.

(** Distinct positions of the ring are no more than its length. *)
Lemma ring_pigeonhole g (seen : list Z) :
  geometry_ok g -> NoDup seen -> Forall (in_ring g) seen -> zlen seen <= ring g.
Proof.
  intros Hg Hn Hs. pose proof (ring_pos g Hg).
  assert ((length seen <= length (map (fun i => (first g + Z.of_nat i)%Z) (seq 0 (Z.to_nat (ring g)))))%nat) as Hl.
  { apply List.NoDup_incl_length; [by apply NoDup_ListNoDup|]. intros p Hp%list_elem_of_In.
    apply (proj1 (Forall_forall _ _) Hs) in Hp. apply list_elem_of_In, list_elem_of_fmap.
    exists (Z.to_nat (p - first g)). unfold in_ring, ring in *. rewrite elem_of_seq. lia. }
  rewrite length_map, length_seq in Hl. unfold zlen. lia.
Qed.

Lemma scan_pass_fuel_seen fuel extra g d log n count seen :
  geometry_ok g -> in_ring g log -> NoDup seen ->
  Forall (fun p => in_ring g p /\ exists blk m, read_log_block g d p = Ok blk /\
            h_sequence (parse_header blk) = u32 m /\ n - zlen seen <= m < n) seen ->
  ring g < Z.of_nat fuel + zlen seen ->
  scan_pass (fuel + extra) g d log (u32 n) count = scan_pass fuel g d log (u32 n) count.
Proof.
  intros Hg. revert log n count seen. induction fuel as [|fuel IH]; intros log n count seen Hlog Hnd Hs Hf.
  { exfalso. assert (zlen seen <= ring g); [|lia]. apply ring_pigeonhole; [done..|].
    eapply Forall_impl; [exact Hs|]. by intros p [? _]. }
  cbn [scan_pass Nat.add]. destruct (scan_transaction g d log (u32 n)) as [[next|]|e] eqn:Es; cbn [rbind]; [|done|done].
  destruct (scan_loop_commit _ _ _ _ _ _ _ _ Hg Hlog Es) as (p & blk & Hp & -> & Hr & Hq). rewrite next_u32.
  assert (zlen seen <= ring g) as Hle
    by (apply ring_pigeonhole; [done..|]; eapply Forall_impl; [exact Hs|]; by intros q [? _]).
  pose proof (geo_maxlen g Hg). pose proof (geo_first g Hg). pose proof (zlen_nonneg seen).
  apply (IH _ _ _ (p :: seen)); [by apply next_in_ring| | |rewrite zlen_cons; lia].
  - constructor; [|done]. intros Hin. destruct (proj1 (Forall_forall _ _) Hs _ Hin) as (_ & blk' & m & Hr' & Hm & Hw).
    rewrite Hr in Hr'. injection Hr' as <-. rewrite Hq in Hm. symmetry in Hm. revert Hm. apply u32_neq.
    unfold ring, fits in *. lia.
  - rewrite zlen_cons. constructor.
    + split; [done|]. exists blk, n. split_and!; [done..|lia|lia].
    + eapply Forall_impl; [exact Hs|]. intros q (Hq1 & b & m & ? & ? & ?). split; [done|]. exists b, m. split_and!; [done..|lia|lia].
Qed.

Lemma scan_pass_fuel g d log tid count extra :
  geometry_ok g -> in_ring g log -> fits 32 tid ->
  scan_pass (SCAN_FUEL g + extra) g d log tid count = scan_pass (SCAN_FUEL g) g d log tid count.
Proof.
  intros Hg Hlog Ht. rewrite <- (u32_small tid Ht). apply (scan_pass_fuel_seen _ _ _ _ _ _ _ []); [done|done|constructor|constructor|].
  pose proof (geo_first g Hg). unfold SCAN_FUEL, ring. rewrite zlen_nil. lia.
Qed.

(** ** Lemmas: the passes over a well-formed log *)

Section Passes.
Context (g : JournalGeometry) (Hg : geometry_ok g) (Hm : map_ok g).

(** One complete chain in the ring. *)
Lemma lg_holds_parts d pos x :
  log_holds g d pos (lg_blocks x) ->
  log_holds g d pos (chain_blocks (lg_segs x)) /\ metas_hold g d pos (lg_segs x) /\
  read_log_block g d (advance g pos (segs_len (lg_segs x))) = Ok (lg_commit x).
Proof.
  unfold lg_blocks. intros [H1 H2]%log_holds_app. rewrite zlen_chain_blocks in H2. destruct H2 as [H2 _].
  split_and!; [done|by apply metas_hold_of|done].
Qed.

Lemma lg_fits x xs : log_len (x :: xs) <= ring g -> segs_len (lg_segs x) <= maxlen g /\ log_len xs <= ring g.
Proof.
  rewrite log_len_cons. pose proof (log_len_ge xs). pose proof (zlen_nonneg xs). pose proof (lg_len_pos x).
  pose proof (geo_first g Hg). unfold lg_len, ring in *. lia.
Qed.

Lemma scan_pass_ok d xs fuel pos n c :
  log_contains g d pos n xs -> log_len xs <= ring g -> (length xs < fuel)%nat ->
  scan_transaction g d (advance g pos (log_len xs)) (u32 (n + zlen xs)) = Ok None ->
  scan_pass fuel g d pos (u32 n) c = Ok (u32 (n + zlen xs), c + zlen xs).
Proof.
  revert fuel pos n c. induction xs as [|x xs IH]; intros fuel pos n c Hc Hl Hf Hend; (destruct fuel as [|fuel]; [cbn in Hf; lia|]);
    cbn [scan_pass].
  - rewrite zlen_nil, !Z.add_0_r in *. rewrite advance_0 in Hend. by rewrite Hend.
  - destruct Hc as ([Hv Hcv] & Hh & Hc). destruct (lg_fits _ _ Hl) as [Hx Hl'].
    destruct (lg_holds_parts _ _ _ Hh) as (_ & Hme & Hr).
    rewrite (scan_transaction_ok g (u32 n) d _ _ pos Hv Hcv Hx Hme Hr). cbn [rbind]. rewrite next_u32.
    rewrite log_len_cons, zlen_cons in *. pose proof (lg_len_pos x). pose proof (log_len_ge xs). pose proof (zlen_nonneg xs).
    rewrite <- advance_add in Hend by lia. replace (n + (1 + zlen xs)) with (n + 1 + zlen xs) in * by lia.
    fold (lg_len x). rewrite (IH fuel _ _ (c + 1)); [|done|done|cbn in Hf; lia|done]. do 2 f_equal. lia.
Qed.

Lemma revoke_pass_ok d xs pos n t :
  log_contains g d pos n xs -> log_len xs <= ring g ->
  revoke_pass (length xs) g d pos (u32 n) t = Ok (table_of t n xs).
Proof.
  revert pos n t. induction xs as [|x xs IH]; intros pos n t Hc Hl; [done|].
  destruct Hc as ([Hv Hcv] & Hh & Hc). destruct (lg_fits _ _ Hl) as [Hx Hl'].
  destruct (lg_holds_parts _ _ _ Hh) as (_ & Hme & Hr). cbn [length revoke_pass table_of].
  rewrite (collect_transaction_revokes_ok g (u32 n) d _ _ pos t Hv Hcv Hx Hme Hr). cbn [rbind]. rewrite next_u32.
  by apply IH.
Qed.

Lemma replay_off_journal d rv n xs :
  Forall (fun x => Forall (home_ok g d) (chain_items (lg_segs x))) xs -> off_journal g (replay_events rv n xs).
Proof.
  revert n. induction xs as [|x xs IH]; intros n Hh; cbn [replay_events]; [constructor|].
  apply Forall_cons in Hh as [Hx Hh]. apply Forall_app. split; [by eapply home_events_frame|by apply IH].
Qed.

Lemma replay_pass_ok d rv xs pos n :
  healthy d -> log_contains g d pos n xs -> log_len xs <= ring g ->
  Forall (fun x => Forall (home_ok g d) (chain_items (lg_segs x))) xs ->
  replay_pass (length xs) g rv pos (u32 n) d = (Ok tt, write_events (replay_events rv n xs) d).
Proof.
  revert d pos n. induction xs as [|x xs IH]; intros d pos n Hd Hc Hl Hh; cbn [length replay_pass replay_events].
  { by rewrite write_events_nil. }
  destruct Hc as ([Hv Hcv] & Hhold & Hc). destruct (lg_fits _ _ Hl) as [Hx Hl']. apply Forall_cons in Hh as [Hhx Hh].
  rewrite (bind_ok _ _ _ _ _ (apply_log_transaction_ok g Hm (u32 n) rv d _ _ pos Hd Hv Hcv Hhx Hx Hhold)).
  rewrite next_u32, write_events_app. fold (lg_len x).
  apply IH; [done| |done|].
  - apply log_contains_frame; [done| |done]. by eapply home_events_frame.
  - eapply Forall_impl; [exact Hh|]. intros y Hy. eapply Forall_impl; [exact Hy|]. intros it. apply home_ok_frame.
    intros b. apply apply_events_is_Some.
Qed.
End Passes.

(** ** Lemmas: the whole recovery *)

(** The home writes of a recovery. *)
Definition recovery_writes (n : Z) (xs : list logged) : list event := replay_events (table_of table_new n xs) n xs.

(** The journal after a recovery that ended at transaction [m]. *)
Definition recovered (j : Journal) (d : device) (m : Z) : Journal :=
  with_committed (with_state (with_device j d)
    (set_next_tid (set_log (state j) (first (geometry j)) None (u32 m)) (u32 m))) (Tid.prev (u32 m)).

Lemma log_body_clean g lo d p n xs :
  log_body g lo d (Some p) n xs -> log_body g lo d None (n + zlen xs) [].
Proof.
  intros Hb. pose proof (zlen_nonneg xs). pose proof (ring_pos g (li_geo _ _ _ _ _ _ Hb)). destruct Hb.
  constructor; try done; rewrite ?zlen_nil, ?Z.add_0_r; try done; [cbn; lia|lia].
Qed.

Lemma recover_dirty g lo d p n xs j :
  recoverable g lo d (Some p) n xs -> geometry j = g -> j_device j = d ->
  exists sbp blk, log_block_to_physical g 0 = Some sbp /\ sbp ∈ block_map g /\
    let d' := write_events [EvWrite sbp blk; EvFlush] (write_events (recovery_writes n xs ++ [EvFlush]) d) in
    recover j = (Ok tt, recovered j d' (n + zlen xs)) /\ log_inv g lo d' None (n + zlen xs) [].
Proof.
  intros (Hb & (raw & Hraw & Hst & Hsq & Hsp) & He) <- <-. set (g := geometry j) in *. set (d := j_device j) in *.
  pose proof (li_geo _ _ _ _ _ _ Hb) as Hg. pose proof (li_map _ _ _ _ _ _ Hb) as Hm. pose proof (li_healthy _ _ _ _ _ _ Hb) as Hh.
  pose proof (li_log _ _ _ _ _ _ Hb) as Hlog. pose proof (li_len _ _ _ _ _ _ Hb) as Hlen. pose proof (li_home _ _ _ _ _ _ Hb) as Hho.
  pose proof (li_tail _ _ _ _ _ _ Hb) as Hp. cbn [start_of] in Hst. pose proof (geo_first g Hg) as Hf. pose proof (geo_maxlen g Hg) as Hmx.
  set (d1 := write_events (recovery_writes n xs ++ [EvFlush]) d).
  assert (off_journal g (recovery_writes n xs ++ [EvFlush])) as Hoff
    by (apply Forall_app; split; [by eapply replay_off_journal|by repeat constructor]).
  pose proof (log_body_frame _ _ _ _ _ _ _ Hb Hoff) as Hb1.
  assert (read_raw_superblock g d1 = Ok raw) as Hraw1 by by unfold d1; rewrite read_super_frame.
  destruct (super_switch g lo d1 (Some p) n xs raw (Some (first g)) None (n + zlen xs) [] Hb1 Hraw1 Hsp)
    as (sbp & blk & Hs0 & Hsin & _ & Hwr & Hb2 & Hsup2); [by apply log_body_clean in Hb1|cbn; unfold fits in *; lia|].
  exists sbp, blk. split_and!; [done..|]. cbn zeta. split; [|split_and!; done].
  unfold recover. rewrite (bind_ok get _ j j j) by done. fold g d. rewrite (bind_ok _ _ j raw j) by (unfold lift; by rewrite Hraw).
  unfold recovery_start. rewrite Hst, (proj2 (Z.eqb_neq p 0)) by (unfold in_ring in Hp; lia). rewrite Hsq.
  rewrite (bind_ok _ _ j (u32 (n + zlen xs), 0 + zlen xs) j).
  2:{ unfold lift. rewrite (scan_pass_ok g Hg d xs); [done|done|done| |exact He].
      pose proof (log_len_ge xs). unfold SCAN_FUEL, ring, zlen in *. lia. }
  replace (Z.to_nat (0 + zlen xs)) with (length xs) by (unfold zlen; lia).
  rewrite (bind_ok _ _ j (table_of table_new n xs) j) by (unfold lift; by rewrite (revoke_pass_ok g Hg d xs)).
  rewrite (bind_ok _ _ j tt (with_device j (write_events (recovery_writes n xs) d)))
    by (apply on_device_ok; by apply replay_pass_ok).
  rewrite (bind_ok _ _ _ tt (with_device j d1)).
  2:{ apply on_device_step. rewrite barrier_ok by done. unfold d1. by rewrite write_events_app. }
  rewrite (bind_ok _ _ _ tt (with_device j (write_events [EvWrite sbp blk; EvFlush] d1))); [done|].
  by apply on_device_step.
Qed.

Lemma recover_clean g lo d n xs j :
  recoverable g lo d None n xs -> geometry j = g -> j_device j = d -> recover j = (Ok tt, j).
Proof.
  intros (Hb & (raw & Hraw & Hst & _) & _) <- <-. unfold recover. rewrite (bind_ok get _ j j j) by done.
  rewrite (bind_ok _ _ j raw j) by (unfold lift; by rewrite Hraw). unfold recovery_start. by rewrite Hst.
Qed.

(** The disk a complete recovery leaves at a home block. *)
Lemma recovered_block g lo d p n xs sbp blk b :
  log_body g lo d (Some p) n xs -> sbp ∈ block_map g -> b ∉ block_map g ->
  d_disk (write_events [EvWrite sbp blk; EvFlush] (write_events (recovery_writes n xs ++ [EvFlush]) d)) !! b =
    contents (d_disk d) xs b.
Proof.
  intros Hb Hs Hnb. cbn [d_disk write_events apply_events fold_left apply_event].
  rewrite lookup_insert_ne by (by intros ->). rewrite apply_events_app. cbn [apply_events fold_left apply_event].
  pose proof (replay_prefix n xs [] (d_disk d) b) as Hr. rewrite app_nil_r in Hr. apply Hr.
  pose proof (log_count _ _ _ _ _ _ Hb). lia.
Qed.

(** Home writes of a log that is still live change nothing it means. *)
Lemma contents_kept n xs ys kept disk b :
  zlen (xs ++ ys) <= 2 ^ 31 -> sublist kept (replay_events (table_of table_new n (xs ++ ys)) n xs) ->
  contents (apply_events kept disk) (xs ++ ys) b = contents disk (xs ++ ys) b.
Proof.
  intros Hl Hk. unfold contents. destruct (log_image (xs ++ ys) b) as [i|] eqn:E; [done|]. cbn [or_else].
  apply lookup_apply_events_other, Forall_forall. intros [x data|] He; [|done]. cbn. intros [= ->].
  eapply elem_of_sublist in He; [|exact Hk]. apply replay_touches in He; [|done]. rewrite E in He. by destruct He.
Qed.

Lemma home_events_no_flush t rv items : Forall (fun e => is_flush e = false) (home_events t rv items).
Proof.
  induction items as [|it items IH]; [constructor|]. apply Forall_app. split; [|done].
  unfold home_event. destruct (suppresses _ _ _); by repeat constructor.
Qed.

Lemma replay_no_flush rv n xs : Forall (fun e => is_flush e = false) (replay_events rv n xs).
Proof.
  revert n. induction xs as [|x xs IH]; intros n; [constructor|]. apply Forall_app. split; [apply home_events_no_flush|apply IH].
Qed.

(** Writing a prefix [ys] of the live log home and then moving the tail past
    it: a crash leaves the old log, or the rest [zs] of it, and either means
    what the whole log meant. *)
Section HomeCrash.
Context (g : JournalGeometry) (lo : Z) (d : device) (p n : Z) (ys zs : list logged).
Context (sbp : Z) (blk : list byte) (tail' : option Z) (n' : Z).
Notation writes := (replay_events (table_of table_new n (ys ++ zs)) n ys).
Context (Hr : recoverable g lo d (Some p) n (ys ++ zs)) (Hin : sbp ∈ block_map g).
Context (Hr' : recoverable g lo (write_events [EvWrite sbp blk; EvFlush] (write_events (writes ++ [EvFlush]) d)) tail' n' zs).
Context (Hn' : n' + zlen zs = n + zlen (ys ++ zs)).

Definition same_meaning (c : gmap Z (list byte)) : Prop :=
  exists t m xs', recoverable g lo (reopen d c) t m xs' /\ m + zlen xs' = n + zlen (ys ++ zs) /\
    forall b, b ∉ block_map g -> contents c xs' b = contents (d_disk d) (ys ++ zs) b.

Lemma home_partial kept : sublist kept writes -> same_meaning (apply_events kept (d_disk d)).
Proof.
  intros Hk. pose proof Hr as (Hb & _). pose proof (log_count _ _ _ _ _ _ Hb). exists (Some p), n, (ys ++ zs). split_and!; [|done|].
  - apply (recoverable_same _ _ (write_events kept d)); [|split; [done|apply Hb]]. apply recoverable_frame; [done|].
    eapply off_journal_sublist; [exact Hk|]. apply (replay_off_journal g d).
    pose proof (li_home _ _ _ _ _ _ Hb) as Hho. by apply Forall_app in Hho as [? _].
  - intros b _. apply (contents_kept n ys zs); [lia|done].
Qed.

Lemma home_moved : same_meaning (apply_events [EvWrite sbp blk] (apply_events writes (d_disk d))).
Proof.
  pose proof Hr as (Hb & _). pose proof (log_count _ _ _ _ _ _ Hb). exists tail', n', zs. split_and!; [|done|].
  - eapply recoverable_same; [exact Hr'|]. split; [|apply Hb]. cbn [d_disk write_events reopen]. rewrite apply_events_app. done.
  - intros b Hnb. apply (contents_prefix n); [lia|]. cbn [apply_events fold_left apply_event]. by rewrite lookup_insert_ne by (by intros ->).
Qed.

Lemma home_crash c : crash_disk (d_disk d) ((writes ++ [EvFlush]) ++ [EvWrite sbp blk; EvFlush]) c -> same_meaning c.
Proof.
  rewrite <- app_assoc. cbn [app]. intros [Hc|Hc]%crash_cut.
  - apply crash_unflushed in Hc as (kept & Hk & ->); [|by eapply replay_no_flush]. by apply home_partial.
  - apply (crash_cut _ [EvWrite sbp blk] []) in Hc as [Hc|Hc].
    + apply crash_unflushed in Hc as (kept & Hk & ->); [|by repeat constructor].
      apply sublist_cons_r in Hk as [Hk|(k & -> & Hk)]; apply sublist_nil_r in Hk; subst; [by apply home_partial|by apply home_moved].
    + apply crash_unflushed in Hc as (kept & Hk & ->); [|constructor]. apply sublist_nil_r in Hk. subst kept. by apply home_moved.
Qed.
End HomeCrash.

Lemma recover_contents g lo d tail n xs j :
  recoverable g lo d tail n xs -> geometry j = g -> j_device j = d ->
  exists j', recover j = (Ok tt, j') /\ log_inv g lo (j_device j') None (n + zlen xs) [] /\
    (forall b, b ∉ block_map g -> d_disk (j_device j') !! b = contents (d_disk d) xs b) /\
    (is_Some tail -> next_tid (state j') = u32 (n + zlen xs) /\ head (state j') = first g /\
       tail_block (state j') = None /\ committed_tid j' = Tid.prev (u32 (n + zlen xs))).
Proof.
  intros Hr Hg Hd. destruct tail as [p|].
  - destruct (recover_dirty _ _ _ _ _ _ _ Hr Hg Hd) as (sbp & blk & _ & Hin & E & Hi). eexists. split; [exact E|].
    split; [done|]. split; [|by rewrite <- Hg]. intros b Hb. apply (recovered_block g lo d p); [apply Hr|done|done].
  - exists j. split; [by eapply recover_clean|]. pose proof (li_tail _ _ _ _ _ _ (proj1 Hr)) as Hx. cbn in Hx. subst xs d.
    rewrite zlen_nil, Z.add_0_r. split_and!; [apply Hr..|done| |by intros [? [=]]]. intros b _. done.
Qed.

(** ** Theorems *)

(** PASS_SCAN ends on every journal, however corrupt: each round that
    continues has found a commit block with a new transaction id, so the
    ring's length bounds the rounds, and more fuel changes nothing. *)
Theorem recovery_scan_terminates g d log tid count extra :
  geometry_ok g -> in_ring g log -> fits 32 tid ->
  scan_pass (SCAN_FUEL g + extra) g d log tid count = scan_pass (SCAN_FUEL g) g d log tid count.
Proof. apply scan_pass_fuel. Qed.

(** C3: Recovery implements the log's meaning.  From any recoverable disk it
    succeeds; afterwards every block outside the journal is what the log
    says (the newest committed image that no later revoke cancels, or else
    what was on disk), and the journal is clean and numbered past the last
    committed transaction. *)
Theorem recovery_correct g lo d tail n xs j :
  recoverable g lo d tail n xs -> geometry j = g -> j_device j = d ->
  exists j', recover j = (Ok tt, j') /\ log_inv g lo (j_device j') None (n + zlen xs) [] /\
    (forall b, b ∉ block_map g -> d_disk (j_device j') !! b = contents (d_disk d) xs b) /\
    (is_Some tail -> next_tid (state j') = u32 (n + zlen xs) /\ head (state j') = first g /\
       tail_block (state j') = None /\ committed_tid j' = Tid.prev (u32 (n + zlen xs))).
Proof. apply recover_contents. Qed.

(** C4: Recovery may be interrupted.  Whatever part of its writes a crash
    keeps, the disk is recoverable again and means the same: replaying twice
    gives what replaying once gives. *)
Theorem recovery_crash_safe g lo d p n xs j j' c :
  recoverable g lo d (Some p) n xs -> geometry j = g -> j_device j = d -> d_hist d = [] ->
  recover j = (Ok tt, j') -> crash_disk (d_disk d) (d_hist (j_device j')) c ->
  exists tail' n' xs', recoverable g lo (reopen d c) tail' n' xs' /\
    forall b, b ∉ block_map g -> contents c xs' b = contents (d_disk d) xs b.
Proof.
  intros Hr Hg Hd Hh E Hc. destruct (recover_dirty _ _ _ _ _ _ _ Hr Hg Hd) as (sbp & blk & _ & Hin & E' & Hi).
  rewrite E in E'. injection E' as ->. cbn [recovered with_committed with_state with_device j_device write_events d_hist] in Hc.
  rewrite Hh in Hc. cbn [app] in Hc.
  pose proof (home_crash g lo d p n xs [] sbp blk None (n + zlen xs)) as H. unfold same_meaning in H. rewrite app_nil_r in H.
  destruct (H Hr Hin (log_inv_recoverable _ _ _ _ _ _ Hi) (Z.add_0_r _) c Hc) as (t & m & xs' & Hr' & _ & Hm). by exists t, m, xs'.
Qed.

(** ** Witnesses

    The sample journal with one committed transaction in its log: an image of
    block 10, and a revoke of block 11. *)

Module SampleLog.

Definition img : list byte := repeat Byte.x41 4096.

Definition revoke_block : list byte :=
  match (let? w := revoke_writer (tag_layout sample_geometry) 5 None in revoke_put_all w [11]) with
  | Ok w => revoke_finish w
  | Err _ => []
  end.

Definition desc : list byte :=
  let hdr := write_at header_codec 0 (chain_header 5 BLOCKTYPE_DESCRIPTOR) (zeros BLOCK_SIZE) in
  match (let? w := writer (tag_layout sample_geometry) hdr 5 None in put w 10 TAG_FLAG_LAST_TAG img) with
  | Ok w => finish w
  | Err _ => []
  end.

Definition commit : list byte := write_at header_codec 0 (chain_header 5 BLOCKTYPE_COMMIT) (zeros BLOCK_SIZE).
Definition tag : DescriptorTag := {| dt_blocknr := 10; dt_flags := TAG_FLAG_LAST_TAG; dt_checksum := None |}.
Definition txn : logged := {| lg_segs := [SegRevoke revoke_block [11]; SegRun desc [(tag, img)]]; lg_commit := commit |}.

Definition super : list byte :=
  write_at superblock_codec 0 (set_log_state (Sample.raw 0) 3 5 None) (zeros BLOCK_SIZE).

Definition dev : device :=
  Device (<[100 := super]> (<[103 := revoke_block]> (<[104 := desc]> (<[105 := img]> (<[106 := commit]> (Sample.disk 0))))))
    [] (fun _ => true) (fun _ => true) true.

Definition journal : Journal := journal_new sample_geometry dev.

(** What has to be checked block by block. *)
Definition present_b (d : device) (p : Z) : bool :=
  match d_disk d !! p with Some b => zlen b =? BLOCK_SIZE | None => false end.

Definition old_b (d : device) (i : nat) : bool :=
  match read_log_block sample_geometry d (first sample_geometry + Z.of_nat i) with
  | Ok b => negb (h_magic (parse_header b) =? JBD2_MAGIC) || (h_sequence (parse_header b) =? 5)
  | Err _ => true
  end.

End SampleLog.

Lemma sample_map_ok : map_ok sample_geometry.
Proof.
  split; [|vm_decide]. apply Forall_forall. intros b (i & -> & Hi)%list_elem_of_fmap. apply elem_of_seq in Hi. unfold bid_ok. lia.
Qed.

Lemma sample_present d :
  forallb (SampleLog.present_b d) (block_map sample_geometry) = true ->
  Forall (fun p => exists b, d_disk d !! p = Some b /\ is_block b) (block_map sample_geometry).
Proof.
  intros H. apply Forall_forall. intros p Hp%list_elem_of_In. rewrite forallb_forall in H. specialize (H p Hp).
  unfold SampleLog.present_b in H. destruct (d_disk d !! p) as [b|]; [|done]. exists b. split; [done|]. by apply Z.eqb_eq.
Qed.

Lemma sample_old d p blk :
  forallb (SampleLog.old_b d) (seq 0 11) = true -> in_ring sample_geometry p -> read_log_block sample_geometry d p = Ok blk ->
  h_magic (parse_header blk) = JBD2_MAGIC -> h_sequence (parse_header blk) = 5.
Proof.
  intros H Hp Hr Hm. rewrite forallb_forall in H.
  unfold in_ring in Hp. change (first sample_geometry) with 1 in *. change (maxlen sample_geometry) with 12 in Hp.
  specialize (H (Z.to_nat (p - 1))). unfold SampleLog.old_b in H. change (first sample_geometry) with 1 in H.
  replace (1 + Z.of_nat (Z.to_nat (p - 1))) with p in H by lia. rewrite Hr, Hm, Z.eqb_refl in H. cbn [negb orb] in H.
  apply Z.eqb_eq, H, in_seq. lia.
Qed.

Lemma sample_log_holds : log_holds sample_geometry SampleLog.dev 3 (lg_blocks SampleLog.txn).
Proof. repeat split; vm_compute; reflexivity. Qed.

Lemma sample_log_valid : logged_valid sample_geometry 5 SampleLog.txn.
Proof.
  split; [|split; vm_compute; reflexivity].
  repeat constructor; try (vm_compute; reflexivity).
Qed.

Lemma sample_log_body : log_body sample_geometry 5 SampleLog.dev (Some 3) 5 [SampleLog.txn].
Proof.
  constructor; try done.
  - apply sample_geometry_ok.
  - apply sample_map_ok.
  - by apply sample_present.
  - split_and!; [apply sample_log_valid|apply sample_log_holds|done].
  - by repeat constructor.
  - constructor; [|constructor]. constructor; [|constructor].
    split_and!; [done| |vm_decide]. vm_compute. by eexists.
  - intros p blk Hp Hr Hm. exists 5. split; [rewrite zlen_cons, zlen_nil; lia|]. by eapply (sample_old SampleLog.dev p blk).
Qed.

Lemma sample_super st : 0 <= st < 12 -> super_of sample_geometry (set_log_state (Sample.raw 0) st 5 None).
Proof. intros H. split_and!; [done|done|]. eexists. split; [reflexivity|]. by vm_compute. Qed.

Lemma sample_recoverable : recoverable sample_geometry 5 SampleLog.dev (Some 3) 5 [SampleLog.txn].
Proof.
  split_and!; [apply sample_log_body| |].
  - exists (set_log_state (Sample.raw 0) 3 5 None). split_and!; [vm_compute; reflexivity|done|done|by apply sample_super].
  - vm_compute. reflexivity.
Qed.

Lemma sample_log_inv : log_inv sample_geometry 5 SampleLog.dev (Some 3) 5 [SampleLog.txn].
Proof.
  destruct sample_recoverable as (Hb & Hs & _). split_and!; [done|done|].
  intros p blk Hp Hr Hm. exists 5. split; [rewrite zlen_cons, zlen_nil; lia|]. eapply (sample_old SampleLog.dev p blk); [|done..].
  vm_compute. reflexivity.
Qed.

Lemma recovery_scan_terminates_witness :
  scan_pass (SCAN_FUEL sample_geometry + 100) sample_geometry SampleLog.dev 3 5 0 = Ok (6, 1).
Proof.
  rewrite (recovery_scan_terminates sample_geometry SampleLog.dev 3 5 0 100 sample_geometry_ok); [|done..].
  vm_compute. reflexivity.
Defined.

Lemma recovery_correct_witness : exists j',
  recover SampleLog.journal = (Ok tt, j') /\ d_disk (j_device j') !! 10 = Some SampleLog.img /\
  next_tid (state j') = 6 /\ committed_tid j' = 5.
Proof.
  destruct (recovery_correct sample_geometry 5 SampleLog.dev (Some 3) 5 [SampleLog.txn] SampleLog.journal
    sample_recoverable eq_refl eq_refl) as (j' & E & _ & Hb & Hs).
  exists j'. destruct (Hs ltac:(by eexists)) as (H1 & _ & _ & H2).
  split_and!; [exact E| |exact H1|exact H2]. rewrite (Hb 10) by vm_decide. vm_compute. reflexivity.
Defined.

Lemma recovery_crash_safe_witness : exists j' tail' n' xs',
  recover SampleLog.journal = (Ok tt, j') /\
  recoverable sample_geometry 5 (reopen SampleLog.dev (d_disk SampleLog.dev)) tail' n' xs'.
Proof.
  destruct (recover SampleLog.journal) as [r j'] eqn:E.
  assert (r = Ok tt) as ->.
  { assert ((recover SampleLog.journal).1 = Ok tt) as H by (vm_compute; reflexivity). by rewrite E in H. }
  destruct (recovery_crash_safe sample_geometry 5 SampleLog.dev 3 5 [SampleLog.txn] SampleLog.journal j'
    (d_disk SampleLog.dev) sample_recoverable eq_refl eq_refl eq_refl E) as (t & n & xs & H & _).
  - by apply (CrashDisk _ _ [] [] (d_hist (j_device j')) []); [|left|constructor|].
  - exists j', t, n, xs. exact (conj eq_refl H).
Defined.
