(* ===== verification/Checkpoint.v ===== *)
(** * Checkpointing

    Models [checkpoint_advance] and [checkpoint] of [journal/checkpoint.rs]:
    committed transactions are written home in order, from the tail on, and
    the tail then moves past them.  The pass stops in front of a transaction
    with a block that is revoked but not yet published, and an incremental
    pass stops once enough of the log is free.

    The loop runs while the published id is at or after the current one, as
    serial numbers; the fuel is the distance between the two, which every
    round shortens by one. *)

From S2P Require Import Prelude Pod JournalFormat JournalTags Device Geometry Revoke LogWalk LogModel LogInv Transaction JournalState JournalInv Handles Commit Recovery.

(** ** The code *)

(** The revokes of the transactions that are not committed yet. *)
Definition unpublished_revokes (st : JournalState) : gset Z :=
  let out := match running st with Some t => collect_unpublished_revokes t ∅ | None => ∅ end in
  let out := match locking st with Some t => collect_unpublished_revokes t out | None => out end in
  match committing st with Some c => committing_unpublished c out | None => out end.

(** Whether an incremental pass has freed enough with the tail at [log]. *)
Definition target_met (g : JournalGeometry) (target_free : option Z) (head log : Z) : bool :=
  match target_free with
  | Some want_free => want_free <=? free_log_blocks g head (Some log)
  | None => false
  end.

(** The loop of [checkpoint_advance]: the log position and id it stopped on,
    whether anything was applied, and whether it stopped early. *)
Fixpoint advance_loop (fuel : nat) (g : JournalGeometry) (revoked : RevokeTable) (unpublished : gset Z)
    (target_free : option Z) (committed head log tid : Z) (applied_any : bool) : M device (Z * Z * bool * bool) :=
  if negb (Tid.geq committed tid) then mret (log, tid, applied_any, false)
  else
    match fuel with
    | O => fail EUCLEAN
    | S fuel =>
        d ← get;
        covered ← (if bool_decide (unpublished = ∅) then mret false
                   else lift (chain_covers_unpublished g d log tid unpublished));
        if (covered : bool) then mret (log, tid, applied_any, true)
        else
          log ← apply_log_transaction g log tid revoked;
          let tid := Tid.next tid in
          if Tid.geq committed tid && target_met g target_free head log then mret (log, tid, true, true)
          else advance_loop fuel g revoked unpublished target_free committed head log tid true
    end.

Definition ADVANCE_FUEL (committed tid : Z) : nat := Z.to_nat (u32 (committed - tid) + 1).

(** The clean superblock of a full pass. *)
Definition mark_clean (g : JournalGeometry) (sequence head : Z) : M device unit :=
  d ← get;
  raw ← lift (read_raw_superblock g d);
  write_superblock g (set_log_state raw 0 sequence (Some head)).

(** The state once the tail has moved. *)
Definition retire_applied (st : JournalState) (tail : option Z) (tid applied_through : Z) : JournalState :=
  let st := set_log st (head st) tail tid in
  set_memory st (retire_through (st_revoked st) applied_through)
    (filter (fun p => is_checkpointed_by p.2 applied_through = false) (uncheckpointed st)) (pinned_frees st).

Definition checkpoint_advance (target_free : option Z) : M Journal bool :=
  j ← get;
  let g := geometry j in
  let st := state j in
  match tail_block st with
  | None => mret false
  | Some tail =>
      if target_met g target_free (head st) tail then mret false
      else
        '(log, tid, applied_any, stopped_early) ←
          on_device (advance_loop (ADVANCE_FUEL (committed_tid j) (tail_tid st)) g (st_revoked st) (unpublished_revokes st)
                       target_free (committed_tid j) (head st) tail (tail_tid st) false);
        if negb (applied_any : bool) then mret false
        else
          let applied_through := Tid.prev tid in
          on_device barrier ;;
          (if (stopped_early : bool) then on_device (update_superblock_tail g log tid)
           else on_device (mark_clean g (Tid.next (committed_tid j)) (head st))) ;;
          modify (fun j => with_state j
            (retire_applied (state j) (if (stopped_early : bool) then Some log else None) tid applied_through)) ;;
          mret true
  end.

Definition checkpoint : M Journal unit := checkpoint_advance None ;; mret tt.

(** ** Lemmas: the loop ends *)

Lemma geq_distance committed tid :
  Tid.geq committed tid = true <-> u32 (committed - tid) < 2 ^ 31.
Proof.
  unfold Tid.geq, Tid.as_i32. rewrite Z.leb_le. pose proof (u32_fits (committed - tid)). unfold fits in *.
  destruct (Z.ltb_spec (u32 (committed - tid)) (2 ^ 31)); lia.
Qed.

Lemma next_distance committed tid :
  0 < u32 (committed - tid) -> u32 (committed - Tid.next tid) = u32 (committed - tid) - 1.
Proof.
  intros H. unfold Tid.next, u32, wrap in *. rewrite Zminus_mod_idemp_r.
  replace (committed - (tid + 1)) with (committed - tid - 1) by lia. rewrite <- Zminus_mod_idemp_l.
  pose proof (Z.mod_pos_bound (committed - tid) (2 ^ 32) ltac:(lia)). apply Z.mod_small. lia.
Qed.

Lemma last_distance committed tid : u32 (committed - tid) = 0 -> Tid.geq committed (Tid.next tid) = false.
Proof.
  intros H. apply not_true_is_false. rewrite geq_distance. unfold Tid.next, u32, wrap in *. rewrite Zminus_mod_idemp_r.
  replace (committed - (tid + 1)) with (committed - tid - 1) by lia. rewrite <- Zminus_mod_idemp_l, H. by vm_compute.
Qed.

Lemma advance_loop_done fuel g rv u target committed hd log tid applied :
  Tid.geq committed tid = false ->
  advance_loop fuel g rv u target committed hd log tid applied = mret (log, tid, applied, false).
Proof. intros E. destruct fuel; cbn [advance_loop]; by rewrite E. Qed.

Lemma advance_loop_fuel fuel extra g rv u target committed hd log tid applied d :
  (Z.to_nat (u32 (committed - tid) + 1) <= fuel)%nat ->
  advance_loop (fuel + extra) g rv u target committed hd log tid applied d =
  advance_loop fuel g rv u target committed hd log tid applied d.
Proof.
  revert log tid applied d. induction fuel as [|fuel IH]; intros log tid applied d Hf.
  { pose proof (u32_fits (committed - tid)). unfold fits in *. lia. }
  cbn [Nat.add advance_loop]. destruct (Tid.geq committed tid) eqn:Eg; cbn [negb]; [|done].
  apply bind_ext. intros d0 d1 _. apply bind_ext. intros [|] d2 _; [done|]. apply bind_ext. intros log' d3 _.
  destruct (Tid.geq committed (Tid.next tid)) eqn:En; cbn [andb].
  - destruct (target_met g target hd log'); [done|]. apply IH. pose proof (u32_fits (committed - tid)) as Hu. unfold fits in Hu.
    destruct (decide (u32 (committed - tid) = 0)) as [E0|]; [by rewrite last_distance in En|].
    rewrite next_distance by lia. lia.
  - by rewrite !advance_loop_done.
Qed.

(** ** Lemmas: a pass over a well-formed log *)

Definition covered (u : gset Z) (x : logged) : bool := items_cover u (chain_items (lg_segs x)).

(** Why a pass stops where it does: at the end, in front of a transaction
    with an unpublished revoke, or with enough space free. *)
Definition stops_at (g : JournalGeometry) (u : gset Z) (target : option Z) (hd log : Z) (ys zs : list logged) : Prop :=
  match zs with
  | [] => True
  | z :: _ => covered u z = true \/ ys <> [] /\ target_met g target hd log = true
  end.

Lemma items_cover_empty items : items_cover ∅ items = false.
Proof. unfold items_cover. induction items as [|it items IH]; [done|]. cbn [existsb]. by rewrite bool_decide_false by set_solver. Qed.

Lemma advance_loop_ok g rv u target hd xs d pos n applied fuel :
  geometry_ok g -> map_ok g -> healthy d -> log_contains g d pos n xs -> log_len xs <= ring g ->
  Forall (fun x => Forall (home_ok g d) (chain_items (lg_segs x))) xs -> zlen xs < 2 ^ 31 -> (length xs <= fuel)%nat ->
  exists ys zs, xs = ys ++ zs /\
    advance_loop fuel g rv u target (u32 (n + zlen xs - 1)) hd pos (u32 n) applied d =
      (Ok (advance g pos (log_len ys), u32 (n + zlen ys), applied || bool_decide (ys <> []), bool_decide (zs <> [])),
       write_events (replay_events rv n ys) d) /\
    Forall (fun x => covered u x = false) ys /\ stops_at g u target hd (advance g pos (log_len ys)) ys zs.
Proof.
  intros Hg Hm. revert d pos n applied fuel. induction xs as [|x xs IH]; intros d pos n applied fuel Hd Hc Hl Hh Hz Hf.
  { exists [], []. rewrite zlen_nil, advance_0, Z.add_0_r. split; [done|]. rewrite advance_loop_done.
    - rewrite !bool_decide_false by tauto. rewrite orb_false_r, write_events_nil. done.
    - rewrite geq_window by lia. apply Z.leb_gt. lia. }
  destruct fuel as [|fuel]; [cbn in Hf; lia|]. destruct Hc as ([Hv Hcv] & Hhold & Hc).
  destruct (lg_fits g Hg _ _ Hl) as [Hx Hl']. apply Forall_cons in Hh as [Hhx Hh].
  destruct (lg_holds_parts g _ _ _ Hhold) as (_ & Hme & Hr). rewrite zlen_cons in *. pose proof (zlen_nonneg xs).
  cbn [advance_loop]. rewrite geq_window by lia. rewrite (proj2 (Z.leb_le _ _)) by lia. cbn [negb].
  rewrite (bind_ok get _ d d d) by done. rewrite (bind_ok _ _ d (covered u x) d).
  2:{ case_bool_decide as Eu; [subst u; unfold covered; by rewrite items_cover_empty|]. unfold lift. f_equal.
      by apply (chain_covers_unpublished_ok g (u32 n) d u _ (lg_commit x) pos). }
  destruct (covered u x) eqn:Ecov.
  { exists [], (x :: xs). change (log_len []) with 0. change (zlen (@nil logged)) with 0. rewrite advance_0, Z.add_0_r.
    rewrite write_events_nil, orb_false_r. split_and!; [done|done|constructor|by left]. }
  rewrite (bind_ok _ _ _ _ _ (apply_log_transaction_ok g Hm (u32 n) rv d _ _ pos Hd Hv Hcv Hhx Hx Hhold)).
  fold (lg_len x). rewrite next_u32, geq_window by lia. set (d' := write_events (home_events _ _ _) d).
  assert (log_contains g d' (advance g pos (lg_len x)) (n + 1) xs) as Hc'
    by (apply log_contains_frame; [done| |done]; by eapply home_events_frame).
  assert (Forall (fun x => Forall (home_ok g d') (chain_items (lg_segs x))) xs) as Hh'.
  { eapply Forall_impl; [exact Hh|]. intros y Hy. eapply Forall_impl; [exact Hy|]. intros it. apply home_ok_frame.
    intros b. apply apply_events_is_Some. }
  destruct (((n + 1 <=? n + (1 + zlen xs) - 1) && target_met g target hd (advance g pos (lg_len x)))) eqn:Estop.
  { apply andb_true_iff in Estop as [Hn Ht]. apply Z.leb_le in Hn. destruct xs as [|y xs]; [change (zlen (@nil logged)) with 0 in Hn; lia|].
    exists [x], (y :: xs). cbn [replay_events log_len foldr]. rewrite app_nil_r, Z.add_0_r.
    rewrite orb_true_r. split_and!; [done|done|by constructor|by right]. }
  destruct (IH d' (advance g pos (lg_len x)) (n + 1) true fuel) as (ys & zs & -> & E & Hcov & Hst);
    [done|done|done|done|lia|cbn in Hf; lia|].
  pose proof (log_len_ge ys). pose proof (zlen_nonneg ys). pose proof (lg_len_pos x).
  exists (x :: ys), zs. replace (n + (1 + zlen (ys ++ zs)) - 1) with (n + 1 + zlen (ys ++ zs) - 1) by lia. rewrite E.
  cbn [orb replay_events]. rewrite orb_true_r, log_len_cons, zlen_cons, write_events_app, advance_add in * by lia.
  replace (n + 1 + zlen ys) with (n + (1 + zlen ys)) by lia. split_and!; [done|done|by constructor|].
  destruct zs; [done|]. destruct Hst as [?|[_ ?]]; [by left|by right].
Qed.

(** ** Lemmas: the whole pass *)

(** The writes of a pass that applied [ys]. *)
Definition checkpoint_events (rv : RevokeTable) (n : Z) (ys : list logged) (sbp : Z) (blk : list byte) : list event :=
  (replay_events rv n ys ++ [EvFlush]) ++ [EvWrite sbp blk; EvFlush].

(** Where the tail goes. *)
Definition tail_after (g : JournalGeometry) (p : Z) (ys zs : list logged) : option Z :=
  if bool_decide (zs <> []) then Some (advance g p (log_len ys)) else None.

Lemma log_body_after g lo d p n ys zs :
  log_body g lo d (Some p) n (ys ++ zs) -> log_body g lo d (tail_after g p ys zs) (n + zlen ys) zs.
Proof.
  intros H%log_body_drop. unfold tail_after. case_bool_decide as Hz; [done|].
  subst zs. apply log_body_clean in H. by rewrite zlen_nil, Z.add_0_r in H.
Qed.

(** The superblock write that moves the tail. *)
Lemma move_tail g lo d p n ys zs hd :
  log_body g lo d (Some p) n (ys ++ zs) -> super_says g d (Some p) n -> log_fresh g lo d (Some p) n (ys ++ zs) -> fits 32 hd ->
  exists sbp blk, sbp ∈ block_map g /\
    (if bool_decide (zs <> []) then update_superblock_tail g (advance g p (log_len ys)) (u32 (n + zlen ys))
     else mark_clean g (u32 (n + zlen ys)) hd) d = (Ok tt, write_events [EvWrite sbp blk; EvFlush] d) /\
    log_inv g lo (write_events [EvWrite sbp blk; EvFlush] d) (tail_after g p ys zs) (n + zlen ys) zs.
Proof.
  intros Hb (raw & Hraw & _ & _ & Hsp) Hf Hh.
  destruct (super_switch g lo d _ _ _ raw (if bool_decide (zs <> []) then None else Some hd) _ _ _ Hb Hraw Hsp (log_body_after _ _ _ _ _ _ _ Hb))
    as (sbp & blk & Hs & Hin & Hblk & Hw & Hb' & Hsup); [by case_bool_decide|].
  exists sbp, blk. split_and!; [done| |split_and!; [done|done|]].
  - revert Hw. unfold tail_after, update_superblock_tail, mark_clean. case_bool_decide; cbn [start_of]; intros Hw;
      rewrite (bind_ok get _ d d d) by done; by rewrite (bind_ok _ _ d raw d) by (unfold lift; by rewrite Hraw).
  - unfold tail_after. case_bool_decide; [|done]. apply log_fresh_drop in Hf. intros q b Hq.
    rewrite super_write_ring by (done || apply Hb). by apply Hf.
Qed.

(** The journal after a pass that applied [ys] and left [zs]. *)
Definition checkpointed (j : Journal) (d : device) (n p : Z) (ys zs : list logged) : Journal :=
  with_state (with_device j d)
    (retire_applied (state j) (tail_after (geometry j) p ys zs) (u32 (n + zlen ys)) (u32 (n + zlen ys - 1))).

Lemma with_device_id j : with_device j (j_device j) = j.
Proof. by destruct j. Qed.

Lemma checkpointed_coupled g lo n p ys zs j d :
  coupled g lo n (ys ++ zs) j -> tail_block (state j) = Some p -> log_inv g lo d (tail_after g p ys zs) (n + zlen ys) zs ->
  coupled g lo (n + zlen ys) zs (checkpointed j d n p ys zs).
Proof.
  intros [Hg (Hb & _) Hhd _ Hc Hrv] Et Hi. rewrite Et in *. pose proof (log_count _ _ _ _ _ _ Hb).
  constructor; cbn [checkpointed with_state with_device geometry j_device state retire_applied set_memory set_log tail_block
    JournalState.head tail_tid committed_tid st_revoked]; rewrite ?Hg; try done.
  - unfold tail_after. pose proof (log_len_ge ys). pose proof (zlen_nonneg ys). pose proof (log_len_ge zs). pose proof (zlen_nonneg zs).
    rewrite Hhd, log_len_app. case_bool_decide; [by rewrite advance_add by lia|].
    apply advance_in_ring; [apply Hb|apply Hb|lia].
  - rewrite Hc, zlen_app. f_equal. lia.
  - rewrite Hrv. apply table_of_retire. lia.
Qed.

Lemma checkpoint_run g lo n xs j p target :
  coupled g lo n xs j -> tail_block (state j) = Some p -> target_met g target (head (state j)) p = false ->
  exists ys zs, xs = ys ++ zs /\ Forall (fun x => covered (unpublished_revokes (state j)) x = false) ys /\
    stops_at g (unpublished_revokes (state j)) target (head (state j)) (advance g p (log_len ys)) ys zs /\
    if bool_decide (ys = []) then checkpoint_advance target j = (Ok false, j)
    else exists sbp blk, sbp ∈ block_map g /\
      let d' := write_events (checkpoint_events (table_of table_new n xs) n ys sbp blk) (j_device j) in
      checkpoint_advance target j = (Ok true, checkpointed j d' n p ys zs) /\ coupled g lo (n + zlen ys) zs (checkpointed j d' n p ys zs).
Proof.
  intros Hco Et Htm. pose proof Hco as [Eg (Hb & Hs & Hf) Hhd Htt Hct Hrv]. rewrite Et in *.
  pose proof (log_count _ _ _ _ _ _ Hb) as Hn. pose proof (li_geo _ _ _ _ _ _ Hb) as Hg.
  set (fuel := ADVANCE_FUEL (committed_tid j) (tail_tid (state j))).
  destruct (advance_loop_ok g (st_revoked (state j)) (unpublished_revokes (state j)) target (head (state j)) xs (j_device j) p n false fuel)
    as (ys & zs & -> & E & Hcov & Hst); [apply Hb..|lia| |].
  { unfold fuel, ADVANCE_FUEL. rewrite Hct, Htt, u32_sub. replace (n + zlen xs - 1 - n) with (zlen xs - 1) by lia.
    destruct xs as [|x xs]; [cbn; lia|]. rewrite zlen_cons in *. pose proof (zlen_nonneg xs).
    rewrite u32_small by (unfold fits; lia). unfold zlen. cbn [length]. lia. }
  exists ys, zs. split_and!; [done..|]. unfold checkpoint_advance. rewrite (bind_ok get _ j j j) by done. rewrite Eg, Et, Htm.
  fold fuel. rewrite Hct, Htt in *. rewrite (bind_ok _ _ _ _ _ (on_device_ok _ _ _ _ E)). cbn [orb].
  destruct (decide (ys = [])) as [-> | Hy].
  { rewrite (bool_decide_true ([] = [])) by done. rewrite bool_decide_false by tauto. cbn [negb replay_events].
    by rewrite write_events_nil, with_device_id. }
  rewrite (bool_decide_false (ys = [])), (bool_decide_true (ys <> [])) by done. cbn [negb]. rewrite Hrv in *.
  set (d1 := write_events (replay_events (table_of table_new n (ys ++ zs)) n ys ++ [EvFlush]) (j_device j)).
  assert (Hoff : off_journal g (replay_events (table_of table_new n (ys ++ zs)) n ys ++ [EvFlush])).
  { apply Forall_app. split; [|by repeat constructor]. apply (replay_off_journal g (j_device j)).
    pose proof (li_home _ _ _ _ _ _ Hb) as Hho. by apply Forall_app in Hho as [? _]. }
  destruct (log_inv_frame g lo (j_device j) (Some p) n (ys ++ zs) _ (conj Hb (conj Hs Hf)) Hoff) as (Hb1 & Hs1 & Hf1). fold d1 in Hb1, Hs1, Hf1.
  destruct (move_tail g lo d1 p n ys zs (head (state j)) Hb1 Hs1 Hf1) as (sbp & blk & Hin & Hmv & Hinv).
  { pose proof (geo_maxlen g Hg). pose proof (geo_first g Hg). pose proof (log_len_ge (ys ++ zs)). pose proof (zlen_nonneg (ys ++ zs)).
    assert (in_ring g (head (state j))) by (rewrite Hhd; apply advance_in_ring; [done|apply Hb|lia]). unfold in_ring, fits in *. lia. }
  exists sbp, blk. split; [done|]. cbn zeta. unfold checkpoint_events. rewrite write_events_app. fold d1.
  split; [|by apply checkpointed_coupled].
  rewrite (bind_ok _ _ _ tt (with_device j d1)).
  2:{ apply on_device_step. rewrite barrier_ok by apply Hb. unfold d1. by rewrite write_events_app. }
  rewrite (bind_ok _ _ _ tt (with_device j (write_events [EvWrite sbp blk; EvFlush] d1))).
  2:{ rewrite next_u32, zlen_app. destruct (bool_decide (zs <> [])) eqn:Hz; apply on_device_step; [done|].
      rewrite <- Hmv. apply bool_decide_eq_false in Hz. destruct zs; [|by destruct Hz]. rewrite zlen_nil. do 2 f_equal. lia. }
  rewrite prev_u32. unfold checkpointed, tail_after. rewrite Eg. by case_bool_decide.
Qed.

(** ** Lemmas: what a pass leaves alone *)

(** A block with an unpublished revoke is not written. *)
Lemma replay_spares u rv n ys b :
  Forall (fun x => covered u x = false) ys -> b ∈ u -> Forall (fun e => event_block e <> Some b) (replay_events rv n ys).
Proof.
  intros Hc Hb. revert n. induction Hc as [|x ys Hx Hc IH]; intros n; [constructor|]. apply Forall_app. split; [|done].
  revert Hx. unfold covered, items_cover. induction (chain_items (lg_segs x)) as [|it its IHi]; [constructor|]. cbn [existsb home_events flat_map].
  intros [Hi Hs]%orb_false_iff. apply Forall_app. split; [|by apply IHi]. apply bool_decide_eq_false in Hi. unfold home_event.
  destruct (suppresses _ _ _); repeat constructor. cbn. intros [= E]. by rewrite E in Hi.
Qed.

Lemma checkpoint_events_spare u g rv n ys sbp blk b :
  Forall (fun x => covered u x = false) ys -> b ∈ u -> sbp ∈ block_map g -> b ∉ block_map g ->
  Forall (fun e => event_block e <> Some b) (checkpoint_events rv n ys sbp blk).
Proof.
  intros Hc Hu Hin Hb. repeat (apply Forall_app; split); try (by repeat constructor); [by eapply replay_spares|].
  repeat constructor; cbn; [|done]. by intros [= ->].
Qed.

(** The contents are those of before. *)
Lemma checkpointed_contents g lo d p n ys zs sbp blk b :
  log_body g lo d (Some p) n (ys ++ zs) -> sbp ∈ block_map g -> b ∉ block_map g ->
  contents (d_disk (write_events (checkpoint_events (table_of table_new n (ys ++ zs)) n ys sbp blk) d)) zs b = contents (d_disk d) (ys ++ zs) b.
Proof.
  intros Hb Hs Hnb. pose proof (log_count _ _ _ _ _ _ Hb). apply (contents_prefix n); [lia|].
  unfold checkpoint_events. cbn [d_disk write_events]. rewrite !apply_events_app. cbn [apply_events fold_left apply_event].
  by rewrite lookup_insert_ne by (by intros ->).
Qed.

(** A pass does nothing, or writes a prefix of the live log home. *)
Lemma checkpoint_cases g lo n xs j target :
  coupled g lo n xs j ->
  checkpoint_advance target j = (Ok false, j) \/
  exists p ys zs sbp blk, tail_block (state j) = Some p /\ xs = ys ++ zs /\ ys <> [] /\
    Forall (fun x => covered (unpublished_revokes (state j)) x = false) ys /\ sbp ∈ block_map g /\
    let d' := write_events (checkpoint_events (table_of table_new n xs) n ys sbp blk) (j_device j) in
    checkpoint_advance target j = (Ok true, checkpointed j d' n p ys zs) /\ coupled g lo (n + zlen ys) zs (checkpointed j d' n p ys zs).
Proof.
  intros Hco. assert (checkpoint_advance target j = match tail_block (state j) with
    | None => (Ok false, j)
    | Some p => if target_met g target (head (state j)) p then (Ok false, j) else checkpoint_advance target j end) as E.
  { destruct (tail_block (state j)) as [p|] eqn:Et; [destruct (target_met _ _ _ p) eqn:Em; [|done]|];
      unfold checkpoint_advance; rewrite (bind_ok get _ j j j) by done; rewrite Et; [by rewrite (jc_geo _ _ _ _ _ Hco), Em|done]. }
  destruct (tail_block (state j)) as [p|] eqn:Et; [|by left]. destruct (target_met g target _ p) eqn:Hm; [by left|].
  destruct (checkpoint_run g lo n xs j p target Hco Et Hm) as (ys & zs & Ex & Hcov & Hst & Hrun). case_bool_decide as Hy; [by left|].
  right. destruct Hrun as (sbp & blk & Hin & Hrun). by exists p, ys, zs, sbp, blk.
Qed.

(** A failure during a pass that writes [ys] home. *)
Lemma checkpoint_crash g lo n p ys zs sbp blk j c :
  coupled g lo n (ys ++ zs) j -> tail_block (state j) = Some p -> sbp ∈ block_map g ->
  let evs := checkpoint_events (table_of table_new n (ys ++ zs)) n ys sbp blk in
  coupled g lo (n + zlen ys) zs (checkpointed j (write_events evs (j_device j)) n p ys zs) ->
  crash_disk (d_disk (j_device j)) evs c -> same_meaning g lo (j_device j) n ys zs c.
Proof.
  intros Hco Et Hin evs Hco' Hc. pose proof (jc_log _ _ _ _ _ Hco) as Hi. rewrite Et in Hi. pose proof (jc_log _ _ _ _ _ Hco') as Hi'.
  eapply (home_crash g lo _ p n ys zs sbp blk); [by apply log_inv_recoverable|exact Hin| | |exact Hc].
  - rewrite <- write_events_app. by apply log_inv_recoverable.
  - rewrite zlen_app. lia.
Qed.

(** ** Lemmas: the retained images *)

(** The newest transaction that logged a block, and its image, unless a later
    one revoked it. *)
Fixpoint newest (n : Z) (xs : list logged) (b : Z) (acc : option (Z * list byte)) : option (Z * list byte) :=
  match xs with
  | [] => acc
  | x :: rest => newest (n + 1) rest b (if decide (b ∈ revokes x) then None else or_else ((n,.) <$> image x b) acc)
  end.

Lemma newest_image n xs b acc :
  snd <$> newest n xs b acc = fold_left (fun a x => if decide (b ∈ revokes x) then None else or_else (image x b) a) xs (snd <$> acc).
Proof.
  revert n acc. induction xs as [|x xs IH]; intros n acc; [done|]. cbn [newest fold_left]. rewrite IH. f_equal.
  case_decide; [done|]. by destruct (image x b).
Qed.

Lemma newest_app n xs ys b acc : newest n (xs ++ ys) b acc = newest (n + zlen xs) ys b (newest n xs b acc).
Proof.
  revert n acc. induction xs as [|x xs IH]; intros n acc; cbn [app newest]; [by rewrite zlen_nil, Z.add_0_r|].
  rewrite IH, zlen_cons. by replace (n + 1 + zlen xs) with (n + (1 + zlen xs)) by lia.
Qed.

Lemma newest_bound n xs b acc m i : newest n xs b acc = Some (m, i) -> acc = Some (m, i) /\ revoked_in xs b = false \/ n <= m < n + zlen xs.
Proof.
  revert n acc. induction xs as [|x xs IH]; intros n acc; cbn [newest revoked_in existsb]; [by left|]. rewrite zlen_cons. pose proof (zlen_nonneg xs).
  intros [[E Hr]|?]%IH; [|lia]. case_bool_decide; [rewrite decide_True in E by done; done|]. rewrite decide_False in E by done.
  destruct (image x b); [|by left]. injection E as -> ->. right. lia.
Qed.

(** What has to be retained: a block that is not captured by the active
    transaction and has an image in the log, not freed since, has it (or a
    newer one, of a transaction about to commit) in memory. *)
Definition retained_ok (n : Z) (xs : list logged) (st : JournalState) : Prop :=
  forall b, (t ← active st; buffer_bytes t b) = None ->
  match uncheckpointed st !! b with
  | Some u => exists m, ui_tid u = u32 m /\ m < n + 2 ^ 31 /\ (n + zlen xs <= m \/ newest n xs b None = Some (m, ui_image u))
  | None => newest n xs b None = None \/ b ∈ unpublished_revokes st
  end.

(** The home block after a pass. *)
Lemma checkpointed_block g lo d p n ys zs sbp blk b :
  log_body g lo d (Some p) n (ys ++ zs) -> sbp ∈ block_map g -> b ∉ block_map g ->
  d_disk (write_events (checkpoint_events (table_of table_new n (ys ++ zs)) n ys sbp blk) d) !! b =
    if revoked_in zs b then d_disk d !! b else contents (d_disk d) ys b.
Proof.
  intros Hb Hs Hnb. pose proof (log_count _ _ _ _ _ _ Hb). rewrite <- (replay_prefix n ys zs) by lia.
  unfold checkpoint_events. cbn [d_disk write_events]. rewrite !apply_events_app. cbn [apply_events fold_left apply_event].
  by rewrite lookup_insert_ne by (by intros ->).
Qed.

Lemma checkpointed_view g lo n p ys zs sbp blk j b :
  coupled g lo n (ys ++ zs) j -> tail_block (state j) = Some p -> ys <> [] ->
  Forall (fun x => covered (unpublished_revokes (state j)) x = false) ys -> sbp ∈ block_map g ->
  retained_ok n (ys ++ zs) (state j) -> bid_ok b -> b ∉ block_map g ->
  let j' := checkpointed j (write_events (checkpoint_events (table_of table_new n (ys ++ zs)) n ys sbp blk) (j_device j)) n p ys zs in
  view_of (active (state j)) (uncheckpointed (state j')) (j_device j') b = view_of (active (state j)) (uncheckpointed (state j)) (j_device j) b.
Proof.
  intros Hco Et Hy Hcov Hin Hret Hb Hnb j'. pose proof (jc_log _ _ _ _ _ Hco) as (Hbody & _). rewrite Et in Hbody.
  pose proof (log_count _ _ _ _ _ _ Hbody) as Hl. rewrite zlen_app in Hl. pose proof (zlen_nonneg ys). pose proof (zlen_nonneg zs).
  pose proof (checkpointed_block g lo (j_device j) p n ys zs sbp blk b Hbody Hin Hnb) as Hd.
  set (d' := write_events _ _) in *. unfold view_of. destruct (active (state j) ≫= _) as [i|] eqn:Ea; [done|]. specialize (Hret b Ea).
  assert (forall d i, d_rd d = d_rd (j_device j) -> d_disk d !! b = Some i -> dev_read d b = Ok i) as Hread.
  { intros d i Er Ei. unfold dev_read. rewrite block_of_to_offset by done. rewrite Er, (proj1 (li_healthy _ _ _ _ _ _ Hbody)). cbn [negb]. by rewrite Ei. }
  cbn [j' checkpointed with_state with_device state j_device retire_applied set_memory set_log uncheckpointed].
  set (uc := filter _ (uncheckpointed (state j))). destruct (uncheckpointed (state j) !! b) as [u|] eqn:Eu.
  - destruct Hret as (m & Hm & Hm2 & Hn). rewrite zlen_app in Hn.
    assert (n <= m) by (destruct Hn as [?|Hn]; [lia|]; apply newest_bound in Hn as [[? _]|?]; [done|rewrite zlen_app in *; lia]).
    assert (is_checkpointed_by u (u32 (n + zlen ys - 1)) = (m <=? n + zlen ys - 1)) as Hk.
    { unfold is_checkpointed_by. rewrite Hm. apply geq_window. destruct ys; [done|]. rewrite zlen_cons in *. pose proof (zlen_nonneg ys). lia. }
    destruct (Z.leb_spec m (n + zlen ys - 1)).
    + assert (uc !! b = None) as ->.
      { apply map_lookup_filter_None. right. intros u' Hu'. rewrite Eu in Hu'. injection Hu' as <-. cbn. by rewrite Hk. }
      apply Hread; [done|]. destruct Hn as [?|Hn]; [lia|].
      rewrite newest_app in Hn. apply newest_bound in Hn as [[Hn Hr]|?]; [|lia]. rewrite Hd, Hr.
      pose proof (newest_image n ys b None) as Hi. rewrite Hn in Hi. unfold contents. change (fold_left _ ys _) with (log_image ys b) in Hi.
      by rewrite <- Hi.
    + assert (uc !! b = Some u) as ->; [|done]. by apply map_lookup_filter_Some.
  - assert (uc !! b = None) as -> by (apply map_lookup_filter_None; by left).
    unfold dev_read. rewrite block_of_to_offset by done. change (d_rd d') with (d_rd (j_device j)).
    assert (d_disk d' !! b = d_disk (j_device j) !! b) as ->; [|done]. destruct Hret as [Hn|Hu].
    + rewrite Hd. pose proof (newest_image n (ys ++ zs) b None) as Hi. rewrite Hn in Hi. cbn [fmap option_fmap option_map] in Hi.
      change (fold_left _ (ys ++ zs) _) with (log_image (ys ++ zs) b) in Hi. rewrite log_image_app in Hi. destruct (revoked_in zs b); [done|].
      unfold contents. destruct (log_image zs b); [done|]. cbn [or_else] in Hi. by rewrite <- Hi.
    + apply lookup_apply_events_other. by apply (checkpoint_events_spare (unpublished_revokes (state j)) g).
Qed.

(** ** Lemmas: the revokes a pass must respect *)

(** A transaction in one of the three seats whose commit is not finished. *)
Inductive undurable (st : JournalState) (t : Transaction) : Prop :=
  | UndurableRunning : running st = Some t -> undurable st t
  | UndurableLocking : locking st = Some t -> undurable st t
  | UndurableCommitting phase : committing st = Some {| ct_txn := t; ct_phase := phase |} -> phase <> Finished -> undurable st t.

Lemma undurable_unpublished st t b : undurable st t -> b ∈ revoked t -> b ∈ unpublished_revokes st.
Proof.
  intros Ht Hb. unfold unpublished_revokes, committing_unpublished, collect_unpublished_revokes.
  destruct Ht as [E|E|phase E Hp]; rewrite E; cbn [ct_phase ct_txn].
  - repeat case_match; set_solver.
  - repeat case_match; set_solver.
  - rewrite bool_decide_false by done. set_solver.
Qed.

(** ** Theorems *)

(** The checkpoint loop ends on every journal, however corrupt: the
    distance from the current id to the published one, as serial numbers,
    bounds its rounds, and more fuel changes nothing. *)
Theorem checkpoint_loop_terminates g rv u target committed hd log tid applied d extra :
  advance_loop (ADVANCE_FUEL committed tid + extra) g rv u target committed hd log tid applied d =
  advance_loop (ADVANCE_FUEL committed tid) g rv u target committed hd log tid applied d.
Proof. by apply advance_loop_fuel. Qed.

(** C6: A checkpoint pass over a journal in order succeeds and keeps it in
    order: it takes a prefix off the live log, stopping only at the end, in
    front of a transaction with an unpublished revoke, or with the space it
    was asked for, and what the log and the disk mean together is the same. *)
Theorem checkpoint_correct g lo n xs j target :
  coupled g lo n xs j ->
  exists r j' ys zs, checkpoint_advance target j = (Ok r, j') /\ xs = ys ++ zs /\ (r = true <-> ys <> []) /\
    coupled g lo (n + zlen ys) zs j' /\
    (forall p, tail_block (state j) = Some p -> target_met g target (head (state j)) p = true \/
       stops_at g (unpublished_revokes (state j)) target (head (state j)) (advance g p (log_len ys)) ys zs) /\
    forall b, b ∉ block_map g -> contents (d_disk (j_device j')) zs b = contents (d_disk (j_device j)) xs b.
Proof.
  intros Hco. destruct (tail_block (state j)) as [p|] eqn:Et.
  2:{ exists false, j, [], xs. rewrite zlen_nil, Z.add_0_r. split_and!; try done. unfold checkpoint_advance.
      rewrite (bind_ok get _ j j j) by done. by rewrite Et. }
  destruct (target_met g target (head (state j)) p) eqn:Hm.
  { exists false, j, [], xs. rewrite zlen_nil, Z.add_0_r. split_and!; try done; [|intros q [= <-]; by left]. unfold checkpoint_advance.
    rewrite (bind_ok get _ j j j) by done. by rewrite Et, (jc_geo _ _ _ _ _ Hco), Hm. }
  destruct (checkpoint_run g lo n xs j p target Hco Et Hm) as (ys & zs & -> & Hcov & Hst & Hrun).
  case_bool_decide as Hy.
  - subst ys. exists false, j, [], zs. cbn [app] in *. rewrite zlen_nil, Z.add_0_r. split_and!; try done. intros q [= <-]. by right.
  - destruct Hrun as (sbp & blk & Hin & Hrun & Hco'). pose proof (jc_log _ _ _ _ _ Hco) as (Hb & _). rewrite Et in Hb.
    eexists true, _, ys, zs. split_and!; [exact Hrun|done|done|exact Hco'|intros q [= <-]; by right|].
    intros b Hnb. by eapply checkpointed_contents.
Qed.

(** C7: A pass may be interrupted.  Whatever part of its writes a crash keeps,
    the disk is recoverable and recovery gives every block what the log and
    the disk meant before the pass. *)
Theorem checkpoint_crash_safe g lo n xs j target r j' c :
  coupled g lo n xs j -> d_hist (j_device j) = [] -> checkpoint_advance target j = (r, j') ->
  crash_disk (d_disk (j_device j)) (d_hist (j_device j')) c ->
  exists t m xs', recoverable g lo (reopen (j_device j) c) t m xs' /\
    forall b, b ∉ block_map g -> contents c xs' b = contents (d_disk (j_device j)) xs b.
Proof.
  intros Hco Hh E Hc. pose proof (jc_log _ _ _ _ _ Hco) as Hi.
  destruct (checkpoint_cases g lo n xs j target Hco) as [E'|(p & ys & zs & sbp & blk & Et & -> & _ & _ & Hin & E' & Hco')];
    rewrite E in E'; injection E' as -> ->.
  - rewrite Hh in Hc. apply crash_unflushed in Hc as (kept & Hk & ->); [|constructor]. apply sublist_nil_r in Hk. subst kept.
    eexists _, n, xs. split; [|done]. eapply recoverable_same; [by apply log_inv_recoverable|]. split; [done|apply Hi].
  - cbn [checkpointed with_state with_device j_device write_events d_hist] in Hc. rewrite Hh in Hc. cbn [app] in Hc.
    destruct (checkpoint_crash g lo n p ys zs sbp blk j c Hco Et Hin Hco' Hc) as (t & m & xs' & Hr & _ & Hm). by exists t, m, xs'.
Qed.

(** C8: A pass never writes a block that a transaction which is not durable
    yet has revoked, whichever seat that transaction holds (running, locking,
    or committing with its commit record not yet down): the free may still be
    lost, or the new owner may have written the block already. *)
Theorem checkpoint_spares_unpublished g lo n xs j target r j' t b :
  coupled g lo n xs j -> checkpoint_advance target j = (r, j') ->
  undurable (state j) t -> b ∈ revoked t -> b ∉ block_map g ->
  d_disk (j_device j') !! b = d_disk (j_device j) !! b.
Proof.
  intros Hco E Ht Hr Hb. pose proof (undurable_unpublished _ _ _ Ht Hr) as Hu.
  destruct (checkpoint_cases g lo n xs j target Hco) as [E'|(p & ys & zs & sbp & blk & _ & _ & _ & Hcov & Hin & E' & _)];
    rewrite E in E'; injection E' as -> ->; [done|].
  by eapply lookup_apply_events_other, checkpoint_events_spare.
Qed.

(** A checkpoint is invisible to operations: every block reads as before,
    since an image is dropped from memory only once it is on disk, and a
    block the pass writes has that image or a newer one in memory. *)
Theorem checkpoint_keeps_view g lo n xs j hs target r j' b :
  coupled g lo n xs j -> seats_ok (state j) hs -> retained_ok n xs (state j) ->
  checkpoint_advance target j = (r, j') -> bid_ok b -> b ∉ block_map g -> view j' b = view j b.
Proof.
  intros Hco Hs Hret E Hb Hnb.
  destruct (checkpoint_cases g lo n xs j target Hco) as [E'|(p & ys & zs & sbp & blk & Et & -> & Hy & Hcov & Hin & E' & _)];
    rewrite E in E'; injection E' as -> ->; [done|].
  rewrite (view_active j hs b Hs), view_exclusive by apply Hs.
  exact (checkpointed_view g lo n p ys zs sbp blk j b Hco Et Hy Hcov Hin Hret Hb Hnb).
Qed.

(** ** Witnesses *)

(** The sample log as the journal has it after the commit: the image of block
    10 retained, the revoke of block 11 recorded. *)
Module SampleCheckpoint.

Definition base : Journal := journal_new sample_geometry SampleLog.dev.
Definition st : JournalState :=
  set_memory (set_log (state base) 7 (Some 3) 5) (Revoke.record table_new 11 5)
    {[ 10 := {| ui_tid := 5; ui_image := SampleLog.img |} ]} ∅.
Definition journal : Journal := with_committed (with_state base st) 5.

(** The same with an open transaction that has freed block 12 and, in the
    second journal, block 10. *)
Definition freeing (b : Z) : Journal :=
  with_state journal (set_seats (set_memory st (st_revoked st) (delete b (uncheckpointed st)) ∅)
    (Some (forget_block (txn_new 0 6) b)) None).

End SampleCheckpoint.

Lemma sample_coupled (st : JournalState) :
  tail_block st = Some 3 -> head st = 7 -> tail_tid st = 5 -> st_revoked st = Revoke.record table_new 11 5 ->
  coupled sample_geometry 5 5 [SampleLog.txn] (with_state SampleCheckpoint.journal st).
Proof.
  intros E1 E2 E3 E4. constructor; cbn [with_state SampleCheckpoint.journal with_committed geometry j_device state committed_tid].
  - done.
  - rewrite E1. exact sample_log_inv.
  - rewrite E1, E2. vm_compute. reflexivity.
  - rewrite E3. vm_compute. reflexivity.
  - vm_compute. reflexivity.
  - rewrite E4. vm_compute. reflexivity.
Qed.

Lemma checkpoint_correct_witness : exists j',
  checkpoint_advance None SampleCheckpoint.journal = (Ok true, j') /\
  d_disk (j_device j') !! 10 = Some SampleLog.img /\ tail_block (state j') = None.
Proof.
  destruct (checkpoint_correct sample_geometry 5 5 [SampleLog.txn] SampleCheckpoint.journal None)
    as (r & j' & ys & zs & E & Ex & Hr & Hco & _ & Hc); [by apply (sample_coupled SampleCheckpoint.st)|].
  assert ((checkpoint_advance None SampleCheckpoint.journal).1 = Ok true) as E1 by (vm_compute; reflexivity).
  rewrite E in E1. cbn [fst] in E1. injection E1 as ->.
  assert (zs = []) as ->.
  { assert (ys <> []) as Hy by by apply Hr. destruct ys as [|y ys]; [done|]. injection Ex as _ Ex. by destruct ys, zs. }
  exists j'. split_and!; [exact E| |].
  - pose proof (Hc 10 ltac:(vm_decide)) as H10. cbn [contents log_image fold_left or_else] in H10. rewrite H10. vm_compute. reflexivity.
  - assert (tail_block (state (checkpoint_advance None SampleCheckpoint.journal).2) = None) as H by (vm_compute; reflexivity).
    by rewrite E in H.
Defined.

Lemma checkpoint_crash_safe_witness : exists t m xs',
  recoverable sample_geometry 5 (reopen SampleLog.dev (d_disk SampleLog.dev)) t m xs'.
Proof.
  destruct (checkpoint_advance None SampleCheckpoint.journal) as [r j'] eqn:E.
  destruct (checkpoint_crash_safe sample_geometry 5 5 [SampleLog.txn] SampleCheckpoint.journal None r j' (d_disk SampleLog.dev))
    as (t & m & xs & H & _); [by apply (sample_coupled SampleCheckpoint.st)|done|exact E| |].
  - by apply (CrashDisk _ _ [] [] (d_hist (j_device j')) []); [|left|constructor|].
  - exists t, m, xs. exact H.
Defined.

Lemma checkpoint_spares_unpublished_witness :
  d_disk (j_device (checkpoint_advance None (SampleCheckpoint.freeing 10)).2) !! 10 = Some (zeros 4096).
Proof.
  destruct (checkpoint_advance None (SampleCheckpoint.freeing 10)) as [r j'] eqn:E. cbn [snd].
  rewrite (checkpoint_spares_unpublished sample_geometry 5 5 [SampleLog.txn] (SampleCheckpoint.freeing 10) None r j'
    (forget_block (txn_new 0 6) 10) 10);
    [vm_compute; reflexivity|by apply sample_coupled|exact E|by apply UndurableRunning|vm_decide|vm_decide].
Defined.

Lemma checkpoint_keeps_view_witness : exists j',
  checkpoint_advance None SampleCheckpoint.journal = (Ok true, j') /\ view j' 10 = Ok SampleLog.img.
Proof.
  destruct (checkpoint_advance None SampleCheckpoint.journal) as [r j'] eqn:E.
  assert (r = Ok true) as ->.
  { assert ((checkpoint_advance None SampleCheckpoint.journal).1 = Ok true) as H by (vm_compute; reflexivity). by rewrite E in H. }
  exists j'. split; [done|].
  rewrite (checkpoint_keeps_view sample_geometry 5 5 [SampleLog.txn] SampleCheckpoint.journal [] None (Ok true) j' 10);
    [vm_compute; reflexivity|by apply (sample_coupled SampleCheckpoint.st)| | |exact E|done|vm_decide].
  - split; cbn; [by intros [? [=]]|done|done].
  - intros b _. cbn [state SampleCheckpoint.journal SampleCheckpoint.st with_committed with_state uncheckpointed set_memory].
    destruct (decide (b = 10)) as [-> | Hne].
    + rewrite lookup_singleton_eq. exists 5. split_and!; [done|lia|right]. vm_compute. reflexivity.
    + rewrite lookup_singleton_ne by done. left. cbn [newest]. case_decide; [done|].
      unfold image. change (images SampleLog.txn) with [(10, SampleLog.img)]. cbn [rev app list_to_map foldr fst snd].
      by rewrite lookup_insert_ne by done.
Defined.
