(* ===== verification/CrashSafety.v ===== *)
(** * Commits are atomic and durable

    The commit of [Commit] run against the invariant of [LogInv]: what it
    writes and in what order, the invariant it re-establishes, and the disks
    a crash at any point can leave.  Flushing the ordered data is a parameter
    of the commit; what is assumed of it is that it succeeds and that it does
    not write the journal's own blocks. *)

From S2P Require Import Prelude Pod JournalFormat JournalTags Device Geometry Revoke LogWalk LogModel LogInv Transaction JournalState Commit Recovery.

(** The page cache writes an inode's dirty data to the inode's own blocks. *)
Definition flushes_data (g : JournalGeometry) (flush_range : Z -> Z -> M device unit) : Prop :=
  forall ino len d, healthy d -> exists evs, flush_range ino len d = (Ok tt, write_events evs d) /\ off_journal g evs.

Lemma flush_ordered_ok g flush_range txn d :
  flushes_data g flush_range -> healthy d ->
  exists evs, flush_ordered flush_range txn d = (Ok tt, write_events evs d) /\ off_journal g evs.
Proof.
  intros Hf Hh. unfold flush_ordered.
  assert (forall l d, healthy d -> exists evs, forM l (fun '(ino, len) => flush_range ino len) d = (Ok tt, write_events evs d) /\ off_journal g evs) as Hloop.
  { clear d Hh. induction l as [|[ino len] l IH]; intros d Hh; cbn [forM].
    - exists []. split; [by rewrite write_events_nil|constructor].
    - destruct (Hf ino len d Hh) as (e1 & E1 & Ho1). rewrite (bind_ok _ _ _ _ _ E1).
      destruct (IH (write_events e1 d) Hh) as (e2 & E2 & Ho2). exists (e1 ++ e2). rewrite write_events_app.
      split; [done|by apply Forall_app]. }
  destruct (Hloop (ordered_data txn) d Hh) as (evs & E & Ho). rewrite (bind_ok _ _ _ _ _ E).
  case_bool_decide; [by exists evs|]. exists (evs ++ [EvFlush]). rewrite write_events_app. split; [by apply barrier_ok|].
  apply Forall_app. split; [done|by repeat constructor].
Qed.

(** ** Lemmas: crashes around data writes *)

Lemma crash_tail disk0 h l c :
  Forall (fun e => is_flush e = false) l -> crash_disk disk0 (h ++ l) c ->
  exists evs kept, Forall (fun e => e ∈ h) evs /\ sublist kept l /\ c = apply_events kept (apply_events evs disk0).
Proof.
  intros Hl [durable pending lost kept Eh Hd Hp Hk].
  assert (exists k, h = durable ++ k /\ pending ++ lost = k ++ l) as (k & -> & E2).
  { apply app_eq_inv in Eh as [(k & E1 & E2)|(k & E1 & E2)]; [by exists k|].
    subst durable. destruct k as [|e k] using rev_ind; [exists []; by rewrite !app_nil_r in *|].
    exfalso. destruct Hd as [Hd|[d0 Hd]]; [by destruct h, k|]. rewrite app_assoc in Hd. apply app_inj_tail in Hd as [_ ->].
    rewrite E2 in Hl. rewrite <- app_assoc in Hl. apply Forall_app in Hl as [_ Hl]. by apply Forall_cons in Hl as [Hl _]. }
  apply app_eq_inv in E2 as [(k2 & E3 & E4)|(k2 & E3 & E4)].
  - subst pending. apply sublist_app_r in Hk as (k1 & k3 & -> & Hk1 & Hk3).
    exists (durable ++ k1), k3. rewrite !apply_events_app. split_and!; [|rewrite E4; by apply sublist_inserts_r|done].
    apply Forall_forall. intros e [He|He]%elem_of_app; [set_solver|]. eapply elem_of_sublist in He; [|exact Hk1]. set_solver.
  - exists (durable ++ kept), []. subst k. split_and!; [|apply sublist_nil_l|by rewrite apply_events_app].
    apply Forall_forall. intros e [He|He]%elem_of_app; [set_solver|]. eapply elem_of_sublist in He; [|exact Hk]. set_solver.
Qed.

(** ** Lemmas: a partly written chain *)

Definition seg_head (s : segment) : list byte := match s with SegRevoke blk _ => blk | SegRun desc _ => desc end.

(** Some prefix of the chain is in place, and the block after it is stale. *)
Lemma partial_chain g d t segs pos :
  (forall a s b, segs = a ++ s :: b -> exists blk, read_log_block g d (advance g pos (segs_len a)) = Ok blk /\
     (blk = seg_head s \/ stale t blk)) ->
  (exists blk, read_log_block g d (advance g pos (segs_len segs)) = Ok blk /\ stale t blk) ->
  exists a b blk, segs = a ++ b /\ metas_hold g d pos a /\
    read_log_block g d (advance g pos (segs_len a)) = Ok blk /\ stale t blk.
Proof.
  revert pos. induction segs as [|s segs IH]; intros pos Hs He.
  { destruct He as (blk & Hr & Hst). by exists [], [], blk. }
  destruct (Hs [] s segs eq_refl) as (blk & Hr & [->|Hst]); [|by exists [], (s :: segs), blk].
  destruct (IH (advance g pos (seg_len s))) as (a & b & blk & -> & Hm & Hr' & Hst).
  - intros a s' b ->. pose proof (seg_len_pos s). pose proof (segs_len_ge a). pose proof (zlen_nonneg a).
    rewrite advance_add by lia. apply (Hs (s :: a) s' b eq_refl).
  - destruct He as (blk & Hr' & Hst). exists blk. pose proof (seg_len_pos s). pose proof (segs_len_ge segs). pose proof (zlen_nonneg segs).
    rewrite advance_add by lia. done.
  - exists (s :: a), b, blk. pose proof (seg_len_pos s). pose proof (segs_len_ge a). pose proof (zlen_nonneg a).
    rewrite advance_add in Hr' by lia. split_and!; [done| |exact Hr'|done]. split; [|done].
    cbn in Hr. rewrite advance_0 in Hr. by destruct s.
Qed.

(** Where the head of a segment is among the chain's blocks. *)
Lemma chain_blocks_head a s b : chain_blocks (a ++ s :: b) !! Z.to_nat (segs_len a) = Some (seg_head s).
Proof.
  unfold chain_blocks. rewrite flat_map_app. cbn [flat_map]. fold (chain_blocks a) (chain_blocks b).
  pose proof (zlen_chain_blocks a) as Hz. unfold zlen in Hz.
  rewrite lookup_app_r by lia. replace (Z.to_nat (segs_len a) - length (chain_blocks a))%nat with 0%nat by lia. by destruct s.
Qed.

(** ** Adding one chain to the log *)

Section Append.
Context (g : JournalGeometry) (lo : Z) (d : device) (tail : option Z) (n : Z) (xs : list logged) (x : logged) (head : Z).
Context (Hinv : log_inv g lo d tail n xs).
Context (Hhead : match tail with Some p => head = advance g p (log_len xs) | None => in_ring g head end).
Context (Hval : logged_valid g (n + zlen xs) x).
Context (Hblk : Forall (fun b => is_block b /\ own_block (u32 (n + zlen xs)) b) (lg_blocks x)).
Context (Hsome : lg_segs x <> []).
Context (Hhome : Forall (home_ok g d) (chain_items (lg_segs x))).
Context (Hfit : log_len xs + lg_len x <= ring g).
Context (Hwin : n + zlen xs + 2 < lo + 2 ^ 32).

Notation t := (u32 (n + zlen xs)).
Notation blks := (lg_blocks x).
Notation P := (own_block t).

Lemma app_body : log_body g lo d tail n xs.
Proof. apply Hinv. Qed.

Lemma app_geo : geometry_ok g.
Proof. apply app_body. Qed.

Lemma app_map : map_ok g.
Proof. apply app_body. Qed.

Lemma app_fits : 0 <= lg_len x /\ log_len xs + lg_len x <= ring g.
Proof. pose proof (lg_len_pos x). lia. Qed.

Lemma app_head : in_ring g head.
Proof.
  pose proof (li_tail _ _ _ _ _ _ app_body) as Ht. pose proof app_geo. destruct tail as [p|]; [|done]. rewrite Hhead.
  apply advance_in_ring; [done|done|]. pose proof (log_len_ge xs). pose proof (zlen_nonneg xs). lia.
Qed.

Lemma app_short : zlen blks <= ring g.
Proof. rewrite zlen_lg_blocks. pose proof (log_len_ge xs). pose proof (zlen_nonneg xs). lia. Qed.

(** Any subset of the writes is a patch beyond the live log. *)
Lemma app_patch kept d' :
  sublist kept (log_writes g head blks) -> d_disk d' = apply_events kept (d_disk d) -> healthy d' ->
  ring_patch g head (lg_len x) P d d'.
Proof.
  intros Hk Ed Hh. destruct (kept_log_writes g app_geo app_map head blks kept (d_disk d) app_head app_short Hk) as [Hat Hother].
  rewrite <- zlen_lg_blocks. constructor; [done| |].
  - intros y Hy. rewrite Ed. apply Hother. intros i Hi. apply Hy. unfold zlen. lia.
  - intros i y Hi Hy. destruct (lookup_lt_is_Some_2 blks (Z.to_nat i)) as [b Hb]; [unfold zlen in Hi; lia|].
    replace i with (Z.of_nat (Z.to_nat i)) in Hy by lia. destruct (Hat _ _ _ Hb Hy) as [H1 H2]. rewrite Ed.
    destruct (proj1 (Forall_lookup _ _) Hblk _ _ Hb) as [Hbb Hob].
    assert (Hin : y ∈ block_map g) by (by apply list_elem_of_lookup_2 in Hy).
    destruct (proj1 (Forall_forall _ _) (li_present _ _ _ _ _ _ app_body) _ Hin) as (old & Hold & Hbo).
    destruct (decide (EvWrite y b ∈ kept)) as [Hin'|Hni].
    + exists b. split_and!; [by apply H1|done|by right].
    + exists old. rewrite H2 by done. split_and!; [done|done|by left].
Qed.

Lemma own_older blk : P blk -> older lo (n + zlen xs + 1) blk.
Proof.
  intros Ho Hm. exists (n + zlen xs). pose proof (li_window _ _ _ _ _ _ app_body). pose proof (zlen_nonneg xs).
  split; [lia|by apply Ho].
Qed.

Lemma app_body_kept kept d' :
  sublist kept (log_writes g head blks) -> d_disk d' = apply_events kept (d_disk d) -> healthy d' ->
  log_body g lo d' tail n xs /\ super_says g d' tail n.
Proof.
  intros Hk Ed Hh. pose proof (app_patch kept d' Hk Ed Hh) as Hp. split.
  - apply (log_body_patch g lo d d' tail n xs head (lg_len x) P app_body Hp Hhead app_fits), own_older.
  - eapply super_says_patch; [apply app_body|exact Hp|exact Hhead|apply Hinv].
Qed.

(** What a position of the chain holds after a subset of its writes. *)
Lemma app_read kept d' i b :
  sublist kept (log_writes g head blks) -> d_disk d' = apply_events kept (d_disk d) -> healthy d' ->
  blks !! i = Some b ->
  exists y, log_block_to_physical g (advance g head (Z.of_nat i)) = Some y /\
    read_log_block g d' (advance g head (Z.of_nat i)) =
      if bool_decide (EvWrite y b ∈ kept) then Ok b else read_log_block g d (advance g head (Z.of_nat i)).
Proof.
  intros Hk Ed Hh Hb. destruct (kept_log_writes g app_geo app_map head blks kept (d_disk d) app_head app_short Hk) as [Hat _].
  assert (Hr : in_ring g (advance g head (Z.of_nat i))) by (apply advance_in_ring; [apply app_geo|apply app_head|lia]).
  destruct (phys_ring g app_geo app_map _ Hr) as (y & Hy & _ & Hby). exists y. split; [done|].
  rewrite !(read_log_disk g _ _ y) by (done || apply Hh || apply app_body). destruct (Hat _ _ _ Hb Hy) as [H1 H2]. rewrite Ed.
  case_bool_decide; [by rewrite H1|by rewrite H2].
Qed.
(** The whole chain is in place. *)
Lemma app_holds d' :
  d_disk d' = apply_events (log_writes g head blks) (d_disk d) -> healthy d' -> log_holds g d' head blks.
Proof.
  intros Ed Hh. apply log_holds_lookup. intros i b Hb.
  destruct (app_read (log_writes g head blks) d' i b) as (y & Hy & ->); [done..|].
  rewrite bool_decide_true; [done|]. apply elem_of_log_writes; [apply app_geo|apply app_map|apply app_head|]. by exists i, b, y.
Qed.

Definition new_tail : Z := match tail with Some p => p | None => head end.

Lemma new_tail_spec : in_ring g new_tail /\ head = advance g new_tail (log_len xs).
Proof.
  pose proof (li_tail _ _ _ _ _ _ app_body) as Ht. clear - Hhead Ht. unfold new_tail. destruct tail as [p|]; [done|]. by subst xs.
Qed.

Lemma app_log_body d' :
  d_disk d' = apply_events (log_writes g head blks) (d_disk d) -> healthy d' ->
  log_body g lo d' (Some new_tail) n (xs ++ [x]).
Proof.
  intros Ed Hh. destruct (app_body_kept (log_writes g head blks) d') as [Hb _]; [done..|].
  pose proof (app_patch (log_writes g head blks) d' ltac:(done) Ed Hh) as Hp. destruct new_tail_spec as [Hin Eh].
  pose proof (li_window _ _ _ _ _ _ app_body). pose proof (zlen_nonneg xs).
  constructor; try apply Hb; rewrite ?zlen_app, ?zlen_cons, ?zlen_nil.
  - done.
  - rewrite log_len_app. cbn [log_len foldr]. lia.
  - apply log_contains_app. split.
    + pose proof (li_log _ _ _ _ _ _ Hb) as Hl. pose proof (li_tail _ _ _ _ _ _ app_body) as Ht.
      unfold new_tail. destruct tail; [done|]. by subst xs.
    + rewrite <- Eh. split_and!; [done|by apply app_holds|done].
  - apply Forall_app. split; [apply Hb|by constructor].
  - apply Forall_app. split; [apply Hb|]. constructor; [|constructor]. eapply Forall_impl; [exact Hhome|].
    intros it. apply home_ok_frame. intros b Hs. rewrite Ed. by apply apply_events_is_Some.
  - intros p blk Hp1 Hr. eapply older_mono; [|by eapply (li_old _ _ _ _ _ _ Hb)]. lia.
  - lia.
Qed.

(** Nothing in the ring looks like the transaction after the new one. *)
Lemma app_fresh d' :
  d_disk d' = apply_events (log_writes g head blks) (d_disk d) -> healthy d' ->
  log_fresh g lo d' (Some new_tail) n (xs ++ [x]).
Proof.
  intros Ed Hh p blk Hp Hr. destruct (app_body_kept (log_writes g head blks) d') as [Hb _]; [done..|].
  rewrite zlen_app, zlen_cons, zlen_nil. eapply older_mono; [|by eapply (li_old _ _ _ _ _ _ Hb)]. lia.
Qed.

(** The commit block's position is not one of the chain's. *)
Lemma commit_not_in_chain y b :
  log_block_to_physical g (advance g head (segs_len (lg_segs x))) = Some y ->
  EvWrite y b ∉ log_writes g head (chain_blocks (lg_segs x)).
Proof.
  intros Hy (i & b' & y' & Hi & Hy' & [= -> ->])%elem_of_log_writes; [|apply app_geo|apply app_map|apply app_head].
  apply lookup_lt_Some in Hi. pose proof (zlen_chain_blocks (lg_segs x)) as Hz. unfold zlen in Hz.
  pose proof app_short as Hs. rewrite zlen_lg_blocks in Hs. unfold lg_len in Hs. pose proof (geo_first g app_geo).
  assert (advance g head (segs_len (lg_segs x)) = advance g head (Z.of_nat i)) as E.
  { eapply phys_inj; [apply app_map|exact Hy|exact Hy'|..].
    - pose proof (advance_in_ring g app_geo head (segs_len (lg_segs x)) app_head ltac:(lia)) as Hr. unfold in_ring in Hr. lia.
    - pose proof (advance_in_ring g app_geo head (Z.of_nat i) app_head ltac:(lia)) as Hr. unfold in_ring in Hr. lia. }
  apply (advance_inj g app_geo) in E; [lia|apply app_head|lia|lia].
Qed.

(** Before the commit block is written, each position of the chain holds the
    chain's block or a stale one. *)
Lemma app_head_or_stale kept d' i b :
  log_fresh g lo d tail n xs -> is_Some tail ->
  sublist kept (log_writes g head blks) -> d_disk d' = apply_events kept (d_disk d) -> healthy d' ->
  0 <= i -> blks !! Z.to_nat i = Some b ->
  exists blk y, read_log_block g d' (advance g head i) = Ok blk /\ log_block_to_physical g (advance g head i) = Some y /\
    ((blk = b /\ EvWrite y b ∈ kept) \/ stale t blk).
Proof.
  intros Hf [p Et] Hk Ed Hh Hi Hb. destruct (app_read kept d' _ _ Hk Ed Hh Hb) as (y & Hy & Hr).
  rewrite Z2Nat.id in * by lia. assert (Hq : in_ring g (advance g head i)) by (apply advance_in_ring; [apply app_geo|apply app_head|done]).
  case_bool_decide as Hin; [exists b, y; split_and!; [done|done|by left]|].
  destruct (ring_present _ _ _ _ _ _ app_body _ Hq) as (_ & old & _ & _ & _ & _ & _ & Ho).
  exists old, y. split_and!; [by rewrite Hr|done|right].
  unfold log_fresh in Hf. rewrite Et in Hf. eapply older_stale; [|by eapply Hf]. pose proof (li_window _ _ _ _ _ _ app_body). lia.
Qed.

Lemma app_scan_none kept d' :
  is_Some tail -> sublist kept (log_writes g head (chain_blocks (lg_segs x))) ->
  d_disk d' = apply_events kept (d_disk d) -> healthy d' -> scan_transaction g d' head t = Ok None.
Proof.
  intros Ht Hk Ed Hh. destruct Hinv as (_ & _ & Hf).
  assert (Hk' : sublist kept (log_writes g head blks)).
  { unfold lg_blocks. rewrite log_writes_app. by apply sublist_inserts_r. }
  pose proof (segs_len_ge (lg_segs x)). pose proof (zlen_nonneg (lg_segs x)).
  destruct (partial_chain g d' t (lg_segs x) head) as (a & b & blk & Eab & Hm & Hr & Hst).
  - intros a s b Eab. pose proof (segs_len_ge a). pose proof (zlen_nonneg a).
    assert (Hb' : blks !! Z.to_nat (segs_len a) = Some (seg_head s)).
    { unfold lg_blocks. rewrite Eab. by apply lookup_app_l_Some, chain_blocks_head. }
    destruct (app_head_or_stale kept d' (segs_len a) _ Hf Ht Hk' Ed Hh ltac:(lia) Hb') as (blk & y & Hr & _ & Ho). exists blk.
    split; [done|]. destruct Ho as [[-> _]|]; [by left|by right].
  - assert (Hb' : blks !! Z.to_nat (segs_len (lg_segs x)) = Some (lg_commit x)).
    { unfold lg_blocks. pose proof (zlen_chain_blocks (lg_segs x)) as Hz. unfold zlen in Hz. rewrite lookup_app_r by lia.
      by replace (Z.to_nat (segs_len (lg_segs x)) - length (chain_blocks (lg_segs x)))%nat with 0%nat by lia. }
    destruct (app_head_or_stale kept d' (segs_len (lg_segs x)) _ Hf Ht Hk' Ed Hh ltac:(lia) Hb') as (blk & y & Hr & Hy & [[_ Hin]|Ho]); [|by exists blk].
    eapply elem_of_sublist in Hin; [|exact Hk]. by eapply commit_not_in_chain in Hin.
  - destruct Hval as [Hv _]. rewrite Eab in Hv. apply Forall_app in Hv as [Hv _].
    apply (scan_transaction_none g t d' a blk head Hv); [|done..].
    pose proof (geo_first g app_geo). assert (segs_len a <= segs_len (lg_segs x)).
    { rewrite Eab, segs_len_app. pose proof (segs_len_ge b). pose proof (zlen_nonneg b). lia. }
    pose proof (log_len_ge xs). pose proof (zlen_nonneg xs). unfold ring, lg_len in *. lia.
Qed.

(** A crash before the commit block: the log is what it was. *)
Lemma app_uncommitted kept d' :
  sublist kept (log_writes g head (chain_blocks (lg_segs x))) -> d_disk d' = apply_events kept (d_disk d) -> healthy d' ->
  recoverable g lo d' tail n xs.
Proof.
  intros Hk Ed Hh. destruct (app_body_kept kept d') as [Hb Hs]; [|done..|].
  { unfold lg_blocks. rewrite log_writes_app. by apply sublist_inserts_r. }
  split_and!; [done..|].
  assert (is_Some tail -> scan_transaction g d' head t = Ok None) as Hscan by (intros; by eapply app_scan_none).
  clear - Hhead Hscan. destruct tail as [p|]; [|done]. unfold log_ends. rewrite <- Hhead. apply Hscan. by eexists.
Qed.

(** On a clean journal even a complete chain is not part of the log before
    the superblock says so. *)
Lemma app_unpublished kept d' :
  tail = None -> sublist kept (log_writes g head blks) -> d_disk d' = apply_events kept (d_disk d) -> healthy d' ->
  recoverable g lo d' tail n xs.
Proof.
  intros Et Hk Ed Hh. destruct (app_body_kept kept d' Hk Ed Hh) as [Hb Hs]. split_and!; [done..|].
  clear - Et. by subst tail.
Qed.

End Append.

(** ** Running the commit *)

(** The journal with its committing slot at a phase, on a device. *)
Definition at_phase (j : Journal) (txn : Transaction) (ph : CommitPhase) (d : device) : Journal :=
  with_device (with_state j (set_committing (state j) (Some {| ct_txn := txn; ct_phase := ph |}))) d.

Lemma at_phase_id j txn ph :
  committing (state j) = Some {| ct_txn := txn; ct_phase := ph |} -> j = at_phase j txn ph (j_device j).
Proof.
  unfold at_phase, with_device, with_state, set_committing. destruct j as [g d st]. destruct st. cbn. by intros ->.
Qed.

Lemma enter_phase_at j txn ph ph' d :
  next_in_pipeline ph = Some ph' -> enter_phase (tid txn) ph' (at_phase j txn ph d) = (Ok tt, at_phase j txn ph' d).
Proof.
  intros Hn. unfold enter_phase, advance_committing_phase, advance_to, at_phase.
  cbn [state with_device with_state committing set_committing ct_txn ct_phase].
  rewrite Z.eqb_refl, Hn, bool_decide_true by done. done.
Qed.

Lemma on_device_at {A} (m : M device A) j txn ph d a d' :
  m d = (Ok a, d') -> on_device m (at_phase j txn ph d) = (Ok a, at_phase j txn ph d').
Proof. intros H. unfold on_device, at_phase. cbn [j_device with_device]. by rewrite H. Qed.

(** The writes of a commit, in order; [pub] publishes the log of a journal
    that was clean. *)
Definition commit_events (g : JournalGeometry) (head : Z) (x : logged) (devs pub : list event) : list event :=
  (devs ++ log_writes g head (chain_blocks (lg_segs x))) ++
  EvFlush :: log_writes g (advance g head (segs_len (lg_segs x))) [lg_commit x] ++ EvFlush :: pub.

Lemma commit_events_pub g head x devs pub : commit_events g head x devs pub = commit_events g head x devs [] ++ pub.
Proof.
  unfold commit_events. generalize (devs ++ log_writes g head (chain_blocks (lg_segs x))). intros A.
  rewrite <- app_assoc. cbn [app]. by rewrite <- app_assoc.
Qed.

(** The runs follow the revoke blocks in the log. *)
Lemma write_runs_after g d head rbs chain x :
  geometry_ok g -> map_ok g -> healthy d -> Forall (fun p => is_Some (d_disk d !! p)) (block_map g) -> in_ring g head ->
  chain_blocks (lg_segs x) = rbs ++ flat_map run_blocks chain ->
  write_runs g (advance g head (zlen rbs)) chain (write_events (log_writes g head rbs) d) =
    (Ok (advance g head (segs_len (lg_segs x))), write_events (log_writes g head (chain_blocks (lg_segs x))) d).
Proof.
  intros Hg Hm Hh Hp Hhead Ecb. pose proof (zlen_nonneg rbs) as Hz.
  rewrite write_runs_blocks, write_log_blocks_ok; try done.
  - rewrite advance_add by (apply zlen_nonneg || lia). rewrite <- zlen_chain_blocks, Ecb, zlen_app.
    by rewrite log_writes_app, write_events_app.
  - eapply Forall_impl; [exact Hp|]. intros p Hs. by apply apply_events_is_Some.
  - by apply advance_in_ring.
Qed.

Lemma commit_io_ok flush_range now txn rbs chain x devs pub j head clean g :
  geometry j = g -> committing (state j) = Some {| ct_txn := txn; ct_phase := Locked |} ->
  geometry_ok g -> map_ok g -> healthy (j_device j) ->
  Forall (fun p => is_Some (d_disk (j_device j) !! p)) (block_map g) -> in_ring g head ->
  flush_ordered flush_range txn (j_device j) = (Ok tt, write_events devs (j_device j)) ->
  chain_blocks (lg_segs x) = rbs ++ flat_map run_blocks chain ->
  lg_commit x = build_commit_block (tid txn) (csum_seed g) now ->
  (let d5 : device := write_events (commit_events g head x devs []) (j_device j) in
   if (clean : bool) then update_superblock_tail g head (tid txn) d5 = (Ok tt, write_events pub d5) else pub = []) ->
  commit_io flush_range now txn rbs chain head clean j =
    (Ok tt, at_phase j txn CommitRecord (write_events (commit_events g head x devs pub) (j_device j))).
Proof.
  intros Eg Hslot Hg Hm Hh Hpres Hhead Hfl Ecb Ecm Hpub. unfold commit_io. rewrite (bind_ok get _ j j j) by done. rewrite Eg.
  rewrite (at_phase_id j txn Locked Hslot) at 1. set (d := j_device j) in *.
  rewrite (bind_ok _ _ _ _ _ (enter_phase_at j txn Locked Flush d eq_refl)).
  rewrite (bind_ok _ _ _ _ _ (on_device_at _ j txn Flush d _ _ Hfl)).
  rewrite (bind_ok _ _ _ _ _ (enter_phase_at j txn Flush Commit _ eq_refl)).
  set (d1 := write_events devs d).
  assert (Hp1 : forall evs, Forall (fun p => is_Some (d_disk (write_events evs d) !! p)) (block_map g)).
  { intros evs. eapply Forall_impl; [exact Hpres|]. intros p Hs. by apply apply_events_is_Some. }
  assert (Hw : write_log_blocks g head rbs d1 = (Ok (advance g head (zlen rbs)), write_events (log_writes g head rbs) d1))
    by (apply write_log_blocks_ok; try done; apply Hp1).
  rewrite (bind_ok _ _ _ _ _ (on_device_at _ j txn Commit d1 _ _ Hw)).
  pose proof (segs_len_ge (lg_segs x)). pose proof (zlen_nonneg (lg_segs x)).
  set (d2 := write_events (log_writes g head (chain_blocks (lg_segs x))) d1).
  assert (Hw2 := write_runs_after g d1 head rbs chain x Hg Hm Hh (Hp1 devs) Hhead Ecb). fold d2 in Hw2.
  rewrite (bind_ok _ _ _ _ _ (on_device_at _ j txn Commit _ _ _ Hw2)).
  rewrite (bind_ok _ _ _ _ _ (on_device_at _ j txn Commit d2 _ _ (barrier_ok d2 Hh))).
  rewrite (bind_ok _ _ _ _ _ (enter_phase_at j txn Commit CommitRecord _ eq_refl)).
  assert (Hw3 : write_log_block g (advance g head (segs_len (lg_segs x))) (lg_commit x) (write_events [EvFlush] d2) =
    (Ok tt, write_events (log_writes g (advance g head (segs_len (lg_segs x))) [lg_commit x]) (write_events [EvFlush] d2))).
  { apply write_log_block_ok; [done..| |apply advance_in_ring; [done|done|lia]].
    unfold d2, d1. rewrite <- !write_events_app. apply Hp1. }
  rewrite <- Ecm. rewrite (bind_ok _ _ _ _ _ (on_device_at _ j txn CommitRecord _ _ _ Hw3)).
  set (d4 := write_events (log_writes g (advance g head (segs_len (lg_segs x))) [lg_commit x]) (write_events [EvFlush] d2)).
  rewrite (bind_ok _ _ _ _ _ (on_device_at _ j txn CommitRecord d4 _ _ (barrier_ok d4 Hh))).
  assert (Ed5 : write_events [EvFlush] d4 = write_events (commit_events g head x devs []) d).
  { unfold d4, d2, d1. rewrite <- !write_events_app. f_equal. unfold commit_events. by rewrite <- !app_assoc. }
  rewrite Ed5, (commit_events_pub g head x devs pub), write_events_app. cbv zeta in Hpub. destruct clean.
  - by rewrite (on_device_at _ j txn CommitRecord _ _ _ Hpub).
  - by rewrite Hpub, write_events_nil.
Qed.

(** ** The whole commit *)

(** A journal about to commit [txn] over the live log [xs]. *)
Record commit_ready (g : JournalGeometry) (lo : Z) (tail : option Z) (n : Z) (xs : list logged) (j : Journal) (txn : Transaction) : Prop := {
  cr_geo : geometry j = g;
  cr_inv : log_inv g lo (j_device j) tail n xs;
  cr_tail : tail_block (state j) = tail;
  cr_head : match tail with
            | Some p => JournalState.head (state j) = advance g p (log_len xs)
            | None => in_ring g (JournalState.head (state j))
            end;
  cr_slot : committing (state j) = Some {| ct_txn := txn; ct_phase := Locked |};
  cr_tid : tid txn = u32 (n + zlen xs);
  cr_txn : commitable g txn;
  cr_home : Forall (fun e => bid_ok e.1 /\ is_Some (d_disk (j_device j) !! e.1) /\ e.1 ∉ block_map g) (metadata_blocks txn);
  cr_window : n + zlen xs + 2 < lo + 2 ^ 32;
}.

(** The free space the code computes is really free. *)
Lemma free_after g p len :
  geometry_ok g -> in_ring g p -> 0 <= len <= ring g -> free_log_blocks g (advance g p len) (Some p) <= ring g - len.
Proof.
  intros Hg Hp Hl. rewrite advance_mod by (done || lia). unfold free_log_blocks, in_ring, ring in *.
  set (r := maxlen g - first g) in *. set (o := p - first g) in *.
  replace (first g + (o + len) mod r - first g) with ((o + len) mod r) by lia.
  assert (0 <= o < r) by (unfold o, r; lia). destruct (decide (o + len < r)).
  - rewrite Z.mod_small by lia. destruct (Z.leb_spec (o + len) o); lia.
  - assert ((o + len) mod r = o + len - r) as -> by (symmetry; apply (Z.mod_unique _ _ 1); lia).
    destruct (Z.leb_spec (o + len - r) o); lia.
Qed.

Lemma commit_disk g head x devs disk :
  apply_events (commit_events g head x devs []) disk =
    apply_events (log_writes g head (lg_blocks x)) (apply_events devs disk).
Proof.
  unfold commit_events, lg_blocks. rewrite log_writes_app, zlen_chain_blocks, !apply_events_app.
  cbn [apply_events fold_left apply_event]. rewrite fold_left_app. done.
Qed.

(** A logged image goes to the block it was captured from. *)
Lemma logged_home g d txn x :
  logged_as g txn x -> Forall (fun e => bid_ok e.1 /\ is_Some (d_disk d !! e.1) /\ e.1 ∉ block_map g) (metadata_blocks txn) ->
  Forall (home_ok g d) (chain_items (lg_segs x)).
Proof.
  intros Hx Hh. rewrite <- (la_images _ _ _ Hx) in Hh. unfold images in Hh. rewrite Forall_fmap in Hh.
  eapply Forall_impl; [exact Hh|]. intros it H. exact H.
Qed.

Lemma publish_commit_ok j txn d head fp clean :
  exists j', publish_commit txn head fp clean (at_phase j txn CommitRecord d) = Ok j' /\
    j_device j' = d /\ geometry j' = geometry j /\ committed_tid j' = tid txn /\
    JournalState.head (state j') = advance (geometry j) head fp /\
    tail_block (state j') = (if clean then Some head else tail_block (state j)) /\
    tail_tid (state j') = (if clean then tid txn else tail_tid (state j)) /\
    st_revoked (state j') = stash_revokes txn (st_revoked (state j)) /\
    committing (state j') = Some {| ct_txn := txn; ct_phase := Finished |} /\
    uncheckpointed (state j') = uncheckpointed (state j) /\ aborted j' = aborted j.
Proof.
  unfold publish_commit, advance_committing_phase, advance_to, at_phase.
  cbn [state with_device with_state committing set_committing ct_txn ct_phase]. rewrite Z.eqb_refl, bool_decide_true by done.
  cbn [rbind]. eexists. split; [done|]. by destruct clean.
Qed.

Section Commit.
Context (flush_range : Z -> Z -> M device unit) (now : Z * Z) (Hnow1 : fits 64 now.1) (Hnow2 : fits 32 now.2).
Context (g : JournalGeometry) (lo : Z) (tail : option Z) (n : Z) (xs : list logged) (j : Journal) (txn : Transaction).
Context (Hready : commit_ready g lo tail n xs j txn) (Hflush : flushes_data g flush_range).
Context (Hroom : log_footprint g (nr_metadata_blocks txn) (nr_revoke_blocks txn (tag_layout g)) <=
                 free_log_blocks g (JournalState.head (state j)) tail).

Notation d := (j_device j).
Notation hd := (JournalState.head (state j)).

Lemma ready_fits x : logged_as g txn x -> log_len xs + lg_len x <= ring g.
Proof.
  intros Hx. rewrite (la_len _ _ _ Hx). pose proof (cr_inv _ _ _ _ _ _ _ Hready) as (Hb & _).
  pose proof (cr_head _ _ _ _ _ _ _ Hready) as Hh. pose proof (li_tail _ _ _ _ _ _ Hb) as Ht. pose proof (li_len _ _ _ _ _ _ Hb).
  pose proof (log_len_ge xs). pose proof (zlen_nonneg xs). destruct tail as [p|].
  - rewrite Hh in Hroom. pose proof (free_after g p (log_len xs) (li_geo _ _ _ _ _ _ Hb) Ht ltac:(lia)). lia.
  - subst xs. cbn in *. unfold ring. lia.
Qed.

(** What is needed to append the chain after the data writes. *)
Lemma ready_append x devs :
  logged_as g txn x -> off_journal g devs ->
  log_inv g lo (write_events devs d) tail n xs /\ logged_valid g (n + zlen xs) x /\
  Forall (fun b => is_block b /\ own_block (u32 (n + zlen xs)) b) (lg_blocks x) /\
  Forall (home_ok g (write_events devs d)) (chain_items (lg_segs x)).
Proof.
  intros Hx Ho. pose proof (cr_tid _ _ _ _ _ _ _ Hready) as Et. pose proof Hx as [Hv Hbl _ _ _ _]. rewrite Et in Hv, Hbl.
  split_and!; [apply log_inv_frame; [apply Hready|done]|exact Hv|done|].
  eapply Forall_impl; [apply (logged_home g d txn x Hx), Hready|]. intros it. apply home_ok_events.
Qed.

Lemma commit_publishes x devs :
  logged_as g txn x -> off_journal g devs ->
  let d5 := write_events (commit_events g hd x devs []) d in
  exists pub, (if bool_decide (tail = None) then update_superblock_tail g hd (tid txn) d5 = (Ok tt, write_events pub d5) else pub = []) /\
    log_inv g lo (write_events pub d5) (Some (new_tail tail hd)) n (xs ++ [x]) /\
    match tail with Some _ => pub = [] | None => exists p blk, p ∈ block_map g /\ pub = [EvWrite p blk; EvFlush] end.
Proof.
  intros Hx Ho d5. destruct (ready_append x devs Hx Ho) as (Hinv & Hval & Hbl & Hho).
  pose proof (ready_fits x Hx) as Hfit. pose proof (cr_head _ _ _ _ _ _ _ Hready) as Hhead. pose proof (cr_window _ _ _ _ _ _ _ Hready) as Hwin.
  assert (Ed : d_disk d5 = apply_events (log_writes g hd (lg_blocks x)) (d_disk (write_events devs d)))
    by (unfold d5; cbn [d_disk write_events]; apply commit_disk).
  assert (Hh : healthy d5) by apply Hinv.
  pose proof (app_log_body g lo _ tail n xs x hd Hinv Hhead Hval Hbl (la_some _ _ _ Hx) Hho Hfit Hwin d5 Ed Hh) as Hbody.
  pose proof (app_fresh g lo _ tail n xs x hd Hinv Hhead Hbl Hfit d5 Ed Hh) as Hfresh.
  destruct (app_body_kept g lo _ tail n xs x hd Hinv Hhead Hbl Hfit (log_writes g hd (lg_blocks x)) d5 ltac:(done) Ed Hh) as [Hb5 Hs5].
  destruct tail as [p|].
  - exists []. rewrite write_events_nil. split_and!; [done|split_and!; done|done].
  - destruct Hs5 as (raw & Hraw & _ & _ & Hsp). pose proof (li_tail _ _ _ _ _ _ Hb5) as Hx0. cbn in Hx0. subst xs.
    destruct (super_switch g lo d5 None n [] raw None (Some hd) n [x] Hb5 Hraw Hsp Hbody I) as (p & blk & Hp0 & Hpin & _ & Hwr & Hb6 & Hs6).
    exists [EvWrite p blk; EvFlush]. split; [|split; [|by exists p, blk]].
    + rewrite bool_decide_true by done. unfold update_superblock_tail. rewrite (bind_ok get _ d5 d5 d5) by done.
      rewrite (bind_ok _ _ d5 raw d5) by (unfold lift; by rewrite Hraw).
      rewrite (cr_tid _ _ _ _ _ _ _ Hready). change (n + zlen (A:=logged) []) with (n + 0). rewrite Z.add_0_r. exact Hwr.
    + split_and!; [done|done|]. intros q b Hq. rewrite super_write_ring by (done || apply Hb5). by apply Hfresh.
Qed.

Lemma commit_run :
  exists x devs pub j', logged_as g txn x /\ off_journal g devs /\ flush_ordered flush_range txn d = (Ok tt, write_events devs d) /\
    try_commit_transaction flush_range now txn j = (Ok (Committed (tid txn)), j') /\
    j_device j' = write_events (commit_events g hd x devs pub) d /\
    match tail with Some _ => pub = [] | None => exists p blk, p ∈ block_map g /\ pub = [EvWrite p blk; EvFlush] end /\
    log_inv g lo (j_device j') (Some (new_tail tail hd)) n (xs ++ [x]) /\
    JournalState.head (state j') = advance g (new_tail tail hd) (log_len (xs ++ [x])) /\
    tail_block (state j') = Some (new_tail tail hd) /\ committed_tid j' = tid txn /\
    st_revoked (state j') = record_all (st_revoked (state j)) (revokes x) (tid txn) /\
    tail_tid (state j') = (if bool_decide (tail = None) then tid txn else tail_tid (state j)) /\ geometry j' = g.
Proof.
  pose proof Hready as [Eg Hi Et Hhd Hslot Etid Htxn Hhome Hw]. pose proof Hi as (Hb & _).
  pose proof (li_geo _ _ _ _ _ _ Hb) as Hg.
  destruct (build_transaction_ok g txn now Hg Htxn Hnow1 Hnow2) as (rbs & chain & x & Hrb & Hch & Hx & Ecb & Ecm & Elen).
  destruct (flush_ordered_ok g flush_range txn d Hflush (li_healthy _ _ _ _ _ _ Hb)) as (devs & Hfl & Ho).
  destruct (commit_publishes x devs Hx Ho) as (pub & Hpub & Hinv' & Hshape).
  assert (Hin : in_ring g hd) by exact (app_head g lo d tail n xs hd Hi Hhd).
  assert (Hpres : Forall (fun p => is_Some (d_disk d !! p)) (block_map g)).
  { eapply Forall_impl; [apply (li_present _ _ _ _ _ _ Hb)|]. intros p (blk & -> & _). by eexists. }
  pose proof (commit_io_ok flush_range now txn rbs chain x devs pub j hd (bool_decide (tail = None)) g Eg Hslot Hg
    (li_map _ _ _ _ _ _ Hb) (li_healthy _ _ _ _ _ _ Hb) Hpres Hin Hfl Ecb Ecm Hpub) as Hio.
  set (dF := write_events (commit_events g hd x devs pub) d) in *.
  destruct (publish_commit_ok j txn dF hd (lg_len x) (bool_decide (tail = None))) as (j' & Hpj & Ed & Egj & Hct & Hhj & Htb & Htt & Hrv & _).
  exists x, devs, pub, j'. rewrite Ed, Egj, Hhj, Htb, Htt, Hrv, Hct, Eg, Et. split_and!; try done.
  - unfold try_commit_transaction. rewrite (bind_ok get _ j j j) by done. rewrite Eg.
    rewrite (bind_ok _ _ j rbs j) by (unfold lift; by rewrite Hrb). rewrite (bind_ok _ _ j chain j) by (unfold lift; by rewrite Hch).
    rewrite Elen, Et. pose proof (ready_fits x Hx) as Hfit. pose proof (lg_len_pos x). pose proof (log_len_ge xs). pose proof (zlen_nonneg xs).
    rewrite (bind_ok _ _ j tt j).
    2:{ unfold guard. rewrite (proj2 (fitsb_spec 32 (lg_len x))); [done|]. pose proof (geo_maxlen g Hg). pose proof (geo_first g Hg).
        unfold ring, fits in *. lia. }
    rewrite ltb_false by (rewrite (la_len _ _ _ Hx); exact Hroom). rewrite (bind_ok _ _ _ _ _ Hio).
    unfold finish_commit. by rewrite Hpj.
  - assert (write_events pub (write_events (commit_events g hd x devs []) d) = dF) as <-; [|done].
    unfold dF. by rewrite <- write_events_app, <- commit_events_pub.
  - destruct (new_tail_spec g lo d tail n xs hd Hi Hhd) as [_ Eh]. rewrite Eh at 1. rewrite log_len_app. cbn [log_len foldr].
    pose proof (lg_len_pos x). pose proof (log_len_ge xs). pose proof (zlen_nonneg xs). rewrite advance_add by lia. f_equal. lia.
  - unfold new_tail. by destruct tail.
  - unfold stash_revokes. by rewrite (la_revokes _ _ _ Hx).
Qed.

(** A crash keeps the other blocks. *)
Lemma commit_frame x devs pub c b :
  match tail with Some _ => pub = [] | None => exists p blk, p ∈ block_map g /\ pub = [EvWrite p blk; EvFlush] end ->
  crash_disk (d_disk d) (commit_events g hd x devs pub) c -> b ∉ block_map g -> (forall data, EvWrite b data ∉ devs) ->
  c !! b = d_disk d !! b.
Proof.
  intros Hpub Hc Hb Hd. eapply crash_frame; [exact Hc|].
  assert (forall pos blks, in_ring g pos -> Forall (fun e => event_block e <> Some b) (log_writes g pos blks)) as Hlw.
  { intros pos blks Hp. apply Forall_forall. intros e (i & blk & y & _ & Hy & ->)%elem_of_log_writes; [|apply Hready..|done].
    cbn. intros [= ->]. apply Hb. by apply list_elem_of_lookup_2 in Hy. }
  assert (Hin : in_ring g hd) by exact (app_head g lo d tail n xs hd (cr_inv _ _ _ _ _ _ _ Hready) (cr_head _ _ _ _ _ _ _ Hready)).
  assert (0 <= segs_len (lg_segs x)) by (pose proof (segs_len_ge (lg_segs x)); pose proof (zlen_nonneg (lg_segs x)); lia).
  repeat (apply Forall_app; split); try apply Forall_cons_2; try done; try (apply Hlw; done).
  - apply Forall_forall. intros [y data|] He; [|done]. cbn. intros [= ->]. by apply (Hd data).
  - apply Forall_app. split; [apply Hlw, advance_in_ring; [apply Hready|done|done]|]. constructor; [done|].
    clear - Hpub Hb. destruct tail; [by subst pub|]. destruct Hpub as (p & blk & Hp & ->).
    repeat constructor; cbn; [|done]. intros [= ->]. done.
Qed.

(** The log after a crash is the old one or has the new transaction. *)
Definition old_or_new (x : logged) (c : gmap Z (list byte)) : Prop :=
  exists tail' ys, recoverable g lo (reopen d c) tail' n ys /\ (ys = xs \/ ys = xs ++ [x]).

Lemma uncommitted_crash x evs kept :
  logged_as g txn x -> off_journal g evs -> sublist kept (log_writes g hd (chain_blocks (lg_segs x))) ->
  old_or_new x (apply_events kept (apply_events evs (d_disk d))).
Proof.
  intros Hx He Hk. destruct (ready_append x evs Hx He) as (Hi & Hval & Hbl & _). exists tail, xs. split; [|by left].
  apply (app_uncommitted g lo (write_events evs d) tail n xs x hd Hi (cr_head _ _ _ _ _ _ _ Hready) Hval Hbl (ready_fits x Hx)
    (cr_window _ _ _ _ _ _ _ Hready) kept); [done|done|]. apply Hi.
Qed.

Lemma unpublished_crash x devs :
  logged_as g txn x -> off_journal g devs -> tail = None ->
  old_or_new x (apply_events (log_writes g hd (lg_blocks x)) (apply_events devs (d_disk d))).
Proof.
  intros Hx Ho Et. destruct (ready_append x devs Hx Ho) as (Hi & Hval & Hbl & _). exists tail, xs. split; [|by left].
  apply (app_unpublished g lo (write_events devs d) tail n xs x hd Hi (cr_head _ _ _ _ _ _ _ Hready) Hbl (ready_fits x Hx)
    (log_writes g hd (lg_blocks x))); [done|done|done|]. apply Hi.
Qed.

Lemma committed_crash x evs :
  log_inv g lo (write_events evs d) (Some (new_tail tail hd)) n (xs ++ [x]) -> old_or_new x (apply_events evs (d_disk d)).
Proof.
  intros Hfin. eexists _, _. split; [|by right]. eapply recoverable_same; [by apply log_inv_recoverable|]. split; [done|].
  apply Hfin.
Qed.

(** After the first barrier the chain is in place: what remains are the
    commit block and, on a clean journal, the superblock. *)
Lemma record_crash x devs pub c :
  logged_as g txn x -> off_journal g devs ->
  match tail with Some _ => pub = [] | None => exists p blk, p ∈ block_map g /\ pub = [EvWrite p blk; EvFlush] end ->
  log_inv g lo (write_events (commit_events g hd x devs pub) d) (Some (new_tail tail hd)) n (xs ++ [x]) ->
  crash_disk (apply_events (log_writes g hd (lg_blocks x)) (apply_events devs (d_disk d))) pub c -> old_or_new x c.
Proof.
  intros Hx Ho Hpub Hfin Hc. apply committed_crash in Hfin. rewrite commit_events_pub, apply_events_app, commit_disk in Hfin.
  pose proof (unpublished_crash x devs Hx Ho) as Hun. revert Hun Hfin. generalize (old_or_new x). clear - Hpub Hc. intros Q Hun Hfin.
  destruct tail as [p|].
  - subst pub. apply crash_unflushed in Hc as (kept & Hk & ->); [|constructor]. apply sublist_nil_r in Hk. by subst kept.
  - destruct Hpub as (p & blk & Hp & ->). apply (crash_cut _ [EvWrite p blk] []) in Hc as [Hc|Hc].
    + apply crash_unflushed in Hc as (kept & Hk & ->); [|by repeat constructor].
      apply sublist_cons_r in Hk as [Hk|(k & -> & Hk)]; apply sublist_nil_r in Hk; subst; [|done]. by apply Hun.
    + apply crash_unflushed in Hc as (kept & Hk & ->); [|constructor]. apply sublist_nil_r in Hk. by subst kept.
Qed.

Lemma commit_crash x devs pub c :
  logged_as g txn x -> off_journal g devs ->
  match tail with Some _ => pub = [] | None => exists p blk, p ∈ block_map g /\ pub = [EvWrite p blk; EvFlush] end ->
  log_inv g lo (write_events (commit_events g hd x devs pub) d) (Some (new_tail tail hd)) n (xs ++ [x]) ->
  crash_disk (d_disk d) (commit_events g hd x devs pub) c -> old_or_new x c.
Proof.
  intros Hx Ho Hpub Hfin Hc.
  assert (Efull : apply_events (log_writes g (advance g hd (segs_len (lg_segs x))) [lg_commit x])
    (apply_events (devs ++ log_writes g hd (chain_blocks (lg_segs x))) (d_disk d)) =
    apply_events (log_writes g hd (lg_blocks x)) (apply_events devs (d_disk d))).
  { unfold lg_blocks. by rewrite log_writes_app, zlen_chain_blocks, !apply_events_app. }
  apply crash_cut in Hc as [Hc|Hc].
  { apply crash_tail in Hc as (evs & kept & He & Hk & ->); [|apply log_writes_no_flush]. apply uncommitted_crash; [done| |done].
    apply Forall_forall. intros e Hin. apply (proj1 (Forall_forall _ _) He) in Hin. by apply (proj1 (Forall_forall _ _) Ho). }
  apply crash_cut in Hc as [Hc|Hc].
  - apply crash_unflushed in Hc as (kept & Hk & ->); [|apply log_writes_no_flush].
    assert (kept = [] \/ kept = log_writes g (advance g hd (segs_len (lg_segs x))) [lg_commit x]) as [-> | ->].
    { cbn [log_writes] in *. destruct (log_block_to_physical g _) as [y|]; cbn [app] in *; [|left; by apply sublist_nil_r].
      apply sublist_cons_r in Hk as [Hk|(k & -> & Hk)]; apply sublist_nil_r in Hk; subst; [by left|by right]. }
    + rewrite apply_events_app. by apply (uncommitted_crash x devs (log_writes g hd (chain_blocks (lg_segs x)))).
    + rewrite Efull. eapply (record_crash x devs pub); [done..|].
      by apply (CrashDisk _ _ [] [] pub []); [|left|constructor|].
  - rewrite Efull in Hc. by eapply record_crash.
Qed.

End Commit.

(** ** What a commit means *)

(** The blocks as they are once [txn] is committed over [xs]: a captured
    block has its image, a revoked block is as on disk, and the others are
    as before. *)
Definition committed_contents (disk : gmap Z (list byte)) (xs : list logged) (txn : Transaction) (b : Z) : option (list byte) :=
  if decide (b ∈ revoked txn) then disk !! b else or_else (buffer_bytes txn b) (contents disk xs b).

Lemma lookup_rev_list_to_map (l : list (Z * list byte)) b i :
  NoDup l.*1 -> (list_to_map (rev l) : gmap Z (list byte)) !! b = Some i <-> (b, i) ∈ l.
Proof.
  intros Hn. rewrite rev_alt. change (rev_append l []) with (reverse l). rewrite <- elem_of_list_to_map; [by rewrite elem_of_reverse|].
  rewrite fmap_reverse. by rewrite (reverse_Permutation l.*1).
Qed.

Lemma logged_image g txn x b : logged_as g txn x -> image x b = buffer_bytes txn b.
Proof.
  intros Hx. unfold image. rewrite (la_images _ _ _ Hx). apply option_eq. intros i.
  rewrite lookup_rev_list_to_map by apply NoDup_metadata_blocks. rewrite elem_of_metadata_blocks. unfold buffer_bytes.
  destruct (metadata txn !! b) as [c|]; cbn; split; [intros (? & [= ->] & ->)|intros [= <-]|intros (? & ? & _)|]; eauto; done.
Qed.

Lemma logged_contents g txn x disk xs b :
  logged_as g txn x -> contents disk (xs ++ [x]) b = committed_contents disk xs txn b.
Proof.
  intros Hx. unfold contents, committed_contents. rewrite log_image_snoc, (la_revokes _ _ _ Hx), (logged_image g txn x b Hx).
  assert (b ∈ revoked_blocks txn <-> b ∈ revoked txn) as Hr by apply elem_of_sorted_keys.
  destruct (decide (b ∈ revoked txn)); [by rewrite decide_True by tauto|]. rewrite decide_False by tauto. by rewrite or_else_assoc.
Qed.

(** Recovery of [d] succeeds and leaves [f] outside the journal and the
    blocks of the data writes [devs]. *)
Definition recovers_to (g : JournalGeometry) (d : device) (devs : list event) (f : Z -> option (list byte)) : Prop :=
  exists jr, recover (journal_new g d) = (Ok tt, jr) /\
    forall b, b ∉ block_map g -> (forall data, EvWrite b data ∉ devs) -> d_disk (j_device jr) !! b = f b.

Lemma recovers_meaning g lo d tail n xs devs f :
  recoverable g lo d tail n xs ->
  (forall b, b ∉ block_map g -> (forall data, EvWrite b data ∉ devs) -> contents (d_disk d) xs b = f b) ->
  recovers_to g d devs f.
Proof.
  intros Hr Hf. destruct (recover_contents g lo d tail n xs (journal_new g d) Hr eq_refl eq_refl) as (jr & E & _ & Hb & _).
  exists jr. split; [done|]. intros b Hnb Hd. rewrite (Hb b Hnb). by apply Hf.
Qed.

(** Without room the commit is refused. *)
Lemma commit_refused flush_range now g lo tail n xs j txn :
  fits 64 now.1 -> fits 32 now.2 -> commit_ready g lo tail n xs j txn ->
  free_log_blocks g (head (state j)) tail < log_footprint g (nr_metadata_blocks txn) (nr_revoke_blocks txn (tag_layout g)) ->
  try_commit_transaction flush_range now txn j =
    (if fitsb 32 (log_footprint g (nr_metadata_blocks txn) (nr_revoke_blocks txn (tag_layout g)))
     then Ok NeedsLogSpace else Err ENOSPC, j).
Proof.
  intros H1 H2 Hr Hroom. pose proof Hr as [Eg (Hb & _) Et _ _ _ Htxn _ _].
  destruct (build_transaction_ok g txn now (li_geo _ _ _ _ _ _ Hb) Htxn H1 H2) as (rbs & chain & x & Hrb & Hch & Hx & _ & _ & Elen).
  unfold try_commit_transaction. rewrite (bind_ok get _ j j j) by done. rewrite Eg.
  rewrite (bind_ok _ _ j rbs j) by (unfold lift; by rewrite Hrb). rewrite (bind_ok _ _ j chain j) by (unfold lift; by rewrite Hch).
  rewrite Elen, (la_len _ _ _ Hx), Et.
  unfold guard. destruct (fitsb 32 _); [|done]. rewrite (bind_ok _ _ j tt j) by done.
  by rewrite (proj2 (Z.ltb_lt _ _)).
Qed.

(** ** Theorems *)



(** A commit that does not fit in the free log space changes nothing, in
    memory or on the device: it asks for space, and may be tried again after
    a checkpoint. *)
Theorem commit_no_space flush_range now g lo tail n xs j txn :
  fits 64 now.1 -> fits 32 now.2 -> commit_ready g lo tail n xs j txn ->
  free_log_blocks g (head (state j)) tail < log_footprint g (nr_metadata_blocks txn) (nr_revoke_blocks txn (tag_layout g)) ->
  try_commit_transaction flush_range now txn j =
    (if fitsb 32 (log_footprint g (nr_metadata_blocks txn) (nr_revoke_blocks txn (tag_layout g)))
     then Ok NeedsLogSpace else Err ENOSPC, j).
Proof. apply commit_refused. Qed.

(** ** A commit, concretely *)

(** A clean journal whose committing transaction has captured block 10 and
    revoked block 11. *)
Module SampleCommit.

Definition txn : Transaction := forget_block (capture_create (txn_new 0 5) 10).1 11.
Definition fresh : Journal := journal_new sample_geometry (Sample.dev 0).
Definition journal : Journal :=
  with_state fresh (set_committing (state fresh) (Some {| ct_txn := txn; ct_phase := Locked |})).

(** Five captures over a log that leaves seven blocks free. *)
Definition big_txn : Transaction :=
  foldl (fun t b => (capture_create t b).1) (forget_block (txn_new 0 6) 20) [10; 11; 12; 13; 14].
Definition dirty : Journal := journal_new sample_geometry SampleLog.dev.
Definition full : Journal :=
  with_state dirty
    (set_committing (set_log (state dirty) 7 (Some 3) 5) (Some {| ct_txn := big_txn; ct_phase := Locked |})).

Definition no_data (ino len : Z) : M device unit := mret tt.

End SampleCommit.

Lemma sample_clean : log_inv sample_geometry 5 (Sample.dev 0) None 5 [].
Proof.
  split_and!; [|exists (Sample.raw 0); split_and!; [vm_compute; reflexivity|done|done|by apply (sample_super 0)]|done].
  constructor; try done.
  - apply sample_geometry_ok.
  - apply sample_map_ok.
  - apply sample_present. vm_compute. reflexivity.
  - intros p blk Hp Hr Hm. exists 5. split; [rewrite zlen_nil; lia|]. eapply (sample_old (Sample.dev 0) p blk); [|done..].
    vm_compute. reflexivity.
Qed.

Lemma sample_ready : commit_ready sample_geometry 5 None 5 [] SampleCommit.journal SampleCommit.txn.
Proof.
  assert (metadata_blocks SampleCommit.txn = [(10, zeros 4096)]) as Em by (vm_compute; reflexivity).
  assert (revoked_blocks SampleCommit.txn = [11]) as Er by (vm_compute; reflexivity).
  constructor; [done| |done|done|done|vm_compute; reflexivity| | |vm_compute; reflexivity].
  - apply sample_clean.
  - constructor; [by vm_compute|rewrite Em; discriminate|rewrite Em|rewrite Er; by repeat constructor]. unfold captures_ok, blocknr_ok, is_block. vm_decide.
  - rewrite Em. unfold bid_ok. vm_decide.
Qed.

Lemma no_data_flushes : flushes_data sample_geometry SampleCommit.no_data.
Proof. intros ino len d _. exists []. rewrite write_events_nil. split; [done|constructor]. Qed.

Lemma sample_full : commit_ready sample_geometry 5 (Some 3) 5 [SampleLog.txn] SampleCommit.full SampleCommit.big_txn.
Proof.
  assert (metadata_blocks SampleCommit.big_txn = map (fun b => (b, zeros 4096)) [10; 11; 12; 13; 14]) as Em by (vm_compute; reflexivity).
  assert (revoked_blocks SampleCommit.big_txn = [20]) as Er by (vm_compute; reflexivity).
  constructor; [done| |done|vm_compute; reflexivity|done|vm_compute; reflexivity| | |vm_compute; reflexivity].
  - exact sample_log_inv.
  - constructor; [by vm_compute|rewrite Em; discriminate|rewrite Em|rewrite Er; by repeat constructor]. unfold captures_ok, blocknr_ok, is_block. vm_decide.
  - rewrite Em. unfold bid_ok. vm_decide.
Qed.



Lemma commit_no_space_witness :
  try_commit_transaction SampleCommit.no_data (1, 2) SampleCommit.big_txn SampleCommit.full = (Ok NeedsLogSpace, SampleCommit.full).
Proof.
  apply (commit_no_space SampleCommit.no_data (1, 2) sample_geometry 5 (Some 3) 5 [SampleLog.txn] SampleCommit.full SampleCommit.big_txn);
    [done|done|exact sample_full|vm_compute; reflexivity].
Defined.
