(* ===== verification/Mount.v ===== *)
(** * Opening the journal

    Models the journal part of [Ext4::open] ([fs.rs]): load the geometry from
    the journal inode and the superblock, replay the log if the file system
    is marked for recovery, upgrade the journal's features, and reload the
    geometry when that changed them.

    A remount parses the superblock afresh, so its geometry differs from the
    old one in the log's start and sequence; the log itself only depends on
    the shape: the block map, the ring's bounds, the tag layout and the
    checksum seed. *)

From S2P Require Import Prelude Pod JournalFormat JournalTags Device Geometry Revoke LogWalk LogModel LogInv Transaction JournalState JournalInv Recovery.

(** ** The code *)

(** Replay, for a journal over the device of the mount. *)
Definition replay_journal (needs_recovery : bool) (j : Journal) : M device Journal := fun d =>
  match (if needs_recovery then recover (with_device j d) else (Ok tt, with_device j d)) with
  | (Ok _, j) => (Ok j, j_device j)
  | (Err e, j) => (Err e, j_device j)
  end.

Definition open_journal (has_journal : bool) (journal_ino journal_dev : Z) (read_inode : Z -> result journal_inode)
    (needs_recovery : bool) (needs : JournalUpgradeNeeds) : M device (option Journal) :=
  d ← get;
  geometry ← lift (load_geometry has_journal journal_ino journal_dev read_inode d);
  match geometry with
  | None => mret None
  | Some g =>
      j ← replay_journal needs_recovery (journal_new g d);
      upgraded ← upgrade_journal_on_mount (JournalState.geometry j) needs;
      d ← get;
      if (upgraded : bool) then
        reloaded ← lift (load_geometry has_journal journal_ino journal_dev read_inode d);
        match reloaded with
        | None => fail EIO
        | Some g => mret (Some (journal_new g d))
        end
      else mret (Some (with_device j d))
  end.

(** ** Lemmas: the shape of a geometry *)

Record same_shape (g g' : JournalGeometry) : Prop := {
  sh_map : block_map g' = block_map g;
  sh_maxlen : maxlen g' = maxlen g;
  sh_first : first g' = first g;
  sh_layout : tag_layout g' = tag_layout g;
  sh_seed : csum_seed g' = csum_seed g;
}.

Section Shape.
Context (g g' : JournalGeometry) (Hs : same_shape g g').

Lemma shape_physical p : log_block_to_physical g' p = log_block_to_physical g p.
Proof. unfold log_block_to_physical. by rewrite (sh_map _ _ Hs). Qed.

Lemma shape_next p : next_log_block g' p = next_log_block g p.
Proof. unfold next_log_block. by rewrite (sh_maxlen _ _ Hs), (sh_first _ _ Hs). Qed.

Lemma shape_advance p k : advance g' p k = advance g p k.
Proof.
  unfold advance. induction (Z.to_nat k) as [|m IH]; [done|].
  change (next_log_block g' (Nat.iter m (next_log_block g') p) = next_log_block g (Nat.iter m (next_log_block g) p)).
  by rewrite IH, shape_next.
Qed.

Lemma shape_read d p : read_log_block g' d p = read_log_block g d p.
Proof. unfold read_log_block. by rewrite shape_physical. Qed.

Lemma shape_super d : read_raw_superblock g' d = read_raw_superblock g d.
Proof. unfold read_raw_superblock, superblock_block. by rewrite shape_physical. Qed.

Lemma shape_in_ring p : in_ring g' p <-> in_ring g p.
Proof. unfold in_ring. by rewrite (sh_maxlen _ _ Hs), (sh_first _ _ Hs). Qed.

Lemma shape_skip tags log c : skip_tags g' tags log c = skip_tags g tags log c.
Proof. revert log c. induction tags as [|[t|e] tags IH]; intros log c; cbn [skip_tags]; [done| |done]. by rewrite shape_next, IH. Qed.

Lemma shape_scan_loop fuel d tid log c ok : scan_loop fuel g' d tid log c ok = scan_loop fuel g d tid log c ok.
Proof.
  revert log c ok. induction fuel as [|fuel IH]; intros log c ok; [done|]. cbn [scan_loop].
  rewrite shape_read, (sh_seed _ _ Hs), (sh_layout _ _ Hs), (sh_maxlen _ _ Hs), shape_next.
  destruct (read_log_block g d log) as [blk|e]; [|done]. cbn [rbind].
  destruct (negb (h_magic _ =? _)); [done|]. destruct (negb (h_sequence _ =? _)); [done|].
  destruct (h_blocktype (parse_header blk) =? BLOCKTYPE_REVOKE); [destruct (negb (maxlen g <? _)); [apply IH|done]|].
  destruct (negb _ && negb _); [done|]. destruct (h_blocktype (parse_header blk) =? BLOCKTYPE_COMMIT); [done|].
  rewrite shape_skip. destruct (skip_tags g _ log c) as [[l c']|e]; [|done]. rewrite shape_next.
  destruct (negb (maxlen g <? _)); [apply IH|done].
Qed.

Lemma shape_log_holds d pos blks : log_holds g d pos blks -> log_holds g' d pos blks.
Proof. revert pos. induction blks as [|b blks IH]; intros pos; [done|]. cbn [log_holds]. rewrite shape_read, shape_next. intros [? ?]. eauto. Qed.

Lemma shape_valid n x : logged_valid g n x -> logged_valid g' n x.
Proof.
  unfold logged_valid, commit_valid. rewrite (sh_seed _ _ Hs). intros [Hv ?]. split; [|done]. eapply Forall_impl; [exact Hv|].
  intros [blk bids|desc items]; unfold seg_valid, item_csum_ok; by rewrite (sh_seed _ _ Hs), (sh_layout _ _ Hs).
Qed.

Lemma shape_contains d pos n xs : log_contains g d pos n xs -> log_contains g' d pos n xs.
Proof.
  revert pos n. induction xs as [|x xs IH]; intros pos n; [done|]. cbn [log_contains]. rewrite shape_advance.
  intros (? & ? & ?). split_and!; [by apply shape_valid|by apply shape_log_holds|by apply IH].
Qed.

Lemma shape_body lo d tail n xs : log_body g lo d tail n xs -> log_body g' lo d tail n xs.
Proof.
  intros [Hg Hm Hh Hp Ht Hl Hc Hch Hho Hold Hw]. constructor; rewrite ?(sh_map _ _ Hs); try done.
  - destruct Hg. constructor; rewrite ?(sh_map _ _ Hs), ?(sh_maxlen _ _ Hs), ?(sh_first _ _ Hs), ?(sh_layout _ _ Hs), ?(sh_seed _ _ Hs); done.
  - destruct Hm. constructor; by rewrite (sh_map _ _ Hs).
  - destruct tail; [by apply shape_in_ring|done].
  - unfold ring. by rewrite (sh_maxlen _ _ Hs), (sh_first _ _ Hs).
  - destruct tail; [by apply shape_contains|done].
  - unfold home_ok. by rewrite (sh_map _ _ Hs).
  - intros p blk Hp'%shape_in_ring. rewrite shape_read. by apply Hold.
Qed.

Lemma shape_says d tail n : super_says g d tail n -> super_says g' d tail n.
Proof.
  intros (raw & Hr & H1 & H2 & H3 & H4 & sb & H5). exists raw. rewrite shape_super. split_and!; [done..|]. split_and!; [done..|]. exists sb.
  by rewrite (sh_maxlen _ _ Hs), (sh_first _ _ Hs), (sh_layout _ _ Hs), (sh_seed _ _ Hs).
Qed.

Lemma shape_recoverable lo d tail n xs : recoverable g lo d tail n xs -> recoverable g' lo d tail n xs.
Proof.
  intros (Hb & Hsy & He). split_and!; [by apply shape_body|by apply shape_says|]. destruct tail; [|done]. unfold log_ends, scan_transaction, CHAIN_FUEL.
  by rewrite shape_advance, (sh_maxlen _ _ Hs), shape_scan_loop.
Qed.
End Shape.

(** ** Lemmas: loading the geometry *)

(** The journal inode maps the journal's blocks. *)
Definition inode_maps (read_inode : Z -> result journal_inode) (g : JournalGeometry) : Prop :=
  exists desc, read_inode JOURNAL_INO = Ok desc /\ ji_is_extent_based desc = true /\
    2 <= div_ceil (ji_size desc) BLOCK_SIZE < 2 ^ 32 /\ ji_map_all_blocks desc (div_ceil (ji_size desc) BLOCK_SIZE) = Ok (block_map g).

Lemma load_admitted ri g d raw sb :
  inode_maps ri g -> read_raw_superblock g d = Ok raw -> super_of g raw -> geometry_ok g -> try_from raw = Ok sb ->
  load_geometry true JOURNAL_INO 0 ri d = Ok (Some {| block_map := block_map g; g_superblock := sb |}).
Proof.
  intros (desc & Hri & Hext & Hn & Hmap) Hraw (Hp1 & Hp2 & sb' & Ht & Hmx & _) Hg Hsb. rewrite Hsb in Ht. injection Ht as <-.
  unfold load_geometry. cbn [negb]. rewrite Z.eqb_refl. rewrite Hri. cbn [rbind]. rewrite Hext.
  rewrite (proj2 (fitsb_spec 32 _)) by (unfold fits; lia). rewrite (ltb_false _ 2) by lia. cbn [negb]. rewrite Hmap. cbn [rbind].
  unfold read_raw_superblock, superblock_block, log_block_to_physical in Hraw. destruct (block_map g) as [|b map] eqn:Em; [done|].
  cbn [nth]. change ((b :: map) !! Z.to_nat 0) with (Some b) in Hraw. cbn [rbind] in Hraw. rewrite Hraw. cbn [rbind].
  rewrite Hp1, Hp2, Hsb. cbn [rbind]. rewrite ltb_false; [done|]. pose proof (geo_map g Hg). rewrite Em, <- Hmx in *. lia.
Qed.

Lemma load_says ri g lo d tail n xs :
  inode_maps ri g -> log_body g lo d tail n xs -> super_says g d tail n ->
  exists g1, load_geometry true JOURNAL_INO 0 ri d = Ok (Some g1) /\ same_shape g g1 /\ sequence g1 = u32 n /\ start g1 = tail.
Proof.
  intros Hri Hb (raw & Hraw & Hst & Hsq & Hsp). pose proof Hsp as (_ & _ & sb & Ht & H1 & H2 & H3 & H4).
  pose proof (super_wf _ _ _ _ _ _ Hb raw Hraw) as Hwf. destruct (try_from_ok raw sb Hwf Ht) as (_ & _ & _ & _ & _ & _ & Es & Est).
  eexists. split; [by apply (load_admitted ri g d raw sb); [..|apply Hb|]|]. split; [by constructor|]. unfold sequence, start. cbn [g_superblock].
  split; [by rewrite Es|]. rewrite Est. unfold recovery_start. rewrite Hst. pose proof (li_tail _ _ _ _ _ _ Hb) as Hp.
  pose proof (geo_first g (li_geo _ _ _ _ _ _ Hb)). destruct tail as [p|]; cbn [start_of]; [|done].
  rewrite (proj2 (Z.eqb_neq p 0)); [done|]. unfold in_ring in Hp. lia.
Qed.

(** ** Lemmas: replay and upgrade *)

Lemma with_device_new g d d' : with_device (journal_new g d) d' = journal_new g d'.
Proof. done. Qed.

(** The journal a mount starts from, over a clean disk. *)
Lemma journal_new_coupled g lo d n :
  log_inv g lo d None n [] -> sequence g = u32 n -> start g = None -> coupled g lo n [] (journal_new g d).
Proof.
  intros Hi Hs Ht. pose proof Hi as (Hb & _). pose proof (geo_first g (li_geo _ _ _ _ _ _ Hb)).
  constructor; cbn [journal_new geometry j_device state tail_block head tail_tid committed_tid st_revoked]; rewrite ?Hs, ?Ht; try done.
  - unfold in_ring. lia.
  - rewrite zlen_nil, Z.add_0_r. apply prev_u32.
Qed.

(** A disk a failure leaves during the open: it can be opened again, and
    means what it meant. *)
Definition resumes (g : JournalGeometry) (lo : Z) (d : device) (n : Z) (xs : list logged) (c : gmap Z (list byte)) : Prop :=
  exists g' t m xs', recoverable g' lo (reopen d c) t m xs' /\ block_map g' = block_map g /\ m + zlen xs' = n + zlen xs /\
    forall b, b ∉ block_map g -> contents c xs' b = contents (d_disk d) xs b.

Definition flushed (h : list event) : Prop := h = [] \/ exists h0, h = h0 ++ [EvFlush].

Lemma replay_journal_ok g lo d tail n xs :
  recoverable g lo d tail n xs -> sequence g = u32 n -> start g = tail ->
  exists j, replay_journal true (journal_new g d) d = (Ok j, j_device j) /\ coupled g lo (n + zlen xs) [] j /\
    geometry j = g /\ tail_block (state j) = None /\
    (forall b, b ∉ block_map g -> d_disk (j_device j) !! b = contents (d_disk d) xs b) /\
    exists h, j_device j = write_events h d /\ flushed h /\ forall c, crash_disk (d_disk d) h c -> resumes g lo d n xs c.
Proof.
  intros Hr Hsq Hst. unfold replay_journal. rewrite with_device_new.
  destruct (recover_contents g lo d tail n xs (journal_new g d) Hr eq_refl eq_refl) as (j & E & Hi & Hb & Hf). rewrite E.
  exists j. split; [done|]. destruct tail as [p|].
  - destruct (recover_dirty g lo d p n xs (journal_new g d) Hr eq_refl eq_refl) as (sbp & blk & _ & Hin & E' & Hi').
    rewrite E in E'. injection E' as ->. split_and!; [|done|done|done|].
    2:{ exists ((recovery_writes n xs ++ [EvFlush]) ++ [EvWrite sbp blk; EvFlush]).
        split_and!; [by rewrite (write_events_app (recovery_writes n xs ++ [EvFlush]))|right; exists ((recovery_writes n xs ++ [EvFlush]) ++ [EvWrite sbp blk]); by rewrite <- !app_assoc|].
        intros c Hc. pose proof (home_crash g lo d p n xs [] sbp blk None (n + zlen xs)) as H. unfold same_meaning in H. rewrite app_nil_r in H.
        destruct (H Hr Hin (log_inv_recoverable _ _ _ _ _ _ Hi') (Z.add_0_r _) c Hc) as (t & m & xs' & ? & ? & ?). by exists g, t, m, xs'. }
    pose proof (geo_first g (li_geo _ _ _ _ _ _ (proj1 Hi))).
    constructor; try done; cbn [recovered with_committed with_state with_device journal_new geometry state set_next_tid set_log tail_block head committed_tid].
    + unfold in_ring. lia.
    + rewrite zlen_nil, Z.add_0_r. apply prev_u32.
  - rewrite (recover_clean g lo d n xs (journal_new g d) Hr eq_refl eq_refl) in E. injection E as <-. split_and!; [|done|done|done|].
    2:{ exists []. rewrite write_events_nil. split_and!; [done|by left|]. intros c ->%crash_nothing. exists g, None, n, xs.
        split_and!; [|done..]. eapply recoverable_same; [exact Hr|]. split; [done|apply Hr]. }
    pose proof (li_tail _ _ _ _ _ _ (proj1 Hr)) as Hx. cbn in Hx. subst xs. rewrite zlen_nil, Z.add_0_r in *. by apply journal_new_coupled.
Qed.

(** A clean log does not depend on the tag layout. *)
Lemma log_body_relayout g g' lo d n :
  log_body g lo d None n [] -> block_map g' = block_map g -> maxlen g' = maxlen g -> first g' = first g -> geometry_ok g' ->
  log_body g' lo d None n [].
Proof.
  intros [Hg Hm Hh Hp _ _ _ _ _ Hold Hw] E1 E2 E3 Hg'. constructor; rewrite ?E1; try done.
  - destruct Hm. constructor; by rewrite E1.
  - pose proof (ring_pos g' Hg'). cbn. lia.
  - intros p blk Hp'. unfold in_ring, read_log_block, log_block_to_physical in *. rewrite E1, E2, E3 in *. by apply Hold.
Qed.

(** The upgraded superblock is admitted. *)
Lemma super_of_upgraded needs raw g sb :
  wants_upgrade needs raw = true -> super_of g raw -> try_from (stamp_checksum (upgraded needs raw)) = Ok sb ->
  super_of {| block_map := block_map g; g_superblock := sb |} (stamp_checksum (upgraded needs raw)).
Proof.
  intros Hw (_ & Hro & _) Ht. unfold super_of.
  rewrite (stamp_proj s_header), (stamp_proj s_feature_incompat), (stamp_proj s_feature_ro_compat) by done.
  split_and!; [|done|by exists sb]. cbn [upgraded set_features s_header s_feature_incompat]. unfold upgraded_incompat.
  assert (Z.land (if fs_is_64bit needs then Z.lor INCOMPAT_CSUM_V3 INCOMPAT_64BIT else INCOMPAT_CSUM_V3) (not32 INCOMPAT_SUPP) = 0) as ->
    by by destruct (fs_is_64bit needs). by rewrite andb_false_r.
Qed.

(** The upgrade keeps a clean journal clean, whether it applies or not. *)
Lemma upgrade_ok ri g lo d n needs :
  log_inv g lo d None n [] -> inode_maps ri g ->
  exists d' r, upgrade_journal_on_mount g needs d = (Ok r, d') /\
    (forall b, b ∉ block_map g -> d_disk d' !! b = d_disk d !! b) /\
    (d' = d \/ exists p blk, d' = write_events [EvWrite p blk; EvFlush] d) /\
    if (r : bool) then exists g2, load_geometry true JOURNAL_INO 0 ri d' = Ok (Some g2) /\ log_inv g2 lo d' None n [] /\
      sequence g2 = u32 n /\ start g2 = None /\ block_map g2 = block_map g /\ maxlen g2 = maxlen g /\ first g2 = first g
    else d' = d.
Proof.
  intros (Hb & (raw & Hraw & Hst & Hsq & Hsp) & _) Hri. pose proof Hsp as (_ & _ & sb & Ht & Hmx & Hfi & _).
  pose proof (super_wf _ _ _ _ _ _ Hb raw Hraw) as Hwf. pose proof (li_healthy _ _ _ _ _ _ Hb) as Hh.
  destruct (super_phys _ _ _ _ _ _ Hb) as (p & old & Hs & Hp & Hin & Hbid & Hd & Hold).
  pose proof (upgrade_reloads g needs d p old raw sb Hh Hs Hbid Hd Hold Hraw Ht) as Hup.
  destruct (wants_upgrade needs raw) eqn:Hw; [|exists d, false; by eauto]. clear Hup.
  pose proof (try_from_upgraded needs raw sb Hwf Ht Hw) as Ht'. set (sb' := {| jsb_maxlen := _ |}) in Ht'.
  set (blk := write_at superblock_codec 0 (stamp_checksum (upgraded needs raw)) old). set (d' := write_events [EvWrite p blk; EvFlush] d).
  set (g2 := {| block_map := block_map g; g_superblock := sb' |}).
  assert (read_raw_superblock g d' = Ok (stamp_checksum (upgraded needs raw))) as Hraw'
    by (apply (read_back_superblock g d); [by apply upgraded_wf|done|done|done|apply Hh]).
  destruct (try_from_ok _ _ (stamp_checksum_wf _ (upgraded_wf needs raw Hwf)) Ht') as (Hf & Hm32 & Hl & Hsd & _).
  assert (geometry_ok g2) as Hg2.
  { constructor; [done|done| |done|done]. change (maxlen g2) with (jsb_maxlen sb). rewrite Hmx. apply (geo_map g (li_geo _ _ _ _ _ _ Hb)). }
  pose proof (super_of_upgraded needs raw g sb' Hw Hsp Ht') as Hsp'. fold g2 in Hsp'.
  assert (super_says g2 d' None n) as Hsay.
  { exists (stamp_checksum (upgraded needs raw)). rewrite (stamp_proj s_start), (stamp_proj s_sequence) by done. done. }
  assert (log_body g2 lo d' None n []) as Hb'.
  { apply (log_body_relayout g); [|done|exact Hmx|exact Hfi|exact Hg2]. apply log_body_super; [done|done|]. unfold blk, is_block in *.
    rewrite (zlen_write_at superblock_codec); [done|done|by rewrite Hold|by apply stamp_checksum_wf, upgraded_wf]. }
  exists d', true. split; [by apply (upgrade_writes g needs d p old raw)|]. split.
  { intros b Hnb. cbn [d' d_disk write_events apply_events fold_left apply_event]. by rewrite lookup_insert_ne by (by intros ->). }
  split; [right; by exists p, blk|]. exists g2. split_and!; [|by split_and!| |done|done|exact Hmx|exact Hfi].
  - apply (load_admitted ri g2 d' (stamp_checksum (upgraded needs raw)) sb'); try done.
  - change (sequence g2) with (jsb_sequence sb). by rewrite (proj1 (proj2 (proj2 (proj2 (proj2 (proj2 (proj2 (try_from_ok raw sb Hwf Ht)))))))).
Qed.

Lemma open_recovers ri needs g lo d tail n xs :
  recoverable g lo d tail n xs -> inode_maps ri g ->
  exists j, open_journal true JOURNAL_INO 0 ri true needs d = (Ok (Some j), j_device j) /\
    coupled (geometry j) lo (n + zlen xs) [] j /\
    block_map (geometry j) = block_map g /\ maxlen (geometry j) = maxlen g /\ first (geometry j) = first g /\
    (forall b, b ∉ block_map g -> d_disk (j_device j) !! b = contents (d_disk d) xs b) /\
    exists h, j_device j = write_events h d /\ forall c, crash_disk (d_disk d) h c -> resumes g lo d n xs c.
Proof.
  intros Hr Hri. pose proof Hr as (Hb & Hs & _). destruct (load_says ri g lo d tail n xs Hri Hb Hs) as (g1 & Hl & Hsh & Hsq & Hst).
  pose proof (shape_recoverable g g1 Hsh _ _ _ _ _ Hr) as Hr1.
  destruct (replay_journal_ok g1 lo d tail n xs Hr1 Hsq Hst) as (j1 & Erep & Hco & Eg & Etb & Hblk & h1 & Ed1 & Hfl & Hres).
  assert (inode_maps ri g1) as Hri1 by (unfold inode_maps; by rewrite (sh_map _ _ Hsh)).
  assert (log_inv g1 lo (j_device j1) None (n + zlen xs) []) as Hi1.
  { pose proof (jc_log _ _ _ _ _ Hco) as Hi. by rewrite Etb in Hi. }
  destruct (upgrade_ok ri g1 lo (j_device j1) (n + zlen xs) needs Hi1 Hri1) as (d' & r & Eup & Hd' & Hh2 & Hup).
  assert (Hres1 : forall c, crash_disk (d_disk d) h1 c -> resumes g lo d n xs c).
  { intros c Hc. destruct (Hres c Hc) as (g' & t & m & xs' & H1 & H2 & H3 & H4). rewrite (sh_map _ _ Hsh) in *. by exists g', t, m, xs'. }
  rewrite (sh_map _ _ Hsh) in *. unfold open_journal. rewrite (bind_ok get _ d d d) by done.
  rewrite (bind_ok _ _ d (Some g1) d) by (unfold lift; by rewrite Hl). rewrite (bind_ok _ _ _ _ _ Erep), Eg.
  rewrite (bind_ok _ _ _ _ _ Eup), (bind_ok get _ d' d' d') by done. destruct r.
  - destruct Hup as (g2 & Hl2 & Hi2 & Hsq2 & Hst2 & Em & Emx & Efi). rewrite (bind_ok _ _ d' (Some g2) d') by (unfold lift; by rewrite Hl2).
    exists (journal_new g2 d'). cbn [geometry journal_new j_device]. rewrite Em, Emx, Efi, (sh_maxlen _ _ Hsh), (sh_first _ _ Hsh).
    assert (forall b, b ∉ block_map g -> d_disk d' !! b = contents (d_disk d) xs b) as Hblk'
      by (intros b Hnb; rewrite Hd' by done; by apply Hblk).
    split_and!; [done|by apply journal_new_coupled|done|done|done|done|].
    destruct Hh2 as [-> | (p & blk & ->)]; [by exists h1|]. exists (h1 ++ [EvWrite p blk; EvFlush]). split; [by rewrite write_events_app, <- Ed1|].
    intros c [Hc|Hc]%crash_app; [by apply Hres1| |done]. apply crash_single in Hc as [-> | ->].
    + apply Hres1, crash_final.
    + exists g2, None, (n + zlen xs), []. split_and!; [|done|by rewrite zlen_nil, Z.add_0_r|].
      * eapply recoverable_same; [by apply log_inv_recoverable|]. rewrite Ed1. split; [done|apply Hb].
      * intros b Hnb. rewrite <- Hblk' by done. by rewrite Ed1.
  - subst d'. exists j1. rewrite Eg, (sh_map _ _ Hsh), (sh_maxlen _ _ Hsh), (sh_first _ _ Hsh).
    split_and!; [by destruct j1|done..|]. by exists h1.
Qed.

(** ** Theorems *)


(** The sample log, reopened with and without an upgrade of its tags. *)
Lemma sample_inode_maps : inode_maps Sample.inode sample_geometry.
Proof. eexists. split; [reflexivity|]. by vm_compute. Qed.

