(* ===== verification/Durability.v ===== *)
(** * Durability

    The whole journal, up and down: a mounted journal with its handles takes
    the steps of its operations, of the committer and of the checkpointer;
    power may fail in the middle of a commit, of a checkpoint, or of the
    recovery that follows; and opening the file system brings it up again.
    The journal refines an atomic, durable store of metadata blocks: a commit
    takes effect at once and for good, a failure during it leaves all of it
    or nothing, and nothing else changes the store. *)

From S2P Require Import Prelude Pod JournalFormat JournalTags Device Geometry Revoke LogWalk LogModel LogInv Transaction JournalState JournalInv Handles Commit Recovery Checkpoint CrashSafety Mount.

(** ** Lemmas: operations do not touch the log *)

Definition log_part (j : Journal) : JournalGeometry * device * Z * Z * option Z * Z * RevokeTable :=
  (geometry j, j_device j, committed_tid j, head (state j), tail_block (state j), tail_tid (state j), st_revoked (state j)).

Lemma coupled_part g lo n xs j j' : log_part j' = log_part j -> coupled g lo n xs j -> coupled g lo n xs j'.
Proof.
  unfold log_part. intros E [H1 H2 H3 H4 H5 H6].
  assert (geometry j' = geometry j) as E1 by congruence. assert (j_device j' = j_device j) as E2 by congruence.
  assert (committed_tid j' = committed_tid j) as E3 by congruence. assert (head (state j') = head (state j)) as E4 by congruence.
  assert (tail_block (state j') = tail_block (state j)) as E5 by congruence. assert (tail_tid (state j') = tail_tid (state j)) as E6 by congruence.
  assert (st_revoked (state j') = st_revoked (state j)) as E7 by congruence.
  constructor; by rewrite ?E1, ?E2, ?E3, ?E4, ?E5, ?E6, ?E7.
Qed.

Lemma put_active_part j s t : log_part (with_state j (put_active (state j) s t)) = log_part j.
Proof. by destruct s. Qed.

Lemma stage_part j st t :
  log_part (with_state j (stage_committing st t)) = log_part (with_state j st).
Proof. unfold stage_committing. by repeat case_match. Qed.

Lemma world_step_part w w' :
  world_step w w' -> log_part (w_j w') = log_part (w_j w) \/ w_j w' = abort_with_error (w_j w).
Proof.
  intros Hs. destruct Hs as [now j j' hs credits t _ E|now j j' hs credits r _ E _|j l1 h l2|j l1 h l2 _|j j' l1 h h' l2 extra r _ E|
    j j' l1 h h' l2 need r E|j j' l1 h h' l2 extra r _ E|j j' l1 h h' l2 bid r E|j j' l1 h h' l2 bid r E|j j' hs h a f E|
    j j' hs h start count E|j j' hs h start count E|j j' hs h ino len E|now j j' hs cause s E|j hs t|j hs]; cbn [w_j]; [left..|by right].
  - unfold admit_once in E. repeat (case_match; simplify_eq/=); done.
  - unfold admit_once in E. repeat (case_match; simplify_eq/=); done.
  - unfold journal_stop, release_handle. destruct (active_txn _ _) as [[[|] t]|]; done.
  - unfold journal_restart_release, release_handle, request_commit_for. destruct (aborted j); [done|].
    destruct (active_txn _ _) as [[[|] t]|]; cbn; destruct (commit_request (state j)) as [e|]; try done; by destruct (Tid.geq e _).
  - unfold journal_extend, grow in E. repeat (case_match; simplify_eq/=); done.
  - unfold try_reserve_next, grow in E. repeat (case_match; simplify_eq/=); done.
  - unfold extend_reservation_for_burst, grow in E. repeat (case_match; simplify_eq/=); done.
  - unfold live_write_access, finish_capture in E. repeat (case_match; simplify_eq/=); done || apply put_active_part.
  - unfold live_create_access, finish_capture in E. repeat (case_match; simplify_eq/=); done || apply put_active_part.
  - unfold patch in E. destruct a as [[[? ?] ?]|]; [|by simplify_eq]. inv_result. destruct x. inv_result. subst. apply put_active_part.
  - unfold discharge in E. inv_result. destruct x as [s t]. inv_result. subst. by destruct s.
  - unfold pin_freed_run in E. destruct h; [|by simplify_eq]. case_match; [by simplify_eq|]. inv_result. destruct x. inv_result. by subst.
  - unfold try_register_ordered_data in E. inv_result. destruct x as [s t]. inv_result. subst. apply put_active_part.
  - unfold advance_pipeline in E. repeat (case_match; simplify_eq/=); try done; by rewrite stage_part.
  - unfold clear_committing. by repeat case_match.
Qed.

(** An abort rewrites the error field of the superblock and nothing else. *)
Lemma abort_coupled g lo n xs j :
  coupled g lo n xs j ->
  exists sbp blk, sbp ∈ block_map g /\ j_device (abort_with_error j) = write_events [EvWrite sbp blk; EvFlush] (j_device j) /\
    coupled g lo n xs (abort_with_error j).
Proof.
  intros [Eg (Hb & (raw & Hraw & Hst & Hsq & Hsp) & Hf) Hh Ht Hc Hr]. pose proof (super_wf _ _ _ _ _ _ Hb raw Hraw) as Hwf.
  destruct (super_rewrite g lo (j_device j) _ n xs raw (set_s_errno raw S_ERRNO_ERROR_MARKER) _ n xs Hb Hraw Hsp Hb)
    as (sbp & blk & Hp & Hin & Hblk & Hw & Hb' & Hs'); [by apply set_s_errno_wf|done|done|done|].
  exists sbp, blk. split; [done|].
  assert (abort_with_error j = with_device (with_flags (abort j) (stop j) true S_ERRNO_ERROR_MARKER (space_pressure j) (commit_servicer j))
    (write_events [EvWrite sbp blk; EvFlush] (j_device j))) as E.
  { unfold abort_with_error, write_errno_to_super, on_device. cbn [geometry j_device with_flags abort sb_error]. by rewrite Eg, Hraw, Hw. }
  rewrite E. split; [done|]. constructor; try done. split_and!; [done|done|]. cbn [state with_device with_flags abort] in *.
  destruct (tail_block (state j)); [|done]. intros q b Hq. cbn [j_device with_device]. rewrite super_write_ring by (done || apply Hb). by apply Hf.
Qed.

(** ** The machine *)

Inductive label : Type :=
  | Internal
  | CommitOf (txn : Transaction) (ws : list event)
  | TornCommit (txn : Transaction) (ws : list event).

Inductive machine : Type :=
  | Up (w : world)
  | Down (d : device).

(** A transaction staged for commit, with the id after the last published
    one, whose captures are blocks of the file system. *)
Definition stageable (j : Journal) (txn : Transaction) : Prop :=
  committing (state j) = Some {| ct_txn := txn; ct_phase := Locked |} /\ tid txn = Tid.next (committed_tid j) /\
  commitable (geometry j) txn /\
  Forall (fun e => bid_ok e.1 /\ is_Some (d_disk (j_device j) !! e.1) /\ e.1 ∉ block_map (geometry j)) (metadata_blocks txn).

Section Machine.
Context (flush_range : Z -> Z -> M device unit) (read_inode : Z -> result journal_inode) (needs : JournalUpgradeNeeds).

(** The steps of a mounted journal; a commit is labelled with its transaction
    and with the data writes of its ordered flush. *)
Inductive up_step : world -> label -> world -> Prop :=
  | UpOperation w w' : world_step w w' -> up_step w Internal w'
  | UpCheckpoint j j' hs target r : checkpoint_advance target j = (r, j') -> up_step (World j hs) Internal (World j' hs)
  | UpCommit j j' hs txn now ws :
      fits 64 now.1 -> fits 32 now.2 -> stageable j txn ->
      flush_ordered flush_range txn (j_device j) = (Ok tt, write_events ws (j_device j)) ->
      try_commit_transaction flush_range now txn j = (Ok (Committed (tid txn)), j') ->
      up_step (World j hs) (CommitOf txn ws) (World j' hs).

Definition torn (l : label) : label := match l with CommitOf txn ws => TornCommit txn ws | l => l end.

(** What a step wrote, and a disk that a failure during it may leave. *)
Definition fails_within (d d' : device) (c : gmap Z (list byte)) : Prop :=
  exists h, d_hist d' = d_hist d ++ h /\ crash_disk (d_disk d) h c.

Inductive machine_step : machine -> label -> machine -> Prop :=
  | MUp w l w' : up_step w l w' -> machine_step (Up w) l (Up w')
  | MFail w l w' c : up_step w l w' -> fails_within (j_device (w_j w)) (j_device (w_j w')) c ->
      machine_step (Up w) (torn l) (Down (reopen (j_device (w_j w)) c))
  | MOpen d d' j : open_journal true JOURNAL_INO 0 read_inode true needs d = (Ok (Some j), d') ->
      machine_step (Down d) Internal (Up (World j []))
  | MOpenFail d d' j c : open_journal true JOURNAL_INO 0 read_inode true needs d = (Ok (Some j), d') ->
      fails_within d d' c -> machine_step (Down d) Internal (Down (reopen d c)).

Inductive machine_run : machine -> list label -> machine -> Prop :=
  | RunNil m : machine_run m [] m
  | RunCons m l m1 ls m' : machine_step m l m1 -> machine_run m1 ls m' -> machine_run m (l :: ls) m'.
End Machine.

(** ** The store *)

Definition store : Type := Z -> option (list byte).

Definition untouched (ws : list event) (b : Z) : Prop := forall data, EvWrite b data ∉ ws.

(** The effect of a commit on the blocks it does not revoke or write as data. *)
Definition store_commit (map : list Z) (s : store) (txn : Transaction) (ws : list event) (s' : store) : Prop :=
  forall b, b ∉ map -> untouched ws b -> b ∉ revoked txn -> s' b = or_else (buffer_bytes txn b) (s b).

Definition store_same (map : list Z) (ws : list event) (s s' : store) : Prop :=
  forall b, b ∉ map -> untouched ws b -> s' b = s b.

Definition store_step (map : list Z) (s : store) (l : label) (s' : store) : Prop :=
  match l with
  | Internal => store_same map [] s s'
  | CommitOf txn ws => store_commit map s txn ws s'
  | TornCommit txn ws => store_same map ws s s' \/ store_commit map s txn ws s'
  end.

Inductive store_run (map : list Z) : store -> list label -> store -> Prop :=
  | StoreNil s : store_run map s [] s
  | StoreCons s l s1 ls s' : store_step map s l s1 -> store_run map s1 ls s' -> store_run map s (l :: ls) s'.

(** The number of transaction ids a label uses. *)
Definition cost (l : label) : Z := match l with Internal => 0 | _ => 1 end.
Definition costs (ls : list label) : Z := foldr (fun l n => cost l + n) 0 ls.

(** ** The refinement relation *)

Definition up_holds (map : list Z) (lo N : Z) (s : store) (j : Journal) : Prop :=
  exists n xs, coupled (geometry j) lo n xs j /\ block_map (geometry j) = map /\ n + zlen xs <= N /\
    forall b, b ∉ map -> contents (d_disk (j_device j)) xs b = s b.

Definition down_holds (map : list Z) (lo N : Z) (s : store) (d : device) : Prop :=
  exists g t n xs, recoverable g lo d t n xs /\ block_map g = map /\ n + zlen xs <= N /\
    forall b, b ∉ map -> contents (d_disk d) xs b = s b.

Definition refines (map : list Z) (lo N : Z) (s : store) (m : machine) : Prop :=
  match m with Up w => up_holds map lo N s (w_j w) | Down d => down_holds map lo N s d end.

(** ** Lemmas: each step refines *)

Lemma same_nil (map : list Z) (s s' : store) : (forall b, b ∉ map -> s' b = s b) -> store_same map [] s s'.
Proof. intros H b Hb _. by apply H. Qed.

Lemma refines_ext map lo N s s' m : (forall b, b ∉ map -> s' b = s b) -> refines map lo N s m -> refines map lo N s' m.
Proof.
  intros E. destruct m as [w|d]; cbn [refines].
  - intros (n & xs & H1 & H2 & H3 & H4). exists n, xs. split_and!; [done..|]. intros b Hb. rewrite E by done. by apply H4.
  - intros (g & t & n & xs & H1 & H2 & H3 & H4). exists g, t, n, xs. split_and!; [done..|]. intros b Hb. rewrite E by done. by apply H4.
Qed.

(** A failure with the log in order: the disk is recoverable as it is. *)
Lemma up_down map lo N s j c : up_holds map lo N s j -> c = d_disk (j_device j) -> down_holds map lo N s (reopen (j_device j) c).
Proof.
  intros (n & xs & Hco & Hm & HN & Hb) ->. pose proof (jc_log _ _ _ _ _ Hco) as Hi.
  exists (geometry j), (tail_block (state j)), n, xs. split_and!; [|done..].
  eapply recoverable_same; [by apply log_inv_recoverable|]. split; [done|apply Hi].
Qed.

Lemma fails_hist d d' evs c : d_hist d' = d_hist d ++ evs -> fails_within d d' c -> crash_disk (d_disk d) evs c.
Proof. intros E (h & Eh & Hc). rewrite E in Eh. by apply app_inv_head in Eh as ->. Qed.

Lemma contents_off (map : list Z) disk p blk xs b : p ∈ map -> b ∉ map -> contents (<[p := blk]> disk) xs b = contents disk xs b.
Proof. intros Hp Hb. unfold contents. by rewrite lookup_insert_ne by (by intros ->). Qed.

Lemma operation_holds map lo N s w w' :
  world_step w w' -> up_holds map lo N s (w_j w) ->
  up_holds map lo N s (w_j w') /\
  forall c, fails_within (j_device (w_j w)) (j_device (w_j w')) c -> down_holds map lo N s (reopen (j_device (w_j w)) c).
Proof.
  intros Hst Hup. pose proof Hup as (n & xs & Hco & <- & HN & Hb). pose proof (jc_log _ _ _ _ _ Hco) as Hi.
  apply world_step_part in Hst as [E|E].
  - assert (geometry (w_j w') = geometry (w_j w)) as Eg by (unfold log_part in E; congruence).
    assert (j_device (w_j w') = j_device (w_j w)) as Ed by (unfold log_part in E; congruence). split.
    + exists n, xs. rewrite Eg, Ed. split_and!; [by eapply coupled_part|done..].
    + intros c Hf. eapply (fails_hist _ _ []) in Hf; [|by rewrite Ed, app_nil_r]. apply crash_nothing in Hf. by apply up_down.
  - destruct (abort_coupled _ lo n xs (w_j w) Hco) as (sbp & blk & Hin & Ed & Hco'). rewrite <- E in *.
    pose proof (jc_geo _ _ _ _ _ Hco') as Eg.
    assert (up_holds (block_map (geometry (w_j w))) lo N s (w_j w')) as Hup'.
    { exists n, xs. rewrite Eg. split_and!; [done..|]. intros b Hnb. rewrite Ed. cbn [d_disk write_events apply_events fold_left apply_event].
      rewrite (contents_off (block_map (geometry (w_j w)))) by done. by apply Hb. }
    split; [done|]. intros c Hf. eapply (fails_hist _ _ [EvWrite sbp blk; EvFlush]) in Hf; [|by rewrite Ed].
    apply crash_single in Hf as [-> | ->]; [by apply up_down|].
    destruct (up_down _ lo N s (w_j w') _ Hup' eq_refl) as (g & t & m & ys & Hr & Hrest). exists g, t, m, ys.
    split; [|by rewrite Ed in Hrest]. eapply recoverable_same; [exact Hr|]. rewrite Ed. split; [done|apply Hi].
Qed.

Lemma checkpoint_holds map lo N s target r j j' :
  checkpoint_advance target j = (r, j') -> up_holds map lo N s j ->
  up_holds map lo N s j' /\
  forall c, fails_within (j_device j) (j_device j') c -> down_holds map lo N s (reopen (j_device j) c).
Proof.
  intros E Hup. pose proof Hup as (n & xs & Hco & <- & HN & Hb). pose proof (jc_log _ _ _ _ _ Hco) as Hi.
  destruct (checkpoint_cases _ lo n xs j target Hco) as [E'|(p & ys & zs & sbp & blk & Et & -> & _ & _ & Hin & E' & Hco')];
    rewrite E in E'; injection E' as -> ->.
  { split; [done|]. intros c Hf. eapply (fails_hist _ _ []) in Hf; [|by rewrite app_nil_r]. apply crash_nothing in Hf. by apply up_down. }
  rewrite Et in Hi. rewrite zlen_app in HN. split.
  - exists (n + zlen ys), zs. split_and!; [exact Hco'|done|lia|]. intros b Hnb. rewrite <- Hb by done. by eapply checkpointed_contents; [apply Hi|..].
  - intros c Hf. eapply (fails_hist _ _ (checkpoint_events (table_of table_new n (ys ++ zs)) n ys sbp blk)) in Hf; [|done].
    destruct (checkpoint_crash _ lo n p ys zs sbp blk j c Hco Et Hin Hco' Hf) as (t & m & ys' & Hr & Hmn & Hc).
    exists (geometry j), t, m, ys'. split_and!; [exact Hr|done|rewrite zlen_app in Hmn; lia|]. intros b Hnb. rewrite <- Hb by done. by apply Hc.
Qed.

Section CommitHolds.
Context (flush_range : Z -> Z -> M device unit) (now : Z * Z) (lo N : Z) (s : store) (j j' : Journal) (txn : Transaction) (ws : list event).
Context (Hnow1 : fits 64 now.1) (Hnow2 : fits 32 now.2) (Hst : stageable j txn) (Hfl : flushes_data (geometry j) flush_range).
Context (Hws : flush_ordered flush_range txn (j_device j) = (Ok tt, write_events ws (j_device j))).
Context (HE : try_commit_transaction flush_range now txn j = (Ok (Committed (tid txn)), j')).
Context (n : Z) (xs : list logged) (Hco : coupled (geometry j) lo n xs j) (HN : n + zlen xs <= N) (Hlo : N + 2 < lo + 2 ^ 32).
Context (Hb : forall b, b ∉ block_map (geometry j) -> contents (d_disk (j_device j)) xs b = s b).
Notation g := (geometry j).

Lemma holds_ready : commit_ready g lo (tail_block (state j)) n xs j txn.
Proof.
  destruct Hst as (H1 & H2 & H3 & H4), Hco as [_ Hi Hh Ht Hc _]. constructor; try done; [|lia].
  rewrite H2, Hc, next_u32. f_equal. lia.
Qed.

Lemma holds_room :
  log_footprint g (nr_metadata_blocks txn) (nr_revoke_blocks txn (tag_layout g)) <= free_log_blocks g (head (state j)) (tail_block (state j)).
Proof.
  destruct (Z.le_gt_cases (log_footprint g (nr_metadata_blocks txn) (nr_revoke_blocks txn (tag_layout g)))
    (free_log_blocks g (head (state j)) (tail_block (state j)))) as [?|Hlt]; [done|].
  pose proof (commit_refused flush_range now g lo _ n xs j txn Hnow1 Hnow2 holds_ready Hlt) as E. rewrite HE in E. by destruct (fitsb _ _).
Qed.

(** What is known of the commit. *)
Lemma holds_run : exists x pub, logged_as g txn x /\ off_journal g ws /\
  j_device j' = write_events (commit_events g (head (state j)) x ws pub) (j_device j) /\
  match tail_block (state j) with Some _ => pub = [] | None => exists p blk, p ∈ block_map g /\ pub = [EvWrite p blk; EvFlush] end /\
  coupled g lo n (xs ++ [x]) j' /\ tail_block (state j') = Some (new_tail (tail_block (state j)) (head (state j))) /\ geometry j' = g.
Proof.
  pose proof holds_ready as Hr.
  destruct (commit_run flush_range now Hnow1 Hnow2 g lo _ n xs j txn Hr Hfl holds_room)
    as (x & devs & pub & k & Hx & Ho & Hdv & E & Ed & Hpub & Hi & Hh & Ht & Hc & Hrv & Htt & Eg).
  rewrite HE in E. injection E as <-. assert (devs = ws) as ->.
  { rewrite Hws in Hdv. injection Hdv as _ Ev. by apply app_inv_head in Ev. }
  exists x, pub. split_and!; try done. constructor; [done|by rewrite Ht|by rewrite Ht| | |].
  - rewrite Htt. case_bool_decide as Hn; [|apply Hco]. rewrite (cr_tid _ _ _ _ _ _ _ Hr).
    pose proof (li_tail _ _ _ _ _ _ (proj1 (jc_log _ _ _ _ _ Hco))) as Hx0. rewrite Hn in Hx0. cbn in Hx0. subst xs. by rewrite zlen_nil, Z.add_0_r.
  - rewrite Hc, (cr_tid _ _ _ _ _ _ _ Hr), zlen_app, zlen_cons, zlen_nil. f_equal. lia.
  - rewrite Hrv, (jc_revoked _ _ _ _ _ Hco), table_of_app, (cr_tid _ _ _ _ _ _ _ Hr). done.
Qed.

(** The new log over a disk that differs in the journal and the data only. *)
Lemma holds_meaning x (disk : gmap Z (list byte)) :
  logged_as g txn x -> (forall b, b ∉ block_map g -> untouched ws b -> disk !! b = d_disk (j_device j) !! b) ->
  store_commit (block_map g) s txn ws (contents disk (xs ++ [x])).
Proof.
  intros Hx Hd b Hnb Hu Hrv. rewrite (logged_contents g txn x disk xs b Hx). unfold committed_contents. rewrite decide_False by done.
  f_equal. rewrite <- Hb by done. unfold contents. by rewrite Hd.
Qed.

Lemma commit_holds :
  exists s', store_commit (block_map g) s txn ws s' /\ up_holds (block_map g) lo (N + 1) s' j' /\
    forall c, fails_within (j_device j) (j_device j') c ->
      exists s'', (store_same (block_map g) ws s s'' \/ store_commit (block_map g) s txn ws s'') /\
        down_holds (block_map g) lo (N + 1) s'' (reopen (j_device j) c).
Proof.
  pose proof holds_ready as Hr. destruct holds_run as (x & pub & Hx & Ho & Ed & Hpub & Hco' & Et' & Eg).
  assert (zlen (xs ++ [x]) = zlen xs + 1) as El by (rewrite zlen_app, zlen_cons, zlen_nil; lia).
  assert (Hframe : forall c b, crash_disk (d_disk (j_device j)) (commit_events g (head (state j)) x ws pub) c ->
    b ∉ block_map g -> untouched ws b -> c !! b = d_disk (j_device j) !! b)
    by (intros; by eapply (commit_frame g lo _ n xs j txn Hr x ws pub)).
  exists (contents (d_disk (j_device j')) (xs ++ [x])). split_and!.
  - apply holds_meaning; [done|]. intros b Hnb Hu. apply Hframe; [|done|done]. rewrite Ed. apply crash_final.
  - exists n, (xs ++ [x]). rewrite Eg, El. split_and!; [done|done|lia|done].
  - intros c Hf. eapply (fails_hist _ _ (commit_events g (head (state j)) x ws pub)) in Hf; [|by rewrite Ed].
    pose proof (jc_log _ _ _ _ _ Hco') as Hi'.
    destruct (commit_crash g lo _ n xs j txn Hr holds_room x ws pub c Hx Ho Hpub) as (t & ys & Hrec & Hys); [|done|].
    { rewrite <- Ed, <- Et'. exact Hi'. }
    exists (contents c ys). split.
    + destruct Hys as [-> | ->]; [left|right].
      * intros b Hnb Hu. rewrite <- Hb by done. unfold contents. by rewrite Hframe.
      * apply holds_meaning; [done|]. intros b Hnb Hu. by apply Hframe.
    + exists g, t, n, ys. split_and!; [done|done| |done]. destruct Hys as [-> | ->]; lia.
Qed.
End CommitHolds.

Lemma open_holds ri needs map lo N s d j d' :
  (forall g, block_map g = map -> inode_maps ri g) -> down_holds map lo N s d ->
  open_journal true JOURNAL_INO 0 ri true needs d = (Ok (Some j), d') ->
  up_holds map lo N s j /\ forall c, fails_within d d' c -> down_holds map lo N s (reopen d c).
Proof.
  intros Hri (g & t & n & xs & Hr & <- & HN & Hb) E.
  destruct (open_recovers ri needs g lo d t n xs Hr (Hri g eq_refl)) as (k & E' & Hco & Hm & _ & _ & Hblk & h & Ed & Hres).
  rewrite E in E'. injection E' as -> ->. split.
  - exists (n + zlen xs), []. rewrite zlen_nil, Z.add_0_r. split_and!; [done..|]. intros b Hnb. rewrite <- Hb by done. by apply Hblk.
  - intros c Hf. eapply (fails_hist _ _ h) in Hf; [|by rewrite Ed]. destruct (Hres c Hf) as (g' & t' & m & xs' & H1 & H2 & H3 & H4).
    exists g', t', m, xs'. split_and!; [done|done|lia|]. intros b Hnb. rewrite <- Hb by done. by apply H4.
Qed.

Section Refinement.
Context (flush_range : Z -> Z -> M device unit) (read_inode : Z -> result journal_inode) (needs : JournalUpgradeNeeds) (map : list Z) (lo : Z).
Context (Hfl : forall g, block_map g = map -> flushes_data g flush_range) (Hri : forall g, block_map g = map -> inode_maps read_inode g).

Lemma refines_mono N N' s m : N <= N' -> refines map lo N s m -> refines map lo N' s m.
Proof.
  intros HN. destruct m as [w|d]; cbn [refines].
  - intros (n & xs & ? & ? & ? & ?). exists n, xs. split_and!; [done|done|lia|done].
  - intros (g & t & n & xs & ? & ? & ? & ?). exists g, t, n, xs. split_and!; [done|done|lia|done].
Qed.

Lemma up_step_refines N s w l w' :
  up_step flush_range w l w' -> up_holds map lo N s (w_j w) -> N + cost l + 2 < lo + 2 ^ 32 ->
  (exists s', store_step map s l s' /\ up_holds map lo (N + cost l) s' (w_j w')) /\
  forall c, fails_within (j_device (w_j w)) (j_device (w_j w')) c ->
    exists s', store_step map s (torn l) s' /\ down_holds map lo (N + cost l) s' (reopen (j_device (w_j w)) c).
Proof.
  intros Hs Hup HN. destruct Hs as [w w' Hw|j j' hs target r E|j j' hs txn now ws H1 H2 Hst Hws E]; cbn [cost torn w_j] in *.
  - rewrite Z.add_0_r in *. destruct (operation_holds map lo N s w w' Hw Hup) as [Hup' Hd].
    split; [exists s; split; [by apply same_nil|done]|]. intros c Hc. exists s. split; [by apply same_nil|by apply Hd].
  - rewrite Z.add_0_r in *. destruct (checkpoint_holds map lo N s target r j j' E Hup) as [Hup' Hd].
    split; [exists s; split; [by apply same_nil|done]|]. intros c Hc. exists s. split; [by apply same_nil|by apply Hd].
  - destruct Hup as (n & xs & Hco & Hm & Hn & Hb). subst map.
    destruct (commit_holds flush_range now lo N s j j' txn ws H1 H2 Hst (Hfl _ eq_refl) Hws E n xs Hco Hn ltac:(lia) Hb) as (s' & Hs' & Hup' & Hd).
    split; [by exists s'|]. intros c Hc. destruct (Hd c Hc) as (s'' & Hs'' & Hdn). by exists s''.
Qed.

Lemma machine_step_refines N s m l m' :
  machine_step flush_range read_inode needs m l m' -> refines map lo N s m -> N + cost l + 2 < lo + 2 ^ 32 ->
  exists s', store_step map s l s' /\ refines map lo (N + cost l) s' m'.
Proof.
  intros Hs Hr HN. destruct Hs as [w l w' Hu|w l w' c Hu Hf|d d' j E|d d' j c E Hf]; cbn [refines] in *.
  - by apply (up_step_refines N s w l w' Hu Hr HN).
  - assert (cost (torn l) = cost l) as Ec by by destruct l. rewrite Ec in *. by apply (up_step_refines N s w l w' Hu Hr HN).
  - cbn [cost] in *. rewrite Z.add_0_r in *. exists s. split; [by apply same_nil|]. by eapply open_holds.
  - cbn [cost] in *. rewrite Z.add_0_r in *. exists s. split; [by apply same_nil|].
    destruct (open_holds read_inode needs map lo N s d j d' Hri Hr E) as [_ H]. by apply H.
Qed.

Lemma costs_nonneg ls : 0 <= costs ls.
Proof. induction ls as [|l ls IH]; [done|]. cbn. fold (costs ls). destruct l; cbn; lia. Qed.

Lemma machine_run_refines N s m ls m' :
  machine_run flush_range read_inode needs m ls m' -> refines map lo N s m -> N + costs ls + 2 < lo + 2 ^ 32 ->
  exists s', store_run map s ls s' /\ refines map lo (N + costs ls) s' m'.
Proof.
  intros Hrun. revert N s. induction Hrun as [m|m l m1 ls m' Hs _ IH]; intros N s Hr HN.
  - exists s. split; [constructor|]. cbn. by rewrite Z.add_0_r.
  - cbn in HN. fold (costs ls) in HN. pose proof (costs_nonneg ls).
    destruct (machine_step_refines N s m l m1 Hs Hr ltac:(lia)) as (s1 & H1 & Hr1).
    destruct (IH (N + cost l) s1 Hr1 ltac:(lia)) as (s' & H2 & Hr2). exists s'. split; [by econstructor|].
    cbn. fold (costs ls). by replace (N + (cost l + costs ls)) with (N + cost l + costs ls) by lia.
Qed.
End Refinement.

(** ** Theorems *)


(** A commit of the sample journal whose last writes are lost, and the open
    after it. *)
Lemma sample_coupled_clean : coupled sample_geometry 5 5 [] SampleCommit.journal.
Proof. constructor; [done|exact sample_clean|by vm_compute|done|by vm_compute|done]. Qed.

Lemma sample_stageable : stageable SampleCommit.journal SampleCommit.txn.
Proof. destruct sample_ready as [_ _ _ _ Hslot _ Htxn Hhome _]. by split_and!. Qed.

