(* ===== verification/Bitmap.v ===== *)
(** * Block-sized bitmaps of ids

    Models [kernel/src/fs/utils/id_bitmap.rs]: [IdBitmap], the bitmap of
    block or inode ids that a block group keeps in memory and writes to disk
    as it is.  A use out of bounds panics in the code and is [PANIC] here.
    The theorems give the operations their meaning on the set of free ids:
    allocation is a complete first-fit search. *)

From S2P Require Import Prelude JournalFormat Device.

(** ** The code *)

(** Bit [i] of a buffer, in [Lsb0] order. *)
Definition bit (buf : list byte) (i : Z) : bool :=
  match buf !! Z.to_nat (i / 8) with
  | Some b => Z.testbit (byte.unsigned b) (i mod 8)
  | None => false
  end.

Definition set_bit (i : Z) (v : bool) (buf : list byte) : list byte :=
  match buf !! Z.to_nat (i / 8) with
  | Some b =>
      let z := byte.unsigned b in
      <[Z.to_nat (i / 8) := byte.of_Z (if v then Z.setbit z (i mod 8) else Z.clearbit z (i mod 8))]> buf
  | None => buf
  end.

(** The ids of a range [s..e]. *)
Definition zrange (s e : Z) : list Z := map (fun k => s + Z.of_nat k) (seq 0 (Z.to_nat (e - s))).

Definition set_bits (ids : list Z) (v : bool) (buf : list byte) : list byte :=
  fold_left (fun buf i => set_bit i v buf) ids buf.

Record IdBitmap : Type := {
  ib_buf : list byte;
  first_available_id : Z;
  ib_len : Z;
}.

Definition capacity : Z := BLOCK_SIZE * 8.

(** [(i..i + n).find(|&i| !bit_slice[i])] *)
Fixpoint find_free (buf : list byte) (i : Z) (n : nat) : option Z :=
  match n with
  | O => None
  | S n => if bit buf i then find_free buf (i + 1) n else Some i
  end.

Definition next_free (buf : list byte) (i len : Z) : Z :=
  match find_free buf i (Z.to_nat (len - i)) with Some k => k | None => len end.

(** [IdBitmap::from_buf] *)
Definition from_buf (buf : list byte) (len : Z) : result IdBitmap :=
  check len <=? capacity else PANIC in
  Ok {| ib_buf := buf; first_available_id := next_free buf 0 len; ib_len := len |}.

Definition is_allocated (b : IdBitmap) (id : Z) : result bool :=
  check id <? ib_len b else PANIC in Ok (bit (ib_buf b) id).

(** [IdBitmap::alloc] *)
Definition alloc (b : IdBitmap) : option Z * IdBitmap :=
  if first_available_id b <? ib_len b then
    let id := first_available_id b in
    let buf := set_bit id true (ib_buf b) in
    (Some id, {| ib_buf := buf; first_available_id := next_free buf (id + 1) (ib_len b); ib_len := ib_len b |})
  else (None, b).

(** The scan of [alloc_consecutive]: [s..e] is a run of free ids. *)
Fixpoint scan_free (buf : list byte) (len count : Z) (fuel : nat) (s e : Z) : Z * Z :=
  match fuel with
  | O => (s, e)
  | S fuel =>
      if (e - s <? count) && (e <? len) then
        if bit buf e then scan_free buf len count fuel (e + 1) (e + 1)
        else scan_free buf len count fuel s (e + 1)
      else (s, e)
  end.

(** [IdBitmap::alloc_consecutive] *)
Definition alloc_consecutive (b : IdBitmap) (count : Z) : option (Z * Z) * IdBitmap :=
  if count =? 0 then (None, b)
  else
    let first := first_available_id b in
    let last := first + count in
    if (2 ^ 16 <=? last) || (ib_len b <? last) then (None, b)
    else
      let '(s, e) := scan_free (ib_buf b) (ib_len b) count (Z.to_nat (ib_len b - first)) first (first + 1) in
      if e - s <? count then (None, b)
      else
        let buf := set_bits (zrange s e) true (ib_buf b) in
        let first := if bit buf first then next_free buf e (ib_len b) else first in
        (Some (s, e), {| ib_buf := buf; first_available_id := first; ib_len := ib_len b |}).

(** [IdBitmap::free] *)
Definition free (b : IdBitmap) (id : Z) : result IdBitmap :=
  check id <? ib_len b else PANIC in
  Ok {| ib_buf := set_bit id false (ib_buf b);
        first_available_id := if id <? first_available_id b then id else first_available_id b;
        ib_len := ib_len b |}.

(** [IdBitmap::free_consecutive] *)
Definition free_consecutive (b : IdBitmap) (range : Z * Z) : result IdBitmap :=
  let '(s, e) := range in
  if e <=? s then Ok b
  else
    check e <=? ib_len b else PANIC in
    Ok {| ib_buf := set_bits (zrange s e) false (ib_buf b);
          first_available_id := if s <? first_available_id b then s else first_available_id b;
          ib_len := ib_len b |}.

(** ** Invariant *)

(** [first_available_id] is the least free id, or the length. *)
Record bitmap_ok (b : IdBitmap) : Prop := {
  bo_block : is_block (ib_buf b);
  bo_len : 0 <= ib_len b <= capacity;
  bo_first : 0 <= first_available_id b <= ib_len b;
  bo_below : forall i, 0 <= i < first_available_id b -> bit (ib_buf b) i = true;
  bo_free : first_available_id b < ib_len b -> bit (ib_buf b) (first_available_id b) = false;
}.

(** The number of free ids of [s..e]. *)
Definition count_free (buf : list byte) (s e : Z) : Z :=
  zlen (filter (fun i => bit buf i = false) (zrange s e)).

(** A run of ids that are all free. *)
Definition free_run (b : IdBitmap) (s e : Z) : Prop :=
  0 <= s /\ e <= ib_len b /\ forall i, s <= i < e -> bit (ib_buf b) i = false.

(** ** Lemmas: bits *)

Lemma byte_of_testbit z n : 0 <= n < 8 -> Z.testbit (byte.unsigned (byte.of_Z z)) n = Z.testbit z n.
Proof. intros. rewrite byte.unsigned_of_Z. unfold byte.wrap. by rewrite Z.mod_pow2_bits_low by lia. Qed.

Lemma length_set_bit i v buf : length (set_bit i v buf) = length buf.
Proof. unfold set_bit. case_match; [apply length_insert|done]. Qed.

Lemma length_set_bits ids v buf : length (set_bits ids v buf) = length buf.
Proof.
  revert buf. induction ids as [|i ids IH]; intros; [done|]. simpl. by rewrite IH, length_set_bit.
Qed.

Lemma bit_set_bit buf i v j :
  0 <= i < 8 * zlen buf -> 0 <= j -> bit (set_bit i v buf) j = if decide (j = i) then v else bit buf j.
Proof.
  intros Hi Hj. unfold set_bit, bit, zlen in *. pose proof (Z.mod_pos_bound i 8). pose proof (Z.mod_pos_bound j 8).
  assert (Z.to_nat (i / 8) < length buf)%nat as Hl by (Z.to_euclidean_division_equations; lia).
  destruct (buf !! Z.to_nat (i / 8)) as [b|] eqn:E; [|apply lookup_ge_None in E; lia].
  destruct (decide (i / 8 = j / 8)) as [Ed|Ed].
  - rewrite <- Ed, list_lookup_insert_eq by done. rewrite byte_of_testbit by lia. case_decide as Hji.
    + subst j. destruct v; [apply Z.setbit_eq|apply Z.clearbit_eq]; lia.
    + rewrite E. destruct v; [apply Z.setbit_neq|apply Z.clearbit_neq]; Z.to_euclidean_division_equations; lia.
  - rewrite list_lookup_insert_ne by (Z.to_euclidean_division_equations; lia). rewrite decide_False; [done|]. by intros ->.
Qed.

Lemma elem_of_zrange s e i : i ∈ zrange s e <-> s <= i < e.
Proof.
  unfold zrange. rewrite list_elem_of_In, in_map_iff. setoid_rewrite in_seq. split; [intros (k & <- & ?); lia|].
  intros. exists (Z.to_nat (i - s)). lia.
Qed.

Lemma bit_set_bits ids v buf j :
  Forall (fun i => 0 <= i < 8 * zlen buf) ids -> 0 <= j ->
  bit (set_bits ids v buf) j = if decide (j ∈ ids) then v else bit buf j.
Proof.
  revert buf. induction ids as [|i ids IH]; intros buf Hi Hj; simpl; [done|].
  apply Forall_cons in Hi as [Hi Hids].
  rewrite IH; [|unfold zlen in *; by rewrite length_set_bit|done]. rewrite bit_set_bit by done.
  destruct (decide (j ∈ ids)), (decide (j = i)), (decide (j ∈ i :: ids)); set_solver.
Qed.

Lemma bit_set_range buf s e v j :
  is_block buf -> 0 <= s -> e <= capacity -> 0 <= j ->
  bit (set_bits (zrange s e) v buf) j = if decide (s <= j < e) then v else bit buf j.
Proof.
  intros Hb Hs He Hj. unfold is_block, capacity in *. rewrite bit_set_bits; [|apply Forall_forall; intros i Hi|done].
  - destruct (decide (j ∈ zrange s e)) as [H|H]; rewrite elem_of_zrange in H; [by rewrite decide_True|by rewrite decide_False].
  - apply elem_of_zrange in Hi. lia.
Qed.

(** ** Lemmas: searches *)

Lemma find_free_spec buf i n :
  match find_free buf i n with
  | Some k => i <= k < i + Z.of_nat n /\ bit buf k = false /\ forall m, i <= m < k -> bit buf m = true
  | None => forall m, i <= m < i + Z.of_nat n -> bit buf m = true
  end.
Proof.
  revert i. induction n as [|n IH]; intros i; cbn [find_free]; [intros; lia|]. destruct (bit buf i) eqn:E.
  - specialize (IH (i + 1)). destruct (find_free buf (i + 1) n) as [k|].
    + destruct IH as (H1 & H2 & H3). split_and!; [lia|lia|done|]. intros m Hm. destruct (decide (m = i)) as [->|]; [done|apply H3; lia].
    + intros m Hm. destruct (decide (m = i)) as [->|]; [done|apply IH; lia].
  - split_and!; [lia|lia|done|]. intros; lia.
Qed.

Lemma next_free_spec buf i len :
  i <= len ->
  i <= next_free buf i len <= len /\ (forall m, i <= m < next_free buf i len -> bit buf m = true) /\
  (next_free buf i len < len -> bit buf (next_free buf i len) = false).
Proof.
  intros Hi. unfold next_free. pose proof (find_free_spec buf i (Z.to_nat (len - i))) as H.
  destruct (find_free _ _ _) as [k|]; [destruct H as (H1 & H2 & H3)|]; split_and!; try done; try lia.
  intros m Hm. apply H. lia.
Qed.

(** Every run of [count] free ids starts at or after the scan's result. *)
Definition no_run_before (buf : list byte) (len count s : Z) : Prop :=
  forall t, 0 <= t < s -> t + count <= len -> exists i, t <= i < t + count /\ bit buf i = true.

Lemma scan_free_spec buf len count fuel s e :
  0 <= s <= e -> e <= len -> 1 <= count -> e - s <= count -> Z.of_nat fuel >= len - e ->
  (forall i, s <= i < e -> bit buf i = false) -> no_run_before buf len count s ->
  let r := scan_free buf len count fuel s e in
  0 <= r.1 <= r.2 /\ r.2 <= len /\ r.2 - r.1 <= count /\ (forall i, r.1 <= i < r.2 -> bit buf i = false) /\
  no_run_before buf len count r.1 /\ (r.2 - r.1 = count \/ r.2 = len).
Proof.
  revert s e. induction fuel as [|fuel IH]; intros s e Hs He Hc Hle Hf Hfree Hno; cbn [scan_free].
  - cbn. split_and!; try done; lia.
  - destruct (Z.ltb_spec (e - s) count) as [Hlt|]; [|cbn; split_and!; try done; lia].
    destruct (Z.ltb_spec e len); [|cbn; split_and!; try done; lia]. cbn [andb]. destruct (bit buf e) eqn:E.
    + apply IH; try lia. intros t Ht Hlen. destruct (decide (t < s)); [by apply Hno; lia|]. exists e. split; [lia|done].
    + apply IH; try lia; [|done]. intros i Hi. destruct (decide (i = e)) as [->|]; [done|apply Hfree; lia].
Qed.

(** ** Lemmas: the invariant *)

Lemma is_block_set_bits ids v buf : is_block buf -> is_block (set_bits ids v buf).
Proof. unfold is_block, zlen. by rewrite length_set_bits. Qed.

Lemma from_buf_ok buf len :
  is_block buf -> 0 <= len <= capacity ->
  exists b, from_buf buf len = Ok b /\ bitmap_ok b /\ ib_buf b = buf /\ ib_len b = len.
Proof.
  intros Hb Hl. unfold from_buf. rewrite (proj2 (Z.leb_le _ _)) by lia. eexists. split; [done|].
  destruct (next_free_spec buf 0 len) as (H1 & H2 & H3); [lia|]. by split_and!.
Qed.

Lemma no_run_start b count : bitmap_ok b -> 1 <= count -> no_run_before (ib_buf b) (ib_len b) count (first_available_id b).
Proof. intros Hb Hc t Ht _. exists t. split; [lia|]. by apply bo_below. Qed.

(** The state of the scan when it ends. *)
Lemma alloc_scan b count :
  bitmap_ok b -> 1 <= count -> first_available_id b + count <= ib_len b ->
  let r := scan_free (ib_buf b) (ib_len b) count (Z.to_nat (ib_len b - first_available_id b))
             (first_available_id b) (first_available_id b + 1) in
  free_run b r.1 r.2 /\ 0 <= r.1 <= r.2 /\ r.2 - r.1 <= count /\ no_run_before (ib_buf b) (ib_len b) count r.1 /\
  (r.2 - r.1 = count \/ r.2 = ib_len b).
Proof.
  intros Hb Hc Hl. pose proof Hb as [Hblk Hlen Hfst Hbelow Hfree]. simpl.
  destruct (scan_free_spec (ib_buf b) (ib_len b) count (Z.to_nat (ib_len b - first_available_id b))
    (first_available_id b) (first_available_id b + 1)) as (H1 & H2 & H3 & H4 & H5 & H6); try lia.
  - intros i Hi. replace i with (first_available_id b) by lia. apply Hfree. lia.
  - by apply no_run_start.
  - unfold free_run. split_and!; try done; lia.
Qed.

(** Allocating a free run that no earlier run precedes keeps the invariant. *)
Lemma bitmap_ok_alloc b s e :
  bitmap_ok b -> free_run b s e -> s < e -> no_run_before (ib_buf b) (ib_len b) (e - s) s ->
  let buf := set_bits (zrange s e) true (ib_buf b) in
  bitmap_ok {| ib_buf := buf; ib_len := ib_len b;
    first_available_id := if bit buf (first_available_id b) then next_free buf e (ib_len b) else first_available_id b |}.
Proof.
  intros [Hblk Hlen Hfst Hbelow Hfree] (Hs & He & Hrun) Hse Hno buf.
  assert (Hbit : forall j, 0 <= j -> bit buf j = if decide (s <= j < e) then true else bit (ib_buf b) j)
    by (intros; apply bit_set_range; done || lia).
  destruct (next_free_spec buf e (ib_len b) He) as (N1 & N2 & N3).
  assert (Hfs : first_available_id b <= s).
  { destruct (decide (s < first_available_id b)); [|lia]. specialize (Hbelow s). rewrite Hrun in Hbelow by lia. by ospecialize (Hbelow _); [lia|]. }
  rewrite Hbit by lia. case_decide as Hin.
  - assert (first_available_id b = s) by lia.
    constructor; cbn [ib_buf ib_len first_available_id]; [by apply is_block_set_bits|done|lia| |done].
    intros i Hi. destruct (decide (i < e)); [|apply N2; lia]. rewrite Hbit by lia.
    case_decide; [done|]. apply Hbelow. lia.
  - assert (Hff : bit (ib_buf b) (first_available_id b) = false) by (apply Hfree; lia). rewrite Hff.
    constructor; cbn [ib_buf ib_len first_available_id]; [by apply is_block_set_bits|done|done| |].
    + intros i Hi. rewrite Hbit by lia. rewrite decide_False by lia. by apply Hbelow.
    + intros _. rewrite Hbit by lia. by rewrite decide_False by lia.
Qed.

Lemma alloc_consecutive_ok b count r b' :
  bitmap_ok b -> 0 <= count -> alloc_consecutive b count = (Some r, b') ->
  bitmap_ok b' /\ ib_len b' = ib_len b /\ r.2 - r.1 = count /\ 0 < count /\ free_run b r.1 r.2 /\
  no_run_before (ib_buf b) (ib_len b) count r.1 /\ ib_buf b' = set_bits (zrange r.1 r.2) true (ib_buf b).
Proof.
  intros Hb Hc H. unfold alloc_consecutive in H. destruct (Z.eqb_spec count 0); [done|].
  destruct (Z.leb_spec (2 ^ 16) (first_available_id b + count)); [done|].
  destruct (Z.ltb_spec (ib_len b) (first_available_id b + count)); [done|]. cbn [orb] in H.
  destruct (alloc_scan b count Hb) as (S1 & S2 & S3 & S4 & _); [lia|lia|].
  destruct (scan_free _ _ _ _ _ _) as [s e]. cbn [fst snd] in *.
  destruct (Z.ltb_spec (e - s) count); [done|]. injection H as <- <-. assert (e - s = count) by lia. subst count.
  cbn [fst snd ib_buf ib_len]. split_and!; try done; try lia. by apply bitmap_ok_alloc; try lia.
Qed.

Lemma alloc_consecutive_none b count b' :
  bitmap_ok b -> 0 <= count -> alloc_consecutive b count = (None, b') ->
  b' = b /\ (count = 0 \/ forall s, ~ free_run b s (s + count)).
Proof.
  intros Hb Hc H. unfold alloc_consecutive in H. destruct (Z.eqb_spec count 0); [injection H as <-; auto|].
  assert (Hfar : ib_len b < first_available_id b + count -> forall s, ~ free_run b s (s + count)).
  { intros Hl s (Hs & He & Hrun). assert (s < first_available_id b) by lia.
    pose proof (bo_below b Hb s ltac:(lia)) as Ht. rewrite Hrun in Ht by lia. done. }
  pose proof (bo_len b Hb) as Hlen. unfold capacity, BLOCK_SIZE in Hlen.
  destruct (Z.leb_spec (2 ^ 16) (first_available_id b + count)); [injection H as <-; split; [done|right; apply Hfar; lia]|].
  destruct (Z.ltb_spec (ib_len b) (first_available_id b + count)); [injection H as <-; auto|]. cbn [orb] in H.
  destruct (alloc_scan b count Hb) as (S1 & S2 & S3 & S4 & S5); [lia|lia|].
  destruct (scan_free _ _ _ _ _ _) as [s e]. cbn [fst snd] in *.
  destruct (Z.ltb_spec (e - s) count); [|done]. injection H as <-. split; [done|right]. intros t (Ht & Hte & Hrun).
  destruct (decide (t < s)); [|lia]. destruct (S4 t) as (i & Hi & Hbit); [lia|lia|]. by rewrite Hrun in Hbit by lia.
Qed.

(** Freeing ids below the length keeps the invariant. *)
Lemma bitmap_ok_free b s e :
  bitmap_ok b -> 0 <= s -> s < e -> e <= ib_len b ->
  bitmap_ok {| ib_buf := set_bits (zrange s e) false (ib_buf b); ib_len := ib_len b;
    first_available_id := if s <? first_available_id b then s else first_available_id b |}.
Proof.
  intros [Hblk Hlen Hfst Hbelow Hfree] Hs Hse He.
  assert (Hbit : forall j, 0 <= j -> bit (set_bits (zrange s e) false (ib_buf b)) j =
    if decide (s <= j < e) then false else bit (ib_buf b) j) by (intros; apply bit_set_range; done || lia).
  constructor; cbn [ib_buf ib_len first_available_id]; [by apply is_block_set_bits|done| | |].
  - destruct (Z.ltb_spec s (first_available_id b)); lia.
  - intros i Hi. rewrite Hbit by lia. destruct (Z.ltb_spec s (first_available_id b)).
    + rewrite decide_False by lia. apply Hbelow. lia.
    + rewrite decide_False by lia. by apply Hbelow.
  - intros Hf. destruct (Z.ltb_spec s (first_available_id b)); rewrite Hbit by lia; [by rewrite decide_True by lia|].
    case_decide; [done|]. by apply Hfree.
Qed.

Lemma free_consecutive_ok b s e :
  bitmap_ok b -> 0 <= s -> e <= ib_len b ->
  exists b', free_consecutive b (s, e) = Ok b' /\ bitmap_ok b' /\ ib_len b' = ib_len b /\
    forall j, 0 <= j -> bit (ib_buf b') j = if decide (s <= j < e) then false else bit (ib_buf b) j.
Proof.
  intros Hb Hs He. unfold free_consecutive. destruct (Z.leb_spec e s).
  - exists b. split_and!; try done. intros j Hj. by rewrite decide_False by lia.
  - rewrite (proj2 (Z.leb_le _ _)) by done. eexists. split; [done|]. split_and!; [by apply bitmap_ok_free|done|].
    intros j Hj. cbn [ib_buf]. pose proof (bo_len b Hb). apply bit_set_range; [apply Hb|done|lia|done].
Qed.

Lemma zrange_single i : zrange i (i + 1) = [i].
Proof. unfold zrange. replace (Z.to_nat (i + 1 - i)) with 1%nat by lia. simpl. f_equal. lia. Qed.

Lemma free_ok b i :
  bitmap_ok b -> 0 <= i < ib_len b ->
  exists b', free b i = Ok b' /\ bitmap_ok b' /\ ib_len b' = ib_len b /\
    forall j, 0 <= j -> bit (ib_buf b') j = if decide (j = i) then false else bit (ib_buf b) j.
Proof.
  intros Hb Hi. destruct (free_consecutive_ok b i (i + 1) Hb) as (b' & E & Hb' & El & Hj); [lia|lia|].
  exists b'. unfold free_consecutive in E. unfold free. rewrite (proj2 (Z.leb_gt _ _)) in E by lia.
  rewrite (proj2 (Z.leb_le (i + 1) _)), zrange_single in E by lia. rewrite (proj2 (Z.ltb_lt _ _)) by lia.
  split; [done|]. split_and!; try done. intros j Hj0. rewrite Hj by done.
  destruct (decide (i <= j < i + 1)), (decide (j = i)); done || lia.
Qed.

(** Allocating one id is allocating a run of one. *)
Lemma alloc_is_consecutive b : bitmap_ok b ->
  alloc b = (fst <$> (alloc_consecutive b 1).1, (alloc_consecutive b 1).2).
Proof.
  intros [Hblk Hlen Hfst Hbelow Hfree]. unfold alloc, alloc_consecutive. cbn [Z.eqb].
  unfold capacity, BLOCK_SIZE in Hlen. rewrite (proj2 (Z.leb_gt _ _)) by lia. cbn [orb].
  destruct (Z.ltb_spec (first_available_id b) (ib_len b)).
  - rewrite (proj2 (Z.ltb_ge _ _)) by lia. destruct (Z.to_nat (ib_len b - first_available_id b)) eqn:E; [lia|]. cbn [scan_free].
    rewrite (proj2 (Z.ltb_ge _ 1)) by lia. cbn [andb]. rewrite (proj2 (Z.ltb_ge _ 1)) by lia. rewrite zrange_single. cbn [set_bits fold_left fst snd fmap option_fmap option_map].
    rewrite bit_set_bit by (unfold is_block, BLOCK_SIZE in *; lia). by rewrite decide_True.
  - by rewrite (proj2 (Z.ltb_lt _ _)) by lia.
Qed.

(** ** Lemmas: counting free ids *)

Lemma filter_ext_in {A} (P Q : A -> Prop) `{!forall x, Decision (P x)} `{!forall x, Decision (Q x)} (l : list A) :
  (forall x, x ∈ l -> P x <-> Q x) -> filter P l = filter Q l.
Proof.
  induction l as [|x l IH]; intros Hl; [done|]. rewrite !filter_cons, IH by (intros; apply Hl; set_solver).
  pose proof (Hl x ltac:(set_solver)). repeat case_decide; tauto.
Qed.

Lemma filter_all {A} (P : A -> Prop) `{!forall x, Decision (P x)} (l : list A) : (forall x, x ∈ l -> P x) -> filter P l = l.
Proof.
  induction l as [|x l IH]; intros Hl; [done|]. rewrite filter_cons, IH by (intros; apply Hl; set_solver).
  rewrite decide_True; [done|]. apply Hl. set_solver.
Qed.

Lemma filter_none {A} (P : A -> Prop) `{!forall x, Decision (P x)} (l : list A) : (forall x, x ∈ l -> ~ P x) -> filter P l = [].
Proof.
  induction l as [|x l IH]; intros Hl; [done|]. rewrite filter_cons, IH by (intros; apply Hl; set_solver).
  rewrite decide_False; [done|]. apply Hl. set_solver.
Qed.

Lemma zrange_app s m e : s <= m <= e -> zrange s e = zrange s m ++ zrange m e.
Proof.
  intros H. unfold zrange. replace (Z.to_nat (e - s)) with (Z.to_nat (m - s) + Z.to_nat (e - m))%nat by lia.
  rewrite seq_app, map_app. f_equal. rewrite Nat.add_0_l, <- (Nat.add_0_r (Z.to_nat (m - s))), <- fmap_add_seq.
  change (fmap ?f ?l) with (map f l). rewrite map_map. apply map_ext. intros k. lia.
Qed.

Lemma zlen_zrange s e : s <= e -> zlen (zrange s e) = e - s.
Proof. intros. unfold zrange. rewrite zlen_map. unfold zlen. rewrite length_seq. lia. Qed.

Lemma count_free_app buf s m e : s <= m <= e -> count_free buf s e = count_free buf s m + count_free buf m e.
Proof. intros. unfold count_free. rewrite (zrange_app s m e) by done. by rewrite filter_app, zlen_app. Qed.

Lemma count_free_ext buf buf' s e :
  (forall i, s <= i < e -> bit buf i = bit buf' i) -> count_free buf s e = count_free buf' s e.
Proof.
  intros H. unfold count_free. f_equal. apply filter_ext_in. intros i Hi%elem_of_zrange. by rewrite H.
Qed.

Lemma count_free_all buf s e : s <= e -> (forall i, s <= i < e -> bit buf i = false) -> count_free buf s e = e - s.
Proof.
  intros Hse H. unfold count_free. rewrite filter_all; [by apply zlen_zrange|].
  intros i Hi%elem_of_zrange. by apply H.
Qed.

Lemma count_free_none buf s e : (forall i, s <= i < e -> bit buf i = true) -> count_free buf s e = 0.
Proof.
  intros H. unfold count_free. rewrite filter_none; [done|].
  intros i Hi%elem_of_zrange. by rewrite H.
Qed.

Lemma count_free_bounds buf s e : s <= e -> 0 <= count_free buf s e <= e - s.
Proof.
  intros H. unfold count_free. split; [apply zlen_nonneg|]. rewrite <- (zlen_zrange s e H). unfold zlen.
  apply inj_le. apply length_filter.
Qed.

(** The free ids of a bitmap. *)
Definition free_ids (b : IdBitmap) : Z := count_free (ib_buf b) 0 (ib_len b).

(** Changing the ids of a run from one state to the other. *)
Lemma count_free_range buf buf' s e len :
  0 <= s <= e -> e <= len -> (forall i, 0 <= i < s \/ e <= i < len -> bit buf' i = bit buf i) ->
  count_free buf' 0 len - count_free buf 0 len = count_free buf' s e - count_free buf s e.
Proof.
  intros Hs He H. rewrite !(count_free_app _ 0 s len) by lia. rewrite !(count_free_app _ s e len) by lia.
  rewrite (count_free_ext buf' buf 0 s), (count_free_ext buf' buf e len); [lia| |]; intros i Hi; apply H; lia.
Qed.

Lemma alloc_free_ids b s e :
  bitmap_ok b -> free_run b s e -> s <= e -> count_free (set_bits (zrange s e) true (ib_buf b)) 0 (ib_len b) = free_ids b - (e - s).
Proof.
  intros Hb (Hs & He & Hrun) Hse. pose proof (bo_len b Hb) as Hl. unfold free_ids.
  assert (Hbit : forall j, 0 <= j -> bit (set_bits (zrange s e) true (ib_buf b)) j =
    if decide (s <= j < e) then true else bit (ib_buf b) j) by (intros; apply bit_set_range; [apply Hb|done|lia|done]).
  pose proof (count_free_range (ib_buf b) (set_bits (zrange s e) true (ib_buf b)) s e (ib_len b)) as H.
  rewrite (count_free_none _ s e), (count_free_all _ s e) in H; try done.
  - ospecialize (H _ _ _); [lia|done| |lia]. intros i Hi. rewrite Hbit by lia. by rewrite decide_False by lia.
  - intros i Hi. rewrite Hbit by lia. by rewrite decide_True.
Qed.

(** Bitmaps with the same bits are the same. *)
Lemma byte_bits_inj (x y : byte) : (forall n, 0 <= n < 8 -> Z.testbit (byte.unsigned x) n = Z.testbit (byte.unsigned y) n) -> x = y.
Proof.
  intros H. apply byte.unsigned_inj. apply Z.bits_inj'. intros n Hn. destruct (decide (n < 8)); [by apply H|].
  pose proof (byte.unsigned_range x). pose proof (byte.unsigned_range y).
  rewrite <- (Z.mod_small (byte.unsigned x) (2 ^ 8)), <- (Z.mod_small (byte.unsigned y) (2 ^ 8)) by lia.
  by rewrite !Z.mod_pow2_bits_high by lia.
Qed.

Lemma buf_ext x y : zlen x = zlen y -> (forall j, 0 <= j -> bit x j = bit y j) -> x = y.
Proof.
  intros Hl H. unfold zlen in Hl. apply list_eq_same_length with (n := length x); [lia|done|]. intros i u v Hi Hx Hy.
  apply byte_bits_inj. intros n Hn. specialize (H (8 * Z.of_nat i + n) ltac:(lia)). unfold bit in H.
  rewrite (Z.mul_comm 8), Z.div_add_l, Z.div_small, Z.add_0_r, Nat2Z.id, Hx, Hy in H by lia.
  by rewrite Z.add_comm, Z.mod_add, Z.mod_small in H by lia.
Qed.

Lemma bitmap_ext b b' : bitmap_ok b -> bitmap_ok b' -> ib_len b = ib_len b' ->
  (forall j, 0 <= j -> bit (ib_buf b) j = bit (ib_buf b') j) -> b = b'.
Proof.
  intros Hb Hb' Hl H. assert (Ebuf : ib_buf b = ib_buf b').
  { apply buf_ext; [|done]. pose proof (bo_block b Hb). pose proof (bo_block b' Hb'). unfold is_block in *. congruence. }
  assert (first_available_id b = first_available_id b').
  { pose proof (bo_first b Hb). pose proof (bo_first b' Hb').
    destruct (Z.lt_trichotomy (first_available_id b) (first_available_id b')) as [Hlt|[?|Hlt]]; [exfalso|done|exfalso].
    - pose proof (bo_free b Hb ltac:(lia)) as E. rewrite Ebuf, (bo_below b' Hb') in E by lia. done.
    - pose proof (bo_free b' Hb' ltac:(lia)) as E. rewrite <- Ebuf, (bo_below b Hb) in E by lia. done. }
  destruct b, b'. cbn in *. congruence.
Qed.

(** ** Theorems *)

(** Allocation in a bitmap is a complete first-fit search.  If some run of
    [count] ids is free the first such run is returned, exactly its bits are
    set and the number of free ids drops by [count]; if none is, nothing
    changes.  Releasing the run gives back the bits as they were. *)
Theorem alloc_consecutive_first_fit b count :
  bitmap_ok b -> 0 < count ->
  match alloc_consecutive b count with
  | (Some (s, e), b') =>
      e = s + count /\ free_run b s e /\ (forall t, t < s -> ~ free_run b t (t + count)) /\
      bitmap_ok b' /\ free_ids b' = free_ids b - count /\
      (forall j, 0 <= j -> bit (ib_buf b') j = if decide (s <= j < e) then true else bit (ib_buf b) j) /\
      exists b'', free_consecutive b' (s, e) = Ok b'' /\ forall j, 0 <= j -> bit (ib_buf b'') j = bit (ib_buf b) j
  | (None, b') => b' = b /\ forall t, ~ free_run b t (t + count)
  end.
Proof.
  intros Hb Hc. pose proof (bo_len b Hb) as Hl. destruct (alloc_consecutive b count) as [[[s e]|] b'] eqn:E.
  - destruct (alloc_consecutive_ok b count (s, e) b' Hb ltac:(lia) E) as (Hb' & El & Hn & _ & Hrun & Hno & Ebuf).
    cbn [fst snd] in *. pose proof Hrun as (Hs & He & Hf).
    assert (Hbit : forall j, 0 <= j -> bit (ib_buf b') j = if decide (s <= j < e) then true else bit (ib_buf b) j)
      by (intros; rewrite Ebuf; apply bit_set_range; [apply Hb|done|lia|done]).
    split_and!; [lia|done| |done| |done|].
    + intros t Ht (Ht0 & Hte & Hfree). destruct (Hno t) as (i & Hi & Hset); [lia|lia|]. by rewrite Hfree in Hset by lia.
    + unfold free_ids at 1. rewrite El, Ebuf, alloc_free_ids by (done || lia). lia.
    + destruct (free_consecutive_ok b' s e Hb') as (b'' & E' & _ & _ & Hb''); [lia|by rewrite El|]. exists b''. split; [done|].
      intros j Hj. rewrite Hb'', Hbit by done. case_decide; [by rewrite Hf|done].
  - destruct (alloc_consecutive_none b count b' Hb ltac:(lia) E) as [-> [->|H]]; [lia|done].
Qed.

(** A bitmap of eight ids whose first three and fifth are taken. *)
Module SampleBitmap.
Definition buf : list byte := put_le 1 0 0x17 (zeros 4096).
Definition b : IdBitmap := {| ib_buf := buf; first_available_id := 3; ib_len := 8 |}.
End SampleBitmap.

Lemma sample_bitmap_ok : bitmap_ok SampleBitmap.b.
Proof.
  assert (exists b, from_buf SampleBitmap.buf 8 = Ok b /\ bitmap_ok b /\ ib_buf b = SampleBitmap.buf /\ ib_len b = 8)
    as (b & E & H & _) by (apply from_buf_ok; vm_compute; split; congruence || done).
  assert (from_buf SampleBitmap.buf 8 = Ok SampleBitmap.b) as E' by (vm_compute; reflexivity).
  rewrite E' in E. by injection E as <-.
Qed.

Lemma alloc_consecutive_first_fit_witness :
  (alloc_consecutive SampleBitmap.b 2).1 = Some (5, 7) /\ free_run SampleBitmap.b 5 7.
Proof.
  pose proof (alloc_consecutive_first_fit SampleBitmap.b 2 sample_bitmap_ok eq_refl) as H.
  assert (E : (alloc_consecutive SampleBitmap.b 2).1 = Some (5, 7)) by (vm_compute; reflexivity).
  destruct (alloc_consecutive SampleBitmap.b 2) as [r b']. cbn [fst] in E. subst r.
  split; [reflexivity|]. exact (proj1 (proj2 H)).
Defined.
