(* ===== verification/SuperBlock.v ===== *)
(** * The file system's superblock

    Models [feature.rs] and [super_block.rs]: the feature sets, the raw
    1024-byte superblock, its validation into [SuperBlock], the free counters,
    the checksum, the backup-group rule behind [statfs], and the patch that
    journals the superblock's mutable fields into block 0. *)

From S2P Require Import Prelude Pod Checksum JournalFormat Device.

(** ** Feature sets ([feature.rs])

    A [bitflags] set is its bits; [from_bits_truncate] keeps the known ones. *)

Definition contains (set flag : Z) : bool := Z.land set flag =? flag.
Definition insert_flag (set flag : Z) : Z := Z.lor set flag.
Definition remove_flag (set flag : Z) : Z := Z.ldiff set flag.
Definition union_all (flags : list Z) : Z := fold_right Z.lor 0 flags.

Module FeatureCompatSet.
Definition DIR_PREALLOC : Z := 2 ^ 0.
Definition IMAGIC_INODES : Z := 2 ^ 1.
Definition HAS_JOURNAL : Z := 2 ^ 2.
Definition EXT_ATTR : Z := 2 ^ 3.
Definition RESIZE_INODE : Z := 2 ^ 4.
Definition DIR_INDEX : Z := 2 ^ 5.
Definition all : Z := union_all [DIR_PREALLOC; IMAGIC_INODES; HAS_JOURNAL; EXT_ATTR; RESIZE_INODE; DIR_INDEX].
End FeatureCompatSet.

Module FeatureIncompatSet.
Definition COMPRESSION : Z := 2 ^ 0.
Definition FILETYPE : Z := 2 ^ 1.
Definition RECOVER : Z := 2 ^ 2.
Definition JOURNAL_DEV : Z := 2 ^ 3.
Definition META_BG : Z := 2 ^ 4.
Definition EXTENTS : Z := 2 ^ 6.
Definition IS_64BIT : Z := 2 ^ 7.
Definition MMP : Z := 2 ^ 8.
Definition FLEX_BG : Z := 2 ^ 9.
Definition EA_INODE : Z := 2 ^ 10.
Definition DIRDATA : Z := 2 ^ 12.
Definition CSUM_SEED : Z := 2 ^ 13.
Definition LARGEDIR : Z := 2 ^ 14.
Definition INLINE_DATA : Z := 2 ^ 15.
Definition ENCRYPT : Z := 2 ^ 16.
Definition CASEFOLD : Z := 2 ^ 17.
Definition all : Z :=
  union_all [COMPRESSION; FILETYPE; RECOVER; JOURNAL_DEV; META_BG; EXTENTS; IS_64BIT; MMP; FLEX_BG; EA_INODE;
             DIRDATA; CSUM_SEED; LARGEDIR; INLINE_DATA; ENCRYPT; CASEFOLD].
(** [INCOMPAT_SUPP] *)
Definition SUPP : Z := union_all [FILETYPE; EXTENTS; RECOVER; FLEX_BG; IS_64BIT].
End FeatureIncompatSet.

Module FeatureRoCompatSet.
Definition SPARSE_SUPER : Z := 2 ^ 0.
Definition LARGE_FILE : Z := 2 ^ 1.
Definition HUGE_FILE : Z := 2 ^ 3.
Definition GDT_CSUM : Z := 2 ^ 4.
Definition DIR_NLINK : Z := 2 ^ 5.
Definition EXTRA_ISIZE : Z := 2 ^ 6.
Definition QUOTA : Z := 2 ^ 8.
Definition BIGALLOC : Z := 2 ^ 9.
Definition METADATA_CSUM : Z := 2 ^ 10.
Definition PROJECT : Z := 2 ^ 13.
Definition VERITY : Z := 2 ^ 15.
Definition all : Z :=
  union_all [SPARSE_SUPER; LARGE_FILE; HUGE_FILE; GDT_CSUM; DIR_NLINK; EXTRA_ISIZE; QUOTA; BIGALLOC;
             METADATA_CSUM; PROJECT; VERITY].
(** [RO_COMPAT_SUPP] *)
Definition SUPP : Z := union_all [SPARSE_SUPER; LARGE_FILE; HUGE_FILE; DIR_NLINK; EXTRA_ISIZE; METADATA_CSUM].
End FeatureRoCompatSet.

(** ** The raw superblock *)

Definition MAGIC_NUM : Z := 0xef53.
Definition SUPER_BLOCK_OFFSET : Z := 1024.
Definition SUPERBLOCK_BID : Z := SUPER_BLOCK_OFFSET / BLOCK_SIZE.
Definition SUPER_BLOCK_SIZE : Z := 1024.
Definition MIN_DESC_SIZE : Z := 32.
Definition MIN_DESC_SIZE_64BIT : Z := 64.
Definition MAX_DESC_SIZE : Z := 64.
Definition EXT2_FLAGS_UNSIGNED_HASH : Z := 0x2.
Definition S_CHECKSUM_OFFSET : Z := 0x3FC.
Definition S_CHECKSUM_TYPE_OFFSET : Z := 0x175.
Definition CHECKSUM_TYPE_CRC32C : Z := 1.
(** [size_of::<RawInode>()] *)
Definition RAW_INODE_SIZE : Z := 256.

Record RawSuperBlock : Type := {
  rs_inodes_count : Z;
  rs_blocks_count : Z;
  rs_reserved_blocks_count : Z;
  rs_free_blocks_count : Z;
  rs_free_inodes_count : Z;
  rs_first_data_block : Z;
  rs_log_block_size : Z;
  rs_log_frag_size : Z;
  rs_blocks_per_group : Z;
  rs_frags_per_group : Z;
  rs_inodes_per_group : Z;
  rs_mtime : Z;
  rs_wtime : Z;
  rs_mnt_count : Z;
  rs_max_mnt_count : Z;
  rs_magic : Z;
  rs_state : Z;
  rs_errors : Z;
  rs_min_rev_level : Z;
  rs_last_check_time : Z;
  rs_check_interval : Z;
  rs_creator_os : Z;
  rs_rev_level : Z;
  rs_default_reserved_uid : Z;
  rs_default_reserved_gid : Z;
  rs_first_ino : Z;
  rs_inode_size : Z;
  rs_block_group_idx : Z;
  rs_feature_compat : Z;
  rs_feature_incompat : Z;
  rs_feature_ro_compat : Z;
  rs_uuid : list byte;
  rs_volume_name : list byte;
  rs_last_mounted_dir : list byte;
  rs_algorithm_usage_bitmap : Z;
  rs_prealloc_file_blocks : Z;
  rs_prealloc_dir_blocks : Z;
  rs_reserved_gdt_blocks : Z;
  rs_journal_uuid : list byte;
  rs_journal_ino : Z;
  rs_journal_dev : Z;
  rs_last_orphan : Z;
  rs_hash_seed : list Z;
  rs_def_hash_version : Z;
  rs_reserved_char_pad : Z;
  rs_desc_size : Z;
  rs_default_mount_opts : Z;
  rs_first_meta_bg : Z;
  rs_mkfs_time : Z;
  rs_jnl_blocks : list Z;
  rs_blocks_count_hi : Z;
  rs_r_blocks_count_hi : Z;
  rs_free_blocks_count_hi : Z;
  rs_extra_isize_hints : Z;
  rs_flags : Z;
  rs_reserved : list byte;
  rs_checksum : Z;
}.

Definition raw_sb_codec : codec RawSuperBlock :=
  struct
    (fun '
      (v0, (v1, (v2, (v3, (v4, (v5, (v6, (v7, (v8, (v9, (v10, (v11, (v12, (v13, (v14, (v15, (v16, (v17, (v18,
      (v19, (v20, (v21, (v22, (v23, (v24, (v25, (v26, (v27, (v28, (v29, (v30, (v31, (v32, (v33, (v34, (v35,
      (v36, (v37, (v38, (v39, (v40, (v41, (v42, (v43, (v44, (v45, (v46, (v47, (v48, (v49, (v50, (v51, (v52,
      (v53, (v54, (v55, v56)))))))))))))))))))))))))))))))))))))))))))))))))))))))) =>
      Build_RawSuperBlock
        v0 v1 v2 v3 v4 v5 v6 v7 v8 v9 v10 v11 v12 v13 v14 v15 v16 v17 v18 v19 v20 v21 v22 v23 v24 v25 v26 v27
        v28 v29 v30 v31 v32 v33 v34 v35 v36 v37 v38 v39 v40 v41 v42 v43 v44 v45 v46 v47 v48 v49 v50 v51 v52
        v53 v54 v55 v56)
    (fun r =>
      (rs_inodes_count r, (rs_blocks_count r, (rs_reserved_blocks_count r, (rs_free_blocks_count r,
      (rs_free_inodes_count r, (rs_first_data_block r, (rs_log_block_size r, (rs_log_frag_size r,
      (rs_blocks_per_group r, (rs_frags_per_group r, (rs_inodes_per_group r, (rs_mtime r, (rs_wtime r,
      (rs_mnt_count r, (rs_max_mnt_count r, (rs_magic r, (rs_state r, (rs_errors r, (rs_min_rev_level r,
      (rs_last_check_time r, (rs_check_interval r, (rs_creator_os r, (rs_rev_level r,
      (rs_default_reserved_uid r, (rs_default_reserved_gid r, (rs_first_ino r, (rs_inode_size r,
      (rs_block_group_idx r, (rs_feature_compat r, (rs_feature_incompat r, (rs_feature_ro_compat r,
      (rs_uuid r, (rs_volume_name r, (rs_last_mounted_dir r, (rs_algorithm_usage_bitmap r,
      (rs_prealloc_file_blocks r, (rs_prealloc_dir_blocks r, (rs_reserved_gdt_blocks r, (rs_journal_uuid r,
      (rs_journal_ino r, (rs_journal_dev r, (rs_last_orphan r, (rs_hash_seed r, (rs_def_hash_version r,
      (rs_reserved_char_pad r, (rs_desc_size r, (rs_default_mount_opts r, (rs_first_meta_bg r,
      (rs_mkfs_time r, (rs_jnl_blocks r, (rs_blocks_count_hi r, (rs_r_blocks_count_hi r,
      (rs_free_blocks_count_hi r, (rs_extra_isize_hints r, (rs_flags r, (rs_reserved r,
      rs_checksum r)))))))))))))))))))))))))))))))))))))))))))))))))))))))))
    (
     le 4 ⊗ le 4 ⊗ le 4 ⊗ le 4 ⊗ le 4 ⊗ le 4 ⊗ le 4 ⊗ le 4 ⊗ le 4 ⊗ le 4 ⊗ le 4 ⊗ le 4 ⊗ le 4 ⊗ le 2 ⊗ le 2 ⊗
     le 2 ⊗ le 2 ⊗ le 2 ⊗ le 2 ⊗ le 4 ⊗ le 4 ⊗ le 4 ⊗ le 4 ⊗ le 2 ⊗ le 2 ⊗ le 4 ⊗ le 2 ⊗ le 2 ⊗ le 4 ⊗ le 4 ⊗
     le 4 ⊗ raw 16 ⊗ raw 16 ⊗ raw 64 ⊗ le 4 ⊗ le 1 ⊗ le 1 ⊗ le 2 ⊗ raw 16 ⊗ le 4 ⊗ le 4 ⊗ le 4 ⊗
     array 4 (le 4) ⊗ le 1 ⊗ le 1 ⊗ le 2 ⊗ le 4 ⊗ le 4 ⊗ le 4 ⊗ array 17 (le 4) ⊗ le 4 ⊗ le 4 ⊗ le 4 ⊗ le 4 ⊗
     le 4 ⊗ raw 664 ⊗ le 4)%codec.

(** The fields the file system writes after mount. *)
Definition rs_set (r : RawSuperBlock) (fb fbh fi lo inc ck : Z) : RawSuperBlock :=
  Build_RawSuperBlock
    (rs_inodes_count r) (rs_blocks_count r) (rs_reserved_blocks_count r) fb fi (rs_first_data_block r)
    (rs_log_block_size r) (rs_log_frag_size r) (rs_blocks_per_group r) (rs_frags_per_group r)
    (rs_inodes_per_group r) (rs_mtime r) (rs_wtime r) (rs_mnt_count r) (rs_max_mnt_count r) (rs_magic r)
    (rs_state r) (rs_errors r) (rs_min_rev_level r) (rs_last_check_time r) (rs_check_interval r)
    (rs_creator_os r) (rs_rev_level r) (rs_default_reserved_uid r) (rs_default_reserved_gid r)
    (rs_first_ino r) (rs_inode_size r) (rs_block_group_idx r) (rs_feature_compat r) inc
    (rs_feature_ro_compat r) (rs_uuid r) (rs_volume_name r) (rs_last_mounted_dir r)
    (rs_algorithm_usage_bitmap r) (rs_prealloc_file_blocks r) (rs_prealloc_dir_blocks r)
    (rs_reserved_gdt_blocks r) (rs_journal_uuid r) (rs_journal_ino r) (rs_journal_dev r) lo (rs_hash_seed r)
    (rs_def_hash_version r) (rs_reserved_char_pad r) (rs_desc_size r) (rs_default_mount_opts r)
    (rs_first_meta_bg r) (rs_mkfs_time r) (rs_jnl_blocks r) (rs_blocks_count_hi r) (rs_r_blocks_count_hi r)
    fbh (rs_extra_isize_hints r) (rs_flags r) (rs_reserved r) ck.

(** ** Enumerations *)

Inductive RevLevel : Set := GoodOld | Dynamic.
Definition rev_level_of (v : Z) : result RevLevel :=
  if v =? 0 then Ok GoodOld else if v =? 1 then Ok Dynamic else Err EINVAL.

Inductive ErrorsBehavior : Set := Continue | RemountReadonly | Panic.
Definition errors_behavior_of (v : Z) : result ErrorsBehavior :=
  if v =? 1 then Ok Continue else if v =? 2 then Ok RemountReadonly else if v =? 3 then Ok Panic else Err EINVAL.

Inductive OsId : Set := Linux | Hurd | Masix | FreeBSD | Lites.
Definition os_id_of (v : Z) : result OsId :=
  if v =? 0 then Ok Linux else if v =? 1 then Ok Hurd else if v =? 2 then Ok Masix
  else if v =? 3 then Ok FreeBSD else if v =? 4 then Ok Lites else Err EINVAL.

(** [FsState::all] *)
Definition FS_STATE_ALL : Z := 0x7.

(** ** The validated superblock *)

Record SuperBlock : Type := {
  sb_inodes_count : Z;
  sb_blocks_count : Z;
  sb_free_blocks_count : Z;
  sb_free_inodes_count : Z;
  sb_first_data_block : Z;
  sb_block_size : Z;
  sb_nr_blocks_per_group : Z;
  sb_nr_block_groups : Z;
  sb_nr_inodes_per_group : Z;
  sb_nr_inode_table_blocks_per_group : Z;
  sb_inode_size : Z;
  sb_desc_size : Z;
  sb_first_ino : Z;
  sb_rev_level : RevLevel;
  sb_state : Z;
  sb_feature_compat : Z;
  sb_feature_incompat : Z;
  sb_feature_ro_compat : Z;
  sb_uuid : list byte;
  sb_last_orphan : option Z;
  sb_reserved_blocks_count : Z;
  sb_reserved_gdt_blocks : Z;
  sb_journal_ino : Z;
  sb_journal_dev : Z;
  sb_hash_seed : list Z;
  sb_hash_unsigned : bool;
}.

Definition sb_set (s : SuperBlock) (fb fi inc : Z) (lo : option Z) : SuperBlock :=
  Build_SuperBlock
    (sb_inodes_count s) (sb_blocks_count s) fb fi (sb_first_data_block s) (sb_block_size s)
    (sb_nr_blocks_per_group s) (sb_nr_block_groups s) (sb_nr_inodes_per_group s)
    (sb_nr_inode_table_blocks_per_group s) (sb_inode_size s) (sb_desc_size s) (sb_first_ino s)
    (sb_rev_level s) (sb_state s) (sb_feature_compat s) inc (sb_feature_ro_compat s) (sb_uuid s) lo
    (sb_reserved_blocks_count s) (sb_reserved_gdt_blocks s) (sb_journal_ino s) (sb_journal_dev s)
    (sb_hash_seed s) (sb_hash_unsigned s).

(** [u16::is_power_of_two] and [usize::is_power_of_two] *)
Definition is_power_of_two (n : Z) : bool := (0 <? n) && (Z.land n (n - 1) =? 0).

Definition parse_desc_size (raw : Z) (has_64bit : bool) : result Z :=
  if negb has_64bit then
    check (raw =? 0) || (raw =? MIN_DESC_SIZE) else EINVAL in Ok MIN_DESC_SIZE
  else
    check negb ((raw <? MIN_DESC_SIZE_64BIT) || (MAX_DESC_SIZE <? raw) || negb (is_power_of_two raw)) else EINVAL in
    Ok raw.

(** [(lo as u64) | ((hi as u64) << 32)] *)
Definition splice_hi (lo hi : Z) : Z := Z.lor lo (Z.shiftl hi 32).

Definition splice_count_hi (lo hi : Z) (has_64bit : bool) : result Z :=
  if negb has_64bit then check hi =? 0 else EINVAL in Ok lo
  else Ok (splice_hi lo hi).

(** [SuperBlock::superblock_checksum] *)
Definition sb_checksum (r : RawSuperBlock) : Z :=
  crc32c (not32 0) (slice 0 S_CHECKSUM_OFFSET (as_bytes raw_sb_codec r)).

Definition verify_superblock_checksum (r : RawSuperBlock) : result unit :=
  check get_le 1 S_CHECKSUM_TYPE_OFFSET (as_bytes raw_sb_codec r) =? CHECKSUM_TYPE_CRC32C else EUCLEAN in
  check rs_checksum r =? sb_checksum r else EUCLEAN in
  Ok tt.

(** The revision decides the inode size. *)
Definition inode_geometry (r : RawSuperBlock) : result (RevLevel * Z * Z) :=
  let? rev := rev_level_of (rs_rev_level r) in
  let? (first_ino, size) :=
    match rev with
    | GoodOld => Ok (11, 128)
    | Dynamic =>
        check negb ((BLOCK_SIZE <? rs_inode_size r) || negb (is_power_of_two (rs_inode_size r))) else EINVAL in
        Ok (rs_first_ino r, rs_inode_size r)
    end in
  check negb (size <? RAW_INODE_SIZE) else EINVAL in
  Ok (rev, first_ino, size).

(** [SuperBlock::try_from] *)
Definition sb_try_from (r : RawSuperBlock) : result SuperBlock :=
  check rs_magic r =? MAGIC_NUM else EINVAL in
  check rs_log_block_size r =? 2 else EINVAL in
  check rs_log_frag_size r =? rs_log_block_size r else EINVAL in
  let block_size := BLOCK_SIZE in
  let state := Z.land (rs_state r) FS_STATE_ALL in
  let? errors := errors_behavior_of (rs_errors r) in
  check match errors with Continue => true | _ => false end else EINVAL in
  let? os := os_id_of (rs_creator_os r) in
  check match os with Linux => true | _ => false end else EINVAL in
  let? (rev, first_ino, inode_size) := inode_geometry r in
  check Z.ldiff (rs_feature_incompat r) FeatureIncompatSet.SUPP =? 0 else EINVAL in
  let incompat := Z.land (rs_feature_incompat r) FeatureIncompatSet.all in
  check contains incompat FeatureIncompatSet.EXTENTS else EINVAL in
  let compat := Z.land (rs_feature_compat r) FeatureCompatSet.all in
  let is_64bit := contains incompat FeatureIncompatSet.IS_64BIT in
  let? desc_size := parse_desc_size (rs_desc_size r) is_64bit in
  check Z.ldiff (rs_feature_ro_compat r) FeatureRoCompatSet.SUPP =? 0 else EROFS in
  let ro_compat := Z.land (rs_feature_ro_compat r) FeatureRoCompatSet.all in
  let? _ := if contains ro_compat FeatureRoCompatSet.METADATA_CSUM then verify_superblock_checksum r else Ok tt in
  let ipg := rs_inodes_per_group r in
  let bpg := rs_blocks_per_group r in
  check negb ((ipg =? 0) || (bpg =? 0)) else EINVAL in
  let inodes_per_block := block_size / inode_size in
  let max_bits_per_group := block_size * 8 in
  check negb ((ipg <? inodes_per_block) || (max_bits_per_group <? ipg)) else EINVAL in
  check negb (max_bits_per_group <? bpg) else EINVAL in
  let itb := ipg / inodes_per_block in
  check negb (bpg <=? itb + 3) else EINVAL in
  let? blocks_count := splice_count_hi (rs_blocks_count r) (rs_blocks_count_hi r) is_64bit in
  let? free_blocks := splice_count_hi (rs_free_blocks_count r) (rs_free_blocks_count_hi r) is_64bit in
  let first_data_block := rs_first_data_block r in
  check negb (blocks_count <=? first_data_block + 1) else EINVAL in
  let groups := (blocks_count - first_data_block - 1) / bpg + 1 in
  check groups <? 2 ^ 32 else EINVAL in
  let max_inodes := groups * ipg in
  let min_inodes := (groups - 1) * ipg in
  check negb ((rs_inodes_count r <=? min_inodes) || (max_inodes <? rs_inodes_count r)) else EINVAL in
  check negb (blocks_count <? free_blocks) else EINVAL in
  check negb (rs_inodes_count r <? rs_free_inodes_count r) else EINVAL in
  Ok {| sb_inodes_count := rs_inodes_count r; sb_blocks_count := blocks_count; sb_free_blocks_count := free_blocks;
        sb_free_inodes_count := rs_free_inodes_count r; sb_first_data_block := first_data_block;
        sb_block_size := block_size; sb_nr_blocks_per_group := bpg; sb_nr_block_groups := groups;
        sb_nr_inodes_per_group := ipg; sb_nr_inode_table_blocks_per_group := itb; sb_inode_size := inode_size;
        sb_desc_size := desc_size; sb_first_ino := first_ino; sb_rev_level := rev; sb_state := state;
        sb_feature_compat := compat; sb_feature_incompat := incompat; sb_feature_ro_compat := ro_compat;
        sb_uuid := rs_uuid r; sb_last_orphan := if rs_last_orphan r =? 0 then None else Some (rs_last_orphan r);
        sb_reserved_blocks_count := rs_reserved_blocks_count r; sb_reserved_gdt_blocks := rs_reserved_gdt_blocks r;
        sb_journal_ino := rs_journal_ino r; sb_journal_dev := rs_journal_dev r; sb_hash_seed := rs_hash_seed r;
        sb_hash_unsigned := negb (Z.land (rs_flags r) EXT2_FLAGS_UNSIGNED_HASH =? 0) |}.

(** ** Counters *)

Definition dec_free_blocks (s : SuperBlock) (n : Z) : result SuperBlock :=
  check n <=? sb_free_blocks_count s else EIO in
  Ok (sb_set s (sb_free_blocks_count s - n) (sb_free_inodes_count s) (sb_feature_incompat s) (sb_last_orphan s)).

Definition inc_free_blocks (s : SuperBlock) (n : Z) : result SuperBlock :=
  let new_count := sb_free_blocks_count s + n in
  check new_count <? 2 ^ 64 else EIO in
  check negb (sb_blocks_count s <? new_count) else EIO in
  Ok (sb_set s new_count (sb_free_inodes_count s) (sb_feature_incompat s) (sb_last_orphan s)).

Definition dec_free_inodes (s : SuperBlock) : result SuperBlock :=
  check 1 <=? sb_free_inodes_count s else EIO in
  Ok (sb_set s (sb_free_blocks_count s) (sb_free_inodes_count s - 1) (sb_feature_incompat s) (sb_last_orphan s)).

Definition inc_free_inodes (s : SuperBlock) : result SuperBlock :=
  let new_count := sb_free_inodes_count s + 1 in
  check new_count <? 2 ^ 32 else EIO in
  check negb (sb_inodes_count s <? new_count) else EIO in
  Ok (sb_set s (sb_free_blocks_count s) new_count (sb_feature_incompat s) (sb_last_orphan s)).

Definition set_last_orphan (s : SuperBlock) (head : option Z) : SuperBlock :=
  sb_set s (sb_free_blocks_count s) (sb_free_inodes_count s) (sb_feature_incompat s) head.

Definition clear_recover (s : SuperBlock) : SuperBlock :=
  sb_set s (sb_free_blocks_count s) (sb_free_inodes_count s)
    (remove_flag (sb_feature_incompat s) FeatureIncompatSet.RECOVER) (sb_last_orphan s).

Definition set_recover (s : SuperBlock) : SuperBlock :=
  sb_set s (sb_free_blocks_count s) (sb_free_inodes_count s)
    (insert_flag (sb_feature_incompat s) FeatureIncompatSet.RECOVER) (sb_last_orphan s).

(** ** Queries *)

Definition has_metadata_csum (s : SuperBlock) : bool :=
  contains (sb_feature_ro_compat s) FeatureRoCompatSet.METADATA_CSUM.
Definition is_64bit (s : SuperBlock) : bool := contains (sb_feature_incompat s) FeatureIncompatSet.IS_64BIT.
Definition metadata_csum_seed (s : SuperBlock) : FsCsumSeed := {| fs_seed := crc32c (not32 0) (sb_uuid s) |}.
Definition needs_recovery (s : SuperBlock) : bool :=
  contains (sb_feature_incompat s) FeatureIncompatSet.RECOVER
  || match sb_last_orphan s with Some _ => true | None => false end.
Definition has_dir_index (s : SuperBlock) : bool := contains (sb_feature_compat s) FeatureCompatSet.DIR_INDEX.

(** [is_power_of]: each round divides a value of at most 32 bits. *)
Fixpoint is_power_of_loop (fuel : nat) (remaining base : Z) : bool :=
  match fuel with
  | O => false
  | S fuel =>
      if base <? remaining then
        if negb (remaining mod base =? 0) then false else is_power_of_loop fuel (remaining / base) base
      else remaining =? base
  end.
Definition is_power_of (value base : Z) : bool := is_power_of_loop 33 value base.

Definition bg_has_super (s : SuperBlock) (group : Z) : bool :=
  if group <=? 1 then true
  else if negb (contains (sb_feature_ro_compat s) FeatureRoCompatSet.SPARSE_SUPER) then true
  else if group mod 2 =? 0 then false
  else is_power_of group 3 || is_power_of group 5 || is_power_of group 7.

Definition group_list (n : Z) : list Z := map Z.of_nat (seq 0 (Z.to_nat n)).

Definition metadata_overhead (s : SuperBlock) : Z :=
  let desc_per_block := sb_block_size s / sb_desc_size s in
  let gdt_blocks := div_ceil (sb_nr_block_groups s) desc_per_block in
  let per_group_data := sb_nr_inode_table_blocks_per_group s + 2 in
  let per_super_group := 1 + gdt_blocks + sb_reserved_gdt_blocks s in
  let groups_with_super := zlen (List.filter (bg_has_super s) (group_list (sb_nr_block_groups s))) in
  sb_first_data_block s + per_group_data * sb_nr_block_groups s + per_super_group * groups_with_super.

(** ** Writing the superblock back *)

Definition write_free_blocks_count (s : SuperBlock) (r : RawSuperBlock) : RawSuperBlock :=
  let count := sb_free_blocks_count s in
  rs_set r (u32 count) (if is_64bit s then u32 (Z.shiftr count 32) else rs_free_blocks_count_hi r)
    (rs_free_inodes_count r) (rs_last_orphan r) (rs_feature_incompat r) (rs_checksum r).

Definition set_rs_checksum (r : RawSuperBlock) (ck : Z) : RawSuperBlock :=
  rs_set r (rs_free_blocks_count r) (rs_free_blocks_count_hi r) (rs_free_inodes_count r) (rs_last_orphan r)
    (rs_feature_incompat r) ck.

(** The fields a writer of the superblock stores, and the checksum over the
    final image. *)
Definition store_raw (s : SuperBlock) (last_orphan incompat : Z) (r : RawSuperBlock) : RawSuperBlock :=
  let r := write_free_blocks_count s r in
  let r := rs_set r (rs_free_blocks_count r) (rs_free_blocks_count_hi r) (sb_free_inodes_count s)
             last_orphan incompat (rs_checksum r) in
  if has_metadata_csum s then set_rs_checksum r (sb_checksum r) else r.

(** The patch of [SuperBlock::journal_capture]: the orphan head, but not the
    features. *)
Definition capture_raw (s : SuperBlock) (last_orphan : option Z) (r : RawSuperBlock) : RawSuperBlock :=
  store_raw s (match last_orphan with Some ino => ino | None => 0 end) (rs_feature_incompat r) r.

Definition capture_patch (s : SuperBlock) (last_orphan : option Z) (buf : list byte) : list byte :=
  write_at raw_sb_codec SUPER_BLOCK_OFFSET (capture_raw s last_orphan (read_at raw_sb_codec SUPER_BLOCK_OFFSET buf)) buf.

(** The image [Ext4::sync_metadata] writes: the incompatible features, but not
    the orphan head. *)
Definition sync_raw (s : SuperBlock) (r : RawSuperBlock) : RawSuperBlock :=
  store_raw s (rs_last_orphan r) (sb_feature_incompat s) r.

#[global] Arguments capture_patch : simpl never.

(** ** Lemmas: the codec *)

#[export] Instance raw_sb_codec_ok : CodecOk raw_sb_codec.
Proof. struct_codec. Qed.

Lemma raw_sb_size : c_size raw_sb_codec = SUPER_BLOCK_SIZE.
Proof. reflexivity. Qed.

(** ** Invariant

    What validation guarantees and the operations keep. *)

Record sb_ok (s : SuperBlock) : Prop := {
  so_block_size : sb_block_size s = BLOCK_SIZE;
  so_inode_size : exists k, 8 <= k <= 12 /\ sb_inode_size s = 2 ^ k;
  so_desc_size : sb_desc_size s = if is_64bit s then 64 else 32;
  so_ipg : 1 <= sb_nr_inodes_per_group s <= 32768;
  so_bpg : 1 <= sb_nr_blocks_per_group s <= 32768;
  so_table : sb_nr_inode_table_blocks_per_group s = sb_nr_inodes_per_group s / (BLOCK_SIZE / sb_inode_size s) /\
             1 <= sb_nr_inode_table_blocks_per_group s < sb_nr_blocks_per_group s - 3;
  so_first : fits 32 (sb_first_data_block s);
  so_blocks : fits (if is_64bit s then 64 else 32) (sb_blocks_count s);
  so_groups : 1 <= sb_nr_block_groups s < 2 ^ 32;
  so_cover : (sb_nr_block_groups s - 1) * sb_nr_blocks_per_group s < sb_blocks_count s - sb_first_data_block s
             <= sb_nr_block_groups s * sb_nr_blocks_per_group s;
  so_inodes : (sb_nr_block_groups s - 1) * sb_nr_inodes_per_group s < sb_inodes_count s
              <= sb_nr_block_groups s * sb_nr_inodes_per_group s;
  so_inodes32 : fits 32 (sb_inodes_count s);
  so_free_blocks : 0 <= sb_free_blocks_count s <= sb_blocks_count s;
  so_free_inodes : 0 <= sb_free_inodes_count s <= sb_inodes_count s;
  so_incompat : Z.ldiff (sb_feature_incompat s) FeatureIncompatSet.SUPP = 0 /\
                contains (sb_feature_incompat s) FeatureIncompatSet.EXTENTS = true;
  so_ro_compat : Z.ldiff (sb_feature_ro_compat s) FeatureRoCompatSet.SUPP = 0;
  so_uuid : zlen (sb_uuid s) = 16;
  so_orphan : forall ino, sb_last_orphan s = Some ino -> ino <> 0 /\ fits 32 ino;
}.

(** ** Lemmas: arithmetic of the fields *)

Lemma power_of_two_shape n : is_power_of_two n = true -> exists k, 0 <= k /\ n = 2 ^ k.
Proof.
  unfold is_power_of_two. intros [Hn H]%andb_prop. apply Z.ltb_lt in Hn. apply Z.eqb_eq in H.
  exists (Z.log2 n). split; [apply Z.log2_nonneg|].
  destruct (decide (n = 2 ^ Z.log2 n)) as [|Hne]; [done|]. exfalso.
  pose proof (Z.log2_spec n Hn). pose proof (Z.log2_nonneg n). pose proof (Z.pow_pos_nonneg 2 (Z.log2 n)).
  assert (Z.log2 (n - 1) = Z.log2 n) as Hl by (apply Z.log2_unique; lia).
  assert (Z.testbit (Z.land n (n - 1)) (Z.log2 n) = true) as Ht.
  { rewrite Z.land_spec, Z.bit_log2 by lia. rewrite <- Hl at 1. by rewrite Z.bit_log2 by lia. }
  by rewrite H, Z.bits_0 in Ht.
Qed.

Lemma splice_hi_split n : fits 64 n -> splice_hi (u32 n) (u32 (Z.shiftr n 32)) = n.
Proof. by apply (lor_halves_split 32 32). Qed.

Lemma splice_hi_fits lo hi : fits 32 lo -> fits 32 hi -> fits 64 (splice_hi lo hi).
Proof. by apply (lor_halves_fits 32 32). Qed.

(** ** Lemmas: what validation establishes *)

Lemma raw_sb_wf_fields r : c_wf raw_sb_codec r ->
  fits 32 (rs_inodes_count r) /\ fits 32 (rs_blocks_count r) /\ fits 32 (rs_free_blocks_count r) /\
  fits 32 (rs_free_inodes_count r) /\ fits 32 (rs_first_data_block r) /\ fits 32 (rs_last_orphan r) /\
  fits 32 (rs_blocks_count_hi r) /\ fits 32 (rs_free_blocks_count_hi r) /\ zlen (rs_uuid r) = 16 /\
  fits 32 (rs_inodes_per_group r) /\ fits 32 (rs_blocks_per_group r).
Proof. intros H. cbn -[fits zlen] in H. tauto. Qed.

Lemma inode_geometry_ok r rev fi size :
  inode_geometry r = Ok (rev, fi, size) -> exists k, 8 <= k <= 12 /\ size = 2 ^ k.
Proof.
  intros H. unfold inode_geometry in H. inv_result. destruct x0 as [f sz]. inv_result. destruct x.
  - injection H1 as <- <-. done.
  - inv_result. apply negb_true_iff, orb_false_iff in Hck0 as [Hle Hp]. apply negb_false_iff in Hp. subst.
    destruct (power_of_two_shape _ Hp) as (k & Hk & Ek). exists k. split; [|done].
    apply negb_true_iff, Z.ltb_ge in Hck. apply Z.ltb_ge in Hle. rewrite Ek in *. unfold RAW_INODE_SIZE, BLOCK_SIZE in *.
    change 256 with (2 ^ 8) in Hck. change 4096 with (2 ^ 12) in Hle.
    apply Z.pow_le_mono_r_iff in Hck, Hle; lia.
Qed.

Lemma parse_desc_size_ok raw b n : parse_desc_size raw b = Ok n -> n = if b then 64 else 32.
Proof.
  unfold parse_desc_size. intros H. destruct b; cbn [negb] in H; inv_result; [|done].
  apply negb_true_iff, orb_false_iff in Hck as [Hck _]. apply orb_false_iff in Hck as [H1 H2].
  apply Z.ltb_ge in H1, H2. unfold MIN_DESC_SIZE_64BIT, MAX_DESC_SIZE in *. lia.
Qed.

Lemma splice_count_ok lo hi b n :
  fits 32 lo -> fits 32 hi -> splice_count_hi lo hi b = Ok n -> fits (if b then 64 else 32) n.
Proof.
  intros Hlo Hhi H. unfold splice_count_hi in H. destruct b; cbn [negb] in H; inv_result; subst; [|done].
  by apply splice_hi_fits.
Qed.

Lemma ldiff_land a b s : Z.ldiff a s = 0 -> Z.ldiff (Z.land a b) s = 0.
Proof.
  intros H. apply Z.bits_inj'. intros n Hn. rewrite Z.ldiff_spec, Z.land_spec, Z.bits_0.
  assert (E : Z.testbit (Z.ldiff a s) n = false) by (rewrite H; apply Z.bits_0). rewrite Z.ldiff_spec in E.
  destruct (Z.testbit a n), (Z.testbit b n), (Z.testbit s n); done.
Qed.

Lemma group_count_cover total first bpg :
  0 < bpg -> first + 1 < total ->
  let n := (total - first - 1) / bpg + 1 in 1 <= n /\ (n - 1) * bpg < total - first <= n * bpg.
Proof. intros. simpl. pose proof (Z.div_pos (total - first - 1) bpg). Z.to_euclidean_division_equations. nia. Qed.

Lemma sb_try_from_ok r s : c_wf raw_sb_codec r -> sb_try_from r = Ok s -> sb_ok s.
Proof.
  intros W H. destruct (raw_sb_wf_fields r W) as (W1 & W2 & W3 & W4 & W5 & W6 & W7 & W8 & W9 & W10 & W11).
  clear W. unfold sb_try_from in H. inv_result. destruct x1 as [[rev fi] isz]. inv_result. subst s.
  apply inode_geometry_ok in H2. apply parse_desc_size_ok in H3.
  apply splice_count_ok in H5 as Hb; [|done..]. apply splice_count_ok in H6 as Hf; [|done..].
  bool_hyps. destruct (group_count_cover x3 (rs_first_data_block r) (rs_blocks_per_group r)) as (G1 & G2); [unfold fits in *; lia|lia|].
  assert (Ht : 1 <= rs_inodes_per_group r / (BLOCK_SIZE / isz)).
  { destruct H2 as (k & Hk & ->). assert (0 < BLOCK_SIZE / 2 ^ k).
    { apply Z.div_str_pos. change BLOCK_SIZE with (2 ^ 12). split; [lia|]. apply Z.pow_le_mono_r; lia. }
    apply Z.div_le_lower_bound; lia. }
  unfold BLOCK_SIZE, fits in *.
  split; cbn; try done; try lia; [split; [done|lia]|..].
  - split; [by apply ldiff_land|done].
  - by apply ldiff_land.
  - intros ino E. destruct (Z.eqb_spec (rs_last_orphan r) 0); [done|]. injection E as <-. by split.
Qed.

(** ** Lemmas: the checksum covers all but itself *)

Lemma sb_checksum_fits r : fits 32 (sb_checksum r).
Proof. unfold sb_checksum. refine (crc32c_fits _ _ _). vm_compute. split; congruence. Qed.

Lemma rs_set_bytes r fb fbh fi lo inc : exists pre, forall ck,
  as_bytes raw_sb_codec (rs_set r fb fbh fi lo inc ck) = pre ++ le_bytes 4 ck.
Proof. eexists. intros ck. cbn -[le_bytes array]. rewrite !app_assoc. reflexivity. Qed.

Lemma rs_set_wf r fb fbh fi lo inc ck :
  c_wf raw_sb_codec r -> fits 32 fb -> fits 32 fbh -> fits 32 fi -> fits 32 lo -> fits 32 inc -> fits 32 ck ->
  c_wf raw_sb_codec (rs_set r fb fbh fi lo inc ck).
Proof. intros W ? ? ? ? ? ?. cbn -[fits zlen] in *. tauto. Qed.

Lemma sb_checksum_set r ck : c_wf raw_sb_codec r -> fits 32 ck -> sb_checksum (set_rs_checksum r ck) = sb_checksum r.
Proof.
  intros W Hck. unfold sb_checksum, set_rs_checksum.
  destruct (rs_set_bytes r (rs_free_blocks_count r) (rs_free_blocks_count_hi r) (rs_free_inodes_count r)
    (rs_last_orphan r) (rs_feature_incompat r)) as (pre & E).
  assert (Er : as_bytes raw_sb_codec r = pre ++ le_bytes 4 (rs_checksum r)) by (rewrite <- E; by destruct r).
  rewrite E, Er. pose proof (codec_len r W) as Hl. rewrite Er, zlen_app, zlen_le_bytes, raw_sb_size in Hl.
  unfold SUPER_BLOCK_SIZE, S_CHECKSUM_OFFSET in *. by rewrite !slice_app_l by lia.
Qed.

Lemma raw_sb_tail r : exists pre, as_bytes raw_sb_codec r = pre ++ rs_reserved r ++ le_bytes 4 (rs_checksum r).
Proof. eexists. cbn -[le_bytes array]. rewrite !app_assoc. reflexivity. Qed.

Lemma checksum_type_byte r : c_wf raw_sb_codec r ->
  get_le 1 S_CHECKSUM_TYPE_OFFSET (as_bytes raw_sb_codec r) = get_le 1 17 (rs_reserved r).
Proof.
  intros W. destruct (raw_sb_tail r) as (pre & E). pose proof (codec_len r W) as Hl. rewrite E in *.
  assert (Hr : zlen (rs_reserved r) = 664) by (cbn -[fits zlen] in W; tauto).
  rewrite !zlen_app, zlen_le_bytes, raw_sb_size in Hl. unfold SUPER_BLOCK_SIZE, S_CHECKSUM_TYPE_OFFSET in *.
  unfold get_le. rewrite slice_app_r by lia. rewrite slice_app_l by lia. do 2 f_equal. lia.
Qed.

(** ** Lemmas: rewriting the mutable fields *)

Lemma supported_known inc : Z.ldiff inc FeatureIncompatSet.SUPP = 0 -> Z.land inc FeatureIncompatSet.all = inc.
Proof.
  intros H. apply Z.bits_inj'. intros n Hn. rewrite Z.land_spec.
  assert (E : Z.testbit (Z.ldiff inc FeatureIncompatSet.SUPP) n = false) by (rewrite H; apply Z.bits_0).
  assert (Hs : Z.testbit FeatureIncompatSet.SUPP n = true -> Z.testbit FeatureIncompatSet.all n = true).
  { assert (Z.land FeatureIncompatSet.SUPP FeatureIncompatSet.all = FeatureIncompatSet.SUPP) as Hl by reflexivity.
    intros Ht. rewrite <- Hl, Z.land_spec in Ht. by apply andb_prop in Ht as [_ ?]. }
  rewrite Z.ldiff_spec in E. destruct (Z.testbit inc n); [|done]. apply Hs. by destruct (Z.testbit FeatureIncompatSet.SUPP n).
Qed.

Lemma verify_set r fb fbh fi lo inc :
  c_wf raw_sb_codec r -> fits 32 fb -> fits 32 fbh -> fits 32 fi -> fits 32 lo -> fits 32 inc ->
  verify_superblock_checksum r = Ok tt ->
  let r1 := rs_set r fb fbh fi lo inc (rs_checksum r) in
  verify_superblock_checksum (set_rs_checksum r1 (sb_checksum r1)) = Ok tt.
Proof.
  intros W ? ? ? ? ? H r1. assert (W1 : c_wf raw_sb_codec r1) by (apply rs_set_wf; try done; cbn -[fits zlen] in W; tauto).
  pose proof (sb_checksum_fits r1) as Hc.
  assert (W2 : c_wf raw_sb_codec (set_rs_checksum r1 (sb_checksum r1))) by (apply rs_set_wf; try done; cbn -[fits zlen] in W; tauto).
  unfold verify_superblock_checksum in *. rewrite checksum_type_byte in * by done. rewrite sb_checksum_set by done.
  inv_result. change (rs_reserved _) with (rs_reserved r). rewrite Hck. change (rs_checksum _) with (sb_checksum r1). by rewrite Z.eqb_refl.
Qed.

(** Projections of a rewritten superblock. *)
Ltac rs_simpl :=
  cbn [rs_set set_rs_checksum
    rs_inodes_count rs_blocks_count rs_reserved_blocks_count rs_free_blocks_count rs_free_inodes_count
    rs_first_data_block rs_log_block_size rs_log_frag_size rs_blocks_per_group rs_frags_per_group
    rs_inodes_per_group rs_mtime rs_wtime rs_mnt_count rs_max_mnt_count rs_magic rs_state rs_errors
    rs_min_rev_level rs_last_check_time rs_check_interval rs_creator_os rs_rev_level rs_default_reserved_uid
    rs_default_reserved_gid rs_first_ino rs_inode_size rs_block_group_idx rs_feature_compat
    rs_feature_incompat rs_feature_ro_compat rs_uuid rs_volume_name rs_last_mounted_dir
    rs_algorithm_usage_bitmap rs_prealloc_file_blocks rs_prealloc_dir_blocks rs_reserved_gdt_blocks
    rs_journal_uuid rs_journal_ino rs_journal_dev rs_last_orphan rs_hash_seed rs_def_hash_version
    rs_reserved_char_pad rs_desc_size rs_default_mount_opts rs_first_meta_bg rs_mkfs_time rs_jnl_blocks
    rs_blocks_count_hi rs_r_blocks_count_hi rs_free_blocks_count_hi rs_extra_isize_hints rs_flags rs_reserved
    rs_checksum].

Lemma reparse_set r s fb fbh fi lo inc ck n :
  sb_try_from r = Ok s -> Z.ldiff inc FeatureIncompatSet.SUPP = 0 -> contains inc FeatureIncompatSet.EXTENTS = true ->
  contains inc FeatureIncompatSet.IS_64BIT = is_64bit s -> splice_count_hi fb fbh (is_64bit s) = Ok n ->
  n <= sb_blocks_count s -> fi <= sb_inodes_count s ->
  (has_metadata_csum s = true -> verify_superblock_checksum (rs_set r fb fbh fi lo inc ck) = Ok tt) ->
  sb_try_from (rs_set r fb fbh fi lo inc ck) = Ok (sb_set s n fi inc (if lo =? 0 then None else Some lo)).
Proof.
  intros H Hs He H64 Hn Hb Hi Hv. unfold sb_try_from in H. inv_result. destruct x1 as [[rev ino] isz]. inv_result. subst s.
  unfold is_64bit, has_metadata_csum in *. cbn [sb_feature_incompat sb_feature_ro_compat sb_blocks_count sb_inodes_count] in *.
  unfold sb_try_from. change (inode_geometry (rs_set _ _ _ _ _ _ _)) with (inode_geometry r).
  set (r' := rs_set r fb fbh fi lo inc ck) in *.
  assert (Hv' : (if contains (Z.land (rs_feature_ro_compat r) FeatureRoCompatSet.all) FeatureRoCompatSet.METADATA_CSUM
    then verify_superblock_checksum r' else Ok tt) = Ok tt) by (destruct (contains _ FeatureRoCompatSet.METADATA_CSUM); [by apply Hv|done]).
  generalize dependent (verify_superblock_checksum r'). intros v _ Hv'. subst r'. rs_simpl.
  rewrite (supported_known inc Hs), Hs, He, H64.
  repeat match goal with
  | H : ?b = true |- context [if ?b then _ else _] => rewrite H
  | H : ?m = Ok _ |- context [rbind ?m _] => rewrite H; cbn [rbind]
  end.
  rewrite (proj2 (Z.ltb_ge _ _)) by done. rewrite (proj2 (Z.ltb_ge _ _)) by done. done.
Qed.

Lemma free_count_roundtrip r s n :
  sb_ok s -> sb_try_from r = Ok s -> 0 <= n <= sb_blocks_count s ->
  splice_count_hi (u32 n) (if is_64bit s then u32 (Z.shiftr n 32) else rs_free_blocks_count_hi r) (is_64bit s) = Ok n.
Proof.
  intros Hok H Hn. pose proof (so_blocks s Hok) as Hb. unfold splice_count_hi. destruct (is_64bit s) eqn:E; cbn [negb].
  - rewrite splice_hi_split; [done|]. unfold fits in *. lia.
  - assert (rs_free_blocks_count_hi r = 0) as ->.
    { unfold sb_try_from in H. inv_result. destruct x1 as [[rev ino] isz]. inv_result. subst s.
      unfold is_64bit in E. cbn [sb_feature_incompat] in E. rewrite E in *. unfold splice_count_hi in *. cbn [negb] in *. inv_result. by bool_hyps. }
    cbn. f_equal. apply wrap_small. unfold fits in *. lia.
Qed.

(** What an operation may have done to the mutable fields since the parse. *)
Definition sb_moves (s0 s : SuperBlock) : Prop :=
  exists fb fi inc lo, s = sb_set s0 fb fi inc lo /\ 0 <= fb <= sb_blocks_count s0 /\ 0 <= fi <= sb_inodes_count s0 /\
    Z.ldiff inc FeatureIncompatSet.SUPP = 0 /\ contains inc FeatureIncompatSet.EXTENTS = true /\
    contains inc FeatureIncompatSet.IS_64BIT = is_64bit s0.

Lemma supported_fits inc : 0 <= inc -> Z.ldiff inc FeatureIncompatSet.SUPP = 0 -> fits 32 inc.
Proof.
  intros Hp H. apply fits_of_bits; [lia|]. intros n Hn.
  assert (E : Z.testbit (Z.ldiff inc FeatureIncompatSet.SUPP) n = false) by (rewrite H; apply Z.bits_0).
  rewrite Z.ldiff_spec, (testbit_fits 32 FeatureIncompatSet.SUPP) in E by (done || lia). by rewrite andb_true_r in E.
Qed.

Lemma write_reparses r s0 s lo inc :
  c_wf raw_sb_codec r -> sb_try_from r = Ok s0 -> sb_moves s0 s -> fits 32 lo -> fits 32 inc ->
  Z.ldiff inc FeatureIncompatSet.SUPP = 0 -> contains inc FeatureIncompatSet.EXTENTS = true ->
  contains inc FeatureIncompatSet.IS_64BIT = is_64bit s0 ->
  c_wf raw_sb_codec (store_raw s lo inc r) /\
  sb_try_from (store_raw s lo inc r) =
    Ok (sb_set s (sb_free_blocks_count s) (sb_free_inodes_count s) inc (if lo =? 0 then None else Some lo)).
Proof.
  intros W H (fb & fi & inc' & lo' & -> & Hfb & Hfi & Hs & He & H64) Hlo Hinc Hs' He' H64'.
  pose proof (sb_try_from_ok r s0 W H) as Hok. destruct (raw_sb_wf_fields r W) as (W1 & W2 & W3 & W4 & W5 & W6 & W7 & W8 & _).
  pose proof (so_inodes32 s0 Hok) as Hi32.
  set (s := sb_set s0 fb fi inc' lo').
  assert (Es : is_64bit s = is_64bit s0) by exact H64.
  pose proof (free_count_roundtrip r s0 fb Hok H Hfb) as Hrt. unfold store_raw.
  change (has_metadata_csum s) with (has_metadata_csum s0). change (sb_set s ?a ?b ?c ?d) with (sb_set s0 a b c d). change (sb_free_blocks_count s) with fb.
  change (sb_free_inodes_count s) with fi.
  unfold write_free_blocks_count. rewrite Es. change (sb_free_blocks_count s) with fb.
  set (hi := if is_64bit s0 then u32 (Z.shiftr fb 32) else rs_free_blocks_count_hi r) in *. rs_simpl.
  assert (F1 : fits 32 (u32 fb)) by (apply wrap_fits; lia).
  assert (F2 : fits 32 hi) by (unfold hi; destruct (is_64bit s0); [apply wrap_fits; lia|done]).
  assert (F3 : fits 32 fi) by (unfold fits in *; lia).
  assert (W0 : fits 32 (rs_checksum r)) by (cbn -[fits zlen] in W; tauto).
  change (rs_set (rs_set r ?a ?b ?c ?d ?e ?f) ?a' ?b' ?c' ?d' ?e' ?f') with (rs_set r a' b' c' d' e' f').
  set (r2 := rs_set r (u32 fb) hi fi lo inc (rs_checksum r)).
  pose proof (sb_checksum_fits r2) as Hck.
  destruct (has_metadata_csum s0) eqn:Ec.
  - unfold set_rs_checksum. subst r2. rs_simpl. set (ck := sb_checksum _) in *.
    change (rs_set (rs_set r ?a ?b ?c ?d ?e ?f) ?a' ?b' ?c' ?d' ?e' ?f') with (rs_set r a' b' c' d' e' f').
    split; [by apply rs_set_wf|]. apply reparse_set; try done; try lia. intros _.
    apply (verify_set r (u32 fb) hi fi lo inc); try done.
    unfold sb_try_from in H. inv_result. destruct x1 as [[rev ino] isz]. inv_result. subst s0.
    unfold has_metadata_csum in Ec. cbn [sb_feature_ro_compat] in Ec. rewrite Ec in *. by destruct x2.
  - split; [by apply rs_set_wf|]. apply reparse_set; try done; try lia. by rewrite Ec.
Qed.

(** ** Lemmas: powers and counters *)

Lemma is_power_of_loop_spec fuel v b :
  2 <= b -> 0 < v < 2 ^ Z.of_nat fuel -> is_power_of_loop fuel v b = true <-> exists k, 1 <= k /\ v = b ^ k.
Proof.
  intros Hb. revert v. induction fuel as [|fuel IH]; intros v Hv; [simpl in Hv; lia|].
  cbn [is_power_of_loop]. rewrite Nat2Z.inj_succ, Z.pow_succ_r in Hv by lia. destruct (Z.ltb_spec b v).
  - destruct (Z.eqb_spec (v mod b) 0) as [Hm|Hm]; cbn [negb].
    + assert (Hq : v = b * (v / b)) by (apply Z_div_exact_full_2; lia).
      rewrite IH by nia. split; intros (k & Hk & E).
      * exists (k + 1). rewrite Z.pow_add_r by lia. lia.
      * destruct (decide (k = 1)) as [->|]; [lia|]. exists (k - 1). split; [lia|].
        replace k with (1 + (k - 1)) in E by lia. rewrite Z.pow_add_r, Z.pow_1_r in E by lia. nia.
    + split; [done|]. intros (k & Hk & E). exfalso. apply Hm. rewrite E. replace k with (1 + (k - 1)) by lia.
      rewrite Z.pow_add_r, Z.pow_1_r, Z.mul_comm by lia. apply Z_mod_mult.
  - rewrite Z.eqb_eq. split; [intros ->; exists 1; split; lia|]. intros (k & Hk & E).
    destruct (decide (k = 1)) as [->|]; [lia|]. pose proof (Z.pow_le_mono_r b 2 k). rewrite Z.pow_2_r in *. nia.
Qed.

Lemma is_power_of_spec v b : 2 <= b -> 0 < v < 2 ^ 32 -> is_power_of v b = true <-> exists k, 1 <= k /\ v = b ^ k.
Proof. intros. apply is_power_of_loop_spec; lia. Qed.

Lemma sb_ok_set s fb fi inc lo :
  sb_ok s -> 0 <= fb <= sb_blocks_count s -> 0 <= fi <= sb_inodes_count s ->
  Z.ldiff inc FeatureIncompatSet.SUPP = 0 -> contains inc FeatureIncompatSet.EXTENTS = true ->
  contains inc FeatureIncompatSet.IS_64BIT = is_64bit s -> (forall ino, lo = Some ino -> ino <> 0 /\ fits 32 ino) ->
  sb_ok (sb_set s fb fi inc lo).
Proof.
  intros [] Hfb Hfi H1 H2 H3 H4. assert (E : is_64bit (sb_set s fb fi inc lo) = is_64bit s) by exact H3.
  split; try done; by rewrite E.
Qed.

(** Each counter operation succeeds exactly when the counter stays in range,
    and then only moves the counter. *)
Lemma dec_free_blocks_spec s n : sb_ok s -> 0 <= n ->
  match dec_free_blocks s n with
  | Ok s' => sb_ok s' /\ n <= sb_free_blocks_count s /\
      s' = sb_set s (sb_free_blocks_count s - n) (sb_free_inodes_count s) (sb_feature_incompat s) (sb_last_orphan s)
  | Err e => e = EIO /\ sb_free_blocks_count s < n
  end.
Proof.
  intros Hs Hn. unfold dec_free_blocks. destruct (Z.leb_spec n (sb_free_blocks_count s)); [|done].
  pose proof (so_free_blocks s Hs). pose proof Hs as []. split_and!; [|lia|done]. apply sb_ok_set; try done; try lia; apply so_incompat0.
Qed.

Lemma inc_free_blocks_spec s n : sb_ok s -> 0 <= n ->
  match inc_free_blocks s n with
  | Ok s' => sb_ok s' /\ sb_free_blocks_count s + n <= sb_blocks_count s /\
      s' = sb_set s (sb_free_blocks_count s + n) (sb_free_inodes_count s) (sb_feature_incompat s) (sb_last_orphan s)
  | Err e => e = EIO /\ sb_blocks_count s < sb_free_blocks_count s + n
  end.
Proof.
  intros Hs Hn. unfold inc_free_blocks. pose proof (so_blocks s Hs) as Hb.
  assert (sb_blocks_count s < 2 ^ 64) by (destruct (is_64bit s); unfold fits in Hb; lia).
  destruct (Z.ltb_spec (sb_free_blocks_count s + n) (2 ^ 64)); [|split; [done|lia]].
  destruct (Z.ltb_spec (sb_blocks_count s) (sb_free_blocks_count s + n)); cbn [negb]; [done|].
  pose proof (so_free_blocks s Hs). pose proof Hs as []. split_and!; [|lia|done]. apply sb_ok_set; try done; try lia; apply so_incompat0.
Qed.

Lemma dec_free_inodes_spec s : sb_ok s ->
  match dec_free_inodes s with
  | Ok s' => sb_ok s' /\ 1 <= sb_free_inodes_count s /\
      s' = sb_set s (sb_free_blocks_count s) (sb_free_inodes_count s - 1) (sb_feature_incompat s) (sb_last_orphan s)
  | Err e => e = EIO /\ sb_free_inodes_count s < 1
  end.
Proof.
  intros Hs. unfold dec_free_inodes. destruct (Z.leb_spec 1 (sb_free_inodes_count s)); [|done].
  pose proof (so_free_inodes s Hs). pose proof Hs as []. split_and!; [|lia|done]. apply sb_ok_set; try done; try lia; apply so_incompat0.
Qed.

Lemma inc_free_inodes_spec s : sb_ok s ->
  match inc_free_inodes s with
  | Ok s' => sb_ok s' /\ sb_free_inodes_count s + 1 <= sb_inodes_count s /\
      s' = sb_set s (sb_free_blocks_count s) (sb_free_inodes_count s + 1) (sb_feature_incompat s) (sb_last_orphan s)
  | Err e => e = EIO /\ sb_inodes_count s < sb_free_inodes_count s + 1
  end.
Proof.
  intros Hs. unfold inc_free_inodes. pose proof (so_inodes32 s Hs) as Hb. unfold fits in Hb.
  destruct (Z.ltb_spec (sb_free_inodes_count s + 1) (2 ^ 32)); [|split; [done|lia]].
  destruct (Z.ltb_spec (sb_inodes_count s) (sb_free_inodes_count s + 1)); cbn [negb]; [done|].
  pose proof (so_free_inodes s Hs). pose proof Hs as []. split_and!; [|lia|done]. apply sb_ok_set; try done; try lia; apply so_incompat0.
Qed.

(** ** Lemmas: the captured image *)

Lemma capture_raw_reparses r s0 s head :
  c_wf raw_sb_codec r -> sb_try_from r = Ok s0 -> sb_moves s0 s -> sb_feature_incompat s = rs_feature_incompat r ->
  (forall ino, head = Some ino -> ino <> 0 /\ fits 32 ino) ->
  c_wf raw_sb_codec (capture_raw s head r) /\ sb_try_from (capture_raw s head r) = Ok (set_last_orphan s head).
Proof.
  intros W H Hm Hinc Hhead. unfold capture_raw. set (lo := match head with Some ino => ino | None => 0 end).
  assert (Hlo : fits 32 lo) by (unfold lo; destruct head as [i|]; [exact (proj2 (Hhead i eq_refl))|split; lia]).
  pose proof Hm as (fb & fi & inc & lo' & Es & _ & _ & Hs & He & H64).
  assert (Ei : sb_feature_incompat s = inc) by (by rewrite Es). rewrite <- Ei, Hinc in Hs, He, H64.
  destruct (write_reparses r s0 s lo (rs_feature_incompat r) W H Hm Hlo) as [W3 H3];
    [cbn -[fits zlen] in W; tauto|exact Hs|exact He|exact H64|]. split; [exact W3|]. rewrite H3.
  assert ((if lo =? 0 then None else Some lo) = head) as ->; [|by rewrite <- Hinc].
  unfold lo. destruct head as [i|]; [|done]. destruct (Hhead i eq_refl) as [Hi _]. by rewrite (proj2 (Z.eqb_neq _ _) Hi).
Qed.

(** What the journaled capture leaves in the superblock's block. *)
Lemma capture_patch_ok buf s0 s head :
  is_block buf -> sb_try_from (read_at raw_sb_codec SUPER_BLOCK_OFFSET buf) = Ok s0 -> sb_moves s0 s ->
  sb_feature_incompat s = rs_feature_incompat (read_at raw_sb_codec SUPER_BLOCK_OFFSET buf) ->
  (forall ino, head = Some ino -> ino <> 0 /\ fits 32 ino) ->
  is_block (capture_patch s head buf) /\
  sb_try_from (read_at raw_sb_codec SUPER_BLOCK_OFFSET (capture_patch s head buf)) = Ok (set_last_orphan s head) /\
  forall o n, 0 <= o -> o + n <= SUPER_BLOCK_OFFSET \/ SUPER_BLOCK_OFFSET + SUPER_BLOCK_SIZE <= o ->
    slice o n (capture_patch s head buf) = slice o n buf.
Proof.
  intros Hb H Hm Hinc Hhead. unfold is_block in Hb.
  assert (W : c_wf raw_sb_codec (read_at raw_sb_codec SUPER_BLOCK_OFFSET buf)) by (apply read_at_wf; [apply _|done|by rewrite Hb]).
  unfold capture_patch. generalize dependent (read_at raw_sb_codec SUPER_BLOCK_OFFSET buf). intros r H Hinc W.
  destruct (capture_raw_reparses r s0 s head W H Hm Hinc Hhead) as [W3 H3]. generalize dependent (capture_raw s head r). intros r3 W3 H3.
  assert (Hsz : SUPER_BLOCK_OFFSET + c_size raw_sb_codec <= zlen buf) by (rewrite Hb, raw_sb_size; done). split_and!.
  - unfold is_block. rewrite zlen_write_at; [exact Hb|apply _|done|exact Hsz|exact W3].
  - rewrite read_write_same; [exact H3|apply _|done|exact Hsz|exact W3].
  - intros o n Ho Hd. apply slice_write_other; [apply _|done|exact Hsz|exact W3|exact Ho|by rewrite raw_sb_size].
Qed.

(** The capture of any block is a block. *)
Lemma store_raw_wf s lo inc r :
  c_wf raw_sb_codec r -> sb_ok s -> fits 32 lo -> fits 32 inc -> c_wf raw_sb_codec (store_raw s lo inc r).
Proof.
  intros W Hs Hlo Hinc. unfold store_raw, write_free_blocks_count. rs_simpl.
  pose proof (so_inodes32 s Hs) as Hi. pose proof (so_free_inodes s Hs) as Hfi.
  assert (F3 : fits 32 (sb_free_inodes_count s)) by (unfold fits in *; lia).
  assert (F0 : fits 32 (rs_checksum r) /\ fits 32 (rs_free_blocks_count_hi r)) by (cbn -[fits zlen] in W; tauto).
  set (hi := if is_64bit s then _ else _). assert (F2 : fits 32 hi) by (unfold hi; destruct (is_64bit s); [apply wrap_fits; lia|tauto]).
  assert (F1 : fits 32 (u32 (sb_free_blocks_count s))) by (apply wrap_fits; lia).
  change (rs_set (rs_set r ?a ?b ?c ?d ?e ?f) ?a' ?b' ?c' ?d' ?e' ?f') with (rs_set r a' b' c' d' e' f').
  destruct (has_metadata_csum s); [|apply rs_set_wf; tauto]. unfold set_rs_checksum. rs_simpl.
  apply rs_set_wf; try tauto; [|apply sb_checksum_fits]. apply rs_set_wf; tauto.
Qed.

Lemma capture_patch_block s head buf :
  sb_ok s -> (forall ino, head = Some ino -> ino <> 0 /\ fits 32 ino) -> is_block buf -> is_block (capture_patch s head buf).
Proof.
  intros Hs Hh Hb. unfold is_block, capture_patch in *.
  assert (Hsz : SUPER_BLOCK_OFFSET + c_size raw_sb_codec <= zlen buf) by (rewrite Hb, raw_sb_size; done).
  assert (W : c_wf raw_sb_codec (read_at raw_sb_codec SUPER_BLOCK_OFFSET buf)) by (apply read_at_wf; [apply _|done|exact Hsz]).
  rewrite zlen_write_at; [exact Hb|apply _|done|exact Hsz|]. generalize dependent (read_at raw_sb_codec SUPER_BLOCK_OFFSET buf).
  intros r W. apply store_raw_wf; [exact W|exact Hs| |cbn -[fits zlen] in W; tauto].
  destruct head as [i|]; [by apply Hh|done].
Qed.

(** A superblock that parses has no feature the model forgets. *)
Lemma parsed_incompat r s : sb_try_from r = Ok s -> sb_feature_incompat s = rs_feature_incompat r.
Proof.
  intros H. unfold sb_try_from in H. inv_result. destruct x1 as [[rev fi] isz]. inv_result. subst s. cbn [sb_feature_incompat].
  bool_hyps. by apply supported_known.
Qed.

(** ** Theorems *)

(** C37: A superblock that validates is well formed, and its geometry is what
    the rest of the file system indexes with: every block from the first data
    block on lies in exactly one group of the descriptor table, every inode
    number has a group, and neither a group descriptor nor an inode slot
    straddles a block. *)
Theorem superblock_validated buf s :
  is_block buf -> sb_try_from (read_at raw_sb_codec SUPER_BLOCK_OFFSET buf) = Ok s ->
  sb_ok s /\
  (forall b, sb_first_data_block s <= b < sb_blocks_count s ->
     0 <= (b - sb_first_data_block s) / sb_nr_blocks_per_group s < sb_nr_block_groups s) /\
  (forall ino, 1 <= ino <= sb_inodes_count s -> 0 <= (ino - 1) / sb_nr_inodes_per_group s < sb_nr_block_groups s) /\
  (forall i, 0 <= i -> (i * sb_desc_size s) mod BLOCK_SIZE + sb_desc_size s <= BLOCK_SIZE) /\
  (forall i, 0 <= i -> (i * sb_inode_size s) mod BLOCK_SIZE + RAW_INODE_SIZE <= BLOCK_SIZE).
Proof.
  intros Hb H. assert (Hok : sb_ok s).
  { eapply sb_try_from_ok; [|exact H]. apply read_at_wf; [apply _|done|]. unfold is_block in Hb. by rewrite Hb. }
  destruct Hok as [H1 (k & Hk & H2) H3 H4 H5 H6 H7 H8 H9 H10 H11 H12 H13 H14 H15 H16 H17 H18] eqn:Eo. clear Eo.
  assert (Hal : forall i n m, 0 <= n <= 12 -> 0 <= m <= 2 ^ n -> (i * 2 ^ n) mod BLOCK_SIZE + m <= BLOCK_SIZE).
  { intros i n m Hn Hm. change BLOCK_SIZE with (2 ^ 12). replace 12 with ((12 - n) + n) by lia.
    rewrite Z.pow_add_r by lia. rewrite Zmult_mod_distr_r. pose proof (Z.mod_pos_bound i (2 ^ (12 - n)) ltac:(lia)). nia. }
  split_and!; [done| | | |].
  - intros b Hbb. split; [apply Z.div_pos; lia|]. apply Z.div_lt_upper_bound; lia.
  - intros ino Hi. split; [apply Z.div_pos; lia|]. apply Z.div_lt_upper_bound; lia.
  - intros i _. rewrite H3. destruct (is_64bit s); [apply (Hal i 6 64)|apply (Hal i 5 32)]; lia.
  - intros i _. rewrite H2. apply Hal; [lia|]. unfold RAW_INODE_SIZE. change 256 with (2 ^ 8).
    split; [lia|]. apply Z.pow_le_mono_r; lia.
Qed.

(** Journaling the superblock is lossless.  The captured image of block 0
    parses to the superblock in memory with the new orphan head, free counts
    included whatever their width, its checksum is valid, and the rest of the
    block is untouched. *)
Theorem capture_reparses buf s0 s head :
  is_block buf -> sb_try_from (read_at raw_sb_codec SUPER_BLOCK_OFFSET buf) = Ok s0 -> sb_moves s0 s ->
  sb_feature_incompat s = rs_feature_incompat (read_at raw_sb_codec SUPER_BLOCK_OFFSET buf) ->
  (forall ino, head = Some ino -> ino <> 0 /\ fits 32 ino) ->
  is_block (capture_patch s head buf) /\
  sb_try_from (read_at raw_sb_codec SUPER_BLOCK_OFFSET (capture_patch s head buf)) = Ok (set_last_orphan s head) /\
  forall o n, 0 <= o -> o + n <= SUPER_BLOCK_OFFSET \/ SUPER_BLOCK_OFFSET + SUPER_BLOCK_SIZE <= o ->
    slice o n (capture_patch s head buf) = slice o n buf.
Proof. apply capture_patch_ok. Qed.

(** The backup rule behind the overhead that [statfs] reports: with sparse
    backups a group carries a copy of the superblock exactly if it is 0, 1 or
    a power of 3, 5 or 7. *)
Theorem sparse_super_groups s g :
  0 <= g < 2 ^ 32 ->
  bg_has_super s g = true <->
    contains (sb_feature_ro_compat s) FeatureRoCompatSet.SPARSE_SUPER = false \/ g <= 1 \/
    exists p k, (p = 3 \/ p = 5 \/ p = 7) /\ 1 <= k /\ g = p ^ k.
Proof.
  intros Hg. unfold bg_has_super. destruct (Z.leb_spec g 1); [tauto|].
  destruct (contains _ _); cbn [negb]; [|tauto].
  assert (Hp : (is_power_of g 3 || is_power_of g 5 || is_power_of g 7 = true) <->
    exists p k, (p = 3 \/ p = 5 \/ p = 7) /\ 1 <= k /\ g = p ^ k).
  { rewrite !orb_true_iff, !is_power_of_spec by lia. split; [|by intros (p & k & [->|[->| ->]] & ? & ?); eauto].
    intros [[(k & ? & ?)|(k & ? & ?)]|(k & ? & ?)]; eauto 8. }
  destruct (Z.eqb_spec (g mod 2) 0) as [Hm|Hm].
  - split; [done|]. intros [?|[?|(p & k & Hpp & Hk & ->)]]; [done|lia|]. exfalso.
    rewrite Z.mod_eq in Hm by lia. assert (Z.odd (p ^ k) = true) as Ho.
    { rewrite Z.odd_pow by lia. by destruct Hpp as [->|[->| ->]]. }
    apply Z.odd_spec in Ho as [q Hq]. Z.to_euclidean_division_equations. lia.
  - rewrite Hp. split; [tauto|]. intros [?|[?|?]]; [done|lia|done].
Qed.

(** A volume of two groups with a checksum. *)
Module SampleSuper.
Definition fields : list (nat * Z * Z) :=
  [(4%nat, 0x0, 512); (4%nat, 0x4, 4096); (4%nat, 0xC, 1000); (4%nat, 0x10, 500); (4%nat, 0x18, 2); (4%nat, 0x1C, 2); (4%nat, 0x20, 2048);
   (4%nat, 0x28, 256); (2%nat, 0x38, MAGIC_NUM); (2%nat, 0x3C, 1); (4%nat, 0x4C, 1); (4%nat, 0x54, 11); (2%nat, 0x58, 256);
   (4%nat, 0x60, 0x42); (4%nat, 0x64, 0x401); (1%nat, 0x175, 1)].
Definition bytes : list byte := fold_left (fun b f => match f with (n, o, v) => put_le n o v b end) fields (zeros 1024).
Definition stamped : list byte := put_le 4 S_CHECKSUM_OFFSET (crc32c (not32 0) (slice 0 S_CHECKSUM_OFFSET bytes)) bytes.
Definition block : list byte := splice SUPER_BLOCK_OFFSET stamped (zeros BLOCK_SIZE).
Definition sb : SuperBlock :=
  match sb_try_from (read_at raw_sb_codec SUPER_BLOCK_OFFSET block) with
  | Ok s => s
  | Err _ => {| sb_inodes_count := 0; sb_blocks_count := 0; sb_free_blocks_count := 0; sb_free_inodes_count := 0;
      sb_first_data_block := 0; sb_block_size := 0; sb_nr_blocks_per_group := 0; sb_nr_block_groups := 0;
      sb_nr_inodes_per_group := 0; sb_nr_inode_table_blocks_per_group := 0; sb_inode_size := 0; sb_desc_size := 0;
      sb_first_ino := 0; sb_rev_level := Dynamic; sb_state := 0; sb_feature_compat := 0; sb_feature_incompat := 0;
      sb_feature_ro_compat := 0; sb_uuid := []; sb_last_orphan := None; sb_reserved_blocks_count := 0;
      sb_reserved_gdt_blocks := 0; sb_journal_ino := 0; sb_journal_dev := 0; sb_hash_seed := []; sb_hash_unsigned := false |}
  end.
End SampleSuper.

Lemma sample_super_parses :
  is_block SampleSuper.block /\ sb_try_from (read_at raw_sb_codec SUPER_BLOCK_OFFSET SampleSuper.block) = Ok SampleSuper.sb.
Proof. split; vm_compute; reflexivity. Qed.

Lemma superblock_validated_witness :
  sb_ok SampleSuper.sb /\ sb_nr_block_groups SampleSuper.sb = 2 /\ (500 - 0) / sb_nr_blocks_per_group SampleSuper.sb < 2.
Proof.
  destruct (superblock_validated SampleSuper.block SampleSuper.sb (proj1 sample_super_parses) (proj2 sample_super_parses)) as (H & H2 & _).
  split; [exact H|]. split; [vm_compute; reflexivity|]. exact (proj2 (H2 500 ltac:(vm_compute; split; congruence))).
Defined.

Lemma capture_reparses_witness :
  let s := sb_set SampleSuper.sb 999 499 0x42 None in
  sb_try_from (read_at raw_sb_codec SUPER_BLOCK_OFFSET (capture_patch s (Some 12) SampleSuper.block)) =
    Ok (set_last_orphan s (Some 12)).
Proof.
  apply (capture_reparses SampleSuper.block SampleSuper.sb (sb_set SampleSuper.sb 999 499 0x42 None) (Some 12)
    (proj1 sample_super_parses) (proj2 sample_super_parses)).
  - exists 999, 499, 0x42, None. split; [reflexivity|]. vm_compute. repeat split; congruence.
  - vm_compute. reflexivity.
  - intros ino [= <-]. split; [lia|]. vm_compute. split; congruence.
Defined.

Lemma sparse_super_groups_witness :
  bg_has_super SampleSuper.sb 27 = true /\ bg_has_super SampleSuper.sb 15 = false.
Proof.
  split; [|vm_compute; reflexivity]. apply (sparse_super_groups SampleSuper.sb 27); [lia|].
  right. right. exists 3, 3. split; [by left|]. by split.
Defined.
