(* ===== verification/MetaStore.v ===== *)
(** * What the journal promises to the file system

    The metadata code of the file system reaches the journal through a few
    calls: write and create accesses, patches, reads of the newest image,
    forgetting and pinning freed blocks, the credit probe, and the abort.  [MetaStore] is that
    set of calls under one open handle, [MetaStoreOk] what the callers rely
    on: a read returns the last patch, accesses stay valid, and an operation
    touches only the blocks it names.  [Op], a journal with an open handle,
    is the implementation, and its laws follow from the handle lemmas. *)

From S2P Require Import Prelude Pod JournalFormat JournalTags Device Geometry Revoke Transaction JournalState Handles.

(** ** The interface *)

Class MetaStore (S : Type) : Type := {
  ms_write : Z -> M S WriteAccess;
  ms_create : Z -> M S WriteAccess;
  ms_patch : WriteAccess -> (list byte -> list byte) -> M S unit;
  ms_read : S -> Z -> result (list byte);
  ms_discharge : Z -> Z -> M S unit;
  ms_pin : Z -> Z -> M S unit;
  ms_pinned : S -> list (Z * Z);
  ms_reserve : Z -> M S ExtendOutcome;
  ms_burst : Z -> M S unit;
  ms_credits : S -> Z;
  ms_request_commit : S -> S;
  ms_abort : S -> S;
  ms_aborted : S -> bool;
}.

(** A block that a freed run keeps from the allocator. *)
Definition pinned {S : Type} `{MetaStore S} (s : S) (b : Z) : Prop := exists r, r ∈ ms_pinned s /\ r.1 <= b < r.1 + r.2.

Class MetaStoreOk (S : Type) `{MetaStore S} : Type := {
  ms_ok : S -> Prop;
  ms_granted : S -> WriteAccess -> Z -> Prop;
  ms_read_block s b img : ms_ok s -> ms_read s b = Ok img -> is_block img;
  ms_write_spec s b r s' :
    ms_ok s -> ms_write b s = (r, s') ->
    ms_ok s' /\ (forall c, ms_read s' c = ms_read s c) /\ (forall a c, ms_granted s a c -> ms_granted s' a c) /\
    (forall c, pinned s' c <-> pinned s c) /\
    match r with Ok a => ms_granted s' a b | Err e => handled e = true end;
  ms_create_spec s b r s' :
    ms_ok s -> ms_create b s = (r, s') ->
    ms_ok s' /\ (forall c, c <> b -> ms_read s' c = ms_read s c) /\ (forall a c, ms_granted s a c -> ms_granted s' a c) /\
    (forall c, pinned s' c <-> pinned s c) /\
    match r with Ok a => ms_granted s' a b | Err e => handled e = true end;
  ms_patch_spec s a b f :
    ms_ok s -> ms_granted s a b -> (forall img, is_block img -> is_block (f img)) ->
    exists img s', ms_read s b = Ok img /\ ms_patch a f s = (Ok tt, s') /\ ms_ok s' /\
      (forall c, ms_read s' c = if decide (c = b) then Ok (f img) else ms_read s c) /\
      (forall a c, ms_granted s a c -> ms_granted s' a c) /\ (forall c, pinned s' c <-> pinned s c);
  ms_discharge_spec s start count :
    ms_ok s -> exists s', ms_discharge start count s = (Ok tt, s') /\ ms_ok s' /\
      (forall c, ~ (start <= c < start + count) -> ms_read s' c = ms_read s c) /\
      (forall c, pinned s' c <-> pinned s c);
  ms_pin_spec s start count :
    ms_ok s -> 0 < count -> exists s', ms_pin start count s = (Ok tt, s') /\ ms_ok s' /\
      (forall c, ms_read s' c = ms_read s c) /\
      (forall c, pinned s c \/ start <= c < start + count -> pinned s' c);
  ms_reserve_spec s need r s' :
    ms_ok s -> ms_reserve need s = (r, s') ->
    ms_ok s' /\ (forall c, ms_read s' c = ms_read s c) /\ (forall c, pinned s' c <-> pinned s c) /\
    match r with Ok _ => True | Err e => handled e = true end;
  ms_burst_spec s extra r s' :
    ms_ok s -> 0 <= extra -> ms_burst extra s = (r, s') ->
    ms_ok s' /\ (forall c, ms_read s' c = ms_read s c) /\ (forall c, pinned s' c <-> pinned s c) /\
    match r with Ok _ => True | Err e => handled e = true end;
  ms_reserve_granted s need : need <= ms_credits s -> ms_reserve need s = (Ok Granted, s);
  ms_request_spec s :
    ms_ok s -> ms_ok (ms_request_commit s) /\ (forall c, ms_read (ms_request_commit s) c = ms_read s c) /\
      (forall c, pinned (ms_request_commit s) c <-> pinned s c);
  ms_abort_spec s : ms_aborted (ms_abort s) = true;
  ms_abort_ok s : ms_ok s -> ms_ok (ms_abort s);
}.

(** A patch of one block, access and all. *)
Definition write_patch {S : Type} `{MetaStore S} (b : Z) (f : list byte -> list byte) : M S unit :=
  a ← ms_write b; ms_patch a f.

(** ** The journal with an open handle *)

Record op : Type := Op {
  o_j : Journal;
  o_h : Handle;
}.

Definition op_access {A} (live : Journal -> Handle -> Z -> result A * Journal * Handle) (b : Z) : M op A :=
  fun o => match live (o_j o) (o_h o) b with (r, j, h) => (r, Op j h) end.

Definition op_journal (f : Journal -> Handle -> result Journal) : M op unit := fun o =>
  match f (o_j o) (o_h o) with
  | Ok j => (Ok tt, Op j (o_h o))
  | Err e => (Err e, o)
  end.

#[export] Instance op_store : MetaStore op := {|
  ms_write := op_access live_write_access;
  ms_create := op_access live_create_access;
  ms_patch := fun a f => op_journal (fun j h => patch j a h f);
  ms_read := fun o b => view (o_j o) b;
  ms_discharge := fun start count => op_journal (fun j h => discharge j h start count);
  ms_pin := fun start count => op_journal (fun j h => pin_freed_run j (Some h) start count);
  ms_pinned := fun o => pinned_frees_snapshot (o_j o);
  ms_reserve := op_access try_reserve_next;
  ms_burst := op_access extend_reservation_for_burst;
  ms_credits := fun o => h_remaining (o_h o);
  ms_request_commit := fun o => Op (with_state (o_j o) (request_commit_of_running (state (o_j o)))) (o_h o);
  ms_abort := fun o => Op (abort_with_error (o_j o)) (o_h o);
  ms_aborted := fun o => aborted (o_j o);
|}.

(** ** Lemmas *)

(** Every image a read can return is a block. *)
Record images_ok (j : Journal) : Prop := {
  io_disk : disk_ok (d_disk (j_device j));
  io_retained : map_Forall (fun _ i => is_block (ui_image i)) (uncheckpointed (state j));
  io_captured : forall t, active (state j) = Some t -> map_Forall (fun _ c => is_block (buffer c)) (metadata t);
}.

Definition op_ok (o : op) : Prop :=
  images_ok (o_j o) /\ exists l1 l2, seats_ok (state (o_j o)) (l1 ++ o_h o :: l2).

Definition op_granted (o : op) (a : WriteAccess) (b : Z) : Prop :=
  exists s t c, active_txn (state (o_j o)) (h_tid (o_h o)) = Some (s, t) /\ metadata t !! b = Some c /\
    a = Some (h_tid (o_h o), b, generation c).

Lemma op_active o : op_ok o ->
  exists l1 l2 s t, seats_ok (state (o_j o)) (l1 ++ o_h o :: l2) /\ o_h o ∈ l1 ++ o_h o :: l2 /\
    active_txn (state (o_j o)) (h_tid (o_h o)) = Some (s, t) /\ active (state (o_j o)) = Some t /\ tid t = h_tid (o_h o).
Proof.
  intros [Hi (l1 & l2 & Hs)]. destruct (active_txn_of _ _ (o_h o) Hs) as (s & t & E & Ha & Ht & _); [set_solver|].
  exists l1, l2, s, t. split_and!; try done. set_solver.
Qed.

Lemma view_block o b img : op_ok o -> view (o_j o) b = Ok img -> is_block img.
Proof.
  intros [[Hd Hu Hc] (l1 & l2 & Hs)] H. rewrite (view_active _ _ b Hs) in H. unfold view_of in H.
  destruct (active (state (o_j o))) as [t|]; cbn [mbind option_bind] in H.
  - unfold buffer_bytes in H. destruct (metadata t !! b) as [c|] eqn:E; cbn in H.
    + injection H as <-. by apply (Hc t eq_refl b c).
    + destruct (uncheckpointed _ !! b) as [i|] eqn:Eu; [injection H as <-; by apply (Hu b i)|by eapply dev_read_block].
  - destruct (uncheckpointed _ !! b) as [i|] eqn:Eu; [injection H as <-; by apply (Hu b i)|by eapply dev_read_block].
Qed.

(** A step that replaces the active transaction by one with more captures. *)
Lemma op_put o s t t' h' l1 l2 :
  op_ok o -> active_txn (state (o_j o)) (h_tid (o_h o)) = Some (s, t) ->
  seats_ok (put_active (state (o_j o)) s t') (l1 ++ h' :: l2) -> tid t' = tid t -> h_tid h' = h_tid (o_h o) ->
  map_Forall (fun _ c => is_block (buffer c)) (metadata t') ->
  let o' := Op (with_state (o_j o) (put_active (state (o_j o)) s t')) h' in
  op_ok o' /\ active_txn (state (o_j o')) (h_tid h') = Some (s, t') /\
  (forall b, view (o_j o') b = view_of (Some t') (uncheckpointed (state (o_j o))) (j_device (o_j o)) b) /\
  (forall b, view (o_j o) b = view_of (Some t) (uncheckpointed (state (o_j o))) (j_device (o_j o)) b) /\
  (forall b, pinned o' b <-> pinned o b).
Proof.
  intros Hok E Hs' Ht Hh Hm o'. destruct (op_active o Hok) as (k1 & k2 & s0 & t0 & Hs & Hin & E0 & Ha & Ht0).
  rewrite E in E0. injection E0 as <- <-. destruct (put_active_active _ _ _ _ _ t' Hs Hin E) as (Ha' & Hf & _).
  assert (Eu : uncheckpointed (put_active (state (o_j o)) s t') = uncheckpointed (state (o_j o))) by (by destruct s).
  assert (Ep : pinned_frees (put_active (state (o_j o)) s t') = pinned_frees (state (o_j o))) by (by destruct s).
  split_and!.
  - destruct Hok as [[Hd Hu Hc] _]. split; [|by exists l1, l2]. split; cbn; [done|by rewrite Eu|]. intros t1. rewrite Ha'. by intros [= <-].
  - cbn. rewrite Hh. apply Hf. congruence.
  - intros b. rewrite (view_active (o_j o') _ b Hs'). cbn. by rewrite Ha', Eu.
  - intros b. rewrite (view_active _ _ b Hs). by rewrite Ha.
  - intros b. unfold pinned. cbn. unfold pinned_frees_snapshot. cbn. by rewrite Ep.
Qed.

(** The capture of an access, whatever its outcome. *)
Lemma capture_outcome g st s t0 h fresh b gen r st' h' :
  finish_capture g st s t0 h fresh b gen = (r, st', h') ->
  exists t1, st' = put_active st s t1 /\ metadata t1 = metadata t0 /\ tid t1 = tid t0 /\ h_tid h' = h_tid h /\
    match r with Ok a => a = Some (h_tid h, b, gen) | Err e => handled e = true end.
Proof.
  unfold finish_capture. destruct fresh; [|intros [= <- <- <-]; by exists t0].
  destruct (charge_fresh_capture g t0 h) as [[r1 t1] h1] eqn:Ec. destruct (charge_metadata _ _ _ _ _ _ Ec) as (Em & Eh & Et).
  assert (Hr : forall e, r1 = Err e -> handled e = true).
  { unfold charge_fresh_capture, try_grow_reservation in Ec. intros e ->. destruct (h_remaining h =? 0); [|done].
    destruct (max_credits g <? _); [|done]. destruct (max_credits g <? _); [by injection Ec as <- _ _|done]. }
  destruct r1 as [u|e]; intros [= <- <- <-]; exists t1; split_and!; try done; [congruence|by apply Hr].
Qed.

(** Reads when the transaction gained a capture that holds what was read. *)
Lemma view_same_capture t t' uc d b img :
  view_of (Some t) uc d b = Ok img -> metadata t' !! b = (metadata t !! b) \/ (exists c, metadata t' !! b = Some c /\ buffer c = img) ->
  view_of (Some t') uc d b = Ok img.
Proof.
  intros H [E|(c & E & Eb)]; unfold view_of, buffer_bytes in *; cbn [mbind option_bind] in *; rewrite E; [done|]. cbn. by rewrite Eb.
Qed.

Lemma view_other t t' uc d b : metadata t' !! b = metadata t !! b -> view_of (Some t') uc d b = view_of (Some t) uc d b.
Proof. intros E. unfold view_of, buffer_bytes. cbn [mbind option_bind]. by rewrite E. Qed.

(** What an access does to the captures: at most the block it names gains
    one. *)
Definition captures_only (t t1 : Transaction) (b : Z) (ok : list byte -> Prop) : Prop :=
  tid t1 = tid t /\ (forall c, c <> b -> metadata t1 !! c = metadata t !! c) /\
  (metadata t1 !! b = metadata t !! b \/ exists c, metadata t1 !! b = Some c /\ metadata t !! b = None /\ ok (buffer c)).

(** What a handle sees after one of its accesses. *)
Lemma op_capture o s t t1 h1 l1 l2 b ok :
  op_ok o -> active_txn (state (o_j o)) (h_tid (o_h o)) = Some (s, t) ->
  seats_ok (put_active (state (o_j o)) s t1) (l1 ++ h1 :: l2) -> h_tid h1 = h_tid (o_h o) ->
  captures_only t t1 b ok -> (forall img, ok img -> is_block img) ->
  let o' := Op (with_state (o_j o) (put_active (state (o_j o)) s t1)) h1 in
  op_ok o' /\ (forall c, c <> b -> view (o_j o') c = view (o_j o) c) /\
  (view (o_j o') b = view (o_j o) b \/ exists img, view (o_j o') b = Ok img /\ ok img) /\
  (forall a c, op_granted o a c -> op_granted o' a c) /\ (forall c, pinned o' c <-> pinned o c) /\
  active_txn (state (o_j o')) (h_tid h1) = Some (s, t1).
Proof.
  intros Hok E Hs1 Eh (Et & Hoth & Hb) Hblk o'.
  assert (Hm : map_Forall (fun _ c => is_block (buffer c)) (metadata t1)).
  { destruct (op_active o Hok) as (k1 & k2 & s0 & t0 & _ & _ & E0 & Ha & _). rewrite E in E0. injection E0 as <- <-.
    pose proof (io_captured _ (proj1 Hok) t Ha) as Hc. intros c x Hx. destruct (decide (c = b)) as [->|Hne].
    - destruct Hb as [Hb|(y & Hb & _ & Hy)]; [rewrite Hb in Hx; by apply (Hc b x)|]. rewrite Hb in Hx. injection Hx as <-. by apply Hblk.
    - rewrite Hoth in Hx by done. by apply (Hc c x). }
  destruct (op_put o s t t1 h1 l1 l2 Hok E Hs1 Et Eh Hm) as (P1 & P2 & P3 & P4 & P5). fold o' in P1, P2, P3, P4, P5.
  split_and!; try done.
  - intros c Hne. rewrite P3, P4. by apply view_other, Hoth.
  - rewrite P3, P4. destruct Hb as [Hb|(y & Hb & _ & Hy)]; [left; by apply view_other|right].
    exists (buffer y). split; [|done]. unfold view_of, buffer_bytes. cbn [mbind option_bind]. by rewrite Hb.
  - intros a c (s0 & t0 & x & E0 & Em & ->). rewrite E in E0. injection E0 as <- <-. exists s, t1, x. cbn [o_j o_h o']. rewrite <- Eh.
    split_and!; try done. destruct (decide (c = b)) as [->|Hne]; [|by rewrite Hoth].
    destruct Hb as [->|(? & _ & Hn & _)]; [done|]. by rewrite Hn in Em.
Qed.

(** No seat precedes the active transaction. *)
Lemma no_locked_predecessor st hs i s t :
  seats_ok st hs -> active_txn st i = Some (s, t) -> match s with SeatRunning => locking st | SeatLocking => None end = None.
Proof.
  intros [Hx _ _] E. destruct s; [|done]. destruct (locking st) eqn:Ek; [|done].
  unfold active_txn in E. rewrite (Hx (mk_is_Some _ _ eq_refl)), Ek in E. by destruct (_ =? _).
Qed.

Lemma write_access_outcome o s t b r j1 h1 :
  op_ok o -> active_txn (state (o_j o)) (h_tid (o_h o)) = Some (s, t) ->
  live_write_access (o_j o) (o_h o) b = (r, j1, h1) ->
  exists t1, j1 = with_state (o_j o) (put_active (state (o_j o)) s t1) /\ h_tid h1 = h_tid (o_h o) /\
    captures_only t t1 b (fun img => view (o_j o) b = Ok img) /\
    match r with
    | Ok a => exists c, metadata t1 !! b = Some c /\ a = Some (h_tid (o_h o), b, generation c)
    | Err e => handled e = true
    end.
Proof.
  intros Hok E El. destruct (op_active o Hok) as (l1 & l2 & s0 & t0 & Hs & Hin & E0 & Ha & Ht). rewrite E in E0. injection E0 as <- <-.
  unfold live_write_access in El. rewrite E, (no_locked_predecessor _ _ _ _ _ Hs E) in El. cbn [mbind option_bind] in El.
  pose proof (view_active _ _ b Hs) as Hv. rewrite Ha in Hv. unfold view_of in Hv. cbn [mbind option_bind] in Hv.
  unfold capture_write in El. cbn [metadata cancel_revoke with_captures] in El. unfold buffer_bytes in Hv.
  destruct (metadata t !! b) as [c|] eqn:Em; cbn [fmap option_fmap option_map] in Hv.
  - destruct (finish_capture _ _ _ _ _ _ _ _) as [[r1 st1] h'] eqn:Ef. injection El as <- <- <-.
    destruct (capture_outcome _ _ _ _ _ _ _ _ _ _ _ Ef) as (t1 & -> & Em1 & Et1 & Eh & Hr). exists t1.
    split_and!; try done; [split_and!; [done|by intros; rewrite Em1|left; by rewrite Em1]|].
    destruct r1; [|done]. exists c. by rewrite Em1.
  - destruct (match ui_image <$> _ with Some s => Ok s | None => _ end) as [img|e] eqn:Ei.
    + unfold fresh_capture in El. destruct (finish_capture _ _ _ _ _ _ _ _) as [[r1 st1] h'] eqn:Ef. injection El as <- <- <-.
      destruct (capture_outcome _ _ _ _ _ _ _ _ _ _ _ Ef) as (t1 & -> & Em1 & Et1 & Eh & Hr). exists t1.
      assert (view (o_j o) b = Ok img) as Hvi.
      { rewrite Hv. destruct (uncheckpointed (state (o_j o)) !! b); cbn in Ei; [by injection Ei as <-|done]. }
      cbn [metadata with_captures cancel_revoke] in Em1.
      split_and!; try done; [split_and!; [done| |right; eexists; rewrite Em1, lookup_insert_eq; by split_and!]|].
      * intros c Hne. by rewrite Em1, lookup_insert_ne.
      * destruct r1; [|done]. eexists. by rewrite Em1, lookup_insert_eq.
    + injection El as <- <- <-. exists (cancel_revoke t b). split_and!; try done. split_and!; try done. by left.
Qed.

Lemma op_write_spec o b r o' :
  op_ok o -> ms_write b o = (r, o') ->
  op_ok o' /\ (forall c, ms_read o' c = ms_read o c) /\ (forall a c, op_granted o a c -> op_granted o' a c) /\
  (forall c, pinned o' c <-> pinned o c) /\ match r with Ok a => op_granted o' a b | Err e => handled e = true end.
Proof.
  intros Hok H. destruct (op_active o Hok) as (l1 & l2 & s & t & Hs & Hin & E & Ha & Ht). cbn in H. unfold op_access in H.
  destruct (live_write_access (o_j o) (o_h o) b) as [[r1 j1] h1] eqn:El. injection H as <- <-.
  pose proof (write_access_seats _ _ _ _ _ _ _ _ Hs El) as Hs1.
  destruct (write_access_outcome o s t b r1 j1 h1 Hok E El) as (t1 & -> & Eh & Hcap & Hr).
  destruct (op_capture o s t t1 h1 l1 l2 b _ Hok E Hs1 Eh Hcap) as (P1 & P2 & P3 & P4 & P5 & P6); [by intros img; apply view_block|].
  split_and!; try done.
  - intros c. destruct (decide (c = b)) as [->|Hne]; [|by apply P2]. destruct P3 as [P3|(img & P3 & P3')]; [done|]. cbn in *. congruence.
  - destruct r1 as [a|e]; [|done]. destruct Hr as (c & Hc & ->). exists s, t1, c. cbn [o_h]. by rewrite Eh in *.
Qed.

Lemma create_access_outcome o s t b r j1 h1 :
  op_ok o -> active_txn (state (o_j o)) (h_tid (o_h o)) = Some (s, t) ->
  live_create_access (o_j o) (o_h o) b = (r, j1, h1) ->
  exists t1, j1 = with_state (o_j o) (put_active (state (o_j o)) s t1) /\ h_tid h1 = h_tid (o_h o) /\
    captures_only t t1 b (fun img => img = zeros BLOCK_SIZE) /\
    match r with
    | Ok a => exists c, metadata t1 !! b = Some c /\ a = Some (h_tid (o_h o), b, generation c)
    | Err e => handled e = true
    end.
Proof.
  intros Hok E El. unfold live_create_access, verify_active in El. rewrite E in El.
  unfold capture_create in El. cbn [metadata cancel_revoke with_captures] in El.
  destruct (metadata t !! b) as [c|] eqn:Em; cbn in El.
  - destruct (finish_capture _ _ _ _ _ _ _ _) as [[r1 st1] h'] eqn:Ef. injection El as <- <- <-.
    destruct (capture_outcome _ _ _ _ _ _ _ _ _ _ _ Ef) as (t1 & -> & Em1 & Et1 & Eh & Hr). exists t1.
    split_and!; try done; [split_and!; [done|by intros; rewrite Em1|left; by rewrite Em1]|].
    destruct r1; [|done]. exists c. by rewrite Em1.
  - destruct (finish_capture _ _ _ _ _ _ _ _) as [[r1 st1] h'] eqn:Ef. injection El as <- <- <-.
    destruct (capture_outcome _ _ _ _ _ _ _ _ _ _ _ Ef) as (t1 & -> & Em1 & Et1 & Eh & Hr). exists t1.
    cbn [metadata with_captures cancel_revoke] in Em1.
    split_and!; try done; [split_and!; [done| |right; eexists; rewrite Em1, lookup_insert_eq; by split_and!]|].
    + intros c Hne. by rewrite Em1, lookup_insert_ne.
    + destruct r1; [|done]. eexists. by rewrite Em1, lookup_insert_eq.
Qed.

Lemma op_create_spec o b r o' :
  op_ok o -> ms_create b o = (r, o') ->
  op_ok o' /\ (forall c, c <> b -> ms_read o' c = ms_read o c) /\ (forall a c, op_granted o a c -> op_granted o' a c) /\
  (forall c, pinned o' c <-> pinned o c) /\ match r with Ok a => op_granted o' a b | Err e => handled e = true end.
Proof.
  intros Hok H. destruct (op_active o Hok) as (l1 & l2 & s & t & Hs & Hin & E & Ha & Ht). cbn in H. unfold op_access in H.
  destruct (live_create_access (o_j o) (o_h o) b) as [[r1 j1] h1] eqn:El. injection H as <- <-.
  pose proof (create_access_seats _ _ _ _ _ _ _ _ Hs El) as Hs1.
  destruct (create_access_outcome o s t b r1 j1 h1 Hok E El) as (t1 & -> & Eh & Hcap & Hr).
  destruct (op_capture o s t t1 h1 l1 l2 b _ Hok E Hs1 Eh Hcap) as (P1 & P2 & P3 & P4 & P5 & P6); [by intros img ->; vm_compute|].
  split_and!; try done. destruct r1 as [a|e]; [|done]. destruct Hr as (c & Hc & ->). exists s, t1, c. cbn [o_h]. by rewrite Eh in *.
Qed.

Lemma op_patch_spec o a b f :
  op_ok o -> op_granted o a b -> (forall img, is_block img -> is_block (f img)) ->
  exists img o', ms_read o b = Ok img /\ ms_patch a f o = (Ok tt, o') /\ op_ok o' /\
    (forall c, ms_read o' c = if decide (c = b) then Ok (f img) else ms_read o c) /\
    (forall a c, op_granted o a c -> op_granted o' a c) /\ (forall c, pinned o' c <-> pinned o c).
Proof.
  intros Hok (s & t & c & E & Em & ->) Hf. destruct (op_active o Hok) as (l1 & l2 & s0 & t0 & Hs & Hin & E0 & Ha & Ht).
  rewrite E in E0. injection E0 as <- <-.
  set (t1 := with_captures t (<[b := {| generation := generation c; buffer := f (buffer c) |}]> (metadata t)) (next_capture_generation t) (revoked t)).
  assert (Hs1 : seats_ok (put_active (state (o_j o)) s t1) (l1 ++ o_h o :: l2)) by (by eapply same_credits_seats).
  pose proof (io_captured _ (proj1 Hok) t Ha) as Hc.
  destruct (op_put o s t t1 (o_h o) l1 l2 Hok E Hs1) as (P1 & P2 & P3 & P4 & P5); [done|done| |].
  { cbn. apply map_Forall_insert_2; [apply Hf, (Hc b c Em)|done]. }
  exists (buffer c), (Op (with_state (o_j o) (put_active (state (o_j o)) s t1)) (o_h o)).
  assert (Hv : view (o_j o) b = Ok (buffer c)).
  { rewrite P4. unfold view_of, buffer_bytes. cbn [mbind option_bind]. by rewrite Em. }
  split_and!; try done.
  - cbn. unfold op_journal. cbn. unfold verify_active. rewrite E. cbn [rbind]. unfold apply_patch. by rewrite Em, Z.eqb_refl.
  - intros x. cbn [ms_read op_store o_j]. rewrite P3. unfold view_of, buffer_bytes. cbn [mbind option_bind metadata t1 with_captures].
    case_decide as Hx; [subst x; by rewrite lookup_insert_eq|]. rewrite lookup_insert_ne by done. rewrite P4. done.
  - intros a x (s0 & t0 & y & E0 & Ey & ->). rewrite E in E0. injection E0 as <- <-. unfold op_granted. cbn [o_j o_h].
    destruct (decide (x = b)) as [->|Hne].
    + rewrite Em in Ey. injection Ey as <-. exists s, t1. eexists. split; [exact P2|]. cbn. by rewrite lookup_insert_eq.
    + exists s, t1, y. split; [exact P2|]. cbn. by rewrite lookup_insert_ne.
Qed.

Lemma pinned_snapshot (m : gmap Z PinnedRun) (r : Z * Z) :
  r ∈ omap (fun b => (fun x => (b, pr_count x)) <$> m !! b) (sorted_keys (dom m)) <->
  exists x, m !! r.1 = Some x /\ pr_count x = r.2.
Proof.
  rewrite list_elem_of_omap. split.
  - intros (b & _ & (x & Hx & ->)%fmap_Some). by exists x.
  - intros (x & Hx & Hc). exists r.1. rewrite elem_of_sorted_keys, elem_of_dom, Hx. split; [by eexists|]. cbn. rewrite Hc. by destruct r.
Qed.

Lemma op_discharge_spec o start count :
  op_ok o -> exists o', ms_discharge start count o = (Ok tt, o') /\ op_ok o' /\
    (forall c, ~ (start <= c < start + count) -> ms_read o' c = ms_read o c) /\ (forall c, pinned o' c <-> pinned o c).
Proof.
  intros Hok. destruct (op_active o Hok) as (l1 & l2 & s & t & Hs & Hin & E & Ha & Ht).
  set (bids := run_blocks start count). set (t1 := fold_left forget_block bids t).
  set (uc := fold_left (fun m b => delete b m) bids (uncheckpointed (state (o_j o)))).
  set (st' := put_active (state (o_j o)) s t1).
  exists (Op (with_state (o_j o) (set_memory st' (st_revoked st') uc (pinned_frees st'))) (o_h o)).
  assert (Ed : ms_discharge start count o = (Ok tt, Op (with_state (o_j o) (set_memory st' (st_revoked st') uc (pinned_frees st'))) (o_h o))).
  { cbn. unfold op_journal, discharge, verify_active. by rewrite E. }
  assert (Hs1 : seats_ok (set_memory st' (st_revoked st') uc (pinned_frees st')) (l1 ++ o_h o :: l2)).
  { apply (seats_ok_ext st'); [done..|]. eapply same_credits_seats; [exact Hs|exact E|apply forget_blocks_credits]. }
  assert (Ha' : active (set_memory st' (st_revoked st') uc (pinned_frees st')) = Some t1).
  { destruct (put_active_active _ _ _ _ _ t1 Hs Hin E) as (H & _). exact H. }
  pose proof (proj1 Hok) as [Hd Hu Hc].
  split_and!; [done| | |].
  - split; [|by exists l1, l2]. split; cbn [o_j with_state j_device state]; [done| |].
    + intros b i Hi. cbn in Hi. unfold uc in Hi. rewrite evict_lookup in Hi. case_decide; [done|]. by apply (Hu b i).
    + intros t2 E2. rewrite Ha' in E2. injection E2 as <-. intros b c Hb. unfold t1 in Hb.
      rewrite (proj1 (forget_blocks_lookup bids t b)) in Hb. case_decide; [done|]. by apply (Hc t Ha b c).
  - intros c Hout. cbn [ms_read op_store o_j]. rewrite (view_active (with_state _ _) _ c Hs1), (view_active _ _ c Hs).
    cbn [with_state state j_device]. rewrite Ha', Ha. unfold view_of, buffer_bytes. cbn [mbind option_bind uncheckpointed set_memory].
    unfold uc, t1. rewrite evict_lookup, (proj1 (forget_blocks_lookup bids t c)).
    rewrite !decide_False by (unfold bids; by rewrite elem_of_run_blocks). done.
  - intros c. unfold pinned. cbn. unfold pinned_frees_snapshot. cbn. by destruct s.
Qed.

Lemma op_pin_spec o start count :
  op_ok o -> 0 < count -> exists o', ms_pin start count o = (Ok tt, o') /\ op_ok o' /\
    (forall c, ms_read o' c = ms_read o c) /\ (forall c, pinned o c \/ start <= c < start + count -> pinned o' c).
Proof.
  intros Hok Hn. destruct (op_active o Hok) as (l1 & l2 & s & t & Hs & Hin & E & Ha & Ht). cbn. unfold op_journal, pin_freed_run, verify_active.
  rewrite (proj2 (Z.eqb_neq _ _)), E by lia. cbn [rbind]. eexists. split; [done|].
  set (run := match pinned_frees _ !! start with Some _ => _ | None => _ end).
  assert (Hs1 : seats_ok (set_memory (state (o_j o)) (st_revoked (state (o_j o))) (uncheckpointed (state (o_j o)))
    (<[start := run]> (pinned_frees (state (o_j o))))) (l1 ++ o_h o :: l2)) by (by apply (seats_ok_ext (state (o_j o)))).
  split_and!.
  - destruct Hok as [[Hd Hu Hc] _]. split; [by split|by exists l1, l2].
  - intros c. cbn [o_j]. rewrite (view_active (with_state _ _) _ c Hs1), (view_active _ _ c Hs). done.
  - assert (Hrun : count <= pr_count run /\ forall x, pinned_frees (state (o_j o)) !! start = Some x -> pr_count x <= pr_count run).
    { unfold run. destruct (pinned_frees _ !! start) as [x|]; cbn; [split; [lia|]; intros ? [= <-]; lia|by split; [|done]]. }
    intros c Hc. unfold pinned in *. cbn in *. unfold pinned_frees_snapshot in *. cbn.
    destruct (decide (start <= c < start + pr_count run)) as [Hin'|Hout].
    { exists (start, pr_count run). split; [|done]. apply pinned_snapshot. exists run. cbn. by rewrite lookup_insert_eq. }
    destruct Hc as [(r & Hr & Hc)|Hc]; [|lia]. exists r. split; [|done]. apply pinned_snapshot in Hr as (x & Hx & Ex).
    apply pinned_snapshot. exists x. split; [|done]. cbn. rewrite lookup_insert_ne; [done|]. intros ->.
    destruct Hrun as [_ Hrun]. specialize (Hrun x Hx). lia.
Qed.

(** The probe moves credits only. *)
(** A reservation that grows in place. *)
Lemma op_grow o t0 extra out j1 h1 : op_ok o -> handle_is_locked (state (o_j o)) (o_h o) = false -> running (state (o_j o)) = Some t0 -> 0 <= extra ->
  grow (o_j o) (o_h o) extra t0 = (out, j1, h1) ->
  op_ok (Op j1 h1) /\ (forall c, view j1 c = view (o_j o) c) /\ (forall c, pinned (Op j1 h1) c <-> pinned o c).
Proof.
  intros Hok Ek Er Hx El. destruct (op_active o Hok) as (l1 & l2 & s & t & Hs & Hin & E & Ha & Ht). destruct o as [j h]. cbn [o_j o_h] in *.
  pose proof (grow_seats _ _ _ _ _ _ _ _ _ Hx Hs Er El) as Hs1.
  assert (s = SeatRunning /\ t0 = t) as [-> ->].
  { unfold active_txn, handle_is_locked in *. rewrite Er in E. destruct (tid t0 =? h_tid h); [by injection E as <- <-|].
    destruct (locking (state j)) as [k|]; [by rewrite Ek in E|done]. }
  unfold grow, try_grow_reservation in El. pose proof (io_captured _ (proj1 Hok) t Ha) as Hc. cbn in Hc.
  destruct (max_credits (geometry j) <? _); injection El as <- <- <-.
  all: destruct (op_put {| o_j := j; o_h := h |} SeatRunning t _ _ l1 l2 Hok E Hs1) as (P1 & P2 & P3 & P4 & P5); try done.
  all: split_and!; try done; intros c; by rewrite P3, P4.
Qed.

Lemma op_reserve_spec o need r o' :
  op_ok o -> ms_reserve need o = (r, o') ->
  op_ok o' /\ (forall c, ms_read o' c = ms_read o c) /\ (forall c, pinned o' c <-> pinned o c) /\
  match r with Ok _ => True | Err e => handled e = true end.
Proof.
  intros Hok H. cbn in H. unfold op_access, try_reserve_next in H.
  destruct (Z.leb_spec need (h_remaining (o_h o))); [by destruct o; injection H as <- <-|].
  destruct (handle_is_locked _ _) eqn:Ek; [by destruct o; injection H as <- <-|].
  destruct (running _) as [t0|] eqn:Er; [|by destruct o; injection H as <- <-].
  destruct (grow _ _ _ _) as [[out j1] h1] eqn:El. injection H as <- <-.
  destruct (op_grow o t0 (need - h_remaining (o_h o)) out j1 h1 Hok Ek Er ltac:(lia) El) as (P1 & P2 & P3). by split_and!.
Qed.

Lemma op_burst_spec o extra r o' :
  op_ok o -> 0 <= extra -> ms_burst extra o = (r, o') ->
  op_ok o' /\ (forall c, ms_read o' c = ms_read o c) /\ (forall c, pinned o' c <-> pinned o c) /\
  match r with Ok _ => True | Err e => handled e = true end.
Proof.
  intros Hok Hx H. cbn in H. unfold op_access, extend_reservation_for_burst in H.
  destruct (handle_is_locked _ _) eqn:Ek; [by destruct o; injection H as <- <-|].
  destruct (running _) as [t0|] eqn:Er; [|by destruct o; injection H as <- <-].
  destruct (grow _ _ _ _) as [[out j1] h1] eqn:El. destruct (op_grow o t0 extra out j1 h1 Hok Ek Er Hx El) as (P1 & P2 & P3).
  destruct out; injection H as <- <-; by split_and!.
Qed.

(** Asking for a commit only moves the target. *)
Lemma request_commit_same st :
  let st' := request_commit_of_running st in
  running st' = running st /\ locking st' = locking st /\ committing st' = committing st /\
  uncheckpointed st' = uncheckpointed st /\ pinned_frees st' = pinned_frees st.
Proof. unfold request_commit_of_running, request_commit_for. repeat case_match; done. Qed.

Lemma op_request_spec o :
  op_ok o -> op_ok (ms_request_commit o) /\ (forall c, ms_read (ms_request_commit o) c = ms_read o c) /\
    (forall c, pinned (ms_request_commit o) c <-> pinned o c).
Proof.
  intros [[Hd Hu Hc] (l1 & l2 & Hs)]. destruct (request_commit_same (state (o_j o))) as (E1 & E2 & E3 & E4 & E5).
  assert (Ha : active (request_commit_of_running (state (o_j o))) = active (state (o_j o))) by (unfold active; by rewrite E1, E2).
  assert (Hs' : seats_ok (request_commit_of_running (state (o_j o))) (l1 ++ o_h o :: l2)) by (by eapply seats_ok_ext).
  split_and!.
  - split; [split; cbn; [done|by rewrite E4|by rewrite Ha]|by exists l1, l2].
  - intros c. cbn [ms_request_commit ms_read op_store o_j].
    rewrite (view_active (with_state _ _) _ c Hs'), (view_active _ _ c Hs). cbn [with_state state j_device]. by rewrite Ha, E4.
  - intros c. unfold pinned. cbn. unfold pinned_frees_snapshot. cbn. by rewrite E5.
Qed.

(** Running the monad one step at a time. *)
Lemma bind_eq {St A B} (m : M St A) (f : A -> M St B) st :
  (m ≫= f) st = match m st with (Ok a, st') => f a st' | (Err e, st') => (Err e, st') end.
Proof. done. Qed.

Lemma lift_eq {St A} (r : result A) (st : St) : lift r st = (r, st).
Proof. done. Qed.

Lemma mret_eq {St A} (a : A) (st : St) : (mret a : M St A) st = (Ok a, st).
Proof. done. Qed.

Lemma fail_eq {St A} e (st : St) : (fail e : M St A) st = (Err e, st).
Proof. done. Qed.

(** Writing a journal superblock keeps every block of the device a block. *)
Lemma write_super_disk g raw d : disk_ok (d_disk d) -> c_wf superblock_codec raw -> disk_ok (d_disk (write_superblock g raw d).2).
Proof.
  intros Hd Hw. unfold write_superblock. unfold superblock_block. destruct (log_block_to_physical g 0) as [b|]; [|done]. unfold dev_write_val, barrier.
  rewrite bind_eq. rewrite lift_eq, bind_eq. destruct (d_disk d !! _) as [blk|] eqn:E; [|done].
  unfold dev_write. rewrite E. assert (Hb : is_block (write_at superblock_codec 0 (stamp_checksum raw) blk)).
  { unfold is_block. pose proof (Hd _ _ E) as Hblk. rewrite zlen_write_at; [done|apply _|done|by rewrite Hblk|by apply stamp_checksum_wf]. }
  destruct (d_wr d _); [|done]. cbn [fst snd d_sync]. destruct (d_sync d); cbn; by apply map_Forall_insert_2.
Qed.

Lemma op_abort_ok o : op_ok o -> op_ok (ms_abort o).
Proof.
  intros [[Hd Hu Hc] (l1 & l2 & Hs)]. cbn [ms_abort op_store]. unfold abort_with_error, write_errno_to_super. set (j := with_flags _ _ _ _ _ _).
  assert (Hj : op_ok (Op j (o_h o))) by (split; [by split|by exists l1, l2]).
  destruct (read_raw_superblock (geometry j) (j_device j)) as [raw|e] eqn:E; [|done]. unfold on_device.
  destruct (write_superblock (geometry j) _ (j_device j)) as [r d] eqn:Ew. cbn [snd]. split; [|by exists l1, l2]. split; [|done..].
  cbn [o_j with_device j_device]. change d with (r, d).2. rewrite <- Ew. apply write_super_disk; [done|].
  unfold read_raw_superblock in E. apply rbind_ok in E as (b & _ & (blk & Er & E)%rbind_ok). simplify_eq E. intros <-.
  apply set_s_errno_wf; [|done]. apply read_at_wf; [apply _|done|]. unfold dev_read in Er. repeat case_match; simplify_eq Er.
  intros <-. match goal with H : d_disk _ !! _ = Some ?x |- _ => by rewrite (Hd _ _ H) end.
Qed.

#[export] Instance op_store_ok : MetaStoreOk op.
Proof.
  refine {| ms_ok := op_ok; ms_granted := op_granted |}.
  - intros s b img. apply view_block.
  - apply op_write_spec.
  - apply op_create_spec.
  - apply op_patch_spec.
  - apply op_discharge_spec.
  - apply op_pin_spec.
  - apply op_reserve_spec.
  - apply op_burst_spec.
  - intros [j h] need Hn. cbn in *. unfold op_access, try_reserve_next. cbn. by rewrite (proj2 (Z.leb_le _ _)).
  - apply op_request_spec.
  - intros o. cbn. unfold abort_with_error, write_errno_to_super, on_device. repeat (case_match; simplify_eq/=); done.
  - apply op_abort_ok.
Defined.

(** ** A sample handle

    A fresh journal over any device, with one handle of a hundred credits. *)

Definition sample_op (d : device) : op :=
  Op (SampleHandle.started 100 (journal_new SampleHandle.wide_geometry d)) (handle_new 5 100).

Lemma sample_op_ok d : disk_ok (d_disk d) -> op_ok (sample_op d).
Proof.
  intros Hd. split.
  - split; [done|done|]. intros t E. assert (metadata t = ∅) as ->; [|done]. revert E. vm_compute. by intros [= <-].
  - exists [], []. apply (world_steps_ok _ _ (started_step SampleHandle.wide_geometry d 100 5 ltac:(lia) ltac:(vm_compute; reflexivity))).
    apply journal_new_seats.
Qed.
