(* ===== verification/GroupDesc.v ===== *)
(** * Block-group descriptors

    Models the descriptor half of [block_group.rs]: the 32-byte raw
    descriptor and its 64-bit tail, the decode that joins the halves, the
    checksums over the descriptor and the two bitmaps, and the patch that
    writes a group's counters into the block holding many descriptors. *)

From S2P Require Import Prelude Pod Checksum JournalFormat Device Bitmap SuperBlock.

(** ** Raw descriptors *)

Definition BG_INODE_UNINIT : Z := 0x0001.
Definition BG_BLOCK_UNINIT : Z := 0x0002.

Record RawBlockGroup : Type := {
  gl_block_bitmap_lo : Z;
  gl_inode_bitmap_lo : Z;
  gl_inode_table_lo : Z;
  gl_free_blocks_count_lo : Z;
  gl_free_inodes_count_lo : Z;
  gl_used_dirs_count_lo : Z;
  gl_flags : Z;
  gl_exclude_bitmap_lo : Z;
  gl_block_bitmap_csum_lo : Z;
  gl_inode_bitmap_csum_lo : Z;
  gl_itable_unused_lo : Z;
  gl_checksum : Z;
}.

Definition group_lo_codec : codec RawBlockGroup :=
  struct
    (fun '
      (v0, (v1, (v2, (v3, (v4, (v5, (v6, (v7, (v8, (v9, (v10, v11))))))))))) =>
      Build_RawBlockGroup
        v0 v1 v2 v3 v4 v5 v6 v7 v8 v9 v10 v11)
    (fun r =>
      (gl_block_bitmap_lo r, (gl_inode_bitmap_lo r, (gl_inode_table_lo r, (gl_free_blocks_count_lo r,
      (gl_free_inodes_count_lo r, (gl_used_dirs_count_lo r, (gl_flags r, (gl_exclude_bitmap_lo r,
      (gl_block_bitmap_csum_lo r, (gl_inode_bitmap_csum_lo r, (gl_itable_unused_lo r,
      gl_checksum r))))))))))))
    (
     le 4 ⊗ le 4 ⊗ le 4 ⊗ le 2 ⊗ le 2 ⊗ le 2 ⊗ le 2 ⊗ le 4 ⊗ le 2 ⊗ le 2 ⊗ le 2 ⊗ le 2)%codec.

Record RawBlockGroupHi : Type := {
  gh_block_bitmap_hi : Z;
  gh_inode_bitmap_hi : Z;
  gh_inode_table_hi : Z;
  gh_free_blocks_count_hi : Z;
  gh_free_inodes_count_hi : Z;
  gh_used_dirs_count_hi : Z;
  gh_itable_unused_hi : Z;
  gh_exclude_bitmap_hi : Z;
  gh_block_bitmap_csum_hi : Z;
  gh_inode_bitmap_csum_hi : Z;
  gh_reserved : Z;
}.

Definition group_hi_codec : codec RawBlockGroupHi :=
  struct
    (fun '
      (v0, (v1, (v2, (v3, (v4, (v5, (v6, (v7, (v8, (v9, v10)))))))))) =>
      Build_RawBlockGroupHi
        v0 v1 v2 v3 v4 v5 v6 v7 v8 v9 v10)
    (fun r =>
      (gh_block_bitmap_hi r, (gh_inode_bitmap_hi r, (gh_inode_table_hi r, (gh_free_blocks_count_hi r,
      (gh_free_inodes_count_hi r, (gh_used_dirs_count_hi r, (gh_itable_unused_hi r, (gh_exclude_bitmap_hi r,
      (gh_block_bitmap_csum_hi r, (gh_inode_bitmap_csum_hi r, gh_reserved r)))))))))))
    (
     le 4 ⊗ le 4 ⊗ le 4 ⊗ le 2 ⊗ le 2 ⊗ le 2 ⊗ le 2 ⊗ le 4 ⊗ le 2 ⊗ le 2 ⊗ le 4)%codec.

(** [size_of::<RawBlockGroup>()] and [size_of::<RawBlockGroup64>()] *)
Definition GROUP_LO_SIZE : Z := 32.
Definition GROUP64_SIZE : Z := 64.

(** The fields a group writes: the counters, the flags, the checksums. *)
Definition gl_counters (r : RawBlockGroup) (fb fi ud fl iu : Z) : RawBlockGroup :=
  Build_RawBlockGroup (gl_block_bitmap_lo r) (gl_inode_bitmap_lo r) (gl_inode_table_lo r) fb fi ud fl
    (gl_exclude_bitmap_lo r) (gl_block_bitmap_csum_lo r) (gl_inode_bitmap_csum_lo r) iu (gl_checksum r).

Definition gl_csums (r : RawBlockGroup) (bb ib ck : Z) : RawBlockGroup :=
  Build_RawBlockGroup (gl_block_bitmap_lo r) (gl_inode_bitmap_lo r) (gl_inode_table_lo r)
    (gl_free_blocks_count_lo r) (gl_free_inodes_count_lo r) (gl_used_dirs_count_lo r) (gl_flags r)
    (gl_exclude_bitmap_lo r) bb ib (gl_itable_unused_lo r) ck.

Definition gh_csums (r : RawBlockGroupHi) (bb ib : Z) : RawBlockGroupHi :=
  Build_RawBlockGroupHi (gh_block_bitmap_hi r) (gh_inode_bitmap_hi r) (gh_inode_table_hi r)
    (gh_free_blocks_count_hi r) (gh_free_inodes_count_hi r) (gh_used_dirs_count_hi r) (gh_itable_unused_hi r)
    (gh_exclude_bitmap_hi r) bb ib (gh_reserved r).

(** ** The decoded descriptor *)

Record BlockGroupDesc : Type := {
  block_bitmap_bid : Z;
  inode_bitmap_bid : Z;
  inode_table_bid : Z;
  free_blocks_count : Z;
  free_inodes_count : Z;
  used_dirs_count : Z;
  bg_flags : Z;
  itable_unused : Z;
}.

Definition desc_set (d : BlockGroupDesc) (fb fi ud fl iu : Z) : BlockGroupDesc :=
  Build_BlockGroupDesc (block_bitmap_bid d) (inode_bitmap_bid d) (inode_table_bid d) fb fi ud fl iu.

Definition is_block_uninit (d : BlockGroupDesc) : bool := negb (Z.land (bg_flags d) BG_BLOCK_UNINIT =? 0).
Definition is_inode_uninit (d : BlockGroupDesc) : bool := negb (Z.land (bg_flags d) BG_INODE_UNINIT =? 0).

(** [BlockGroupDesc::from_raw] *)
Definition from_raw (lo : RawBlockGroup) (hi : option RawBlockGroupHi) : BlockGroupDesc :=
  let bb := match hi with Some h => gh_block_bitmap_hi h | None => 0 end in
  let ib := match hi with Some h => gh_inode_bitmap_hi h | None => 0 end in
  let it := match hi with Some h => gh_inode_table_hi h | None => 0 end in
  let iu := match hi with Some h => gh_itable_unused_hi h | None => 0 end in
  {| block_bitmap_bid := splice_hi (gl_block_bitmap_lo lo) bb;
     inode_bitmap_bid := splice_hi (gl_inode_bitmap_lo lo) ib;
     inode_table_bid := splice_hi (gl_inode_table_lo lo) it;
     free_blocks_count := gl_free_blocks_count_lo lo;
     free_inodes_count := gl_free_inodes_count_lo lo;
     used_dirs_count := gl_used_dirs_count_lo lo;
     bg_flags := gl_flags lo;
     itable_unused := Z.lor (gl_itable_unused_lo lo) (Z.shiftl iu 16) |}.

(** ** Checksums *)

Definition BG_CHECKSUM_OFFSET : Z := 30.

(** [BlockGroupDesc::group_desc_checksum] *)
Definition group_desc_checksum (lo : RawBlockGroup) (hi : option RawBlockGroupHi) (group : Z) (seed : FsCsumSeed) : Z :=
  let crc := crc32c (fs_seed seed) (le_bytes 4 group) in
  let crc := crc32c crc (slice 0 BG_CHECKSUM_OFFSET (as_bytes group_lo_codec lo)) in
  let crc := crc32c crc (zeros 2) in
  let crc := match hi with Some h => crc32c crc (as_bytes group_hi_codec h) | None => crc end in
  Z.land crc 0xFFFF.

(** [BlockGroupDesc::bitmap_checksum] *)
Definition bitmap_checksum (seed : FsCsumSeed) (bitmap : list byte) (len : Z) : Z :=
  crc32c (fs_seed seed) (slice 0 len bitmap).

(** [BlockGroupDesc::stamp_checksums] *)
Definition stamp_checksums (lo : RawBlockGroup) (hi : option RawBlockGroupHi) (group : Z) (seed : FsCsumSeed) (bb ib : Z)
  : RawBlockGroup * option RawBlockGroupHi :=
  let lo := gl_csums lo (u16 bb) (u16 ib) (gl_checksum lo) in
  let hi := (fun h => gh_csums h (u16 (Z.shiftr bb 16)) (u16 (Z.shiftr ib 16))) <$> hi in
  (gl_csums lo (gl_block_bitmap_csum_lo lo) (gl_inode_bitmap_csum_lo lo) (group_desc_checksum lo hi group seed), hi).

(** [BlockGroupDesc::verify_group_desc_checksum] *)
Definition verify_group_desc_checksum (lo : RawBlockGroup) (hi : option RawBlockGroupHi) (group : Z) (seed : FsCsumSeed) : result unit :=
  check gl_checksum lo =? group_desc_checksum lo hi group seed else EUCLEAN in Ok tt.

(** ** Descriptors in a block *)

(** Whether the descriptor has the 64-bit tail. *)
Definition is_wide (desc_size : Z) : bool := GROUP64_SIZE <=? desc_size.

Definition raw_at (desc_size off : Z) (block : list byte) : RawBlockGroup * option RawBlockGroupHi :=
  (read_at group_lo_codec off block,
   if is_wide desc_size then Some (read_at group_hi_codec (off + GROUP_LO_SIZE) block) else None).

(** The decode of [BlockGroup::read_desc], on the block that holds the
    descriptor. *)
Definition desc_of_block (block : list byte) (off desc_size group : Z) (csum_seed : option FsCsumSeed) : result BlockGroupDesc :=
  let '(lo, hi) := raw_at desc_size off block in
  let? _ := match csum_seed with Some seed => verify_group_desc_checksum lo hi group seed | None => Ok tt end in
  Ok (from_raw lo hi).

(** [BlockGroup::read_desc] *)
Definition read_desc (d : device) (desc_offset desc_size group : Z) (csum_seed : option FsCsumSeed) : result BlockGroupDesc :=
  let? block := dev_read d (desc_offset / BLOCK_SIZE) in
  desc_of_block block (desc_offset mod BLOCK_SIZE) desc_size group csum_seed.

(** [BlockGroupDesc::patch_into] *)
Definition patch_into (d : BlockGroupDesc) (desc_offset : Z) (buf : list byte) : list byte :=
  let off := desc_offset mod BLOCK_SIZE in
  let raw := read_at group_lo_codec off buf in
  write_at group_lo_codec off
    (gl_counters raw (u16 (free_blocks_count d)) (u16 (free_inodes_count d)) (u16 (used_dirs_count d))
       (bg_flags d) (u16 (itable_unused d))) buf.

Definition write_raw (off : Z) (raw : RawBlockGroup * option RawBlockGroupHi) (block : list byte) : list byte :=
  let block := write_at group_lo_codec off raw.1 block in
  match raw.2 with
  | Some hi => write_at group_hi_codec (off + GROUP_LO_SIZE) hi block
  | None => block
  end.

(** The stamp of [BlockGroup::stamp_desc_csum_in_block], given the checksums
    of the bitmaps. *)
Definition stamp_block (desc_offset desc_size group : Z) (seed : FsCsumSeed) (bb ib : Z) (block : list byte) : list byte :=
  let off := desc_offset mod BLOCK_SIZE in
  let '(lo, hi) := raw_at desc_size off block in
  write_raw off (stamp_checksums lo hi group seed bb ib) block.

#[global] Arguments patch_into : simpl never.
#[global] Arguments write_raw : simpl never.
#[global] Arguments stamp_block : simpl never.
#[global] Arguments desc_of_block : simpl never.

(** ** Lemmas: codecs *)

#[export] Instance group_lo_codec_ok : CodecOk group_lo_codec.
Proof. struct_codec. Qed.

#[export] Instance group_hi_codec_ok : CodecOk group_hi_codec.
Proof. struct_codec. Qed.

Lemma group_lo_size : c_size group_lo_codec = GROUP_LO_SIZE.
Proof. reflexivity. Qed.

Lemma group_hi_size : c_size group_hi_codec = GROUP_LO_SIZE.
Proof. reflexivity. Qed.

(** ** Lemmas: rewriting a descriptor in its block *)

Section InBlock.
Context (desc_offset desc_size group : Z).
Context (Hsize : desc_size = 32 \/ desc_size = 64) (Hfit : desc_offset mod BLOCK_SIZE + desc_size <= BLOCK_SIZE).

Lemma off_bounds : 0 <= desc_offset mod BLOCK_SIZE /\ desc_offset mod BLOCK_SIZE + GROUP_LO_SIZE <= BLOCK_SIZE /\
  (is_wide desc_size = true -> desc_offset mod BLOCK_SIZE + GROUP64_SIZE <= BLOCK_SIZE /\ desc_size = 64) /\
  (is_wide desc_size = false -> desc_size = 32).
Proof.
  pose proof (Z.mod_pos_bound desc_offset BLOCK_SIZE ltac:(done)). unfold is_wide, GROUP64_SIZE, GROUP_LO_SIZE.
  split_and!; try lia; intros Hw; bool_hyps; lia.
Qed.

Lemma raw_at_wf block : is_block block ->
  c_wf group_lo_codec (raw_at desc_size (desc_offset mod BLOCK_SIZE) block).1 /\
  (forall h, (raw_at desc_size (desc_offset mod BLOCK_SIZE) block).2 = Some h -> c_wf group_hi_codec h).
Proof.
  intros Hb. unfold is_block in Hb. destruct off_bounds as (H1 & H2 & H3 & _). unfold raw_at. cbn [fst snd].
  split; [apply read_at_wf; [apply _|lia|rewrite group_lo_size; lia]|].
  intros h E. destruct (is_wide desc_size) eqn:Ew; [|done]. injection E as <-. destruct (H3 eq_refl).
  apply read_at_wf; [apply _|unfold GROUP_LO_SIZE; lia|]. rewrite group_hi_size. unfold GROUP_LO_SIZE, GROUP64_SIZE in *. lia.
Qed.

(** What a rewrite leaves: the new raw descriptor, and every other byte. *)
Lemma write_raw_spec lo hi block :
  is_block block -> c_wf group_lo_codec lo -> match hi with Some h => c_wf group_hi_codec h /\ is_wide desc_size = true | None => True end ->
  let block' := write_raw (desc_offset mod BLOCK_SIZE) (lo, hi) block in
  is_block block' /\ (raw_at desc_size (desc_offset mod BLOCK_SIZE) block').1 = lo /\
  (raw_at desc_size (desc_offset mod BLOCK_SIZE) block').2 =
    match hi with Some h => Some h | None => (raw_at desc_size (desc_offset mod BLOCK_SIZE) block).2 end /\
  (forall o n, 0 <= o -> o + n <= desc_offset mod BLOCK_SIZE \/ desc_offset mod BLOCK_SIZE + desc_size <= o ->
     slice o n block' = slice o n block).
Proof.
  intros Hb Wl Wh. destruct off_bounds as (H1 & H2 & H3 & H4). unfold is_block in Hb. set (off := desc_offset mod BLOCK_SIZE) in *.
  assert (L1 : zlen (write_at group_lo_codec off lo block) = BLOCK_SIZE).
  { rewrite zlen_write_at; [done|apply _|done|rewrite group_lo_size; lia|done]. }
  assert (R1 : read_at group_lo_codec off (write_at group_lo_codec off lo block) = lo).
  { apply read_write_same; [apply _|done|rewrite group_lo_size; lia|done]. }
  assert (O1 : forall o n, 0 <= o -> o + n <= off \/ off + GROUP_LO_SIZE <= o ->
    slice o n (write_at group_lo_codec off lo block) = slice o n block).
  { intros o n Ho Hd. apply slice_write_other; [apply _|done|rewrite group_lo_size; lia|done|done|by rewrite group_lo_size]. }
  unfold write_raw, raw_at. cbn [fst snd]. destruct hi as [h|].
  - destruct Wh as [Wh Hw]. destruct (H3 Hw) as [H5 H6]. unfold GROUP_LO_SIZE, GROUP64_SIZE in *. rewrite Hw. split_and!.
    + unfold is_block. rewrite zlen_write_at; [done|apply _|lia|rewrite group_hi_size; unfold GROUP_LO_SIZE; lia|done].
    + rewrite <- R1 at 2. unfold read_at. f_equal.
      apply slice_write_other; [apply _|lia|rewrite group_hi_size; unfold GROUP_LO_SIZE; lia|done|done|].
      rewrite group_lo_size. unfold GROUP_LO_SIZE. lia.
    + f_equal. apply read_write_same; [apply _|lia|rewrite group_hi_size; unfold GROUP_LO_SIZE; lia|done].
    + intros o n Ho Hd. rewrite slice_write_other; [apply O1; [done|lia]|apply _|lia| |done|done|];
        rewrite group_hi_size; unfold GROUP_LO_SIZE; lia.
  - split_and!; [done|done| |intros o n Ho Hd; apply O1; [done|unfold GROUP_LO_SIZE in *; lia]].
    destruct (is_wide desc_size) eqn:Ew; [|done]. destruct (H3 eq_refl). f_equal. unfold read_at. f_equal.
    apply O1; unfold GROUP_LO_SIZE; lia.
Qed.
End InBlock.

(** ** Lemmas: the checksum covers all but itself *)

Lemma gl_bytes_prefix lo bb ib ck : c_wf group_lo_codec (gl_csums lo bb ib ck) ->
  slice 0 BG_CHECKSUM_OFFSET (as_bytes group_lo_codec (gl_csums lo bb ib ck)) =
  slice 0 BG_CHECKSUM_OFFSET (as_bytes group_lo_codec (gl_csums lo bb ib 0)).
Proof.
  intros W. assert (exists pre, forall v, as_bytes group_lo_codec (gl_csums lo bb ib v) = pre ++ le_bytes 2 v) as (pre & E).
  { eexists. intros v. cbn -[le_bytes]. rewrite !app_assoc. reflexivity. }
  pose proof (codec_len _ W) as Hl. rewrite group_lo_size, E, zlen_app, zlen_le_bytes in Hl. rewrite !E.
  unfold BG_CHECKSUM_OFFSET, GROUP_LO_SIZE in *. by rewrite !slice_app_l by lia.
Qed.

Lemma group_desc_checksum_set lo hi bb ib ck ck' group seed :
  c_wf group_lo_codec (gl_csums lo bb ib ck) -> c_wf group_lo_codec (gl_csums lo bb ib ck') ->
  group_desc_checksum (gl_csums lo bb ib ck) hi group seed = group_desc_checksum (gl_csums lo bb ib ck') hi group seed.
Proof.
  intros W W'. unfold group_desc_checksum. by rewrite (gl_bytes_prefix lo bb ib ck W), (gl_bytes_prefix lo bb ib ck' W').
Qed.

Lemma desc_checksum_fits lo hi group seed : fits 16 (group_desc_checksum lo hi group seed).
Proof.
  unfold group_desc_checksum. cbv zeta. change 0xFFFF with (Z.ones 16). rewrite Z.land_ones by lia. apply Z.mod_pos_bound. lia.
Qed.

Lemma u16_fits z : fits 16 (u16 z).
Proof. by apply wrap_fits. Qed.

Lemma stamp_checksums_spec lo hi group seed bb ib :
  c_wf group_lo_codec lo -> (forall h, hi = Some h -> c_wf group_hi_codec h) ->
  let r := stamp_checksums lo hi group seed bb ib in
  c_wf group_lo_codec r.1 /\ (forall h, r.2 = Some h -> c_wf group_hi_codec h) /\
  verify_group_desc_checksum r.1 r.2 group seed = Ok tt /\ from_raw r.1 r.2 = from_raw lo hi /\ (is_Some r.2 <-> is_Some hi).
Proof.
  intros Wl Wh. unfold stamp_checksums. cbv zeta. cbn [gl_block_bitmap_csum_lo gl_inode_bitmap_csum_lo gl_csums fst snd].
  set (hi' := _ <$> hi). set (lo1 := gl_csums lo (u16 bb) (u16 ib) (gl_checksum lo)).
  change (gl_csums lo1 ?a ?b ?c) with (gl_csums lo a b c). set (ck := group_desc_checksum lo1 hi' group seed).
  assert (Hw : forall v, fits 16 v -> c_wf group_lo_codec (gl_csums lo (u16 bb) (u16 ib) v)).
  { intros v Hv. pose proof (u16_fits bb). pose proof (u16_fits ib). cbn -[fits u16] in *. tauto. }
  assert (Hck : fits 16 ck) by apply desc_checksum_fits.
  assert (Hck0 : fits 16 (gl_checksum lo)) by (cbn -[fits] in Wl; tauto).
  split_and!; [by apply Hw| | |by destruct hi|by destruct hi].
  - intros h E. unfold hi' in E. destruct hi as [h0|]; [|done]. cbn in E. injection E as <-. specialize (Wh h0 eq_refl).
    pose proof (u16_fits (Z.shiftr bb 16)). pose proof (u16_fits (Z.shiftr ib 16)). cbn -[fits u16] in *. tauto.
  - unfold verify_group_desc_checksum. rewrite (group_desc_checksum_set lo hi' _ _ ck (gl_checksum lo)) by auto.
    change (gl_checksum (gl_csums _ _ _ ck)) with ck. fold lo1 ck. by rewrite Z.eqb_refl.
Qed.

(** ** Storing a descriptor

    The patch of the counters followed by the stamp, as every operation of a
    group applies them to the block of its descriptor. *)

Definition store_desc (desc_offset desc_size group : Z) (csum : option (FsCsumSeed * Z * Z)) (d : BlockGroupDesc)
    (block : list byte) : list byte :=
  let block := patch_into d desc_offset block in
  match csum with
  | Some (seed, bb, ib) => stamp_block desc_offset desc_size group seed bb ib block
  | None => block
  end.

(** The counters of a group fit their 16-bit fields. *)
Record desc_fits (d : BlockGroupDesc) : Prop := {
  df_blocks : fits 16 (free_blocks_count d);
  df_inodes : fits 16 (free_inodes_count d);
  df_dirs : fits 16 (used_dirs_count d);
  df_flags : fits 16 (bg_flags d);
  df_unused : fits 16 (itable_unused d);
}.

(** The block already holds this group's descriptor: the locations of its
    bitmaps and table, and no high half of the unused count. *)
Definition desc_home (desc_offset desc_size : Z) (d : BlockGroupDesc) (block : list byte) : Prop :=
  let '(lo, hi) := raw_at desc_size (desc_offset mod BLOCK_SIZE) block in
  block_bitmap_bid (from_raw lo hi) = block_bitmap_bid d /\ inode_bitmap_bid (from_raw lo hi) = inode_bitmap_bid d /\
  inode_table_bid (from_raw lo hi) = inode_table_bid d /\ forall h, hi = Some h -> gh_itable_unused_hi h = 0.

Lemma from_raw_counters lo hi d :
  desc_fits d -> block_bitmap_bid (from_raw lo hi) = block_bitmap_bid d -> inode_bitmap_bid (from_raw lo hi) = inode_bitmap_bid d ->
  inode_table_bid (from_raw lo hi) = inode_table_bid d -> (forall h, hi = Some h -> gh_itable_unused_hi h = 0) ->
  from_raw (gl_counters lo (u16 (free_blocks_count d)) (u16 (free_inodes_count d)) (u16 (used_dirs_count d)) (bg_flags d)
    (u16 (itable_unused d))) hi = d.
Proof.
  intros [F1 F2 F3 F4 F5] H1 H2 H3 H4. unfold from_raw, u16 in *. cbn in *. rewrite !wrap_small by done.
  assert (match hi with Some h => gh_itable_unused_hi h | None => 0 end = 0) as -> by (destruct hi; [by apply H4|done]).
  rewrite H1, H2, H3. change (Z.shiftl 0 16) with 0. rewrite Z.lor_0_r. by destruct d.
Qed.

Lemma store_desc_ok desc_offset desc_size group csum d block :
  desc_size = 32 \/ desc_size = 64 -> desc_offset mod BLOCK_SIZE + desc_size <= BLOCK_SIZE -> is_block block ->
  desc_fits d -> desc_home desc_offset desc_size d block ->
  let block' := store_desc desc_offset desc_size group csum d block in
  is_block block' /\ desc_of_block block' (desc_offset mod BLOCK_SIZE) desc_size group ((fun c => c.1.1) <$> csum) = Ok d /\
  desc_home desc_offset desc_size d block' /\
  forall o n, 0 <= o -> o + n <= desc_offset mod BLOCK_SIZE \/ desc_offset mod BLOCK_SIZE + desc_size <= o ->
    slice o n block' = slice o n block.
Proof.
  intros Hs Hf Hb Hd Hh. destruct (raw_at_wf desc_offset desc_size Hs Hf block Hb) as [Wl Wh]. unfold desc_home in Hh.
  destruct (raw_at desc_size (desc_offset mod BLOCK_SIZE) block) as [lo hi] eqn:Er. destruct Hh as (B1 & B2 & B3 & B4). cbn [fst snd] in *.
  set (lo1 := gl_counters lo (u16 (free_blocks_count d)) (u16 (free_inodes_count d)) (u16 (used_dirs_count d)) (bg_flags d) (u16 (itable_unused d))).
  pose proof (from_raw_counters lo hi d Hd B1 B2 B3 B4) as Ed. fold lo1 in Ed.
  assert (W1 : c_wf group_lo_codec lo1).
  { pose proof (df_flags d Hd). pose proof (u16_fits (free_blocks_count d)). pose proof (u16_fits (free_inodes_count d)).
    pose proof (u16_fits (used_dirs_count d)). pose proof (u16_fits (itable_unused d)). cbn -[fits u16] in *. tauto. }
  destruct (write_raw_spec desc_offset desc_size Hs Hf lo1 None block Hb W1 I) as (P1 & P2 & P3 & P4).
  assert (Ep : patch_into d desc_offset block = write_raw (desc_offset mod BLOCK_SIZE) (lo1, None) block).
  { unfold patch_into, write_raw, lo1. cbn [fst snd]. unfold raw_at in Er. by injection Er as <- _. }
  unfold store_desc. rewrite Ep. set (block1 := write_raw (desc_offset mod BLOCK_SIZE) (lo1, None) block) in *.
  rewrite Er in P3. cbn [snd] in P3.
  assert (E1 : raw_at desc_size (desc_offset mod BLOCK_SIZE) block1 = (lo1, hi)) by (rewrite (surjective_pairing (raw_at _ _ _)); congruence).
  assert (Hhome : forall b r, raw_at desc_size (desc_offset mod BLOCK_SIZE) b = r -> from_raw r.1 r.2 = d ->
    (forall h, r.2 = Some h -> gh_itable_unused_hi h = 0) -> desc_home desc_offset desc_size d b).
  { intros b [l h] E E' E''. unfold desc_home. rewrite E. cbn [fst snd] in *. by rewrite E'. }
  destruct csum as [[[seed bb] ib]|]; cbn [fmap option_fmap option_map fst].
  - destruct (stamp_checksums_spec lo1 hi group seed bb ib W1 Wh) as (S1 & S2 & S3 & S4 & S5). unfold stamp_block. rewrite E1.
    destruct (stamp_checksums lo1 hi group seed bb ib) as [lo2 hi2] eqn:Est. cbn [fst snd] in *.
    assert (Whi : match hi2 with Some h => c_wf group_hi_codec h /\ is_wide desc_size = true | None => True end).
    { destruct hi2 as [h|]; [|done]. split; [by apply S2|]. destruct hi as [h0|]; [|by destruct (proj1 S5 (mk_is_Some _ _ eq_refl))].
      unfold raw_at in Er. by destruct (is_wide desc_size). }
    destruct (write_raw_spec desc_offset desc_size Hs Hf lo2 hi2 block1 P1 S1 Whi) as (Q1 & Q2 & Q3 & Q4).
    set (block2 := write_raw _ (lo2, hi2) block1) in *.
    assert (E2 : raw_at desc_size (desc_offset mod BLOCK_SIZE) block2 = (lo2, hi2)).
    { rewrite (surjective_pairing (raw_at _ _ _)), Q2, Q3, E1. cbn [snd]. destruct hi2; [done|]. destruct hi; [|done].
      by destruct (proj2 S5 (mk_is_Some _ _ eq_refl)). }
    split_and!; [done| | |intros o n Ho Hd'; rewrite Q4, P4; done].
    + unfold desc_of_block. by rewrite E2, S3, S4, Ed.
    + apply (Hhome block2 _ E2); [cbn; by rewrite S4|]. intros h E. cbn in E. subst hi2. unfold stamp_checksums in Est.
      injection Est as _ Eh. destruct hi as [h0|]; [|done]. cbn in Eh. injection Eh as <-. cbn. by apply B4.
  - split_and!; [done| |by apply (Hhome block1 _ E1)|done]. unfold desc_of_block. by rewrite E1, Ed.
Qed.

(** ** Theorems *)

(** The descriptor table is a faithful array.  Storing the descriptor of one
    group in its block and reading it back returns it, with a valid checksum
    if the volume has them, and every other descriptor of the block reads as
    before. *)
Theorem descriptor_table_array base desc_size csum i j d block :
  (desc_size = 32 \/ desc_size = 64) -> base mod BLOCK_SIZE = 0 -> 0 <= i -> 0 <= j -> i <> j ->
  (base + i * desc_size) / BLOCK_SIZE = (base + j * desc_size) / BLOCK_SIZE ->
  is_block block -> desc_fits d -> desc_home (base + i * desc_size) desc_size d block ->
  let block' := store_desc (base + i * desc_size) desc_size i csum d block in
  let seed := (fun c => c.1.1) <$> csum in
  desc_of_block block' ((base + i * desc_size) mod BLOCK_SIZE) desc_size i seed = Ok d /\
  desc_of_block block' ((base + j * desc_size) mod BLOCK_SIZE) desc_size j seed =
    desc_of_block block ((base + j * desc_size) mod BLOCK_SIZE) desc_size j seed.
Proof.
  intros Hs Hb Hi Hj Hne Hsame Hblk Hf Hh.
  assert (Hfit : forall k, (base + k * desc_size) mod BLOCK_SIZE + desc_size <= BLOCK_SIZE).
  { intros k. unfold BLOCK_SIZE in *. destruct Hs as [-> | ->]; Z.to_euclidean_division_equations; lia. }
  destruct (store_desc_ok (base + i * desc_size) desc_size i csum d block Hs (Hfit i) Hblk Hf Hh) as (H1 & H2 & _ & H4).
  split; [done|]. assert (Hd : (base + j * desc_size) mod BLOCK_SIZE + desc_size <= (base + i * desc_size) mod BLOCK_SIZE \/
    (base + i * desc_size) mod BLOCK_SIZE + desc_size <= (base + j * desc_size) mod BLOCK_SIZE).
  { pose proof (Z.div_mod (base + i * desc_size) BLOCK_SIZE ltac:(done)). pose proof (Z.div_mod (base + j * desc_size) BLOCK_SIZE ltac:(done)).
    rewrite Hsame in *. destruct Hs as [-> | ->]; lia. }
  pose proof (Z.mod_pos_bound (base + j * desc_size) BLOCK_SIZE ltac:(done)) as Hp.
  assert (Hraw : raw_at desc_size ((base + j * desc_size) mod BLOCK_SIZE) (store_desc (base + i * desc_size) desc_size i csum d block) =
    raw_at desc_size ((base + j * desc_size) mod BLOCK_SIZE) block).
  { unfold raw_at, read_at. rewrite group_lo_size, group_hi_size. unfold GROUP_LO_SIZE. f_equal.
    - f_equal. apply H4; lia.
    - unfold is_wide, GROUP64_SIZE. destruct (Z.leb_spec 64 desc_size); [|done]. do 2 f_equal. apply H4; lia. }
  unfold desc_of_block. by rewrite Hraw.
Qed.

Module SampleDesc.
Definition desc : BlockGroupDesc :=
  {| block_bitmap_bid := 2; inode_bitmap_bid := 3; inode_table_bid := 4; free_blocks_count := 2000; free_inodes_count := 240;
     used_dirs_count := 2; bg_flags := 4; itable_unused := 240 |}.
(** The descriptor of group 1 in a table of 64-byte descriptors. *)
Definition block : list byte := put_le 4 64 2 (put_le 4 68 3 (put_le 4 72 4 (zeros BLOCK_SIZE))).
End SampleDesc.

Lemma descriptor_table_array_witness :
  let block' := store_desc (4096 + 1 * 64) 64 1 (Some ({| fs_seed := 7 |}, 5, 6)) SampleDesc.desc SampleDesc.block in
  desc_of_block block' 64 64 1 (Some {| fs_seed := 7 |}) = Ok SampleDesc.desc.
Proof.
  apply (descriptor_table_array 4096 64 (Some ({| fs_seed := 7 |}, 5, 6)) 1 0 SampleDesc.desc SampleDesc.block);
    [by right|reflexivity|lia|lia|lia|reflexivity|vm_compute; reflexivity| |].
  - split; vm_compute; split; congruence.
  - vm_compute. split; [reflexivity|split; [reflexivity|split; [reflexivity|]]]. intros h E. injection E as <-. reflexivity.
Defined.
