(* ===== verification/BlockGroup.v ===== *)
(** * Block groups: allocation of blocks and inodes

    Models the allocation half of [block_group.rs]: loading a group, the
    search for a run of free blocks that avoids the pinned freed runs,
    freeing, inode allocation, and the write-back without a journal.  Every
    change of the bitmaps and of the descriptor is journaled through the
    [MetaStore] interface.  The inode cache (shared [Arc]s) is in [Namespace.v]. *)

From S2P Require Import Prelude Pod Checksum JournalFormat Device Bitmap SuperBlock GroupDesc JournalState MetaStore.

(** ** Data *)

(** The cached geometry of a group. *)
Record BlockGroup : Type := {
  group_idx : Z;
  first_block : Z;
  last_block : Z;
  table_blocks : Z;
  bg_ipg : Z;
  bg_bpg : Z;
  bg_inode_size : Z;
  bg_block_size : Z;
  bg_desc_size : Z;
  desc_offset : Z;
  bg_csum_seed : option FsCsumSeed;
}.

(** The locked state of a group; each member is [Dirty]. *)
Record BlockGroupMetadata : Type := {
  md_desc : BlockGroupDesc;
  md_blocks : IdBitmap;
  md_inodes : IdBitmap;
  desc_dirty : bool;
  blocks_dirty : bool;
  inodes_dirty : bool;
}.

(** A mutable access marks the member dirty. *)
Definition touch_desc (md : BlockGroupMetadata) (d : BlockGroupDesc) : BlockGroupMetadata :=
  Build_BlockGroupMetadata d (md_blocks md) (md_inodes md) true (blocks_dirty md) (inodes_dirty md).
Definition touch_blocks (md : BlockGroupMetadata) (b : IdBitmap) : BlockGroupMetadata :=
  Build_BlockGroupMetadata (md_desc md) b (md_inodes md) (desc_dirty md) true (inodes_dirty md).
Definition touch_inodes (md : BlockGroupMetadata) (b : IdBitmap) : BlockGroupMetadata :=
  Build_BlockGroupMetadata (md_desc md) (md_blocks md) b (desc_dirty md) (blocks_dirty md) true.
Definition clean_md (d : BlockGroupDesc) (bb ib : IdBitmap) : BlockGroupMetadata :=
  Build_BlockGroupMetadata d bb ib false false false.

Inductive GroupBlockAlloc : Type :=
  | Allocated (range : Z * Z)
  | NoFit (pinned_in_group : bool).

(** ** Loading *)

(** [BlockGroup::load_block_bitmap] *)
Definition load_block_bitmap (d : device) (first last : Z) (desc : BlockGroupDesc) : result IdBitmap :=
  let group_size := u32 (last - first + 1) in
  let cap := u16 group_size in
  if is_block_uninit desc then
    check free_blocks_count desc <=? group_size else EUCLEAN in
    let overhead := group_size - free_blocks_count desc in
    let? bitmap := from_buf (zeros BLOCK_SIZE) cap in
    let bitmap := if 0 <? overhead then (alloc_consecutive bitmap (u16 overhead)).2 else bitmap in
    check forallb (fun bid => negb ((first <=? bid) && (bid <=? last) && (overhead <=? bid - first)))
            [block_bitmap_bid desc; inode_bitmap_bid desc; inode_table_bid desc] else EUCLEAN in
    Ok bitmap
  else
    let? buf := dev_read d (block_bitmap_bid desc) in
    from_buf buf cap.

(** [BlockGroup::load_inode_bitmap] *)
Definition load_inode_bitmap (d : device) (ipg : Z) (desc : BlockGroupDesc) : result IdBitmap :=
  let cap := u16 (Z.min ipg capacity) in
  if is_inode_uninit desc then from_buf (zeros BLOCK_SIZE) cap
  else
    let? buf := dev_read d (inode_bitmap_bid desc) in
    from_buf buf cap.

(** The geometry cached by [BlockGroup::load]. *)
Definition group_geometry (idx : Z) (sb : SuperBlock) (gdt_base_offset : Z) : BlockGroup :=
  let first := sb_first_data_block sb + idx * sb_nr_blocks_per_group sb in
  {| group_idx := idx; first_block := first;
     last_block := if idx =? sb_nr_block_groups sb - 1 then sb_blocks_count sb - 1
                   else first + sb_nr_blocks_per_group sb - 1;
     table_blocks := sb_nr_inode_table_blocks_per_group sb; bg_ipg := sb_nr_inodes_per_group sb;
     bg_bpg := sb_nr_blocks_per_group sb; bg_inode_size := sb_inode_size sb; bg_block_size := sb_block_size sb;
     bg_desc_size := sb_desc_size sb; desc_offset := gdt_base_offset + idx * sb_desc_size sb;
     bg_csum_seed := if has_metadata_csum sb then Some (metadata_csum_seed sb) else None |}.

(** [BlockGroup::reload_metadata], also the reading half of [load]. *)
Definition reload_metadata (g : BlockGroup) (d : device) : result BlockGroupMetadata :=
  let? desc := read_desc d (desc_offset g) (bg_desc_size g) (group_idx g) (bg_csum_seed g) in
  let? bb := load_block_bitmap d (first_block g) (last_block g) desc in
  let? ib := load_inode_bitmap d (bg_ipg g) desc in
  Ok (clean_md desc bb ib).

(** [BlockGroup::load] *)
Definition load (d : device) (idx : Z) (sb : SuperBlock) (gdt_base_offset : Z) : result (BlockGroup * BlockGroupMetadata) :=
  let g := group_geometry idx sb gdt_base_offset in
  let? md := reload_metadata g d in Ok (g, md).

(** ** Checksums and system blocks *)

(** The checksums of [BlockGroup::stamp_desc_csum], over the final bitmaps. *)
Definition group_csums (g : BlockGroup) (md : BlockGroupMetadata) : option (FsCsumSeed * Z * Z) :=
  match bg_csum_seed g with
  | None => None
  | Some seed =>
      Some (seed, bitmap_checksum seed (ib_buf (md_blocks md)) (bg_bpg g / 8),
                  bitmap_checksum seed (ib_buf (md_inodes md)) (div_ceil (bg_ipg g) 8))
  end.

(** The patch of the descriptor block: [patch_into], then
    [stamp_desc_csum_in_block]. *)
Definition desc_patch (g : BlockGroup) (md : BlockGroupMetadata) : list byte -> list byte :=
  store_desc (desc_offset g) (bg_desc_size g) (group_idx g) (group_csums g md) (md_desc md).

Definition ranges_overlap (a b : Z * Z) : bool :=
  (a.1 <? a.2) && (b.1 <? b.2) && (a.1 <? b.2) && (b.1 <? a.2).

(** [overlaps_system_zone_with] *)
Definition overlaps_system_zone (g : BlockGroup) (desc : BlockGroupDesc) (range : Z * Z) : bool :=
  ranges_overlap range (block_bitmap_bid desc, block_bitmap_bid desc + 1)
  || ranges_overlap range (inode_bitmap_bid desc, inode_bitmap_bid desc + 1)
  || ranges_overlap range (inode_table_bid desc, inode_table_bid desc + table_blocks g).

(** The last byte that is not zero, with its index. *)
Fixpoint rposition (l : list byte) (i : Z) : option (Z * byte) :=
  match l with
  | [] => None
  | b :: l =>
      match rposition l (i + 1) with
      | Some r => Some r
      | None => if byte.unsigned b =? 0 then None else Some (i, b)
      end
  end.

(** [itable_unused_from_bitmap]; [8 - leading_zeros] is one past the highest
    set bit. *)
Definition itable_unused_from_bitmap (bitmap : IdBitmap) (ipg : Z) : Z :=
  let nbytes := div_ceil ipg 8 in
  let high_water :=
    match rposition (slice 0 nbytes (ib_buf bitmap)) 0 with
    | Some (byte_idx, b) => byte_idx * 8 + (Z.log2 (byte.unsigned b) + 1)
    | None => 0
    end in
  ipg - Z.min high_water ipg.

(** ** Operations under the group's lock *)

Section Operations.
Context {S : Type} `{MetaStore S}.

Definition gstate : Type := BlockGroupMetadata * S.

Definition on_store {T A} (m : M S A) : M (T * S) A := fun st =>
  match m st.2 with (r, s) => (r, (st.1, s)) end.
Definition metadata : M gstate BlockGroupMetadata := fun st => (Ok st.1, st).
Definition set_metadata (md : BlockGroupMetadata) : M gstate unit := fun st => (Ok tt, (md, st.2)).

(** The tail of every operation: patch the bitmap block through the access
    taken before, then the descriptor block. *)
Definition journal_group (g : BlockGroup) (a : WriteAccess) (bitmap : list byte) : M gstate unit :=
  md ← metadata;
  on_store (ms_patch a (fun _ => bitmap));;
  a' ← on_store (ms_write (desc_offset g / BLOCK_SIZE));
  on_store (ms_patch a' (desc_patch g md)).

(** *** Blocks *)

(** This group's part of the pinned runs, as bit ranges. *)
Definition pinned_bits (g : BlockGroup) (pinned_frees : list (Z * Z)) : list (Z * Z) :=
  omap (fun '(start, len) =>
          let lo := Z.max start (first_block g) in
          let hi := Z.min (start + len) (last_block g + 1) in
          if lo <? hi then Some (u16 (lo - first_block g), u16 (hi - first_block g)) else None) pinned_frees.

Definition hits_pin (pins : list (Z * Z)) (c : Z * Z) : bool :=
  existsb (fun pin => (pin.1 <? c.2) && (c.1 <? pin.2)) pins.

(** The inner loop: candidates that hit a pin are held. *)
Fixpoint search_size (fuel : nat) (pins : list (Z * Z)) (count : Z) (b : IdBitmap) (held : list (Z * Z))
  : option (Z * Z) * IdBitmap * list (Z * Z) :=
  match fuel with
  | O => (None, b, held)
  | Datatypes.S fuel =>
      match alloc_consecutive b count with
      | (None, b) => (None, b, held)
      | (Some c, b) => if hits_pin pins c then search_size fuel pins count b (held ++ [c]) else (Some c, b, held)
      end
  end.

(** The outer loop halves the request.  Each held candidate takes at least one
    id, and a request of 16 bits is halved at most 16 times. *)
Fixpoint search (fuel : nat) (pins : list (Z * Z)) (count : Z) (b : IdBitmap) (held : list (Z * Z))
  : option (Z * Z) * IdBitmap * list (Z * Z) :=
  match fuel with
  | O => (None, b, held)
  | Datatypes.S fuel =>
      if 0 <? count then
        match search_size (Datatypes.S (Z.to_nat (ib_len b))) pins count b held with
        | (Some c, b, held) => (Some c, b, held)
        | (None, b, held) => search fuel pins (count / 2) b held
        end
      else (None, b, held)
  end.

Definition SEARCH_FUEL : nat := 17.

(** Releasing the held candidates. *)
Fixpoint release (held : list (Z * Z)) (b : IdBitmap) : result IdBitmap :=
  match held with
  | [] => Ok b
  | c :: held => let? b := free_consecutive b c in release held b
  end.

(** [BlockGroup::alloc_blocks] *)
Definition alloc_blocks (g : BlockGroup) (count sb_free_blocks : Z) (pinned_frees : list (Z * Z)) : M gstate GroupBlockAlloc :=
  let group_size := u32 (last_block g - first_block g + 1) in
  let pins := pinned_bits g pinned_frees in
  md ← metadata;
  let requested :=
    u16 (Z.min (Z.min (Z.min count group_size) (free_blocks_count (md_desc md))) (Z.min sb_free_blocks (2 ^ 32 - 1))) in
  a ← on_store (ms_write (block_bitmap_bid (md_desc md)));
  let '(found, b, held) := search SEARCH_FUEL pins requested (md_blocks md) [] in
  b ← lift (release held b);
  let md := if 0 <? requested then touch_blocks md b else md in
  set_metadata md;;
  match found with
  | None =>
      let pinned_in_group := negb (bool_decide (pins = [])) in
      if (0 <? free_blocks_count (md_desc md)) && negb pinned_in_group then fail EIO
      else mret (NoFit pinned_in_group)
  | Some (s, e) =>
      let alloc_count := e - s in
      if overlaps_system_zone g (md_desc md) (first_block g + s, first_block g + s + alloc_count)
         || (free_blocks_count (md_desc md) <? alloc_count) || (sb_free_blocks <? alloc_count)
      then
        b ← lift (free_consecutive (md_blocks md) (s, e));
        set_metadata (touch_blocks md b);;
        fail EIO
      else
        let d := md_desc md in
        let flags := if is_block_uninit d then Z.ldiff (bg_flags d) BG_BLOCK_UNINIT else bg_flags d in
        set_metadata (touch_desc md (desc_set d (free_blocks_count d - alloc_count) (free_inodes_count d)
                                       (used_dirs_count d) flags (itable_unused d)));;
        journal_group g a (ib_buf (md_blocks md));;
        mret (Allocated (first_block g + s, first_block g + e))
  end.

(** The loop of [free_blocks]: only allocated bits are freed and counted. *)
Fixpoint free_bits (ids : list Z) (b : IdBitmap) (freed : Z) : result (IdBitmap * Z) :=
  match ids with
  | [] => Ok (b, freed)
  | i :: ids =>
      let? taken := is_allocated b i in
      if taken then let? b := free b i in free_bits ids b (freed + 1)
      else free_bits ids b freed
  end.

(** [BlockGroup::free_blocks]; a run in the system zone aborts the journal. *)
Definition free_blocks (g : BlockGroup) (start_bit end_bit : Z) : M gstate Z :=
  md ← metadata;
  let d := md_desc md in
  if overlaps_system_zone g d (first_block g + start_bit, first_block g + end_bit) then
    on_store (modify ms_abort);; fail EIO
  else
    a ← on_store (ms_write (block_bitmap_bid d));
    '((b, freed) : IdBitmap * Z) ← lift (free_bits (zrange (u16 start_bit) (u16 (start_bit + Z.max 0 (end_bit - start_bit)))) (md_blocks md) 0);
    let md := if 0 <? freed then touch_blocks md b else md in
    set_metadata md;;
    guard (free_blocks_count d + freed <? 2 ^ 32) EIO;;
    set_metadata (touch_desc md (desc_set d (free_blocks_count d + freed) (free_inodes_count d) (used_dirs_count d)
                                   (bg_flags d) (itable_unused d)));;
    journal_group g a (ib_buf (md_blocks md));;
    mret freed.

(** *** Inodes *)

(** [BlockGroup::alloc_ino] *)
Definition alloc_ino (g : BlockGroup) (is_directory : bool) : M gstate (option Z) :=
  md ← metadata;
  let d := md_desc md in
  if free_inodes_count d =? 0 then mret None
  else if is_inode_uninit d then mret None
  else
    guard (negb (is_directory && (used_dirs_count d =? 2 ^ 16 - 1))) EIO;;
    a ← on_store (ms_write (inode_bitmap_bid d));
    let '(found, b) := alloc_consecutive (md_inodes md) 1 in
    let md := touch_inodes md b in
    set_metadata md;;
    match found with
    | None => fail EIO
    | Some (s, _) =>
        let dirs := if is_directory then used_dirs_count d + 1 else used_dirs_count d in
        set_metadata (touch_desc md (desc_set d (free_blocks_count d) (free_inodes_count d - 1) dirs (bg_flags d)
                                       (itable_unused_from_bitmap b (bg_ipg g))));;
        journal_group g a (ib_buf b);;
        mret (Some s)
    end.

(** [BlockGroup::free_inode] *)
Definition free_inode (g : BlockGroup) (idx : Z) (is_directory : bool) : M gstate bool :=
  md ← metadata;
  let d := md_desc md in
  let inode_bit := u16 idx in
  taken ← lift (is_allocated (md_inodes md) inode_bit);
  if negb taken then mret false
  else
    a ← on_store (ms_write (inode_bitmap_bid d));
    guard (free_inodes_count d + 1 <? 2 ^ 32) EIO;;
    guard (negb is_directory || (1 <=? used_dirs_count d)) EIO;;
    b ← lift (free (md_inodes md) inode_bit);
    let dirs := if is_directory then used_dirs_count d - 1 else used_dirs_count d in
    set_metadata (touch_desc (touch_inodes md b) (desc_set d (free_blocks_count d) (free_inodes_count d + 1) dirs (bg_flags d)
                                                    (itable_unused_from_bitmap b (bg_ipg g))));;
    journal_group g a (ib_buf b);;
    mret true.

(** [is_inode_allocated], for an inode of this group. *)
Definition inode_idx_in_group (g : BlockGroup) (ino : Z) : Z := u16 ((ino - 1) mod bg_ipg g).
Definition is_inode_allocated (g : BlockGroup) (md : BlockGroupMetadata) (ino : Z) : result bool :=
  is_allocated (md_inodes md) (inode_idx_in_group g ino).

End Operations.

(** ** Write-back without a journal *)

(** The descriptor's read-modify-write in [BlockGroup::sync_metadata]: the
    whole 64 bytes when they carry checksums, else the low half. *)
Definition sync_desc (g : BlockGroup) (md : BlockGroupMetadata) (block : list byte) : list byte :=
  let off := desc_offset g mod BLOCK_SIZE in
  let d := md_desc md in
  let wide := is_wide (bg_desc_size g) && match bg_csum_seed g with Some _ => true | None => false end in
  let lo := gl_counters (read_at group_lo_codec off block) (u16 (free_blocks_count d)) (u16 (free_inodes_count d))
              (u16 (used_dirs_count d)) (bg_flags d) (u16 (itable_unused d)) in
  let hi := if wide then Some (read_at group_hi_codec (off + GROUP_LO_SIZE) block) else None in
  write_raw off
    (match group_csums g md with
     | Some (seed, bb, ib) => stamp_checksums lo hi (group_idx g) seed bb ib
     | None => (lo, hi)
     end) block.

(** [BlockGroup::sync_metadata]; a failed write keeps the dirty flag. *)
Definition sync_metadata (g : BlockGroup) : M (BlockGroupMetadata * device) unit := fun st =>
  let '(md, d) := st in
  let '(r, d) := if blocks_dirty md then dev_write (block_bitmap_bid (md_desc md)) (ib_buf (md_blocks md)) d else (Ok tt, d) in
  match r with
  | Err e => (Err e, (md, d))
  | Ok _ =>
      let md := Build_BlockGroupMetadata (md_desc md) (md_blocks md) (md_inodes md) (desc_dirty md) false (inodes_dirty md) in
      let '(r, d) := if inodes_dirty md then dev_write (inode_bitmap_bid (md_desc md)) (ib_buf (md_inodes md)) d else (Ok tt, d) in
      match r with
      | Err e => (Err e, (md, d))
      | Ok _ =>
          let md := Build_BlockGroupMetadata (md_desc md) (md_blocks md) (md_inodes md) (desc_dirty md) false false in
          let '(r, d) :=
            if desc_dirty md then
              match dev_read d (desc_offset g / BLOCK_SIZE) with
              | Err e => (Err e, d)
              | Ok block => dev_write (desc_offset g / BLOCK_SIZE) (sync_desc g md block) d
              end
            else (Ok tt, d) in
          match r with
          | Err e => (Err e, (md, d))
          | Ok _ => (Ok tt, (clean_md (md_desc md) (md_blocks md) (md_inodes md), d))
          end
      end
  end.

(** ** Invariants *)

Record group_geometry_ok (g : BlockGroup) : Prop := {
  geo_desc : bg_desc_size g = 32 \/ bg_desc_size g = 64;
  geo_fit : desc_offset g mod BLOCK_SIZE + bg_desc_size g <= BLOCK_SIZE;
  geo_first : 0 <= first_block g;
  geo_size : 0 < last_block g - first_block g + 1 <= capacity;
  geo_inodes : 0 < bg_ipg g <= capacity;
}.

(** A block of the group's own metadata. *)
Definition system_block (g : BlockGroup) (desc : BlockGroupDesc) (b : Z) : Prop :=
  b = block_bitmap_bid desc \/ b = inode_bitmap_bid desc \/
  inode_table_bid desc <= b < inode_table_bid desc + table_blocks g.

(** The block's bit is clear. *)
Definition is_free (g : BlockGroup) (md : BlockGroupMetadata) (b : Z) : Prop :=
  first_block g <= b <= last_block g /\ bit (ib_buf (md_blocks md)) (b - first_block g) = false.

Record group_ok (g : BlockGroup) (md : BlockGroupMetadata) : Prop := {
  go_blocks : bitmap_ok (md_blocks md);
  go_inodes : bitmap_ok (md_inodes md);
  go_blocks_len : ib_len (md_blocks md) = last_block g - first_block g + 1;
  go_inodes_len : ib_len (md_inodes md) = bg_ipg g;
  go_free_blocks : free_blocks_count (md_desc md) = free_ids (md_blocks md);
  go_free_inodes : free_inodes_count (md_desc md) = free_ids (md_inodes md);
  go_dirs : fits 16 (used_dirs_count (md_desc md));
  go_flags : fits 16 (bg_flags (md_desc md));
  go_unused : fits 16 (itable_unused (md_desc md));
  go_system : forall b, system_block g (md_desc md) b -> ~ is_free g md b;
}.

(** The blocks an operation of the group writes are three. *)
Definition bids_distinct (g : BlockGroup) (d : BlockGroupDesc) : Prop :=
  block_bitmap_bid d <> inode_bitmap_bid d /\ block_bitmap_bid d <> desc_offset g / BLOCK_SIZE /\ inode_bitmap_bid d <> desc_offset g / BLOCK_SIZE.

(** What the store holds of a group: its descriptor, and each bitmap that is
    in use. *)
Section Stored.
Context {S : Type} `{MetaStoreOk S}.

Record group_stored (g : BlockGroup) (md : BlockGroupMetadata) (s : S) : Prop := {
  gs_desc : exists block, ms_read s (desc_offset g / BLOCK_SIZE) = Ok block /\
    desc_of_block block (desc_offset g mod BLOCK_SIZE) (bg_desc_size g) (group_idx g) (bg_csum_seed g) = Ok (md_desc md) /\
    desc_home (desc_offset g) (bg_desc_size g) (md_desc md) block;
  gs_blocks : is_block_uninit (md_desc md) = false ->
    ms_read s (block_bitmap_bid (md_desc md)) = Ok (ib_buf (md_blocks md));
  gs_inodes : is_inode_uninit (md_desc md) = false ->
    ms_read s (inode_bitmap_bid (md_desc md)) = Ok (ib_buf (md_inodes md));
  gs_distinct : bids_distinct g (md_desc md);
}.
End Stored.

(** ** Lemmas: the search *)

Definition in_run (j : Z) (c : Z * Z) : Prop := c.1 <= j < c.2.
#[export] Instance in_run_dec j c : Decision (in_run j c).
Proof. unfold in_run. apply _. Defined.

(** The bitmap during a search: the original one with the held runs, which
    were free, taken. *)
Record holding (pins : list (Z * Z)) (b0 b : IdBitmap) (held : list (Z * Z)) : Prop := {
  h_ok : bitmap_ok b;
  h_len : ib_len b = ib_len b0;
  h_runs : Forall (fun c => 0 <= c.1 < c.2 /\ free_run b0 c.1 c.2 /\ hits_pin pins c = true) held;
  h_bits : forall j, 0 <= j -> bit (ib_buf b) j = bit (ib_buf b0) j || bool_decide (Exists (in_run j) held);
}.

Lemma holding_nil pins b : bitmap_ok b -> holding pins b b [].
Proof.
  intros Hb. split; [done|done|constructor|]. intros j _. rewrite bool_decide_false by (intros Hx; inversion Hx). by rewrite orb_false_r.
Qed.

Lemma holding_free pins b0 b held j :
  holding pins b0 b held -> 0 <= j -> bit (ib_buf b) j = false -> bit (ib_buf b0) j = false /\ ~ Exists (in_run j) held.
Proof.
  intros Hh Hj E. rewrite (h_bits _ _ _ _ Hh) in E by done. apply orb_false_iff in E as [E1 E2]. split; [done|]. by apply bool_decide_eq_false in E2.
Qed.

Lemma alloc_bits b count s e b' :
  bitmap_ok b -> 0 <= count -> alloc_consecutive b count = (Some (s, e), b') ->
  forall j, 0 <= j -> bit (ib_buf b') j = if decide (s <= j < e) then true else bit (ib_buf b) j.
Proof.
  intros Hb Hc E j Hj. destruct (alloc_consecutive_ok _ _ _ _ Hb Hc E) as (_ & _ & _ & _ & (R1 & R2 & _) & _ & ->). cbn in *.
  pose proof (bo_len b Hb). apply bit_set_range; [apply Hb|lia|lia|lia].
Qed.

Lemma free_run_weaken pins b0 b held s e : holding pins b0 b held -> free_run b s e -> free_run b0 s e.
Proof.
  intros Hh (H1 & H2 & H3). rewrite (h_len _ _ _ _ Hh) in H2. split_and!; try lia. intros i Hi.
  apply (holding_free pins b0 b held i Hh); [lia|by apply H3].
Qed.

Lemma holding_snoc pins b0 b held count c b' :
  holding pins b0 b held -> 0 <= count -> alloc_consecutive b count = (Some c, b') -> hits_pin pins c = true ->
  holding pins b0 b' (held ++ [c]) /\ free_ids b' < free_ids b.
Proof.
  intros Hh Hc E Hp. destruct c as [s e]. pose proof (alloc_bits _ _ _ _ _ (h_ok _ _ _ _ Hh) Hc E) as Hbits.
  destruct (alloc_consecutive_ok _ _ _ _ (h_ok _ _ _ _ Hh) Hc E) as (A1 & A2 & A3 & A4 & A5 & _ & A6). cbn [fst snd] in *.
  pose proof A5 as (R1 & R2 & _). split.
  - split; [done|by rewrite A2; apply Hh| |].
    + apply Forall_app. split; [apply Hh|]. constructor; [|done]. cbn. split_and!; [lia|lia| |done]. by eapply free_run_weaken.
    + intros j Hj. rewrite (Hbits j Hj), (h_bits _ _ _ _ Hh j Hj). case_decide as Hd.
      * rewrite bool_decide_true; [by rewrite orb_true_r|]. apply Exists_app. right. by constructor.
      * f_equal. apply bool_decide_ext. rewrite Exists_app, Exists_cons, Exists_nil. unfold in_run at 3. cbn. tauto.
  - unfold free_ids at 1. rewrite A2, A6, alloc_free_ids; [lia|apply Hh|done|lia].
Qed.

Lemma search_size_spec pins b0 count fuel b held :
  holding pins b0 b held -> 1 <= count -> free_ids b < Z.of_nat fuel ->
  match search_size fuel pins count b held with
  | (Some c, b', held') =>
      exists b1, holding pins b0 b1 held' /\ alloc_consecutive b1 count = (Some c, b') /\ hits_pin pins c = false
  | (None, b', held') => holding pins b0 b' held' /\ forall t, ~ free_run b' t (t + count)
  end.
Proof.
  revert b held. induction fuel as [|fuel IH]; intros b held Hh Hc Hf.
  - pose proof (count_free_bounds (ib_buf b) 0 (ib_len b) ltac:(pose proof (bo_len _ (h_ok _ _ _ _ Hh)); lia)). unfold free_ids in Hf. lia.
  - assert (Hc0 : 0 <= count) by lia. cbn [search_size]. destruct (alloc_consecutive b count) as [[c|] b1] eqn:E.
    + destruct (hits_pin pins c) eqn:Ep; [|by exists b].
      destruct (holding_snoc _ _ _ _ _ _ _ Hh Hc0 E Ep) as [Hh1 Hlt]. apply IH; [done|done|lia].
    + destruct (alloc_consecutive_none _ _ _ (h_ok _ _ _ _ Hh) Hc0 E) as [-> [?|Hn]]; [lia|done].
Qed.

Lemma search_zero fuel pins b held : search fuel pins (1 / 2) b held = (None, b, held).
Proof. by destruct fuel. Qed.

Lemma search_spec pins b0 count fuel b held :
  holding pins b0 b held -> 0 <= count < 2 ^ Z.of_nat fuel ->
  match search fuel pins count b held with
  | (Some c, b', held') =>
      exists count' b1, 1 <= count' <= count /\ holding pins b0 b1 held' /\ alloc_consecutive b1 count' = (Some c, b') /\
        hits_pin pins c = false
  | (None, b', held') => holding pins b0 b' held' /\ (1 <= count -> forall t, ~ free_run b' t (t + 1))
  end.
Proof.
  revert count b held. induction fuel as [|fuel IH]; intros count b held Hh Hc.
  - cbn in Hc. cbn. split; [done|lia].
  - cbn [search]. destruct (Z.ltb_spec 0 count); [|split; [done|lia]].
    assert (Hfu : free_ids b < Z.of_nat (Datatypes.S (Z.to_nat (ib_len b)))).
    { pose proof (bo_len _ (h_ok _ _ _ _ Hh)). pose proof (count_free_bounds (ib_buf b) 0 (ib_len b) ltac:(lia)). unfold free_ids. lia. }
    pose proof (search_size_spec pins b0 count _ b held Hh ltac:(lia) Hfu) as Hs.
    destruct (search_size _ pins count b held) as [[[c|] b'] held'].
    + destruct Hs as (b1 & ? & ? & ?). exists count, b1. split_and!; try done; lia.
    + destruct Hs as [Hh' Hn]. assert (Hc' : 0 <= count / 2 < 2 ^ Z.of_nat fuel).
      { rewrite Nat2Z.inj_succ, Z.pow_succ_r in Hc by lia. split; [apply Z.div_pos; lia|apply Z.div_lt_upper_bound; lia]. }
      destruct (decide (count = 1)) as [->|]; [rewrite search_zero; by split|].
      specialize (IH (count / 2) b' held' Hh' Hc'). assert (count / 2 <= count) by (apply Z.div_le_upper_bound; lia).
      destruct (search fuel pins (count / 2) b' held') as [[[c|] b2] held2].
      * destruct IH as (k & b1 & ? & ? & ? & ?). exists k, b1. split_and!; try done; lia.
      * destruct IH as [Hh2 Hn2]. split; [done|]. intros _. apply Hn2. assert (2 / 2 <= count / 2) by (apply Z.div_le_mono; lia). done.
Qed.

(** Releasing the held runs restores their bits. *)
Lemma release_spec b0 held b :
  bitmap_ok b -> ib_len b = ib_len b0 -> Forall (fun c => 0 <= c.1 < c.2 /\ c.2 <= ib_len b0) held ->
  exists b', release held b = Ok b' /\ bitmap_ok b' /\ ib_len b' = ib_len b0 /\
    forall j, 0 <= j -> bit (ib_buf b') j = if decide (Exists (in_run j) held) then false else bit (ib_buf b) j.
Proof.
  intros Hb Hl Hf. revert b Hb Hl. induction Hf as [|[s e] held [Hc He] _ IH]; intros b Hb Hl; cbn [release fst snd] in *.
  - exists b. by split_and!.
  - destruct (free_consecutive_ok b s e Hb) as (b1 & -> & Hb1 & Hl1 & E1); [lia|lia|]. cbn [rbind].
    destruct (IH b1 Hb1) as (b' & -> & Hb' & Hl' & E'); [congruence|]. exists b'. split_and!; try done.
    intros j Hj. rewrite (E' j Hj), (E1 j Hj). destruct (decide (Exists (in_run j) ((s, e) :: held))) as [Hx|Hx];
      rewrite Exists_cons in Hx; change (in_run j (s, e)) with (s <= j < e) in Hx; repeat case_decide; tauto.
Qed.

(** The whole search: on success the run was free and hits no pin, and the
    bitmap is the old one with the run taken; on failure the bitmap is as
    before, and without pins it was full. *)
Lemma search_release pins b0 count :
  bitmap_ok b0 -> 0 <= count < 2 ^ 17 ->
  let '(found, b, held) := search SEARCH_FUEL pins count b0 [] in
  exists b', release held b = Ok b' /\ bitmap_ok b' /\ ib_len b' = ib_len b0 /\
  match found with
  | Some (s, e) => 1 <= e - s <= count /\ free_run b0 s e /\ hits_pin pins (s, e) = false /\
      forall j, 0 <= j -> bit (ib_buf b') j = if decide (s <= j < e) then true else bit (ib_buf b0) j
  | None => (forall j, 0 <= j -> bit (ib_buf b') j = bit (ib_buf b0) j) /\
      (1 <= count -> pins = [] -> forall j, 0 <= j < ib_len b0 -> bit (ib_buf b0) j = true)
  end.
Proof.
  intros Hb Hc. pose proof (search_spec pins b0 count SEARCH_FUEL b0 [] (holding_nil pins b0 Hb) Hc) as Hs.
  destruct (search SEARCH_FUEL pins count b0 []) as [[[[s e]|] b] held].
  - destruct Hs as (k & b1 & Hk & Hh & E & Hp). assert (Hk0 : 0 <= k) by lia.
    pose proof (alloc_bits _ _ _ _ _ (h_ok _ _ _ _ Hh) Hk0 E) as Hbits.
    destruct (alloc_consecutive_ok _ _ _ _ (h_ok _ _ _ _ Hh) Hk0 E) as (A1 & A2 & A3 & A4 & A5 & _ & A6). cbn [fst snd] in *.
    destruct (release_spec b0 held b A1) as (b' & -> & Hb' & Hl' & E').
    { rewrite A2. apply Hh. } { eapply Forall_impl; [apply (h_runs _ _ _ _ Hh)|]. intros c (? & (? & ? & ?) & ?). lia. }
    exists b'. split_and!; try done; [lia|lia|by eapply free_run_weaken|]. intros j Hj. rewrite (E' j Hj), (Hbits j Hj).
    destruct (decide (Exists (in_run j) held)) as [Hx|Hx]; destruct (decide (s <= j < e)) as [Hd|Hd]; try done.
    + destruct A5 as (_ & _ & A5). destruct (holding_free _ _ _ _ j Hh Hj (A5 j Hd)); tauto.
    + apply Exists_exists in Hx as (c & Hin & Hr). pose proof (h_runs _ _ _ _ Hh) as HF. rewrite Forall_forall in HF.
      destruct (HF c Hin) as (_ & (_ & _ & Hfr) & _). symmetry. by apply Hfr.
    + rewrite (h_bits _ _ _ _ Hh j Hj), bool_decide_false by done. apply orb_false_r.
  - destruct Hs as [Hh Hn]. destruct (release_spec b0 held b (h_ok _ _ _ _ Hh) (h_len _ _ _ _ Hh)) as (b' & -> & Hb' & Hl' & E').
    { eapply Forall_impl; [apply (h_runs _ _ _ _ Hh)|]. intros c (? & (? & ? & ?) & ?). lia. }
    exists b'. split_and!; try done.
    + intros j Hj. rewrite (E' j Hj). case_decide as Hx; [|rewrite (h_bits _ _ _ _ Hh j Hj), bool_decide_false by done; apply orb_false_r].
      apply Exists_exists in Hx as (c & Hin & Hr). pose proof (h_runs _ _ _ _ Hh) as HF. rewrite Forall_forall in HF.
      destruct (HF c Hin) as (_ & (_ & _ & Hfr) & _). symmetry. by apply Hfr.
    + intros H1 -> j Hj. assert (held = []) as ->.
      { destruct held as [|c held]; [done|]. pose proof (h_runs _ _ _ _ Hh) as HF. inversion HF; subst. by destruct_and!. }
      destruct (bit (ib_buf b0) j) eqn:Ej; [done|]. destruct (Hn H1 j). rewrite <- (h_len _ _ _ _ Hh) in Hj. split_and!; [lia|lia|].
      intros i Hi. assert (i = j) as -> by lia. rewrite (h_bits _ _ _ _ Hh) by lia. by rewrite Ej.
Qed.

(** ** Lemmas: pins and system blocks *)

Lemma u16_small z : 0 <= z <= capacity -> u16 z = z.
Proof. intros. unfold u16. apply wrap_small. unfold fits, capacity, BLOCK_SIZE in *. lia. Qed.

Lemma unpinned_run g pf s e :
  group_geometry_ok g -> hits_pin (pinned_bits g pf) (s, e) = false -> 0 <= s -> e <= last_block g - first_block g + 1 ->
  forall r b, r ∈ pf -> first_block g + s <= b < first_block g + e -> ~ (r.1 <= b < r.1 + r.2).
Proof.
  intros Hg Hh Hs He [st len] b Hr Hb Hp. cbn in Hp. pose proof (geo_size g Hg). apply not_true_iff_false in Hh. apply Hh.
  unfold hits_pin. apply existsb_exists.
  exists (u16 (Z.max st (first_block g) - first_block g), u16 (Z.min (st + len) (last_block g + 1) - first_block g)). split.
  - apply list_elem_of_In, list_elem_of_omap. exists (st, len). split; [done|]. cbv zeta. by rewrite (proj2 (Z.ltb_lt _ _)) by lia.
  - cbn [fst snd]. rewrite !u16_small by lia. apply andb_true_iff. split; lia.
Qed.

Lemma pinned_bits_nil g pf : (forall r, r ∈ pf -> r.1 + r.2 <= first_block g \/ last_block g < r.1 \/ r.2 <= 0) -> pinned_bits g pf = [].
Proof.
  intros H. unfold pinned_bits. induction pf as [|[st len] pf IH]; [done|]. simpl. specialize (H (st, len) ltac:(set_solver)) as H1. cbn in H1.
  rewrite (proj2 (Z.ltb_ge _ _)) by lia. apply IH. intros r Hr. apply H. set_solver.
Qed.

Lemma overlaps_spec g d a b :
  overlaps_system_zone g d (a, b) = true <-> exists x, a <= x < b /\ system_block g d x.
Proof.
  unfold overlaps_system_zone, ranges_overlap, system_block. cbn [fst snd]. rewrite !orb_true_iff, !andb_true_iff, !Z.ltb_lt. split.
  - intros [[H|H]|H]; [exists (block_bitmap_bid d)|exists (inode_bitmap_bid d)|exists (Z.max a (inode_table_bid d))]; lia.
  - intros (x & Hx & [->|[->|H]]); [left; left|left; right|right]; lia.
Qed.

Lemma free_not_system g md a b :
  group_ok g md -> (forall x, a <= x < b -> is_free g md x) -> overlaps_system_zone g (md_desc md) (a, b) = false.
Proof.
  intros Hg Hf. apply not_true_iff_false. rewrite overlaps_spec. intros (x & Hx & Hsys). by apply (go_system g md Hg x Hsys), Hf.
Qed.

(** ** Lemmas: the journaled patches *)

(** Running the operations one step at a time. *)
Lemma metadata_eq {S : Type} md (s : S) : metadata (md, s) = (Ok md, (md, s)).
Proof. done. Qed.

Lemma set_metadata_eq {S : Type} md md' (s : S) : set_metadata md' (md, s) = (Ok tt, (md', s)).
Proof. done. Qed.

Lemma on_store_eq {S T A : Type} (m : M S A) (x : T) s : on_store m (x, s) = ((m s).1, (x, (m s).2)).
Proof. unfold on_store. cbn. by destruct (m s). Qed.

Ltac mrun := repeat first [rewrite bind_eq | rewrite lift_eq | rewrite mret_eq | rewrite fail_eq | rewrite metadata_eq | rewrite set_metadata_eq | rewrite on_store_eq | progress cbn [fst snd]].

Section Journaled.
Context {S : Type} `{MetaStoreOk S}.
Implicit Types s : S.

(** The reads after an operation: the bitmap block holds [bm], the
    descriptor's block its patch, and nothing else changed. *)
Record group_step (g : BlockGroup) (bid : Z) (bm : list byte) (md' : BlockGroupMetadata) (s s' : S) : Prop := {
  st_ok : ms_ok s';
  st_bitmap : ms_read s' bid = Ok bm;
  st_desc : exists block, ms_read s (desc_offset g / BLOCK_SIZE) = Ok block /\
    ms_read s' (desc_offset g / BLOCK_SIZE) = Ok (desc_patch g md' block);
  st_other : forall c, c <> bid -> c <> desc_offset g / BLOCK_SIZE -> ms_read s' c = ms_read s c;
  st_pinned : forall c, pinned s' c <-> pinned s c;
}.

(** A failed access of the store, which leaves every block as the operation
    found it but possibly the bitmap block. *)
Record store_failure (e : errno) (bid bid' : Z) (s s' : S) : Prop := {
  sf_cause : exists s1, ms_write bid s1 = (Err e, s') \/ ms_write bid' s1 = (Err e, s');
  sf_errno : handled e = true;
  sf_ok : ms_ok s';
  sf_other : forall c, c <> bid -> ms_read s' c = ms_read s c;
  sf_pinned : forall c, pinned s' c <-> pinned s c;
}.

(** An access before the step does not count. *)
Lemma group_step_from g bid bm md' s s1 s' :
  (forall c, ms_read s1 c = ms_read s c) -> (forall c, pinned s1 c <-> pinned s c) ->
  group_step g bid bm md' s1 s' -> group_step g bid bm md' s s'.
Proof.
  intros Hr Hp [H1 H2 (block & H3 & H3') H4 H5]. split; [done|done|exists block; by rewrite <- Hr| |].
  - intros c C1 C2. rewrite <- Hr. by apply H4.
  - intros c. by rewrite H5, Hp.
Qed.

Lemma store_failure_from e bid bid' s s1 s' :
  (forall c, ms_read s1 c = ms_read s c) -> (forall c, pinned s1 c <-> pinned s c) ->
  store_failure e bid bid' s1 s' -> store_failure e bid bid' s s'.
Proof.
  intros Hr Hp [H1 H2 H3 H4 H5]. split; [done|done|done| |].
  - intros c C. rewrite <- Hr. by apply H4.
  - intros c. by rewrite H5, Hp.
Qed.

Lemma desc_patch_block g md block :
  group_geometry_ok g -> desc_fits (md_desc md) -> is_block block -> desc_home (desc_offset g) (bg_desc_size g) (md_desc md) block ->
  is_block (desc_patch g md block) /\
  desc_of_block (desc_patch g md block) (desc_offset g mod BLOCK_SIZE) (bg_desc_size g) (group_idx g) (bg_csum_seed g) = Ok (md_desc md) /\
  desc_home (desc_offset g) (bg_desc_size g) (md_desc md) (desc_patch g md block).
Proof.
  intros [Hd Hfit _ _ _] Hf Hb Hh. unfold desc_patch.
  destruct (store_desc_ok (desc_offset g) (bg_desc_size g) (group_idx g) (group_csums g md) (md_desc md) block Hd Hfit Hb Hf Hh)
    as (P1 & P2 & P3 & _). split_and!; [done| |done].
  rewrite <- P2. f_equal. unfold group_csums. by destruct (bg_csum_seed g).
Qed.

Lemma gl_counters_wf lo fb fi ud fl iu : c_wf group_lo_codec lo -> fits 16 fl ->
  c_wf group_lo_codec (gl_counters lo (u16 fb) (u16 fi) (u16 ud) fl (u16 iu)).
Proof.
  intros W Hf. pose proof (u16_fits fb). pose proof (u16_fits fi). pose proof (u16_fits ud). pose proof (u16_fits iu).
  cbn -[fits u16] in *. tauto.
Qed.

(** The patch of any block is a block. *)
Lemma patch_into_block g d block : group_geometry_ok g -> fits 16 (bg_flags d) -> is_block block -> is_block (patch_into d (desc_offset g) block).
Proof.
  intros [Hd Hfit _ _ _] Hf Hb.
  destruct (off_bounds (desc_offset g) (bg_desc_size g) Hd Hfit) as (H1 & H2 & _). unfold is_block, patch_into in *.
  assert (Wl : c_wf group_lo_codec (read_at group_lo_codec (desc_offset g mod BLOCK_SIZE) block)).
  { apply read_at_wf; [apply _|exact H1|rewrite group_lo_size, Hb; exact H2]. }
  rewrite zlen_write_at; [exact Hb|apply _|exact H1|rewrite group_lo_size, Hb; exact H2|exact (gl_counters_wf _ _ _ _ _ _ Wl Hf)].
Qed.

Lemma stamp_block_block g seed bb ib block : group_geometry_ok g -> is_block block ->
  is_block (stamp_block (desc_offset g) (bg_desc_size g) (group_idx g) seed bb ib block).
Proof.
  intros [Hd Hfit _ _ _] Hb. destruct (raw_at_wf (desc_offset g) (bg_desc_size g) Hd Hfit block Hb) as [Wl Wh].
  assert (Hw : is_Some (raw_at (bg_desc_size g) (desc_offset g mod BLOCK_SIZE) block).2 -> is_wide (bg_desc_size g) = true).
  { unfold raw_at. cbn [snd]. destruct (is_wide (bg_desc_size g)); [done|]. by intros [? ?]. }
  unfold stamp_block. destruct (raw_at (bg_desc_size g) (desc_offset g mod BLOCK_SIZE) block) as [lo hi]. cbn [fst snd] in *.
  destruct (stamp_checksums_spec lo hi (group_idx g) seed bb ib Wl Wh) as (S1 & S2 & _ & _ & S5).
  destruct (stamp_checksums lo hi (group_idx g) seed bb ib) as [lo3 hi3]. cbn [fst snd] in *.
  destruct (write_raw_spec (desc_offset g) (bg_desc_size g) Hd Hfit lo3 hi3 block Hb S1) as (P & _); [|exact P].
  destruct hi3 as [h|]; [|exact I]. split; [by apply S2|]. by apply Hw, S5.
Qed.

Lemma desc_patch_len g md block : group_geometry_ok g -> fits 16 (bg_flags (md_desc md)) -> is_block block -> is_block (desc_patch g md block).
Proof.
  intros Hg Hf Hb. unfold desc_patch, store_desc. pose proof (patch_into_block g (md_desc md) block Hg Hf Hb).
  destruct (group_csums g md) as [[[seed bb] ib]|]; [by apply stamp_block_block|done].
Qed.

Lemma journal_group_spec g a bid bm md s :
  ms_ok s -> ms_granted s a bid -> is_block bm -> group_geometry_ok g -> fits 16 (bg_flags (md_desc md)) -> bid <> desc_offset g / BLOCK_SIZE ->
  exists r s', journal_group g a bm (md, s) = (r, (md, s')) /\
  match r with
  | Ok _ => group_step g bid bm md s s'
  | Err e => store_failure e bid (desc_offset g / BLOCK_SIZE) s s'
  end.
Proof.
  intros Hok Hgr Hbm Hg Hf Hne. unfold journal_group. mrun.
  destruct (ms_patch_spec s a bid (fun _ => bm) Hok Hgr ltac:(done)) as (img & s1 & R1 & E1 & Hok1 & Hrd1 & _ & Hp1).
  rewrite E1. mrun. destruct (ms_write (desc_offset g / BLOCK_SIZE) s1) as [[a'|e] s2] eqn:E2;
    destruct (ms_write_spec _ _ _ _ Hok1 E2) as (Hok2 & Hrd2 & _ & Hp2 & Hr); cbn [fst snd].
  - destruct (ms_patch_spec s2 a' (desc_offset g / BLOCK_SIZE) (desc_patch g md) Hok2 Hr) as (block & s3 & R3 & E3 & Hok3 & Hrd3 & _ & Hp3).
    { intros b. by apply desc_patch_len. }
    mrun. rewrite E3. exists (Ok tt), s3. split; [done|]. split; [done|..].
    + rewrite Hrd3, decide_False, Hrd2, Hrd1 by done. by rewrite decide_True.
    + exists block. rewrite Hrd2, Hrd1, decide_False in R3 by done. split; [done|]. by rewrite Hrd3, decide_True.
    + intros c Hc1 Hc2. by rewrite Hrd3, decide_False, Hrd2, Hrd1, decide_False.
    + intros c. by rewrite Hp3, Hp2, Hp1.
  - exists (Err e), s2. split; [done|]. split; [exists s1; by right|done|done| |].
    + intros c Hc. by rewrite Hrd2, Hrd1, decide_False.
    + intros c. by rewrite Hp2, Hp1.
Qed.

(** *** From reads to what the store holds of the group *)

Definition same_places (d d' : BlockGroupDesc) : Prop :=
  block_bitmap_bid d' = block_bitmap_bid d /\ inode_bitmap_bid d' = inode_bitmap_bid d /\ inode_table_bid d' = inode_table_bid d.

(** What no operation changes of a descriptor. *)
Definition desc_kept (d d' : BlockGroupDesc) : Prop := same_places d d' /\ is_inode_uninit d' = is_inode_uninit d.

Lemma desc_home_places off size d d' block : same_places d d' -> desc_home off size d block -> desc_home off size d' block.
Proof. intros (E1 & E2 & E3). unfold desc_home. destruct (raw_at _ _ _). by rewrite E1, E2, E3. Qed.

Lemma free_ids_bounds b : bitmap_ok b -> 0 <= free_ids b <= ib_len b.
Proof. intros Hb. pose proof (bo_len b Hb). pose proof (count_free_bounds (ib_buf b) 0 (ib_len b) ltac:(lia)). unfold free_ids. lia. Qed.

(** The count of free ids is positive exactly when there is one. *)
Lemma free_ids_pos b : 0 < free_ids b <-> exists j, 0 <= j < ib_len b /\ bit (ib_buf b) j = false.
Proof.
  unfold free_ids, count_free. split.
  - intros Hp. destruct (filter _ _) as [|j l] eqn:E; [by cbn in Hp|]. exists j.
    assert (Hin : j ∈ filter (fun i => bit (ib_buf b) i = false) (zrange 0 (ib_len b))) by (rewrite E; left).
    apply list_elem_of_filter in Hin as [Hb Hr]. by apply elem_of_zrange in Hr.
  - intros (j & Hj & Hb). assert (Hin : j ∈ filter (fun i => bit (ib_buf b) i = false) (zrange 0 (ib_len b))).
    { apply list_elem_of_filter. split; [done|]. by apply elem_of_zrange. }
    destruct (filter _ _) as [|k l]; [by apply not_elem_of_nil in Hin|]. unfold zlen. cbn. lia.
Qed.

Lemma ok_desc_fits g md : group_geometry_ok g -> group_ok g md -> desc_fits (md_desc md).
Proof.
  intros Hg Hk. pose proof (geo_size g Hg). pose proof (geo_inodes g Hg). pose proof (go_blocks_len g md Hk). pose proof (go_inodes_len g md Hk).
  pose proof (free_ids_bounds _ (go_blocks g md Hk)). pose proof (free_ids_bounds _ (go_inodes g md Hk)). unfold capacity, BLOCK_SIZE in *.
  split; [rewrite (go_free_blocks g md Hk)|rewrite (go_free_inodes g md Hk)|apply Hk..]; unfold fits; lia.
Qed.

Lemma group_step_stored g bid bm md md' s s' :
  group_geometry_ok g -> ms_ok s -> group_ok g md' -> group_stored g md s -> group_step g bid bm md' s s' ->
  same_places (md_desc md) (md_desc md') -> is_inode_uninit (md_desc md') = is_inode_uninit (md_desc md) ->
  (bid = block_bitmap_bid (md_desc md) /\ bm = ib_buf (md_blocks md') /\ md_inodes md' = md_inodes md) \/
  (bid = inode_bitmap_bid (md_desc md) /\ bm = ib_buf (md_inodes md') /\ md_blocks md' = md_blocks md /\
   is_block_uninit (md_desc md') = is_block_uninit (md_desc md)) ->
  group_stored g md' s'.
Proof.
  intros Hg Hok Hk [(block & R & _ & Hh) Hb Hi (D1 & D2 & D3)] [_ Sb (block' & R' & Sd) So _] Hpl Hun Hcase.
  pose proof (ok_desc_fits g md' Hg Hk) as Hf. rewrite R in R'. injection R' as <-.
  destruct (desc_patch_block g md' block Hg Hf (ms_read_block s _ _ Hok R) (desc_home_places _ _ _ _ _ Hpl Hh)) as (_ & P2 & P3).
  pose proof Hpl as (E1 & E2 & E3). split.
  - by exists (desc_patch g md' block).
  - rewrite E1. destruct Hcase as [(-> & -> & _)|(-> & -> & -> & ->)]; [done|]. intros. rewrite So by congruence. by apply Hb.
  - rewrite E2, Hun. destruct Hcase as [(-> & -> & ->)|(-> & -> & _ & _)]; [|done]. intros. rewrite So by congruence. by apply Hi.
  - unfold bids_distinct. by rewrite E1, E2.
Qed.

(** Equal reads hold the same. *)
Lemma group_stored_reads g md s s' : (forall c, ms_read s' c = ms_read s c) -> group_stored g md s -> group_stored g md s'.
Proof. intros E [H1 H2 H3 H4]. split; try rewrite !E; done. Qed.

(** *** Blocks *)

Lemma group_size_eq g : group_geometry_ok g -> u32 (last_block g - first_block g + 1) = last_block g - first_block g + 1.
Proof. intros Hg. pose proof (geo_size g Hg). unfold capacity, BLOCK_SIZE in *. unfold u32. apply wrap_small. unfold fits. lia. Qed.

Lemma clear_block_uninit z : fits 16 z ->
  fits 16 (Z.ldiff z BG_BLOCK_UNINIT) /\ Z.land (Z.ldiff z BG_BLOCK_UNINIT) BG_BLOCK_UNINIT = 0 /\
  Z.land (Z.ldiff z BG_BLOCK_UNINIT) BG_INODE_UNINIT = Z.land z BG_INODE_UNINIT.
Proof.
  intros Hz. unfold BG_BLOCK_UNINIT, BG_INODE_UNINIT in *. split; [rewrite Z.ldiff_land; by apply land_fits|split].
  - apply Z.bits_inj'. intros n Hn. rewrite Z.land_spec, Z.ldiff_spec, Z.bits_0. destruct (Z.testbit z n), (Z.testbit 2 n); done.
  - apply Z.bits_inj'. intros n Hn. rewrite !Z.land_spec, Z.ldiff_spec. destruct (decide (n = 1)) as [->|]; [by rewrite !andb_false_r|].
    assert (Z.testbit 2 n = false) as ->; [|by rewrite andb_true_r]. change 2 with (2 ^ 1). apply Z.pow2_bits_false. lia.
Qed.

(** The group after a run of its blocks is taken. *)
Definition take_run (md : BlockGroupMetadata) (b : IdBitmap) (n : Z) : BlockGroupMetadata :=
  let d := md_desc md in
  touch_desc (touch_blocks md b)
    (desc_set d (free_blocks_count d - n) (free_inodes_count d) (used_dirs_count d)
       (if is_block_uninit d then Z.ldiff (bg_flags d) BG_BLOCK_UNINIT else bg_flags d) (itable_unused d)).

Lemma take_run_ok g md b (s e : Z) :
  group_geometry_ok g -> group_ok g md -> bitmap_ok b -> ib_len b = ib_len (md_blocks md) -> free_run (md_blocks md) s e -> s < e ->
  (forall j, 0 <= j -> bit (ib_buf b) j = if decide (s <= j < e) then true else bit (ib_buf (md_blocks md)) j) ->
  group_ok g (take_run md b (e - s)) /\ is_inode_uninit (md_desc (take_run md b (e - s))) = is_inode_uninit (md_desc md) /\
  (forall x, is_free g (take_run md b (e - s)) x <-> is_free g md x /\ ~ (first_block g + s <= x < first_block g + e)).
Proof.
  intros Hg [K1 K2 K3 K4 K5 K6 K7 K8 K9 K10] Hb Hl Hr Hse Hbits. pose proof Hr as (Hr1 & Hr2 & _).
  destruct (clear_block_uninit (bg_flags (md_desc md)) K8) as (F1 & F2 & F3).
  assert (Hfree : forall x, is_free g (take_run md b (e - s)) x <-> is_free g md x /\ ~ (first_block g + s <= x < first_block g + e)).
  { intros x. unfold is_free. cbn. split.
    - intros [Hx E]. rewrite Hbits in E by lia. case_decide; [done|]. split_and!; [lia|lia|done|lia].
    - intros [[Hx E] Hn]. split; [done|]. rewrite Hbits by lia. by rewrite decide_False by lia. }
  split_and!; [|cbn; unfold is_inode_uninit; cbn; by destruct (is_block_uninit (md_desc md)); rewrite ?F3|done].
  split; cbn; try done; [congruence| |by destruct (is_block_uninit (md_desc md))|].
  - rewrite K5. assert (Eb : ib_buf b = set_bits (zrange s e) true (ib_buf (md_blocks md))).
    { apply buf_ext; [|intros j Hj; rewrite Hbits by done; symmetry; pose proof (bo_len _ K1); apply bit_set_range; [apply K1|lia|lia|lia]].
      pose proof (bo_block b Hb) as L1. pose proof (is_block_set_bits (zrange s e) true _ (bo_block _ K1)) as L2. unfold is_block in *. congruence. }
    unfold free_ids. rewrite Eb, Hl, alloc_free_ids by (done || lia). done.
  - intros x Hx Hf. apply (K10 x Hx). by apply Hfree.
Qed.

(** A step that only concerns the blocks of a group, or only its inodes, and
    moves their free count by [n]. *)
Definition only_blocks (md md' : BlockGroupMetadata) (n : Z) : Prop :=
  free_blocks_count (md_desc md') = free_blocks_count (md_desc md) + n /\
  free_inodes_count (md_desc md') = free_inodes_count (md_desc md) /\ md_inodes md' = md_inodes md.
Definition only_inodes (md md' : BlockGroupMetadata) (n : Z) : Prop :=
  free_inodes_count (md_desc md') = free_inodes_count (md_desc md) + n /\
  free_blocks_count (md_desc md') = free_blocks_count (md_desc md) /\ md_blocks md' = md_blocks md.

(** What a group's allocation of blocks does, by outcome. *)
Definition alloc_blocks_post g md s (count sb_free : Z) (pf : list (Z * Z)) (r : result GroupBlockAlloc) md' s' : Prop :=
  match r with
  | Ok (Allocated (a, e)) =>
      a < e /\ e - a <= count /\ e - a <= sb_free /\
      (forall b, a <= b < e -> is_free g md b /\ ~ system_block g (md_desc md) b /\ forall p, p ∈ pf -> ~ (p.1 <= b < p.1 + p.2)) /\
      (forall b, is_free g md' b <-> is_free g md b /\ ~ (a <= b < e)) /\ only_blocks md md' (- (e - a)) /\ desc_kept (md_desc md) (md_desc md') /\
      (group_stored g md s -> group_stored g md' s') /\ group_step g (block_bitmap_bid (md_desc md)) (ib_buf (md_blocks md')) md' s s'
  | Ok (NoFit p) =>
      (forall b, is_free g md' b <-> is_free g md b) /\ only_blocks md md' 0 /\ md_desc md' = md_desc md /\ (forall c, ms_read s' c = ms_read s c) /\
      (group_stored g md s -> group_stored g md' s') /\
      p = negb (bool_decide (pinned_bits g pf = [])) /\
      (p = false -> forall b, ~ is_free g md b)
  | Err e => store_failure e (block_bitmap_bid (md_desc md)) (desc_offset g / BLOCK_SIZE) s s'
  end.

Lemma alloc_blocks_spec g md s count sb_free pf r md' s' :
  group_geometry_ok g -> group_ok g md -> bids_distinct g (md_desc md) -> ms_ok s -> 0 < count -> 0 < sb_free ->
  alloc_blocks g count sb_free pf (md, s) = (r, (md', s')) ->
  group_ok g md' /\ ms_ok s' /\ (forall c, pinned s' c <-> pinned s c) /\ alloc_blocks_post g md s count sb_free pf r md' s'.
Proof.
  intros Hg Hk Hdist Hok Hc Hsb. unfold alloc_blocks. rewrite (group_size_eq g Hg). mrun.
  set (req := Z.min _ _). pose proof (geo_size g Hg) as Hsize. pose proof (go_blocks_len g md Hk) as Hlen.
  assert (Hfree : 0 <= free_blocks_count (md_desc md) <= last_block g - first_block g + 1).
  { rewrite (go_free_blocks g md Hk), <- Hlen. apply free_ids_bounds, Hk. }
  assert (Hreq : 0 <= req <= count /\ req <= sb_free /\ req <= free_blocks_count (md_desc md)) by (unfold req; lia).
  rewrite (u16_small req) by lia.
  destruct (ms_write (block_bitmap_bid (md_desc md)) s) as [[a|e] s1] eqn:E1;
    destruct (ms_write_spec _ _ _ _ Hok E1) as (Hok1 & Hrd1 & _ & Hp1 & Hr1); mrun.
  2: { intros [= <- <- <-]. split_and!; try done. split; try done. exists s. by left. }
  pose proof (search_release (pinned_bits g pf) (md_blocks md) req (go_blocks g md Hk) ltac:(unfold capacity, BLOCK_SIZE in *; lia)) as Hs.
  destruct (search SEARCH_FUEL (pinned_bits g pf) req (md_blocks md) []) as [[[[lo hi]|] b] held];
    destruct Hs as (b' & Erel & Hb' & Hl' & Hs); rewrite Erel; mrun.
  - destruct Hs as (Hn & Hrun & Hpin & Hbits). pose proof Hrun as (R1 & R2 & R3).
    rewrite (proj2 (Z.ltb_lt 0 req)) by lia. cbn [md_desc touch_blocks].
    assert (Hrange : forall x, first_block g + lo <= x < first_block g + lo + (hi - lo) -> is_free g md x).
    { intros x Hx. split; [lia|]. apply R3. lia. }
    rewrite (free_not_system g md _ _ Hk Hrange), !(proj2 (Z.ltb_ge _ _)) by lia. cbn [orb]. mrun.
    destruct (take_run_ok g md b' lo hi Hg Hk Hb' Hl' Hrun ltac:(lia) Hbits) as (T1 & T2 & T3).
    change (touch_desc _ _) with (take_run md b' (hi - lo)). set (md1 := take_run md b' (hi - lo)) in *.
    destruct (journal_group_spec g a (block_bitmap_bid (md_desc md)) (ib_buf b') md1 s1 Hok1 Hr1 (bo_block b' Hb') Hg (go_flags g md1 T1)
      (proj1 (proj2 Hdist))) as (r1 & s2 & Ej & Hj). cbn [md_blocks touch_blocks]. rewrite Ej. destruct r1 as [u|e].
    + mrun. intros [= <- <- <-]. apply (group_step_from _ _ _ _ _ _ _ Hrd1 Hp1) in Hj.
      split_and!; [done|apply Hj|apply Hj|]. cbn [alloc_blocks_post]. split; [lia|]. split; [lia|]. split; [lia|]. split_and!; [|done|split; [unfold md1; cbn; lia|done]|by split| |done].
      * intros x Hx. specialize (Hrange x ltac:(lia)). split_and!; [done| |].
        -- intros Hsys. by apply (go_system g md Hk x Hsys).
        -- intros p Hp. apply (unpinned_run g pf lo hi Hg Hpin); [lia|lia|done|lia].
      * intros Hst. apply (group_step_stored g _ _ md md1 s s2 Hg Hok T1 Hst Hj); [done|done|]. left. by split_and!.
    + intros [= <- <- <-]. apply (store_failure_from _ _ _ _ _ _ Hrd1 Hp1) in Hj. split_and!; [done|apply Hj|apply Hj|done].
  - destruct Hs as [Hbits Hfull]. assert (b' = md_blocks md) as ->.
    { apply bitmap_ext; [done|apply Hk|done|done]. }
    assert (Hmd : forall md1, md1 = (if 0 <? req then touch_blocks md (md_blocks md) else md) ->
      group_ok g md1 /\ md_desc md1 = md_desc md /\ md_blocks md1 = md_blocks md /\ md_inodes md1 = md_inodes md).
    { intros md1 ->. destruct (0 <? req); [|done]. split; [|done]. by destruct Hk as [? ? ? ? ? ? ? ? ? ?]. }
    set (md1 := if 0 <? req then _ else md). destruct (Hmd md1 eq_refl) as (M1 & M2 & M3 & M4). rewrite M2.
    assert (Hnone : pinned_bits g pf = [] -> free_blocks_count (md_desc md) = 0).
    { intros Ep. pose proof (go_free_blocks g md Hk) as Efb. destruct (decide (0 < free_ids (md_blocks md))) as [Hp|]; [|lia].
      pose proof Hp as (j & Hj & Ej)%free_ids_pos. rewrite (Hfull ltac:(unfold req; lia) Ep j Hj) in Ej. done. }
    destruct ((0 <? free_blocks_count (md_desc md)) && negb (negb (bool_decide (pinned_bits g pf = [])))) eqn:Eio.
    { apply andb_true_iff in Eio as [Ef Ep]. rewrite negb_involutive in Ep. apply bool_decide_eq_true in Ep. by rewrite (Hnone Ep) in Ef. }
    intros [= <- <- <-]. split_and!; [done|done|done|]. cbn [alloc_blocks_post].
    split_and!; [|split; rewrite M2; [lia|done]|done|done| |done|].
    + intros x. unfold is_free. by rewrite M3.
    + intros Hst. apply (group_stored_reads _ _ _ _ Hrd1). destruct Hst as [S1 S2 S3 S4]. split; by rewrite ?M2, ?M3, ?M4.
    + intros Ep x [Hx Ex]. apply negb_false_iff, bool_decide_eq_true in Ep. apply Hnone in Ep. rewrite (go_free_blocks g md Hk) in Ep.
      assert (0 < free_ids (md_blocks md)); [|lia]. apply free_ids_pos. exists (x - first_block g). split; [lia|done].
Qed.

(** *** Freeing blocks *)

Lemma free_one b i : bitmap_ok b -> 0 <= i < ib_len b -> bit (ib_buf b) i = true ->
  exists b', free b i = Ok b' /\ bitmap_ok b' /\ ib_len b' = ib_len b /\ free_ids b' = free_ids b + 1 /\
    forall j, 0 <= j -> bit (ib_buf b') j = if decide (j = i) then false else bit (ib_buf b) j.
Proof.
  intros Hb Hi Ht. destruct (free_ok b i Hb Hi) as (b' & E & Hb' & Hl & Hbits). exists b'. split_and!; try done.
  unfold free_ids. rewrite Hl.
  pose proof (count_free_range (ib_buf b) (ib_buf b') i (i + 1) (ib_len b) ltac:(lia) ltac:(lia)) as Hc.
  rewrite (count_free_all (ib_buf b') i (i + 1)), (count_free_none (ib_buf b) i (i + 1)) in Hc; [|intros j Hj; by replace j with i by lia|lia|].
  - lapply Hc; [lia|]. intros j Hj. rewrite Hbits by lia. by rewrite decide_False by lia.
  - intros j Hj. rewrite Hbits by lia. by rewrite decide_True by lia.
Qed.

Lemma free_bits_spec ids b freed :
  bitmap_ok b -> Forall (fun i => 0 <= i < ib_len b) ids ->
  exists b' n, free_bits ids b freed = Ok (b', freed + n) /\ bitmap_ok b' /\ ib_len b' = ib_len b /\ 0 <= n <= zlen ids /\
    free_ids b' = free_ids b + n /\ (n = 0 -> b' = b) /\
    forall j, 0 <= j -> bit (ib_buf b') j = if decide (j ∈ ids) then false else bit (ib_buf b) j.
Proof.
  revert b freed. induction ids as [|i ids IH]; intros b freed Hb Hf; cbn [free_bits].
  - exists b, 0. rewrite !Z.add_0_r. split_and!; try done.
  - apply Forall_cons in Hf as [Hi Hf]. unfold is_allocated. rewrite (proj2 (Z.ltb_lt i _)) by lia. cbn [rbind].
    assert (Hz : zlen (i :: ids) = 1 + zlen ids) by (unfold zlen; cbn; lia).
    destruct (bit (ib_buf b) i) eqn:Ei.
    + destruct (free_one b i Hb Hi Ei) as (b1 & -> & Hb1 & Hl1 & Hc1 & Hbits1). cbn [rbind].
      destruct (IH b1 (freed + 1) Hb1) as (b' & n & -> & Hb' & Hl' & Hn & Hc & Hnz & Hbits); [by rewrite Hl1|].
      exists b', (1 + n). split_and!; try done; [f_equal; f_equal; lia|congruence|lia|lia|lia|lia|].
      intros j Hj. rewrite Hbits, Hbits1 by done.
      destruct (decide (j ∈ i :: ids)) as [Hin|Hin]; rewrite elem_of_cons in Hin; repeat case_decide; tauto.
    + destruct (IH b freed Hb Hf) as (b' & n & -> & Hb' & Hl' & Hn & Hc & Hnz & Hbits). exists b', n. split_and!; try (done || lia).
      intros j Hj. rewrite Hbits by done.
      destruct (decide (j ∈ i :: ids)) as [Hin|Hin]; rewrite elem_of_cons in Hin; case_decide; try tauto. destruct Hin as [->|?]; tauto.
Qed.

(** The group after a run of its blocks is freed. *)
Definition give_run (md : BlockGroupMetadata) (b : IdBitmap) (n : Z) : BlockGroupMetadata :=
  let d := md_desc md in
  touch_desc (if 0 <? n then touch_blocks md b else md)
    (desc_set d (free_blocks_count d + n) (free_inodes_count d) (used_dirs_count d) (bg_flags d) (itable_unused d)).

Lemma give_run_blocks md b n : (n = 0 -> b = md_blocks md) -> 0 <= n -> md_blocks (give_run md b n) = b.
Proof. intros Hnz Hn. unfold give_run. destruct (Z.ltb_spec 0 n); [done|]. symmetry. apply Hnz. lia. Qed.

Lemma give_run_ok g md b n (s e : Z) :
  group_ok g md -> bitmap_ok b -> ib_len b = ib_len (md_blocks md) -> free_ids b = free_ids (md_blocks md) + n -> 0 <= n ->
  (n = 0 -> b = md_blocks md) -> 0 <= s ->
  (forall x, first_block g + s <= x < first_block g + e -> ~ system_block g (md_desc md) x) ->
  (forall j, 0 <= j -> bit (ib_buf b) j = if decide (s <= j < e) then false else bit (ib_buf (md_blocks md)) j) ->
  group_ok g (give_run md b n) /\
  (forall x, is_free g (give_run md b n) x <->
     is_free g md x \/ (first_block g <= x <= last_block g /\ first_block g + s <= x < first_block g + e)).
Proof.
  intros [K1 K2 K3 K4 K5 K6 K7 K8 K9 K10] Hb Hl Hc Hn Hnz Hs Hsys Hbits. pose proof (give_run_blocks md b n Hnz Hn) as Eb.
  assert (Ei : md_inodes (give_run md b n) = md_inodes md) by (unfold give_run; by destruct (0 <? n)).
  assert (Hfree : forall x, is_free g (give_run md b n) x <->
     is_free g md x \/ (first_block g <= x <= last_block g /\ first_block g + s <= x < first_block g + e)).
  { intros x. unfold is_free. rewrite Eb. split.
    - intros [Hx E]. rewrite Hbits in E by lia. case_decide; [right; lia|by left].
    - intros [[Hx E]|[Hx Hr]]; (split; [lia|]); rewrite Hbits by lia; case_decide; try done; lia. }
  split; [|done]. split; rewrite ?Eb, ?Ei; try done; [congruence|cbn; lia|].
  intros x Hx [Hf|[_ Hr]]%Hfree; [by apply (K10 x Hx)|by apply (Hsys x Hr)].
Qed.

Definition free_blocks_post g md s (start_bit end_bit : Z) (r : result Z) md' s' : Prop :=
  let a := first_block g + start_bit in
  let e := first_block g + end_bit in
  match r with
  | Ok n =>
      0 <= n /\ (forall b, a <= b < e -> ~ system_block g (md_desc md) b) /\
      (forall b, is_free g md' b <-> is_free g md b \/ a <= b < e) /\
      only_blocks md md' n /\ desc_kept (md_desc md) (md_desc md') /\
      (group_stored g md s -> group_stored g md' s') /\ group_step g (block_bitmap_bid (md_desc md)) (ib_buf (md_blocks md')) md' s s'
  | Err err =>
      (exists b, a <= b < e /\ system_block g (md_desc md) b) /\ err = EIO /\ md' = md /\ s' = ms_abort s \/
      store_failure err (block_bitmap_bid (md_desc md)) (desc_offset g / BLOCK_SIZE) s s'
  end.

Lemma free_blocks_spec g md s start_bit end_bit r md' s' :
  group_geometry_ok g -> group_ok g md -> bids_distinct g (md_desc md) -> ms_ok s ->
  0 <= start_bit <= end_bit -> end_bit <= last_block g - first_block g + 1 ->
  free_blocks g start_bit end_bit (md, s) = (r, (md', s')) ->
  group_ok g md' /\ free_blocks_post g md s start_bit end_bit r md' s'.
Proof.
  intros Hg Hk Hdist Hok Hr He. pose proof (geo_size g Hg) as Hsize. pose proof (go_blocks_len g md Hk) as Hlen.
  unfold free_blocks. mrun.
  destruct (overlaps_system_zone g (md_desc md) _) eqn:Eov.
  { mrun. intros [= <- <- <-]. split; [done|]. left. split; [by apply overlaps_spec|done]. }
  mrun. destruct (ms_write (block_bitmap_bid (md_desc md)) s) as [[a|e] s1] eqn:E1;
    destruct (ms_write_spec _ _ _ _ Hok E1) as (Hok1 & Hrd1 & _ & Hp1 & Hr1); mrun.
  2: { intros [= <- <- <-]. split; [done|]. right. split; try done. exists s. by left. }
  rewrite Z.max_r, !u16_small by lia. replace (start_bit + (end_bit - start_bit)) with end_bit by lia.
  destruct (free_bits_spec (zrange start_bit end_bit) (md_blocks md) 0 (go_blocks g md Hk)) as (b' & n & -> & Hb' & Hl' & Hn & Hc & Hnz & Hbits).
  { apply Forall_forall. intros i Hi%elem_of_zrange. lia. }
  rewrite zlen_zrange in Hn by lia. rewrite Z.add_0_l. mrun.
  assert (Hno : forall x, first_block g + start_bit <= x < first_block g + end_bit -> ~ system_block g (md_desc md) x).
  { intros x Hx Hsys. apply not_true_iff_false in Eov. apply Eov, overlaps_spec. by exists x. }
  destruct (give_run_ok g md b' n start_bit end_bit Hk Hb' Hl' Hc ltac:(lia) Hnz ltac:(lia) Hno) as (G1 & G2).
  { intros j Hj. rewrite Hbits by done. destruct (decide (j ∈ zrange start_bit end_bit)) as [Hd|Hd]; rewrite elem_of_zrange in Hd; by case_decide. }
  rewrite (go_free_blocks g md Hk). pose proof (free_ids_bounds b' Hb'). unfold guard.
  rewrite (proj2 (Z.ltb_lt _ (2 ^ 32))) by (unfold capacity, BLOCK_SIZE in *; lia). mrun. rewrite <- (go_free_blocks g md Hk).
  change (touch_desc _ _) with (give_run md b' n).
  replace (md_blocks (if 0 <? n then touch_blocks md b' else md)) with b'; [|symmetry; by apply (give_run_blocks md b' n Hnz ltac:(lia))].
  destruct (journal_group_spec g a (block_bitmap_bid (md_desc md)) (ib_buf b') (give_run md b' n) s1 Hok1 Hr1 (bo_block b' Hb') Hg
    (go_flags _ _ G1) (proj1 (proj2 Hdist))) as (r1 & s2 & Ej & Hj). rewrite Ej. destruct r1 as [u|e]; mrun.
  - intros [= <- <- <-]. apply (group_step_from _ _ _ _ _ _ _ Hrd1 Hp1) in Hj. split; [done|]. unfold free_blocks_post.
    assert (Ebm : md_blocks (give_run md b' n) = b') by (apply give_run_blocks; [done|lia]). rewrite Ebm.
    split; [lia|]. split_and!; [done| |split; [done|split; [done|]]; unfold give_run; by destruct (0 <? n)|by split| |done].
    + intros x. rewrite G2. split; [tauto|]. intros [?|Hx]; [by left|right; lia].
    + intros Hst. apply (group_step_stored g _ _ md _ s s2 Hg Hok G1 Hst Hj); [done|done|]. left. rewrite Ebm. split_and!; try done.
      unfold give_run. by destruct (0 <? n).
  - intros [= <- <- <-]. apply (store_failure_from _ _ _ _ _ _ Hrd1 Hp1) in Hj. split; [done|by right].
Qed.

(** *** Inodes *)

Lemma rposition_spec l i :
  match rposition l i with
  | Some (k, b) => i <= k < i + zlen l /\ l !! Z.to_nat (k - i) = Some b /\ byte.unsigned b <> 0 /\
      forall m c, l !! m = Some c -> k - i < Z.of_nat m -> byte.unsigned c = 0
  | None => forall m c, l !! m = Some c -> byte.unsigned c = 0
  end.
Proof.
  revert i. induction l as [|x l IH]; intros i; cbn [rposition]; [by intros m c Hm; rewrite lookup_nil in Hm|].
  specialize (IH (i + 1)). assert (Hz : zlen (x :: l) = 1 + zlen l) by (unfold zlen; cbn; lia).
  destruct (rposition l (i + 1)) as [[k b]|].
  - destruct IH as (H1 & H2 & H3 & H4). split_and!; [lia|lia| |done|].
    + replace (Z.to_nat (k - i)) with (Datatypes.S (Z.to_nat (k - (i + 1)))) by lia. done.
    + intros [|m] c Hm Hlt; [lia|]. apply (H4 m c Hm). lia.
  - destruct (Z.eqb_spec (byte.unsigned x) 0) as [Ex|Ex].
    + intros [|m] c Hm; [by injection Hm as <-|by apply (IH m c)].
    + unfold zlen in *. split_and!; [lia|lia| |done|]; [by rewrite Z.sub_diag|].
      intros [|m] c Hm Hlt; [lia|by apply (IH m c)].
Qed.

Lemma byte_high_bit (b : byte) : byte.unsigned b <> 0 ->
  0 <= Z.log2 (byte.unsigned b) < 8 /\ Z.testbit (byte.unsigned b) (Z.log2 (byte.unsigned b)) = true /\
  forall n, Z.log2 (byte.unsigned b) < n -> Z.testbit (byte.unsigned b) n = false.
Proof.
  intros Hb. pose proof (byte.unsigned_range b). split_and!.
  - apply Z.log2_nonneg.
  - apply Z.log2_lt_pow2; lia.
  - apply Z.bit_log2. lia.
  - intros n Hn. apply Z.bits_above_log2; lia.
Qed.

Lemma itable_unused_bounds b ipg : 0 <= ipg -> 0 <= itable_unused_from_bitmap b ipg <= ipg.
Proof.
  intros Hi. unfold itable_unused_from_bitmap. pose proof (rposition_spec (slice 0 (div_ceil ipg 8) (ib_buf b)) 0) as Hr.
  destruct (rposition _ 0) as [[k c]|]; [|lia]. pose proof (Z.log2_nonneg (byte.unsigned c)). lia.
Qed.

(** One past the highest inode in use. *)
Lemma itable_unused_spec b ipg :
  bitmap_ok b -> 0 <= ipg <= capacity -> ipg mod 8 = 0 ->
  let high_water := ipg - itable_unused_from_bitmap b ipg in
  (high_water = 0 \/ bit (ib_buf b) (high_water - 1) = true) /\ forall j, high_water <= j < ipg -> bit (ib_buf b) j = false.
Proof.
  intros Hb Hi Hm8. unfold itable_unused_from_bitmap. assert (Ed : div_ceil ipg 8 = ipg / 8).
  { unfold div_ceil. Z.to_euclidean_division_equations; lia. }
  rewrite Ed. cbv zeta. set (hw := ipg - (ipg - Z.min _ ipg)). pose proof (bo_block b Hb) as Hblk. unfold is_block in Hblk. unfold capacity in Hi.
  assert (Hat : forall m, (m < Z.to_nat (ipg / 8))%nat -> slice 0 (ipg / 8) (ib_buf b) !! m = ib_buf b !! m).
  { intros m Hm. unfold slice. rewrite lookup_take_lt by lia. by rewrite lookup_drop. }
  assert (Hlen : zlen (slice 0 (ipg / 8) (ib_buf b)) = ipg / 8).
  { apply zlen_slice; [lia|Z.to_euclidean_division_equations; lia|]. unfold BLOCK_SIZE in *. Z.to_euclidean_division_equations; lia. }
  assert (Hzero : forall j, 0 <= j < ipg -> (forall c, slice 0 (ipg / 8) (ib_buf b) !! Z.to_nat (j / 8) = Some c -> byte.unsigned c = 0) ->
    bit (ib_buf b) j = false).
  { intros j Hj Hc. unfold bit. rewrite <- Hat by (Z.to_euclidean_division_equations; lia).
    destruct (slice _ _ _ !! _) as [c|] eqn:E; [|done]. rewrite (Hc c eq_refl). apply Z.bits_0. }
  pose proof (rposition_spec (slice 0 (ipg / 8) (ib_buf b)) 0) as Hr. destruct (rposition _ 0) as [[k c]|].
  - destruct Hr as (R1 & R2 & R3 & R4). rewrite Hlen in R1. rewrite Z.sub_0_r in *. destruct (byte_high_bit c R3) as (L1 & L2 & L3).
    assert (Ehw : hw = k * 8 + (Z.log2 (byte.unsigned c) + 1)) by (unfold hw; Z.to_euclidean_division_equations; lia).
    rewrite Hat in R2 by lia. split.
    + right. unfold bit. rewrite Ehw. replace (_ - 1) with (k * 8 + Z.log2 (byte.unsigned c)) by lia.
      rewrite Z.div_add_l, Z.div_small, Z.add_0_r, R2, Z.add_comm, Z.mod_add, Z.mod_small by lia. done.
    + intros j Hj. destruct (decide (j / 8 = k)) as [Ek|Ek].
      * unfold bit. rewrite Ek, R2. apply L3. Z.to_euclidean_division_equations; lia.
      * apply Hzero; [lia|]. intros x Hx. apply (R4 _ _ Hx). Z.to_euclidean_division_equations; lia.
  - split; [left; unfold hw; lia|]. intros j Hj. apply Hzero; [unfold hw in Hj; lia|]. intros x Hx. by apply (Hr _ _ Hx).
Qed.

(** The group after its inode bitmap changed. *)
Definition set_inodes (g : BlockGroup) (md : BlockGroupMetadata) (b : IdBitmap) (fi ud : Z) : BlockGroupMetadata :=
  let d := md_desc md in
  touch_desc (touch_inodes md b)
    (desc_set d (free_blocks_count d) fi ud (bg_flags d) (itable_unused_from_bitmap b (bg_ipg g))).

Lemma set_inodes_ok g md b fi ud :
  group_geometry_ok g -> group_ok g md -> bitmap_ok b -> ib_len b = ib_len (md_inodes md) -> fi = free_ids b -> fits 16 ud ->
  group_ok g (set_inodes g md b fi ud).
Proof.
  intros Hg [K1 K2 K3 K4 K5 K6 K7 K8 K9 K10] Hb Hl -> Hud. split; cbn; try done; [congruence|].
  pose proof (geo_inodes g Hg). pose proof (itable_unused_bounds b (bg_ipg g) ltac:(lia)). unfold fits, capacity, BLOCK_SIZE in *. lia.
Qed.

(** The inode's bit is clear. *)
Definition inode_free (md : BlockGroupMetadata) (i : Z) : Prop :=
  0 <= i < ib_len (md_inodes md) /\ bit (ib_buf (md_inodes md)) i = false.

(** The journaled tail of an inode operation. *)
Lemma inode_step g md s s1 a b fi ud :
  group_geometry_ok g -> group_ok g (set_inodes g md b fi ud) -> group_stored g md s -> ms_ok s -> ms_ok s1 -> bitmap_ok b ->
  ms_granted s1 a (inode_bitmap_bid (md_desc md)) -> (forall c, ms_read s1 c = ms_read s c) -> (forall c, pinned s1 c <-> pinned s c) ->
  exists r s', journal_group g a (ib_buf b) (set_inodes g md b fi ud, s1) = (r, (set_inodes g md b fi ud, s')) /\
  match r with
  | Ok _ => group_stored g (set_inodes g md b fi ud) s' /\
      group_step g (inode_bitmap_bid (md_desc md)) (ib_buf b) (set_inodes g md b fi ud) s s'
  | Err e => store_failure e (inode_bitmap_bid (md_desc md)) (desc_offset g / BLOCK_SIZE) s s'
  end.
Proof.
  intros Hg G1 Hst Hok Hok1 Hb Hgr Hrd Hp.
  destruct (journal_group_spec g a (inode_bitmap_bid (md_desc md)) (ib_buf b) (set_inodes g md b fi ud) s1 Hok1 Hgr (bo_block b Hb) Hg
    (go_flags _ _ G1) (proj2 (proj2 (gs_distinct g md s Hst)))) as (r & s' & Ej & Hj).
  exists r, s'. split; [done|]. destruct r as [u|e]; [|by apply (store_failure_from _ _ _ _ _ _ Hrd Hp)].
  apply (group_step_from _ _ _ _ _ _ _ Hrd Hp) in Hj. split; [|done].
  apply (group_step_stored g _ _ md _ s s' Hg Hok G1 Hst Hj); [done|done|]. right. by split_and!.
Qed.

Definition alloc_ino_post g md s (is_directory : bool) (r : result (option Z)) md' s' : Prop :=
  match r with
  | Ok (Some i) =>
      inode_free md i /\ (forall k, k < i -> ~ inode_free md k) /\ is_inode_uninit (md_desc md) = false /\
      (forall k, 0 <= k -> bit (ib_buf (md_inodes md')) k = if decide (k = i) then true else bit (ib_buf (md_inodes md)) k) /\
      desc_kept (md_desc md) (md_desc md') /\
      only_inodes md md' (-1) /\ used_dirs_count (md_desc md') = used_dirs_count (md_desc md) + (if is_directory then 1 else 0) /\
      group_stored g md' s' /\ group_step g (inode_bitmap_bid (md_desc md)) (ib_buf (md_inodes md')) md' s s'
  | Ok None => ((forall k, ~ inode_free md k) \/ is_inode_uninit (md_desc md) = true) /\ md' = md /\ s' = s
  | Err e =>
      (e = EIO /\ is_directory = true /\ used_dirs_count (md_desc md) = 2 ^ 16 - 1 /\ md' = md /\ s' = s) \/
      store_failure e (inode_bitmap_bid (md_desc md)) (desc_offset g / BLOCK_SIZE) s s'
  end.

Lemma alloc_ino_spec g md s is_directory r md' s' :
  group_geometry_ok g -> group_ok g md -> group_stored g md s -> ms_ok s ->
  alloc_ino g is_directory (md, s) = (r, (md', s')) ->
  group_ok g md' /\ alloc_ino_post g md s is_directory r md' s'.
Proof.
  intros Hg Hk Hst Hok. unfold alloc_ino. mrun. pose proof (go_inodes g md Hk) as Hb.
  destruct (Z.eqb_spec (free_inodes_count (md_desc md)) 0) as [E0|E0].
  { mrun. intros [= <- <- <-]. split; [done|]. split; [|done]. left. intros k Hkf. rewrite (go_free_inodes g md Hk) in E0.
    assert (0 < free_ids (md_inodes md)); [|lia]. apply free_ids_pos. by exists k. }
  destruct (is_inode_uninit (md_desc md)) eqn:Eu; [mrun; intros [= <- <- <-]; split; [done|]; split; [by right|done]|].
  unfold guard. destruct (is_directory && (used_dirs_count (md_desc md) =? 2 ^ 16 - 1)) eqn:Ed; cbn [negb].
  { mrun. intros [= <- <- <-]. apply andb_true_iff in Ed as [-> Ed]. apply Z.eqb_eq in Ed. split; [done|]. by left. }
  mrun. destruct (ms_write (inode_bitmap_bid (md_desc md)) s) as [[a|e] s1] eqn:E1;
    destruct (ms_write_spec _ _ _ _ Hok E1) as (Hok1 & Hrd1 & _ & Hp1 & Hr1); mrun.
  2: { intros [= <- <- <-]. split; [done|]. right. split; try done. exists s. by left. }
  destruct (alloc_consecutive (md_inodes md) 1) as [[[lo hi]|] b] eqn:Ea.
  2: { destruct (alloc_consecutive_none _ _ _ Hb Z.le_0_1 Ea) as [-> [?|Hn]]; [lia|]. exfalso.
    assert (0 < free_ids (md_inodes md)) as (j & Hj & Ej)%free_ids_pos.
    { pose proof (free_ids_bounds _ Hb). rewrite (go_free_inodes g md Hk) in E0. lia. }
    apply (Hn j). split_and!; [lia|lia|]. intros i Hi. by replace i with j by lia. }
  pose proof (alloc_bits _ _ _ _ _ Hb Z.le_0_1 Ea) as Hbits.
  destruct (alloc_consecutive_ok _ _ _ _ Hb Z.le_0_1 Ea) as (A1 & A2 & A3 & A4 & (R1 & R2 & R3) & A6 & A7). cbn [fst snd] in *.
  set (ud := if is_directory then used_dirs_count (md_desc md) + 1 else used_dirs_count (md_desc md)).
  assert (Hud : fits 16 ud).
  { pose proof (go_dirs g md Hk). unfold fits, ud in *. destruct is_directory; [|done]. apply Z.eqb_neq in Ed. lia. }
  assert (Hfi : free_inodes_count (md_desc md) - 1 = free_ids b).
  { rewrite (go_free_inodes g md Hk). unfold free_ids at 2. rewrite A7, A2, alloc_free_ids; [lia|done|by split_and!|lia]. }
  pose proof (set_inodes_ok g md b _ ud Hg Hk A1 A2 Hfi Hud) as G1. mrun.
  change (touch_desc _ _) with (set_inodes g md b (free_inodes_count (md_desc md) - 1) ud). set (md1 := set_inodes g md b _ ud) in *.
  destruct (inode_step g md s s1 a b _ ud Hg G1 Hst Hok Hok1 A1 Hr1 Hrd1 Hp1) as (r1 & s2 & Ej & Hj). fold md1 in Ej, Hj. rewrite Ej.
  destruct r1 as [u|e]; mrun; intros [= <- <- <-]; (split; [done|]); [|by right]. unfold alloc_ino_post. split_and!; try apply Hj; try done.
  - split; [lia|]. apply R3. lia.
  - intros k Hlt [Hkr Hkb]. destruct (A6 k ltac:(lia)) as (i & Hi & Et); [lia|]. replace i with k in Et by lia. congruence.
  - intros k Hk0. cbn. rewrite Hbits by done. repeat case_decide; done || lia.
  - cbn. unfold ud. destruct is_directory; lia.
Qed.

Definition free_inode_post g md s (idx : Z) (is_directory : bool) (r : result bool) md' s' : Prop :=
  match r with
  | Ok true =>
      ~ inode_free md idx /\
      (forall k, 0 <= k -> bit (ib_buf (md_inodes md')) k = if decide (k = idx) then false else bit (ib_buf (md_inodes md)) k) /\
      desc_kept (md_desc md) (md_desc md') /\
      only_inodes md md' 1 /\ used_dirs_count (md_desc md') = used_dirs_count (md_desc md) - (if is_directory then 1 else 0) /\
      group_stored g md' s' /\ group_step g (inode_bitmap_bid (md_desc md)) (ib_buf (md_inodes md')) md' s s'
  | Ok false => inode_free md idx /\ md' = md /\ s' = s
  | Err e =>
      (e = EIO /\ is_directory = true /\ used_dirs_count (md_desc md) = 0 /\ md' = md) \/
      store_failure e (inode_bitmap_bid (md_desc md)) (desc_offset g / BLOCK_SIZE) s s'
  end.

Lemma free_inode_spec g md s idx is_directory r md' s' :
  group_geometry_ok g -> group_ok g md -> group_stored g md s -> ms_ok s -> 0 <= idx < bg_ipg g ->
  free_inode g idx is_directory (md, s) = (r, (md', s')) ->
  group_ok g md' /\ free_inode_post g md s idx is_directory r md' s'.
Proof.
  intros Hg Hk Hst Hok Hi. unfold free_inode. mrun. pose proof (go_inodes g md Hk) as Hb. pose proof (go_inodes_len g md Hk) as Hlen.
  pose proof (geo_inodes g Hg) as Hcap. rewrite (u16_small idx) by lia. unfold is_allocated. rewrite (proj2 (Z.ltb_lt idx _)) by lia. mrun.
  destruct (bit (ib_buf (md_inodes md)) idx) eqn:Ei; cbn [negb].
  2: { mrun. intros [= <- <- <-]. split; [done|]. split; [|done]. split; [lia|done]. }
  mrun. destruct (ms_write (inode_bitmap_bid (md_desc md)) s) as [[a|e] s1] eqn:E1;
    destruct (ms_write_spec _ _ _ _ Hok E1) as (Hok1 & Hrd1 & _ & Hp1 & Hr1); mrun.
  2: { intros [= <- <- <-]. split; [done|]. right. split; try done. exists s. by left. }
  rewrite (go_free_inodes g md Hk). pose proof (free_ids_bounds _ Hb). unfold guard at 1.
  rewrite (proj2 (Z.ltb_lt _ (2 ^ 32))) by (unfold capacity, BLOCK_SIZE in *; lia). mrun. rewrite <- (go_free_inodes g md Hk).
  unfold guard. destruct (negb is_directory || (1 <=? used_dirs_count (md_desc md))) eqn:Ed; mrun.
  2: { intros [= <- <- <-]. apply orb_false_iff in Ed as [Ed1 Ed2]. apply negb_false_iff in Ed1 as ->. apply Z.leb_gt in Ed2.
    pose proof (go_dirs g md Hk) as [Hd _]. split; [done|]. left. split_and!; try done. lia. }
  destruct (free_one (md_inodes md) idx Hb ltac:(lia) Ei) as (b & Ef & Hb' & Hl & Hc & Hbits). rewrite Ef. mrun.
  set (ud := if is_directory then used_dirs_count (md_desc md) - 1 else used_dirs_count (md_desc md)).
  assert (Hud : fits 16 ud).
  { pose proof (go_dirs g md Hk). unfold fits, ud in *. destruct is_directory; [|done]. cbn in Ed. apply Z.leb_le in Ed. lia. }
  assert (Hfi : free_inodes_count (md_desc md) + 1 = free_ids b) by (rewrite (go_free_inodes g md Hk); lia).
  pose proof (set_inodes_ok g md b _ ud Hg Hk Hb' Hl Hfi Hud) as G1.
  change (touch_desc _ _) with (set_inodes g md b (free_inodes_count (md_desc md) + 1) ud). set (md1 := set_inodes g md b _ ud) in *.
  destruct (inode_step g md s s1 a b _ ud Hg G1 Hst Hok Hok1 Hb' Hr1 Hrd1 Hp1) as (r1 & s2 & Ej & Hj). fold md1 in Ej, Hj. rewrite Ej.
  destruct r1 as [u|e]; mrun; intros [= <- <- <-]; (split; [done|]); [|by right]. unfold free_inode_post. split_and!; try apply Hj.
  - intros [_ Hf]. by rewrite Ei in Hf.
  - intros k Hk0. cbn. by apply Hbits.
  - by split.
  - by split.
  - cbn. unfold ud. destruct is_directory; lia.
Qed.

(** *** Other groups *)

(** An operation on one group leaves what the store holds of another whose
    bitmaps lie elsewhere and whose descriptor has another slot. *)
Record apart (g : BlockGroup) (md : BlockGroupMetadata) (g2 : BlockGroup) (md2 : BlockGroupMetadata) : Prop := {
  ap_bitmaps : forall b b2, (b = block_bitmap_bid (md_desc md) \/ b = inode_bitmap_bid (md_desc md) \/ b = desc_offset g / BLOCK_SIZE) ->
    (b2 = block_bitmap_bid (md_desc md2) \/ b2 = inode_bitmap_bid (md_desc md2)) -> b <> b2;
  ap_desc : forall b, (b = block_bitmap_bid (md_desc md) \/ b = inode_bitmap_bid (md_desc md)) -> b <> desc_offset g2 / BLOCK_SIZE;
  ap_size : bg_desc_size g2 = bg_desc_size g;
  ap_slot : desc_offset g2 / BLOCK_SIZE = desc_offset g / BLOCK_SIZE ->
    desc_offset g + bg_desc_size g <= desc_offset g2 \/ desc_offset g2 + bg_desc_size g <= desc_offset g;
}.

Lemma group_step_frame g md md' g2 md2 bid bm s s' :
  group_geometry_ok g -> group_geometry_ok g2 -> ms_ok s -> group_ok g md' -> group_stored g md s -> same_places (md_desc md) (md_desc md') -> apart g md g2 md2 ->
  bid = block_bitmap_bid (md_desc md) \/ bid = inode_bitmap_bid (md_desc md) ->
  group_step g bid bm md' s s' -> group_stored g2 md2 s -> group_stored g2 md2 s'.
Proof.
  intros Hg Hg2 Hok Hk Hst Hpl [A1 A2 A3 A4] Hbid [_ Sb (block & R & Sd) So _] [(block2 & R2 & D2 & H2) B2 I2 N2].
  assert (Hoth : forall b2, b2 = block_bitmap_bid (md_desc md2) \/ b2 = inode_bitmap_bid (md_desc md2) -> ms_read s' b2 = ms_read s b2).
  { intros b2 Hb2. apply So; intros E; symmetry in E; revert E; (apply A1; [|done]); tauto. }
  split; [|rewrite (Hoth _ (or_introl eq_refl)); exact B2|rewrite (Hoth _ (or_intror eq_refl)); exact I2|done].
  destruct (decide (desc_offset g2 / BLOCK_SIZE = desc_offset g / BLOCK_SIZE)) as [Eb|Nb].
  2: { exists block2. rewrite So; [done| |done]. intros E. by apply (A2 bid Hbid). }
  rewrite Eb, R in R2. injection R2 as <-. rewrite Eb. exists (desc_patch g md' block). split; [done|].
  destruct (gs_desc g md s Hst) as (blk & R' & _ & Hh). rewrite R in R'. injection R' as <-.
  destruct (store_desc_ok (desc_offset g) (bg_desc_size g) (group_idx g) (group_csums g md') (md_desc md') block (geo_desc g Hg) (geo_fit g Hg)
    (ms_read_block s _ _ Hok R) (ok_desc_fits g md' Hg Hk) (desc_home_places _ _ _ _ _ Hpl Hh)) as (_ & _ & _ & Hsl). fold (desc_patch g md' block) in Hsl.
  assert (Hraw : raw_at (bg_desc_size g2) (desc_offset g2 mod BLOCK_SIZE) (desc_patch g md' block) =
    raw_at (bg_desc_size g2) (desc_offset g2 mod BLOCK_SIZE) block).
  { pose proof (geo_fit g2 Hg2). pose proof (Z.mod_pos_bound (desc_offset g2) BLOCK_SIZE ltac:(done)).
    pose proof (Z.div_mod (desc_offset g) BLOCK_SIZE ltac:(done)). pose proof (Z.div_mod (desc_offset g2) BLOCK_SIZE ltac:(done)) as E2.
    rewrite Eb in E2. specialize (A4 Eb). rewrite A3. unfold raw_at, read_at. rewrite group_lo_size, group_hi_size. unfold GROUP_LO_SIZE.
    destruct (geo_desc g Hg) as [E32|E64].
    - rewrite E32 in *. do 2 f_equal. apply Hsl; lia.
    - rewrite E64 in *. f_equal; [f_equal; apply Hsl; lia|]. cbn [is_wide]. do 2 f_equal. apply Hsl; lia. }
  split; [unfold desc_of_block in *; by rewrite Hraw|unfold desc_home in *; by rewrite Hraw].
Qed.
End Journaled.

(** ** Lemmas: write-back and reload *)

Lemma patch_as_write_raw g d block :
  patch_into d (desc_offset g) block =
  write_raw (desc_offset g mod BLOCK_SIZE)
    (gl_counters (read_at group_lo_codec (desc_offset g mod BLOCK_SIZE) block) (u16 (free_blocks_count d)) (u16 (free_inodes_count d))
       (u16 (used_dirs_count d)) (bg_flags d) (u16 (itable_unused d)), None) block.
Proof. unfold patch_into, write_raw. cbn [fst snd]. reflexivity. Qed.

(** A second write of the low half hides the first. *)
Lemma write_raw_twice off lo lo' hi' block :
  0 <= off -> off + GROUP_LO_SIZE <= zlen block -> c_wf group_lo_codec lo -> c_wf group_lo_codec lo' ->
  write_raw off (lo', hi') (write_raw off (lo, None) block) = write_raw off (lo', hi') block.
Proof.
  intros Ho Hf W W'. unfold write_raw. cbn [fst snd]. unfold write_at at 2 3. unfold write_at at 4.
  assert (L : forall x, c_wf group_lo_codec x -> zlen (as_bytes group_lo_codec x) = GROUP_LO_SIZE) by (intros x Wx; by rewrite (codec_len _ Wx)).
  unfold write_at. rewrite splice_splice_same; [done|done| |]; rewrite ?L; done.
Qed.

Lemma sync_desc_eq g md block :
  group_geometry_ok g -> fits 16 (bg_flags (md_desc md)) -> is_block block -> sync_desc g md block = desc_patch g md block.
Proof.
  intros Hg Hf Hb. pose proof Hg as [Hd Hfit _ _ _]. destruct (off_bounds (desc_offset g) (bg_desc_size g) Hd Hfit) as (O1 & O2 & O3 & O4).
  unfold sync_desc, desc_patch, store_desc, group_csums. rewrite patch_as_write_raw. cbv zeta.
  destruct (raw_at_wf (desc_offset g) (bg_desc_size g) Hd Hfit block Hb) as [_ Wh].
  assert (Wl : c_wf group_lo_codec (read_at group_lo_codec (desc_offset g mod BLOCK_SIZE) block)).
  { apply read_at_wf; [apply _|exact O1|rewrite group_lo_size, Hb; exact O2]. }
  pose proof (gl_counters_wf _ (free_blocks_count (md_desc md)) (free_inodes_count (md_desc md)) (used_dirs_count (md_desc md))
    (bg_flags (md_desc md)) (itable_unused (md_desc md)) Wl Hf) as W1.
  set (lo1 := gl_counters _ _ _ _ _ _) in *. destruct (bg_csum_seed g) as [seed|]; [|by rewrite andb_false_r].
  rewrite andb_true_r. destruct (write_raw_spec (desc_offset g) (bg_desc_size g) Hd Hfit lo1 None block Hb W1 I) as (P1 & P2 & P3 & _).
  set (block1 := write_raw _ (lo1, None) block) in *. unfold stamp_block. rewrite (surjective_pairing (raw_at _ _ block1)), P2, P3.
  unfold raw_at in Wh |- *. cbn [snd] in *. set (hi := if is_wide _ then _ else None) in *.
  destruct (stamp_checksums_spec lo1 hi (group_idx g) seed (bitmap_checksum seed (ib_buf (md_blocks md)) (bg_bpg g / 8))
    (bitmap_checksum seed (ib_buf (md_inodes md)) (div_ceil (bg_ipg g) 8)) W1 Wh) as (S1 & _).
  destruct (stamp_checksums lo1 hi _ _ _ _) as [lo3 hi3]. symmetry.
  apply write_raw_twice; [done|by rewrite Hb|done|done].
Qed.

Lemma from_buf_self b : bitmap_ok b -> from_buf (ib_buf b) (ib_len b) = Ok b.
Proof.
  intros Hb. destruct (from_buf_ok (ib_buf b) (ib_len b) (bo_block b Hb) (bo_len b Hb)) as (b' & -> & Hb' & E1 & E2).
  f_equal. apply bitmap_ext; [done|done|done|]. intros j _. by rewrite E1.
Qed.

(** ** Theorems *)

Section Theorems.
Context {S : Type} `{MetaStoreOk S}.

(** Allocating blocks in a group, over any store that keeps its promises.
    A success returns blocks of the group that were free, that no freed but
    uncommitted run covers and that are not metadata, at most as many as asked
    for; exactly these become used, in memory, in the counters and in the
    journaled bitmap and descriptor.  A failure to fit changes nothing, and
    without pinned runs it means that the group is full.  The only errors are
    those of the store: the corruption check never fires. *)
Theorem group_alloc_exact g md (s : S) count sb_free pf r md' s' :
  group_geometry_ok g -> group_ok g md -> group_stored g md s -> ms_ok s -> 0 < count -> 0 < sb_free ->
  alloc_blocks g count sb_free pf (md, s) = (r, (md', s')) ->
  group_ok g md' /\ ms_ok s' /\ (forall c, pinned s' c <-> pinned s c) /\ alloc_blocks_post g md s count sb_free pf r md' s'.
Proof. intros Hg Hk Hst. apply alloc_blocks_spec; [done|done|apply Hst]. Qed.

(** Freeing a run of a group's blocks makes exactly these free, whatever part
    of it was free before, and counts the blocks that changed; the journaled
    bitmap and descriptor agree with memory.  A run that meets the group's
    metadata changes nothing and aborts the journal. *)
Theorem group_free_exact g md (s : S) start_bit end_bit r md' s' :
  group_geometry_ok g -> group_ok g md -> group_stored g md s -> ms_ok s ->
  0 <= start_bit <= end_bit -> end_bit <= last_block g - first_block g + 1 ->
  free_blocks g start_bit end_bit (md, s) = (r, (md', s')) ->
  group_ok g md' /\ free_blocks_post g md s start_bit end_bit r md' s'.
Proof. intros Hg Hk Hst. apply free_blocks_spec; [done|done|apply Hst]. Qed.

(** Inode allocation takes the lowest free inode of the group, and freeing
    gives back exactly that inode: an allocation followed by the free of what
    it returned restores the set of free inodes, the count of directories and,
    in the store, the inode bitmap. *)
Theorem group_ino_roundtrip g md (s : S) is_directory i md1 s1 md2 s2 freed :
  group_geometry_ok g -> group_ok g md -> group_stored g md s -> ms_ok s ->
  alloc_ino g is_directory (md, s) = (Ok (Some i), (md1, s1)) ->
  free_inode g i is_directory (md1, s1) = (Ok freed, (md2, s2)) ->
  freed = true /\ inode_free md i /\ (forall k, k < i -> ~ inode_free md k) /\ ~ inode_free md1 i /\
  md_inodes md2 = md_inodes md /\ used_dirs_count (md_desc md2) = used_dirs_count (md_desc md) /\
  free_inodes_count (md_desc md2) = free_inodes_count (md_desc md) /\
  group_stored g md2 s2 /\ ms_read s2 (inode_bitmap_bid (md_desc md)) = ms_read s (inode_bitmap_bid (md_desc md)).
Proof.
  intros Hg Hk Hst Hok E1 E2. destruct (alloc_ino_spec _ _ _ _ _ _ _ Hg Hk Hst Hok E1) as (K1 & P1 & P2 & P3 & P4 & [[_ [P5 _]] P5'] & _ & P6 & P7 & P8).
  pose proof (go_inodes_len _ _ Hk) as L. pose proof P1 as [Hi Hb]. rewrite L in Hi.
  destruct (free_inode_spec _ _ _ _ _ _ _ _ Hg K1 P7 (st_ok _ _ _ _ _ _ P8) Hi E2) as (K2 & Q).
  assert (Hn : ~ inode_free md1 i) by (intros [_ Hx]; rewrite P4, decide_True in Hx by (done || lia); done). destruct freed; [|by destruct Q].
  destruct Q as (_ & Q2 & [[_ [Q3 _]] Q3'] & _ & Q4 & Q5 & Q6).
  assert (Em : md_inodes md2 = md_inodes md).
  { apply bitmap_ext; [apply K2|apply Hk|by rewrite (go_inodes_len _ _ K2)|]. intros j Hj.
    rewrite Q2, P4 by done. case_decide; [by subst j|done]. }
  split_and!; try done; [destruct is_directory; lia|by rewrite (go_free_inodes _ _ K2), (go_free_inodes _ _ Hk), Em|].
  rewrite (gs_inodes _ _ _ Hst P3), <- P5, <- Q3, (gs_inodes _ _ _ Q5), Em; [done|]. by rewrite Q3', P5'.
Qed.

(** [bg_itable_unused] counts the inodes above the highest one in use. *)
Theorem itable_unused_high_water b ipg :
  bitmap_ok b -> 0 <= ipg <= capacity -> ipg mod 8 = 0 ->
  let unused := itable_unused_from_bitmap b ipg in
  0 <= unused <= ipg /\ (unused = ipg \/ bit (ib_buf b) (ipg - unused - 1) = true) /\
  forall j, ipg - unused <= j < ipg -> bit (ib_buf b) j = false.
Proof.
  intros Hb Hi Hm unused. destruct (itable_unused_spec b ipg Hb Hi Hm) as [H1 H2]. fold unused in H1, H2.
  split; [apply itable_unused_bounds; lia|]. split; [|done]. destruct H1 as [H1|H1]; [left; lia|by right].
Qed.

(** The two write-back paths agree: the descriptor block that
    [sync_metadata] writes without a journal is the one an operation journals,
    and a group whose three blocks are on the device is loaded back as it was
    in memory. *)
Theorem write_back_agrees g md (s : S) d block :
  group_geometry_ok g -> group_ok g md -> group_stored g md s -> ms_ok s ->
  is_block_uninit (md_desc md) = false -> is_inode_uninit (md_desc md) = false ->
  (forall b, ms_read s b = dev_read d b) -> is_block block ->
  sync_desc g md block = desc_patch g md block /\
  reload_metadata g d = Ok (clean_md (md_desc md) (md_blocks md) (md_inodes md)).
Proof.
  intros Hg Hk [(blk & R & D & _) Hb Hi _] Hok Eb Ei Hrd Hblk. split; [apply sync_desc_eq; [done|apply Hk|done]|].
  pose proof (go_blocks_len g md Hk) as Lb. pose proof (go_inodes_len g md Hk) as Li. pose proof (geo_size g Hg). pose proof (geo_inodes g Hg).
  unfold reload_metadata, read_desc. rewrite <- Hrd, R. cbn [rbind]. rewrite D. cbn [rbind].
  unfold load_block_bitmap, load_inode_bitmap. rewrite Eb, Ei, <- !Hrd, (Hb Eb), (Hi Ei). cbn [rbind].
  rewrite (group_size_eq g Hg), !u16_small, Z.min_l by lia. rewrite <- Lb, <- Li.
  by rewrite !from_buf_self by apply Hk.
Qed.
End Theorems.

Module SampleGroup.
(** A group of 32 blocks: descriptor table in block 10, bitmaps in 11 and 12,
    inode table at 200; blocks 0 to 3 and 8 of the group are taken. *)
Definition g : BlockGroup :=
  {| group_idx := 0; first_block := 200; last_block := 231; table_blocks := 2; bg_ipg := 16; bg_bpg := 32; bg_inode_size := 256;
     bg_block_size := 4096; bg_desc_size := 32; desc_offset := 40960; bg_csum_seed := Some {| fs_seed := 7 |} |}.
Definition blocks : IdBitmap :=
  {| ib_buf := set_bits [0; 1; 2; 3; 8] true (zeros BLOCK_SIZE); first_available_id := 4; ib_len := 32 |}.
Definition inodes : IdBitmap :=
  {| ib_buf := set_bits [0; 1; 2] true (zeros BLOCK_SIZE); first_available_id := 3; ib_len := 16 |}.
Definition desc : BlockGroupDesc :=
  {| block_bitmap_bid := 11; inode_bitmap_bid := 12; inode_table_bid := 200; free_blocks_count := 27; free_inodes_count := 13;
     used_dirs_count := 1; bg_flags := 0; itable_unused := 13 |}.
Definition md : BlockGroupMetadata := clean_md desc blocks inodes.
Definition desc_block : list byte := desc_patch g md (put_le 4 0 11 (put_le 4 4 12 (put_le 4 8 200 (zeros BLOCK_SIZE)))).
Definition disk : gmap Z (list byte) := <[10 := desc_block]> (<[11 := ib_buf blocks]> {[ 12 := ib_buf inodes ]}).
Definition store : op := sample_op (Device disk [] (fun _ => true) (fun _ => true) true).
End SampleGroup.

Lemma sample_group_geometry : group_geometry_ok SampleGroup.g.
Proof. split; [by left|vm_compute; congruence|vm_compute; congruence|by vm_compute|by vm_compute]. Qed.


Lemma from_buf_bitmap buf len b : is_block buf -> 0 <= len <= capacity -> from_buf buf len = Ok b -> bitmap_ok b.
Proof. intros H1 H2 E. destruct (from_buf_ok buf len H1 H2) as (b' & E' & Hb & _). rewrite E in E'. by injection E' as <-. Qed.

Lemma sample_group_ok : group_ok SampleGroup.g SampleGroup.md.
Proof.
  split.
  - apply (from_buf_bitmap (ib_buf SampleGroup.blocks) 32); [vm_compute; reflexivity|by vm_compute|vm_compute; reflexivity].
  - apply (from_buf_bitmap (ib_buf SampleGroup.inodes) 16); [vm_compute; reflexivity|by vm_compute|vm_compute; reflexivity].
  - reflexivity.
  - reflexivity.
  - vm_compute. reflexivity.
  - vm_compute. reflexivity.
  - by vm_compute.
  - by vm_compute.
  - by vm_compute.
  - intros b Hs [Hr Hf]. unfold system_block in Hs. cbn [block_bitmap_bid inode_bitmap_bid inode_table_bid table_blocks md_desc SampleGroup.md
      SampleGroup.desc SampleGroup.g clean_md first_block last_block] in *. assert (b = 200 \/ b = 201) as [-> | ->] by lia; vm_compute in Hf; discriminate Hf.
Qed.

Lemma sample_store_ok : ms_ok SampleGroup.store.
Proof. apply sample_op_ok. vm_decide. Qed.

Lemma sample_group_stored : group_stored SampleGroup.g SampleGroup.md SampleGroup.store.
Proof.
  split.
  - exists SampleGroup.desc_block. split; [vm_compute; reflexivity|]. split; [vm_compute; reflexivity|].
    vm_compute. split; [reflexivity|split; [reflexivity|split; [reflexivity|discriminate]]].
  - intros _. vm_compute. reflexivity.
  - intros _. vm_compute. reflexivity.
  - by vm_compute.
Qed.

(** The pinned run covers the first free blocks, so the run comes later. *)
Lemma group_alloc_exact_witness : exists md' s',
  alloc_blocks SampleGroup.g 3 100 [(204, 2)] (SampleGroup.md, SampleGroup.store) = (Ok (Allocated (209, 212)), (md', s')) /\
  group_ok SampleGroup.g md' /\ group_stored SampleGroup.g md' s' /\
  forall b, is_free SampleGroup.g md' b <-> is_free SampleGroup.g SampleGroup.md b /\ ~ (209 <= b < 212).
Proof.
  assert (Er : (alloc_blocks SampleGroup.g 3 100 [(204, 2)] (SampleGroup.md, SampleGroup.store)).1 = Ok (Allocated (209, 212)))
    by (vm_compute; reflexivity).
  destruct (alloc_blocks SampleGroup.g 3 100 [(204, 2)] (SampleGroup.md, SampleGroup.store)) as [r [md' s']] eqn:E.
  cbn [fst] in Er. subst r. exists md', s'. split; [reflexivity|].
  destruct (group_alloc_exact SampleGroup.g SampleGroup.md SampleGroup.store 3 100 [(204, 2)] _ md' s' sample_group_geometry sample_group_ok
    sample_group_stored sample_store_ok eq_refl eq_refl E) as (K & _ & _ & _ & _ & _ & _ & F & _ & _ & St & _).
  split; [exact K|]. split; [exact (St sample_group_stored)|exact F].
Defined.

(** Of the blocks 204 to 208 only the last was taken. *)
Lemma group_free_exact_witness : exists md' s',
  free_blocks SampleGroup.g 4 9 (SampleGroup.md, SampleGroup.store) = (Ok 1, (md', s')) /\
  free_blocks_count (md_desc md') = 28 /\ forall b, is_free SampleGroup.g md' b <-> is_free SampleGroup.g SampleGroup.md b \/ 204 <= b < 209.
Proof.
  assert (Er : (free_blocks SampleGroup.g 4 9 (SampleGroup.md, SampleGroup.store)).1 = Ok 1) by (vm_compute; reflexivity).
  destruct (free_blocks SampleGroup.g 4 9 (SampleGroup.md, SampleGroup.store)) as [r [md' s']] eqn:E.
  cbn [fst] in Er. subst r. exists md', s'. split; [reflexivity|].
  destruct (group_free_exact SampleGroup.g SampleGroup.md SampleGroup.store 4 9 _ md' s' sample_group_geometry sample_group_ok
    sample_group_stored sample_store_ok ltac:(lia) ltac:(by vm_compute) E) as (_ & _ & _ & F & [C _] & _).
  split; [exact C|exact F].
Defined.

Lemma group_ino_roundtrip_witness : exists md1 s1 md2 s2,
  alloc_ino SampleGroup.g true (SampleGroup.md, SampleGroup.store) = (Ok (Some 3), (md1, s1)) /\
  free_inode SampleGroup.g 3 true (md1, s1) = (Ok true, (md2, s2)) /\ md_inodes md2 = SampleGroup.inodes.
Proof.
  assert (Er : (alloc_ino SampleGroup.g true (SampleGroup.md, SampleGroup.store)).1 = Ok (Some 3)) by (vm_compute; reflexivity).
  assert (Er2 : (free_inode SampleGroup.g 3 true (alloc_ino SampleGroup.g true (SampleGroup.md, SampleGroup.store)).2).1 = Ok true)
    by (vm_compute; reflexivity).
  destruct (alloc_ino SampleGroup.g true (SampleGroup.md, SampleGroup.store)) as [r [md1 s1]] eqn:E. cbn [fst snd] in Er, Er2. subst r.
  destruct (free_inode SampleGroup.g 3 true (md1, s1)) as [r [md2 s2]] eqn:E2. cbn [fst] in Er2. subst r.
  exists md1, s1, md2, s2. split; [reflexivity|]. split; [exact E2|].
  apply (group_ino_roundtrip SampleGroup.g SampleGroup.md SampleGroup.store true 3 md1 s1 md2 s2 true sample_group_geometry sample_group_ok
    sample_group_stored sample_store_ok E E2).
Defined.

Lemma itable_unused_high_water_witness :
  itable_unused_from_bitmap SampleGroup.inodes 16 = 13 /\ bit (ib_buf SampleGroup.inodes) 2 = true.
Proof.
  assert (E : itable_unused_from_bitmap SampleGroup.inodes 16 = 13) by (vm_compute; reflexivity). split; [exact E|].
  destruct (itable_unused_high_water SampleGroup.inodes 16 (go_inodes _ _ sample_group_ok) ltac:(by vm_compute) ltac:(reflexivity))
    as (_ & H & _). rewrite E in H. destruct H as [H|H]; [discriminate H|exact H].
Defined.

Lemma write_back_agrees_witness :
  reload_metadata SampleGroup.g (j_device (o_j SampleGroup.store)) = Ok SampleGroup.md.
Proof.
  apply (write_back_agrees SampleGroup.g SampleGroup.md SampleGroup.store _ (zeros BLOCK_SIZE) sample_group_geometry sample_group_ok
    sample_group_stored sample_store_ok); [reflexivity|reflexivity| |vm_compute; reflexivity]. intros b. reflexivity.
Defined.
