(* ===== verification/Alloc.v ===== *)
(** * Allocation across the groups

    Models the allocation half of [fs.rs]: [Ext4] with its superblock and its
    block groups, the search of the groups in a ring, freeing a run that
    spans groups, and inode numbers.  The superblock lock is held across each
    operation, so an operation is one step on the pair of the file system and
    the store. *)

From S2P Require Import Prelude Pod Checksum JournalFormat Device Bitmap SuperBlock GroupDesc JournalState MetaStore BlockGroup.

(** ** The code *)

Definition ROOT_INO : Z := 2.

(** The fields of [Ext4] that its operations change, and the geometry cached
    at mount. *)
Record Ext4 : Type := {
  super_block : SuperBlock;
  sb_dirty : bool;
  block_groups : list (BlockGroup * BlockGroupMetadata);
  fs_nr_inodes_per_group : Z;
  fs_total_inodes : Z;
  orphan_chain : list Z;
}.

Definition set_super (fs : Ext4) (sb : SuperBlock) : Ext4 :=
  Build_Ext4 sb true (block_groups fs) (fs_nr_inodes_per_group fs) (fs_total_inodes fs) (orphan_chain fs).
Definition set_groups (fs : Ext4) (gs : list (BlockGroup * BlockGroupMetadata)) : Ext4 :=
  Build_Ext4 (super_block fs) (sb_dirty fs) gs (fs_nr_inodes_per_group fs) (fs_total_inodes fs) (orphan_chain fs).

Definition gdt_base_offset (sb : SuperBlock) : Z := (sb_first_data_block sb + 1) * sb_block_size sb.

(** [Ext4::load_block_groups] *)
Fixpoint load_groups (d : device) (sb : SuperBlock) (idxs : list Z) : result (list (BlockGroup * BlockGroupMetadata)) :=
  match idxs with
  | [] => Ok []
  | i :: idxs =>
      let? g := load d i sb (gdt_base_offset sb) in
      let? gs := load_groups d sb idxs in
      Ok (g :: gs)
  end.
Definition load_block_groups (d : device) (sb : SuperBlock) : result (list (BlockGroup * BlockGroupMetadata)) :=
  load_groups d sb (group_list (sb_nr_block_groups sb)).

(** [Ext4::find_group]: the index of the group that owns an inode. *)
Definition find_group (fs : Ext4) (ino : Z) : result Z :=
  check negb (ino =? 0) else ENOENT in
  check negb (fs_total_inodes fs <? ino) else ENOENT in
  let group_idx := (ino - 1) / fs_nr_inodes_per_group fs in
  check group_idx <? zlen (block_groups fs) else ENOENT in
  Ok group_idx.

Section Operations.
Context {S : Type} `{MetaStore S}.

Definition fstate : Type := Ext4 * S.

Definition ext4 : M fstate Ext4 := fun st => (Ok st.1, st).
Definition set_ext4 (fs : Ext4) : M fstate unit := fun st => (Ok tt, (fs, st.2)).

(** An operation of the group at an index; the index panics out of bounds. *)
Definition in_group {A} (idx : Z) (op : BlockGroup -> M (BlockGroupMetadata * S) A) : M fstate A := fun st =>
  match block_groups st.1 !! Z.to_nat idx with
  | None => (Err PANIC, st)
  | Some (g, md) =>
      match op g (md, st.2) with
      | (r, (md, s)) => (r, (set_groups st.1 (<[Z.to_nat idx := (g, md)]> (block_groups st.1)), s))
      end
  end.

(** A checked update of the superblock; the mutable access marks it dirty even
    when it fails. *)
Definition update_super (f : SuperBlock -> result SuperBlock) : M fstate unit :=
  fs ← ext4;
  match f (super_block fs) with
  | Ok sb => set_ext4 (set_super fs sb)
  | Err e => set_ext4 (set_super fs (super_block fs));; fail e
  end.

(** [SuperBlock::journal_capture] *)
Definition journal_capture (last_orphan : option Z) : M fstate unit :=
  fs ← ext4;
  a ← on_store (ms_write SUPERBLOCK_BID);
  on_store (ms_patch a (capture_patch (super_block fs) last_orphan)).

(** [sb.journal_capture(handle, sb.last_orphan())] *)
Definition capture_super : M fstate unit :=
  fs ← ext4; journal_capture (sb_last_orphan (super_block fs)).

(** *** Blocks *)

(** The loop of [Ext4::alloc_blocks] over the ring of groups. *)
Fixpoint alloc_ring (offsets : list Z) (goal_group nr count sb_free : Z) (pins : list (Z * Z)) (pinned_blocked : bool)
  : M fstate (Z * Z) :=
  match offsets with
  | [] =>
      if pinned_blocked then on_store (modify ms_request_commit);; fail ENOSPC
      else fail ENOSPC
  | off :: offsets =>
      r ← in_group ((goal_group + off) mod nr) (fun g => alloc_blocks g count sb_free pins);
      match r with
      | Allocated range =>
          update_super (fun sb => dec_free_blocks sb (range.2 - range.1));;
          capture_super;;
          mret range
      | NoFit pinned_in_group => alloc_ring offsets goal_group nr count sb_free pins (pinned_blocked || pinned_in_group)
      end
  end.

(** [Ext4::alloc_blocks] *)
Definition fs_alloc_blocks (count goal : Z) : M fstate (Z * Z) :=
  if count =? 0 then fail EINVAL
  else
    fs ← ext4;
    let sb := super_block fs in
    if sb_free_blocks_count sb =? 0 then fail ENOSPC
    else
      pins ← (fun st => (Ok (ms_pinned st.2), st));
      let goal_group :=
        Z.min (if sb_first_data_block sb <? goal then (goal - sb_first_data_block sb) / sb_nr_blocks_per_group sb else 0)
          (sb_nr_block_groups sb - 1) in
      alloc_ring (group_list (sb_nr_block_groups sb)) goal_group (sb_nr_block_groups sb) count (sb_free_blocks_count sb) pins false.

(** [handle.abort_journal_on_fs_error()] on any error of [m]. *)
Definition or_abort {A} (m : M fstate A) : M fstate A := fun st =>
  match m st with
  | (Ok a, st) => (Ok a, st)
  | (Err e, (fs, s)) => (Err e, (fs, ms_abort s))
  end.

(** One run of [Ext4::free_blocks], after the discharge. *)
Definition free_run_in_group (group_idx start_bit current n : Z) : M fstate unit :=
  freed ← in_group group_idx (fun g => free_blocks g start_bit (start_bit + n));
  on_store (ms_pin current n);;
  if 0 <? freed then
    update_super (fun sb => inc_free_blocks sb freed);;
    capture_super
  else mret tt.

(** The discharge of the run from the revocation duty, when it carries one. *)
Definition discharge_run (duty : bool) (current n : Z) : M fstate unit :=
  if duty then on_store (ms_discharge current n) else mret tt.

(** The loop of [Ext4::free_blocks]; on a run of the volume each round frees at
    least one block. *)
Fixpoint free_loop (fuel : nat) (duty : bool) (current remaining : Z) : M fstate unit :=
  if remaining <=? 0 then mret tt
  else
    match fuel with
    | O => fail DIVERGE
    | Datatypes.S fuel =>
        fs ← ext4;
        let sb := super_block fs in
        guard (sb_first_data_block sb <=? current) PANIC;;
        let group_idx := (current - sb_first_data_block sb) / sb_nr_blocks_per_group sb in
        match block_groups fs !! Z.to_nat group_idx with
        | None => fail PANIC
        | Some (g, _) =>
            let group_size := u32 (last_block g - first_block g + 1) in
            let start_bit := u32 (current - first_block g) in
            guard (start_bit <=? group_size) PANIC;;
            let n := Z.min remaining (group_size - start_bit) in
            discharge_run duty current n;;
            or_abort (free_run_in_group group_idx start_bit current n);;
            free_loop fuel duty (current + n) (remaining - n)
        end
    end.

(** [Ext4::free_blocks] of the run an authorisation covers. *)
Definition fs_free_blocks (start count : Z) (duty : bool) : M fstate unit :=
  if count =? 0 then mret tt else free_loop (Z.to_nat count) duty start count.

(** *** Inodes *)

(** The loop of [Ext4::alloc_ino]; a number out of range is rolled back. *)
Fixpoint ino_ring (offsets : list Z) (parent_group nr ipg total : Z) (is_directory : bool) : M fstate Z :=
  match offsets with
  | [] => fail ENOSPC
  | off :: offsets =>
      let group_idx := (parent_group + off) mod nr in
      r ← in_group group_idx (fun g => alloc_ino g is_directory);
      match r with
      | None => ino_ring offsets parent_group nr ipg total is_directory
      | Some local_idx =>
          let ino := group_idx * ipg + local_idx + 1 in
          fs ← ext4;
          if (ino <? 2 ^ 32) && (sb_first_ino (super_block fs) <=? ino) && (ino <=? total) then
            update_super dec_free_inodes;;
            capture_super;;
            mret ino
          else
            (fun st => (Ok tt, (in_group group_idx (fun g => free_inode g local_idx is_directory) st).2));;
            fail EIO
      end
  end.

(** [Ext4::alloc_ino], for a known type. *)
Definition fs_alloc_ino (parent_ino : Z) (is_directory : bool) : M fstate Z :=
  fs ← ext4;
  let sb := super_block fs in
  guard (negb ((parent_ino <? ROOT_INO) || (sb_inodes_count sb <? parent_ino))) EIO;;
  guard (negb (sb_free_inodes_count sb =? 0)) ENOSPC;;
  ino_ring (group_list (sb_nr_block_groups sb)) ((parent_ino - 1) / sb_nr_inodes_per_group sb) (sb_nr_block_groups sb)
    (sb_nr_inodes_per_group sb) (sb_inodes_count sb) is_directory.

(** [Ext4::free_inode] *)
Definition fs_free_inode (ino : Z) (is_directory : bool) : M fstate unit :=
  fs ← ext4;
  group_idx ← lift (find_group fs ino);
  was_allocated ← in_group group_idx (fun g => free_inode g ((ino - 1) mod fs_nr_inodes_per_group fs) is_directory);
  if (was_allocated : bool) then
    update_super inc_free_inodes;;
    capture_super
  else mret tt.

End Operations.

(** ** Invariants *)

(** A block is free when the bitmap of its group says so. *)
Definition fs_free (fs : Ext4) (b : Z) : Prop :=
  exists i g md, block_groups fs !! i = Some (g, md) /\ is_free g md b.

(** The blocks of the file system's own metadata. *)
Definition fs_system (fs : Ext4) (b : Z) : Prop :=
  b = SUPERBLOCK_BID \/
  exists i g md, block_groups fs !! i = Some (g, md) /\ (system_block g (md_desc md) b \/ b = desc_offset g / BLOCK_SIZE).

Definition zsum (l : list Z) : Z := foldr Z.add 0 l.
Definition group_free_blocks (p : BlockGroup * BlockGroupMetadata) : Z := free_blocks_count (md_desc p.2).
Definition group_free_inodes (p : BlockGroup * BlockGroupMetadata) : Z := free_inodes_count (md_desc p.2).

Record fs_ok (fs : Ext4) : Prop := {
  fo_sb : sb_ok (super_block fs);
  fo_len : zlen (block_groups fs) = sb_nr_block_groups (super_block fs);
  fo_geometry i g md : block_groups fs !! i = Some (g, md) ->
    g = group_geometry (Z.of_nat i) (super_block fs) (gdt_base_offset (super_block fs));
  fo_group i g md : block_groups fs !! i = Some (g, md) -> group_ok g md;
  fo_blocks : sb_free_blocks_count (super_block fs) = zsum (group_free_blocks <$> block_groups fs);
  fo_inodes : sb_free_inodes_count (super_block fs) = zsum (group_free_inodes <$> block_groups fs);
  fo_system b : fs_system fs b -> ~ fs_free fs b;
  fo_apart i j g md g2 md2 : i <> j -> block_groups fs !! i = Some (g, md) -> block_groups fs !! j = Some (g2, md2) -> apart g md g2 md2;
  fo_super i g md b : block_groups fs !! i = Some (g, md) ->
    b = block_bitmap_bid (md_desc md) \/ b = inode_bitmap_bid (md_desc md) \/ b = desc_offset g / BLOCK_SIZE -> b <> SUPERBLOCK_BID;
  fo_ipg : fs_nr_inodes_per_group fs = sb_nr_inodes_per_group (super_block fs);
  fo_total : fs_total_inodes fs = sb_inodes_count (super_block fs);
}.

Section Stored.
Context {S : Type} `{MetaStoreOk S}.

(** The store holds the superblock, and every group. *)
Record fs_stored (fs : Ext4) (s : S) : Prop := {
  fst_super : exists buf, ms_read s SUPERBLOCK_BID = Ok buf /\
    sb_try_from (read_at raw_sb_codec SUPER_BLOCK_OFFSET buf) = Ok (super_block fs);
  fst_group i g md : block_groups fs !! i = Some (g, md) -> group_stored g md s;
}.
End Stored.

(** ** Lemmas: geometry and sums *)

Lemma group_geometry_good sb i :
  sb_ok sb -> 0 <= i < sb_nr_block_groups sb -> group_geometry_ok (group_geometry i sb (gdt_base_offset sb)).
Proof.
  intros Hs Hi. pose proof (so_bpg sb Hs). pose proof (so_ipg sb Hs). pose proof (so_cover sb Hs). pose proof (so_first sb Hs) as [Hf _].
  assert (Hds : sb_desc_size sb = 32 \/ sb_desc_size sb = 64) by (rewrite (so_desc_size sb Hs); destruct (is_64bit sb); tauto).
  split; cbn [bg_desc_size group_geometry desc_offset first_block last_block bg_ipg].
  - done.
  - unfold gdt_base_offset. rewrite (so_block_size sb Hs). unfold BLOCK_SIZE.
    destruct Hds as [-> | ->]; Z.to_euclidean_division_equations; lia.
  - nia.
  - unfold capacity, BLOCK_SIZE. destruct (Z.eqb_spec i (sb_nr_block_groups sb - 1)) as [->|]; nia.
  - unfold capacity, BLOCK_SIZE. lia.
Qed.

Lemma sb_set_self sb :
  sb = sb_set sb (sb_free_blocks_count sb) (sb_free_inodes_count sb) (sb_feature_incompat sb) (sb_last_orphan sb).
Proof. by destruct sb. Qed.

(** The geometry only depends on fields that never change. *)
Lemma group_geometry_set i sb fb fi inc lo off : group_geometry i (sb_set sb fb fi inc lo) off = group_geometry i sb off.
Proof. done. Qed.

Lemma zsum_app l k : zsum (l ++ k) = zsum l + zsum k.
Proof. induction l as [|x l IH]; cbn in *; [done|]. unfold zsum in *. lia. Qed.

Lemma zsum_insert {A} (f : A -> Z) (l : list A) i x y :
  l !! i = Some x -> zsum (f <$> <[i := y]> l) = zsum (f <$> l) - f x + f y.
Proof.
  intros Hl. rewrite <- (take_drop_middle l i x Hl) at 2. rewrite insert_take_drop by (by eapply lookup_lt_Some).
  rewrite !fmap_app, !fmap_cons, !zsum_app. unfold zsum. cbn. lia.
Qed.

Lemma zsum_nonneg {A} (f : A -> Z) (l : list A) : Forall (fun y => 0 <= f y) l -> 0 <= zsum (f <$> l).
Proof. unfold zsum. induction 1; cbn; lia. Qed.

Lemma zsum_ge {A} (f : A -> Z) (l : list A) i x : Forall (fun y => 0 <= f y) l -> l !! i = Some x -> f x <= zsum (f <$> l).
Proof.
  intros Hp. revert i. induction Hp as [|z l Hz Hp IH]; intros [|i] Hl; cbn in Hl; [done|done|injection Hl as <-|].
  - pose proof (zsum_nonneg f l Hp). unfold zsum in *. cbn. lia.
  - specialize (IH i Hl). unfold zsum in *. cbn. lia.
Qed.

(** The free blocks of a group are counted in the total. *)
Lemma fs_group_bounds fs i g md :
  fs_ok fs -> block_groups fs !! i = Some (g, md) ->
  (Z.of_nat i < sb_nr_block_groups (super_block fs)) /\ group_geometry_ok g /\
  0 <= free_blocks_count (md_desc md) <= sb_free_blocks_count (super_block fs) /\
  0 <= free_inodes_count (md_desc md) <= sb_free_inodes_count (super_block fs).
Proof.
  intros Hf Hi. assert (Hlt : Z.of_nat i < sb_nr_block_groups (super_block fs)).
  { rewrite <- (fo_len fs Hf). unfold zlen. apply lookup_lt_Some in Hi. lia. }
  assert (Hp : Forall (fun p => 0 <= group_free_blocks p /\ 0 <= group_free_inodes p) (block_groups fs)).
  { apply Forall_lookup. intros j [g' md'] Hj. pose proof (fo_group fs Hf j g' md' Hj) as Hk. unfold group_free_blocks, group_free_inodes. cbn.
    rewrite (go_free_blocks _ _ Hk), (go_free_inodes _ _ Hk). split; [apply (free_ids_bounds _ (go_blocks _ _ Hk))|apply (free_ids_bounds _ (go_inodes _ _ Hk))]. }
  pose proof (zsum_ge group_free_blocks _ i _ ltac:(eapply Forall_impl; [exact Hp|]; by intros ? [? ?]) Hi) as Hb.
  pose proof (zsum_ge group_free_inodes _ i _ ltac:(eapply Forall_impl; [exact Hp|]; by intros ? [? ?]) Hi) as Hn.
  rewrite Forall_lookup in Hp. destruct (Hp i (g, md) Hi) as [Hp1 Hp2].
  rewrite (fo_blocks fs Hf), (fo_inodes fs Hf). split_and!; try done.
  rewrite (fo_geometry fs Hf i g md Hi). apply group_geometry_good; [apply Hf|lia].
Qed.

(** Groups share no block. *)
Lemma group_of_block fs i j g md g2 md2 b :
  fs_ok fs -> block_groups fs !! i = Some (g, md) -> block_groups fs !! j = Some (g2, md2) ->
  first_block g <= b <= last_block g -> first_block g2 <= b <= last_block g2 -> i = j.
Proof.
  intros Hf Hi Hj Hb Hb2. destruct (fs_group_bounds fs i g md Hf Hi) as (Li & _). destruct (fs_group_bounds fs j g2 md2 Hf Hj) as (Lj & _).
  pose proof (so_bpg _ (fo_sb fs Hf)). pose proof (so_cover _ (fo_sb fs Hf)).
  rewrite (fo_geometry fs Hf i g md Hi) in Hb. rewrite (fo_geometry fs Hf j g2 md2 Hj) in Hb2.
  cbn [first_block last_block group_geometry] in Hb, Hb2.
  assert (Z.of_nat i = Z.of_nat j); [|lia].
  destruct (Z.of_nat i =? _) eqn:Ei, (Z.of_nat j =? _) eqn:Ej; rewrite ?Z.eqb_eq, ?Z.eqb_neq in *; nia.
Qed.

Lemma fs_free_in fs i g md b :
  fs_ok fs -> block_groups fs !! i = Some (g, md) -> first_block g <= b <= last_block g -> fs_free fs b <-> is_free g md b.
Proof.
  intros Hf Hi Hb. split; [|by exists i, g, md]. intros (j & g2 & md2 & Hj & Hfr).
  assert (i = j) as -> by (eapply group_of_block; [exact Hf|exact Hi|exact Hj|done|apply Hfr]). rewrite Hi in Hj. by injection Hj as <- <-.
Qed.

(** ** Lemmas: one group changes *)

(** [fs'] is [fs] with another state of group [i] and other counters. *)
Record group_moved (fs fs' : Ext4) (i : nat) (g : BlockGroup) (md md' : BlockGroupMetadata) : Prop := {
  gm_old : block_groups fs !! i = Some (g, md);
  gm_new : block_groups fs' = <[i := (g, md')]> (block_groups fs);
  gm_kept : desc_kept (md_desc md) (md_desc md');
  gm_ok : group_ok g md';
  gm_ipg : fs_nr_inodes_per_group fs' = fs_nr_inodes_per_group fs;
  gm_total : fs_total_inodes fs' = fs_total_inodes fs;
}.

Lemma moved_lookup fs fs' i g md md' j g2 md2 :
  group_moved fs fs' i g md md' -> block_groups fs' !! j = Some (g2, md2) ->
  (j = i /\ g2 = g /\ md2 = md') \/ (j <> i /\ block_groups fs !! j = Some (g2, md2)).
Proof.
  intros Hm Hj. rewrite (gm_new _ _ _ _ _ _ Hm) in Hj. destruct (decide (j = i)) as [->|Hne].
  - rewrite list_lookup_insert_eq in Hj by (eapply lookup_lt_Some, Hm). injection Hj as <- <-. by left.
  - rewrite list_lookup_insert_ne in Hj by done. by right.
Qed.

Lemma moved_lookup_old fs fs' i g md md' j g2 md2 :
  group_moved fs fs' i g md md' -> block_groups fs !! j = Some (g2, md2) ->
  exists md2', block_groups fs' !! j = Some (g2, md2') /\ desc_kept (md_desc md2) (md_desc md2') /\ (j <> i -> md2' = md2) /\ (j = i -> md2' = md').
Proof.
  intros Hm Hj. rewrite (gm_new _ _ _ _ _ _ Hm). destruct (decide (j = i)) as [->|Hne].
  - rewrite (gm_old _ _ _ _ _ _ Hm) in Hj. injection Hj as <- <-. exists md'.
    rewrite list_lookup_insert_eq by (eapply lookup_lt_Some, Hm). split_and!; by try apply Hm.
  - exists md2. rewrite list_lookup_insert_ne by done. by split_and!.
Qed.

Lemma kept_sym d d' : desc_kept d d' -> desc_kept d' d.
Proof. intros [(? & ? & ?) ?]. split; [|done]. by split_and!. Qed.

Lemma system_block_kept g d d' b : desc_kept d d' -> system_block g d b <-> system_block g d' b.
Proof. intros [(E1 & E2 & E3) _]. unfold system_block. by rewrite E1, E2, E3. Qed.

Lemma moved_system fs fs' i g md md' b : group_moved fs fs' i g md md' -> fs_system fs' b <-> fs_system fs b.
Proof.
  intros Hm. unfold fs_system. split; (intros [->|(j & g2 & md2 & Hj & Hb)]; [by left|right]).
  - destruct (moved_lookup _ _ _ _ _ _ _ _ _ Hm Hj) as [(-> & -> & ->)|[_ Hj']]; [|by exists j, g2, md2].
    exists i, g, md. split; [apply Hm|]. by rewrite (system_block_kept g _ _ b (gm_kept _ _ _ _ _ _ Hm)).
  - destruct (moved_lookup_old _ _ _ _ _ _ _ _ _ Hm Hj) as (md2' & Hj' & Hkept & _). exists j, g2, md2'. split; [done|].
    by rewrite <- (system_block_kept g2 _ _ b Hkept).
Qed.

Lemma apart_kept g md md' g2 md2 md2' :
  desc_kept (md_desc md) (md_desc md') -> desc_kept (md_desc md2) (md_desc md2') -> apart g md g2 md2 -> apart g md' g2 md2'.
Proof.
  intros [(E1 & E2 & _) _] [(E1' & E2' & _) _] [A1 A2 A3 A4]. split; rewrite ?E1, ?E2, ?E1', ?E2'; done.
Qed.

Lemma moved_free fs fs' i g md md' b :
  fs_ok fs -> group_moved fs fs' i g md md' ->
  fs_free fs' b <-> if decide (first_block g <= b <= last_block g) then is_free g md' b else fs_free fs b.
Proof.
  intros Hf Hm. case_decide as Hb.
  - split.
    + intros (j & g2 & md2 & Hj & Hfr). destruct (moved_lookup _ _ _ _ _ _ _ _ _ Hm Hj) as [(-> & -> & ->)|[Hne Hj']]; [done|].
      destruct Hne. symmetry. eapply (group_of_block fs); [exact Hf|apply Hm|exact Hj'|done|apply Hfr].
    + intros Hfr. destruct (moved_lookup_old _ _ _ _ _ _ _ _ _ Hm (gm_old _ _ _ _ _ _ Hm)) as (md2 & Hj & _ & _ & E).
      rewrite (E eq_refl) in Hj. by exists i, g, md'.
  - split; intros (j & g2 & md2 & Hj & Hfr).
    + destruct (moved_lookup _ _ _ _ _ _ _ _ _ Hm Hj) as [(-> & -> & ->)|[Hne Hj']]; [by destruct Hfr|by exists j, g2, md2].
    + destruct (moved_lookup_old _ _ _ _ _ _ _ _ _ Hm Hj) as (md2' & Hj' & _ & Hn & _).
      exists j, g2, md2. split; [|done]. rewrite Hj'. do 2 f_equal. apply Hn. intros ->. rewrite (gm_old _ _ _ _ _ _ Hm) in Hj.
      injection Hj as <- <-. by destruct Hfr.
Qed.

(** The invariant after one group and the counters moved together. *)
Lemma fs_ok_moved fs fs' i g md md' fb fi inc lo :
  fs_ok fs -> group_moved fs fs' i g md md' -> super_block fs' = sb_set (super_block fs) fb fi inc lo -> sb_ok (super_block fs') ->
  fb - free_blocks_count (md_desc md') = sb_free_blocks_count (super_block fs) - free_blocks_count (md_desc md) ->
  fi - free_inodes_count (md_desc md') = sb_free_inodes_count (super_block fs) - free_inodes_count (md_desc md) ->
  (forall b, fs_system fs b -> ~ is_free g md' b) ->
  fs_ok fs'.
Proof.
  intros Hf Hm Esb Hsb Hfb Hfi Hsys. pose proof Hm as [M1 M2 M3 M4 M5 M6]. split.
  - done.
  - rewrite M2, Esb. unfold zlen. rewrite length_insert. apply (fo_len fs Hf).
  - intros j g2 md2 Hj. rewrite Esb. rewrite group_geometry_set.
    destruct (moved_lookup _ _ _ _ _ _ _ _ _ Hm Hj) as [(-> & -> & ->)|[_ Hj']]; [by apply (fo_geometry fs Hf i g md)|by apply (fo_geometry fs Hf j g2 md2)].
  - intros j g2 md2 Hj. destruct (moved_lookup _ _ _ _ _ _ _ _ _ Hm Hj) as [(-> & -> & ->)|[_ Hj']]; [done|by apply (fo_group fs Hf j)].
  - rewrite M2, (zsum_insert _ _ _ _ _ M1), <- (fo_blocks fs Hf), Esb. unfold group_free_blocks. cbn. lia.
  - rewrite M2, (zsum_insert _ _ _ _ _ M1), <- (fo_inodes fs Hf), Esb. unfold group_free_inodes. cbn. lia.
  - intros b Hs%(moved_system _ _ _ _ _ _ b Hm). rewrite (moved_free _ _ _ _ _ _ b Hf Hm). case_decide; [by apply Hsys|by apply (fo_system fs Hf)].
  - intros j k ga mda gb mdb Hne Hj Hk.
    assert (Hold : forall x gx mdx, block_groups fs' !! x = Some (gx, mdx) -> exists md0, block_groups fs !! x = Some (gx, md0) /\ desc_kept (md_desc md0) (md_desc mdx)).
    { intros x gx mdx Hx. destruct (moved_lookup _ _ _ _ _ _ _ _ _ Hm Hx) as [(-> & -> & ->)|[_ Hx']]; [by exists md|].
      exists mdx. split; [done|]. by split. }
    destruct (Hold j ga mda Hj) as (m1 & H1 & K1). destruct (Hold k gb mdb Hk) as (m2 & H2 & K2).
    eapply apart_kept; [exact K1|exact K2|]. by apply (fo_apart fs Hf j k).
  - intros j g2 md2 b Hj Hb. destruct (moved_lookup _ _ _ _ _ _ _ _ _ Hm Hj) as [(-> & -> & ->)|[_ Hj']]; [|by apply (fo_super fs Hf j g2 md2)].
    destruct M3 as [(E1 & E2 & _) _]. rewrite E1, E2 in Hb. by apply (fo_super fs Hf i g md).
  - rewrite M5, Esb. apply (fo_ipg fs Hf).
  - rewrite M6, Esb. apply (fo_total fs Hf).
Qed.

(** ** Lemmas: running the operations *)

Lemma ext4_eq {S : Type} fs (s : S) : ext4 (fs, s) = (Ok fs, (fs, s)).
Proof. done. Qed.

Lemma set_ext4_eq {S : Type} fs fs' (s : S) : set_ext4 fs' (fs, s) = (Ok tt, (fs', s)).
Proof. done. Qed.

Ltac frun := repeat first [progress mrun | rewrite ext4_eq | rewrite set_ext4_eq].

Lemma in_group_eq {S A : Type} idx (f : BlockGroup -> M (BlockGroupMetadata * S) A) fs s g md :
  block_groups fs !! Z.to_nat idx = Some (g, md) ->
  in_group idx f (fs, s) =
    ((f g (md, s)).1, (set_groups fs (<[Z.to_nat idx := (g, (f g (md, s)).2.1)]> (block_groups fs)), (f g (md, s)).2.2)).
Proof. intros E. unfold in_group. cbn [fst snd]. rewrite E. by destruct (f g (md, s)) as [r [md' s']]. Qed.

Lemma update_super_ok {S : Type} f fs (s : S) sb : f (super_block fs) = Ok sb -> update_super f (fs, s) = (Ok tt, (set_super fs sb, s)).
Proof. intros E. unfold update_super. frun. by rewrite E. Qed.

Section Stored_steps.
Context {S : Type} `{MetaStoreOk S}.
Implicit Types s : S.

(** The store after one group's step, seen from all groups. *)
Lemma fs_stored_moved fs fs' i g md md' bid bm s s' :
  fs_ok fs -> fs_stored fs s -> ms_ok s -> group_moved fs fs' i g md md' -> group_step g bid bm md' s s' -> group_stored g md' s' ->
  bid = block_bitmap_bid (md_desc md) \/ bid = inode_bitmap_bid (md_desc md) ->
  (forall j g2 md2, block_groups fs' !! j = Some (g2, md2) -> group_stored g2 md2 s') /\
  ms_read s' SUPERBLOCK_BID = ms_read s SUPERBLOCK_BID.
Proof.
  intros Hf Hst Hok Hm Hstep Hst' Hbid. pose proof (gm_old _ _ _ _ _ _ Hm) as Hi. destruct (fs_group_bounds fs i g md Hf Hi) as (_ & Hg & _).
  split.
  - intros j g2 md2 Hj. destruct (moved_lookup _ _ _ _ _ _ _ _ _ Hm Hj) as [(-> & -> & ->)|[Hne Hj']]; [done|].
    destruct (fs_group_bounds fs j g2 md2 Hf Hj') as (_ & Hg2 & _).
    eapply (group_step_frame g md md' g2 md2 bid bm s s' Hg Hg2 Hok (gm_ok _ _ _ _ _ _ Hm) (fst_group _ _ Hst _ _ _ Hi)
      (proj1 (gm_kept _ _ _ _ _ _ Hm))); [|exact Hbid|exact Hstep|by apply (fst_group _ _ Hst j)].
    by apply (fo_apart fs Hf i j).
  - assert (forall b, b = block_bitmap_bid (md_desc md) \/ b = inode_bitmap_bid (md_desc md) \/ b = desc_offset g / BLOCK_SIZE -> b <> SUPERBLOCK_BID)
      as Hne by (intros b; by apply (fo_super fs Hf i g md)).
    apply (st_other _ _ _ _ _ _ Hstep); intros E; symmetry in E; revert E; apply Hne; tauto.
Qed.

(** The capture of the superblock, after its counters or its head moved. *)
Lemma journal_capture_spec fs s head buf sb0 :
  ms_ok s -> sb_ok (super_block fs) -> ms_read s SUPERBLOCK_BID = Ok buf ->
  sb_try_from (read_at raw_sb_codec SUPER_BLOCK_OFFSET buf) = Ok sb0 -> sb_moves sb0 (super_block fs) ->
  sb_feature_incompat (super_block fs) = sb_feature_incompat sb0 -> (forall ino, head = Some ino -> ino <> 0 /\ fits 32 ino) ->
  exists r s', journal_capture head (fs, s) = (r, (fs, s')) /\ ms_ok s' /\ (forall c, pinned s' c <-> pinned s c) /\
    (forall c, c <> SUPERBLOCK_BID -> ms_read s' c = ms_read s c) /\
    match r with
    | Ok _ => exists buf', ms_read s' SUPERBLOCK_BID = Ok buf' /\
        sb_try_from (read_at raw_sb_codec SUPER_BLOCK_OFFSET buf') = Ok (set_last_orphan (super_block fs) head)
    | Err e => handled e = true
    end.
Proof.
  intros Hok Hsb Hrd Hp Hmv Hinc Hhead. unfold journal_capture. frun.
  destruct (ms_write SUPERBLOCK_BID s) as [[a|e] s1] eqn:E1;
    destruct (ms_write_spec _ _ _ _ Hok E1) as (Hok1 & Hrd1 & _ & Hp1 & Hr1); frun.
  2: { exists (Err e), s1. by split_and!. }
  destruct (ms_patch_spec s1 a SUPERBLOCK_BID (capture_patch (super_block fs) head) Hok1 Hr1) as (img & s2 & R2 & E2 & Hok2 & Hrd2 & _ & Hp2).
  { intros img. by apply capture_patch_block. }
  rewrite E2. exists (Ok tt), s2. split; [done|]. split; [done|]. split; [intros c; by rewrite Hp2, Hp1|].
  split; [intros c Hc; by rewrite Hrd2, decide_False, Hrd1|]. rewrite Hrd1, Hrd in R2. injection R2 as <-.
  exists (capture_patch (super_block fs) head buf). rewrite Hrd2, decide_True by done. split; [done|].
  apply (capture_patch_ok buf sb0 (super_block fs) head); try done; [by eapply (ms_read_block s)|].
  by rewrite Hinc, (parsed_incompat _ _ Hp).
Qed.

Lemma capture_super_eq fs s : capture_super (fs, s) = journal_capture (sb_last_orphan (super_block fs)) (fs, s).
Proof. done. Qed.

(** A group's blocks are all that counts for it. *)
Lemma group_stored_on g md s s' :
  (forall b, b = block_bitmap_bid (md_desc md) \/ b = inode_bitmap_bid (md_desc md) \/ b = desc_offset g / BLOCK_SIZE ->
     ms_read s' b = ms_read s b) ->
  group_stored g md s -> group_stored g md s'.
Proof. intros E [S1 S2 S3 S4]. split; [|rewrite E by tauto; exact S2|rewrite E by tauto; exact S3|exact S4]. rewrite E by tauto. exact S1. Qed.

(** The tail of a group operation: the counters follow, and the superblock is
    captured. *)
Lemma counters_follow fs i g md md' bid bm s s1 s2 sb' fb fi :
  fs_ok fs -> fs_stored fs s -> ms_ok s ->
  block_groups fs !! i = Some (g, md) -> group_ok g md' -> desc_kept (md_desc md) (md_desc md') ->
  group_step g bid bm md' s s1 -> group_stored g md' s1 -> bid = block_bitmap_bid (md_desc md) \/ bid = inode_bitmap_bid (md_desc md) ->
  ms_ok s2 -> (forall c, ms_read s2 c = ms_read s1 c) ->
  sb' = sb_set (super_block fs) fb fi (sb_feature_incompat (super_block fs)) (sb_last_orphan (super_block fs)) -> sb_ok sb' ->
  fb - free_blocks_count (md_desc md') = sb_free_blocks_count (super_block fs) - free_blocks_count (md_desc md) ->
  fi - free_inodes_count (md_desc md') = sb_free_inodes_count (super_block fs) - free_inodes_count (md_desc md) ->
  (forall b, fs_system fs b -> ~ is_free g md' b) ->
  let fs' := set_super (set_groups fs (<[i := (g, md')]> (block_groups fs))) sb' in
  group_moved fs fs' i g md md' /\ fs_ok fs' /\
  exists r s', capture_super (fs', s2) = (r, (fs', s')) /\ ms_ok s' /\ (forall c, pinned s' c <-> pinned s2 c) /\
    (forall c, c <> SUPERBLOCK_BID -> c <> bid -> c <> desc_offset g / BLOCK_SIZE -> ms_read s' c = ms_read s c) /\
    match r with Ok _ => fs_stored fs' s' | Err e => handled e = true end.
Proof.
  intros Hf Hst Hok Hi Hk Hkept Hstep Hst1 Hbid Hok2 Hrd2 Esb Hsb Hfb Hfi Hsys fs'.
  assert (Hm : group_moved fs fs' i g md md') by (by split).
  pose proof (fs_ok_moved fs fs' i g md md' fb fi _ _ Hf Hm Esb Hsb Hfb Hfi Hsys) as Hf'. split; [done|]. split; [done|].
  destruct (fs_stored_moved fs fs' i g md md' bid bm s s1 Hf Hst Hok Hm Hstep Hst1 Hbid) as (Hgs & Hsup).
  destruct (fst_super _ _ Hst) as (buf & Hrd & Hp). rewrite <- Hsup, <- Hrd2 in Hrd.
  destruct (journal_capture_spec fs' s2 (sb_last_orphan (super_block fs')) buf (super_block fs) Hok2 Hsb Hrd Hp)
    as (r & s' & E & Hok' & Hp' & Hoth & Hr).
  - exists fb, fi, (sb_feature_incompat (super_block fs)), (sb_last_orphan (super_block fs)). split; [done|].
    pose proof (so_free_blocks _ Hsb) as B1. pose proof (so_free_inodes _ Hsb) as B2. rewrite Esb in B1, B2. cbn in B1, B2.
    pose proof (so_incompat _ (fo_sb fs Hf)) as [? ?]. split_and!; done || lia.
  - change (super_block fs') with sb'. by rewrite Esb.
  - apply (so_orphan _ Hsb).
  - exists r, s'. rewrite capture_super_eq. split; [done|]. split; [done|]. split; [done|].
    split; [intros c C1 C2 C3; rewrite Hoth, Hrd2 by done; by apply (st_other _ _ _ _ _ _ Hstep)|].
    destruct r as [u|e]; [|done]. split.
    + destruct Hr as (buf' & R' & P'). exists buf'. split; [done|]. rewrite P'. f_equal. unfold set_last_orphan. by destruct (super_block fs').
    + intros j g2 md2 Hj. eapply group_stored_on; [|apply (Hgs j g2 md2 Hj)]. intros b Hb. rewrite <- Hrd2. apply Hoth. by apply (fo_super fs' Hf' j g2 md2).
Qed.

(** *** Allocating blocks *)

(** The state of the file system is the same to every observer. *)
Record same_state (fs fs' : Ext4) (s s' : S) : Prop := {
  ss_fs : fs_ok fs';
  ss_stored : fs_stored fs' s';
  ss_ok : ms_ok s';
  ss_super : super_block fs' = super_block fs;
  ss_free : forall b, fs_free fs' b <-> fs_free fs b;
  ss_system : forall b, fs_system fs' b <-> fs_system fs b;
  ss_read : forall c, ms_read s' c = ms_read s c;
  ss_pinned : forall c, pinned s' c <-> pinned s c;
}.

Lemma same_state_refl fs s : fs_ok fs -> fs_stored fs s -> ms_ok s -> same_state fs fs s s.
Proof. by split. Qed.

Lemma same_state_trans fs fs1 fs2 s s1 s2 : same_state fs fs1 s s1 -> same_state fs1 fs2 s1 s2 -> same_state fs fs2 s s2.
Proof.
  intros [A1 A2 A3 A4 A5 A6 A7 A8] [B1 B2 B3 B4 B5 B6 B7 B8]. split; try done; try congruence.
  - intros b. by rewrite B5.
  - intros b. by rewrite B6.
  - intros c. by rewrite B8.
Qed.

(** The free blocks of the group at [idx] all wait for a commit of that
    group's freed runs. *)
Definition blocked_group (fs : Ext4) (s : S) (idx : Z) : Prop :=
  let g := group_geometry idx (super_block fs) (gdt_base_offset (super_block fs)) in
  forall b, first_block g <= b <= last_block g -> fs_free fs b -> exists c, first_block g <= c <= last_block g /\ pinned s c.

Record allocated (fs : Ext4) (s : S) (count : Z) (range : Z * Z) (fs' : Ext4) (s' : S) : Prop := {
  al_size : range.1 < range.2 /\ range.2 - range.1 <= count;
  al_was b : range.1 <= b < range.2 -> fs_free fs b /\ ~ fs_system fs b /\ ~ pinned s b;
  al_free b : fs_free fs' b <-> fs_free fs b /\ ~ (range.1 <= b < range.2);
  al_super : super_block fs' = sb_set (super_block fs) (sb_free_blocks_count (super_block fs) - (range.2 - range.1))
    (sb_free_inodes_count (super_block fs)) (sb_feature_incompat (super_block fs)) (sb_last_orphan (super_block fs));
  al_system b : fs_system fs' b <-> fs_system fs b;
  al_ok : fs_ok fs';
  al_stored : fs_stored fs' s';
  al_store : ms_ok s';
  al_other c : ~ fs_system fs c -> ms_read s' c = ms_read s c;
  al_pinned c : pinned s' c <-> pinned s c;
}.

Lemma allocated_from fs fs1 s s1 count range fs' s' :
  same_state fs fs1 s s1 -> allocated fs1 s1 count range fs' s' -> allocated fs s count range fs' s'.
Proof.
  intros [A1 A2 A3 A4 A5 A6 A7 A8] [B1 B2 B3 B4 B4' B5 B6 B7 B8 B9]. split; try done.
  - intros b Hb. rewrite <- A5, <- A6, <- A8. by apply B2.
  - intros b. by rewrite B3, A5.
  - by rewrite B4, A4.
  - intros b. by rewrite B4', A6.
  - intros c Hc. rewrite <- A7. apply B8. by rewrite A6.
  - intros c. by rewrite B9.
Qed.

Lemma pinned_bits_some g pf : pinned_bits g pf <> [] ->
  exists p c, p ∈ pf /\ p.1 <= c < p.1 + p.2 /\ first_block g <= c <= last_block g.
Proof.
  intros Hne. destruct (pinned_bits g pf) as [|x l] eqn:E; [done|]. assert (Hin : x ∈ pinned_bits g pf) by (rewrite E; left).
  apply list_elem_of_omap in Hin as ([st len] & Hin & Hx). exists (st, len), (Z.max st (first_block g)). cbn in *.
  case_match eqn:El; [|done]. apply Z.ltb_lt in El. split; [done|]. lia.
Qed.

(** A snapshot of the pinned runs. *)
Definition pins_of (s : S) (pins : list (Z * Z)) : Prop := forall c, pinned s c <-> exists p, p ∈ pins /\ p.1 <= c < p.1 + p.2.

(** A group in which nothing fits. *)
Lemma nofit_step fs s i g md md' s' count sb_free pins p :
  fs_ok fs -> fs_stored fs s -> ms_ok s' -> block_groups fs !! i = Some (g, md) -> group_ok g md' ->
  (forall c, pinned s' c <-> pinned s c) -> pins_of s pins -> alloc_blocks_post g md s count sb_free pins (Ok (NoFit p)) md' s' ->
  let fs' := set_groups fs (<[i := (g, md')]> (block_groups fs)) in
  same_state fs fs' s s' /\ blocked_group fs s (Z.of_nat i).
Proof.
  intros Hf Hst Hok' Hi Hk Hp Hpins (Hfr & _ & Hd & Hrd & Hgs & Ep & Hfull) fs'. specialize (Hgs (fst_group _ _ Hst i g md Hi)).
  assert (Hm : group_moved fs fs' i g md md') by (split; try done; rewrite Hd; by split).
  pose proof (fo_sb fs Hf) as Hsb. destruct (fs_group_bounds fs i g md Hf Hi) as (_ & Hg & _).
  assert (Hf' : fs_ok fs').
  { apply (fs_ok_moved fs fs' i g md md' (sb_free_blocks_count (super_block fs)) (sb_free_inodes_count (super_block fs))
      (sb_feature_incompat (super_block fs)) (sb_last_orphan (super_block fs)) Hf Hm); [apply sb_set_self|done|by rewrite Hd|by rewrite Hd|].
    intros b Hs Hb. apply (fo_system fs Hf b Hs). exists i, g, md. split; [done|]. by apply Hfr. }
  split.
  - split; try done.
    + split; [by rewrite Hrd; apply (fst_super _ _ Hst)|]. intros j g2 md2 Hj.
      destruct (moved_lookup _ _ _ _ _ _ _ _ _ Hm Hj) as [(-> & -> & ->)|[_ Hj']]; [done|].
      eapply group_stored_reads; [exact Hrd|by apply (fst_group _ _ Hst j)].
    + intros b. rewrite (moved_free _ _ _ _ _ _ b Hf Hm). case_decide as Hb; [|done]. rewrite Hfr. symmetry. by apply (fs_free_in fs i).
    + intros b. by apply (moved_system _ _ _ _ _ _ b Hm).
  - unfold blocked_group. rewrite <- (fo_geometry fs Hf i g md Hi). intros b Hb Hbf.
    destruct (decide (pinned_bits g pins = [])) as [En|Ne].
    + exfalso. rewrite (bool_decide_true _ En) in Ep. apply (Hfull Ep b). by apply (fs_free_in fs i).
    + destruct (pinned_bits_some g _ Ne) as (q & c & Hq & Hc & Hcg). exists c. split; [done|]. apply Hpins. by exists q.
Qed.

Definition alloc_outcome (fs : Ext4) (s : S) (count : Z) (idxs : list Z) (r : result (Z * Z)) (fs' : Ext4) (s' : S) : Prop :=
  match r with
  | Ok range => allocated fs s count range fs' s'
  | Err e =>
      (e = ENOSPC /\ same_state fs fs' s s' /\ forall idx, idx ∈ idxs -> blocked_group fs s idx) \/ (handled e = true /\ ms_ok s')
  end.

(** A group that yields a run. *)
Lemma fit_step fs s i g md md' s1 count pins range :
  fs_ok fs -> fs_stored fs s -> ms_ok s -> block_groups fs !! i = Some (g, md) -> group_ok g md' -> pins_of s pins ->
  alloc_blocks_post g md s count (sb_free_blocks_count (super_block fs)) pins (Ok (Allocated range)) md' s1 ->
  let fs1 := set_groups fs (<[i := (g, md')]> (block_groups fs)) in
  exists r fs' s', (update_super (fun sb => dec_free_blocks sb (range.2 - range.1)) ;; capture_super ;; mret range) (fs1, s1) = (r, (fs', s')) /\
    match r with Ok x => x = range /\ allocated fs s count range fs' s' | Err e => handled e = true /\ ms_ok s' end.
Proof.
  destruct range as [a e]. intros Hf Hst Hok Hi Hk Hpins (P1 & P2 & P3 & P4 & P5 & (P6 & P7 & _) & P8 & P9 & P10) fs1. cbn [fst snd]. specialize (P9 (fst_group _ _ Hst i g md Hi)).
  destruct (fs_group_bounds fs i g md Hf Hi) as (_ & Hg & Bb & Bi). pose proof (fo_sb fs Hf) as Hsb.
  pose proof (dec_free_blocks_spec (super_block fs) (e - a) Hsb ltac:(lia)) as Hdec.
  destruct (dec_free_blocks (super_block fs) (e - a)) as [sb'|err] eqn:Edec; [|lia]. destruct Hdec as (Hsb' & _ & Esb').
  assert (Hsys : forall b, fs_system fs b -> ~ is_free g md' b).
  { intros b Hb [Hfr _]%P5. apply (fo_system fs Hf b Hb). by exists i, g, md. }
  destruct (counters_follow fs i g md md' _ _ s s1 s1 sb' _ _ Hf Hst Hok Hi Hk P8 P10 P9 ltac:(by left) (st_ok _ _ _ _ _ _ P10) ltac:(done) Esb' Hsb' ltac:(lia) ltac:(lia) Hsys)
    as (Hm & Hf' & r & s' & E & Hok' & Hp' & Hoth & Hr).
  frun. rewrite (update_super_ok (fun sb => dec_free_blocks sb (e - a)) fs1 s1 sb' Edec). frun. change (set_super fs1 sb') with (set_super (set_groups fs (<[i := (g, md')]> (block_groups fs))) sb').
  rewrite E. destruct r as [u|err]; frun; eexists _, _, s'; (split; [done|]); [|done]. split; [done|]. split; cbn [fst snd]; try done.
  - intros b Hb. destruct (P4 b Hb) as (Q1 & Q2 & Q3). assert (Hfb : fs_free fs b) by (by exists i, g, md).
    split; [done|]. split; [intros Hs; by apply (fo_system fs Hf b Hs)|]. intros (p & Hp & Hin)%Hpins. by apply (Q3 p).
  - intros b. rewrite (moved_free _ _ _ _ _ _ b Hf Hm). case_decide as Hb; [rewrite P5; by rewrite (fs_free_in fs i g md b Hf Hi Hb)|].
    split; [|tauto]. intros Hfb. split; [done|]. intros Hr'. destruct (P4 b Hr') as ([Hx _] & _). lia.
  - intros b. by apply (moved_system _ _ _ _ _ _ b Hm).
  - intros c Hc. apply Hoth; intros ->; apply Hc; [by left|right; exists i, g, md; split; [done|left; by left]|].
    right. exists i, g, md. split; [done|by right].
  - intros c. rewrite Hp'. apply P10.
Qed.

(** The groups a ring of offsets meets. *)
Definition ring_group (goal_group nr off : Z) : Z := (goal_group + off) mod nr.

Lemma blocked_group_same fs fs1 s s1 idx : same_state fs fs1 s s1 -> blocked_group fs1 s1 idx -> blocked_group fs s idx.
Proof.
  intros [_ _ _ E1 E2 _ _ E3] Hb. unfold blocked_group in *. rewrite E1 in Hb. intros b Hr Hfb.
  destruct (Hb b Hr) as (c & Hc & Hp); [by apply E2|]. exists c. split; [done|]. by apply E3.
Qed.

Lemma alloc_ring_spec offsets : forall fs s goal_group nr count pins pb r fs' s',
  fs_ok fs -> fs_stored fs s -> ms_ok s -> nr = sb_nr_block_groups (super_block fs) -> 0 < count ->
  0 < sb_free_blocks_count (super_block fs) -> pins_of s pins ->
  alloc_ring offsets goal_group nr count (sb_free_blocks_count (super_block fs)) pins pb (fs, s) = (r, (fs', s')) ->
  alloc_outcome fs s count (ring_group goal_group nr <$> offsets) r fs' s'.
Proof.
  induction offsets as [|off offsets IH]; intros fs s goal_group nr count pins pb r fs' s' Hf Hst Hok En Hc Hp Hpins.
  - cbn [alloc_ring]. destruct (ms_request_spec s Hok) as (Q1 & Q2 & Q3).
    destruct pb; unfold modify; frun; intros [= <- <- <-]; left; (split; [done|]); (split; [|by intros ? ?%elem_of_nil]); [|by apply same_state_refl].
    split; try done. split; [rewrite Q2; apply Hst|]. intros i g md Hi. eapply group_stored_reads; [exact Q2|by apply (fst_group _ _ Hst i)].
  - cbn [alloc_ring]. frun. set (idx := (goal_group + off) mod nr). pose proof (so_groups _ (fo_sb fs Hf)) as Hnr.
    assert (Hidx : 0 <= idx < nr) by (apply Z.mod_pos_bound; lia).
    destruct (lookup_lt_is_Some_2 (block_groups fs) (Z.to_nat idx)) as [[g md] Hi].
    { pose proof (fo_len fs Hf) as L. unfold zlen in L. lia. }
    rewrite (in_group_eq _ _ _ _ g md Hi). destruct (fs_group_bounds fs _ g md Hf Hi) as (_ & Hg & _).
    destruct (alloc_blocks g count (sb_free_blocks_count (super_block fs)) pins (md, s)) as [r1 [md1 s1]] eqn:E1.
    destruct (alloc_blocks_spec g md s _ _ _ _ _ _ Hg (fo_group fs Hf _ g md Hi) (gs_distinct _ _ _ (fst_group _ _ Hst _ g md Hi)) Hok Hc Hp E1) as (Hk1 & Hok1 & Hp1 & Post).
    cbn [fst snd]. destruct r1 as [[range|pi]|e]; [cbv beta iota|frun..].
    + destruct (fit_step fs s _ g md md1 s1 count pins range Hf Hst Hok Hi Hk1 Hpins Post) as (r2 & fs2 & s2 & E2 & H2). rewrite E2.
      intros [= <- <- <-]. destruct r2 as [x|e]; [by destruct H2 as [-> ?]|by right].
    + destruct (nofit_step fs s _ g md md1 s1 _ _ pins pi Hf Hst Hok1 Hi Hk1 Hp1 Hpins Post) as (Hsame & Hblk).
      set (fs1 := set_groups fs _) in *. intros E2. rewrite <- (ss_super _ _ _ _ Hsame) in E2. apply IH in E2; try apply Hsame; try done; [|intros c; by rewrite Hp1].
      destruct r as [range|e]; cbn [alloc_outcome] in *; [by eapply allocated_from|].
      destruct E2 as [(-> & Hs2 & Hb2)|E2]; [left|by right]. split; [done|]. split; [by eapply same_state_trans|].
      rewrite fmap_cons. intros j [->|Hj]%elem_of_cons; [|by eapply blocked_group_same, Hb2].
      rewrite Z2Nat.id in Hblk by lia. exact Hblk.
    + intros [= <- <- <-]. right. split; [apply Post|done].
Qed.

(** Every free block lies in a group that also holds a block whose free has not
    committed. *)
Definition all_blocked (fs : Ext4) (s : S) : Prop :=
  forall b, fs_free fs b -> exists i g md c,
    block_groups fs !! i = Some (g, md) /\ first_block g <= b <= last_block g /\ first_block g <= c <= last_block g /\ pinned s c.

Lemma ring_covers goal_group nr idx : 0 < nr -> 0 <= idx < nr -> idx ∈ ring_group goal_group nr <$> group_list nr.
Proof.
  intros Hn Hi. apply list_elem_of_fmap. exists ((idx - goal_group) mod nr). unfold ring_group, group_list. split.
  - rewrite Z.add_mod_idemp_r by lia. replace (goal_group + (idx - goal_group)) with idx by lia. by rewrite Z.mod_small.
  - pose proof (Z.mod_pos_bound (idx - goal_group) nr ltac:(lia)) as Hm.
    apply list_elem_of_fmap. exists (Z.to_nat ((idx - goal_group) mod nr)). rewrite elem_of_seq. lia.
Qed.

Lemma all_blocked_ring fs s goal_group :
  fs_ok fs -> let nr := sb_nr_block_groups (super_block fs) in
  (forall idx, idx ∈ ring_group goal_group nr <$> group_list nr -> blocked_group fs s idx) -> all_blocked fs s.
Proof.
  intros Hf nr Hall b Hb. pose proof Hb as (i & g & md & Hi & Hr & _). destruct (fs_group_bounds fs i g md Hf Hi) as (Hlt & _).
  pose proof (so_groups _ (fo_sb fs Hf)).
  assert (Hbl : blocked_group fs s (Z.of_nat i)) by (apply Hall, ring_covers; unfold nr; lia).
  unfold blocked_group in Hbl. rewrite <- (fo_geometry fs Hf i g md Hi) in Hbl. destruct (Hbl b Hr Hb) as (c & Hc & Hp). by exists i, g, md, c.
Qed.

Lemma none_free fs b : fs_ok fs -> sb_free_blocks_count (super_block fs) = 0 -> ~ fs_free fs b.
Proof.
  intros Hf E0 (i & g & md & Hi & Hr & Hb). destruct (fs_group_bounds fs i g md Hf Hi) as (_ & _ & B & _). pose proof (fo_group fs Hf i g md Hi) as Hk.
  assert (0 < free_ids (md_blocks md)); [|rewrite (go_free_blocks g md Hk) in B; lia].
  apply free_ids_pos. exists (b - first_block g). rewrite (go_blocks_len g md Hk). split; [lia|done].
Qed.

Lemma fs_alloc_blocks_spec fs s count goal r fs' s' :
  fs_ok fs -> fs_stored fs s -> ms_ok s -> 0 <= count -> fs_alloc_blocks count goal (fs, s) = (r, (fs', s')) ->
  match r with
  | Ok range => allocated fs s count range fs' s'
  | Err e =>
      (e = EINVAL /\ count = 0 /\ fs' = fs /\ s' = s) \/ (e = ENOSPC /\ same_state fs fs' s s' /\ all_blocked fs s) \/ (handled e = true /\ ms_ok s')
  end.
Proof.
  intros Hf Hst Hok Hc. unfold fs_alloc_blocks. destruct (Z.eqb_spec count 0) as [->|Hc0]; [frun; intros [= <- <- <-]; by left|].
  frun. destruct (Z.eqb_spec (sb_free_blocks_count (super_block fs)) 0) as [E0|E0].
  { frun. intros [= <- <- <-]. right. left. split; [done|]. split; [by apply same_state_refl|]. intros b Hb. by destruct (none_free fs b Hf E0). }
  frun. pose proof (so_free_blocks _ (fo_sb fs Hf)) as Hfb. intros E. apply alloc_ring_spec in E; try done; try lia.
  destruct r as [range|e]; [done|]. destruct E as [(-> & Hs & Hb)|E]; [|by right; right]. right; left.
  split; [done|]. split; [done|]. by eapply all_blocked_ring.
Qed.

(** *** Freeing blocks *)

Record freed (fs : Ext4) (s : S) (a e : Z) (fs' : Ext4) (s' : S) : Prop := {
  fr_free b : fs_free fs' b <-> fs_free fs b \/ a <= b < e;
  fr_pinned c : pinned s c \/ a <= c < e -> pinned s' c;
  fr_ok : fs_ok fs';
  fr_stored : fs_stored fs' s';
  fr_store : ms_ok s';
  fr_other c : ~ fs_system fs c -> ~ (a <= c < e) -> ms_read s' c = ms_read s c;
  fr_system b : fs_system fs' b <-> fs_system fs b;
  fr_super : exists fb, super_block fs' = sb_set (super_block fs) fb (sb_free_inodes_count (super_block fs))
    (sb_feature_incompat (super_block fs)) (sb_last_orphan (super_block fs));
}.

Lemma zsum_le {A} (f : A -> Z) (l : list A) c : Forall (fun y => f y <= c) l -> zsum (f <$> l) <= c * zlen l.
Proof. unfold zsum, zlen. induction 1; cbn; lia. Qed.

(** There are at most as many free blocks as blocks. *)
Lemma free_total sb groups :
  sb_ok sb -> zlen groups = sb_nr_block_groups sb ->
  (forall i g md, groups !! i = Some (g, md) -> g = group_geometry (Z.of_nat i) sb (gdt_base_offset sb) /\ group_ok g md) ->
  zsum (group_free_blocks <$> groups) <= sb_blocks_count sb.
Proof.
  intros Hsb L Hg. pose proof (so_groups _ Hsb) as Hn. pose proof (so_cover _ Hsb) as Hc. pose proof (so_first _ Hsb) as [H1 _]. unfold zlen in L.
  assert (Hb : forall i g md, groups !! i = Some (g, md) -> free_blocks_count (md_desc md) <=
    (if Z.of_nat i =? sb_nr_block_groups sb - 1 then sb_blocks_count sb - sb_first_data_block sb - Z.of_nat i * sb_nr_blocks_per_group sb
     else sb_nr_blocks_per_group sb)).
  { intros i g md Hi. destruct (Hg i g md Hi) as [Eg Hk].
    pose proof (free_ids_bounds _ (go_blocks _ _ Hk)) as Hx. rewrite <- (go_free_blocks _ _ Hk), (go_blocks_len _ _ Hk), Eg in Hx.
    cbn [first_block last_block group_geometry] in Hx. destruct (_ =? _); lia. }
  set (n := Z.to_nat (sb_nr_block_groups sb - 1)).
  destruct (lookup_lt_is_Some_2 groups n) as [[g md] Hi]; [lia|].
  rewrite <- (take_drop_middle _ _ _ Hi), fmap_app, zsum_app, fmap_cons, (drop_ge _ (Datatypes.S n)) by lia.
  pose proof (zsum_le group_free_blocks (take n groups) (sb_nr_blocks_per_group sb)) as Ht.
  pose proof (Hb n g md Hi) as Hl. rewrite (proj2 (Z.eqb_eq _ _)) in Hl by lia. unfold zsum in *. cbn [foldr fmap list_fmap].
  unfold zlen in Ht. rewrite length_take_le in Ht by lia. lapply Ht.
  - change (group_free_blocks (g, md)) with (free_blocks_count (md_desc md)). lia.
  - apply Forall_lookup. intros i [g2 md2] [Hi2 Hlt]%lookup_take_Some. pose proof (Hb i g2 md2 Hi2) as Hx.
    rewrite (proj2 (Z.eqb_neq _ _)) in Hx by lia. done.
Qed.

(** The free count of the superblock after a group gained [n] free blocks. *)
Lemma inc_free_fits fs i g md md' n :
  fs_ok fs -> block_groups fs !! i = Some (g, md) -> group_ok g md' -> only_blocks md md' n -> 0 <= n ->
  exists sb', inc_free_blocks (super_block fs) n = Ok sb' /\ sb_ok sb' /\
    sb' = sb_set (super_block fs) (sb_free_blocks_count (super_block fs) + n) (sb_free_inodes_count (super_block fs))
      (sb_feature_incompat (super_block fs)) (sb_last_orphan (super_block fs)).
Proof.
  intros Hf Hi Hk [Hfb _] Hn. pose proof (inc_free_blocks_spec (super_block fs) n (fo_sb fs Hf) Hn) as Hs.
  destruct (inc_free_blocks (super_block fs) n) as [sb'|e]; [exists sb'; tauto|]. exfalso. destruct Hs as [_ Hs].
  assert (Hlen : zlen (<[i := (g, md')]> (block_groups fs)) = sb_nr_block_groups (super_block fs)).
  { unfold zlen. rewrite length_insert. apply (fo_len fs Hf). }
  pose proof (free_total (super_block fs) _ (fo_sb fs Hf) Hlen) as Ht.
  rewrite (zsum_insert _ _ _ _ _ Hi), <- (fo_blocks fs Hf) in Ht. unfold group_free_blocks in Ht. cbn [snd] in Ht. lapply Ht; [lia|].
  intros j g2 md2 Hj. destruct (decide (j = i)) as [->|Hne].
  - rewrite list_lookup_insert_eq in Hj by (by eapply lookup_lt_Some). injection Hj as <- <-. split; [by apply (fo_geometry fs Hf i g md)|done].
  - rewrite list_lookup_insert_ne in Hj by done. split; [by apply (fo_geometry fs Hf j g2 md2)|by apply (fo_group fs Hf j)].
Qed.

Lemma freed_intro fs s fs' s' i g md md' a e fb :
  fs_ok fs -> group_moved fs fs' i g md md' -> first_block g <= a -> e <= last_block g + 1 ->
  (forall b, is_free g md' b <-> is_free g md b \/ a <= b < e) ->
  fs_ok fs' -> fs_stored fs' s' -> ms_ok s' -> (forall c, pinned s c \/ a <= c < e -> pinned s' c) ->
  (forall c, c <> SUPERBLOCK_BID -> c <> block_bitmap_bid (md_desc md) -> c <> desc_offset g / BLOCK_SIZE -> ms_read s' c = ms_read s c) ->
  super_block fs' = sb_set (super_block fs) fb (sb_free_inodes_count (super_block fs))
    (sb_feature_incompat (super_block fs)) (sb_last_orphan (super_block fs)) ->
  freed fs s a e fs' s'.
Proof.
  intros Hf Hm Ha He Hfr Hf' Hst' Hok' Hp Hoth Esb. pose proof (gm_old _ _ _ _ _ _ Hm) as Hi. split; try done.
  - intros b. rewrite (moved_free _ _ _ _ _ _ b Hf Hm). case_decide as Hb; [rewrite Hfr; by rewrite (fs_free_in fs i g md b Hf Hi Hb)|].
    split; [by left|]. intros [?|?]; [done|lia].
  - intros c Hc _. apply Hoth; intros ->; apply Hc; [by left|right; exists i, g, md; split; [done|left; by left]|].
    right. exists i, g, md. split; [done|by right].
  - intros b. by apply (moved_system _ _ _ _ _ _ b Hm).
  - by exists fb.
Qed.

Lemma free_run_step fs s i g md current n r fs' s' :
  fs_ok fs -> fs_stored fs s -> ms_ok s -> block_groups fs !! i = Some (g, md) -> 0 < n ->
  first_block g <= current -> current + n <= last_block g + 1 -> (forall b, current <= b < current + n -> ~ fs_system fs b) ->
  free_run_in_group (Z.of_nat i) (current - first_block g) current n (fs, s) = (r, (fs', s')) ->
  match r with Ok _ => freed fs s current (current + n) fs' s' | Err e => handled e = true end.
Proof.
  intros Hf Hst Hok Hi Hn Hlo Hhi Hns. unfold free_run_in_group. rewrite bind_eq, (in_group_eq _ _ _ _ g md) by (by rewrite Nat2Z.id).
  destruct (fs_group_bounds fs i g md Hf Hi) as (_ & Hg & Bb & Bi). rewrite Nat2Z.id.
  destruct (free_blocks g _ _ (md, s)) as [r1 [md1 s1]] eqn:E1.
  apply free_blocks_spec in E1 as (Hk1 & Post); [|done|by apply (fo_group fs Hf i)|apply (fst_group _ _ Hst i g md Hi)|done|lia|lia].
  cbn [fst snd]. destruct r1 as [m|e]; [|frun; intros [= <- <- <-]; destruct Post as [(_ & -> & _)|Post]; [done|apply Post]].
  destruct Post as (Hm0 & _ & P2 & P3 & P4 & P5 & P6). specialize (P5 (fst_group _ _ Hst i g md Hi)). replace (first_block g + (current - first_block g)) with current in P2 by lia.
  replace (first_block g + (current - first_block g + n)) with (current + n) in P2 by lia.
  destruct (ms_pin_spec s1 current n (st_ok _ _ _ _ _ _ P6) Hn) as (s2 & E2 & Hok2 & Hrd2 & Hpin2). frun. rewrite E2.
  destruct (inc_free_fits fs i g md md1 m Hf Hi Hk1 P3 Hm0) as (sb' & Einc & Hsb' & Esb').
  assert (Hsys : forall b, fs_system fs b -> ~ is_free g md1 b).
  { intros b Hb [Hfr|Hfr]%P2; [|by apply (Hns b)]. apply (fo_system fs Hf b Hb). by exists i, g, md. }
  pose proof P3 as (C1 & C2 & _).
  destruct (counters_follow fs i g md md1 _ _ s s1 s2 sb' _ _ Hf Hst Hok Hi Hk1 P4 P6 P5 ltac:(by left) Hok2 Hrd2 Esb' Hsb' ltac:(lia) ltac:(lia) Hsys)
    as (Hm & Hf' & r3 & s3 & E3 & Hok3 & Hp3 & Hoth & Hr).
  cbn [fst snd]. assert (Hpin : forall c, pinned s c \/ current <= c < current + n -> pinned s2 c).
  { intros c [Hc|Hc]; apply Hpin2; [left; by apply (st_pinned _ _ _ _ _ _ P6)|by right]. }
  set (fs1 := set_groups fs _) in *. destruct (Z.ltb_spec 0 m) as [Hlt|Hge].
  - frun. rewrite (update_super_ok (fun sb => inc_free_blocks sb m) fs1 s2 sb' Einc). frun. rewrite E3. intros [= <- <- <-].
    destruct r3 as [u|e]; [|done]. eapply (freed_intro _ _ _ _ i g md md1); try done. intros c Hc. apply Hp3. by apply Hpin.
  - assert (m = 0) as -> by lia. frun. intros [= <- <- <-]. rewrite Z.add_0_r in Esb'. rewrite <- sb_set_self in Esb'. subst sb'.
    assert (Hm1 : group_moved fs fs1 i g md md1) by (by destruct Hm). assert (Hf1 : fs_ok fs1) by (by destruct Hf').
    destruct (fs_stored_moved fs fs1 i g md md1 _ _ s s1 Hf Hst Hok Hm1 P6 P5 ltac:(by left)) as (Hgs & Hsup).
    eapply (freed_intro _ _ _ _ i g md md1); try done; [| |apply sb_set_self].
    + split; [rewrite Hrd2, Hsup; apply (fst_super _ _ Hst)|]. intros j g2 md2 Hj. eapply group_stored_reads; [exact Hrd2|by apply (Hgs j)].
    + intros c _ Q1 Q2. rewrite Hrd2. by apply (st_other _ _ _ _ _ _ P6).
Qed.

Lemma fs_stored_on fs s s' : (forall b, fs_system fs b -> ms_read s' b = ms_read s b) -> fs_stored fs s -> fs_stored fs s'.
Proof.
  intros E [(buf & R & P) Hg]. split; [exists buf; by rewrite E by (by left)|]. intros i g md Hi.
  eapply group_stored_on; [|by apply (Hg i)]. intros b Hb. apply E. right. exists i, g, md. split; [done|]. unfold system_block. tauto.
Qed.

Lemma freed_from fs s s1 a e fs' s' :
  (forall c, ~ (a <= c < e) -> ms_read s1 c = ms_read s c) -> (forall c, pinned s1 c <-> pinned s c) ->
  freed fs s1 a e fs' s' -> freed fs s a e fs' s'.
Proof.
  intros Hrd Hp [F1 F2 F3 F4 F5 F6 F7 F8]. split; try done.
  - intros c Hc. apply F2. by rewrite Hp.
  - intros c Hc Hr. rewrite <- Hrd by done. by apply F6.
Qed.

Lemma freed_trans fs fs1 fs2 s s1 s2 a b e :
  a <= b <= e -> freed fs s a b fs1 s1 -> freed fs1 s1 b e fs2 s2 -> freed fs s a e fs2 s2.
Proof.
  intros Hb [F1 F2 F3 F4 F5 F6 F7 [fb F8]] [G1 G2 G3 G4 G5 G6 G7 [fb' G8]]. split; try done.
  - intros x. rewrite G1, F1. split; [intros [[?|?]|?]; [by left|right; lia|right; lia]|]. intros [?|?]; [by left; left|].
    destruct (decide (x < b)); [left; right; lia|right; lia].
  - intros c Hc. apply G2. destruct (decide (b <= c < e)); [by right|left]. apply F2. destruct Hc; [by left|right; lia].
  - intros c Hc Hr. rewrite G6, F6; try done; [lia|by rewrite F7|lia].
  - intros x. by rewrite G7.
  - exists fb'. rewrite G8, F8. done.
Qed.

Lemma freed_nil fs s a : fs_ok fs -> fs_stored fs s -> ms_ok s -> freed fs s a a fs s.
Proof.
  intros Hf Hst Hok. split; try done.
  - intros b. split; [by left|]. intros [?|?]; [done|lia].
  - intros c [?|?]; [done|lia].
  - exists (sb_free_blocks_count (super_block fs)). apply sb_set_self.
Qed.

(** The group of a block of the volume. *)
Lemma block_in_group fs b :
  fs_ok fs -> let sb := super_block fs in sb_first_data_block sb <= b < sb_blocks_count sb ->
  let i := (b - sb_first_data_block sb) / sb_nr_blocks_per_group sb in
  0 <= i /\ exists g md, block_groups fs !! Z.to_nat i = Some (g, md) /\ first_block g <= b <= last_block g.
Proof.
  intros Hf sb Hb i. pose proof (so_bpg _ (fo_sb fs Hf)) as Hbpg. pose proof (so_cover _ (fo_sb fs Hf)) as Hc. pose proof (fo_len fs Hf) as L.
  fold sb in Hbpg, Hc, L. unfold zlen in L.
  assert (Hi : 0 <= i /\ i * sb_nr_blocks_per_group sb <= b - sb_first_data_block sb < (i + 1) * sb_nr_blocks_per_group sb).
  { unfold i. Z.to_euclidean_division_equations. nia. }
  assert (Hn : i < sb_nr_block_groups sb) by nia. split; [lia|].
  destruct (lookup_lt_is_Some_2 (block_groups fs) (Z.to_nat i)) as [[g md] E]; [lia|]. exists g, md. split; [done|].
  rewrite (fo_geometry fs Hf _ g md E). cbn [first_block last_block group_geometry]. rewrite Z2Nat.id by lia. fold sb.
  destruct (i =? _); lia.
Qed.

Lemma or_abort_spec {A} (m : M fstate A) fs s r fs' s' :
  or_abort m (fs, s) = (r, (fs', s')) ->
  exists s1, m (fs, s) = (r, (fs', s1)) /\ match r with Ok _ => s' = s1 | Err _ => s' = ms_abort s1 end.
Proof. unfold or_abort. destruct (m (fs, s)) as [[a|e] [fs1 s1]]; intros [= <- <- <-]; by exists s1. Qed.

Lemma discharge_run_spec fs s duty current n :
  ms_ok s -> exists s1, discharge_run duty current n (fs, s) = (Ok tt, (fs, s1)) /\ ms_ok s1 /\
    (forall c, ~ (current <= c < current + n) -> ms_read s1 c = ms_read s c) /\ (forall c, pinned s1 c <-> pinned s c).
Proof.
  intros Hok. unfold discharge_run. destruct duty; [|by exists s].
  destruct (ms_discharge_spec s current n Hok) as (s1 & E & ?). exists s1. frun. by rewrite E.
Qed.

Lemma free_loop_spec fuel : forall duty current remaining fs s r fs' s',
  fs_ok fs -> fs_stored fs s -> ms_ok s -> 0 <= remaining <= Z.of_nat fuel -> sb_first_data_block (super_block fs) <= current ->
  current + remaining <= sb_blocks_count (super_block fs) -> (forall b, current <= b < current + remaining -> ~ fs_system fs b) ->
  free_loop fuel duty current remaining (fs, s) = (r, (fs', s')) ->
  match r with Ok _ => freed fs s current (current + remaining) fs' s' | Err e => handled e = true /\ ms_aborted s' = true end.
Proof.
  induction fuel as [|fuel IH]; intros duty current remaining fs s r fs' s' Hf Hst Hok Hfuel Hlo Hhi Hns; cbn [free_loop].
  { rewrite (proj2 (Z.leb_le _ _)) by lia. frun. intros [= <- <- <-]. replace remaining with 0 by lia. rewrite Z.add_0_r. by apply freed_nil. }
  destruct (Z.leb_spec remaining 0) as [Hz|Hpos].
  { frun. intros [= <- <- <-]. replace remaining with 0 by lia. rewrite Z.add_0_r. by apply freed_nil. }
  frun. unfold guard. rewrite (proj2 (Z.leb_le _ _) Hlo). frun.
  destruct (block_in_group fs current Hf ltac:(lia)) as (Hi0 & g & md & Hi & Hcur). rewrite Hi.
  destruct (fs_group_bounds fs _ g md Hf Hi) as (_ & Hg & _). rewrite (group_size_eq g Hg). pose proof (geo_size g Hg) as Hsz.
  assert (u32 (current - first_block g) = current - first_block g) as ->.
  { unfold u32. apply wrap_small. unfold fits, capacity, BLOCK_SIZE in *. lia. }
  rewrite (proj2 (Z.leb_le (current - first_block g) _)) by lia. frun.
  set (idx := _ / _) in *. set (n := Z.min remaining _). assert (Hn : 0 < n <= remaining /\ current + n <= last_block g + 1) by (unfold n; lia).
  destruct (discharge_run_spec fs s duty current n Hok) as (s1 & -> & Hok1 & Hrd1 & Hp1). frun. destruct (or_abort _ (fs, s1)) as [r2 [fs2 s2']] eqn:E2. apply or_abort_spec in E2 as (s2 & E2 & Hs2).
  assert (Hst1 : fs_stored fs s1).
  { eapply fs_stored_on; [|exact Hst]. intros b Hb. apply Hrd1. intros Hx. apply (Hns b); [lia|done]. }
  replace idx with (Z.of_nat (Z.to_nat idx)) in E2 by lia.
  apply (free_run_step fs s1 _ g md) in E2; try done; try lia; [|intros b Hb; apply Hns; lia].
  destruct r2 as [u|e]; [subst s2'|subst s2'; intros [= <- <- <-]; split; [done|apply ms_abort_spec]].
  pose proof (fr_super _ _ _ _ _ _ E2) as (fb & Esb). intros E3. apply IH in E3; try apply E2; try lia; try (rewrite Esb; cbn; lia).
  2: { intros b Hb Hs%(fr_system _ _ _ _ _ _ E2). apply (Hns b); [lia|done]. }
  destruct r as [[]|e]; [|done]. apply (freed_from fs s s1) in E2; try done. replace (current + n + (remaining - n)) with (current + remaining) in E3 by lia.
  eapply freed_trans; [|exact E2|exact E3]. lia.
Qed.

(** *** A run past the end of the volume *)

(** What the loop of [free_blocks] computes its runs from. *)
Definition fs_shape (fs : Ext4) : Z * Z * list BlockGroup :=
  (sb_first_data_block (super_block fs), sb_nr_blocks_per_group (super_block fs), (block_groups fs).*1).

Lemma in_group_shape {A} idx (f : BlockGroup -> M (BlockGroupMetadata * S) A) fs s : fs_shape (in_group idx f (fs, s)).2.1 = fs_shape fs.
Proof.
  unfold in_group. cbn [fst snd]. destruct (block_groups fs !! Z.to_nat idx) as [[g md]|] eqn:E; [|done].
  destruct (f g (md, s)) as [r [md' s']]. unfold fs_shape. cbn. f_equal. rewrite list_fmap_insert. cbn.
  apply list_insert_id. by rewrite list_lookup_fmap, E.
Qed.

Lemma on_store_keeps {A} (m : M S A) (fs : Ext4) s : (on_store m (fs, s)).2.1 = fs.
Proof. rewrite on_store_eq. by destruct (m s). Qed.

Lemma capture_keeps fs s : (capture_super (fs, s)).2.1 = fs.
Proof.
  unfold capture_super, journal_capture. frun. destruct (ms_write SUPERBLOCK_BID s) as [[a|e] s1]; frun; [|done].
  done.
Qed.

Lemma free_run_shape idx start_bit current n fs s : fs_shape (free_run_in_group idx start_bit current n (fs, s)).2.1 = fs_shape fs.
Proof.
  unfold free_run_in_group. rewrite bind_eq. pose proof (in_group_shape idx (fun g => free_blocks g start_bit (start_bit + n)) fs s) as E1.
  destruct (in_group _ _ _) as [[m|e] [fs1 s1]]; cbn [fst snd] in E1; [|done]. rewrite bind_eq.
  pose proof (on_store_keeps (ms_pin current n) fs1 s1) as E2. destruct (on_store _ _) as [[[]|e] [fs2 s2]]; cbn [fst snd] in *; subst fs2; [|done].
  destruct (0 <? m); [|done]. rewrite bind_eq. unfold update_super. frun.
  destruct (inc_free_blocks (super_block fs1) m) as [sb|e] eqn:Ei; frun; [|done]. rewrite capture_keeps, <- E1.
  unfold inc_free_blocks in Ei. repeat (case_match; [|done]). by injection Ei as <-.
Qed.

Lemma past_end_loops fuel : forall duty remaining fs s i g md,
  0 < remaining -> block_groups fs !! i = Some (g, md) -> 0 <= last_block g - first_block g + 1 < 2 ^ 32 ->
  sb_first_data_block (super_block fs) <= last_block g + 1 ->
  (last_block g + 1 - sb_first_data_block (super_block fs)) / sb_nr_blocks_per_group (super_block fs) = Z.of_nat i ->
  is_ok (free_loop fuel duty (last_block g + 1) remaining (fs, s)).1 = false.
Proof.
  induction fuel as [|fuel IH]; intros duty remaining fs s i g md Hrem Hi Hsz Hfirst Hidx; cbn [free_loop]; rewrite (proj2 (Z.leb_gt _ _) Hrem); [done|].
  frun. unfold guard. rewrite (proj2 (Z.leb_le _ _) Hfirst). frun. rewrite Hidx, Nat2Z.id, Hi. unfold u32.
  replace (last_block g + 1 - first_block g) with (last_block g - first_block g + 1) by lia. rewrite wrap_small by done.
  rewrite Z.leb_refl, Z.sub_diag, Z.min_r by lia. frun.
  assert (Hd : (discharge_run duty (last_block g + 1) 0 (fs, s)).2.1 = fs) by (destruct duty; [apply on_store_keeps|done]).
  destruct (discharge_run duty (last_block g + 1) 0 (fs, s)) as [[[]|e] [fs1 s1]]; cbn [fst snd] in Hd; subst fs1; [|done].
  frun. unfold or_abort. pose proof (free_run_shape (Z.of_nat i) (last_block g - first_block g + 1) (last_block g + 1) 0 fs s1) as Hsh.
  destruct (free_run_in_group _ _ _ _ _) as [[[]|e] [fs2 s2]]; cbn [fst snd] in Hsh; [|done]. cbv beta iota.
  rewrite Z.add_0_r, Z.sub_0_r. unfold fs_shape in Hsh. injection Hsh as E1 E2 E3.
  assert (Hg : (block_groups fs2).*1 !! i = Some g) by (by rewrite E3, list_lookup_fmap, Hi).
  rewrite list_lookup_fmap in Hg. destruct (block_groups fs2 !! i) as [[g2 md2]|] eqn:Hi2; [|done]. injection Hg as ->.
  apply (IH duty remaining fs2 s2 i g md2); try done; by rewrite ?E1, ?E2.
Qed.

(** *** Inodes *)

(** The inode [ino] is free in the bitmap of its group. *)
Definition fs_inode_free (fs : Ext4) (ino : Z) : Prop :=
  exists i g md k, block_groups fs !! i = Some (g, md) /\ inode_free md k /\
    ino = Z.of_nat i * sb_nr_inodes_per_group (super_block fs) + k + 1.

(** The file system after the inode [ino] was taken, or given back. *)
Record inode_moved (fs : Ext4) (s : S) (ino : Z) (taken : bool) (fs' : Ext4) (s' : S) : Prop := {
  im_was : if taken then fs_inode_free fs ino else ~ fs_inode_free fs ino;
  im_now k : fs_inode_free fs' k <-> if decide (k = ino) then taken = false else fs_inode_free fs k;
  im_count : sb_free_inodes_count (super_block fs') = sb_free_inodes_count (super_block fs) + (if taken then -1 else 1);
  im_blocks b : fs_free fs' b <-> fs_free fs b;
  im_ok : fs_ok fs';
  im_stored : fs_stored fs' s';
  im_store : ms_ok s';
  im_other c : ~ fs_system fs c -> ms_read s' c = ms_read s c;
  im_pinned c : pinned s' c <-> pinned s c;
}.

Lemma inode_number_inj fs i k i' k' g md g' md' :
  fs_ok fs -> block_groups fs !! i = Some (g, md) -> block_groups fs !! i' = Some (g', md') ->
  0 <= k < ib_len (md_inodes md) -> 0 <= k' < ib_len (md_inodes md') ->
  Z.of_nat i * sb_nr_inodes_per_group (super_block fs) + k + 1 = Z.of_nat i' * sb_nr_inodes_per_group (super_block fs) + k' + 1 ->
  i = i' /\ k = k'.
Proof.
  intros Hf Hi Hi' Hk Hk' E. rewrite (go_inodes_len g md (fo_group fs Hf i g md Hi)), (fo_geometry fs Hf i g md Hi) in Hk.
  rewrite (go_inodes_len g' md' (fo_group fs Hf i' g' md' Hi')), (fo_geometry fs Hf i' g' md' Hi') in Hk'. cbn [bg_ipg group_geometry] in *.
  assert (i = i') as ->; [|lia]. destruct (Z.lt_trichotomy (Z.of_nat i) (Z.of_nat i')) as [?|[?|?]]; [nia|lia|nia].
Qed.

Lemma moved_inode_free fs fs' i g md md' idx taken k :
  fs_ok fs -> fs_ok fs' -> group_moved fs fs' i g md md' -> sb_nr_inodes_per_group (super_block fs') = sb_nr_inodes_per_group (super_block fs) ->
  0 <= idx < ib_len (md_inodes md) -> ib_len (md_inodes md') = ib_len (md_inodes md) ->
  (forall k, 0 <= k -> bit (ib_buf (md_inodes md')) k = if decide (k = idx) then taken else bit (ib_buf (md_inodes md)) k) ->
  fs_inode_free fs' k <->
  if decide (k = Z.of_nat i * sb_nr_inodes_per_group (super_block fs) + idx + 1) then taken = false else fs_inode_free fs k.
Proof.
  intros Hf Hf' Hm Eipg Hidx Hl Hbits. pose proof (gm_old _ _ _ _ _ _ Hm) as Hi.
  destruct (moved_lookup_old _ _ _ _ _ _ _ _ _ Hm Hi) as (md0 & Hi' & _ & _ & E0). rewrite (E0 eq_refl) in Hi'. clear md0 E0.
  case_decide as Hk.
  - split.
    + intros (j & g2 & md2 & k2 & Hj & Hfree & E). rewrite Eipg, Hk in E. rewrite <- Eipg in E.
      destruct (inode_number_inj fs' i idx j k2 g md' g2 md2 Hf' Hi' Hj) as [<- <-]; [lia|apply Hfree|done|].
      rewrite Hi' in Hj. injection Hj as <- <-. destruct Hfree as [_ Hb]. by rewrite Hbits, decide_True in Hb by lia.
    + intros ->. exists i, g, md', idx. split; [done|]. rewrite Eipg. split; [|done]. split; [lia|]. by rewrite Hbits, decide_True by lia.
  - split; intros (j & g2 & md2 & k2 & Hj & [Hr Hb] & E).
    + rewrite Eipg in E. destruct (moved_lookup _ _ _ _ _ _ _ _ _ Hm Hj) as [(-> & -> & ->)|[_ Hj']]; [|by exists j, g2, md2, k2].
      exists i, g, md, k2. split; [done|]. split; [|done]. split; [lia|]. rewrite Hbits, decide_False in Hb by (lia || congruence). done.
    + destruct (moved_lookup_old _ _ _ _ _ _ _ _ _ Hm Hj) as (md3 & Hj' & _ & Hn & He). destruct (decide (j = i)) as [->|Hne].
      * rewrite Hi in Hj. injection Hj as <- <-. exists i, g, md', k2. split; [done|]. rewrite Eipg. split; [|done]. split; [lia|].
        by rewrite Hbits, decide_False by (lia || congruence).
      * rewrite (Hn Hne) in Hj'. exists j, g2, md2, k2. by rewrite Eipg.
Qed.

(** The tail of an inode operation whose group has moved. *)
Lemma inode_step_follow fs s i g md md' s1 idx taken f sb' r fs' s' :
  fs_ok fs -> fs_stored fs s -> ms_ok s -> block_groups fs !! i = Some (g, md) -> group_ok g md' ->
  0 <= idx < ib_len (md_inodes md) -> (if taken : bool then inode_free md idx else ~ inode_free md idx) ->
  (forall k, 0 <= k -> bit (ib_buf (md_inodes md')) k = if decide (k = idx) then taken else bit (ib_buf (md_inodes md)) k) ->
  only_inodes md md' (if taken then -1 else 1) -> desc_kept (md_desc md) (md_desc md') -> group_stored g md' s1 ->
  group_step g (inode_bitmap_bid (md_desc md)) (ib_buf (md_inodes md')) md' s s1 ->
  f (super_block fs) = Ok sb' -> sb_ok sb' ->
  sb' = sb_set (super_block fs) (sb_free_blocks_count (super_block fs)) (sb_free_inodes_count (super_block fs) + (if taken then -1 else 1))
    (sb_feature_incompat (super_block fs)) (sb_last_orphan (super_block fs)) ->
  (update_super f ;; capture_super) (set_groups fs (<[i := (g, md')]> (block_groups fs)), s1) = (r, (fs', s')) ->
  match r with
  | Ok _ => inode_moved fs s (Z.of_nat i * sb_nr_inodes_per_group (super_block fs) + idx + 1) taken fs' s'
  | Err e => handled e = true
  end.
Proof.
  intros Hf Hst Hok Hi Hk Hidx Hwas Hbits (C1 & C2 & C3) Hkept Hst1 Hstep Ef Hsb' Esb'.
  assert (Hfr : forall b, is_free g md' b <-> is_free g md b) by (intros b; unfold is_free; by rewrite C3).
  assert (Hsys : forall b, fs_system fs b -> ~ is_free g md' b).
  { intros b Hb Hx%Hfr. apply (fo_system fs Hf b Hb). by exists i, g, md. }
  destruct (counters_follow fs i g md md' _ _ s s1 s1 sb' _ _ Hf Hst Hok Hi Hk Hkept Hstep Hst1 ltac:(by right) (st_ok _ _ _ _ _ _ Hstep) ltac:(done)
    Esb' Hsb' ltac:(lia) ltac:(lia) Hsys) as (Hm & Hf' & r3 & s3 & E3 & Hok3 & Hp3 & Hoth & Hr).
  set (fs1 := set_groups fs _) in *. frun. rewrite (update_super_ok f fs1 s1 sb' Ef). frun. rewrite E3. intros [= <- <- <-].
  destruct r3 as [u|e]; [|done].
  assert (Hl : ib_len (md_inodes md') = ib_len (md_inodes md)).
  { by rewrite (go_inodes_len g md' Hk), (go_inodes_len g md (fo_group fs Hf i g md Hi)). }
  split; try done.
  - destruct taken; [by exists i, g, md, idx|]. intros (j & g2 & md2 & k2 & Hj & Hfree & E).
    destruct (inode_number_inj fs i idx j k2 g md g2 md2 Hf Hi Hj Hidx) as [<- <-]; [apply Hfree|done|].
    rewrite Hi in Hj. injection Hj as <- <-. done.
  - intros k. apply (moved_inode_free _ _ _ _ _ _ _ taken k Hf Hf' Hm); try done. cbn. by rewrite Esb'.
  - cbn. by rewrite Esb'.
  - intros b. rewrite (moved_free _ _ _ _ _ _ b Hf Hm). case_decide as Hb; [|done]. rewrite Hfr. symmetry. by apply (fs_free_in fs i).
  - intros c Hc. apply Hoth; intros ->; apply Hc; [by left|right; exists i, g, md; split; [done|left; right; by left]|].
    right. exists i, g, md. split; [done|by right].
  - intros c. rewrite Hp3. apply (st_pinned _ _ _ _ _ _ Hstep).
Qed.

Lemma set_groups_same fs i p : block_groups fs !! i = Some p -> set_groups fs (<[i := p]> (block_groups fs)) = fs.
Proof. intros Hi. rewrite list_insert_id by done. by destruct fs. Qed.

Lemma bind_assoc {St A B C} (m : M St A) (k : M St B) (f : M St C) st : (m ;; (k ;; f)) st = ((m ;; k) ;; f) st.
Proof. rewrite !bind_eq. by destruct (m st) as [[a|e] st']. Qed.

(** A group with no inode to give: its bitmap is full or not initialised. *)
Definition no_inode (fs : Ext4) (idx : Z) : Prop :=
  forall g md, block_groups fs !! Z.to_nat idx = Some (g, md) -> (forall k, ~ inode_free md k) \/ is_inode_uninit (md_desc md) = true.

Lemma ino_ring_spec offsets : forall fs s parent_group nr is_directory r fs' s',
  fs_ok fs -> fs_stored fs s -> ms_ok s -> nr = sb_nr_block_groups (super_block fs) ->
  ino_ring offsets parent_group nr (sb_nr_inodes_per_group (super_block fs)) (sb_inodes_count (super_block fs)) is_directory (fs, s) = (r, (fs', s')) ->
  match r with
  | Ok ino => sb_first_ino (super_block fs) <= ino <= sb_inodes_count (super_block fs) /\ inode_moved fs s ino true fs' s'
  | Err e => (e = ENOSPC /\ fs' = fs /\ s' = s /\ forall idx, idx ∈ ring_group parent_group nr <$> offsets -> no_inode fs idx) \/ handled e = true
  end.
Proof.
  induction offsets as [|off offsets IH]; intros fs s parent_group nr is_directory r fs' s' Hf Hst Hok En.
  { cbn [ino_ring]. frun. intros [= <- <- <-]. left. split_and!; try done. by intros ? ?%elem_of_nil. }
  cbn [ino_ring]. set (idx := (parent_group + off) mod nr). pose proof (so_groups _ (fo_sb fs Hf)) as Hnr.
  assert (Hidx : 0 <= idx < nr) by (apply Z.mod_pos_bound; lia).
  destruct (lookup_lt_is_Some_2 (block_groups fs) (Z.to_nat idx)) as [[g md] Hi].
  { pose proof (fo_len fs Hf) as L. unfold zlen in L. lia. }
  rewrite bind_eq, (in_group_eq _ _ _ _ g md Hi). destruct (fs_group_bounds fs _ g md Hf Hi) as (_ & Hg & _).
  destruct (alloc_ino g is_directory (md, s)) as [r1 [md1 s1]] eqn:E1. cbn [fst snd].
  apply alloc_ino_spec in E1 as (Hk1 & Post); [|done|by apply (fo_group fs Hf (Z.to_nat idx))|by apply (fst_group _ _ Hst (Z.to_nat idx))|done].
  destruct r1 as [[k|]|e].
  - destruct Post as (P1 & _ & _ & P4 & P5 & P6 & _ & P7 & P8). rewrite bind_eq, ext4_eq.
    cbn [super_block set_groups]. destruct (_ && _ && _) eqn:Eg.
    + apply andb_true_iff in Eg as [Eg1 Eg2]. apply andb_true_iff in Eg1 as [_ Eg1]. apply Z.leb_le in Eg1, Eg2.
      pose proof (dec_free_inodes_spec (super_block fs) (fo_sb fs Hf)) as Hdec.
      destruct (dec_free_inodes (super_block fs)) as [sb'|e] eqn:Ed.
      * destruct Hdec as (Hsb' & _ & Esb'). rewrite bind_assoc, bind_eq.
        destruct ((update_super _ ;; capture_super) _) as [r2 [fs2 s2]] eqn:E2.
        eapply (inode_step_follow fs s (Z.to_nat idx) g md md1 s1 k true) in E2; try done; [|apply P1].
        rewrite Z2Nat.id in E2 by lia. destruct r2 as [u|e]; frun; intros [= <- <- <-]; [by split|by right].
      * frun. unfold update_super. frun. cbn [super_block set_groups]. rewrite Ed. frun. intros [= <- <- <-]. right. by destruct Hdec as [-> _].
    + frun. intros [= <- _]. by right.
  - destruct Post as (P1 & -> & ->). rewrite set_groups_same by done. intros E2. apply IH in E2; try done. destruct r as [ino|e]; [done|].
    destruct E2 as [(-> & -> & -> & Hb)|E2]; [left|by right]. split_and!; try done.
    rewrite fmap_cons. intros j [->|Hj]%elem_of_cons; [|by apply Hb]. intros g2 md2 Hj. unfold ring_group in Hj. fold idx in Hj. rewrite Hi in Hj. by injection Hj as <- <-.
  - intros [= <- <- <-]. right. destruct Post as [(-> & _)|Post]; [done|apply Post].
Qed.

(** Every free inode lies in a group whose inode bitmap is not initialised. *)
Definition inodes_exhausted (fs : Ext4) : Prop :=
  forall i g md k, block_groups fs !! i = Some (g, md) -> inode_free md k -> is_inode_uninit (md_desc md) = true.

Lemma fs_alloc_ino_spec fs s parent_ino is_directory r fs' s' :
  fs_ok fs -> fs_stored fs s -> ms_ok s -> fs_alloc_ino parent_ino is_directory (fs, s) = (r, (fs', s')) ->
  match r with
  | Ok ino => sb_first_ino (super_block fs) <= ino <= sb_inodes_count (super_block fs) /\ inode_moved fs s ino true fs' s'
  | Err e => (e = ENOSPC /\ fs' = fs /\ s' = s /\ inodes_exhausted fs) \/ handled e = true
  end.
Proof.
  intros Hf Hst Hok. unfold fs_alloc_ino, guard. frun. destruct (negb (_ || _)); frun; [|intros [= <- <- <-]; by right].
  destruct (negb (_ =? 0)); frun; [|intros [= <- <- <-]; by right]. intros E. apply ino_ring_spec in E; try done. destruct r as [ino|e]; [done|].
  destruct E as [(-> & -> & -> & Hn)|E]; [left|by right]. split_and!; try done. intros i g md k Hi Hk.
  destruct (fs_group_bounds fs i g md Hf Hi) as (Hlt & _). pose proof (so_groups _ (fo_sb fs Hf)).
  destruct (Hn (Z.of_nat i) ltac:(apply ring_covers; lia) g md) as [Hx|Hx]; [by rewrite Nat2Z.id|by destruct (Hx k)|done].
Qed.

Lemma fs_free_inode_spec fs s ino is_directory r fs' s' :
  fs_ok fs -> fs_stored fs s -> ms_ok s -> 0 <= ino -> fs_free_inode ino is_directory (fs, s) = (r, (fs', s')) ->
  match r with
  | Ok _ => 1 <= ino <= sb_inodes_count (super_block fs) /\ (inode_moved fs s ino false fs' s' \/ fs_inode_free fs ino /\ fs' = fs /\ s' = s)
  | Err e => handled e = true
  end.
Proof.
  intros Hf Hst Hok Hpos. unfold fs_free_inode, find_group. frun. rewrite (fo_ipg fs Hf), (fo_total fs Hf).
  destruct (Z.eqb_spec ino 0) as [->|Hne]; cbn [negb rbind]; [frun; intros [= <- <- <-]; done|].
  destruct (Z.ltb_spec (sb_inodes_count (super_block fs)) ino) as [Hgt|Hle]; cbn [negb rbind]; [frun; intros [= <- <- <-]; done|].
  set (ipg := sb_nr_inodes_per_group (super_block fs)). pose proof (so_ipg _ (fo_sb fs Hf)) as Hipg. fold ipg in Hipg.
  set (idx := (ino - 1) / ipg). destruct (Z.ltb_spec idx (zlen (block_groups fs))) as [Hlt|Hge]; [|frun; intros [= <- <- <-]; done].
  assert (Hidx : 0 <= idx) by (apply Z.div_pos; lia). frun. unfold zlen in Hlt.
  destruct (lookup_lt_is_Some_2 (block_groups fs) (Z.to_nat idx)) as [[g md] Hi]; [lia|]. rewrite (in_group_eq _ _ _ _ g md Hi).
  pose proof (fo_group fs Hf _ g md Hi) as Hk. destruct (fs_group_bounds fs _ g md Hf Hi) as (_ & Hg & _). set (k := (ino - 1) mod ipg).
  assert (Hkb : 0 <= k < bg_ipg g) by (rewrite (fo_geometry fs Hf _ g md Hi); apply Z.mod_pos_bound; unfold ipg in *; cbn; lia).
  assert (Hino : ino = Z.of_nat (Z.to_nat idx) * ipg + k + 1).
  { rewrite Z2Nat.id by lia. unfold idx, k. pose proof (Z.div_mod (ino - 1) ipg ltac:(lia)). lia. }
  destruct (free_inode g k is_directory (md, s)) as [r1 [md1 s1]] eqn:E1. cbn [fst snd].
  apply free_inode_spec in E1 as (Hk1 & Post); [|done|done|by apply (fst_group _ _ Hst (Z.to_nat idx))|done|done].
  destruct r1 as [[]|e].
  - destruct Post as (P1 & P4 & P5 & P6 & _ & P7 & P8). pose proof (inc_free_inodes_spec (super_block fs) (fo_sb fs Hf)) as Hinc.
    destruct (inc_free_inodes (super_block fs)) as [sb'|e] eqn:Ed.
    + destruct Hinc as (Hsb' & _ & Esb'). intros E2.
      eapply (inode_step_follow fs s (Z.to_nat idx) g md md1 s1 k false) in E2; try done; [|by rewrite (go_inodes_len g md Hk)].
      fold ipg in E2. rewrite <- Hino in E2. destruct r; [|done]. split; [lia|by left].
    + unfold update_super. frun. cbn [super_block set_groups]. rewrite Ed. frun. intros [= <- <- <-]. by destruct Hinc as [-> _].
  - destruct Post as (P1 & -> & ->). rewrite set_groups_same by done. frun. intros [= <- <- <-]. split; [lia|]. right.
    split; [|done]. exists (Z.to_nat idx), g, md, k. by split_and!.
  - intros [= <- <- <-]. destruct Post as [(-> & _)|Post]; [done|apply Post].
Qed.
End Stored_steps.
