(* ===== verification/AllocSpec.v ===== *)
(** * What allocation guarantees

    The theorems on the allocation half of [fs.rs] (modelled in [Alloc.v]):
    what one allocation or free does to the set of free blocks and inodes, to
    the counters and to the store, and what holds of sequences of them: blocks
    handed out are never handed out twice, and a freed block is not handed out
    again while its free has not committed. *)

From S2P Require Import Prelude Pod Checksum JournalFormat Device Bitmap SuperBlock GroupDesc JournalState MetaStore BlockGroup Alloc.

(** A block of a run. *)
Definition in_run (b : Z) (r : Z * Z) : Prop := r.1 <= b < r.2.
#[export] Instance in_run_dec b r : Decision (in_run b r) := and_dec _ _.

Section Spec.
Context {S : Type} `{MetaStoreOk S}.
Implicit Types s : S.

(** ** Sequences of operations *)

(** A call on the block allocator. *)
Inductive request : Type :=
  | Alloc (count goal : Z)
  | Free (start count : Z) (duty : bool)
  | Other.

(** The state of the allocator with the runs its callers hold. *)
Record session : Type := { s_fs : Ext4; s_store : S; s_held : list (Z * Z) }.

(** The runs that hold a block. *)
Definition holders (runs : list (Z * Z)) (b : Z) : list (Z * Z) := filter (in_run b) runs.

(** One call that succeeds, or a step of the rest of the system that leaves
    the allocator's metadata as it is (a commit, a checkpoint, the writes of
    other code).  A caller frees a run it holds. *)
Inductive session_step : session -> request -> session -> Prop :=
  | Step_alloc fs s runs count goal range fs' s' :
      0 <= count -> fs_alloc_blocks count goal (fs, s) = (Ok range, (fs', s')) ->
      session_step {| s_fs := fs; s_store := s; s_held := runs |} (Alloc count goal)
        {| s_fs := fs'; s_store := s'; s_held := range :: runs |}
  | Step_free fs s l1 l2 a e duty fs' s' :
      fs_free_blocks a (e - a) duty (fs, s) = (Ok tt, (fs', s')) -> a <= e ->
      session_step {| s_fs := fs; s_store := s; s_held := l1 ++ (a, e) :: l2 |} (Free a (e - a) duty)
        {| s_fs := fs'; s_store := s'; s_held := l1 ++ l2 |}
  | Step_other fs s runs s' :
      ms_ok s' -> fs_stored fs s' ->
      session_step {| s_fs := fs; s_store := s; s_held := runs |} Other {| s_fs := fs; s_store := s'; s_held := runs |}.

Inductive session_steps : session -> list request -> session -> Prop :=
  | Steps_nil x : session_steps x [] x
  | Steps_cons x y z q qs : session_step x q y -> session_steps y qs z -> session_steps x (q :: qs) z.

(** No block is in two of the held runs, and the held blocks are blocks of the
    volume, not free and not the file system's own. *)
Record session_ok (x : session) : Prop := {
  sk_fs : fs_ok (s_fs x);
  sk_stored : fs_stored (s_fs x) (s_store x);
  sk_store : ms_ok (s_store x);
  sk_once b : (length (holders (s_held x) b) <= 1)%nat;
  sk_held b : holders (s_held x) b <> [] -> ~ fs_free (s_fs x) b /\ ~ fs_system (s_fs x) b /\
    sb_first_data_block (super_block (s_fs x)) <= b < sb_blocks_count (super_block (s_fs x));
}.

(** ** Lemmas *)

Lemma fs_free_volume fs b : fs_ok fs -> fs_free fs b -> sb_first_data_block (super_block fs) <= b < sb_blocks_count (super_block fs).
Proof.
  intros Hf (i & g & md & Hi & Hb & _). destruct (fs_group_bounds fs i g md Hf Hi) as (Hlt & _). pose proof (so_cover _ (fo_sb fs Hf)).
  pose proof (so_bpg _ (fo_sb fs Hf)). rewrite (fo_geometry fs Hf i g md Hi) in Hb. cbn [first_block last_block group_geometry] in Hb.
  destruct (Z.eqb_spec (Z.of_nat i) (sb_nr_block_groups (super_block fs) - 1)); nia.
Qed.

Lemma fs_free_blocks_spec fs s start count duty r fs' s' :
  fs_ok fs -> fs_stored fs s -> ms_ok s -> 0 <= count -> sb_first_data_block (super_block fs) <= start ->
  start + count <= sb_blocks_count (super_block fs) -> (forall b, start <= b < start + count -> ~ fs_system fs b) ->
  fs_free_blocks start count duty (fs, s) = (r, (fs', s')) ->
  match r with Ok _ => freed fs s start (start + count) fs' s' | Err e => handled e = true /\ ms_aborted s' = true end.
Proof.
  intros Hf Hst Hok Hc Hlo Hhi Hns. unfold fs_free_blocks. destruct (Z.eqb_spec count 0) as [->|Hne].
  - intros [= <- <- <-]. rewrite Z.add_0_r. by apply freed_nil.
  - intros E. eapply (free_loop_spec (Z.to_nat count)); try done. lia.
Qed.

(** A run the session holds is freed. *)
Lemma free_held fs s a e l1 l2 duty fs' s' :
  session_ok {| s_fs := fs; s_store := s; s_held := l1 ++ (a, e) :: l2 |} -> a <= e ->
  fs_free_blocks a (e - a) duty (fs, s) = (Ok tt, (fs', s')) -> freed fs s a e fs' s'.
Proof.
  intros [K1 K2 K3 _ K5] Hae. cbn [s_fs s_store s_held] in *. assert (Hb : forall b, a <= b < e -> ~ fs_system fs b /\
    sb_first_data_block (super_block fs) <= b < sb_blocks_count (super_block fs)).
  { intros b Hb. apply K5. unfold holders. rewrite filter_app, filter_cons_True by done. by destruct (filter _ l1). }
  destruct (decide (a = e)) as [->|Hne].
  - unfold fs_free_blocks. rewrite Z.sub_diag. intros [= <- <-]. by apply freed_nil.
  - intros E. apply fs_free_blocks_spec in E; try done; try lia.
    + replace (a + (e - a)) with e in E by lia. done.
    + apply (Hb a). lia.
    + pose proof (Hb (e - 1) ltac:(lia)). lia.
    + intros b Hx. apply Hb. lia.
Qed.

Lemma holders_cons r runs b : holders (r :: runs) b = if decide (in_run b r) then r :: holders runs b else holders runs b.
Proof. done. Qed.

Lemma session_step_ok x q y : session_ok x -> session_step x q y -> session_ok y.
Proof.
  intros Hx Hstep. destruct Hstep as [fs s runs count goal range fs' s' Hc E|fs s l1 l2 a e duty fs' s' E Hae|fs s runs s' Hok' Hst'].
  - destruct Hx as [K1 K2 K3 K4 K5]. cbn [s_fs s_store s_held] in *. apply fs_alloc_blocks_spec in E as [A1 A2 A3 A4 A5 A6 A7 A8 A9 A10]; try done.
    assert (Hnew : forall b, in_run b range -> holders runs b = []).
    { intros b Hb. destruct (holders runs b) eqn:Eh; [done|]. destruct (K5 b) as [Hnf _]; [by rewrite Eh|]. destruct Hnf. by apply A2. }
    split; cbn [s_fs s_store s_held]; try done; intros b; rewrite holders_cons; case_decide as Hb; try done.
    + by rewrite (Hnew b Hb).
    + intros _. destruct (A2 b Hb) as (Hfree & Hsys & _). rewrite A3, A5, A4. cbn. split; [tauto|]. split; [done|]. by apply fs_free_volume.
    + intros Hh. destruct (K5 b Hh) as (B1 & B2 & B3). rewrite A3, A5, A4. cbn. split; [tauto|done].
  - pose proof (free_held fs s a e l1 l2 duty fs' s' Hx Hae E) as [F1 F2 F3 F4 F5 F6 F7 [fb F8]]. destruct Hx as [K1 K2 K3 K4 K5].
    cbn [s_fs s_store s_held] in *.
    assert (Hin : forall b, holders (l1 ++ (a, e) :: l2) b = holders l1 b ++ (if decide (in_run b (a, e)) then [(a, e)] else []) ++ holders l2 b).
    { intros b. unfold holders. rewrite filter_app, filter_cons. by case_decide. }
    assert (Hap : forall b, holders (l1 ++ l2) b = holders l1 b ++ holders l2 b) by (intros b; apply filter_app).
    split; cbn [s_fs s_store s_held]; try done; intros b; specialize (K4 b); specialize (K5 b); rewrite Hin in K4, K5; rewrite Hap.
    + rewrite !length_app in *. lia.
    + intros Hh. rewrite F1, F7, F8. cbn. case_decide as Hb.
      * rewrite !length_app in K4. destruct (holders l1 b), (holders l2 b); cbn in *; by try lia.
      * destruct (K5 Hh) as (B1 & B2 & B3). split; [|done]. intros [?|?]; [done|by apply Hb].
  - destruct Hx as [K1 K2 K3 K4 K5]. by split.
Qed.

Lemma holders_shrink l1 r l2 b : holders (l1 ++ r :: l2) b = [] -> holders (l1 ++ l2) b = [].
Proof.
  unfold holders. rewrite !filter_app, filter_cons. intros [E1 E2]%app_nil. rewrite E1. by case_decide.
Qed.

(** A pinned block is not handed out. *)
Lemma pinned_step x q y b :
  session_ok x -> session_step x q y -> q <> Other -> pinned (s_store x) b -> holders (s_held x) b = [] ->
  pinned (s_store y) b /\ holders (s_held y) b = [].
Proof.
  intros Hx Hstep Hq Hp Hh. destruct Hstep as [fs s runs count goal range fs' s' Hc E|fs s l1 l2 a e duty fs' s' E Hae|]; [| |done].
  - destruct Hx as [K1 K2 K3 _ _]. cbn [s_fs s_store s_held] in *. apply fs_alloc_blocks_spec in E as [A1 A2 A3 A4 A5 A6 A7 A8 A9 A10]; try done.
    split; [by apply A10|]. rewrite holders_cons. case_decide as Hb; [|done]. by destruct (A2 b Hb) as (_ & _ & []).
  - pose proof (free_held fs s a e l1 l2 duty fs' s' Hx Hae E) as [_ F2 _ _ _ _ _ _]. cbn [s_store s_held] in *.
    split; [apply F2; by left|by eapply holders_shrink].
Qed.

Lemma pinned_steps x qs y b :
  session_ok x -> session_steps x qs y -> Other ∉ qs -> pinned (s_store x) b -> holders (s_held x) b = [] -> holders (s_held y) b = [].
Proof.
  intros Hx Hs. induction Hs as [|x z y q qs Hq _ IH]; [done|]. rewrite not_elem_of_cons. intros [Hne Hn] Hp Hh.
  destruct (pinned_step x q z b Hx Hq ltac:(congruence) Hp Hh). apply IH; try done. by eapply session_step_ok.
Qed.

Lemma freed_pinned x a n duty y b :
  session_ok x -> session_step x (Free a n duty) y -> a <= b < a + n -> pinned (s_store y) b /\ holders (s_held y) b = [].
Proof.
  intros Hx Hstep Hb. inversion Hstep as [|fs s l1 l2 a' e duty' fs' s' E Hae Ex Eq Ey|]; subst.
  destruct (free_held fs s a e l1 l2 duty fs' s' Hx Hae E) as [_ F2 _ _ _ _ _ _]. cbn [s_store s_held]. split; [apply F2; right; lia|].
  pose proof (sk_once _ Hx b) as Ho. cbn [s_held] in Ho. unfold holders in *. rewrite filter_app, filter_cons_True in Ho by (unfold in_run; cbn; lia).
  rewrite filter_app. rewrite length_app in Ho. cbn in Ho. destruct (filter _ l1), (filter _ l2); cbn in *; done || lia.
Qed.

Lemma inode_free_pos fs ino : fs_ok fs -> fs_inode_free fs ino -> 1 <= ino.
Proof. intros Hf (i & g & md & k & _ & [Hk _] & ->). pose proof (so_ipg _ (fo_sb fs Hf)). nia. Qed.

(** ** Theorems *)


(** C22: Freeing a run of the volume's blocks, across as many groups as it spans,
    terminates; when it succeeds exactly its blocks became free, all of them
    are pinned until the commit, and the store agrees with memory; when it
    fails the journal is dead, so that nothing of it can be committed. *)
Theorem fs_free_exact fs s start count duty r fs' s' :
  fs_ok fs -> fs_stored fs s -> ms_ok s -> 0 <= count -> sb_first_data_block (super_block fs) <= start ->
  start + count <= sb_blocks_count (super_block fs) -> (forall b, start <= b < start + count -> ~ fs_system fs b) ->
  fs_free_blocks start count duty (fs, s) = (r, (fs', s')) ->
  match r with Ok _ => freed fs s start (start + count) fs' s' | Err e => handled e = true /\ ms_aborted s' = true end.
Proof. apply fs_free_blocks_spec. Qed.

(** C13: Whatever sequence of allocations and frees succeeds, interleaved with any
    steps of the rest of the system, no block is ever in two of the runs
    handed out and not freed; none of them is free, and none is metadata. *)
Theorem no_block_twice x qs y : session_ok x -> session_steps x qs y -> session_ok y.
Proof. intros Hx Hs. induction Hs as [|x z y q qs Hq _ IH]; [done|]. apply IH. by eapply session_step_ok. Qed.

(** C23: A block freed by an operation is not handed out again, by whatever
    allocations and frees follow, until another step of the system (the commit
    of the transaction that freed it) intervenes. *)
Theorem freed_stays_out x a n duty y qs z b :
  session_ok x -> session_step x (Free a n duty) y -> session_steps y qs z -> Other ∉ qs -> a <= b < a + n -> holders (s_held z) b = [].
Proof.
  intros Hx Hfree Hs Hn Hb. destruct (freed_pinned x a n duty y b Hx Hfree Hb). apply (pinned_steps y qs z b); try done. by eapply session_step_ok.
Qed.


(** Giving an inode number back frees exactly that inode, and a second free of
    it changes nothing; an allocation followed by the free of what it returned
    restores the free inodes, the free blocks and the count. *)
Theorem fs_ino_roundtrip fs s parent_ino is_directory ino fs1 s1 fs2 s2 :
  fs_ok fs -> fs_stored fs s -> ms_ok s ->
  fs_alloc_ino parent_ino is_directory (fs, s) = (Ok ino, (fs1, s1)) -> fs_free_inode ino is_directory (fs1, s1) = (Ok tt, (fs2, s2)) ->
  (forall k, fs_inode_free fs2 k <-> fs_inode_free fs k) /\ (forall b, fs_free fs2 b <-> fs_free fs b) /\
  sb_free_inodes_count (super_block fs2) = sb_free_inodes_count (super_block fs) /\ fs_ok fs2 /\ fs_stored fs2 s2 /\
  forall fs3 s3, fs_free_inode ino is_directory (fs2, s2) = (Ok tt, (fs3, s3)) -> fs3 = fs2 /\ s3 = s2.
Proof.
  intros Hf Hst Hok E1 E2. apply fs_alloc_ino_spec in E1 as (Hr & [M1 M2 M3 M4 M5 M6 M7 M8 M9]); try done.
  assert (Hn : ~ fs_inode_free fs1 ino) by (rewrite M2, decide_True by done; done). pose proof (inode_free_pos fs ino Hf M1) as Hpos.
  apply fs_free_inode_spec in E2 as (_ & [[N1 N2 N3 N4 N5 N6 N7 N8 N9]|(Hx & _)]); try done; [|lia].
  assert (Hnow : fs_inode_free fs2 ino) by (by rewrite N2, decide_True). split_and!; try done.
  - intros k. rewrite N2. case_decide as Hk; [by subst k|]. rewrite M2. by rewrite decide_False.
  - intros b. by rewrite N4, M4.
  - lia.
  - intros fs3 s3 E3. apply fs_free_inode_spec in E3 as (_ & [[Q1 _ _ _ _ _ _ _ _]|(_ & ?)]); try done. lia.
Qed.

(** A run that crosses the end of a volume whose last group is not full is
    never freed: from the first block past the end the loop of [free_blocks]
    makes no progress, so no number of rounds completes it. *)
Theorem free_past_end_stuck fuel duty remaining fs s i g md :
  fs_ok fs -> block_groups fs !! i = Some (g, md) -> last_block g + 1 = sb_blocks_count (super_block fs) -> 0 < remaining ->
  last_block g + 1 < sb_first_data_block (super_block fs) + sb_nr_block_groups (super_block fs) * sb_nr_blocks_per_group (super_block fs) ->
  is_ok (free_loop fuel duty (last_block g + 1) remaining (fs, s)).1 = false.
Proof.
  intros Hf Hi Hend Hrem Hpart. destruct (fs_group_bounds fs i g md Hf Hi) as (Hlt & Hg & _). pose proof (geo_size g Hg) as Hsz.
  pose proof (so_cover _ (fo_sb fs Hf)). pose proof (so_bpg _ (fo_sb fs Hf)). pose proof (so_first _ (fo_sb fs Hf)) as [? _].
  pose proof (so_groups _ (fo_sb fs Hf)). unfold capacity, BLOCK_SIZE in Hsz.
  apply (past_end_loops fuel duty remaining fs s i g md); try done; [lia|nia|].
  rewrite (fo_geometry fs Hf i g md Hi) in Hend. cbn [last_block group_geometry] in Hend.
  destruct (Z.eqb_spec (Z.of_nat i) (sb_nr_block_groups (super_block fs) - 1)) as [Ei|Ei]; [|nia].
  symmetry. rewrite Ei. pose proof (fo_geometry fs Hf i g md Hi) as Eg. assert (last_block g = sb_blocks_count (super_block fs) - 1) as El.
  { rewrite Eg. cbn [last_block group_geometry]. by rewrite Ei, Z.eqb_refl. }
  rewrite El in *. apply Z.div_unique with (r := sb_blocks_count (super_block fs) - sb_first_data_block (super_block fs)
    - (sb_nr_block_groups (super_block fs) - 1) * sb_nr_blocks_per_group (super_block fs)); [left; nia|lia].
Qed.
End Spec.

(** ** A sample volume

    Two groups of at most 32 blocks on a volume of 56: superblock in block 0,
    descriptors in 1; the bitmaps and the table of the first group in 2, 3 and
    4, of the second in 32, 33 and 34; blocks 5 to 9 hold data. *)
Module SampleVolume.
Definition fields : list (nat * Z * Z) :=
  [(4%nat, 0x0, 32); (4%nat, 0x4, 56); (4%nat, 0xC, 43); (4%nat, 0x10, 21); (4%nat, 0x18, 2); (4%nat, 0x1C, 2); (4%nat, 0x20, 32);
   (4%nat, 0x28, 16); (2%nat, 0x38, MAGIC_NUM); (2%nat, 0x3C, 1); (4%nat, 0x4C, 1); (4%nat, 0x54, 11); (2%nat, 0x58, 256);
   (4%nat, 0x60, 0x42); (4%nat, 0x64, 0x401); (1%nat, 0x175, 1)].
Definition bytes : list byte := fold_left (fun b f => match f with (n, o, v) => put_le n o v b end) fields (zeros 1024).
Definition stamped : list byte := put_le 4 S_CHECKSUM_OFFSET (crc32c (not32 0) (slice 0 S_CHECKSUM_OFFSET bytes)) bytes.
Definition super_image : list byte := splice SUPER_BLOCK_OFFSET stamped (zeros BLOCK_SIZE).
Definition sb : SuperBlock := Eval vm_compute in
  match sb_try_from (read_at raw_sb_codec SUPER_BLOCK_OFFSET super_image) with Ok s => s | Err _ => SampleSuper.sb end.
Definition g0 : BlockGroup := Eval vm_compute in group_geometry 0 sb (gdt_base_offset sb).
Definition g1 : BlockGroup := Eval vm_compute in group_geometry 1 sb (gdt_base_offset sb).
Definition bitmap (used : Z) (len : Z) : IdBitmap :=
  {| ib_buf := set_bits (zrange 0 used) true (zeros BLOCK_SIZE); first_available_id := used; ib_len := len |}.
Definition md0 : BlockGroupMetadata :=
  clean_md {| block_bitmap_bid := 2; inode_bitmap_bid := 3; inode_table_bid := 4; free_blocks_count := 22; free_inodes_count := 5;
    used_dirs_count := 1; bg_flags := 0; itable_unused := 5 |} (bitmap 10 32) (bitmap 11 16).
Definition md1 : BlockGroupMetadata :=
  clean_md {| block_bitmap_bid := 32; inode_bitmap_bid := 33; inode_table_bid := 34; free_blocks_count := 21; free_inodes_count := 16;
    used_dirs_count := 0; bg_flags := 0; itable_unused := 16 |} (bitmap 3 24) (bitmap 0 16).
Definition table : list byte :=
  desc_patch g1 md1 (desc_patch g0 md0
    (put_le 4 0 2 (put_le 4 4 3 (put_le 4 8 4 (put_le 4 32 32 (put_le 4 36 33 (put_le 4 40 34 (zeros BLOCK_SIZE)))))))).
Definition disk : gmap Z (list byte) :=
  <[0 := super_image]> (<[1 := table]> (<[2 := ib_buf (md_blocks md0)]> (<[3 := ib_buf (md_inodes md0)]>
    (<[32 := ib_buf (md_blocks md1)]> {[ 33 := ib_buf (md_inodes md1) ]})))).
Definition store : op := sample_op (Device disk [] (fun _ => true) (fun _ => true) true).
Definition fs : Ext4 :=
  {| super_block := sb; sb_dirty := false; block_groups := [(g0, md0); (g1, md1)]; fs_nr_inodes_per_group := 16; fs_total_inodes := 32;
     orphan_chain := [] |}.
End SampleVolume.

Lemma sample_volume_super :
  sb_ok SampleVolume.sb /\ sb_try_from (read_at raw_sb_codec SUPER_BLOCK_OFFSET SampleVolume.super_image) = Ok SampleVolume.sb.
Proof.
  assert (E : sb_try_from (read_at raw_sb_codec SUPER_BLOCK_OFFSET SampleVolume.super_image) = Ok SampleVolume.sb) by (vm_compute; reflexivity).
  split; [|exact E]. eapply sb_try_from_ok; [|exact E]. apply read_at_wf; [apply _|done|vm_compute; congruence].
Qed.

Ltac sample_bitmap buf len := apply (from_buf_bitmap buf len); [vm_compute; reflexivity|by vm_compute|vm_compute; reflexivity].

Ltac sample_facts :=
  unfold system_block in *; cbn [SampleVolume.g0 SampleVolume.g1 first_block last_block table_blocks desc_offset bg_desc_size] in *;
  cbn [md_desc SampleVolume.md0 SampleVolume.md1 clean_md block_bitmap_bid inode_bitmap_bid inode_table_bid] in *;
  change (4096 / BLOCK_SIZE) with 1 in *; change (4128 / BLOCK_SIZE) with 1 in *.

Lemma sample_group0_ok : group_ok SampleVolume.g0 SampleVolume.md0.
Proof.
  split.
  - sample_bitmap (ib_buf (md_blocks SampleVolume.md0)) 32.
  - sample_bitmap (ib_buf (md_inodes SampleVolume.md0)) 16.
  - reflexivity.
  - reflexivity.
  - vm_compute. reflexivity.
  - vm_compute. reflexivity.
  - done.
  - done.
  - done.
  - intros b Hs [_ Hf]. assert (b = 2 \/ b = 3 \/ b = 4) as Hb by (sample_facts; lia).
    cbn [SampleVolume.g0 first_block] in Hf. destruct Hb as [->|[->| ->]]; vm_compute in Hf; discriminate Hf.
Qed.

Lemma sample_group1_ok : group_ok SampleVolume.g1 SampleVolume.md1.
Proof.
  split.
  - sample_bitmap (ib_buf (md_blocks SampleVolume.md1)) 24.
  - sample_bitmap (ib_buf (md_inodes SampleVolume.md1)) 16.
  - reflexivity.
  - reflexivity.
  - vm_compute. reflexivity.
  - vm_compute. reflexivity.
  - done.
  - done.
  - done.
  - intros b Hs [_ Hf]. assert (b = 32 \/ b = 33 \/ b = 34) as Hb by (sample_facts; lia).
    cbn [SampleVolume.g1 first_block] in Hf. destruct Hb as [->|[->| ->]]; vm_compute in Hf; discriminate Hf.
Qed.

Lemma sample_groups i g md :
  block_groups SampleVolume.fs !! i = Some (g, md) ->
  (i = 0%nat /\ g = SampleVolume.g0 /\ md = SampleVolume.md0) \/ (i = 1%nat /\ g = SampleVolume.g1 /\ md = SampleVolume.md1).
Proof. cbn [SampleVolume.fs block_groups]. destruct i as [|[|i]]; intros Hi; [left|right|done]; injection Hi as <- <-; done. Qed.

(** The metadata blocks of the sample. *)
Lemma sample_system b : fs_system SampleVolume.fs b <-> b ∈ [0; 1; 2; 3; 4; 32; 33; 34].
Proof.
  rewrite !elem_of_cons, elem_of_nil. unfold fs_system. split.
  - intros [->|(i & g & md & [(-> & -> & ->)|(-> & -> & ->)]%sample_groups & Hb)]; [by left|..]; sample_facts; lia.
  - intros Hb. assert (b = 0 \/ 1 <= b <= 4 \/ 32 <= b <= 34) as [->|[Hr|Hr]] by (destruct_or? Hb; tauto || lia); [by left|right..].
    + exists 0%nat, SampleVolume.g0, SampleVolume.md0. split; [done|]. sample_facts. lia.
    + exists 1%nat, SampleVolume.g1, SampleVolume.md1. split; [done|]. sample_facts. lia.
Qed.

Lemma sample_apart g md g2 md2 :
  (g = SampleVolume.g0 /\ md = SampleVolume.md0 /\ g2 = SampleVolume.g1 /\ md2 = SampleVolume.md1) \/
  (g = SampleVolume.g1 /\ md = SampleVolume.md1 /\ g2 = SampleVolume.g0 /\ md2 = SampleVolume.md0) -> apart g md g2 md2.
Proof. intros [(-> & -> & -> & ->)|(-> & -> & -> & ->)]; split; sample_facts; lia. Qed.

Lemma sample_volume_ok : fs_ok SampleVolume.fs.
Proof.
  split.
  - apply sample_volume_super.
  - reflexivity.
  - intros i g md [(-> & -> & ->)|(-> & -> & ->)]%sample_groups; reflexivity.
  - intros i g md [(-> & -> & ->)|(-> & -> & ->)]%sample_groups; [apply sample_group0_ok|apply sample_group1_ok].
  - reflexivity.
  - reflexivity.
  - intros b Hs (i & g & md & [(-> & -> & ->)|(-> & -> & ->)]%sample_groups & Hr & Hf); apply sample_system in Hs; rewrite !elem_of_cons, elem_of_nil in Hs;
      cbn [SampleVolume.g0 SampleVolume.g1 first_block last_block] in *; destruct_or! Hs; subst; try lia; vm_compute in Hf; discriminate Hf.
  - intros i j g md g2 md2 Hne [(-> & -> & ->)|(-> & -> & ->)]%sample_groups [(-> & -> & ->)|(-> & -> & ->)]%sample_groups; try done; apply sample_apart; tauto.
  - intros i g md b [(-> & -> & ->)|(-> & -> & ->)]%sample_groups Hb; change SUPERBLOCK_BID with 0; sample_facts; lia.
  - reflexivity.
  - reflexivity.
Qed.

Lemma sample_volume_stored : fs_stored SampleVolume.fs SampleVolume.store.
Proof.
  split.
  - exists SampleVolume.super_image. split; [vm_compute; reflexivity|apply sample_volume_super].
  - intros i g md [(-> & -> & ->)|(-> & -> & ->)]%sample_groups;
      (split; [|intros _; vm_compute; reflexivity|intros _; vm_compute; reflexivity|sample_facts; done]);
      exists SampleVolume.table; (split; [vm_compute; reflexivity|]); (split; [vm_compute; reflexivity|]);
      vm_compute; (split; [reflexivity|split; [reflexivity|split; [reflexivity|discriminate]]]).
Qed.

Lemma sample_volume_store : ms_ok SampleVolume.store.
Proof. apply sample_op_ok. vm_decide. Qed.

(** A result of the sample by evaluation, with the state it leaves. *)
Lemma run_result {St A} (m : M St A) st r : (m st).1 = r -> exists st', m st = (r, st').
Proof. intros <-. exists (m st).2. by destruct (m st). Qed.


(** The data blocks of the sample are not metadata. *)
Lemma sample_data b : 5 <= b < 10 -> ~ fs_system SampleVolume.fs b.
Proof. intros Hb Hs%sample_system. rewrite !elem_of_cons, elem_of_nil in Hs. lia. Qed.

Lemma fs_free_exact_witness : exists fs' s',
  fs_free_blocks 5 3 true (SampleVolume.fs, SampleVolume.store) = (Ok tt, (fs', s')) /\
  freed SampleVolume.fs SampleVolume.store 5 8 fs' s'.
Proof.
  destruct (run_result (fs_free_blocks 5 3 true) (SampleVolume.fs, SampleVolume.store) (Ok tt)) as [[fs' s'] E]; [vm_compute; reflexivity|].
  exists fs', s'. split; [exact E|].
  assert (Hns : forall b, 5 <= b < 5 + 3 -> ~ fs_system SampleVolume.fs b) by (intros b Hb; apply sample_data; lia).
  exact (fs_free_exact _ _ 5 3 true _ fs' s' sample_volume_ok sample_volume_stored sample_volume_store ltac:(lia) ltac:(done) ltac:(done) Hns E).
Defined.

(** The sample with its data blocks held. *)
Definition sample_session : session :=
  {| s_fs := SampleVolume.fs; s_store := SampleVolume.store; s_held := [(5, 8); (8, 10)] |}.

Lemma sample_session_ok : session_ok sample_session.
Proof.
  split; cbn [s_fs s_store s_held sample_session].
  - apply sample_volume_ok.
  - apply sample_volume_stored.
  - apply sample_volume_store.
  - intros b. rewrite !holders_cons. unfold in_run. cbn [fst snd holders filter]. repeat case_decide; cbn; lia.
  - intros b. rewrite !holders_cons. unfold in_run. cbn [fst snd]. intros Hh.
    assert (Hb : 5 <= b < 10) by (repeat case_decide; [lia|lia|lia|done]). split_and!; [|by apply sample_data|cbn; lia|cbn; lia].
    intros Hf. assert (Hi : is_free SampleVolume.g0 SampleVolume.md0 b).
    { apply (fs_free_in SampleVolume.fs 0); [apply sample_volume_ok|done|cbn; lia|done]. }
    destruct Hi as [_ Hi]. cbn [SampleVolume.g0 first_block] in Hi.
    assert (b = 5 \/ b = 6 \/ b = 7 \/ b = 8 \/ b = 9) as Hc by lia. destruct_or! Hc; subst; vm_compute in Hi; discriminate Hi.
Qed.

(** Free blocks 5 to 7, then allocate twice. *)
Lemma sample_steps : exists y z,
  session_step sample_session (Free 5 3 true) y /\ session_steps y [Alloc 2 0; Alloc 30 0] z /\ s_held z = [(12, 23); (10, 12); (8, 10)].
Proof.
  destruct (run_result (fs_free_blocks 5 3 true) (SampleVolume.fs, SampleVolume.store) (Ok tt)) as [[fs1 s1] E1]; [vm_compute; reflexivity|].
  assert (E2 : (fs_alloc_blocks 2 0 (fs_free_blocks 5 3 true (SampleVolume.fs, SampleVolume.store)).2).1 = Ok (10, 12)) by (vm_compute; reflexivity).
  assert (E3 : (fs_alloc_blocks 30 0 (fs_alloc_blocks 2 0 (fs_free_blocks 5 3 true (SampleVolume.fs, SampleVolume.store)).2).2).1 = Ok (12, 23))
    by (vm_compute; reflexivity).
  rewrite E1 in E2, E3. cbn [snd] in E2, E3. apply run_result in E2 as [[fs2 s2] E2]. rewrite E2 in E3. cbn [snd] in E3.
  apply run_result in E3 as [[fs3 s3] E3].
  exists {| s_fs := fs1; s_store := s1; s_held := [(8, 10)] |}, {| s_fs := fs3; s_store := s3; s_held := [(12, 23); (10, 12); (8, 10)] |}. split_and!.
  - by apply (Step_free _ _ [] [(8, 10)] 5 8 true).
  - eapply Steps_cons; [apply (Step_alloc _ _ _ 2 0 (10, 12) fs2 s2); [lia|exact E2]|].
    eapply Steps_cons; [apply (Step_alloc _ _ _ 30 0 (12, 23) fs3 s3); [lia|exact E3]|]. constructor.
  - done.
Qed.

Lemma no_block_twice_witness : exists z qs, session_steps sample_session qs z /\ s_held z = [(12, 23); (10, 12); (8, 10)] /\ session_ok z.
Proof.
  destruct sample_steps as (y & z & H1 & H2 & H3). exists z, [Free 5 3 true; Alloc 2 0; Alloc 30 0].
  assert (Hs : session_steps sample_session [Free 5 3 true; Alloc 2 0; Alloc 30 0] z) by (by econstructor).
  split; [exact Hs|]. split; [exact H3|]. exact (no_block_twice sample_session _ z sample_session_ok Hs).
Defined.

Lemma freed_stays_out_witness : exists z : session (S := op), s_held z = [(12, 23); (10, 12); (8, 10)] /\ holders (s_held z) 6 = [].
Proof.
  destruct sample_steps as (y & z & H1 & H2 & H3). exists z. split; [exact H3|].
  apply (freed_stays_out sample_session 5 3 true y [Alloc 2 0; Alloc 30 0] z 6 sample_session_ok H1 H2); [|lia].
  rewrite !elem_of_cons, elem_of_nil. intros [?|[?|[]]]; discriminate.
Defined.


Lemma fs_ino_roundtrip_witness : exists fs1 s1 fs2 s2,
  fs_alloc_ino 2 true (SampleVolume.fs, SampleVolume.store) = (Ok 12, (fs1, s1)) /\ fs_free_inode 12 true (fs1, s1) = (Ok tt, (fs2, s2)) /\
  sb_free_inodes_count (super_block fs2) = 21 /\ fs_ok fs2.
Proof.
  destruct (run_result (fs_alloc_ino 2 true) (SampleVolume.fs, SampleVolume.store) (Ok 12)) as [[fs1 s1] E1]; [vm_compute; reflexivity|].
  assert (E2 : (fs_free_inode 12 true (fs_alloc_ino 2 true (SampleVolume.fs, SampleVolume.store)).2).1 = Ok tt) by (vm_compute; reflexivity).
  rewrite E1 in E2. cbn [snd] in E2. apply run_result in E2 as [[fs2 s2] E2]. exists fs1, s1, fs2, s2. split; [exact E1|]. split; [exact E2|].
  destruct (fs_ino_roundtrip _ _ 2 true 12 fs1 s1 fs2 s2 sample_volume_ok sample_volume_stored sample_volume_store E1 E2) as (_ & _ & H1 & H2 & _).
  split; [exact H1|exact H2].
Defined.

(** A run of three blocks of which the last is past the end of the sample: the
    rounds go on without an error from the store. *)
Example sample_free_past_end : (free_loop 40 true 54 3 (SampleVolume.fs, SampleVolume.store)).1 = Err DIVERGE.
Proof. vm_compute. reflexivity. Qed.

Lemma free_past_end_stuck_witness : is_ok (free_loop 1000 true 56 1 (SampleVolume.fs, SampleVolume.store)).1 = false.
Proof.
  exact (free_past_end_stuck 1000 true 1 SampleVolume.fs SampleVolume.store 1 SampleVolume.g1 SampleVolume.md1 sample_volume_ok eq_refl eq_refl
    ltac:(lia) ltac:(done)).
Defined.

(** One block that waits for its commit hides the free blocks around it: with
    the second group full, freeing block 9 and asking for 30 blocks fails for
    want of space, although the 22 blocks from 10 on are free and only block 9
    is pinned. *)
Example pinned_block_hides_free :
  let st1 := fs_alloc_blocks 21 40 (SampleVolume.fs, SampleVolume.store) in
  let st2 := fs_free_blocks 9 1 true st1.2 in
  let st3 := fs_alloc_blocks 30 0 st2.2 in
  st1.1 = Ok (35, 56) /\ st2.1 = Ok tt /\ st3.1 = Err ENOSPC /\ ms_pinned st2.2.2 = [(9, 1)] /\
  sb_free_blocks_count (super_block st3.2.1) = 23 /\ (fs_alloc_blocks 11 0 st2.2).1 = Ok (20, 31).
Proof. vm_compute. by split_and!. Qed.

(** An allocation that fails on the descriptor is not undone: the run stays
    taken in the bitmap of the running transaction, the counts of the group and
    of the superblock part, and the journal goes on. *)
Example failed_alloc_stays :
  let s := sample_op (Device SampleVolume.disk [] (fun b => negb (b =? 1)) (fun _ => true) true) in
  let st := fs_alloc_blocks 3 0 (SampleVolume.fs, s) in
  st.1 = Err EIO /\ ms_aborted st.2.2 = false /\ ms_read st.2.2 2 = Ok (set_bits (zrange 10 13) true (ib_buf (md_blocks SampleVolume.md0))) /\
  sb_free_blocks_count (super_block st.2.1) = 43 /\ zsum (group_free_blocks <$> block_groups st.2.1) = 40.
Proof. vm_compute. by split_and!. Qed.
