(* ===== verification/Calm.v ===== *)
(** * Allocation never panics

    A weak invariant of the file system that every allocation and every free
    keeps whatever they return, also when the store fails half way and the
    bitmaps in memory and in the store part: each bitmap agrees with its own
    group, and the geometry stands.  From it no call on the allocator panics or
    runs on, so the callers that clean up after an error (in [ExtentTree.v])
    do not either. *)

From S2P Require Import Prelude Pod Checksum JournalFormat Device Bitmap SuperBlock GroupDesc JournalState MetaStore BlockGroup Alloc AllocSpec.

(** ** Computations that keep an invariant *)

Section Sound.
Context {St : Type} (I : St -> Prop) (E : errno -> Prop).

(** [m] keeps [I] whatever it returns; its errors are in [E], its results in
    [Q]. *)
Definition sound {A} (Q : A -> Prop) (m : M St A) : Prop :=
  forall st, I st -> I (m st).2 /\ match (m st).1 with Ok a => Q a | Err e => E e end.

Lemma sound_bind {A B} (Q : A -> Prop) (R : B -> Prop) (m : M St A) (f : A -> M St B) :
  sound Q m -> (forall a, Q a -> sound R (f a)) -> sound R (m ≫= f).
Proof.
  intros Hm Hf st HI. rewrite bind_eq. destruct (Hm st HI) as [H1 H2]. destruct (m st) as [[a|e] st1]; cbn [fst snd] in *; [|done].
  by apply (Hf a).
Qed.

Lemma sound_ret {A} (Q : A -> Prop) a : Q a -> sound Q (mret a).
Proof. by intros HQ st HI. Qed.

Lemma sound_fail {A} (Q : A -> Prop) e : E e -> sound (A := A) Q (fail e).
Proof. by intros He st HI. Qed.

Lemma sound_guard b e : (b = false -> E e) -> sound (fun _ => True) (guard b e).
Proof. intros He. destruct b; [by apply sound_ret|by apply sound_fail, He]. Qed.

Lemma sound_weaken {A} (Q R : A -> Prop) m : (forall a, Q a -> R a) -> sound Q m -> sound R m.
Proof. intros HQ Hm st HI. destruct (Hm st HI) as [H1 H2]. split; [done|]. destruct (m st).1; [by apply HQ|done]. Qed.

(** The state at hand may be looked at first. *)
Lemma sound_at {A} (Q : A -> Prop) m : (forall st, I st -> I (m st).2 /\ match (m st).1 with Ok a => Q a | Err e => E e end) -> sound Q m.
Proof. done. Qed.
End Sound.

(** An operation of the second component. *)
Lemma sound_store {S T A} (J : T -> Prop) (K : S -> Prop) E (Q : A -> Prop) (m : M S A) :
  sound K E Q m -> sound (fun st : T * S => J st.1 /\ K st.2) E Q (on_store m).
Proof. intros Hm [x s] [HJ HK]. rewrite on_store_eq. destruct (Hm s HK) as [H1 H2]. by cbn. Qed.

(** ** The weak invariant *)

Definition harmless (e : errno) : Prop := handled e = true.

(** The geometry of the groups under the superblock [sb0]. *)
Definition group_at (sb0 : SuperBlock) (i : Z) : BlockGroup := group_geometry i sb0 (gdt_base_offset sb0).

Record calm (sb0 : SuperBlock) (fs : Ext4) : Prop := {
  ca_sb : sb_ok (super_block fs);
  ca_static : exists fb fi inc lo, super_block fs = sb_set sb0 fb fi inc lo;
  ca_len : zlen (block_groups fs) = sb_nr_block_groups sb0;
  ca_group i g md : block_groups fs !! i = Some (g, md) -> g = group_at sb0 (Z.of_nat i) /\ group_ok g md /\ bids_distinct g (md_desc md);
}.

Section Calm.
Context {S : Type} `{MetaStoreOk S}.
Implicit Types s : S.

Definition steady (sb0 : SuperBlock) (st : Ext4 * S) : Prop := calm sb0 st.1 /\ ms_ok st.2.

Lemma steady_ok fs s : fs_ok fs -> fs_stored fs s -> ms_ok s -> steady (super_block fs) (fs, s).
Proof.
  intros Hf Hst Hok. split; [|done]. split.
  - apply (fo_sb fs Hf).
  - eexists _, _, _, _. apply sb_set_self.
  - apply (fo_len fs Hf).
  - intros i g md Hi. split; [by apply (fo_geometry fs Hf i g md)|]. split; [by apply (fo_group fs Hf i)|]. apply (fst_group _ _ Hst i g md Hi).
Qed.

(** The spans of the groups tile the volume. *)
Lemma calm_group sb0 fs i : calm sb0 fs -> 0 <= i < sb_nr_block_groups sb0 ->
  group_geometry_ok (group_at sb0 i) /\ sb_first_data_block sb0 <= first_block (group_at sb0 i) /\
  last_block (group_at sb0 i) < sb_blocks_count sb0.
Proof.
  intros [C1 (fb & fi & inc & lo & Esb) C3 C4] Hi. pose proof (so_cover _ C1) as Hc. pose proof (so_bpg _ C1) as Hb.
  rewrite Esb in Hc, Hb, C1. cbn in Hc, Hb. split; [exact (group_geometry_good _ i C1 Hi)|]. cbn [first_block last_block group_at group_geometry].
  destruct (Z.eqb_spec i (sb_nr_block_groups sb0 - 1)); nia.
Qed.

Lemma calm_lookup sb0 fs i : calm sb0 fs -> 0 <= i < sb_nr_block_groups sb0 ->
  exists md, block_groups fs !! Z.to_nat i = Some (group_at sb0 i, md) /\ group_ok (group_at sb0 i) md /\ bids_distinct (group_at sb0 i) (md_desc md).
Proof.
  intros C Hi. destruct (lookup_lt_is_Some_2 (block_groups fs) (Z.to_nat i)) as [[g md] E].
  { pose proof (ca_len _ _ C) as L. unfold zlen in L. lia. }
  destruct (ca_group _ _ C _ _ _ E) as (-> & Hk & Hd). rewrite Z2Nat.id in * by lia. by exists md.
Qed.

(** *** One group *)

Definition group_steady (g : BlockGroup) (st : BlockGroupMetadata * S) : Prop :=
  (group_ok g st.1 /\ bids_distinct g (md_desc st.1)) /\ ms_ok st.2.

(** No operation moves the blocks of the group's metadata. *)
Definition placed (d : BlockGroupDesc) (st : BlockGroupMetadata * S) : Prop := same_places d (md_desc st.1).

Lemma placed_distinct g d md s : placed d (md, s) -> bids_distinct g d -> bids_distinct g (md_desc md).
Proof. intros (E1 & E2 & _). cbn in E1, E2. unfold bids_distinct. by rewrite E1, E2. Qed.

Notation places d := (sound (placed d) (fun _ => True)).

Lemma places_metadata d : places d (fun md => same_places d (md_desc md)) metadata.
Proof. by intros st HI. Qed.

Lemma places_set d md : same_places d (md_desc md) -> places d (fun _ => True) (set_metadata md).
Proof. by intros Hd st HI. Qed.

Lemma places_store {A} d (m : M S A) : places d (fun _ => True) (on_store m).
Proof. intros [md s] HI. rewrite on_store_eq. split; [done|]. by destruct (m s).1. Qed.

Lemma places_lift {A} d (r : result A) : places d (fun _ => True) (lift r).
Proof. intros st HI. by destruct r. Qed.

Ltac places := repeat first
  [ apply sound_ret; done | apply sound_fail; done | apply places_metadata | apply places_store | apply places_lift
  | apply places_set; first [done | by destruct (0 <? _)] | by apply sound_guard
  | eapply sound_bind; [places|intros ?x ?Hx; cbv beta in Hx] ].

Lemma alloc_places d g count sb_free pf : places d (fun _ => True) (alloc_blocks g count sb_free pf).
Proof.
  unfold alloc_blocks, journal_group. places. destruct (search _ _ _ _ _) as [[found b] held]. places. destruct found as [[lo hi]|]; [|case_match; places].
  case_match; places.
Qed.

Lemma free_places d g start_bit end_bit : places d (fun _ => True) (free_blocks g start_bit end_bit).
Proof. unfold free_blocks, journal_group. places. case_match; places. case_match. places. Qed.

Lemma group_alloc_sound g count sb_free pf : group_geometry_ok g -> 0 < count -> 0 < sb_free ->
  sound (group_steady g) harmless
    (fun r => match r with Allocated range => first_block g <= range.1 < range.2 /\ range.2 <= last_block g + 1 | NoFit _ => True end)
    (alloc_blocks g count sb_free pf).
Proof.
  intros Hg Hc Hf [md s] [[Hk Hd] Hok]. cbn [fst snd] in *. destruct (alloc_places (md_desc md) g count sb_free pf (md, s) ltac:(done)) as [Hp _].
  destruct (alloc_blocks g count sb_free pf (md, s)) as [r [md' s']] eqn:E. cbn [fst snd] in *.
  destruct (alloc_blocks_spec g md s _ _ _ _ _ _ Hg Hk Hd Hok Hc Hf E) as (Hk' & Hok' & _ & Post).
  pose proof (placed_distinct g _ _ _ Hp Hd) as Hd'. split; [by split|].
  destruct r as [[[a e]|p]|err]; [|done|apply Post]. cbn [alloc_blocks_post] in Post. destruct Post as (P1 & _ & _ & P4 & _). cbn [fst snd].
  destruct (P4 a ltac:(lia)) as ([? _] & _). destruct (P4 (e - 1) ltac:(lia)) as ([? _] & _). lia.
Qed.

Lemma group_free_sound g start_bit end_bit : group_geometry_ok g -> 0 <= start_bit <= end_bit -> end_bit <= last_block g - first_block g + 1 ->
  sound (group_steady g) harmless (fun n => 0 <= n) (free_blocks g start_bit end_bit).
Proof.
  intros Hg Hb He [md s] [[Hk Hd] Hok]. cbn [fst snd] in *. destruct (free_places (md_desc md) g start_bit end_bit (md, s) ltac:(done)) as [Hp _].
  destruct (free_blocks g start_bit end_bit (md, s)) as [r [md' s']] eqn:E. cbn [fst snd] in *.
  destruct (free_blocks_spec g md s _ _ _ _ _ Hg Hk Hd Hok Hb He E) as (Hk' & Post).
  pose proof (placed_distinct g _ _ _ Hp Hd) as Hd'.
  destruct r as [n|err]; cbn [free_blocks_post] in Post.
  - destruct Post as (Hn & _ & _ & _ & _ & _ & St). split; [|done]. split; [done|]. apply St.
  - destruct Post as [(_ & -> & -> & ->)|[_ P2 P3 _ _]]; [|by split]. split; [|done]. split; [done|]. by apply ms_abort_ok.
Qed.

(** *** The file system *)

Lemma in_group_sound {A} sb0 idx (op : BlockGroup -> M (BlockGroupMetadata * S) A) (Q : A -> Prop) :
  0 <= idx < sb_nr_block_groups sb0 ->
  (group_geometry_ok (group_at sb0 idx) -> sound (group_steady (group_at sb0 idx)) harmless Q (op (group_at sb0 idx))) ->
  sound (steady sb0) harmless Q (in_group idx op).
Proof.
  intros Hidx Hop [fs s] [C Hok]. cbn [fst snd] in *. destruct (calm_lookup sb0 fs idx C Hidx) as (md & E & Hk & Hd).
  destruct (calm_group sb0 fs idx C Hidx) as [Hg _]. unfold in_group. cbn [fst snd]. rewrite E.
  destruct (Hop Hg (md, s)) as [[[H1 H2] H3] H4]; [by split|]. destruct (op _ (md, s)) as [r [md' s']]. cbn [fst snd] in *.
  split; [|done]. split; [|done]. destruct C as [C1 C2 C3 C4]. split; cbn; try done.
  - unfold zlen in *. by rewrite length_insert.
  - intros i g md2 [(<- & [= <- <-] & _)|[_ Hi]]%list_lookup_insert_Some; [|by apply C4]. rewrite Z2Nat.id by lia. by split_and!.
Qed.

Lemma update_super_sound sb0 (f : SuperBlock -> result SuperBlock) :
  (forall sb, sb_ok sb -> match f sb with Ok sb' => sb_ok sb' /\ exists fb fi inc lo, sb' = sb_set sb fb fi inc lo | Err e => handled e = true end) ->
  sound (steady sb0) harmless (fun _ => True) (update_super f).
Proof.
  intros Hf [fs s] [[C1 (fb & fi & inc & lo & Esb) C3 C4] Hok]. cbn [fst snd] in *. unfold update_super. frun. specialize (Hf _ C1).
  destruct (f (super_block fs)) as [sb'|e]; frun; (split; [|done]); (split; [|done]); split; cbn; try done.
  - apply Hf.
  - destruct Hf as (_ & fb' & fi' & inc' & lo' & ->). rewrite Esb. by exists fb', fi', inc', lo'.
  - rewrite Esb. by exists fb, fi, inc, lo.
Qed.

(** A block is accessed and patched. *)
Lemma write_patch_sound b f : (forall img, is_block img -> is_block (f img)) -> sound (ms_ok (S := S)) harmless (fun _ => True) (write_patch b f).
Proof.
  intros Hf s Hok. unfold write_patch. rewrite bind_eq. destruct (ms_write b s) as [[a|e] s1] eqn:E;
    destruct (ms_write_spec _ _ _ _ Hok E) as (Hok1 & _ & _ & _ & Hr); [|done].
  destruct (ms_patch_spec s1 a b f Hok1 Hr Hf) as (img & s2 & _ & -> & Hok2 & _). done.
Qed.

Lemma capture_super_sound sb0 : sound (steady sb0) harmless (fun _ => True) capture_super.
Proof.
  intros [fs s] [C Hok]. cbn [fst snd] in *. unfold capture_super, journal_capture. frun. pose proof (ca_sb _ _ C) as Hsb.
  destruct (write_patch_sound SUPERBLOCK_BID (capture_patch (super_block fs) (sb_last_orphan (super_block fs)))
    ltac:(intros img; apply capture_patch_block; [done|apply (so_orphan _ Hsb)]) s Hok) as [H1 H2].
  unfold write_patch in H1, H2. rewrite bind_eq in H1, H2. destruct (ms_write SUPERBLOCK_BID s) as [[a|e] s1]; frun; [|done].
  split; [|done]. by split.
Qed.

(** *** The allocator *)

Definition in_volume (sb0 : SuperBlock) (range : Z * Z) : Prop :=
  sb_first_data_block sb0 <= range.1 < range.2 /\ range.2 <= sb_blocks_count sb0.

Lemma alloc_ring_sound sb0 goal_group count sb_free pins offsets : forall pb,
  0 < count -> 0 < sb_free -> 0 < sb_nr_block_groups sb0 ->
  sound (steady sb0) harmless (in_volume sb0) (alloc_ring offsets goal_group (sb_nr_block_groups sb0) count sb_free pins pb).
Proof.
  induction offsets as [|off offsets IH]; intros pb Hc Hf Hn st HI; cbn [alloc_ring].
  - destruct st as [fs s]. destruct HI as [C Hok]. cbn in *. destruct pb; [|done]. frun. unfold modify. frun. split; [|done]. split; [done|]. by apply ms_request_spec.
  - pose proof (Z.mod_pos_bound (goal_group + off) _ Hn) as Hidx. destruct (calm_group sb0 st.1 _ (proj1 HI) Hidx) as (_ & G1 & G2). revert st HI.
    eapply sound_bind; [apply in_group_sound; [done|]; intros Hg; by apply group_alloc_sound|]. intros [range|p] HQ; cbv beta iota in HQ; [|by apply IH].
    eapply sound_bind; [apply update_super_sound|intros _ _; eapply sound_bind; [apply capture_super_sound|intros _ _; apply sound_ret; split; lia]].
    intros sb Hsb. pose proof (dec_free_blocks_spec sb (range.2 - range.1) Hsb ltac:(lia)) as Hd.
    destruct (dec_free_blocks sb _) as [sb'|e]; [|by destruct Hd as [-> _]]. destruct Hd as (? & _ & ->). split; [done|]. by eexists _, _, _, _.
Qed.

Lemma fs_alloc_sound sb0 count goal : 0 <= count -> sound (steady sb0) harmless (in_volume sb0) (fs_alloc_blocks count goal).
Proof.
  intros Hc st HI. unfold fs_alloc_blocks. destruct (Z.eqb_spec count 0) as [->|Hne]; [by split|]. destruct st as [fs s]. pose proof HI as [C Hok].
  cbn [fst snd] in *. frun. pose proof (so_free_blocks _ (ca_sb _ _ C)) as Hfb. pose proof (so_groups _ (ca_sb _ _ C)) as Hg.
  destruct (Z.eqb_spec (sb_free_blocks_count (super_block fs)) 0); [by split|]. destruct (ca_static _ _ C) as (fb & fi & inc & lo & Esb).
  rewrite Esb in *. cbn [sb_set sb_free_blocks_count sb_nr_block_groups] in *. apply alloc_ring_sound; [lia..|done].
Qed.

Lemma free_run_sound sb0 idx current n :
  0 <= idx < sb_nr_block_groups sb0 -> 0 < n -> first_block (group_at sb0 idx) <= current -> current + n <= last_block (group_at sb0 idx) + 1 ->
  sound (steady sb0) harmless (fun _ => True) (free_run_in_group idx (current - first_block (group_at sb0 idx)) current n).
Proof.
  intros Hidx Hn Hlo Hhi. unfold free_run_in_group.
  eapply sound_bind; [apply in_group_sound; [done|]; intros Hg; apply group_free_sound; [done|lia|lia]|]. intros freed Hf. cbv beta in Hf.
  eapply (sound_bind _ _ (fun _ => True)).
  { apply sound_store. intros s Hok. destruct (ms_pin_spec s current n Hok Hn) as (s1 & -> & Hok1 & _). done. }
  intros _ _. destruct (0 <? freed); [|by apply sound_ret]. eapply sound_bind; [apply update_super_sound|intros _ _; apply capture_super_sound].
  intros sb Hsb. pose proof (inc_free_blocks_spec sb freed Hsb Hf) as Hd.
  destruct (inc_free_blocks sb _) as [sb'|e]; [|by destruct Hd as [-> _]]. destruct Hd as (? & _ & ->). split; [done|]. by eexists _, _, _, _.
Qed.

Lemma or_abort_sound {A} sb0 (Q : A -> Prop) m : sound (steady sb0) harmless Q m -> sound (steady sb0) harmless Q (or_abort m).
Proof.
  intros Hm st HI. unfold or_abort. destruct (Hm st HI) as [[H1 H2] H3]. destruct (m st) as [[a|e] [fs s]]; cbn [fst snd] in *; [done|].
  split; [|done]. split; [done|]. by apply ms_abort_ok.
Qed.

Lemma free_loop_sound sb0 duty fuel : forall current remaining,
  0 <= remaining <= Z.of_nat fuel -> sb_first_data_block sb0 <= current -> current + remaining <= sb_blocks_count sb0 ->
  sound (steady sb0) harmless (fun _ => True) (free_loop fuel duty current remaining).
Proof.
  induction fuel as [|fuel IH]; intros current remaining Hr Hlo Hhi; cbn [free_loop]; (destruct (Z.leb_spec remaining 0); [by apply sound_ret|lia || idtac]).
  intros [fs s] [C Hok]. cbn [fst snd] in *. frun. destruct (ca_static _ _ C) as (fb & fi & inc & lo & Esb).
  assert (Ef : sb_first_data_block (super_block fs) = sb_first_data_block sb0 /\ sb_nr_blocks_per_group (super_block fs) = sb_nr_blocks_per_group sb0)
    by (by rewrite Esb). destruct Ef as [-> ->]. unfold guard. rewrite (proj2 (Z.leb_le _ _)) by done. frun.
  pose proof (so_bpg _ (ca_sb _ _ C)) as Hb. pose proof (so_cover _ (ca_sb _ _ C)) as Hc. rewrite Esb in Hb, Hc. cbn in Hb, Hc.
  set (idx := _ / _). assert (Hidx : 0 <= idx < sb_nr_block_groups sb0 /\ idx * sb_nr_blocks_per_group sb0 <= current - sb_first_data_block sb0 <
    (idx + 1) * sb_nr_blocks_per_group sb0) by (unfold idx; Z.to_euclidean_division_equations; nia).
  destruct (calm_lookup sb0 fs idx C ltac:(lia)) as (md & -> & _). destruct (calm_group sb0 fs idx C ltac:(lia)) as (Hg & _). set (g := group_at sb0 idx) in *.
  assert (Hspan : first_block g <= current <= last_block g).
  { unfold g. cbn [first_block last_block group_at group_geometry]. destruct (Z.eqb_spec idx (sb_nr_block_groups sb0 - 1)); lia. }
  pose proof (geo_size g Hg) as Hsz. rewrite (group_size_eq g Hg). assert (u32 (current - first_block g) = current - first_block g) as ->.
  { unfold u32. apply wrap_small. unfold fits, capacity, BLOCK_SIZE in *. lia. }
  rewrite (proj2 (Z.leb_le (current - first_block g) _)) by lia. frun. set (n := Z.min remaining _).
  destruct (discharge_run_spec fs s duty current n Hok) as (s1 & -> & Hok1 & _). frun.
  destruct (or_abort_sound _ _ _ (free_run_sound sb0 idx current n ltac:(lia) ltac:(unfold n; lia) ltac:(fold g; lia) ltac:(fold g; unfold n; lia)) (fs, s1))
    as [J1 J2]; [by split|]. fold g in J1, J2. destruct (or_abort _ (fs, s1)) as [[[]|e] st2]; cbn [fst snd] in *; [|done].
  apply IH; [unfold n; lia..|done].
Qed.

Lemma fs_free_sound sb0 start count duty :
  0 <= count -> sb_first_data_block sb0 <= start -> start + count <= sb_blocks_count sb0 ->
  sound (steady sb0) harmless (fun _ => True) (fs_free_blocks start count duty).
Proof. intros Hc H1 H2. unfold fs_free_blocks. destruct (count =? 0); [by apply sound_ret|]. apply free_loop_sound; lia. Qed.
End Calm.
