(* ===== verification/ExtentNode.v ===== *)
(** * Extents and the nodes of the extent tree

    Models [inode/extent_manager/node.rs] and the node-level functions of
    [tree.rs]: the on-disk header, index entry and extent with their decoded
    forms, the layout of a node, the search of one node, and the merge of
    adjacent extents.  A list of extents stands for the partial map from
    logical to physical blocks; the lemmas state what the functions do to it. *)

From stdpp Require Import sorting.
From S2P Require Import Prelude Pod Checksum JournalFormat Bitmap.

(** ** The code: on-disk structures *)

Definition EXTENT_MAGIC : Z := 0xF30A.
Definition MAX_WRITTEN_LEN : Z := 32768.
Definition MAX_UNWRITTEN_LEN : Z := MAX_WRITTEN_LEN - 1.
Definition ENTRY_SIZE : Z := 12.
Definition INLINE_MAX : Z := 4.
Definition LEAF_MAX : Z := (BLOCK_SIZE - ENTRY_SIZE) / ENTRY_SIZE.
Definition INTERIOR_MAX : Z := (BLOCK_SIZE - ENTRY_SIZE) / ENTRY_SIZE.
Definition ROOT_SIZE : Z := 60.

Record RawExtentHeader : Type := { rh_magic : Z; rh_entries : Z; rh_max : Z; rh_depth : Z; rh_generation : Z }.
Definition extent_header_codec : codec RawExtentHeader :=
  struct (fun '(a, (b, (c, (d, e)))) => Build_RawExtentHeader a b c d e)
    (fun r => (rh_magic r, (rh_entries r, (rh_max r, (rh_depth r, rh_generation r)))))
    (le 2 ⊗ le 2 ⊗ le 2 ⊗ le 2 ⊗ le 4)%codec.

Record RawExtentIdx : Type := { rx_block : Z; rx_leaf_lo : Z; rx_leaf_hi : Z; rx_unused : Z }.
Definition extent_idx_codec : codec RawExtentIdx :=
  struct (fun '(a, (b, (c, d))) => Build_RawExtentIdx a b c d)
    (fun r => (rx_block r, (rx_leaf_lo r, (rx_leaf_hi r, rx_unused r))))
    (le 4 ⊗ le 4 ⊗ le 2 ⊗ le 2)%codec.

Record RawExtent : Type := { re_block : Z; re_len : Z; re_start_hi : Z; re_start_lo : Z }.
Definition raw_extent_codec : codec RawExtent :=
  struct (fun '(a, (b, (c, d))) => Build_RawExtent a b c d)
    (fun r => (re_block r, (re_len r, (re_start_hi r, re_start_lo r))))
    (le 4 ⊗ le 2 ⊗ le 2 ⊗ le 4)%codec.

(** ** The code: decoded forms *)

Record ExtentHeader : Type := { eh_entries : Z; eh_max : Z; eh_depth : Z }.

Definition is_leaf (h : ExtentHeader) : bool := eh_depth h =? 0.

Definition from_trusted (raw : RawExtentHeader) : ExtentHeader :=
  {| eh_entries := rh_entries raw; eh_max := rh_max raw; eh_depth := rh_depth raw |}.

(** [ExtentHeader::try_from] *)
Definition header_try_from (raw : RawExtentHeader) : result ExtentHeader :=
  check rh_magic raw =? EXTENT_MAGIC else EUCLEAN in
  check negb (rh_max raw <? rh_entries raw) else EUCLEAN in
  check negb (5 <? rh_depth raw) else EUCLEAN in
  Ok (from_trusted raw).

Record ExtentIdx : Type := { ei_block : Z; ei_leaf : Z }.
Definition idx_from (raw : RawExtentIdx) : ExtentIdx :=
  {| ei_block := rx_block raw; ei_leaf := Z.lor (rx_leaf_lo raw) (Z.shiftl (rx_leaf_hi raw) 32) |}.

Inductive ExtentKind : Type := Written | Unwritten.
#[export] Instance ExtentKind_eq_dec : EqDecision ExtentKind.
Proof. solve_decision. Defined.

Definition is_unwritten_kind (k : ExtentKind) : bool := match k with Unwritten => true | Written => false end.

Record Extent : Type := { e_block : Z; e_len : Z; e_start : Z; e_kind : ExtentKind }.
#[export] Instance Extent_eq_dec : EqDecision Extent.
Proof. solve_decision. Defined.

Definition is_unwritten (e : Extent) : bool := is_unwritten_kind (e_kind e).
Definition covers (e : Extent) (iblock : Z) : bool := (e_block e <=? iblock) && (iblock <? e_block e + e_len e).

(** [From<&RawExtent> for Extent] *)
Definition extent_from (raw : RawExtent) : Extent :=
  let unwritten := MAX_WRITTEN_LEN <? re_len raw in
  {| e_block := re_block raw;
     e_len := if unwritten then re_len raw - MAX_WRITTEN_LEN else re_len raw;
     e_start := Z.lor (re_start_lo raw) (Z.shiftl (re_start_hi raw) 32);
     e_kind := if unwritten then Unwritten else Written |}.

(** [From<&Extent> for RawExtent]; its debug assertions are the bounds under
    which the split is lossless. *)
Definition extent_to_raw (e : Extent) : RawExtent :=
  {| re_block := e_block e;
     re_len := if is_unwritten e then u16 (e_len e + MAX_WRITTEN_LEN) else e_len e;
     re_start_hi := u16 (Z.shiftr (e_start e) 32);
     re_start_lo := u32 (e_start e) |}.

Definition make_index_entry (block child_bid : Z) : RawExtentIdx :=
  {| rx_block := block; rx_leaf_lo := u32 child_bid; rx_leaf_hi := u16 (Z.shiftr child_bid 32); rx_unused := 0 |}.

(** ** The code: nodes *)

Definition node_header (bytes : list byte) : RawExtentHeader := read_at extent_header_codec 0 bytes.
Definition entry_off (i : Z) : Z := ENTRY_SIZE * (1 + i).

Definition leaf_entries (nr : Z) (bytes : list byte) : list Extent :=
  map (fun i => extent_from (read_at raw_extent_codec (entry_off i) bytes)) (zrange 0 nr).
Definition index_entries (nr : Z) (bytes : list byte) : list ExtentIdx :=
  map (fun i => idx_from (read_at extent_idx_codec (entry_off i) bytes)) (zrange 0 nr).

(** The outcome of searching one node. *)
Inductive Step : Type :=
  | Found (e : Extent)
  | Hole
  | Descend (bid : Z).

(** The scan of the sorted entries, which stops at the first one past
    [iblock]. *)
Fixpoint last_at_or_below {A} (key : A -> Z) (iblock : Z) (l : list A) (best : option A) : option A :=
  match l with
  | [] => best
  | e :: l => if key e <=? iblock then last_at_or_below key iblock l (Some e) else best
  end.

(** [search_entries] *)
Definition search_entries (header : ExtentHeader) (bytes : list byte) (iblock : Z) : result Step :=
  let nr := eh_entries header in
  check negb (zlen bytes <? entry_off nr) else EUCLEAN in
  if is_leaf header then
    match last_at_or_below e_block iblock (leaf_entries nr bytes) None with
    | Some e => if covers e iblock then Ok (Found e) else Ok Hole
    | None => Ok Hole
    end
  else
    match last_at_or_below ei_block iblock (index_entries nr bytes) None with
    | Some idx => Ok (Descend (ei_leaf idx))
    | None => Ok Hole
    end.

(** [search_node] *)
Definition search_node (bytes : list byte) (iblock : Z) : result Step :=
  let? header := header_try_from (node_header bytes) in
  search_entries header bytes iblock.

(** [parse_leaf_node] *)
Definition parse_leaf_node (block : list byte) : result (list Extent) :=
  let? header := header_try_from (node_header block) in
  check is_leaf header else EUCLEAN in
  check negb (zlen block <? entry_off (eh_entries header)) else EUCLEAN in
  Ok (leaf_entries (eh_entries header) block).

(** [parse_interior_node] *)
Definition parse_interior_node (block : list byte) : result (list Z) :=
  let? header := header_try_from (node_header block) in
  check negb (is_leaf header || negb (eh_depth header =? 1)) else EUCLEAN in
  check negb (zlen block <? entry_off (eh_entries header)) else EUCLEAN in
  Ok (ei_leaf <$> index_entries (eh_entries header) block).

(** A node of [size] bytes: the header, then the entries, then zeros. *)
Fixpoint put_entries {A} (c : codec A) (i : Z) (l : list A) (block : list byte) : list byte :=
  match l with
  | [] => block
  | e :: l => put_entries c (i + 1) l (write_at c (entry_off i) e block)
  end.

Definition build_node {A} (c : codec A) (size max depth : Z) (l : list A) : list byte :=
  put_entries c 0 l
    (write_at extent_header_codec 0
       {| rh_magic := EXTENT_MAGIC; rh_entries := u16 (zlen l); rh_max := u16 max; rh_depth := depth; rh_generation := 0 |}
       (zeros size)).

Definition EXTENT_TAIL_OFFSET : Z := ENTRY_SIZE * (1 + LEAF_MAX).

(** [stamp_extent_tail] *)
Definition stamp_extent_tail (seed : InodeCsumSeed) (block : list byte) : list byte :=
  put_le 4 EXTENT_TAIL_OFFSET (crc32c (inode_seed seed) (slice 0 EXTENT_TAIL_OFFSET block)) block.

Definition stamp_tail (csum_seed : option InodeCsumSeed) (block : list byte) : list byte :=
  match csum_seed with Some seed => stamp_extent_tail seed block | None => block end.

(** The block of [write_leaf_node] and of [write_interior_node]. *)
Definition leaf_node (csum_seed : option InodeCsumSeed) (l : list Extent) : list byte :=
  stamp_tail csum_seed (build_node raw_extent_codec BLOCK_SIZE LEAF_MAX 0 (extent_to_raw <$> l)).
Definition interior_node (csum_seed : option InodeCsumSeed) (l : list RawExtentIdx) : list byte :=
  stamp_tail csum_seed (build_node extent_idx_codec BLOCK_SIZE INTERIOR_MAX 1 l).

(** [write_inline_leaf_root] and [write_index_root] *)
Definition inline_leaf_root (l : list Extent) : list byte := build_node raw_extent_codec ROOT_SIZE INLINE_MAX 0 (extent_to_raw <$> l).
Definition index_root (l : list RawExtentIdx) (depth : Z) : list byte := build_node extent_idx_codec ROOT_SIZE INLINE_MAX depth l.

(** [ExtentTree::empty] as bytes. *)
Definition empty_root : list byte := put_le 4 4 INLINE_MAX (put_le 4 0 EXTENT_MAGIC (zeros ROOT_SIZE)).

(** ** The code: merging *)

(** [sort_by_key], which is stable. *)
Fixpoint insert_by {A} (key : A -> Z) (x : A) (l : list A) : list A :=
  match l with
  | [] => [x]
  | y :: l => if key x <=? key y then x :: y :: l else y :: insert_by key x l
  end.
Definition sort_by_key {A} (key : A -> Z) (l : list A) : list A := foldr (insert_by key) [] l.

Definition max_len (e : Extent) : Z := if is_unwritten e then MAX_WRITTEN_LEN - 1 else MAX_WRITTEN_LEN.

Definition contiguous (last e : Extent) : bool :=
  (e_block last + e_len last =? e_block e) && (e_start last + e_len last =? e_start e) &&
  Bool.eqb (is_unwritten last) (is_unwritten e) && (e_len last + e_len e <=? max_len last).

Definition join (last e : Extent) : Extent :=
  {| e_block := e_block last; e_len := e_len last + e_len e; e_start := e_start last; e_kind := e_kind last |}.

(** The loop of [merge_extents]: [last] is the last of the merged list. *)
Fixpoint merge_from (last : Extent) (l : list Extent) : list Extent :=
  match l with
  | [] => [last]
  | e :: l => if contiguous last e then merge_from (join last e) l else last :: merge_from e l
  end.

(** [merge_extents] *)
Definition merge_extents (l : list Extent) : list Extent :=
  match sort_by_key e_block l with [] => [] | e :: l => merge_from e l end.

#[global] Arguments build_node : simpl never.
#[global] Arguments stamp_extent_tail : simpl never.

(** ** What a list of extents means *)

(** The physical block and the kind of a logical block. *)
Definition e_map (e : Extent) (b : Z) : option (Z * ExtentKind) :=
  if covers e b then Some (e_start e + (b - e_block e), e_kind e) else None.
Fixpoint ext_map (l : list Extent) (b : Z) : option (Z * ExtentKind) :=
  match l with
  | [] => None
  | e :: l => match e_map e b with Some p => Some p | None => ext_map l b end
  end.

(** An extent the disk format can hold. *)
Record ext_ok (e : Extent) : Prop := {
  xo_block : 0 <= e_block e;
  xo_len : 0 < e_len e <= max_len e;
  xo_end : e_block e + e_len e < 2 ^ 32;
  xo_start : 0 <= e_start e /\ e_start e + e_len e <= 2 ^ 48;
}.

(** Sorted extents that do not overlap. *)
Definition before (e e' : Extent) : Prop := e_block e + e_len e <= e_block e'.
Record exts_ok (l : list Extent) : Prop := {
  eo_each : Forall ext_ok l;
  eo_sorted : StronglySorted before l;
}.

(** ** Lemmas: codecs *)

#[export] Instance extent_header_codec_ok : CodecOk extent_header_codec.
Proof. struct_codec. Qed.
#[export] Instance extent_idx_codec_ok : CodecOk extent_idx_codec.
Proof. struct_codec. Qed.
#[export] Instance raw_extent_codec_ok : CodecOk raw_extent_codec.
Proof. struct_codec. Qed.

Lemma u16_fits' z : fits 16 (u16 z).
Proof. by apply wrap_fits. Qed.
Lemma u32_fits' z : fits 32 (u32 z).
Proof. by apply wrap_fits. Qed.

(** The two halves of a 48-bit block number. *)
Lemma split48 z : fits 48 z -> Z.lor (u32 z) (Z.shiftl (u16 (Z.shiftr z 32)) 32) = z.
Proof. by apply (lor_halves_split 32 16). Qed.

Lemma extent_raw_wf e : ext_ok e -> c_wf raw_extent_codec (extent_to_raw e).
Proof.
  intros [B L E S]. pose proof (u16_fits' (Z.shiftr (e_start e) 32)). pose proof (u32_fits' (e_start e)).
  pose proof (u16_fits' (e_len e + MAX_WRITTEN_LEN)). unfold max_len, MAX_WRITTEN_LEN in *.
  cbn -[fits u16 u32]. change (Z.of_nat 4 * 8) with 32. change (Z.of_nat 2 * 8) with 16.
  split; [unfold fits; lia|]. split; [|done]. destruct (is_unwritten e); [done|]. unfold fits. lia.
Qed.

Lemma extent_roundtrip e : ext_ok e -> extent_from (extent_to_raw e) = e.
Proof.
  intros [B L E S]. unfold extent_from, extent_to_raw. cbn [re_block re_len re_start_lo re_start_hi]. rewrite split48 by (unfold fits; lia).
  unfold max_len, is_unwritten, MAX_WRITTEN_LEN in *. destruct e as [b l s k]. cbn [e_block e_len e_start e_kind] in *.
  destruct k; cbn [is_unwritten_kind] in *.
  - destruct (Z.ltb_spec 32768 l); [lia|done].
  - unfold u16. rewrite wrap_small by (unfold fits; lia). rewrite (proj2 (Z.ltb_lt _ _)) by lia. f_equal. lia.
Qed.

Lemma index_entry_wf b c : fits 32 b -> c_wf extent_idx_codec (make_index_entry b c).
Proof.
  intros Hb. pose proof (u16_fits' (Z.shiftr c 32)). pose proof (u32_fits' c). cbn -[fits u16 u32].
  change (Z.of_nat 4 * 8) with 32. change (Z.of_nat 2 * 8) with 16. done.
Qed.

Lemma index_roundtrip b c : fits 48 c -> idx_from (make_index_entry b c) = {| ei_block := b; ei_leaf := c |}.
Proof. intros Hc. unfold idx_from, make_index_entry. cbn [rx_block rx_leaf_lo rx_leaf_hi]. by rewrite split48. Qed.

(** ** Lemmas: reading a node back *)

(** A table by index is the list it was made from. *)
Lemma map_zrange {A} (f : Z -> A) (l : list A) : (forall j e, l !! j = Some e -> f (Z.of_nat j) = e) -> map f (zrange 0 (zlen l)) = l.
Proof.
  intros Hf. unfold zrange. rewrite map_map. apply list_eq. intros j. change (map ?g ?x) with (g <$> x).
  rewrite list_lookup_fmap. unfold zlen. rewrite Z.sub_0_r, Nat2Z.id. destruct (l !! j) as [e|] eqn:Ej.
  - rewrite lookup_seq_lt by (by eapply lookup_lt_Some). cbn. f_equal. by apply Hf.
  - rewrite lookup_seq_ge by (by apply lookup_ge_None). done.
Qed.

Section Nodes.
Context {A : Type} (c : codec A) `{!CodecOk c}.
Hypothesis Hsize : c_size c = ENTRY_SIZE.

Lemma put_entries_len l : forall i block,
  0 <= i -> Forall (c_wf c) l -> entry_off (i + zlen l) <= zlen block -> zlen (put_entries c i l block) = zlen block.
Proof.
  induction l as [|e l IH]; intros i block Hi Hl Hs; cbn [put_entries]; [done|]. apply Forall_cons in Hl as [He Hl]. rewrite zlen_cons in Hs.
  pose proof (zlen_nonneg l). unfold entry_off, ENTRY_SIZE in *.
  rewrite IH, zlen_write_at; rewrite ?zlen_write_at; try done; rewrite ?Hsize; unfold entry_off, ENTRY_SIZE; try lia.
Qed.

(** What lies before the entries stays. *)
Lemma put_entries_before o n l : forall i block,
  0 <= o -> o + n <= entry_off i -> 0 <= i -> Forall (c_wf c) l -> entry_off (i + zlen l) <= zlen block ->
  slice o n (put_entries c i l block) = slice o n block.
Proof.
  induction l as [|e l IH]; intros i block Ho Hn Hi Hl Hs; cbn [put_entries]; [done|]. apply Forall_cons in Hl as [He Hl]. rewrite zlen_cons in Hs.
  pose proof (zlen_nonneg l). unfold entry_off, ENTRY_SIZE in *.
  rewrite IH; rewrite ?zlen_write_at; try done; rewrite ?Hsize; unfold entry_off, ENTRY_SIZE; try lia.
  apply slice_write_other; try done; rewrite ?Hsize; unfold ENTRY_SIZE; lia.
Qed.

Lemma put_entries_read l : forall i block j e,
  0 <= i -> Forall (c_wf c) l -> entry_off (i + zlen l) <= zlen block -> l !! j = Some e ->
  read_at c (entry_off (i + Z.of_nat j)) (put_entries c i l block) = e.
Proof.
  induction l as [|x l IH]; intros i block j e Hi Hl Hs Hj; [done|]. cbn [put_entries]. apply Forall_cons in Hl as [Hx Hl]. rewrite zlen_cons in Hs.
  pose proof (zlen_nonneg l). assert (Hw : zlen (write_at c (entry_off i) x block) = zlen block).
  { apply zlen_write_at; try done; rewrite ?Hsize; unfold entry_off, ENTRY_SIZE in *; lia. }
  destruct j as [|j]; cbn in Hj.
  - injection Hj as ->. rewrite Z.add_0_r. unfold read_at. rewrite put_entries_before.
    + apply read_write_same; try done; rewrite ?Hsize; unfold entry_off, ENTRY_SIZE in *; lia.
    + unfold entry_off, ENTRY_SIZE. lia.
    + rewrite Hsize. unfold entry_off, ENTRY_SIZE. lia.
    + lia.
    + done.
    + rewrite Hw. unfold entry_off, ENTRY_SIZE in *. lia.
  - replace (i + Z.of_nat (S j)) with (i + 1 + Z.of_nat j) by lia. apply IH; try done; [lia|]. rewrite Hw. unfold entry_off in *. lia.
Qed.

Lemma build_node_spec size max depth l :
  Forall (c_wf c) l -> entry_off (zlen l) <= size -> fits 16 (zlen l) -> fits 16 max -> fits 16 depth ->
  zlen (build_node c size max depth l) = size /\
  node_header (build_node c size max depth l) =
    {| rh_magic := EXTENT_MAGIC; rh_entries := zlen l; rh_max := max; rh_depth := depth; rh_generation := 0 |} /\
  map (fun i => read_at c (entry_off i) (build_node c size max depth l)) (zrange 0 (zlen l)) = l.
Proof.
  intros Hl Hs Hn Hm Hd. pose proof (zlen_nonneg l). unfold build_node. set (hdr := Build_RawExtentHeader _ _ _ _ _).
  assert (Hh : c_wf extent_header_codec hdr).
  { cbn -[fits]. change (Z.of_nat 4 * 8) with 32. change (Z.of_nat 2 * 8) with 16. split_and!; try done; apply u16_fits'. }
  assert (Hhs : c_size extent_header_codec = 12) by reflexivity.
  assert (Hsz : 12 <= size) by (unfold entry_off, ENTRY_SIZE in Hs; lia).
  assert (Hw : zlen (write_at extent_header_codec 0 hdr (zeros size)) = size).
  { rewrite zlen_write_at; [by rewrite zlen_zeros by lia|apply _|lia|rewrite zlen_zeros, Hhs by lia; lia|done]. }
  split_and!.
  - by rewrite put_entries_len by (done || (rewrite Hw; exact Hs)).
  - unfold node_header, read_at. rewrite Hhs, put_entries_before by (done || (rewrite Hw; exact Hs)). rewrite <- Hhs.
    etransitivity; [apply (read_write_same extent_header_codec 0 hdr (zeros size)); [lia|rewrite zlen_zeros, Hhs by lia; lia|done]|].
    unfold hdr. f_equal; by apply wrap_small.
  - apply map_zrange. intros j e Hj. by apply (put_entries_read l 0); rewrite ?Hw.
Qed.
End Nodes.

(** The tail does not reach the entries. *)
Lemma stamp_tail_spec seed block : is_block block ->
  is_block (stamp_tail seed block) /\ (forall o n, 0 <= o -> o + n <= EXTENT_TAIL_OFFSET -> slice o n (stamp_tail seed block) = slice o n block).
Proof.
  intros Hb. unfold is_block, BLOCK_SIZE in *. destruct seed as [seed|]; [|done].
  cbn [stamp_tail]. unfold stamp_extent_tail. change EXTENT_TAIL_OFFSET with 4092. split; [by rewrite zlen_put_le by lia|].
  intros o n Ho Hn. unfold put_le. apply slice_splice_other; len.
Qed.

Lemma node_bounds n : 0 <= n <= LEAF_MAX -> entry_off n <= EXTENT_TAIL_OFFSET /\ entry_off n <= BLOCK_SIZE /\ fits 16 n.
Proof. unfold entry_off, EXTENT_TAIL_OFFSET, LEAF_MAX, ENTRY_SIZE, BLOCK_SIZE, fits. change ((4096 - 12) / 12) with 340. lia. Qed.

(** A full-block node as its readers see it. *)
Lemma stamped_node {A} (c : codec A) `{!CodecOk c} seed max depth l :
  c_size c = ENTRY_SIZE -> Forall (c_wf c) l -> zlen l <= LEAF_MAX -> fits 16 max -> fits 16 depth ->
  let block := stamp_tail seed (build_node c BLOCK_SIZE max depth l) in
  is_block block /\
  node_header block = {| rh_magic := EXTENT_MAGIC; rh_entries := zlen l; rh_max := max; rh_depth := depth; rh_generation := 0 |} /\
  map (fun i => read_at c (entry_off i) block) (zrange 0 (zlen l)) = l.
Proof.
  intros Hc Hl Hn Hm Hd block. pose proof (zlen_nonneg l). destruct (node_bounds (zlen l) ltac:(lia)) as (B1 & B2 & B3).
  destruct (build_node_spec c Hc BLOCK_SIZE max depth l Hl B2 B3 Hm Hd) as (P1 & P2 & P3).
  destruct (stamp_tail_spec seed _ P1) as (Q1 & Q2). split; [done|]. split.
  - rewrite <- P2. unfold node_header, read_at. f_equal. apply Q2; [done|]. by vm_compute.
  - etransitivity; [|exact P3]. apply map_ext_in. intros i Hi. apply list_elem_of_In, elem_of_zrange in Hi. unfold read_at. f_equal. apply Q2.
    + unfold entry_off, ENTRY_SIZE. lia.
    + rewrite Hc. unfold entry_off, ENTRY_SIZE in *. lia.
Qed.

Lemma leaf_node_parses seed l :
  Forall ext_ok l -> zlen l <= LEAF_MAX -> is_block (leaf_node seed l) /\ parse_leaf_node (leaf_node seed l) = Ok l /\
  (forall b, search_node (leaf_node seed l) b =
     match last_at_or_below e_block b l None with
     | Some e => if covers e b then Ok (Found e) else Ok Hole
     | None => Ok Hole
     end).
Proof.
  intros Hl Hn. pose proof (zlen_nonneg l). destruct (node_bounds (zlen l) ltac:(lia)) as (B1 & B2 & B3).
  assert (Hz : zlen (extent_to_raw <$> l) = zlen l) by (unfold zlen; by rewrite length_fmap).
  destruct (stamped_node raw_extent_codec seed LEAF_MAX 0 (extent_to_raw <$> l) eq_refl) as (P1 & P2 & P3); rewrite ?Hz; try done.
  { apply Forall_fmap. eapply Forall_impl; [exact Hl|]. apply extent_raw_wf. }
  rewrite Hz in P2, P3. fold (leaf_node seed l) in P1, P2, P3. split; [done|].
  assert (Hh : header_try_from (node_header (leaf_node seed l)) = Ok {| eh_entries := zlen l; eh_max := LEAF_MAX; eh_depth := 0 |}).
  { rewrite P2. unfold header_try_from. cbn [rh_magic rh_max rh_entries rh_depth]. rewrite (proj2 (Z.ltb_ge _ _)) by lia. done. }
  assert (He : leaf_entries (zlen l) (leaf_node seed l) = l).
  { unfold leaf_entries. rewrite <- (map_map (fun i => read_at raw_extent_codec (entry_off i) (leaf_node seed l)) extent_from).
    rewrite P3. change (map ?f ?x) with (f <$> x). rewrite <- list_fmap_compose. rewrite <- (list_fmap_id l) at 2. apply list_fmap_ext. intros j e Hj.
    apply extent_roundtrip. by eapply Forall_lookup_1 in Hl. }
  assert (Hb : (zlen (leaf_node seed l) <? entry_off (zlen l)) = false) by (apply Z.ltb_ge; unfold is_block in P1; lia).
  unfold parse_leaf_node, search_node. rewrite Hh. cbn [rbind is_leaf eh_depth Z.eqb]. unfold search_entries. cbn [eh_entries is_leaf eh_depth Z.eqb].
  by rewrite Hb, He.
Qed.

(** The scan commutes with a map that keeps the keys. *)
Lemma last_at_or_below_map {A B} (g : A -> B) (ka : A -> Z) (kb : B -> Z) b l : (forall x, kb (g x) = ka x) -> forall best,
  last_at_or_below kb b (g <$> l) (g <$> best) = g <$> last_at_or_below ka b l best.
Proof. intros Hk. induction l as [|x l IH]; intros best; [done|]. cbn [fmap list_fmap last_at_or_below]. rewrite Hk. destruct (ka x <=? b); [|done]. apply (IH (Some x)). Qed.

(** An index node over the children [l], pairs of first block and location. *)
Definition idx_pairs (l : list (Z * Z)) : list RawExtentIdx := (fun p => make_index_entry p.1 p.2) <$> l.
Definition idx_of (p : Z * Z) : ExtentIdx := {| ei_block := p.1; ei_leaf := p.2 |}.
Definition idx_ok (p : Z * Z) : Prop := fits 32 p.1 /\ fits 48 p.2.

Lemma index_entries_read nr block l :
  nr = zlen l -> Forall idx_ok l -> map (fun i => read_at extent_idx_codec (entry_off i) block) (zrange 0 nr) = idx_pairs l ->
  index_entries nr block = idx_of <$> l.
Proof.
  intros -> Hl P3. unfold index_entries. rewrite <- (map_map (fun i => read_at extent_idx_codec (entry_off i) block) idx_from).
  rewrite P3. change (map ?f ?x) with (f <$> x). unfold idx_pairs. rewrite <- list_fmap_compose. apply list_fmap_ext. intros j p Hj.
  eapply Forall_lookup_1 in Hl as [H1 H2]; [|exact Hj]. by apply index_roundtrip.
Qed.

Lemma interior_node_parses seed l :
  Forall idx_ok l -> zlen l <= INTERIOR_MAX -> let block := interior_node seed (idx_pairs l) in
  is_block block /\ parse_interior_node block = Ok (l.*2) /\
  (forall b, search_node block b = match last_at_or_below fst b l None with Some p => Ok (Descend p.2) | None => Ok Hole end).
Proof.
  intros Hl Hn block. pose proof (zlen_nonneg l). destruct (node_bounds (zlen l) ltac:(unfold LEAF_MAX, INTERIOR_MAX in *; lia)) as (B1 & B2 & B3).
  assert (Hz : zlen (idx_pairs l) = zlen l) by (unfold zlen, idx_pairs; by rewrite length_fmap).
  destruct (stamped_node extent_idx_codec seed INTERIOR_MAX 1 (idx_pairs l) eq_refl) as (P1 & P2 & P3); rewrite ?Hz; try done.
  { apply Forall_fmap. eapply Forall_impl; [exact Hl|]. intros p [H1 H2]. by apply index_entry_wf. }
  rewrite Hz in P2, P3. fold (interior_node seed (idx_pairs l)) in P1, P2, P3. fold block in P1, P2, P3. split; [done|].
  assert (Hh : header_try_from (node_header block) = Ok {| eh_entries := zlen l; eh_max := INTERIOR_MAX; eh_depth := 1 |}).
  { rewrite P2. unfold header_try_from. cbn [rh_magic rh_max rh_entries rh_depth]. rewrite (proj2 (Z.ltb_ge _ _)) by lia. done. }
  pose proof (index_entries_read _ _ l eq_refl Hl P3) as He.
  assert (Hb : (zlen block <? entry_off (zlen l)) = false) by (apply Z.ltb_ge; unfold is_block in P1; lia).
  unfold parse_interior_node, search_node. rewrite Hh. cbn [rbind is_leaf eh_depth Z.eqb Pos.eqb orb negb]. unfold search_entries. cbn [eh_entries is_leaf eh_depth Z.eqb].
  rewrite Hb, He. cbn [negb]. split; [by rewrite <- list_fmap_compose|]. intros b.
  pose proof (last_at_or_below_map idx_of fst ei_block b l (fun _ => eq_refl) None) as E. cbn [fmap option_fmap option_map] in E. rewrite E. by destruct (last_at_or_below fst b l None).
Qed.
