(* ===== verification/Credits.v ===== *)
(** * Credit estimates

    Models the [*_credits] methods of [fs.rs]: how many metadata blocks an
    operation asks the journal to reserve, from the geometry of the volume. *)

From S2P Require Import Prelude SuperBlock Alloc.

(** ** The code *)

Definition SUPERBLOCK_CREDITS : Z := 1.
Definition INODE_DESC_CREDITS : Z := 1.
Definition DIR_DEPTH_CEIL : Z := 2.
Definition FSYNC_CREDITS : Z := 4.
Definition SETATTR_CREDITS : Z := INODE_DESC_CREDITS + 1.

Section Credits.
Variable fs : Ext4.

Definition nr_gdt_blocks : Z :=
  let descriptors_per_block := Z.max (sb_block_size (super_block fs) / sb_desc_size (super_block fs)) 1 in
  div_ceil (sb_nr_block_groups (super_block fs)) descriptors_per_block.
Definition nr_groups : Z := sb_nr_block_groups (super_block fs).

Definition map_credits (pextents depth : Z) : Z :=
  let idx := if pextents <=? 1 then 2 * (depth + 1) else 3 * (depth + 1) in
  let touched := idx + pextents in
  idx + Z.min touched nr_groups + Z.min touched nr_gdt_blocks.

Definition single_block_map_credits (depth : Z) : Z := map_credits 1 depth.

Definition create_credits : Z :=
  let new_inode := 1 + INODE_DESC_CREDITS + 1 + SUPERBLOCK_CREDITS in
  let parent := single_block_map_credits DIR_DEPTH_CEIL + INODE_DESC_CREDITS in
  new_inode + parent.

Definition unlink_credits : Z := 1 + INODE_DESC_CREDITS + INODE_DESC_CREDITS + SUPERBLOCK_CREDITS.

Definition link_credits : Z := single_block_map_credits DIR_DEPTH_CEIL + INODE_DESC_CREDITS + INODE_DESC_CREDITS.

Definition rename_credits : Z :=
  let old_dir := 1 + INODE_DESC_CREDITS in
  let new_dir := single_block_map_credits DIR_DEPTH_CEIL + INODE_DESC_CREDITS in
  let moved := INODE_DESC_CREDITS in
  let displaced := INODE_DESC_CREDITS + SUPERBLOCK_CREDITS in
  old_dir + new_dir + moved + displaced.

Definition write_credits (depth : Z) : Z := single_block_map_credits depth + SUPERBLOCK_CREDITS + INODE_DESC_CREDITS.

Definition reserialize_credits (external_nodes : Z) : Z :=
  let touched := external_nodes + 1 in
  external_nodes + Z.min touched nr_groups + Z.min touched nr_gdt_blocks + SUPERBLOCK_CREDITS.

Definition chunk_insert_credits (external_nodes : Z) : Z := reserialize_credits external_nodes + INODE_DESC_CREDITS.

Definition truncate_credits (depth : Z) : Z := single_block_map_credits depth + SUPERBLOCK_CREDITS + INODE_DESC_CREDITS.

Definition extent_free_credits : Z := 1 + 1 + 1.

Definition truncate_chunk_credits (external_nodes : Z) : Z := reserialize_credits external_nodes + INODE_DESC_CREDITS.

Definition whole_truncate_credit_bound (external_nodes freed_extents revoke_entries_per_block : Z) : Z :=
  let bitmaps := Z.min freed_extents nr_groups in
  let gdt := Z.min freed_extents nr_gdt_blocks in
  let revoke_blocks := div_ceil external_nodes (Z.max revoke_entries_per_block 1) in
  reserialize_credits external_nodes + bitmaps + gdt + revoke_blocks + INODE_DESC_CREDITS.

Definition reclaim_credits (depth : Z) : Z :=
  let free_blocks := single_block_map_credits depth in
  let free_inode := 1 + INODE_DESC_CREDITS + 1 in
  let orphan := INODE_DESC_CREDITS in
  free_blocks + free_inode + orphan + SUPERBLOCK_CREDITS.
End Credits.

(** ** Lemmas *)

(** A smaller tree needs no more credits. *)
Lemma truncate_chunk_credits_mono fs n m : n <= m -> truncate_chunk_credits fs n <= truncate_chunk_credits fs m.
Proof. unfold truncate_chunk_credits, reserialize_credits. lia. Qed.
