(* ===== verification/ExtentMap.v ===== *)
(** * Lists of extents as block maps

    The steps of the extent tree that work on its flattened list of extents:
    planning the holes of a range, turning unwritten extents into written
    ones, and splitting the extents that a truncation or a punched hole
    doom.  Each is related to the map a list stands for and to the physical
    blocks it names. *)

From stdpp Require Import sorting.
From S2P Require Import Prelude Pod Checksum JournalFormat Bitmap Alloc AllocSpec ExtentNode.

(** ** The code *)

Definition e_end (e : Extent) : Z := e_block e + e_len e.

Definition mk_extent (block len start : Z) (kind : ExtentKind) : Extent :=
  {| e_block := block; e_len := len; e_start := start; e_kind := kind |}.

(** The overlap test of [convert_unwritten] and the body of its loop. *)
Definition to_convert (range_start range_end : Z) (e : Extent) : bool :=
  is_unwritten e && (e_block e <? range_end) && (range_start <? e_end e).

Definition convert_one (range_start range_end : Z) (e : Extent) : list Extent :=
  if negb (is_unwritten e) || (e_end e <=? range_start) || (range_end <=? e_block e) then [e]
  else
    let ov_start := Z.max (e_block e) range_start in
    let ov_end := u32 (Z.min (e_end e) range_end) in
    (if e_block e <? ov_start then [mk_extent (e_block e) (u16 (ov_start - e_block e)) (e_start e) Unwritten] else []) ++
    [mk_extent ov_start (u16 (ov_end - ov_start)) (e_start e + (ov_start - e_block e)) Written] ++
    (if ov_end <? e_end e then [mk_extent ov_end (u16 (e_end e - ov_end)) (e_start e + (ov_end - e_block e)) Unwritten] else []).

Definition convert_extents (range_start range_end : Z) (l : list Extent) : list Extent :=
  concat (convert_one range_start range_end <$> l).

(** The three classes of [truncate_chunk]. *)
Definition keeps (keep_blocks : Z) (e : Extent) : bool := e_end e <=? keep_blocks.
Definition straddles (keep_blocks : Z) (e : Extent) : bool := (e_block e <? keep_blocks) && (keep_blocks <? e_end e).
Definition dooms (keep_blocks : Z) (e : Extent) : bool := keep_blocks <=? e_block e.

(** [sort_by_key(|e| Reverse(e.block()))] *)
Definition sort_reverse (l : list Extent) : list Extent := sort_by_key (fun e => - e_block e) l.

(** The decomposition of one extent in [punch_chunk]: what is kept and what is
    doomed. *)
Definition punch_one (start_block end_block : Z) (e : Extent) : list Extent * list Extent :=
  if (e_end e <=? start_block) || (end_block <=? e_block e) then ([e], [])
  else
    let ov_start := Z.max (e_block e) start_block in
    let ov_end := Z.min (e_end e) end_block in
    ((if e_block e <? start_block then [mk_extent (e_block e) (u16 (start_block - e_block e)) (e_start e) (e_kind e)] else []) ++
     (if end_block <? e_end e
      then [mk_extent end_block (u16 (e_end e - end_block)) (e_start e + (end_block - e_block e)) (e_kind e)] else []),
     [mk_extent ov_start (u16 (ov_end - ov_start)) (e_start e + (ov_start - e_block e)) (e_kind e)]).

Definition punch_split (start_block end_block : Z) (l : list Extent) : list Extent * list Extent :=
  (concat (fst <$> (punch_one start_block end_block <$> l)), concat (snd <$> (punch_one start_block end_block <$> l))).

(** [compute_holes]: the loop over the sorted extents, from [cursor]. *)
Fixpoint holes_from (extents : list Extent) (cursor stop : Z) : result (list (Z * Z)) :=
  match extents with
  | [] => Ok (if cursor <? stop then [(cursor, stop)] else [])
  | e :: extents =>
      check e_end e <? 2 ^ 32 else PANIC in
      if e_end e <=? cursor then holes_from extents cursor stop
      else if stop <=? e_block e then Ok (if cursor <? stop then [(cursor, stop)] else [])
      else
        let hole := if cursor <? e_block e then [(cursor, Z.min (e_block e) stop)] else [] in
        let cursor := Z.max cursor (e_end e) in
        if stop <=? cursor then Ok hole
        else let? rest := holes_from extents cursor stop in Ok (hole ++ rest)
  end.

Definition compute_holes (extents : list Extent) (start stop : Z) : result (list (Z * Z)) := holes_from extents start stop.

(** ** Counting who covers a block *)

Definition covering (l : list Extent) (b : Z) : list Extent := filter (fun e => covers e b) l.

(** No logical block is covered twice. *)
Definition once (l : list Extent) : Prop := forall b, (length (covering l b) <= 1)%nat.

(** The physical runs of a list. *)
Definition run_of (e : Extent) : Z * Z := (e_start e, e_start e + e_len e).
Definition runs_of (l : list Extent) : list (Z * Z) := run_of <$> l.
Definition owners (l : list Extent) (p : Z) : nat := length (holders (runs_of l) p).

(** The number of data blocks. *)
Definition data_blocks (l : list Extent) : Z := zsum (e_len <$> l).

Lemma data_blocks_app l k : data_blocks (l ++ k) = data_blocks l + data_blocks k.
Proof. unfold data_blocks. by rewrite fmap_app, zsum_app. Qed.
Lemma data_blocks_cons e l : data_blocks (e :: l) = e_len e + data_blocks l.
Proof. done. Qed.
Lemma data_blocks_perm l k : l ≡ₚ k -> data_blocks l = data_blocks k.
Proof. induction 1; rewrite ?data_blocks_cons; lia. Qed.

Definition one_if (P : Prop) `{Decision P} : nat := if decide P then 1%nat else 0%nat.

Lemma covers_spec e b : covers e b = true <-> e_block e <= b < e_end e.
Proof. unfold covers, e_end. rewrite andb_true_iff, Z.leb_le, Z.ltb_lt. done. Qed.

Lemma e_map_Some e b p : e_map e b = Some p <-> e_block e <= b < e_end e /\ p = (e_start e + (b - e_block e), e_kind e).
Proof. unfold e_map. rewrite <- covers_spec. destruct (covers e b); naive_solver. Qed.

Lemma e_map_None e b : e_map e b = None <-> ~ (e_block e <= b < e_end e).
Proof. unfold e_map. rewrite <- covers_spec. destruct (covers e b); naive_solver. Qed.

Lemma covering_app l k b : covering (l ++ k) b = covering l b ++ covering k b.
Proof. apply filter_app. Qed.

Lemma covering_perm l k b : l ≡ₚ k -> length (covering l b) = length (covering k b).
Proof. intros H. unfold covering. by rewrite H. Qed.

Lemma elem_of_covering l b e : e ∈ covering l b <-> e_block e <= b < e_end e /\ e ∈ l.
Proof. unfold covering. rewrite list_elem_of_filter, Is_true_true, covers_spec. tauto. Qed.

Lemma owners_app l k p : owners (l ++ k) p = (owners l p + owners k p)%nat.
Proof. unfold owners, runs_of, holders. by rewrite fmap_app, filter_app, length_app. Qed.

Lemma owners_perm l k p : l ≡ₚ k -> owners l p = owners k p.
Proof. intros H. unfold owners, holders, runs_of. by rewrite H. Qed.

Lemma owners_cons e l p : owners (e :: l) p = (one_if (e_start e <= p < e_start e + e_len e)%Z + owners l p)%nat.
Proof. unfold owners, runs_of. cbn [fmap list_fmap]. rewrite holders_cons. unfold one_if. repeat case_decide; unfold in_run in *; cbn in *; tauto. Qed.

Lemma covering_cons e l b :
  length (covering (e :: l) b) = (one_if (e_block e <= b < e_end e)%Z + length (covering l b))%nat.
Proof.
  unfold covering, one_if. rewrite filter_cons. repeat case_decide; try done; rewrite Is_true_true, covers_spec in *; tauto.
Qed.

(** ** The map and the order *)

Lemma ext_map_elem l b p : once l -> ext_map l b = Some p <-> exists e, e ∈ l /\ e_map e b = Some p.
Proof.
  induction l as [|e l IH]; intros Ho; cbn [ext_map]; [set_solver|].
  assert (Ho' : once l) by (intros c; specialize (Ho c); rewrite covering_cons in Ho; lia). specialize (IH Ho').
  destruct (e_map e b) as [q|] eqn:Ee.
  - split; [intros [= <-]; exists e; set_solver|]. intros (f & [->|Hf]%elem_of_cons & Ef); [congruence|].
    specialize (Ho b). rewrite covering_cons in Ho. apply e_map_Some in Ee as [Hc _]. apply e_map_Some in Ef as [Hc' _].
    unfold one_if in Ho. rewrite decide_True in Ho by done. assert (f ∈ covering l b) as Hin by (by apply elem_of_covering).
    destruct (covering l b); [set_solver|cbn in Ho; lia].
  - rewrite IH. split; [intros (f & ? & ?); exists f; set_solver|]. intros (f & [->|Hf]%elem_of_cons & Ef); [congruence|by exists f].
Qed.

Lemma once_unique l b e f : once l -> e ∈ covering l b -> f ∈ covering l b -> e = f.
Proof. intros Ho. specialize (Ho b). destruct (covering l b) as [|x [|y k]]; [set_solver|set_solver|cbn in Ho; lia]. Qed.

Lemma ext_map_perm l k b : once l -> l ≡ₚ k -> ext_map l b = ext_map k b.
Proof.
  intros Ho Hp. apply option_eq. intros p. rewrite (ext_map_elem l b p Ho), ext_map_elem.
  - setoid_rewrite Hp. done.
  - intros c. rewrite <- (covering_perm l k c Hp). apply Ho.
Qed.

Lemma ext_map_app l k b : ext_map (l ++ k) b = match ext_map l b with Some p => Some p | None => ext_map k b end.
Proof. induction l as [|e l IH]; cbn [app ext_map]; [done|]. destruct (e_map e b); done. Qed.

Lemma ext_map_None l b : ext_map l b = None <-> covering l b = [].
Proof.
  induction l as [|e l IH]; cbn [ext_map]; [done|]. unfold covering in *. rewrite filter_cons. unfold e_map.
  destruct (covers e b); by case_decide.
Qed.

Definition key_le (e f : Extent) : Prop := e_block e <= e_block f.

(** [sort_by_key] *)
Lemma insert_by_perm {A} (key : A -> Z) x l : insert_by key x l ≡ₚ x :: l.
Proof. induction l as [|y l IH]; cbn; [done|]. destruct (key x <=? key y); [done|]. rewrite IH. constructor. Qed.
Lemma sort_by_perm {A} (key : A -> Z) l : sort_by_key key l ≡ₚ l.
Proof. unfold sort_by_key. induction l as [|x l IH]; cbn; [done|]. by rewrite insert_by_perm, IH. Qed.

Lemma insert_by_sorted {A} (key : A -> Z) x l :
  StronglySorted (fun a b => key a <= key b) l -> StronglySorted (fun a b => key a <= key b) (insert_by key x l).
Proof.
  induction 1 as [|y l Hl IH Hy]; cbn; [by repeat constructor|]. destruct (Z.leb_spec (key x) (key y)).
  - constructor; [by constructor|]. constructor; [done|]. eapply Forall_impl; [exact Hy|]. cbn. lia.
  - constructor; [done|]. rewrite insert_by_perm. constructor; [lia|done].
Qed.
Lemma sort_by_sorted {A} (key : A -> Z) l : StronglySorted (fun a b => key a <= key b) (sort_by_key key l).
Proof. unfold sort_by_key. induction l as [|x l IH]; cbn; [constructor|by apply insert_by_sorted]. Qed.

(** Sorted lists that cover no block twice do not overlap. *)
Lemma sorted_once l : Forall ext_ok l -> StronglySorted key_le l -> once l -> exts_ok l.
Proof.
  intros He Hs Ho. split; [done|]. induction Hs as [|e l Hs IH Hk]; [constructor|]. apply Forall_cons in He as [He Hl].
  assert (Ho' : once l) by (intros c; specialize (Ho c); rewrite covering_cons in Ho; lia). constructor; [by apply IH|].
  rewrite Forall_forall in *. intros f Hf. unfold before. destruct (decide (e_block e + e_len e <= e_block f)) as [|Hlt]; [done|exfalso].
  specialize (Ho (e_block f)). rewrite covering_cons in Ho. specialize (Hk f Hf). unfold key_le in Hk. pose proof (xo_len f (Hl f Hf)).
  unfold one_if in Ho. rewrite decide_True in Ho by (unfold e_end; lia).
  assert (f ∈ covering l (e_block f)) by (apply elem_of_covering; unfold e_end; split; [lia|done]).
  destruct (covering l (e_block f)); [set_solver|cbn in Ho; lia].
Qed.

Lemma before_covering e l b : Forall (before e) l -> e_block e <= b < e_end e -> covering l b = [].
Proof.
  intros Hf Hb. apply ext_map_None. induction Hf as [|f l Hf Hl IH]; [done|]. cbn. unfold before, e_end in *.
  destruct (e_map f b) as [p|] eqn:E; [|done]. apply e_map_Some in E. lia.
Qed.

Lemma exts_ok_once l : exts_ok l -> once l.
Proof.
  intros [He Hs] b. induction Hs as [|e l Hs IH Hb]; [cbn; lia|]. apply Forall_cons in He as [He Hl]. specialize (IH Hl).
  rewrite covering_cons. unfold one_if. case_decide; [|lia]. rewrite (before_covering e l b) by done. cbn. lia.
Qed.

(** ** Searching *)

Definition find_cover (l : list Extent) (b : Z) : option Extent :=
  match last_at_or_below e_block b l None with Some e => if covers e b then Some e else None | None => None end.

(** The scan keeps the last entry that starts at or before the block. *)
Lemma last_at_or_below_sorted {A} (key : A -> Z) b l best :
  StronglySorted (fun x y => key x < key y) l ->
  match last_at_or_below key b l best with
  | Some x => (x ∈ l /\ key x <= b /\ forall y, y ∈ l -> key y <= b -> key y <= key x) \/ (best = Some x /\ forall y, y ∈ l -> b < key y)
  | None => best = None /\ forall y, y ∈ l -> b < key y
  end.
Proof.
  intros Hs. revert best. induction Hs as [|x l Hs IH Hx]; intros best; cbn [last_at_or_below].
  - destruct best; [right|]; set_solver.
  - rewrite Forall_forall in Hx. destruct (Z.leb_spec (key x) b) as [Hb|Hb].
    + specialize (IH (Some x)). destruct (last_at_or_below key b l (Some x)) as [y|]; [|by destruct IH].
      destruct IH as [(H1 & H2 & H3)|(E & H1)].
      * left. split; [set_solver|]. split; [done|]. intros z [->|Hz]%elem_of_cons Hk; [specialize (Hx y H1); lia|by apply H3].
      * injection E as <-. left. split; [set_solver|]. split; [done|]. intros z [->|Hz]%elem_of_cons Hk; [lia|specialize (H1 z Hz); lia].
    + assert (Hall : forall y, y ∈ x :: l -> b < key y).
      { intros y [->|Hy]%elem_of_cons; [done|]. specialize (Hx y Hy). lia. }
      destruct best; [right|]; done.
Qed.

Lemma exts_ok_keys l : exts_ok l -> StronglySorted (fun e f => e_block e < e_block f) l.
Proof.
  intros [He Hs]. induction Hs as [|e l Hs IH Hb]; [constructor|]. apply Forall_cons in He as [He Hl]. constructor; [by apply IH|].
  pose proof (xo_len e He). eapply Forall_impl; [exact Hb|]. unfold before. intros f. lia.
Qed.

Lemma search_extents l b : exts_ok l ->
  match find_cover l b with Some e => e ∈ l /\ covers e b = true /\ ext_map l b = e_map e b | None => ext_map l b = None end.
Proof.
  intros Hl. pose proof (last_at_or_below_sorted e_block b l None (exts_ok_keys l Hl)) as H. unfold find_cover.
  assert (Hnone : (forall e, e ∈ l -> ~ (e_block e <= b < e_end e)) -> ext_map l b = None).
  { intros Hn. apply ext_map_None. destruct (covering l b) as [|e k] eqn:E; [done|]. assert (e ∈ covering l b) as Hin by (rewrite E; left).
    apply elem_of_covering in Hin as [Hc Hin]. by destruct (Hn e Hin). }
  destruct (last_at_or_below e_block b l None) as [e|].
  - destruct H as [(H1 & H2 & H3)|[? _]]; [|done]. destruct (covers e b) eqn:Ec.
    + split_and!; try done. unfold e_map. rewrite Ec. apply ext_map_elem; [by apply exts_ok_once|]. exists e. split; [done|]. unfold e_map. by rewrite Ec.
    + apply Hnone. intros f Hf Hc. specialize (H3 f Hf ltac:(lia)). pose proof (Forall_forall ext_ok l) as [Hall _].
      pose proof (xo_len e (Hall (eo_each l Hl) e H1)). assert (e = f) as ->; [|apply covers_spec in Hc; congruence].
      apply (once_unique l (e_block e)); [by apply exts_ok_once|apply elem_of_covering; unfold e_end in *; split; [lia|done]..].
  - destruct H as [_ H]. apply Hnone. intros f Hf Hc. specialize (H f Hf). lia.
Qed.

(** ** Merging *)

Lemma contiguous_spec e f : contiguous e f = true ->
  e_block f = e_end e /\ e_start f = e_start e + e_len e /\ e_kind e = e_kind f /\ e_len e + e_len f <= max_len e.
Proof.
  unfold contiguous, is_unwritten, e_end. rewrite !andb_true_iff, !Z.eqb_eq, Z.leb_le. intros (((H1 & H2) & H3) & H4).
  split_and!; try done. by destruct (e_kind e), (e_kind f).
Qed.

Lemma join_spec e f : ext_ok e -> ext_ok f -> contiguous e f = true ->
  ext_ok (join e f) /\ (forall l, StronglySorted before (e :: f :: l) -> StronglySorted before (join e f :: l)) /\
  (forall b, e_map (join e f) b = match e_map e b with Some p => Some p | None => e_map f b end) /\
  (forall l p, owners (join e f :: l) p = owners (e :: f :: l) p) /\
  (forall l, data_blocks (join e f :: l) = data_blocks (e :: f :: l)).
Proof.
  intros [B1 L1 E1 S1] [B2 L2 E2 S2] (Hb & Hs & Hk & Hm)%contiguous_spec. unfold e_end in *.
  split_and!.
  - split; cbn [e_block e_len e_start join]; try lia. unfold max_len, is_unwritten in *. cbn. lia.
  - intros l Hso. apply StronglySorted_inv in Hso as [Hso _]. apply StronglySorted_inv in Hso as [Hso Hf]. constructor; [done|].
    eapply Forall_impl; [exact Hf|]. unfold before. cbn. intros g. lia.
  - intros b. unfold e_map. unfold covers. cbn [join e_block e_len e_start e_kind].
    destruct (Z.leb_spec (e_block e) b), (Z.ltb_spec b (e_block e + e_len e)), (Z.ltb_spec b (e_block e + (e_len e + e_len f))), (Z.leb_spec (e_block f) b),
      (Z.ltb_spec b (e_block f + e_len f)); cbn; try lia; try done; f_equal; f_equal; try done; lia.
  - intros l p. rewrite !owners_cons. unfold one_if. cbn [join e_start e_len]. repeat case_decide; lia.
  - intros l. rewrite !data_blocks_cons. cbn [join e_len]. lia.
Qed.

Lemma merge_from_spec l : forall e, exts_ok (e :: l) ->
  exts_ok (merge_from e l) /\ (forall b, ext_map (merge_from e l) b = ext_map (e :: l) b) /\
  (forall p, owners (merge_from e l) p = owners (e :: l) p) /\ (length (merge_from e l) <= length (e :: l))%nat /\
  (forall g, Forall (before g) (e :: l) -> Forall (before g) (merge_from e l)) /\ data_blocks (merge_from e l) = data_blocks (e :: l).
Proof.
  induction l as [|f l IH]; intros e Hl; cbn [merge_from]; [done|]. destruct Hl as [He Hs].
  apply Forall_cons in He as [He Hfl]. pose proof Hfl as [Hf Hl]%Forall_cons. destruct (contiguous e f) eqn:Ec.
  - destruct (join_spec e f He Hf Ec) as (J1 & J2 & J3 & J4 & J5). destruct (IH (join e f)) as (P1 & P2 & P3 & P4 & P5 & P6).
    { split; [by constructor|by apply J2]. }
    split_and!; [done| | |cbn in *; lia| |by rewrite P6, J5].
    + intros b. rewrite P2. cbn [ext_map]. rewrite J3. by destruct (e_map e b).
    + intros p. by rewrite P3, J4.
    + intros g Hg. apply P5. apply Forall_cons in Hg as [G1 G2]. apply Forall_cons in G2 as [G2 G3]. by constructor.
  - apply StronglySorted_inv in Hs as [Hs Hb]. destruct (IH f) as (P1 & P2 & P3 & P4 & P5 & P6); [by split|].
    split_and!; [| | | | |by rewrite (data_blocks_cons e), P6].
    + split; [constructor; [done|apply P1]|]. constructor; [apply P1|by apply P5].
    + intros b. cbn [ext_map] in *. by rewrite P2.
    + intros p. rewrite owners_cons, P3. by rewrite (owners_cons e).
    + cbn in *. lia.
    + intros g Hg. apply Forall_cons in Hg as [G1 G2]. constructor; [done|by apply P5].
Qed.

Lemma sort_exts_ok l : Forall ext_ok l -> once l -> exts_ok (sort_by_key e_block l).
Proof.
  intros Hl Ho. pose proof (sort_by_perm e_block l) as Hp. apply sorted_once.
  - by rewrite Hp.
  - apply sort_by_sorted.
  - intros b. rewrite (covering_perm _ l b Hp). apply Ho.
Qed.

(** The merge changes neither the map nor the blocks. *)
Lemma merge_extents_spec l : Forall ext_ok l -> once l ->
  exts_ok (merge_extents l) /\ (forall b, ext_map (merge_extents l) b = ext_map l b) /\
  (forall p, owners (merge_extents l) p = owners l p) /\ (length (merge_extents l) <= length l)%nat /\
  data_blocks (merge_extents l) = data_blocks l.
Proof.
  intros Hl Ho. pose proof (sort_exts_ok l Hl Ho) as Hs. pose proof (sort_by_perm e_block l) as Hp. unfold merge_extents.
  destruct (sort_by_key e_block l) as [|e k] eqn:E.
  - apply Permutation_nil_l in Hp as <-. done.
  - destruct (merge_from_spec k e Hs) as (P1 & P2 & P3 & P4 & _ & P6). split_and!; [done| | | |rewrite P6; by apply data_blocks_perm].
    + intros b. rewrite P2. symmetry. by apply ext_map_perm.
    + intros p. rewrite P3. by apply owners_perm.
    + apply Permutation_length in Hp. lia.
Qed.

(** ** Splitting *)

(** The pieces [l] of an extent [e]: they cover what it covers, at the same
    physical blocks. *)
Record pieces (e : Extent) (l : list Extent) : Prop := {
  pc_ok : Forall ext_ok l;
  pc_cover b : length (covering l b) = one_if (e_block e <= b < e_end e);
  pc_owners p : owners l p = one_if (e_start e <= p < e_start e + e_len e);
  pc_len : data_blocks l = e_len e;
}.

(** Decides counts of extents over a block. *)
Ltac count := cbn [app]; rewrite ?covering_cons, ?owners_cons; unfold one_if, covering, owners, runs_of, holders, e_end, mk_extent;
  cbn [e_block e_len e_start e_kind fmap list_fmap length filter list_filter]; repeat case_decide; lia.

Lemma e_map_mk blk len st k b :
  e_map (mk_extent blk len st k) b = if (blk <=? b) && (b <? blk + len) then Some (st + (b - blk), k) else None.
Proof. done. Qed.

(** Splits the boolean tests of the goal. *)
Ltac cases := repeat match goal with
  | |- context [?a <=? ?b] => destruct (Z.leb_spec a b)
  | |- context [?a <? ?b] => destruct (Z.ltb_spec a b)
  end; cbn [andb orb negb]; try lia; try done.

(** A part of an extent. *)
Lemma sub_extent_ok e blk len st k :
  ext_ok e -> e_block e <= blk -> 0 < len -> blk + len <= e_block e + e_len e -> st = e_start e + (blk - e_block e) ->
  k = e_kind e \/ e_kind e = Unwritten -> ext_ok (mk_extent blk len st k).
Proof.
  intros [B L E S] H1 H2 H3 -> Hk. split; cbn [mk_extent e_block e_len e_start]; try lia.
  unfold max_len, is_unwritten, MAX_WRITTEN_LEN in *. cbn in *. destruct Hk as [->|Hk]; [lia|]. rewrite Hk in L. destruct k; cbn in *; lia.
Qed.

Definition converted (rs re : Z) (b : Z) (p : option (Z * ExtentKind)) : option (Z * ExtentKind) :=
  match p with
  | Some (phys, Unwritten) => if (rs <=? b) && (b <? re) then Some (phys, Written) else p
  | _ => p
  end.

Lemma convert_one_spec rs re e : ext_ok e -> 0 <= rs < re ->
  pieces e (convert_one rs re e) /\ (forall b, ext_map (convert_one rs re e) b = converted rs re b (e_map e b)).
Proof.
  intros Hok Hr. pose proof Hok as [B L E S]. unfold convert_one.
  destruct (negb (is_unwritten e) || (e_end e <=? rs) || (re <=? e_block e)) eqn:Eo.
  { split; [split; [by constructor|intros; count|intros; count|rewrite data_blocks_cons; cbn; lia]|]. intros b. cbn [ext_map]. destruct (e_map e b) as [[q k]|] eqn:Em; [|done].
    apply e_map_Some in Em as [Hb [= -> ->]]. unfold converted, is_unwritten in *. destruct (e_kind e); [done|]. cbn in Eo.
    rewrite orb_true_iff, !Z.leb_le in Eo. by cases. }
  rewrite !orb_false_iff, negb_false_iff, !Z.leb_gt in Eo. destruct Eo as ((Ek & E1) & E2). unfold e_end, u32, u16 in *.
  rewrite (wrap_small 32 (Z.min _ _)) by (unfold fits; lia). unfold max_len, is_unwritten, MAX_WRITTEN_LEN in *.
  destruct (e_kind e) eqn:Ekk; [done|]. cbn in L. rewrite !(wrap_small 16) by (unfold fits; lia).
  set (ov_start := Z.max (e_block e) rs). set (ov_end := Z.min (e_block e + e_len e) re).
  assert (Hov : e_block e <= ov_start < ov_end /\ ov_end <= e_block e + e_len e) by lia.
  split; [split|].
  - destruct (e_block e <? ov_start) eqn:C1, (ov_end <? e_block e + e_len e) eqn:C2; repeat constructor; apply (sub_extent_ok e); first [done|lia|by left|by right].
  - intros b. destruct (Z.ltb_spec (e_block e) ov_start), (Z.ltb_spec ov_end (e_block e + e_len e)); count.
  - intros p. destruct (Z.ltb_spec (e_block e) ov_start), (Z.ltb_spec ov_end (e_block e + e_len e)); count.
  - destruct (Z.ltb_spec (e_block e) ov_start), (Z.ltb_spec ov_end (e_block e + e_len e)); cbn; lia.
  - intros b. replace (e_map e b) with (e_map (mk_extent (e_block e) (e_len e) (e_start e) Unwritten) b) by (by destruct e; cbn in Ekk; rewrite Ekk).
    rewrite e_map_mk. unfold converted. destruct (Z.ltb_spec (e_block e) ov_start), (Z.ltb_spec ov_end (e_block e + e_len e));
    cbn [app ext_map]; rewrite ?e_map_mk; cases; f_equal; f_equal; lia.
Qed.

Lemma pieces_concat (f : Extent -> list Extent) l :
  Forall ext_ok l -> (forall e, ext_ok e -> pieces e (f e)) ->
  Forall ext_ok (concat (f <$> l)) /\ (forall b, length (covering (concat (f <$> l)) b) = length (covering l b)) /\
  (forall p, owners (concat (f <$> l)) p = owners l p) /\ data_blocks (concat (f <$> l)) = data_blocks l.
Proof.
  intros Hl Hf. induction Hl as [|e l He Hl IH]; cbn [fmap list_fmap concat]; [by split_and!|].
  destruct IH as (I1 & I2 & I3 & I4). destruct (Hf e He) as [P1 P2 P3 P4]. split_and!.
  - by apply Forall_app.
  - intros b. by rewrite covering_app, length_app, covering_cons, P2, I2.
  - intros p. by rewrite owners_app, owners_cons, P3, I3.
  - by rewrite data_blocks_app, data_blocks_cons, P4, I4.
Qed.

(** The conversion of a list. *)
Lemma convert_extents_spec rs re l : Forall ext_ok l -> once l -> 0 <= rs < re ->
  Forall ext_ok (convert_extents rs re l) /\ once (convert_extents rs re l) /\
  (forall p, owners (convert_extents rs re l) p = owners l p) /\
  (forall b, ext_map (convert_extents rs re l) b = converted rs re b (ext_map l b)) /\
  data_blocks (convert_extents rs re l) = data_blocks l.
Proof.
  intros Hl Ho Hr. destruct (pieces_concat (convert_one rs re) l Hl) as (P1 & P2 & P3 & P4).
  { intros e He. by apply convert_one_spec. }
  split_and!; [done|intros b; unfold convert_extents; by rewrite P2|done| |done]. intros b. unfold convert_extents. clear P1 P2 P3 P4 Ho.
  induction Hl as [|e l He Hl IH]; cbn [fmap list_fmap concat ext_map]; [done|].
  rewrite ext_map_app, IH, (proj2 (convert_one_spec rs re e He Hr)). unfold converted. repeat case_match; by simplify_eq.
Qed.

(** Nothing to convert leaves the map as it is. *)
Lemma nothing_to_convert rs re l b : existsb (to_convert rs re) l = false -> converted rs re b (ext_map l b) = ext_map l b.
Proof.
  induction l as [|e l IH]; cbn [existsb ext_map]; [done|]. rewrite orb_false_iff. intros [H1 H2]. specialize (IH H2).
  destruct (e_map e b) as [[p k]|] eqn:E; [|done]. apply e_map_Some in E as [Hb [= -> ->]]. unfold converted, to_convert, is_unwritten in *.
  destruct (e_kind e); [done|]. cbn in H1. rewrite andb_false_iff, !Z.ltb_ge in H1. by cases.
Qed.

(** *** Punching *)

Definition in_range (a e b : Z) : bool := (a <=? b) && (b <? e).

Lemma punch_one_spec s e x : ext_ok x -> 0 <= s < e ->
  let (kept, doomed) := punch_one s e x in
  pieces x (kept ++ doomed) /\ (forall b, ext_map kept b = if in_range s e b then None else e_map x b) /\
  (forall b, ext_map doomed b = if in_range s e b then e_map x b else None).
Proof.
  intros Hok Hr. pose proof Hok as [B L E S]. unfold punch_one, e_end, in_range.
  destruct ((e_block x + e_len x <=? s) || (e <=? e_block x)) eqn:Eo.
  { rewrite orb_true_iff, !Z.leb_le in Eo. split_and!; [split; [by constructor|intros; count|intros; count|cbn; lia]|..];
      intros b; cbn [ext_map]; destruct (e_map x b) as [[q k]|] eqn:Em; try (apply e_map_Some in Em as [Hb ?]; unfold e_end in Hb); by cases. }
  rewrite orb_false_iff, !Z.leb_gt in Eo. unfold u16, max_len, MAX_WRITTEN_LEN in *.
  assert (Hl : e_len x <= 32768) by (destruct (is_unwritten x); lia).
  set (ov_start := Z.max (e_block x) s). set (ov_end := Z.min (e_block x + e_len x) e).
  assert (Hov : e_block x <= ov_start < ov_end /\ ov_end <= e_block x + e_len x) by lia.
  rewrite (wrap_small 16 (ov_end - _)) by (unfold fits; lia).
  replace (if e_block x <? s then [mk_extent _ (wrap 16 _) _ _] else []) with
    (if e_block x <? s then [mk_extent (e_block x) (s - e_block x) (e_start x) (e_kind x)] else [])
    by (destruct (Z.ltb_spec (e_block x) s); [by rewrite wrap_small by (unfold fits; lia)|done]).
  replace (if e <? e_block x + e_len x then [mk_extent _ (wrap 16 _) _ _] else []) with
    (if e <? e_block x + e_len x then [mk_extent e (e_block x + e_len x - e) (e_start x + (e - e_block x)) (e_kind x)] else [])
    by (destruct (Z.ltb_spec e (e_block x + e_len x)); [by rewrite wrap_small by (unfold fits; lia)|done]).
  split_and!; [split|..].
  - destruct (Z.ltb_spec (e_block x) s), (Z.ltb_spec e (e_block x + e_len x)); repeat constructor; apply (sub_extent_ok x); first [done|lia|by left].
  - intros b. destruct (Z.ltb_spec (e_block x) s), (Z.ltb_spec e (e_block x + e_len x)); count.
  - intros b. destruct (Z.ltb_spec (e_block x) s), (Z.ltb_spec e (e_block x + e_len x)); count.
  - destruct (Z.ltb_spec (e_block x) s), (Z.ltb_spec e (e_block x + e_len x)); cbn; lia.
  - intros b. replace (e_map x b) with (e_map (mk_extent (e_block x) (e_len x) (e_start x) (e_kind x)) b) by (by destruct x).
    destruct (Z.ltb_spec (e_block x) s), (Z.ltb_spec e (e_block x + e_len x)); cbn [app ext_map]; rewrite ?e_map_mk; cases; f_equal; f_equal; lia.
  - intros b. replace (e_map x b) with (e_map (mk_extent (e_block x) (e_len x) (e_start x) (e_kind x)) b) by (by destruct x).
    cbn [ext_map]; rewrite !e_map_mk; cases; f_equal; f_equal; lia.
Qed.

Lemma concat_pair_perm {A B} (f : A -> list B * list B) (l : list A) :
  concat (fst <$> (f <$> l)) ++ concat (snd <$> (f <$> l)) ≡ₚ concat ((fun x => (f x).1 ++ (f x).2) <$> l).
Proof.
  induction l as [|x l IH]; cbn [fmap list_fmap concat app]; [done|]. rewrite <- IH. rewrite <- !app_assoc. apply Permutation_app_head.
  rewrite !app_assoc. apply Permutation_app_tail, Permutation_app_comm.
Qed.

Lemma punch_split_spec s e l : Forall ext_ok l -> once l -> 0 <= s < e ->
  let (kept, doomed) := punch_split s e l in
  Forall ext_ok (kept ++ doomed) /\ (forall b, length (covering (kept ++ doomed) b) = length (covering l b)) /\
  (forall p, owners (kept ++ doomed) p = owners l p) /\
  (forall b, ext_map kept b = if in_range s e b then None else ext_map l b) /\
  (forall b, ext_map doomed b = if in_range s e b then ext_map l b else None) /\
  data_blocks (kept ++ doomed) = data_blocks l.
Proof.
  intros Hl Ho Hr. unfold punch_split. pose proof (concat_pair_perm (punch_one s e) l) as Hp.
  destruct (pieces_concat (fun x => (punch_one s e x).1 ++ (punch_one s e x).2) l Hl) as (P1 & P2 & P3 & P6).
  { intros x Hx. pose proof (punch_one_spec s e x Hx Hr) as H. destruct (punch_one s e x). apply H. }
  split_and!; [by rewrite Hp|intros b; rewrite (covering_perm _ _ b Hp); apply P2|intros p; rewrite (owners_perm _ _ p Hp); apply P3| | |by rewrite (data_blocks_perm _ _ Hp)];
    intros b; clear - Hl Hr; (induction Hl as [|x l Hx Hl IH]; cbn [fmap list_fmap concat ext_map]; [by destruct (in_range s e b)|]);
    pose proof (punch_one_spec s e x Hx Hr) as H; destruct (punch_one s e x) as [k d]; destruct H as (_ & H1 & H2); cbn [fst snd];
    rewrite ext_map_app, IH, ?H1, ?H2; by destruct (in_range s e b), (e_map x b).
Qed.

(** The two sides of a cut in a sorted list. *)
Lemma sorted_cut l f k : Forall ext_ok (l ++ f :: k) -> StronglySorted before (l ++ f :: k) ->
  (forall x, x ∈ l -> e_end x <= e_block f) /\ (forall x, x ∈ f :: k -> e_block f <= e_block x).
Proof.
  intros Hok Hs. induction l as [|x l IH]; cbn [app] in *.
  - split; [set_solver|]. apply StronglySorted_inv in Hs as [_ Hb]. rewrite Forall_forall in Hb. apply Forall_cons in Hok as [Hf _].
    intros x [->|Hx]%elem_of_cons; [done|]. specialize (Hb x Hx). unfold before in Hb. pose proof (xo_len f Hf). lia.
  - apply StronglySorted_inv in Hs as [Hs Hb]. apply Forall_cons in Hok as [_ Hok]. destruct (IH Hok Hs) as [I1 I2]. split; [|done].
    intros y [->|Hy]%elem_of_cons; [|by apply I1]. rewrite Forall_forall in Hb. apply (Hb f). set_solver.
Qed.

Lemma ext_map_cover l b p : ext_map l b = Some p -> exists e, e ∈ l /\ e_block e <= b < e_end e.
Proof.
  induction l as [|e l IH]; cbn [ext_map]; [done|]. destruct (e_map e b) as [q|] eqn:E.
  - intros _. exists e. apply e_map_Some in E. set_solver.
  - intros H. destruct (IH H) as (f & Hf & Hb). exists f. set_solver.
Qed.

(** A chunk that frees only the upper part of the doomed extents removes an
    upper part of the range. *)
Lemma punch_partial s e l kept rest freed : Forall ext_ok l -> once l -> 0 <= s < e ->
  punch_split s e l = (kept, rest ++ freed) -> StronglySorted before (rest ++ freed) ->
  exists k, s <= k <= e /\ (rest = [] -> k = s) /\
    Forall ext_ok (kept ++ rest) /\ once (kept ++ rest) /\
    (forall p, (owners (kept ++ rest) p + owners freed p)%nat = owners l p) /\
    (forall b, ext_map (kept ++ rest) b = if in_range k e b then None else ext_map l b) /\
    (forall b, ext_map freed b = if in_range k e b then ext_map l b else None) /\
    data_blocks (kept ++ rest) + data_blocks freed = data_blocks l.
Proof.
  intros Hl Ho Hr Es Hs. pose proof (punch_split_spec s e l Hl Ho Hr) as H. rewrite Es in H. destruct H as (P1 & P2 & P3 & P4 & P5 & P6).
  set (k := match rest with [] => s | _ => match freed with [] => e | f :: _ => e_block f end end).
  assert (Hk : s <= k <= e).
  { unfold k. destruct rest as [|r rest]; [lia|]. destruct freed as [|f fr]; [lia|]. rewrite !Forall_app in P1. destruct P1 as (_ & _ & [Hf _]%Forall_cons).
    pose proof (P5 (e_block f)) as Hm. destruct (in_range s e (e_block f)) eqn:Hin; [unfold in_range in Hin; lia|]. apply ext_map_None in Hm.
    assert (f ∈ covering ((r :: rest) ++ f :: fr) (e_block f)) as Hx by (apply elem_of_covering; pose proof (xo_len f Hf); unfold e_end; set_solver by lia).
    rewrite Hm in Hx. set_solver. }
  assert (Hrest : forall b, ext_map rest b = if in_range s e b && (b <? k) then ext_map l b else None).
  { intros b. pose proof (P5 b) as Hb. rewrite ext_map_app in Hb. rewrite !Forall_app in P1. destruct P1 as (_ & P1). rewrite <- Forall_app in P1.
    destruct (ext_map rest b) as [q|] eqn:Er.
    - destruct (in_range s e b) eqn:Ei; [|done]. rewrite <- Hb. rewrite (proj2 (Z.ltb_lt b k)); [done|].
      apply ext_map_cover in Er as (r & Hr' & Hc). unfold k, in_range in *. destruct rest; [set_solver|]. destruct freed as [|f fr]; [lia|].
      destruct (sorted_cut _ _ _ P1 Hs) as [C1 _]. specialize (C1 r Hr'). lia.
    - destruct (in_range s e b && (b <? k)) eqn:Ei; [|done]. rewrite andb_true_iff, Z.ltb_lt in Ei. destruct Ei as [Ei Hlt]. rewrite Ei in Hb.
      rewrite <- Hb. symmetry. destruct (ext_map freed b) as [q|] eqn:Ef; [exfalso|done]. apply ext_map_cover in Ef as (r & Hr' & Hc).
      unfold k, in_range in *. destruct rest; [lia|]. destruct freed as [|f fr]; [set_solver|].
      destruct (sorted_cut _ _ _ P1 Hs) as [_ C2]. specialize (C2 r Hr'). lia. }
  exists k. split; [done|]. split; [by intros ->|]. rewrite Forall_app in *. destruct P1 as [P1 P1']. rewrite Forall_app in P1'. destruct P1' as [P1' P1''].
  split; [done|]. split_and!.
  - intros b. specialize (P2 b). specialize (Ho b). rewrite !covering_app, !length_app in *. lia.
  - intros p. specialize (P3 p). rewrite !owners_app in *. lia.
  - intros b. rewrite ext_map_app, P4, Hrest. unfold in_range. cases; by destruct (ext_map l b).
  - intros b. pose proof (P5 b) as Hb. rewrite ext_map_app, Hrest in Hb. unfold in_range in *.
    destruct (Z.leb_spec s b), (Z.ltb_spec b e), (Z.ltb_spec b k), (Z.leb_spec k b); cbn [andb] in *; try lia; try done.
    destruct (ext_map freed b) as [q|] eqn:Ef; [exfalso|done]. apply ext_map_cover in Ef as (r & Hr' & Hc). unfold k in *.
    destruct rest; [lia|]. destruct freed as [|f fr]; [set_solver|]. destruct (sorted_cut _ _ _ (Forall_app_2 _ _ _ P1' P1'') Hs) as [_ C2].
    specialize (C2 r Hr'). lia.
  - rewrite !data_blocks_app in *. lia.
Qed.

(** The doomed parts come in the order of the extents. *)
Lemma punch_one_within s e x f : ext_ok x -> 0 <= s < e -> f ∈ (punch_one s e x).2 -> e_block x <= e_block f /\ e_end f <= e_end x.
Proof.
  intros [B L E S] Hr. unfold punch_one, e_end, u16. destruct ((e_block x + e_len x <=? s) || (e <=? e_block x)) eqn:Eo; cbn [snd]; [set_solver|].
  rewrite orb_false_iff, !Z.leb_gt in Eo. intros ->%list_elem_of_singleton. cbn [mk_extent e_block e_len].
  rewrite wrap_small; [lia|]. unfold fits, max_len, MAX_WRITTEN_LEN in *. destruct (is_unwritten x); lia.
Qed.

Lemma doomed_sorted s e l : exts_ok l -> 0 <= s < e -> exts_ok (punch_split s e l).2.
Proof.
  intros Hl Hr. pose proof (punch_split_spec s e l (eo_each l Hl) (exts_ok_once l Hl) Hr) as H.
  destruct (punch_split s e l) as [kept doomed] eqn:Es. destruct H as (P1 & _). rewrite Forall_app in P1. cbn [snd]. split; [apply P1|].
  unfold punch_split in Es. injection Es as _ <-. destruct Hl as [He Hs]. clear P1 kept.
  induction Hs as [|x l Hs IH Hb]; cbn [fmap list_fmap concat]; [constructor|]. apply Forall_cons in He as [Hx He].
  assert (Hlater : forall f g, f ∈ (punch_one s e x).2 -> g ∈ concat (snd <$> (punch_one s e <$> l)) -> before f g).
  { intros f g Hf Hg. destruct (punch_one_within s e x f Hx Hr Hf) as [_ H1]. apply list_elem_of_In, in_concat in Hg as (k & Hk & Hg).
    change (map ?h ?y) with (h <$> y) in Hk. rewrite <- list_fmap_compose in Hk. apply list_elem_of_In, list_elem_of_fmap in Hk as (y & -> & Hy).
    apply list_elem_of_In in Hg. rewrite Forall_forall in He, Hb. destruct (punch_one_within s e y g (He y Hy) Hr Hg) as [H2 _].
    specialize (Hb y Hy). unfold before, e_end in *. lia. }
  assert (Hone : (length (punch_one s e x).2 <= 1)%nat) by (unfold punch_one; case_match; cbn; lia).
  destruct (punch_one s e x).2 as [|f [|? ?]]; cbn [app]; [by apply IH|constructor; [by apply IH|]|cbn in Hone; lia].
  apply Forall_forall. intros g Hg. apply Hlater; [by left|done].
Qed.

(** Descending order is the reverse of ascending order. *)
Lemma insert_last {A} (key : A -> Z) x l : Forall (fun y => key y < key x) l -> insert_by key x l = l ++ [x].
Proof. induction 1 as [|y l Hy Hl IH]; cbn; [done|]. rewrite (proj2 (Z.leb_gt _ _)) by done. by rewrite IH. Qed.

Lemma sort_reverse_sorted l : exts_ok l -> sort_reverse l = rev l.
Proof.
  intros Hl. apply exts_ok_keys in Hl. unfold sort_reverse, sort_by_key. induction Hl as [|e l Hl IH Hb]; cbn [foldr rev]; [done|].
  rewrite IH. apply insert_last. rewrite <- Permutation_rev. eapply Forall_impl; [exact Hb|]. cbn. lia.
Qed.

Lemma sort_sorted l : exts_ok l -> sort_by_key e_block l = l.
Proof.
  intros Hl. apply exts_ok_keys in Hl. unfold sort_by_key. induction Hl as [|e l Hl IH Hb]; cbn [foldr]; [done|].
  rewrite IH. destruct l as [|f l]; [done|]. cbn. apply Forall_cons in Hb as [Hb _]. by rewrite (proj2 (Z.leb_le _ _)) by lia.
Qed.

(** *** Truncation is a punch without an upper end *)

Definition head_of (keep : Z) (x : Extent) : Extent := mk_extent (e_block x) (keep - e_block x) (e_start x) (e_kind x).
Definition tail_of (keep : Z) (x : Extent) : Extent := mk_extent keep (e_end x - keep) (e_start x + (keep - e_block x)) (e_kind x).

Lemma punch_open_one keep x : ext_ok x -> 0 <= keep < 2 ^ 32 ->
  punch_one keep (2 ^ 32) x =
    if keeps keep x then ([x], []) else if straddles keep x then ([head_of keep x], [tail_of keep x]) else ([], [x]).
Proof.
  intros [B L E S] Hk. unfold punch_one, keeps, straddles, head_of, tail_of, e_end, u16, max_len, MAX_WRITTEN_LEN in *.
  assert (Hl : e_len x <= 32768) by (destruct (is_unwritten x); lia).
  rewrite (proj2 (Z.leb_gt (2 ^ 32) _)), (proj2 (Z.ltb_ge (2 ^ 32) _)) by lia. rewrite orb_false_r. destruct (Z.leb_spec (e_block x + e_len x) keep); [done|].
  rewrite (Z.min_l (e_block x + e_len x)) by lia. rewrite (proj2 (Z.ltb_lt keep _)), andb_true_r by done.
  rewrite (wrap_small 16 (e_block x + e_len x - _)) by (unfold fits; lia). destruct (Z.ltb_spec (e_block x) keep).
  - rewrite wrap_small by (unfold fits; lia). rewrite Z.max_r by lia. done.
  - rewrite Z.max_l by lia. destruct x. cbn. unfold mk_extent. do 3 f_equal; lia.
Qed.

Definition straddler (keep : Z) (l : list Extent) : option Extent := find (straddles keep) l.

Lemma truncate_split keep l : exts_ok l -> 0 <= keep < 2 ^ 32 ->
  punch_split keep (2 ^ 32) l =
    (filter (keeps keep) l ++ match straddler keep l with Some x => [head_of keep x] | None => [] end,
     match straddler keep l with Some x => [tail_of keep x] | None => [] end ++ filter (dooms keep) l).
Proof.
  intros [He Hs] Hk. induction Hs as [|x l Hs IH Hb]; [done|]. apply Forall_cons in He as [Hx He]. specialize (IH He).
  unfold punch_split in *. cbn [fmap list_fmap concat]. injection IH as I1 I2. rewrite I1, I2, (punch_open_one keep x Hx Hk).
  unfold straddler in *. cbn [find]. rewrite !filter_cons. pose proof (xo_len x Hx).
  assert (Hd : keeps keep x = false -> Forall (fun y => dooms keep y = true) l).
  { unfold keeps, dooms, e_end. intros Hkx. eapply Forall_impl; [exact Hb|]. unfold before. intros y. lia. }
  assert (Hn : keeps keep x = false -> filter (keeps keep) l = [] /\ find (straddles keep) l = None).
  { intros Hkx. specialize (Hd Hkx). clear - Hd He. induction Hd as [|y l Hy Hl IH]; [done|]. apply Forall_cons in He as [Hy' He].
    destruct (IH He) as [I1 I2]. rewrite filter_cons, I1. cbn [find]. pose proof (xo_len y Hy'). unfold keeps, dooms, straddles, e_end in *.
    rewrite decide_False by (rewrite Is_true_true; lia). by replace ((e_block y <? keep) && _) with false by lia. }
  destruct (keeps keep x) eqn:Ek.
  - unfold keeps, straddles, dooms, e_end in *. rewrite decide_True by done. rewrite decide_False by (rewrite Is_true_true; lia).
    by replace ((e_block x <? keep) && _) with false by lia.
  - destruct (Hn eq_refl) as [-> ->]. rewrite decide_False by (by intros []).
    destruct (straddles keep x) eqn:Es; unfold keeps, straddles, dooms, e_end in *.
    + by rewrite decide_False by (rewrite Is_true_true; lia).
    + by rewrite decide_True by (rewrite Is_true_true; lia).
Qed.

(** ** Planning holes *)

Definition in_runs (l : list (Z * Z)) (b : Z) : Prop := exists h, h ∈ l /\ in_run b h.

Lemma in_runs_app l k b : in_runs (l ++ k) b <-> in_runs l b \/ in_runs k b.
Proof. unfold in_runs. set_solver. Qed.

(** The runs of a plan: not empty, inside the range, apart from each other. *)
Definition plan_ok (a e : Z) (l : list (Z * Z)) : Prop :=
  Forall (fun h => a <= h.1 < h.2 /\ h.2 <= e) l /\ StronglySorted (fun h k => h.2 < k.1) l.

Lemma plan_one a e : plan_ok a e (if a <? e then [(a, e)] else []).
Proof. unfold plan_ok. destruct (Z.ltb_spec a e); split; repeat constructor; cbn; lia. Qed.

Lemma in_one_run a e b : in_runs (if a <? e then [(a, e)] else []) b <-> a <= b < e.
Proof.
  unfold in_runs, in_run. destruct (Z.ltb_spec a e).
  - split; [intros (h & ->%list_elem_of_singleton & Hb); done|]. intros Hb. exists (a, e). split; [by left|done].
  - split; [intros (h & Hh & _); set_solver|lia].
Qed.

Lemma holes_from_spec l : forall cursor stop, exts_ok l -> cursor <= stop ->
  exists holes, holes_from l cursor stop = Ok holes /\ plan_ok cursor stop holes /\
    (forall b, in_runs holes b <-> cursor <= b < stop /\ ext_map l b = None).
Proof.
  induction l as [|e l IH]; intros cursor stop Hl Hcs; cbn [holes_from].
  { eexists. split; [done|]. split; [apply plan_one|]. intros b. rewrite in_one_run. naive_solver. }
  destruct Hl as [He Hs]. apply Forall_cons in He as [He Hl]. apply StronglySorted_inv in Hs as [Hs Hb].
  assert (Hbelow : forall b, b < e_block e -> ext_map (e :: l) b = None).
  { intros b Hlb. destruct (ext_map (e :: l) b) as [q|] eqn:E; [exfalso|done]. apply ext_map_cover in E as (f & [->|Hf]%elem_of_cons & Hc); [lia|].
    rewrite Forall_forall in Hb. specialize (Hb f Hf). pose proof (xo_len e He). unfold before in Hb. lia. }
  assert (Hlt : (e_end e <? 2 ^ 32) = true) by (apply Z.ltb_lt, (xo_end e He)). rewrite Hlt.
  destruct (Z.leb_spec (e_end e) cursor).
  { destruct (IH cursor stop (Build_exts_ok _ Hl Hs) Hcs) as (hs & P1 & P2 & P3). exists hs. split_and!; try done. intros b. rewrite P3. cbn [ext_map].
    split; intros [Hc Hm]; (split; [done|]); [by rewrite (proj2 (e_map_None e b)) by lia|]. by destruct (e_map e b). }
  destruct (Z.leb_spec stop (e_block e)).
  { eexists. split; [done|]. split; [apply plan_one|]. intros b. rewrite in_one_run.
    split; [|tauto]. intros Hc. split; [done|]. apply Hbelow. lia. }
  replace (if cursor <? e_block e then [(cursor, Z.min (e_block e) stop)] else []) with
    (if cursor <? e_block e then [(cursor, e_block e)] else []) by (by rewrite Z.min_l by lia).
  assert (Hhole : forall b, in_runs (if cursor <? e_block e then [(cursor, e_block e)] else []) b <-> cursor <= b < e_block e) by (intros; apply in_one_run).
  destruct (Z.leb_spec stop (Z.max cursor (e_end e))).
  - eexists. split; [done|]. split.
    + destruct (Z.ltb_spec cursor (e_block e)); split; repeat constructor; cbn; lia.
    + intros b. rewrite Hhole. split; [intros Hc; split; [lia|apply Hbelow; lia]|]. intros [Hc Hm]. cbn in Hm.
      destruct (e_map e b) as [q|] eqn:E; [done|]. apply e_map_None in E. lia.
  - destruct (IH (Z.max cursor (e_end e)) stop (Build_exts_ok _ Hl Hs) ltac:(lia)) as (hs & -> & [P2 P2'] & P3). cbn [rbind]. eexists. split; [done|].
    pose proof (xo_len e He). rewrite Z.max_r in * by lia. split; [split|].
    + apply Forall_app. split; [destruct (Z.ltb_spec cursor (e_block e)); repeat constructor; cbn; lia|].
      eapply Forall_impl; [exact P2|]. cbn. unfold e_end in *. lia.
    + destruct (Z.ltb_spec cursor (e_block e)); cbn [app]; [|done]. constructor; [done|]. eapply Forall_impl; [exact P2|]. cbn. unfold e_end in *. lia.
    + intros b. rewrite in_runs_app, Hhole, P3. split.
      * intros [Hc|[Hc Hm]]; [split; [unfold e_end in *; lia|apply Hbelow; lia]|]. split; [unfold e_end in *; lia|]. cbn. by rewrite (proj2 (e_map_None e b)) by lia.
      * intros [Hc Hm]. cbn in Hm. destruct (e_map e b) as [q|] eqn:E; [done|]. apply e_map_None in E.
        destruct (decide (b < e_block e)); [left; lia|right]. split; [lia|done].
Qed.

(** The survivors of a chunk that freed [fr] and left [un]. *)
Record survivors (l : list Extent) (k e : Z) (fr l' : list Extent) : Prop := {
  sv_ok : exts_ok l';
  sv_once : once fr;
  sv_owners p : (owners l' p + owners fr p)%nat = owners l p;
  sv_data : data_blocks l' + data_blocks fr = data_blocks l;
  sv_map b : ext_map l' b = if in_range k e b then None else ext_map l b;
  sv_freed b : ext_map fr b = if in_range k e b then ext_map l b else None;
}.

Lemma punch_survivors a e l kept doomed un fr :
  exts_ok l -> 0 <= a < e -> punch_split a e l = (kept, doomed) -> sort_reverse doomed = fr ++ un ->
  exists k, a <= k <= e /\ (un = [] -> k = a) /\ survivors l k e fr (sort_by_key e_block (kept ++ un)).
Proof.
  intros Hl Hae Es Er. pose proof (doomed_sorted a e l Hl Hae) as Hd. rewrite Es in Hd. cbn [snd] in Hd. rewrite (sort_reverse_sorted doomed Hd) in Er.
  assert (Edoom : doomed = rev un ++ rev fr) by (rewrite <- (rev_involutive doomed), Er; apply rev_app_distr).
  destruct (punch_partial a e l kept (rev un) (rev fr) (eo_each l Hl) (exts_ok_once l Hl) Hae) as (k & K1 & K2 & K3 & K4 & K5 & K6 & K7 & K8).
  { by rewrite <- Edoom. } { rewrite <- Edoom. apply Hd. }
  assert (Hp : kept ++ rev un ≡ₚ kept ++ un) by (apply Permutation_app_head; symmetry; apply Permutation_rev).
  pose proof (sort_by_perm e_block (kept ++ un)) as Hq. pose proof (Permutation_rev fr) as Hf.
  assert (Ho : once (kept ++ un)) by (intros b; rewrite <- (covering_perm _ _ b Hp); apply K4).
  assert (Hof : once fr).
  { intros b. pose proof (exts_ok_once doomed Hd b) as H. rewrite Edoom, covering_app, length_app in H. rewrite (covering_perm _ _ b Hf). lia. }
  exists k. split; [done|]. split; [by intros ->; apply K2|]. split.
  - apply sort_exts_ok; [by rewrite <- Hp|done].
  - done.
  - intros p. rewrite (owners_perm _ _ p Hq), <- (owners_perm _ _ p Hp), (owners_perm _ _ p Hf). apply K5.
  - rewrite (data_blocks_perm _ _ Hq), <- (data_blocks_perm _ _ Hp), (data_blocks_perm _ _ Hf). apply K8.
  - intros b. rewrite <- (ext_map_perm _ _ b Ho) by (by symmetry). rewrite <- (ext_map_perm _ _ b K4 Hp). apply K6.
  - intros b. rewrite (ext_map_perm _ _ b Hof Hf). apply K7.
Qed.

(** An extent in place of its pieces. *)
Lemma survivors_whole l k e fr l1 r x ps :
  survivors l k e fr l1 -> l1 ≡ₚ r ++ ps -> ext_ok x -> pieces x ps -> (forall b, ext_map ps b = e_map x b) ->
  survivors l k e fr (sort_by_key e_block (r ++ [x])).
Proof.
  intros [V1 V2 V3 V4 V5 V6] Hp Hx [P1 P2 P3 P4] Hm. pose proof (sort_by_perm e_block (r ++ [x])) as Hq.
  assert (Hc : forall b, length (covering (r ++ [x]) b) = length (covering l1 b)).
  { intros b. rewrite (covering_perm _ _ b Hp), !covering_app, !length_app, P2, covering_cons. cbn. lia. }
  assert (Ho : once (r ++ [x])) by (intros b; rewrite Hc; apply exts_ok_once, V1).
  split; try done.
  - apply sort_exts_ok; [|done]. pose proof (eo_each l1 V1) as Hf. rewrite Hp in Hf. apply Forall_app in Hf as [Hf _]. apply Forall_app. split; [done|by constructor].
  - intros p. rewrite (owners_perm _ _ p Hq), <- (V3 p), (owners_perm _ _ p Hp), !owners_app, P3, owners_cons. change (owners [] p) with 0%nat. lia.
  - rewrite (data_blocks_perm _ _ Hq), <- V4, (data_blocks_perm _ _ Hp), !data_blocks_app, P4, data_blocks_cons. change (data_blocks []) with 0. lia.
  - intros b. rewrite <- (ext_map_perm _ _ b Ho) by (by symmetry). rewrite <- V5, (ext_map_perm l1 _ b (exts_ok_once l1 V1) Hp), !ext_map_app, Hm. cbn.
    by destruct (ext_map r b), (e_map x b).
Qed.

Lemma straddler_pieces keep x : ext_ok x -> 0 <= keep < 2 ^ 32 -> straddles keep x = true ->
  pieces x [head_of keep x; tail_of keep x] /\ forall b, ext_map [head_of keep x; tail_of keep x] b = e_map x b.
Proof.
  intros Hx Hk Hs. pose proof (punch_one_spec keep (2 ^ 32) x Hx ltac:(lia)) as H. rewrite (punch_open_one keep x Hx Hk), Hs in H.
  assert (keeps keep x = false) as Hkp by (unfold keeps, straddles in *; lia). rewrite Hkp in H. destruct H as (H1 & H2 & H3).
  split; [exact H1|]. intros b. specialize (H2 b). specialize (H3 b). cbn [ext_map] in *. unfold in_range in *. pose proof (xo_end x Hx).
  destruct (e_map (head_of keep x) b) eqn:E1, (e_map (tail_of keep x) b) eqn:E2, ((keep <=? b) && (b <? 2 ^ 32)); by subst.
Qed.

Lemma sort_reverse_tail keep x l : ext_ok x -> exts_ok (tail_of keep x :: l) -> sort_reverse (tail_of keep x :: l) = sort_reverse l ++ [tail_of keep x].
Proof.
  intros Hx Hl. rewrite (sort_reverse_sorted _ Hl), sort_reverse_sorted; [done|]. destruct Hl as [He Hs]. apply Forall_cons in He as [_ He].
  apply StronglySorted_inv in Hs as [Hs _]. by split.
Qed.

(** The survivors of a truncation: without an extent across the new end, with
    one that stays whole, and with one that is cut. *)
Lemma truncate_survivors keep l fr un : exts_ok l -> 0 <= keep < 2 ^ 32 -> sort_reverse (filter (dooms keep) l) = fr ++ un ->
  let kept := filter (keeps keep) l in
  match straddler keep l with
  | None => exists k, keep <= k <= 2 ^ 32 /\ (un = [] -> k = keep) /\ survivors l k (2 ^ 32) fr (sort_by_key e_block ((kept ++ un) ++ []))
  | Some x =>
      ext_ok x /\ x ∈ l /\ straddles keep x = true /\
      (exists k, keep <= k <= 2 ^ 32 /\ survivors l k (2 ^ 32) fr (sort_by_key e_block ((kept ++ un) ++ [x]))) /\
      (un = [] -> survivors l keep (2 ^ 32) (fr ++ [tail_of keep x]) (sort_by_key e_block ((kept ++ un) ++ [head_of keep x])))
  end.
Proof.
  intros Hl Hk Er kept. pose proof (truncate_split keep l Hl Hk) as Es. fold kept in Es. destruct (straddler keep l) as [x|] eqn:Ex.
  - apply find_some in Ex as [Hx Hs]. apply list_elem_of_In in Hx. assert (Hox : ext_ok x) by (eapply Forall_forall; [apply Hl|done]).
    assert (Er' : sort_reverse ([tail_of keep x] ++ filter (dooms keep) l) = fr ++ un ++ [tail_of keep x]).
    { rewrite app_assoc, <- Er. apply sort_reverse_tail; [done|]. pose proof (doomed_sorted keep (2 ^ 32) l Hl ltac:(lia)) as Hd. by rewrite Es in Hd. }
    split_and!; try done.
    + destruct (punch_survivors keep (2 ^ 32) l _ _ (un ++ [tail_of keep x]) fr Hl ltac:(lia) Es Er') as (k & K1 & _ & K3).
      exists k. split; [done|]. destruct (straddler_pieces keep x Hox Hk Hs) as [P1 P2].
      eapply survivors_whole; [exact K3| |done|exact P1|exact P2]. rewrite sort_by_perm. rewrite <- !app_assoc. apply Permutation_app_head.
      rewrite !app_assoc. rewrite (Permutation_app_comm [head_of keep x] un). by rewrite <- app_assoc.
    + intros ->. cbn [app] in Er'. destruct (punch_survivors keep (2 ^ 32) l _ _ [] (fr ++ [tail_of keep x]) Hl ltac:(lia) Es) as (k & K1 & K2 & K3).
      { by rewrite app_nil_r. }
      rewrite (K2 eq_refl) in K3. rewrite !app_nil_r in *. exact K3.
  - destruct (punch_survivors keep (2 ^ 32) l _ _ un fr Hl ltac:(lia) Es Er) as (k & K1 & K2 & K3). exists k. split_and!; try done; try lia.
    rewrite !app_nil_r in *. exact K3.
Qed.
