(* ===== verification/ExtentTree.v ===== *)
(** * The extent tree

    Models [inode/extent_manager/tree.rs]: the tree whose root lives in the
    inode and whose other nodes are metadata blocks.  A change flattens the
    tree to its list of extents, edits the list and writes the whole tree
    again, reusing the blocks of its old nodes.  The code runs on the tree, the
    file system and the store of the open handle. *)

From stdpp Require Import sorting.
From S2P Require Import Prelude Pod Checksum JournalFormat Device Bitmap SuperBlock GroupDesc Transaction JournalState MetaStore BlockGroup Alloc AllocSpec.
From S2P Require Import Credits ExtentNode ExtentMap.

(** ** The code *)

Definition MAX_DEPTH : nat := 5.
Definition SECTORS_PER_BLOCK : Z := BLOCK_SIZE / 512.

Record ExtentTree : Type := { et_root : list byte; et_sector_count : Z; et_dirty : bool }.

Definition try_new (root : list byte) (sector_count : Z) : result ExtentTree :=
  let? _ := header_try_from (node_header root) in
  Ok {| et_root := root; et_sector_count := sector_count; et_dirty := false |}.

Definition empty : ExtentTree := {| et_root := empty_root; et_sector_count := 0; et_dirty := false |}.

Definition et_header (t : ExtentTree) : ExtentHeader := from_trusted (node_header (et_root t)).
Definition et_depth (t : ExtentTree) : Z := eh_depth (et_header t).
Definition clear_dirty (t : ExtentTree) : ExtentTree :=
  {| et_root := et_root t; et_sector_count := et_sector_count t; et_dirty := false |}.

(** [external_node_count] *)
Definition external_node_count (extents : Z) : Z :=
  if extents <=? INLINE_MAX then 0
  else
    let nr_leaves := div_ceil extents LEAF_MAX in
    let nr_interior := if nr_leaves <=? INLINE_MAX then 0 else div_ceil nr_leaves INTERIOR_MAX in
    nr_leaves + nr_interior.

(** The first logical block of a chunk, [chunk[0].block()]. *)
Definition first_key (chunk : list Extent) : Z := match chunk with e :: _ => e_block e | [] => 0 end.
Definition first_idx (chunk : list RawExtentIdx) : Z := match chunk with i :: _ => rx_block i | [] => 0 end.

Section Code.
Context {S : Type} `{MetaStore S}.

(** *** Reading *)

(** The loop of [lookup]. *)
Fixpoint lookup_from (rounds : nat) (s : S) (next_bid iblock : Z) : result (option Extent) :=
  match rounds with
  | O => Err EUCLEAN
  | Datatypes.S rounds =>
      let? block := ms_read s next_bid in
      let? step := search_node block iblock in
      match step with
      | Found extent => Ok (Some extent)
      | Hole => Ok None
      | Descend bid => lookup_from rounds s bid iblock
      end
  end.

(** [ExtentTree::lookup] *)
Definition lookup (t : ExtentTree) (s : S) (iblock : Z) : result (option Extent) :=
  let? step := search_entries (et_header t) (et_root t) iblock in
  match step with
  | Found extent => Ok (Some extent)
  | Hole => Ok None
  | Descend bid => lookup_from MAX_DEPTH s bid iblock
  end.

Fixpoint read_leaves (s : S) (bids : list Z) : result (list Extent) :=
  match bids with
  | [] => Ok []
  | bid :: bids =>
      let? block := ms_read s bid in
      let? extents := parse_leaf_node block in
      let? rest := read_leaves s bids in
      Ok (extents ++ rest)
  end.

Fixpoint read_interiors (s : S) (bids : list Z) : result (list Extent * list Z) :=
  match bids with
  | [] => Ok ([], [])
  | bid :: bids =>
      let? interior := ms_read s bid in
      let? leaf_bids := parse_interior_node interior in
      let? extents := read_leaves s leaf_bids in
      let? (rest, external) := read_interiors s bids in
      Ok (extents ++ rest, bid :: leaf_bids ++ external)
  end.

(** [ExtentTree::flatten]: the extents and the external blocks; an entry of the
    root past its end is an index out of bounds. *)
Definition flatten (t : ExtentTree) (s : S) : result (list Extent * list Z) :=
  let root := et_root t in
  let nr := eh_entries (et_header t) in
  if is_leaf (et_header t) then
    check entry_off nr <=? zlen root else PANIC in
    Ok (leaf_entries nr root, [])
  else
    let depth := et_depth t in
    check negb (negb (depth =? 1) && negb (depth =? 2)) else EUCLEAN in
    check entry_off nr <=? zlen root else PANIC in
    let child_bids := ei_leaf <$> index_entries nr root in
    if depth =? 1 then
      let? extents := read_leaves s child_bids in
      Ok (extents, child_bids)
    else read_interiors s child_bids.

(** [ExtentTree::extents] *)
Definition extents (t : ExtentTree) (s : S) : result (list Extent) :=
  let? (l, _) := flatten t s in Ok (sort_by_key e_block l).

(** *** Metadata blocks *)

Notation fstate := (Ext4 * S)%type.

(** [let _ = m]: an error is dropped, a panic is not. *)
Definition ignore {T A} (m : M T A) : M T unit := fun st =>
  match m st with
  | (Err e, st) => if handled e then (Ok tt, st) else (Err e, st)
  | (Ok _, st) => (Ok tt, st)
  end.

Definition alloc_meta_block (goal : Z) : M fstate Z :=
  range ← fs_alloc_blocks 1 goal;
  on_store (ms_create range.1);;
  mret range.1.

Definition free_meta_block (bid : Z) : M fstate unit := fs_free_blocks bid 1 true.

Fixpoint free_meta_blocks (bids : list Z) : M fstate unit :=
  match bids with
  | [] => mret tt
  | bid :: bids => free_meta_block bid;; free_meta_blocks bids
  end.

Fixpoint rollback_meta_blocks (bids : list Z) : M fstate unit :=
  match bids with
  | [] => mret tt
  | bid :: bids => ignore (free_meta_block bid);; rollback_meta_blocks bids
  end.

(** [m], with the blocks freed again when it fails. *)
Definition or_rollback {A} (blocks : list Z) (m : M fstate A) : M fstate A := fun st =>
  match m st with
  | (Err e, st) => if handled e then (rollback_meta_blocks blocks;; fail e) st else (Err e, st)
  | (Ok a, st) => (Ok a, st)
  end.

(** The loop of [acquire_meta_blocks]. *)
Fixpoint acquire_fresh (n : nat) (goal : Z) (newly_allocated : list Z) : M fstate (list Z) :=
  match n with
  | O => mret newly_allocated
  | Datatypes.S n =>
      bid ← or_rollback newly_allocated (alloc_meta_block goal);
      acquire_fresh n goal (newly_allocated ++ [bid])
  end.

Definition acquire_meta_blocks (pool : list Z) (count goal : Z) : M fstate (list Z * list Z) :=
  let reuse := Z.min count (zlen pool) in
  newly_allocated ← acquire_fresh (Z.to_nat (count - reuse)) goal [];
  mret (take (Z.to_nat reuse) pool ++ newly_allocated, newly_allocated).

(** [write_leaf_node] and [write_interior_node] under a live handle. *)
Definition write_node (bid : Z) (block : list byte) : M fstate unit :=
  a ← on_store (ms_write bid);
  on_store (ms_patch a (fun _ => block)).

Fixpoint write_nodes (nodes : list (list byte * Z)) : M fstate unit :=
  match nodes with
  | [] => mret tt
  | (block, bid) :: nodes => write_node bid block;; write_nodes nodes
  end.

(** *** Writing the tree *)

Notation tstate := (ExtentTree * fstate)%type.

Definition tree : M tstate ExtentTree := fun st => (Ok st.1, st).
Definition set_tree (t : ExtentTree) : M tstate unit := fun st => (Ok tt, (t, st.2)).
Definition set_root (root : list byte) : M tstate unit :=
  t ← tree; set_tree {| et_root := root; et_sector_count := et_sector_count t; et_dirty := et_dirty t |}.

Section Seed.
Variable csum_seed : option InodeCsumSeed.

Definition leaf_index (l : list Extent) (leaf_bids : list Z) : list RawExtentIdx :=
  zip_with (fun chunk bid => make_index_entry (first_key chunk) bid) (chunks LEAF_MAX l) leaf_bids.
Definition root_index (idx : list RawExtentIdx) (interior_bids : list Z) : list RawExtentIdx :=
  zip_with (fun chunk bid => make_index_entry (first_idx chunk) bid) (chunks INTERIOR_MAX idx) interior_bids.

Definition leaf_nodes (l : list Extent) (leaf_bids : list Z) : list (list byte * Z) :=
  zip (leaf_node csum_seed <$> chunks LEAF_MAX l) leaf_bids.
Definition interior_nodes (idx : list RawExtentIdx) (interior_bids : list Z) : list (list byte * Z) :=
  zip (interior_node csum_seed <$> chunks INTERIOR_MAX idx) interior_bids.

(** [ExtentTree::reserialize]: the numbers of blocks allocated and freed. *)
Definition reserialize (l : list Extent) (old_external : list Z) : M tstate (Z * Z) :=
  if zlen l <=? INLINE_MAX then
    set_root (inline_leaf_root l);;
    on_store (free_meta_blocks old_external);;
    mret (0, zlen old_external)
  else
    let nr_leaves := div_ceil (zlen l) LEAF_MAX in
    let goal := match l with e :: _ => e_start e | [] => 0 end in
    if nr_leaves <=? INLINE_MAX then
      let reuse := Z.min nr_leaves (zlen old_external) in
      acquired ← on_store (acquire_meta_blocks old_external nr_leaves goal);
      let '(leaf_bids, newly_allocated) := acquired in
      on_store (or_rollback newly_allocated (write_nodes (leaf_nodes l leaf_bids)));;
      set_root (index_root (leaf_index l leaf_bids) 1);;
      let surplus := drop (Z.to_nat reuse) old_external in
      on_store (free_meta_blocks surplus);;
      mret (zlen newly_allocated, zlen surplus)
    else
      let nr_interior := div_ceil nr_leaves INTERIOR_MAX in
      if INLINE_MAX <? nr_interior then fail ENOSPC
      else
        let total := nr_leaves + nr_interior in
        let reuse := Z.min total (zlen old_external) in
        acquired ← on_store (acquire_meta_blocks old_external total goal);
        let '(blocks, newly_allocated) := acquired in
        let leaf_bids := take (Z.to_nat nr_leaves) blocks in
        let interior_bids := drop (Z.to_nat nr_leaves) blocks in
        let idx := leaf_index l leaf_bids in
        on_store (or_rollback newly_allocated (write_nodes (leaf_nodes l leaf_bids)));;
        on_store (or_rollback newly_allocated (write_nodes (interior_nodes idx interior_bids)));;
        set_root (index_root (root_index idx interior_bids) 2);;
        let surplus := drop (Z.to_nat reuse) old_external in
        on_store (free_meta_blocks surplus);;
        mret (zlen newly_allocated, zlen surplus).

(** The update of [i_blocks] by a number of blocks, never below zero. *)
Definition add_blocks (n : Z) : M tstate unit :=
  t ← tree;
  set_tree {| et_root := et_root t; et_sector_count := Z.max (et_sector_count t + n * SECTORS_PER_BLOCK) 0; et_dirty := true |}.

Definition flatten_now : M tstate (list Extent * list Z) := fun st => (flatten st.1 st.2.2, st).

(** [ExtentTree::insert] *)
Definition insert (iblock pblock len : Z) (kind : ExtentKind) : M tstate unit :=
  flat ← flatten_now;
  let '(l, old_external) := flat in
  delta ← reserialize (merge_extents (l ++ [mk_extent iblock len pblock kind])) old_external;
  let '(meta_allocated, meta_freed) := delta in
  add_blocks (len + (meta_allocated - meta_freed)).

(** [ExtentTree::convert_unwritten] *)
Definition convert_unwritten (iblock len : Z) : M tstate unit :=
  flat ← flatten_now;
  let '(l, old_external) := flat in
  if negb (existsb (to_convert iblock (iblock + len)) l) then mret tt
  else
    delta ← reserialize (merge_extents (convert_extents iblock (iblock + len) l)) old_external;
    let '(meta_allocated, meta_freed) := delta in
    add_blocks (meta_allocated - meta_freed).

(** *** Freeing *)

(** [stop_before_free] *)
Definition stop_before_free (need : Z) : M fstate bool :=
  outcome ← on_store (ms_reserve need);
  mret (bool_decide (outcome = NeedsRestart)).

(** The probe before a free: only a chunked call stops. *)
Definition probe (max_credits : option Z) (need : Z) : M fstate bool :=
  match max_credits with Some _ => stop_before_free need | None => mret false end.

(** The loop over the doomed extents: those it did not reach, and the number of
    blocks it freed. *)
Fixpoint free_doomed (max_credits : option Z) (need : Z) (duty : bool) (doomed : list Extent) : M fstate (list Extent * Z) :=
  match doomed with
  | [] => mret ([], 0)
  | e :: rest =>
      stop ← probe max_credits need;
      if (stop : bool) then mret (doomed, 0)
      else
        fs_free_blocks (e_start e) (e_len e) duty;;
        r ← free_doomed max_credits need duty rest;
        let '(unreached, freed_data) := r in
        mret (unreached, e_len e + freed_data)
  end.

Definition over_floor (max_credits : option Z) (has_work : bool) (need : Z) : bool :=
  match max_credits with Some max => has_work && (max <? need) | None => false end.

(** The extent that straddles the new end: what is kept of it and how many
    blocks are freed. *)
Definition free_straddler (max_credits : option Z) (need : Z) (duty : bool) (keep_blocks : Z) (stopped : bool) (x : Extent)
  : M fstate (Extent * Z) :=
  let head_len := u16 (keep_blocks - e_block x) in
  let tail_len := e_len x - head_len in
  stop ← (if stopped then mret true else probe max_credits need);
  if (stop : bool) then mret (x, 0)
  else
    fs_free_blocks (e_start x + head_len) tail_len duty;;
    mret (mk_extent (e_block x) head_len (e_start x) (e_kind x), tail_len).

(** [ExtentTree::truncate_chunk]: the end that was reached and the credits for
    the next chunk. *)
Definition truncate_chunk (new_size : Z) (duty : bool) (max_credits : option Z) : M tstate (Z * Z) :=
  let keep_blocks := u32 (div_ceil new_size BLOCK_SIZE) in
  flat ← flatten_now;
  let '(l, old_external) := flat in
  let l := sort_by_key e_block l in
  fs ← on_store ext4;
  let need := extent_free_credits + truncate_chunk_credits fs (external_node_count (zlen l)) in
  guard (forallb (fun e => e_end e <? 2 ^ 32) l) PANIC;;
  let kept := filter (keeps keep_blocks) l in
  let straddler := find (straddles keep_blocks) l in
  let doomed := sort_reverse (filter (dooms keep_blocks) l) in
  let has_work := negb (bool_decide (doomed = [])) || bool_decide (is_Some straddler) in
  guard (negb (over_floor max_credits has_work need)) EFBIG;;
  r ← on_store (free_doomed max_credits need duty doomed);
  let '(unreached, freed_data) := r in
  let kept := kept ++ unreached in
  r ← on_store (match straddler with
                | Some x => r ← free_straddler max_credits need duty keep_blocks (negb (bool_decide (unreached = []))) x; mret ([r.1], r.2)
                | None => mret ([], 0)
                end);
  let '(straddler_kept, freed_tail) := r in
  let kept := sort_by_key e_block (kept ++ straddler_kept) in
  let reached := foldr Z.max 0 (e_end <$> kept) in
  delta ← reserialize kept old_external;
  let '(meta_allocated, meta_freed) := delta in
  add_blocks (- (freed_data + freed_tail - (meta_allocated - meta_freed)));;
  mret (reached, extent_free_credits + truncate_chunk_credits fs (external_node_count (zlen kept))).

(** [ExtentTree::truncate_to_byte_len] *)
Definition truncate_to_byte_len (new_size : Z) (duty : bool) : M tstate unit :=
  truncate_chunk new_size duty None;; mret tt.

(** [ExtentTree::punch_chunk]: whether doomed blocks remain and the credits for
    the next chunk. *)
Definition punch_chunk (start_block end_block : Z) (duty : bool) (max_credits : option Z) : M tstate (bool * Z) :=
  if end_block <=? start_block then mret (false, extent_free_credits)
  else
    flat ← flatten_now;
    let '(l, old_external) := flat in
    let l := sort_by_key e_block l in
    let '(kept, doomed) := punch_split start_block end_block l in
    let doomed := sort_reverse doomed in
    fs ← on_store ext4;
    let need := extent_free_credits + truncate_chunk_credits fs (external_node_count (zlen kept + zlen doomed)) in
    guard (negb (over_floor max_credits (negb (bool_decide (doomed = []))) need)) EFBIG;;
    r ← on_store (free_doomed max_credits need duty doomed);
    let '(unreached, freed_data) := r in
    let kept := sort_by_key e_block (kept ++ unreached) in
    delta ← reserialize kept old_external;
    let '(meta_allocated, meta_freed) := delta in
    add_blocks (- (freed_data - (meta_allocated - meta_freed)));;
    mret (negb (bool_decide (unreached = [])), extent_free_credits + truncate_chunk_credits fs (external_node_count (zlen kept))).

End Seed.
End Code.

(** ** What a tree means *)

Definition idx_root (root : list byte) (ps : list (Z * Z)) : Prop :=
  let nr := rh_entries (node_header root) in entry_off nr <= zlen root /\ index_entries nr root = idx_of <$> ps.

(** The children [ps] of a node in order, each keyed by its first logical
    block, hold the extents [l] in the blocks [ext]. *)
Inductive forest (T : Z -> list Extent -> list Z -> Prop) : list (Z * Z) -> list Extent -> list Z -> Prop :=
  | forest_nil : forest T [] [] []
  | forest_cons p ps l l' ext ext' :
      T p.2 l ext -> l <> [] -> first_key l = p.1 -> forest T ps l' ext' -> forest T (p :: ps) (l ++ l') (ext ++ ext').

Section Meaning.
Context {S : Type} `{MetaStore S}.

Definition leaf_at (s : S) (bid : Z) (l : list Extent) (ext : list Z) : Prop :=
  ext = [bid] /\ exists block, ms_read s bid = Ok block /\ parse_leaf_node block = Ok l.

Definition interior_at (s : S) (bid : Z) (l : list Extent) (ext : list Z) : Prop :=
  exists ps ext' block, ext = bid :: ext' /\ ms_read s bid = Ok block /\ parse_interior_node block = Ok (ps.*2) /\ idx_root block ps /\
    forest (leaf_at s) ps l ext'.

(** The root of a tree with the extents [l] and the external blocks [ext]. *)
Inductive repr (s : S) (root : list byte) : list Extent -> list Z -> Prop :=
  | repr_inline :
      let nr := rh_entries (node_header root) in
      rh_depth (node_header root) = 0 -> entry_off nr <= zlen root -> repr s root (leaf_entries nr root) []
  | repr_one ps l ext :
      rh_depth (node_header root) = 1 -> idx_root root ps -> forest (leaf_at s) ps l ext -> repr s root l ext
  | repr_two ps l ext :
      rh_depth (node_header root) = 2 -> idx_root root ps -> forest (interior_at s) ps l ext -> repr s root l ext.
End Meaning.

(** ** Lemmas: reading *)

Section Reading.
Context {S : Type} `{MetaStore S}.
Implicit Types s : S.

Lemma leaves_read s ps l ext : forest (leaf_at s) ps l ext -> read_leaves s (ps.*2) = Ok l /\ ext = ps.*2.
Proof.
  induction 1 as [|p ps l l' ext ext' HT Hne Hk Hf [IH1 IH2]]; [done|]. destruct HT as (-> & block & Hr & Hp).
  cbn [fmap list_fmap read_leaves]. rewrite Hr. cbn [rbind]. rewrite Hp. cbn [rbind]. rewrite IH1. cbn. by subst.
Qed.

Lemma interiors_read s ps l ext : forest (interior_at s) ps l ext -> read_interiors s (ps.*2) = Ok (l, ext).
Proof.
  induction 1 as [|p ps l l' ext ext' HT Hne Hk Hf IH]; [done|]. destruct HT as (qs & ext0 & block & -> & Hr & Hp & _ & Hq).
  destruct (leaves_read s qs l ext0 Hq) as [Hl ->]. cbn [fmap list_fmap read_interiors]. rewrite Hr. cbn [rbind]. rewrite Hp. cbn [rbind].
  rewrite Hl. cbn [rbind]. rewrite IH. done.
Qed.

Lemma repr_flatten s t l ext : repr s (et_root t) l ext -> flatten t s = Ok (l, ext).
Proof.
  unfold flatten, et_header, et_depth, is_leaf, from_trusted. intros [nr Hd Hn|ps l' ext' Hd [Hn Hi] Hf|ps l' ext' Hd [Hn Hi] Hf];
    cbn [eh_depth eh_entries et_header from_trusted] in *; rewrite Hd; cbn [Z.eqb negb andb Pos.eqb].
  - by rewrite (proj2 (Z.leb_le _ _)) by exact Hn.
  - rewrite (proj2 (Z.leb_le _ _)), Hi, <- list_fmap_compose by exact Hn. destruct (leaves_read s ps l' ext' Hf) as [Hl ->].
    change (ei_leaf ∘ idx_of) with (@snd Z Z). by rewrite Hl.
  - rewrite (proj2 (Z.leb_le _ _)), Hi, <- list_fmap_compose by exact Hn. change (ei_leaf ∘ idx_of) with (@snd Z Z). by apply interiors_read.
Qed.

(** The search of an index finds the child that decides the block. *)
Lemma first_key_least l : exts_ok l -> forall e, e ∈ l -> first_key l <= e_block e.
Proof.
  intros Hl%exts_ok_keys e He. destruct Hl as [|f l Hl Hb]; [set_solver|]. cbn. rewrite Forall_forall in Hb.
  apply elem_of_cons in He as [->|He]; [done|]. specialize (Hb e He). lia.
Qed.

Lemma exts_ok_app l k : exts_ok (l ++ k) -> exts_ok l /\ exts_ok k /\ forall e f, e ∈ l -> f ∈ k -> before e f.
Proof.
  intros [He Hs]. apply Forall_app in He as [H1 H2]. induction l as [|x l IH]; cbn [app] in *.
  - split_and!; [split; constructor|by split|set_solver].
  - apply StronglySorted_inv in Hs as [Hs Hb]. apply Forall_cons in H1 as [Hx H1]. destruct (IH H1 Hs) as (I1 & I2 & I3).
    apply Forall_app in Hb as [B1 B2]. split_and!; [|done|].
    + split; [constructor; [done|apply I1]|]. constructor; [apply I1|done].
    + intros e f [->|He']%elem_of_cons Hf; [|by apply I3]. rewrite Forall_forall in B2. by apply B2.
Qed.

Lemma above_unmapped l b : (forall e, e ∈ l -> b < e_block e) -> ext_map l b = None.
Proof. intros Ha. destruct (ext_map l b) as [q|] eqn:E; [exfalso|done]. apply ext_map_cover in E as (e & He & Hc). specialize (Ha e He). lia. Qed.
Lemma below_unmapped l b : (forall e, e ∈ l -> e_end e <= b) -> ext_map l b = None.
Proof. intros Ha. destruct (ext_map l b) as [q|] eqn:E; [exfalso|done]. apply ext_map_cover in E as (e & He & Hc). specialize (Ha e He). lia. Qed.

Lemma forest_search T ps l ext b : forest T ps l ext -> exts_ok l -> forall best,
  match last_at_or_below fst b ps best with
  | Some p => (best = Some p /\ ext_map l b = None) \/
      (exists l0 ext0, T p.2 l0 ext0 /\ exts_ok l0 /\ (forall e, e ∈ l0 -> e ∈ l) /\ first_key l0 <= b /\ l0 <> [] /\ ext_map l b = ext_map l0 b)
  | None => best = None /\ ext_map l b = None
  end.
Proof.
  induction 1 as [|p ps l l' ext ext' HT Hne Hk Hf IH]; intros Hl best; cbn [last_at_or_below].
  - destruct best; [by left|done].
  - destruct (exts_ok_app l l' Hl) as (H1 & H2 & H3). rewrite ext_map_app. destruct (Z.leb_spec p.1 b) as [Hle|Hgt].
    + specialize (IH H2 (Some p)). destruct (last_at_or_below fst b ps (Some p)) as [q|]; [|by destruct IH].
      destruct IH as [[[= <-] ->]|(l0 & ext0 & T0 & O0 & I0 & K0 & N0 & E0)].
      * right. exists l, ext. split_and!; try done; [set_solver|lia|by destruct (ext_map l b)].
      * right. exists l0, ext0. split_and!; try done; [set_solver|]. rewrite below_unmapped; [done|].
        intros e He. destruct l0 as [|f l0]; [done|]. cbn in K0. specialize (H3 e f He (I0 f ltac:(left))). unfold before, e_end in *. lia.
    + assert (ext_map l b = None /\ ext_map l' b = None) as [-> ->].
      { rewrite <- Hk in Hgt. pose proof (first_key_least l H1) as Hmin. split; apply above_unmapped; intros e He; [specialize (Hmin e He); lia|].
        destruct l as [|f l]; [done|]. specialize (H3 f e ltac:(left) He). cbn in Hgt. pose proof (Forall_cons_1 _ _ _ (eo_each _ H1)) as [Hf0 _].
        pose proof (xo_len f Hf0). unfold before in H3. lia. }
      destruct best; [by left|done].
Qed.

(** *** Searching one node *)

Lemma parse_leaf_search block l b : parse_leaf_node block = Ok l ->
  search_node block b = Ok (match find_cover l b with Some e => Found e | None => Hole end).
Proof.
  unfold parse_leaf_node, search_node. destruct (header_try_from (node_header block)) as [h|e]; cbn [rbind]; [|done].
  destruct (is_leaf h) eqn:El; [|done]. unfold search_entries, find_cover. rewrite El. destruct (negb _); [|done]. intros [= <-].
  by destruct (last_at_or_below _ _ _ _) as [x|]; [destruct (covers x b)|].
Qed.

Lemma index_search h root ps b :
  eh_depth h <> 0 -> entry_off (eh_entries h) <= zlen root -> index_entries (eh_entries h) root = idx_of <$> ps ->
  search_entries h root b = Ok (match last_at_or_below fst b ps None with Some p => Descend p.2 | None => Hole end).
Proof.
  intros Hd Hn Hi. unfold search_entries, is_leaf. rewrite (proj2 (Z.ltb_ge _ _)), (proj2 (Z.eqb_neq _ _)), Hi by done. cbn [negb].
  pose proof (last_at_or_below_map idx_of fst ei_block b ps (fun _ => eq_refl) None) as E. cbn [fmap option_fmap option_map] in E. rewrite E.
  by destruct (last_at_or_below fst b ps None).
Qed.

(** *** The lookup *)

Definition found_in (l : list Extent) (b : Z) (r : option Extent) : Prop :=
  match r with Some e => e ∈ l /\ covers e b = true /\ ext_map l b = e_map e b | None => ext_map l b = None end.

Lemma leaf_lookup s bid l ext b n : leaf_at s bid l ext -> exts_ok l ->
  exists r, lookup_from (Datatypes.S n) s bid b = Ok r /\ found_in l b r.
Proof.
  intros (-> & block & Hr & Hp) Hl. cbn [lookup_from]. rewrite Hr. cbn [rbind]. rewrite (parse_leaf_search block l b Hp). cbn [rbind].
  pose proof (search_extents l b Hl) as Hs. destruct (find_cover l b) as [e|]; eexists; (split; [done|]); done.
Qed.

Lemma found_in_sub l l0 b r : (forall e, e ∈ l0 -> e ∈ l) -> ext_map l b = ext_map l0 b -> found_in l0 b r -> found_in l b r.
Proof. intros Hs E. destruct r as [e|]; cbn; [|congruence]. intros (H1 & H2 & H3). split_and!; [by apply Hs|done|congruence]. Qed.

(** The walk from an index, given the walk from its children. *)
Lemma forest_lookup s T ps l ext b n : forest T ps l ext -> exts_ok l ->
  (forall bid l0 ext0, T bid l0 ext0 -> exts_ok l0 -> exists r, lookup_from n s bid b = Ok r /\ found_in l0 b r) ->
  exists r, match last_at_or_below fst b ps None with Some p => lookup_from n s p.2 b | None => Ok None end = Ok r /\ found_in l b r.
Proof.
  intros Hf Hl HT. pose proof (forest_search T ps l ext b Hf Hl None) as Hs. destruct (last_at_or_below fst b ps None) as [p|].
  - destruct Hs as [[? _]|(l0 & ext0 & T0 & O0 & I0 & _ & _ & E0)]; [done|]. destruct (HT p.2 l0 ext0 T0 O0) as (r & E & Hr).
    exists r. split; [done|]. by eapply found_in_sub.
  - exists None. split; [done|apply Hs].
Qed.

Lemma interior_lookup s bid l ext b n : interior_at s bid l ext -> exts_ok l ->
  exists r, lookup_from (Datatypes.S (Datatypes.S n)) s bid b = Ok r /\ found_in l b r.
Proof.
  intros (ps & ext' & block & -> & Hr & Hp & [Hn Hi] & Hf) Hl. remember (Datatypes.S n) as m. cbn [lookup_from]. rewrite Hr. cbn [rbind].
  unfold parse_interior_node, search_node in *. unfold header_try_from in *. destruct (rh_magic _ =? _); [|done]. cbn [rbind] in *.
  destruct (negb (_ <? _)) in *; [|done]. destruct (negb (5 <? _)) in *; [|done]. cbn [rbind] in *.
  rewrite (index_search _ block ps b); [|intros Hz; unfold is_leaf in Hp; by rewrite Hz in Hp|done|done]. cbn [rbind].
  destruct (forest_lookup s (leaf_at s) ps l ext' b m Hf Hl) as (r & E & Hr').
  { intros. subst m. by eapply leaf_lookup. }
  exists r. split; [|done]. rewrite <- E. by destruct (last_at_or_below fst b ps None).
Qed.

Lemma repr_lookup s t l ext b : repr s (et_root t) l ext -> exts_ok l -> exists r, lookup t s b = Ok r /\ found_in l b r.
Proof.
  intros Hrep Hl. unfold lookup. assert (Hh : et_header t = from_trusted (node_header (et_root t))) by done.
  destruct Hrep as [nr Hd Hn|ps l ext Hd [Hn Hi] Hf|ps l ext Hd [Hn Hi] Hf].
  - unfold search_entries, is_leaf. rewrite Hh. cbn [eh_depth eh_entries from_trusted]. rewrite Hd. fold nr. rewrite (proj2 (Z.ltb_ge _ _)) by done.
    cbn [negb Z.eqb]. pose proof (search_extents (leaf_entries nr (et_root t)) b Hl) as Hs. unfold find_cover in Hs.
    destruct (last_at_or_below _ _ _ _) as [e|]; [destruct (covers e b) eqn:Ec|]; cbn [rbind]; eexists; (split; [done|]); done.
  - rewrite (index_search (et_header t) (et_root t) ps b); [|by rewrite Hh; cbn; rewrite Hd|done|done]. cbn [rbind].
    destruct (forest_lookup s (leaf_at s) ps l ext b MAX_DEPTH Hf Hl) as (r & E & Hr'); [intros; by eapply leaf_lookup|].
    exists r. split; [|done]. rewrite <- E. by destruct (last_at_or_below fst b ps None).
  - rewrite (index_search (et_header t) (et_root t) ps b); [|by rewrite Hh; cbn; rewrite Hd|done|done]. cbn [rbind].
    destruct (forest_lookup s (interior_at s) ps l ext b MAX_DEPTH Hf Hl) as (r & E & Hr'); [intros; by eapply interior_lookup|].
    exists r. split; [|done]. rewrite <- E. by destruct (last_at_or_below fst b ps None).
Qed.
End Reading.
