(* ===== verification/ExtentWrite.v ===== *)
(** * Writing an extent tree

    The steps of [reserialize] under the invariant of the allocator: the
    blocks of the tree are among the runs that are held, a step that succeeds
    keeps every other held block as it was, and the tree written at the end
    stands for the list it was given. *)

From stdpp Require Import sorting.
From S2P Require Import Prelude Pod Checksum JournalFormat Device Bitmap SuperBlock GroupDesc Transaction JournalState MetaStore BlockGroup Alloc AllocSpec.
From S2P Require Import Credits ExtentNode ExtentMap ExtentTree.

Lemma concat_forall {A} (P : A -> Prop) cs c : Forall P (concat cs) -> c ∈ cs -> Forall P c.
Proof. rewrite !Forall_forall. intros HP Hc x Hx. apply HP, list_elem_of_In, in_concat. exists c. by rewrite <- !list_elem_of_In. Qed.

(** ** Runs that are held *)

Definition block_runs (bids : list Z) : list (Z * Z) := (fun b => (b, b + 1)) <$> bids.
Definition held (runs : list (Z * Z)) (b : Z) : nat := length (holders runs b).

Lemma held_app r k b : held (r ++ k) b = (held r b + held k b)%nat.
Proof. unfold held, holders. by rewrite filter_app, length_app. Qed.

Lemma held_cons r k b : held (r :: k) b = (one_if (r.1 <= b < r.2)%Z + held k b)%nat.
Proof. unfold held. rewrite holders_cons. unfold one_if. repeat case_decide; unfold in_run in *; cbn in *; tauto. Qed.

Lemma held_blocks bids b : held (block_runs bids) b = length (filter (fun c => c = b) bids).
Proof.
  induction bids as [|c bids IH]; [done|]. unfold block_runs in *. cbn [fmap list_fmap]. rewrite held_cons, IH, filter_cons. cbn [fst snd].
  unfold one_if. repeat case_decide; cbn [length]; lia.
Qed.

Lemma held_blocks_in bids b : b ∈ bids -> (1 <= held (block_runs bids) b)%nat.
Proof.
  intros Hb. rewrite held_blocks. assert (b ∈ filter (fun c => c = b) bids) as H by (by apply list_elem_of_filter).
  destruct (filter _ bids); [set_solver|cbn; lia].
Qed.

Lemma held_nil runs b : held runs b = 0%nat <-> holders runs b = [].
Proof. unfold held. by destruct (holders runs b). Qed.

Section Held.
Context {S : Type} `{MetaStoreOk S}.
Implicit Types s : S.

Definition holds (fs : Ext4) (s : S) (runs : list (Z * Z)) : Prop := session_ok {| s_fs := fs; s_store := s; s_held := runs |}.

Lemma holds_fs fs s runs : holds fs s runs -> fs_ok fs /\ fs_stored fs s /\ ms_ok s.
Proof. by intros [K1 K2 K3 _ _]. Qed.

Lemma holds_once fs s runs b : holds fs s runs -> (held runs b <= 1)%nat.
Proof. intros [_ _ _ K4 _]. apply K4. Qed.

Lemma holds_block fs s runs b : holds fs s runs -> (1 <= held runs b)%nat ->
  ~ fs_free fs b /\ ~ fs_system fs b /\ sb_first_data_block (super_block fs) <= b < sb_blocks_count (super_block fs).
Proof. intros [_ _ _ _ K5] Hb. apply (K5 b). cbn [s_held]. unfold held in Hb. intros E. rewrite E in Hb. cbn in Hb. lia. Qed.

(** Only the number of holders of each block matters. *)
Lemma holds_same fs s r k : (forall b, held r b = held k b) -> holds fs s r -> holds fs s k.
Proof.
  intros E [K1 K2 K3 K4 K5]. split; cbn [s_fs s_store s_held] in *; try done.
  - intros b. fold (held k b). rewrite <- E. apply K4.
  - intros b Hb. apply K5. rewrite <- held_nil in *. by rewrite E.
Qed.

Lemma holds_nodup fs s bids runs : holds fs s (block_runs bids ++ runs) -> NoDup bids /\ forall b, b ∈ bids -> held runs b = 0%nat.
Proof.
  intros Hh. assert (Ho : forall b, (held (block_runs bids) b + held runs b <= 1)%nat).
  { intros b. rewrite <- held_app. by eapply holds_once. }
  split; [|intros b Hb; specialize (Ho b); pose proof (held_blocks_in bids b Hb); lia].
  clear Hh. induction bids as [|c bids IH]; [constructor|]. assert (Hc : forall b, (held (block_runs (c :: bids)) b = one_if (c <= b < c + 1)%Z + held (block_runs bids) b)%nat).
  { intros b. unfold block_runs. cbn [fmap list_fmap]. by rewrite held_cons. }
  constructor; [|apply IH; intros b; specialize (Ho b); rewrite Hc in Ho; lia].
  intros Hin%held_blocks_in. specialize (Ho c). rewrite Hc in Ho. unfold one_if in Ho. rewrite decide_True in Ho by lia. lia.
Qed.

(** What a step leaves alone: blocks outside [X] that are not the file
    system's own, the set of system blocks, the geometry, and freed blocks
    that await their commit. *)
Record frame (X : Z -> Prop) (fs : Ext4) (s : S) (fs' : Ext4) (s' : S) : Prop := {
  fm_read c : ~ fs_system fs c -> ~ X c -> ms_read s' c = ms_read s c;
  fm_system c : fs_system fs' c <-> fs_system fs c;
  fm_super : exists fb, super_block fs' = sb_set (super_block fs) fb (sb_free_inodes_count (super_block fs))
    (sb_feature_incompat (super_block fs)) (sb_last_orphan (super_block fs));
  fm_pinned c : fs_free fs c -> pinned s c -> fs_free fs' c /\ pinned s' c;
}.

Lemma frame_refl fs s : frame (fun _ => False) fs s fs s.
Proof. split; [done|done| |done]. exists (sb_free_blocks_count (super_block fs)). apply sb_set_self. Qed.

Lemma frame_trans X Y fs s fs1 s1 fs2 s2 : frame X fs s fs1 s1 -> frame Y fs1 s1 fs2 s2 -> frame (fun c => X c \/ Y c) fs s fs2 s2.
Proof.
  intros [A1 A2 [fb A3] A4] [B1 B2 [fb' B3] B4]. split.
  - intros c Hs Hx. rewrite B1; [apply A1; tauto|by rewrite A2|tauto].
  - intros c. by rewrite B2.
  - exists fb'. rewrite B3, A3. by destruct (super_block fs).
  - intros c Hf Hp. destruct (A4 c Hf Hp). by apply B4.
Qed.

Lemma frame_weaken (X Y : Z -> Prop) fs s fs' s' : (forall c, X c -> Y c) -> frame X fs s fs' s' -> frame Y fs s fs' s'.
Proof. intros HX [A1 A2 A3 A4]. split; try done. intros c Hs Hy. apply A1; [done|]. intros Hx. by apply Hy, HX. Qed.

(** *** The primitives *)

Lemma alloc_holds fs s runs count goal range fs' s' :
  holds fs s runs -> 0 <= count -> fs_alloc_blocks count goal (fs, s) = (Ok range, (fs', s')) ->
  holds fs' s' (range :: runs) /\ frame (fun _ => False) fs s fs' s' /\ range.1 < range.2 <= range.1 + count /\
  (forall b, range.1 <= b < range.2 -> fs_free fs b).
Proof.
  intros Hh Hc E. pose proof (session_step_ok _ _ _ Hh (Step_alloc fs s runs count goal range fs' s' Hc E)) as Hh'.
  destruct (holds_fs _ _ _ Hh) as (K1 & K2 & K3). apply fs_alloc_blocks_spec in E as [A1 A2 A3 A4 A5 A6 A7 A8 A9 A10]; try done.
  split; [exact Hh'|]. split; [split; [by intros c Hs _; apply A9|done|by eexists|]|split; [lia|]].
  { intros c Hf Hp. rewrite A3, A10. split_and!; try done. intros Hin. by destruct (A2 c Hin) as (_ & _ & []). }
  intros b Hb. by apply A2.
Qed.

Lemma free_holds fs s runs a e duty fs' s' :
  holds fs s ((a, e) :: runs) -> a <= e -> fs_free_blocks a (e - a) duty (fs, s) = (Ok tt, (fs', s')) ->
  holds fs' s' runs /\ frame (fun c => a <= c < e) fs s fs' s' /\ (forall c, fs_free fs' c <-> fs_free fs c \/ a <= c < e) /\
  (forall c, pinned s c \/ a <= c < e -> pinned s' c).
Proof.
  intros Hh Hae E. pose proof (session_step_ok _ _ _ Hh (Step_free fs s [] runs a e duty fs' s' E Hae)) as Hh'.
  pose proof (free_held fs s a e [] runs duty fs' s' Hh Hae E) as [F1 F2 F3 F4 F5 F6 F7 F8]. split; [exact Hh'|]. split_and!; try done. split; try done.
  intros c Hf Hp. rewrite F1. split; [by left|]. apply F2. by left.
Qed.

(** A step of the store that touches one block the system does not use. *)
Lemma store_holds fs s s' b runs :
  holds fs s runs -> ms_ok s' -> (forall c, c <> b -> ms_read s' c = ms_read s c) -> (forall c, pinned s' c <-> pinned s c) -> ~ fs_system fs b ->
  holds fs s' runs /\ frame (fun c => c = b) fs s fs s'.
Proof.
  intros Hh Hok Hrd Hp Hb. destruct (holds_fs _ _ _ Hh) as (K1 & K2 & K3). split.
  - apply (session_step_ok _ _ _ Hh (Step_other fs s runs s' Hok ltac:(eapply fs_stored_on; [|exact K2]; intros c Hc; apply Hrd; by intros ->))).
  - split; [intros c _; apply Hrd|done| |intros c Hf Hc; by rewrite Hp]. exists (sb_free_blocks_count (super_block fs)). apply sb_set_self.
Qed.

Lemma write_node_holds fs s runs b block r fs' s' :
  holds fs s runs -> (1 <= held runs b)%nat -> is_block block -> write_node b block (fs, s) = (r, (fs', s')) ->
  fs' = fs /\ holds fs s' runs /\ frame (fun c => c = b) fs s fs s' /\ match r with Ok _ => ms_read s' b = Ok block | Err e => handled e = true end.
Proof.
  intros Hh Hb Hbl. destruct (holds_block _ _ _ _ Hh Hb) as (_ & Hs & _). destruct (holds_fs _ _ _ Hh) as (K1 & K2 & K3).
  unfold write_node. frun. destruct (ms_write b s) as [[a|e] s1] eqn:E1; destruct (ms_write_spec _ _ _ _ K3 E1) as (Hok1 & Hrd1 & _ & Hp1 & Hr1); frun.
  - destruct (ms_patch_spec s1 a b (fun _ => block) Hok1 Hr1) as (img & s2 & R2 & E2 & Hok2 & Hrd2 & _ & Hp2); [done|]. rewrite E2. cbn [fst snd].
    intros [= <- <- <-]. destruct (store_holds fs s s2 b runs Hh Hok2) as [P1 P2]; [| |done|].
    { intros c Hc. by rewrite Hrd2, decide_False, Hrd1. }
    { intros c. by rewrite Hp2, Hp1. }
    split_and!; try done. by rewrite Hrd2, decide_True.
  - intros [= <- <- <-]. destruct (store_holds fs s s1 b runs Hh Hok1) as [P1 P2]; [by intros; apply Hrd1|done|done|]. by split_and!.
Qed.

Lemma write_nodes_holds nodes : forall fs s runs fs' s',
  holds fs s runs -> Forall (fun x => is_block x.1 /\ (1 <= held runs x.2)%nat) nodes -> NoDup (nodes.*2) ->
  write_nodes nodes (fs, s) = (Ok tt, (fs', s')) ->
  fs' = fs /\ holds fs s' runs /\ frame (fun c => c ∈ nodes.*2) fs s fs s' /\
  (forall block b, (block, b) ∈ nodes -> ms_read s' b = Ok block).
Proof.
  induction nodes as [|[block b] nodes IH]; intros fs s runs fs' s' Hh Hn Hd; cbn [write_nodes].
  - frun. intros [= <- <-]. split_and!; [done|done|eapply frame_weaken; [|apply frame_refl]; done|set_solver].
  - apply Forall_cons in Hn as [[H1 H2] Hn]. cbn [fst snd] in H1, H2. cbn [fmap list_fmap] in Hd. apply NoDup_cons in Hd as [Hnb Hd].
    rewrite bind_eq. destruct (write_node b block (fs, s)) as [r [fs1 s1]] eqn:E1.
    destruct (write_node_holds fs s runs b block r fs1 s1 Hh H2 H1 E1) as (-> & P1 & P2 & P3). destruct r as [[]|e]; cbn [fst snd]; [|done].
    intros E2. destruct (IH fs s1 runs fs' s' P1 Hn Hd E2) as (-> & Q1 & Q2 & Q3). split_and!; [done|done| |].
    + eapply frame_weaken; [|eapply frame_trans; [exact P2|exact Q2]]. cbn [fmap list_fmap snd]. set_solver.
    + intros blk c [[= -> ->]|Hin]%elem_of_cons; [|by apply Q3]. rewrite (fm_read _ _ _ _ _ Q2), P3; try done.
      by destruct (holds_block _ _ _ _ Hh H2) as (_ & ? & _).
Qed.

Lemma alloc_meta_holds fs s runs goal b fs' s' :
  holds fs s runs -> alloc_meta_block goal (fs, s) = (Ok b, (fs', s')) ->
  holds fs' s' ((b, b + 1) :: runs) /\ frame (fun c => c = b) fs s fs' s' /\ fs_free fs b.
Proof.
  intros Hh. unfold alloc_meta_block. rewrite bind_eq. destruct (fs_alloc_blocks 1 goal (fs, s)) as [[range|e] [fs1 s1]] eqn:E1; cbn [fst snd]; [|done].
  destruct (alloc_holds fs s runs 1 goal range fs1 s1 Hh ltac:(lia) E1) as (P1 & P2 & P3 & P4).
  assert (range = (range.1, range.1 + 1)) as Hr by (destruct range; cbn in *; f_equal; lia). rewrite Hr in P1. frun.
  destruct (ms_create range.1 s1) as [[a|e] s2] eqn:E2; frun; [|done].
  destruct (holds_fs _ _ _ P1) as (_ & _ & K3). destruct (ms_create_spec _ _ _ _ K3 E2) as (Hok2 & Hrd2 & _ & Hp2 & _). intros [= <- <- <-].
  destruct (store_holds fs1 s1 s2 range.1 _ P1 Hok2 Hrd2 Hp2) as [Q1 Q2].
  { eapply holds_block; [exact P1|]. rewrite held_cons. unfold one_if. cbn. rewrite decide_True by lia. lia. }
  split_and!; [done| |apply P4; lia]. eapply frame_weaken; [|eapply frame_trans; [exact P2|exact Q2]]. tauto.
Qed.

(** A block that was not free before a step that only takes free blocks. *)
Lemma alloc_meta_free fs s runs goal b fs' s' c :
  holds fs s runs -> alloc_meta_block goal (fs, s) = (Ok b, (fs', s')) -> fs_free fs' c -> fs_free fs c.
Proof.
  intros Hh. unfold alloc_meta_block. rewrite bind_eq. destruct (fs_alloc_blocks 1 goal (fs, s)) as [[range|e] [fs1 s1]] eqn:E1; cbn [fst snd]; [|done].
  destruct (holds_fs _ _ _ Hh) as (K1 & K2 & K3). apply fs_alloc_blocks_spec in E1 as [A1 A2 A3 A4 A5 A6 A7 A8 A9 A10]; try done.
  frun. destruct (ms_create range.1 s1) as [[a|e] s2]; frun; [|done]. intros [= _ <- _]. rewrite A3. tauto.
Qed.

Lemma or_rollback_ok {A} blocks (m : M (Ext4 * S) A) st a st' : or_rollback blocks m st = (Ok a, st') -> m st = (Ok a, st').
Proof.
  unfold or_rollback. destruct (m st) as [[x|e] st1]; [done|]. destruct (handled e); [|done].
  rewrite bind_eq. destruct (rollback_meta_blocks blocks st1) as [[?|?] ?]; cbn [fst snd]; [rewrite fail_eq|]; done.
Qed.

Lemma acquire_fresh_holds n : forall goal newly runs fs s r fs' s',
  holds fs s (block_runs newly ++ runs) -> acquire_fresh n goal newly (fs, s) = (Ok r, (fs', s')) ->
  exists fresh, r = newly ++ fresh /\ length fresh = n /\ holds fs' s' (block_runs r ++ runs) /\
    frame (fun c => c ∈ fresh) fs s fs' s' /\ Forall (fs_free fs) fresh.
Proof.
  induction n as [|n IH]; intros goal newly runs fs s r fs' s' Hh; cbn [acquire_fresh].
  - frun. intros [= <- <- <-]. exists []. rewrite app_nil_r. split_and!; try done. eapply frame_weaken; [|apply frame_refl]. done.
  - rewrite bind_eq. destruct (or_rollback newly (alloc_meta_block goal) (fs, s)) as [[b|e] [fs1 s1]] eqn:E1; cbn [fst snd]; [|done].
    apply or_rollback_ok in E1. destruct (alloc_meta_holds _ _ _ _ _ _ _ Hh E1) as (P1 & P2 & P3).
    intros E2. apply (IH goal (newly ++ [b]) runs) in E2 as (fresh & -> & Hl & Q1 & Q2 & Q3).
    + exists (b :: fresh). rewrite <- app_assoc in *. split_and!; try done; [cbn; lia| |].
      * eapply frame_weaken; [|eapply frame_trans; [exact P2|exact Q2]]. set_solver.
      * constructor; [done|]. eapply Forall_impl; [exact Q3|]. intros c Hc. by eapply alloc_meta_free.
    + eapply holds_same; [|exact P1]. intros c. unfold block_runs. rewrite fmap_app, !held_app, held_cons, held_app. cbn [fmap list_fmap]. rewrite held_cons.
      change (held [] c) with 0%nat. cbn [fst snd]. lia.
Qed.

Lemma free_meta_blocks_holds bids : forall fs s runs fs' s',
  holds fs s (block_runs bids ++ runs) -> free_meta_blocks bids (fs, s) = (Ok tt, (fs', s')) ->
  holds fs' s' runs /\ frame (fun c => c ∈ bids) fs s fs' s'.
Proof.
  induction bids as [|b bids IH]; intros fs s runs fs' s' Hh; cbn [free_meta_blocks].
  - frun. intros [= <- <-]. split; [done|]. eapply frame_weaken; [|apply frame_refl]. done.
  - rewrite bind_eq. unfold free_meta_block. destruct (fs_free_blocks b 1 true (fs, s)) as [[[]|e] [fs1 s1]] eqn:E1; cbn [fst snd]; [|done].
    replace 1 with (b + 1 - b) in E1 at 1 by lia. destruct (free_holds fs s (block_runs bids ++ runs) b (b + 1) true fs1 s1) as (P1 & P2 & _); [done|lia|done|].
    intros E2. destruct (IH _ _ _ _ _ P1 E2) as [Q1 Q2]. split; [done|].
    eapply frame_weaken; [|eapply frame_trans; [exact P2|exact Q2]]. intros c [Hc|Hc]; [assert (c = b) as -> by lia; left|by right].
Qed.
End Held.

(** ** The tree that was written *)

Lemma zip_fst {A B} (l : list A) (k : list B) : length l = length k -> (zip l k).*1 = l.
Proof. intros H. apply fst_zip. lia. Qed.
Lemma zip_snd {A B} (l : list A) (k : list B) : length l = length k -> (zip l k).*2 = k.
Proof. intros H. apply snd_zip. lia. Qed.

(** The root as its readers see it. *)
Lemma root_bounds n : 0 <= n <= INLINE_MAX -> entry_off n <= ROOT_SIZE /\ fits 16 n.
Proof. unfold entry_off, ENTRY_SIZE, INLINE_MAX, ROOT_SIZE, fits. lia. Qed.

Lemma inline_root_header l : Forall ext_ok l -> zlen l <= INLINE_MAX ->
  let root := inline_leaf_root l in
  zlen root = ROOT_SIZE /\ node_header root = {| rh_magic := EXTENT_MAGIC; rh_entries := zlen l; rh_max := INLINE_MAX; rh_depth := 0; rh_generation := 0 |} /\
  leaf_entries (zlen l) root = l.
Proof.
  intros Hl Hn root. pose proof (zlen_nonneg l). destruct (root_bounds (zlen l) ltac:(lia)) as [B1 B2].
  assert (Hz : zlen (extent_to_raw <$> l) = zlen l) by (unfold zlen; by rewrite length_fmap).
  destruct (build_node_spec raw_extent_codec eq_refl ROOT_SIZE INLINE_MAX 0 (extent_to_raw <$> l)) as (P1 & P2 & P3); rewrite ?Hz; try done.
  { apply Forall_fmap. eapply Forall_impl; [exact Hl|]. apply extent_raw_wf. }
  rewrite Hz in P2, P3. fold (inline_leaf_root l) in P1, P2, P3. split_and!; try done.
  unfold leaf_entries. rewrite <- (map_map (fun i => read_at raw_extent_codec (entry_off i) root) extent_from). unfold root. rewrite P3.
  change (map ?f ?x) with (f <$> x). rewrite <- list_fmap_compose. rewrite <- (list_fmap_id l) at 2. apply list_fmap_ext. intros j e Hj.
  apply extent_roundtrip. by eapply Forall_lookup_1 in Hl.
Qed.

Lemma index_root_header ps depth : Forall idx_ok ps -> zlen ps <= INLINE_MAX -> fits 16 depth ->
  let root := index_root (idx_pairs ps) depth in
  zlen root = ROOT_SIZE /\ node_header root = {| rh_magic := EXTENT_MAGIC; rh_entries := zlen ps; rh_max := INLINE_MAX; rh_depth := depth; rh_generation := 0 |} /\
  idx_root root ps.
Proof.
  intros Hl Hn Hd root. pose proof (zlen_nonneg ps). destruct (root_bounds (zlen ps) ltac:(lia)) as [B1 B2].
  assert (Hz : zlen (idx_pairs ps) = zlen ps) by (unfold zlen, idx_pairs; by rewrite length_fmap).
  destruct (build_node_spec extent_idx_codec eq_refl ROOT_SIZE INLINE_MAX depth (idx_pairs ps)) as (P1 & P2 & P3); rewrite ?Hz; try done.
  { apply Forall_fmap. eapply Forall_impl; [exact Hl|]. intros p [H1 H2]. by apply index_entry_wf. }
  rewrite Hz in P2, P3. fold (index_root (idx_pairs ps) depth) in P1, P2, P3. fold root in P1, P2, P3. split_and!; try done.
  unfold idx_root. rewrite P2. cbn [rh_entries]. split; [by rewrite P1|]. by apply index_entries_read.
Qed.

Lemma interior_idx_root seed ps : Forall idx_ok ps -> zlen ps <= INTERIOR_MAX -> idx_root (interior_node seed (idx_pairs ps)) ps.
Proof.
  intros Hl Hn. pose proof (zlen_nonneg ps). destruct (node_bounds (zlen ps) ltac:(unfold LEAF_MAX, INTERIOR_MAX in *; lia)) as (B1 & B2 & B3).
  assert (Hz : zlen (idx_pairs ps) = zlen ps) by (unfold zlen, idx_pairs; by rewrite length_fmap).
  destruct (stamped_node extent_idx_codec seed INTERIOR_MAX 1 (idx_pairs ps) eq_refl) as (P1 & P2 & P3); rewrite ?Hz; try done.
  { apply Forall_fmap. eapply Forall_impl; [exact Hl|]. intros p [H1 H2]. by apply index_entry_wf. }
  rewrite Hz in P2, P3. fold (interior_node seed (idx_pairs ps)) in P1, P2, P3. unfold idx_root. rewrite P2. cbn [rh_entries].
  unfold is_block in P1. split; [lia|]. by apply index_entries_read.
Qed.

Section Forests.
Context {S : Type} `{MetaStore S}.
Implicit Types s : S.

Lemma leaves_forest s seed cs : forall bids,
  length cs = length bids -> Forall (fun c => c <> [] /\ zlen c <= LEAF_MAX /\ Forall ext_ok c) cs ->
  (forall block b, (block, b) ∈ zip (leaf_node seed <$> cs) bids -> ms_read s b = Ok block) ->
  forest (leaf_at s) (zip (first_key <$> cs) bids) (concat cs) bids.
Proof.
  induction cs as [|c cs IH]; intros bids Hl Hc Hr; destruct bids as [|b bids]; try done; [constructor|].
  apply Forall_cons in Hc as [(H1 & H2 & H3) Hc]. cbn [fmap list_fmap zip zip_with concat] in *. change (b :: bids) with ([b] ++ bids).
  apply forest_cons; [|done|done|].
  - split; [done|]. exists (leaf_node seed c). split; [apply Hr; left|]. by apply leaf_node_parses.
  - apply IH; [cbn in Hl; lia|done|]. intros block b' Hin. apply Hr. by right.
Qed.

Lemma forest_split (T : Z -> list Extent -> list Z -> Prop) ps qs : forall l ext, forest T (ps ++ qs) l ext ->
  exists l1 l2 e1 e2, l = l1 ++ l2 /\ ext = e1 ++ e2 /\ forest T ps l1 e1 /\ forest T qs l2 e2.
Proof.
  induction ps as [|p ps IH]; intros l ext Hf; cbn [app] in Hf.
  - exists [], l, [], ext. split_and!; [done|done|constructor|done].
  - inversion Hf as [|p' ps' l0 l' e0 e' HT Hne Hk Hf']; subst. destruct (IH _ _ Hf') as (l1 & l2 & e1 & e2 & -> & -> & F1 & F2).
    exists (l0 ++ l1), l2, (e0 ++ e1), e2. rewrite !app_assoc. split_and!; try done. by constructor.
Qed.

Lemma forest_first (T : Z -> list Extent -> list Z -> Prop) p ps l ext : forest T (p :: ps) l ext -> l <> [] /\ first_key l = p.1.
Proof. inversion 1 as [|p' ps' l0 l' e0 e' HT Hne Hk Hf']; subst. by destruct l0. Qed.

Lemma interiors_forest s seed pcs : forall ibids l ext,
  length pcs = length ibids -> Forall (fun c => c <> [] /\ zlen c <= INTERIOR_MAX /\ Forall idx_ok c) pcs ->
  forest (leaf_at s) (concat pcs) l ext ->
  (forall block b, (block, b) ∈ zip ((fun c => interior_node seed (idx_pairs c)) <$> pcs) ibids -> ms_read s b = Ok block) ->
  exists ext', forest (interior_at s) (zip ((fun c => first_idx (idx_pairs c)) <$> pcs) ibids) l ext' /\ ext' ≡ₚ ibids ++ ext.
Proof.
  induction pcs as [|c pcs IH]; intros ibids l ext Hl Hc Hf Hr; destruct ibids as [|b ibids]; try done.
  - inversion Hf; subst. exists []. by split; [constructor|].
  - apply Forall_cons in Hc as [(H1 & H2 & H3) Hc]. cbn [fmap list_fmap zip zip_with concat] in *.
    destruct (forest_split _ _ _ _ _ Hf) as (l1 & l2 & e1 & e2 & -> & -> & F1 & F2).
    destruct (IH ibids l2 e2) as (ext' & G1 & G2); [cbn in Hl; lia|done|done|intros block b' Hin; apply Hr; by right|].
    destruct (interior_node_parses seed c H3 H2) as (Q1 & Q2 & _).
    destruct c as [|q c]; [done|]. destruct (forest_first _ _ _ _ _ F1) as [N1 K1].
    exists ((b :: e1) ++ ext'). split.
    + apply forest_cons; [|done|done|done]. exists (q :: c), e1, (interior_node seed (idx_pairs (q :: c))).
      split_and!; try done; [apply Hr; left|]. by apply interior_idx_root.
    + cbn [app]. constructor. rewrite G2, !app_assoc. apply Permutation_app_tail, Permutation_app_comm.
Qed.
End Forests.

(** ** Rewriting the tree *)

Lemma tree_eq {S : Type} (t : ExtentTree) (st : Ext4 * S) : tree (t, st) = (Ok t, (t, st)).
Proof. done. Qed.
Lemma set_root_eq {S : Type} root (t : ExtentTree) (st : Ext4 * S) :
  set_root root (t, st) = (Ok tt, ({| et_root := root; et_sector_count := et_sector_count t; et_dirty := et_dirty t |}, st)).
Proof. done. Qed.

Ltac trun := repeat first [progress frun | rewrite tree_eq | rewrite set_root_eq].

Section Rewrite.
Context {S : Type} `{MetaStoreOk S}.
Implicit Types s : S.

(** What a successful [reserialize] of [l] leaves, in the blocks [ext']. *)
Record rewritten (l : list Extent) (ext : list Z) (runs : list (Z * Z)) (t : ExtentTree) (fs : Ext4) (s : S) (delta : Z)
  (t' : ExtentTree) (fs' : Ext4) (s' : S) (ext' : list Z) : Prop := {
  rw_repr : repr s' (et_root t') l ext';
  rw_root : zlen (et_root t') = ROOT_SIZE;
  rw_holds : holds fs' s' (block_runs ext' ++ runs);
  rw_count : zlen ext' = external_node_count (zlen l);
  rw_delta : delta = zlen ext' - zlen ext;
  rw_tree : et_sector_count t' = et_sector_count t /\ et_dirty t' = et_dirty t;
  rw_frame : frame (fun c => c ∈ ext \/ fs_free fs c) fs s fs' s';
}.

Lemma block_runs_app l k : block_runs (l ++ k) = block_runs l ++ block_runs k.
Proof. unfold block_runs. by rewrite fmap_app. Qed.

Lemma held_perm l k b : l ≡ₚ k -> held (block_runs l) b = held (block_runs k) b.
Proof. intros Hp. unfold held, holders, block_runs. by rewrite Hp. Qed.

Lemma acquire_holds ext count goal runs fs s blocks newly fs' s' :
  holds fs s (block_runs ext ++ runs) -> 0 <= count -> acquire_meta_blocks ext count goal (fs, s) = (Ok (blocks, newly), (fs', s')) ->
  let surplus := drop (Z.to_nat (Z.min count (zlen ext))) ext in
  zlen blocks = count /\ zlen newly - zlen surplus = count - zlen ext /\
  holds fs' s' (block_runs (blocks ++ surplus) ++ runs) /\ frame (fun c => c ∈ newly) fs s fs' s' /\ Forall (fs_free fs) newly /\
  (forall c, c ∈ blocks ++ surplus -> c ∈ ext \/ c ∈ newly).
Proof.
  intros Hh Hc. unfold acquire_meta_blocks. rewrite bind_eq. set (reuse := Z.min count (zlen ext)).
  destruct (acquire_fresh _ goal [] (fs, s)) as [[r|e] [fs1 s1]] eqn:E1; cbn [fst snd]; [|done]. frun. intros [= <- <- <- <-].
  apply (acquire_fresh_holds _ _ [] (block_runs ext ++ runs)) in E1 as (fresh & -> & Hl & P1 & P2 & P3); [|done]. cbn [app] in *.
  pose proof (zlen_nonneg ext). unfold zlen in *. rewrite length_app, length_take, length_drop. split_and!; try done; [lia|lia| |].
  - eapply holds_same; [|exact P1]. intros c. rewrite !held_app, !block_runs_app, !held_app. rewrite <- (take_drop (Z.to_nat reuse) ext) at 1.
    rewrite block_runs_app, held_app. lia.
  - intros c. rewrite <- (take_drop (Z.to_nat reuse) ext) at 3. set_solver.
Qed.

Lemma ext_ok_key e : ext_ok e -> fits 32 (e_block e).
Proof. intros [B L E _]. unfold fits. lia. Qed.

Lemma volume_fits fs b : fs_ok fs -> sb_first_data_block (super_block fs) <= b < sb_blocks_count (super_block fs) -> fits 48 b.
Proof.
  intros Hf Hb. pose proof (so_cover _ (fo_sb fs Hf)). pose proof (so_bpg _ (fo_sb fs Hf)). pose proof (so_groups _ (fo_sb fs Hf)).
  pose proof (so_first _ (fo_sb fs Hf)) as Hfirst. unfold fits in *. nia.
Qed.

(** The keys and the children of an index. *)
Lemma index_pairs_ok fs s runs bids cs :
  holds fs s (block_runs bids ++ runs) -> Forall (fun c => c <> [] /\ Forall ext_ok c) cs -> Forall idx_ok (zip (first_key <$> cs) bids).
Proof.
  intros Hh Hc. apply Forall_forall. intros [k b] Hin. pose proof (elem_of_zip_l _ _ _ _ Hin) as H1. pose proof (elem_of_zip_r _ _ _ _ Hin) as H2.
  split; cbn [fst snd].
  - apply list_elem_of_fmap in H1 as (c & -> & Hin'). rewrite Forall_forall in Hc. destruct (Hc c Hin') as [Hne Hok].
    destruct c as [|e c]; [done|]. apply Forall_cons in Hok as [Hok _]. by apply ext_ok_key.
  - eapply volume_fits; [eapply holds_fs; exact Hh|]. eapply holds_block; [exact Hh|]. rewrite held_app. pose proof (held_blocks_in bids b H2). lia.
Qed.

Lemma leaf_index_pairs l bids : leaf_index l bids = idx_pairs (zip (first_key <$> chunks LEAF_MAX l) bids).
Proof.
  unfold leaf_index, idx_pairs. generalize (chunks LEAF_MAX l) as cs. intros cs. revert bids. induction cs as [|c cs IH]; intros [|b bids]; try done.
  cbn. f_equal. apply IH.
Qed.

Lemma root_index_pairs ps ibids :
  root_index (idx_pairs ps) ibids = idx_pairs (zip ((fun c => first_idx (idx_pairs c)) <$> chunks INTERIOR_MAX ps) ibids).
Proof.
  unfold root_index, idx_pairs at 1. rewrite chunks_fmap. unfold idx_pairs at 2. generalize (chunks INTERIOR_MAX ps) as cs. intros cs. revert ibids.
  induction cs as [|c cs IH]; intros [|b ibids]; try done. cbn. f_equal. apply IH.
Qed.

(** The chunks of the extents, as leaves. *)
Lemma leaf_chunks l : exts_ok l -> let cs := chunks LEAF_MAX l in
  concat cs = l /\ zlen cs = div_ceil (zlen l) LEAF_MAX /\ Forall (fun c => c <> [] /\ zlen c <= LEAF_MAX /\ Forall ext_ok c) cs.
Proof.
  intros Hl cs. destruct (chunks_spec LEAF_MAX l ltac:(by vm_compute)) as (P1 & P2 & P3). fold cs in P1, P2, P3. split_and!; try done.
  apply Forall_forall. intros c Hc. rewrite Forall_forall in P2. destruct (P2 c Hc) as [H1 H2]. split_and!; try done.
  eapply (concat_forall _ cs); [rewrite P1; apply Hl|done].
Qed.

Section Steps.
Variable seed : option InodeCsumSeed.

Lemma rewrite_inline l ext runs t fs s na nf t' fs' s' :
  holds fs s (block_runs ext ++ runs) -> exts_ok l -> zlen l <= INLINE_MAX ->
  reserialize seed l ext (t, (fs, s)) = (Ok (na, nf), (t', (fs', s'))) -> rewritten l ext runs t fs s (na - nf) t' fs' s' [].
Proof.
  intros Hh Hl Hn. unfold reserialize. rewrite (proj2 (Z.leb_le _ _)) by done. trun.
  destruct (free_meta_blocks ext (fs, s)) as [[[]|e] [fs1 s1]] eqn:E1; trun; [|done]. intros [= <- <- <- <- <-].
  destruct (free_meta_blocks_holds _ _ _ _ _ _ Hh E1) as [P1 P2]. destruct (inline_root_header l (eo_each l Hl) Hn) as (R1 & R2 & R3).
  split; cbn [et_root et_sector_count et_dirty]; try done.
  - pose proof (repr_inline s1 (inline_leaf_root l)) as Hr. rewrite R2 in Hr. cbn [rh_depth rh_entries] in Hr. rewrite R3 in Hr. apply Hr; [done|].
    rewrite R1. apply root_bounds. pose proof (zlen_nonneg l). lia.
  - unfold external_node_count. by rewrite (proj2 (Z.leb_le _ _)) by done.
  - eapply frame_weaken; [|exact P2]. tauto.
Qed.

(** Writing the nodes, then freeing what is left over. *)
Lemma write_and_free nodes surplus runs fs s fs1 s1 fs2 s2 :
  holds fs s (block_runs (nodes.*2 ++ surplus) ++ runs) -> Forall (fun x => is_block x.1) nodes ->
  write_nodes nodes (fs, s) = (Ok tt, (fs1, s1)) -> free_meta_blocks surplus (fs1, s1) = (Ok tt, (fs2, s2)) ->
  holds fs2 s2 (block_runs (nodes.*2) ++ runs) /\ frame (fun c => c ∈ nodes.*2 ++ surplus) fs s fs2 s2 /\
  (forall block b, (block, b) ∈ nodes -> ms_read s2 b = Ok block).
Proof.
  intros Hh Hb E1 E2. destruct (holds_nodup _ _ _ _ Hh) as [Hd _]. apply NoDup_app in Hd as (Hd1 & Hd2 & _).
  assert (Hheld : forall x, x ∈ nodes -> (1 <= held (block_runs (nodes.*2 ++ surplus) ++ runs) x.2)%nat).
  { intros x Hx. rewrite held_app. pose proof (held_blocks_in (nodes.*2 ++ surplus) x.2 ltac:(set_solver)). lia. }
  destruct (write_nodes_holds nodes fs s _ fs1 s1 Hh) as (-> & P1 & P2 & P3); [|done|done|].
  { apply Forall_forall. intros x Hx. rewrite Forall_forall in Hb. split; [by apply Hb|by apply Hheld]. }
  assert (Hh' : holds fs s1 (block_runs surplus ++ (block_runs (nodes.*2) ++ runs))).
  { eapply holds_same; [|exact P1]. intros c. rewrite block_runs_app, !held_app. lia. }
  destruct (free_meta_blocks_holds _ _ _ _ _ _ Hh' E2) as [Q1 Q2]. split_and!; [done| |].
  - eapply frame_weaken; [|eapply frame_trans; [exact P2|exact Q2]]. set_solver.
  - intros block b Hin. rewrite (fm_read _ _ _ _ _ Q2), (P3 block b Hin); [done| |].
    + by destruct (holds_block _ _ _ _ Hh (Hheld (block, b) Hin)) as (_ & ? & _).
    + apply Hd2. apply list_elem_of_fmap. by exists (block, b).
Qed.

Lemma div_ceil_pos n m : 0 < m -> 0 < n -> 0 < div_ceil n m.
Proof. intros. unfold div_ceil. apply Z.div_str_pos. lia. Qed.

Lemma leaf_node_blocks l : exts_ok l -> Forall is_block (leaf_node seed <$> chunks LEAF_MAX l).
Proof.
  intros Hl. destruct (leaf_chunks l Hl) as (_ & _ & Hc). apply Forall_fmap. eapply Forall_impl; [exact Hc|]. intros c (_ & H1 & H2).
  by apply leaf_node_parses.
Qed.

Lemma zip_blocks (bl : list (list byte)) (bids : list Z) : Forall is_block bl -> Forall (fun x => is_block x.1) (zip bl bids).
Proof. intros Hb. apply Forall_forall. intros [c b] Hin%elem_of_zip_l. rewrite Forall_forall in Hb. by apply Hb. Qed.

Lemma rewrite_one l ext runs t fs s na nf t' fs' s' :
  holds fs s (block_runs ext ++ runs) -> exts_ok l -> INLINE_MAX < zlen l -> div_ceil (zlen l) LEAF_MAX <= INLINE_MAX ->
  reserialize seed l ext (t, (fs, s)) = (Ok (na, nf), (t', (fs', s'))) ->
  exists ext', rewritten l ext runs t fs s (na - nf) t' fs' s' ext'.
Proof.
  intros Hh Hl Hn Hm. unfold reserialize. rewrite (proj2 (Z.leb_gt _ _)), (proj2 (Z.leb_le (div_ceil _ _) _)) by done. trun.
  set (goal := match l with e :: _ => e_start e | [] => 0 end). set (cs := chunks LEAF_MAX l). destruct (leaf_chunks l Hl) as (C1 & C2 & C3). fold cs in C1, C2, C3.
  destruct (acquire_meta_blocks ext _ goal (fs, s)) as [[[bids newly]|e] [fs1 s1]] eqn:E1; trun; [|done].
  pose proof (div_ceil_pos (zlen l) LEAF_MAX ltac:(by vm_compute) ltac:(unfold INLINE_MAX in *; lia)) as Hpos.
  destruct (acquire_holds ext (div_ceil (zlen l) LEAF_MAX) goal runs fs s bids newly fs1 s1 Hh ltac:(lia) E1) as (A1 & A2 & A3 & A4 & A5 & A6). set (surplus := drop _ ext) in *.
  assert (Hlen : length cs = length bids) by (rewrite <- C2 in A1; unfold zlen in A1; lia).
  destruct (or_rollback newly _ (fs1, s1)) as [[[]|e] [fs2 s2]] eqn:E2; trun; [|done]. apply or_rollback_ok in E2.
  destruct (free_meta_blocks surplus (fs2, s2)) as [[[]|e] [fs3 s3]] eqn:E3; trun; [|done]. intros [= <- <- <- <- <-]. exists bids.
  assert (Hz : (leaf_nodes seed l bids).*2 = bids) by (unfold leaf_nodes; apply zip_snd; rewrite length_fmap; done).
  destruct (write_and_free (leaf_nodes seed l bids) surplus runs fs1 s1 fs2 s2 fs3 s3) as (W1 & W2 & W3); rewrite ?Hz; try done.
  { by apply zip_blocks, leaf_node_blocks. }
  rewrite Hz in W1, W2. pose proof (index_pairs_ok _ _ _ _ cs W1 ltac:(eapply Forall_impl; [exact C3|]; naive_solver)) as Hidx.
  rewrite leaf_index_pairs. fold cs. destruct (index_root_header (zip (first_key <$> cs) bids) 1 Hidx) as (R1 & R2 & R3); [|done|].
  { unfold zlen. rewrite length_zip, length_fmap, <- Hlen. unfold zlen in *. lia. }
  split; cbn [et_root et_sector_count et_dirty]; try done.
  - eapply repr_one; [by rewrite R2|exact R3|]. pose proof (leaves_forest s3 seed cs bids Hlen C3 W3) as Hf. by rewrite C1 in Hf.
  - unfold external_node_count. rewrite (proj2 (Z.leb_gt _ _)), (proj2 (Z.leb_le (div_ceil _ _) _)) by done. lia.
  - lia.
  - eapply frame_weaken; [|eapply frame_trans; [exact A4|exact W2]]. rewrite Forall_forall in A5. intros c [Hc|Hc]; [right; by apply A5|].
    destruct (A6 c Hc); [by left|right; by apply A5].
Qed.

Lemma write_nodes_app a b st st1 st2 :
  write_nodes a st = (Ok tt, st1) -> write_nodes b st1 = (Ok tt, st2) -> write_nodes (a ++ b) st = (Ok tt, st2).
Proof.
  revert st. induction a as [|[block bid] a IH]; intros st; cbn [write_nodes app].
  - rewrite mret_eq. by intros [= ->].
  - rewrite !bind_eq. destruct (write_node bid block st) as [[[]|e] st0]; cbn [fst snd]; [|done]. apply IH.
Qed.

(** The chunks of an index, as interior nodes. *)
Lemma interior_nodes_pairs ps ibids : interior_nodes seed (idx_pairs ps) ibids =
  zip ((fun c => interior_node seed (idx_pairs c)) <$> chunks INTERIOR_MAX ps) ibids.
Proof. unfold interior_nodes, idx_pairs at 1. by rewrite chunks_fmap, <- list_fmap_compose. Qed.

Lemma interior_chunks ps : Forall idx_ok ps -> let pcs := chunks INTERIOR_MAX ps in
  concat pcs = ps /\ zlen pcs = div_ceil (zlen ps) INTERIOR_MAX /\
  Forall (fun c => c <> [] /\ zlen c <= INTERIOR_MAX /\ Forall idx_ok c) pcs /\
  Forall is_block ((fun c => interior_node seed (idx_pairs c)) <$> pcs).
Proof.
  intros Hp pcs. destruct (chunks_spec INTERIOR_MAX ps ltac:(by vm_compute)) as (P1 & P2 & P3). fold pcs in P1, P2, P3.
  assert (HF : Forall (fun c => c <> [] /\ zlen c <= INTERIOR_MAX /\ Forall idx_ok c) pcs).
  { apply Forall_forall. intros c Hc. rewrite Forall_forall in P2. destruct (P2 c Hc) as [H1 H2]. split_and!; try done.
    eapply (concat_forall _ pcs); [by rewrite P1|done]. }
  split_and!; try done. apply Forall_fmap. eapply Forall_impl; [exact HF|]. intros c (_ & H1 & H2). by apply interior_node_parses.
Qed.

Lemma root_pairs_ok fs s runs ps blocks ib lb :
  holds fs s (block_runs blocks ++ runs) -> blocks = lb ++ ib -> Forall idx_ok ps ->
  Forall idx_ok (zip ((fun c => first_idx (idx_pairs c)) <$> chunks INTERIOR_MAX ps) ib).
Proof.
  intros Hh -> Hp. apply Forall_forall. intros [k b] Hin. pose proof (elem_of_zip_l _ _ _ _ Hin) as H1. pose proof (elem_of_zip_r _ _ _ _ Hin) as H2.
  split; cbn [fst snd].
  - apply list_elem_of_fmap in H1 as (c & -> & Hc). destruct (interior_chunks ps Hp) as (_ & _ & I3 & _). rewrite Forall_forall in I3.
    destruct (I3 c Hc) as (Hne & _ & Hok). destruct c as [|q c]; [done|]. apply Forall_cons in Hok as [[Hq _] _]. exact Hq.
  - eapply volume_fits; [eapply holds_fs; exact Hh|]. eapply holds_block; [exact Hh|]. rewrite held_app.
    pose proof (held_blocks_in (lb ++ ib) b ltac:(set_solver)). lia.
Qed.

(** The forest of a tree of depth two. *)
Lemma two_levels s cs ps l leaf_bids ibids :
  concat cs = l -> length cs = length leaf_bids -> Forall (fun c => c <> [] /\ zlen c <= LEAF_MAX /\ Forall ext_ok c) cs ->
  ps = zip (first_key <$> cs) leaf_bids -> Forall idx_ok ps -> length (chunks INTERIOR_MAX ps) = length ibids ->
  (forall block b, (block, b) ∈ zip (leaf_node seed <$> cs) leaf_bids ++ interior_nodes seed (idx_pairs ps) ibids -> ms_read s b = Ok block) ->
  exists ext', forest (interior_at s) (zip ((fun c => first_idx (idx_pairs c)) <$> chunks INTERIOR_MAX ps) ibids) l ext' /\
    ext' ≡ₚ leaf_bids ++ ibids.
Proof.
  intros C1 Hlen C3 Eps Hidx Hil Hr. destruct (interior_chunks ps Hidx) as (I1 & _ & I3 & _).
  pose proof (leaves_forest s seed cs leaf_bids Hlen C3 ltac:(intros; apply Hr; set_solver)) as Hf. rewrite C1, <- Eps, <- I1 in Hf.
  destruct (interiors_forest s seed _ ibids l leaf_bids Hil I3 Hf) as (ext' & G1 & G2).
  { intros block b Hin. apply Hr. rewrite interior_nodes_pairs. set_solver. }
  exists ext'. split; [done|]. rewrite G2. apply Permutation_app_comm.
Qed.

Lemma rewrite_two l ext runs t fs s na nf t' fs' s' :
  holds fs s (block_runs ext ++ runs) -> exts_ok l -> INLINE_MAX < zlen l -> INLINE_MAX < div_ceil (zlen l) LEAF_MAX ->
  reserialize seed l ext (t, (fs, s)) = (Ok (na, nf), (t', (fs', s'))) ->
  exists ext', rewritten l ext runs t fs s (na - nf) t' fs' s' ext'.
Proof.
  intros Hh Hl Hn Hm. unfold reserialize. rewrite (proj2 (Z.leb_gt _ _)), (proj2 (Z.leb_gt (div_ceil _ _) _)) by done.
  set (nl := div_ceil (zlen l) LEAF_MAX) in *. set (ni := div_ceil nl INTERIOR_MAX). destruct (Z.ltb_spec INLINE_MAX ni) as [|Hni]; [by rewrite fail_eq|]. trun.
  set (goal := match l with e :: _ => e_start e | [] => 0 end). set (cs := chunks LEAF_MAX l). destruct (leaf_chunks l Hl) as (C1 & C2 & C3). fold cs nl in C1, C2, C3.
  pose proof (div_ceil_pos nl INTERIOR_MAX ltac:(by vm_compute) ltac:(unfold INLINE_MAX in *; lia)) as Hpos. fold ni in Hpos.
  destruct (acquire_meta_blocks ext _ goal (fs, s)) as [[[blocks newly]|e] [fs1 s1]] eqn:E1; trun; [|done].
  destruct (acquire_holds ext (nl + ni) goal runs fs s blocks newly fs1 s1 Hh ltac:(unfold INLINE_MAX in *; lia) E1) as (A1 & A2 & A3 & A4 & A5 & A6). set (surplus := drop _ ext) in *.
  set (lb := take (Z.to_nat nl) blocks). set (ib := drop (Z.to_nat nl) blocks). assert (Hb : blocks = lb ++ ib) by (unfold lb, ib; by rewrite take_drop).
  assert (Hlen : length cs = length lb) by (unfold zlen, lb in *; rewrite length_take; unfold INLINE_MAX in *; lia).
  assert (Hilen : Z.of_nat (length ib) = ni) by (unfold zlen, ib in *; rewrite length_drop; unfold INLINE_MAX in *; lia).
  rewrite leaf_index_pairs. fold cs. set (ps := zip (first_key <$> cs) lb).
  destruct (or_rollback newly _ (fs1, s1)) as [[[]|e] [fs2 s2]] eqn:E2; trun; [|done]. apply or_rollback_ok in E2.
  destruct (or_rollback newly _ (fs2, s2)) as [[[]|e] [fs3 s3]] eqn:E3; trun; [|done]. apply or_rollback_ok in E3.
  destruct (free_meta_blocks surplus (fs3, s3)) as [[[]|e] [fs4 s4]] eqn:E4; trun; [|done]. intros [= <- <- <- <- <-].
  assert (Hps : length ps = length cs) by (unfold ps; rewrite length_zip, length_fmap; lia).
  assert (Hidx : Forall idx_ok ps).
  { eapply (index_pairs_ok fs1 s1 (block_runs (ib ++ surplus) ++ runs)); [|eapply Forall_impl; [exact C3|]; naive_solver].
    eapply holds_same; [|exact A3]. intros c. rewrite Hb, !held_app, !block_runs_app, !held_app. lia. }
  destruct (interior_chunks ps Hidx) as (I1 & I2 & I3 & I4).
  assert (Hil : length (chunks INTERIOR_MAX ps) = length ib).
  { assert (zlen (chunks INTERIOR_MAX ps) = ni) as Hz; [|unfold zlen in Hz; lia]. rewrite I2. assert (zlen ps = nl) as -> by (unfold zlen in *; rewrite Hps; exact C2). done. }
  assert (Hz : (leaf_nodes seed l lb ++ interior_nodes seed (idx_pairs ps) ib).*2 = blocks).
  { rewrite fmap_app. unfold leaf_nodes. fold cs. rewrite zip_snd by (by rewrite length_fmap). rewrite interior_nodes_pairs, zip_snd by (by rewrite length_fmap). done. }
  destruct (write_and_free (leaf_nodes seed l lb ++ interior_nodes seed (idx_pairs ps) ib) surplus runs fs1 s1 fs3 s3 fs4 s4) as (W1 & W2 & W3); rewrite ?Hz; try done.
  { apply Forall_app. split; [by apply zip_blocks, leaf_node_blocks|]. rewrite interior_nodes_pairs. by apply zip_blocks. }
  { by eapply write_nodes_app. }
  rewrite Hz in W1, W2. destruct (two_levels s4 cs ps l lb ib C1 Hlen C3 eq_refl Hidx Hil W3) as (ext' & G1 & G2). exists ext'.
  rewrite root_index_pairs. set (rs := zip ((fun c => first_idx (idx_pairs c)) <$> chunks INTERIOR_MAX ps) ib) in *.
  destruct (index_root_header rs 2) as (R1 & R2 & R3); [by eapply root_pairs_ok|unfold zlen, rs; rewrite length_zip, length_fmap; lia|done|].
  assert (Hze : zlen ext' = nl + ni) by (rewrite <- A1, Hb; unfold zlen; by rewrite (Permutation_length G2)).
  split; cbn [et_root et_sector_count et_dirty]; try done.
  - by eapply repr_two; [rewrite R2|exact R3|].
  - eapply holds_same; [|exact W1]. intros c. rewrite !held_app. f_equal. symmetry. rewrite Hb. by apply held_perm.
  - rewrite Hze. unfold external_node_count. rewrite (proj2 (Z.leb_gt _ _)), (proj2 (Z.leb_gt (div_ceil _ _) _)) by done. done.
  - lia.
  - eapply frame_weaken; [|eapply frame_trans; [exact A4|exact W2]]. rewrite Forall_forall in A5. intros c [Hc|Hc]; [right; by apply A5|].
    destruct (A6 c Hc); [by left|right; by apply A5].
Qed.

Lemma reserialize_spec l ext runs t fs s na nf t' fs' s' :
  holds fs s (block_runs ext ++ runs) -> exts_ok l -> reserialize seed l ext (t, (fs, s)) = (Ok (na, nf), (t', (fs', s'))) ->
  exists ext', rewritten l ext runs t fs s (na - nf) t' fs' s' ext'.
Proof.
  intros Hh Hl E. destruct (decide (zlen l <= INLINE_MAX)); [exists []; by apply rewrite_inline|].
  destruct (decide (div_ceil (zlen l) LEAF_MAX <= INLINE_MAX)); [eapply rewrite_one|eapply rewrite_two]; try done; lia.
Qed.
End Steps.
End Rewrite.
