(* ===== verification/ExtentSpec.v ===== *)
(** * What the extent tree guarantees

    The theorems on [extent_manager/tree.rs]: a lookup agrees with the map the
    tree stands for, and inserting, converting, truncating and punching change
    that map exactly as they should, while the tree and the free blocks keep
    accounting for every block once, [i_blocks] stays exact, and no block of
    another file is touched. *)

From stdpp Require Import sorting.
From S2P Require Import Prelude Pod Checksum JournalFormat Device Bitmap SuperBlock GroupDesc Transaction JournalState MetaStore BlockGroup Alloc AllocSpec.
From S2P Require Import Credits ExtentNode ExtentMap ExtentTree ExtentWrite.

Section Spec.
Context {S : Type} `{MetaStoreOk S}.
Implicit Types s : S.

(** A tree in the store: it stands for the extents [l] and lives in the blocks
    [ext], both held next to the runs [runs] of the rest of the volume, and
    [i_blocks] counts them. *)
Record tree_ok (t : ExtentTree) (fs : Ext4) (s : S) (l : list Extent) (ext : list Z) (runs : list (Z * Z)) : Prop := {
  to_repr : repr s (et_root t) l ext;
  to_exts : exts_ok l;
  to_holds : holds fs s (block_runs ext ++ runs_of l ++ runs);
  to_sectors : et_sector_count t = (data_blocks l + zlen ext) * SECTORS_PER_BLOCK;
}.

(** *** Other trees *)

Lemma forest_mono (T T' : Z -> list Extent -> list Z -> Prop) ps l ext :
  forest T ps l ext -> (forall bid l0 e0, (forall b, b ∈ e0 -> b ∈ ext) -> T bid l0 e0 -> T' bid l0 e0) -> forest T' ps l ext.
Proof.
  induction 1 as [|p ps l l' ext ext' HT Hne Hk Hf IH]; intros HTT; [constructor|]. constructor; try done.
  - apply HTT; [set_solver|done].
  - apply IH. intros bid l0 e0 Hin. apply HTT. set_solver.
Qed.

(** A tree only depends on its own blocks. *)
Lemma repr_same s s' root l ext : (forall b, b ∈ ext -> ms_read s' b = ms_read s b) -> repr s root l ext -> repr s' root l ext.
Proof.
  intros Hrd Hrep. revert Hrd. assert (Hleaf : forall e : list Z, (forall b, b ∈ e -> ms_read s' b = ms_read s b) -> forall bid l0 e0,
    (forall b, b ∈ e0 -> b ∈ e) -> leaf_at s bid l0 e0 -> leaf_at s' bid l0 e0).
  { intros e Hrd bid l0 e0 Hin (-> & block & Hr & Hp). split; [done|]. exists block. split; [|done]. rewrite Hrd; [done|]. apply Hin. set_solver. }
  destruct Hrep as [nr Hd Hn|ps l ext Hd Hi Hf|ps l ext Hd Hi Hf]; intros Hrd; [by constructor| |].
  - eapply repr_one; [done|done|]. eapply forest_mono; [exact Hf|]. by apply Hleaf.
  - eapply repr_two; [done|done|]. eapply forest_mono; [exact Hf|]. intros bid l1 e1 Hin (qs & e2 & block & -> & Hr & Hp & Hq & Hg).
    exists qs, e2, block. split_and!; try done; [rewrite Hrd; [done|]; apply Hin; set_solver|].
    eapply forest_mono; [exact Hg|]. apply Hleaf. intros b Hb. apply Hrd, Hin. set_solver.
Qed.

(** *** From one list to the next *)

Lemma held_runs l p : held (runs_of l) p = owners l p.
Proof. done. Qed.

Lemma data_blocks_nonneg l : exts_ok l -> 0 <= data_blocks l.
Proof.
  intros [He _]. induction He as [|e l He Hl IH]; [done|]. rewrite data_blocks_cons. pose proof (xo_len e He). lia.
Qed.

Lemma add_blocks_eq n t (st : Ext4 * S) :
  add_blocks n (t, st) =
    (Ok tt, ({| et_root := et_root t; et_sector_count := Z.max (et_sector_count t + n * SECTORS_PER_BLOCK) 0; et_dirty := true |}, st)).
Proof. done. Qed.

(** What an operation on a tree leaves: the tree of [l'], marked dirty, and
    every block but those of the old tree, the free ones and [X]. *)
Record tree_step (X : Z -> Prop) (t : ExtentTree) (fs : Ext4) (s : S) (ext : list Z) (t' : ExtentTree) (fs' : Ext4) (s' : S)
  (l' : list Extent) (ext' : list Z) (runs : list (Z * Z)) : Prop := {
  ts_ok : tree_ok t' fs' s' l' ext' runs;
  ts_dirty : et_dirty t' = true;
  ts_root : zlen (et_root t') = ROOT_SIZE;
  ts_nodes : zlen ext' = external_node_count (zlen l');
  ts_frame : frame (fun c => X c \/ c ∈ ext \/ fs_free fs c) fs s fs' s';
}.

Lemma rewrite_step seed t fs s l0 l' ext runs na nf t1 fs' s' n :
  holds fs s (block_runs ext ++ runs_of l' ++ runs) -> exts_ok l' -> et_sector_count t = (data_blocks l0 + zlen ext) * SECTORS_PER_BLOCK ->
  reserialize seed l' ext (t, (fs, s)) = (Ok (na, nf), (t1, (fs', s'))) -> n = data_blocks l' - data_blocks l0 + (na - nf) ->
  exists t' ext', add_blocks n (t1, (fs', s')) = (Ok tt, (t', (fs', s'))) /\ tree_step (fun _ => False) t fs s ext t' fs' s' l' ext' runs.
Proof.
  intros Hh Hl Hs E ->. destruct (reserialize_spec seed _ _ _ _ _ _ _ _ _ _ _ Hh Hl E) as (ext' & [R1 R2 R3 R4 R5 [R6 _] R7]).
  rewrite add_blocks_eq. eexists _, ext'. split; [done|]. split; cbn [et_dirty et_root]; try done.
  - split; cbn [et_root et_sector_count]; try done. rewrite R6, Hs, R5. pose proof (data_blocks_nonneg l' Hl). pose proof (zlen_nonneg ext').
    unfold SECTORS_PER_BLOCK, BLOCK_SIZE. change (4096 / 512) with 8. lia.
  - eapply frame_weaken; [|exact R7]. tauto.
Qed.

(** The blocks of the file, and those that the rest of the volume holds, are
    not touched. *)
Lemma step_keeps t fs s l ext runs X t' fs' s' l' ext' runs' c :
  tree_ok t fs s l ext runs -> tree_step X t fs s ext t' fs' s' l' ext' runs' -> (1 <= held (runs_of l ++ runs) c)%nat -> ~ X c -> ms_read s' c = ms_read s c.
Proof.
  intros [_ _ T3 _] [_ _ _ _ P5] Hc HX. assert (Hh : (1 <= held (block_runs ext ++ runs_of l ++ runs) c)%nat) by (rewrite held_app; lia).
  destruct (holds_block _ _ _ _ T3 Hh) as (Hf & Hs & _). apply (fm_read _ _ _ _ _ P5); [done|]. intros [?|[Hx|?]]; [done| |done].
  destruct (holds_nodup _ _ _ _ T3) as [_ Hd]. specialize (Hd c Hx). lia.
Qed.

(** ** Insertion *)

Lemma hole_once l e : exts_ok l -> (forall b, e_block e <= b < e_block e + e_len e -> ext_map l b = None) -> once (l ++ [e]).
Proof.
  intros Hl Hhole b. rewrite covering_app, length_app, covering_cons. pose proof (exts_ok_once l Hl b). unfold one_if. case_decide as Hb; [|cbn; lia].
  specialize (Hhole b Hb). apply ext_map_None in Hhole. rewrite Hhole. cbn. lia.
Qed.

(** Inserting a run into a hole adds exactly that run to the map. *)
Lemma insert_spec seed t fs s l ext runs iblock pblock len kind t' fs' s' :
  let e := mk_extent iblock len pblock kind in
  tree_ok t fs s l ext ((pblock, pblock + len) :: runs) -> ext_ok e -> (forall b, iblock <= b < iblock + len -> ext_map l b = None) ->
  insert seed iblock pblock len kind (t, (fs, s)) = (Ok tt, (t', (fs', s'))) ->
  exists l' ext', tree_step (fun _ => False) t fs s ext t' fs' s' l' ext' runs /\
    forall b, ext_map l' b = match e_map e b with Some p => Some p | None => ext_map l b end.
Proof.
  intros e [T1 T2 T3 T4] He Hhole. unfold insert. trun. unfold flatten_now. cbn [fst snd]. rewrite (repr_flatten _ _ _ _ T1). trun.
  pose proof (hole_once l e T2 Hhole) as Ho.
  destruct (merge_extents_spec (l ++ [e])) as (M1 & M2 & M3 & _ & M5); [apply Forall_app; split; [apply T2|by constructor]|done|].
  destruct (reserialize seed _ ext (t, (fs, s))) as [[[na nf]|err] [t1 [fs1 s1]]] eqn:E; trun; [|done].
  destruct (rewrite_step seed t fs s l (merge_extents (l ++ [e])) ext runs na nf t1 fs1 s1 (len + (na - nf))) as (t2 & ext' & E2 & P); try done.
  - eapply holds_same; [|exact T3]. intros b. rewrite !held_app, held_cons, !held_runs, M3, owners_app, owners_cons. cbn [fst snd e mk_extent e_start e_len].
    change (owners [] b) with 0%nat. unfold one_if. repeat case_decide; lia.
  - rewrite M5, data_blocks_app. cbn. lia.
  - rewrite E2. intros [= <- <- <-]. exists (merge_extents (l ++ [e])), ext'. split; [done|]. intros b. rewrite M2, ext_map_app. cbn [ext_map].
    destruct (e_map e b) as [p|] eqn:Ee; [|by destruct (ext_map l b)]. apply e_map_Some in Ee as [Hb _]. by rewrite (Hhole b Hb).
Qed.

(** ** Conversion *)

(** Converting a range makes its unwritten blocks written, and changes nothing
    else; the physical blocks stay. *)
Lemma convert_spec seed t fs s l ext runs iblock len t' fs' s' :
  tree_ok t fs s l ext runs -> 0 <= iblock -> 0 < len ->
  convert_unwritten seed iblock len (t, (fs, s)) = (Ok tt, (t', (fs', s'))) ->
  exists l' ext', tree_ok t' fs' s' l' ext' runs /\ frame (fun c => c ∈ ext \/ fs_free fs c) fs s fs' s' /\
    (forall b, ext_map l' b = converted iblock (iblock + len) b (ext_map l b)) /\ (forall p, owners l' p = owners l p).
Proof.
  intros Ht Hi Hn. pose proof Ht as [T1 T2 T3 T4]. unfold convert_unwritten. trun. unfold flatten_now. cbn [fst snd]. rewrite (repr_flatten _ _ _ _ T1). trun.
  destruct (existsb _ l) eqn:Ex; cbn [negb]; trun.
  2: { intros [= <- <- <-]. exists l, ext. split_and!; [done|eapply frame_weaken; [|apply frame_refl]; done| |done]. intros b. by rewrite nothing_to_convert. }
  destruct (convert_extents_spec iblock (iblock + len) l (eo_each l T2) (exts_ok_once l T2) ltac:(lia)) as (C1 & C2 & C3 & C4 & C5).
  destruct (merge_extents_spec _ C1 C2) as (M1 & M2 & M3 & _ & M5).
  destruct (reserialize seed _ ext (t, (fs, s))) as [[[na nf]|err] [t1 [fs1 s1]]] eqn:E; trun; [|done].
  destruct (rewrite_step seed t fs s l (merge_extents (convert_extents iblock (iblock + len) l)) ext runs na nf t1 fs1 s1 (na - nf)) as (t2 & ext' & E2 & P); try done.
  - eapply holds_same; [|exact T3]. intros b. rewrite !held_app, !held_runs, M3, C3. done.
  - rewrite M5, C5. lia.
  - rewrite E2. intros [= <- <- <-]. eexists _, ext'. destruct P as [P1 _ _ _ P5]. split_and!; [exact P1| | |].
    + eapply frame_weaken; [|exact P5]. intros c [[]|[?|?]]; [by left|by right].
    + intros b. by rewrite M2, C4.
    + intros p. by rewrite M3, C3.
Qed.

(** ** Freeing *)

Lemma owners_in e l p : e ∈ l -> e_start e <= p < e_start e + e_len e -> (1 <= owners l p)%nat.
Proof.
  intros He Hp. apply list_elem_of_split in He as (l1 & l2 & ->). rewrite owners_app, owners_cons. unfold one_if. rewrite decide_True by done. lia.
Qed.

Lemma owners_pos l p : (1 <= owners l p)%nat -> exists e, e ∈ l /\ e_start e <= p < e_start e + e_len e.
Proof.
  induction l as [|e l IH]; intros Hp; [cbn in Hp; lia|]. rewrite owners_cons in Hp. unfold one_if in Hp. case_decide.
  - exists e. set_solver.
  - destruct (IH ltac:(lia)) as (f & ? & ?). exists f. set_solver.
Qed.

(** The runs freed by a chunk: a prefix of the doomed ones, now free and
    pinned until the commit. *)
Record dropped (fr : list Extent) (fs : Ext4) (s : S) (fs' : Ext4) (s' : S) : Prop := {
  dr_frame : frame (fun c => (1 <= owners fr c)%nat) fs s fs' s';
  dr_free p : (1 <= owners fr p)%nat -> fs_free fs' p /\ pinned s' p;
  dr_only p : fs_free fs' p -> fs_free fs p \/ (1 <= owners fr p)%nat;
}.

Lemma dropped_nil fs s : dropped [] fs s fs s.
Proof. split; [eapply frame_weaken; [|apply frame_refl]; done|intros p Hp; cbn in Hp; lia|by left]. Qed.

Lemma dropped_trans fr gr fs s fs1 s1 fs2 s2 :
  dropped fr fs s fs1 s1 -> dropped gr fs1 s1 fs2 s2 -> dropped (fr ++ gr) fs s fs2 s2.
Proof.
  intros [A1 A2 A3] [B1 B2 B3]. split.
  - eapply frame_weaken; [|eapply frame_trans; [exact A1|exact B1]]. cbn. intros c Hc. rewrite owners_app. lia.
  - intros p Hp. rewrite owners_app in Hp. destruct (decide (1 <= owners gr p)%nat) as [Hg|Hg]; [by apply B2|].
    destruct (A2 p ltac:(lia)). by apply (fm_pinned _ _ _ _ _ B1).
  - intros p Hp. rewrite owners_app. destruct (B3 p Hp) as [Hq|?]; [|right; lia]. destruct (A3 p Hq); [by left|right; lia].
Qed.

Lemma free_extent fs s e runs duty fs' s' :
  holds fs s (run_of e :: runs) -> 0 <= e_len e -> fs_free_blocks (e_start e) (e_len e) duty (fs, s) = (Ok tt, (fs', s')) ->
  holds fs' s' runs /\ dropped [e] fs s fs' s'.
Proof.
  intros Hh Hl E. unfold run_of in Hh. destruct (free_holds fs s runs (e_start e) (e_start e + e_len e) duty fs' s' Hh ltac:(lia)) as (P1 & P2 & P3 & P4).
  { replace (e_start e + e_len e - e_start e) with (e_len e) by lia. done. }
  assert (Hone : forall p, (1 <= owners [e] p)%nat <-> e_start e <= p < e_start e + e_len e).
  { intros p. rewrite owners_cons. unfold one_if. change (owners [] p) with 0%nat. case_decide; lia. }
  split; [done|]. split.
  - eapply frame_weaken; [|exact P2]. intros c Hc. by apply Hone.
  - intros p Hp%Hone. rewrite P3. split; [by right|]. apply P4. by right.
  - intros p. rewrite P3, Hone. tauto.
Qed.

Lemma probe_spec max need fs s stop fs' s' runs :
  holds fs s runs -> probe max need (fs, s) = (Ok stop, (fs', s')) ->
  fs' = fs /\ holds fs s' runs /\ dropped [] fs s fs s' /\ (max = None -> stop = false).
Proof.
  intros Hh. unfold probe. destruct max as [m|].
  - unfold stop_before_free. frun. destruct (ms_reserve need s) as [[o|e] s1] eqn:E; frun; [|done]. intros [= <- <- <-].
    destruct (holds_fs _ _ _ Hh) as (K1 & K2 & K3). destruct (ms_reserve_spec _ _ _ _ K3 E) as (R1 & R2 & R3 & _).
    split_and!; [done| | |done].
    + apply (session_step_ok _ _ _ Hh (Step_other fs s runs s1 R1 ltac:(eapply fs_stored_on; [|exact K2]; intros c _; apply R2))).
    + split; [|intros p Hp; cbn in Hp; lia|by left]. split; [by intros; apply R2|done| |by intros c Hf Hp; rewrite R3].
      exists (sb_free_blocks_count (super_block fs)). apply sb_set_self.
  - frun. intros [= <- <- <-]. split_and!; [done|done|apply dropped_nil|done].
Qed.

Lemma free_doomed_spec max need duty doomed : forall fs s runs unreached freed fs' s',
  holds fs s (runs_of doomed ++ runs) -> Forall (fun e => 0 <= e_len e) doomed ->
  free_doomed max need duty doomed (fs, s) = (Ok (unreached, freed), (fs', s')) ->
  exists fr, doomed = fr ++ unreached /\ freed = data_blocks fr /\ holds fs' s' (runs_of unreached ++ runs) /\ dropped fr fs s fs' s' /\
    (max = None -> unreached = []).
Proof.
  induction doomed as [|e doomed IH]; intros fs s runs unreached freed fs' s' Hh Hl; cbn [free_doomed].
  - frun. intros [= <- <- <- <-]. exists []. split_and!; try done. apply dropped_nil.
  - apply Forall_cons in Hl as [He Hl]. frun. destruct (probe max need (fs, s)) as [[stop|err] [fs1 s1]] eqn:E1; frun; [|done].
    destruct (probe_spec _ _ _ _ _ _ _ _ Hh E1) as (-> & P1 & P2 & P3). destruct stop; frun.
    + intros [= <- <- <- <-]. exists []. split_and!; try done. intros Hm. by specialize (P3 Hm).
    + destruct (fs_free_blocks _ _ duty (fs, s1)) as [[[]|err] [fs2 s2]] eqn:E2; frun; [|done].
      destruct (free_extent fs s1 e (runs_of doomed ++ runs) duty fs2 s2 P1 He E2) as [Q1 Q2].
      destruct (free_doomed max need duty doomed (fs2, s2)) as [[[un n]|err] [fs3 s3]] eqn:E3; frun; [|done]. intros [= <- <- <- <-].
      destruct (IH _ _ _ _ _ _ _ Q1 Hl E3) as (fr & -> & -> & R1 & R2 & R3). exists (e :: fr). split_and!; try done.
      pose proof (dropped_trans _ _ _ _ _ _ _ _ P2 (dropped_trans _ _ _ _ _ _ _ _ Q2 R2)) as H'. exact H'.
Qed.

Lemma owners_map l p : once l -> (1 <= owners l p)%nat <-> exists b k, ext_map l b = Some (p, k).
Proof.
  intros Ho. split.
  - intros (e & He & Hp)%owners_pos. exists (e_block e + (p - e_start e)), (e_kind e). apply ext_map_elem; [done|]. exists e. split; [done|].
    apply e_map_Some. unfold e_end. split; [lia|]. f_equal. lia.
  - intros (b & k & E). apply ext_map_elem in E as (e & He & E); [|done]. apply e_map_Some in E as [Hb [= -> _]].
    apply (owners_in e); [done|]. unfold e_end in Hb. lia.
Qed.

(** The blocks behind a range of the file. *)
Definition behind (l : list Extent) (a e : Z) (p : Z) : Prop := exists b k, a <= b < e /\ ext_map l b = Some (p, k).

(** The map without [[k, e)], whose blocks are free and pinned. *)
Record cut_off (t : ExtentTree) (fs : Ext4) (s : S) (l : list Extent) (ext : list Z) (runs : list (Z * Z)) (k e : Z)
  (t' : ExtentTree) (fs' : Ext4) (s' : S) (l' : list Extent) : Prop := {
  co_step : exists ext', tree_step (behind l k e) t fs s ext t' fs' s' l' ext' runs;
  co_map b : ext_map l' b = if in_range k e b then None else ext_map l b;
  co_free p : behind l k e p -> fs_free fs' p /\ pinned s' p;
}.

(** Rewriting the survivors after a part was freed. *)
Lemma survivors_step seed t fs s l ext runs fr l' k e na nf t1 fs1 s1 fs2 s2 n :
  et_sector_count t = (data_blocks l + zlen ext) * SECTORS_PER_BLOCK -> dropped fr fs s fs1 s1 -> survivors l k e fr l' ->
  holds fs1 s1 (block_runs ext ++ runs_of l' ++ runs) -> n = data_blocks fr ->
  reserialize seed l' ext (t, (fs1, s1)) = (Ok (na, nf), (t1, (fs2, s2))) ->
  exists t', add_blocks (- (n - (na - nf))) (t1, (fs2, s2)) = (Ok tt, (t', (fs2, s2))) /\ cut_off t fs s l ext runs k e t' fs2 s2 l'.
Proof.
  intros Hs [D1 D2 D3] [Hl' Ho _ Hd Hm Hfr] Hh -> E.
  destruct (rewrite_step seed t fs1 s1 l l' ext runs na nf t1 fs2 s2 (- (data_blocks fr - (na - nf))) Hh Hl' Hs E ltac:(lia)) as (t' & ext' & E2 & P).
  assert (Hb : forall p, behind l k e p <-> (1 <= owners fr p)%nat).
  { intros p. rewrite (owners_map fr p Ho). unfold behind. split; intros (b & kd & Hx); exists b, kd; rewrite Hfr in *; unfold in_range in *.
    - destruct Hx as [Hr Hx]. by replace ((k <=? b) && (b <? e)) with true by lia.
    - destruct ((k <=? b) && (b <? e)) eqn:Ei; [|done]. split; [lia|done]. }
  exists t'. split; [done|]. destruct P as [P1 P2 P3 P4 P5]. split.
  - exists ext'. split; try done. eapply frame_weaken; [|eapply frame_trans; [exact D1|exact P5]].
    cbn. intros c [Hc|[[]|[Hc|Hc]]]; [left; by apply Hb|right; by left|]. destruct (D3 c Hc); [right; by right|left; by apply Hb].
  - done.
  - intros p Hp%Hb. destruct (D2 p Hp). by apply (fm_pinned _ _ _ _ _ P5).
Qed.

Lemma exts_lens l : Forall ext_ok l -> Forall (fun e => 0 <= e_len e) l.
Proof. intros Hl. eapply Forall_impl; [exact Hl|]. intros e He. pose proof (xo_len e He). lia. Qed.

(** Punching: everything doomed when it says so, else the upper part. *)
Lemma punch_spec seed t fs s l ext runs a e duty max more next t' fs' s' :
  tree_ok t fs s l ext runs -> 0 <= a < e ->
  punch_chunk seed a e duty max (t, (fs, s)) = (Ok (more, next), (t', (fs', s'))) ->
  exists k l', a <= k <= e /\ (more = false -> k = a) /\ (max = None -> more = false) /\ cut_off t fs s l ext runs k e t' fs' s' l'.
Proof.
  intros [T1 T2 T3 T4] Hae. unfold punch_chunk. rewrite (proj2 (Z.leb_gt _ _)) by lia. trun. unfold flatten_now. cbn [fst snd].
  rewrite (repr_flatten _ _ _ _ T1). trun. rewrite (sort_sorted l T2). destruct (punch_split a e l) as [kept doomed] eqn:Es.
  pose proof (punch_split_spec a e l (eo_each l T2) (exts_ok_once l T2) Hae) as Hsp. rewrite Es in Hsp. destruct Hsp as (S1 & _ & S3 & _). trun.
  set (need := extent_free_credits + _). destruct (negb (over_floor _ _ need)) eqn:Ef; unfold guard; trun; [|done].
  destruct (free_doomed max need duty (sort_reverse doomed) (fs, s)) as [[[un n]|err] [fs1 s1]] eqn:E1; trun; [|done].
  assert (Hp : sort_reverse doomed ≡ₚ doomed) by apply sort_by_perm.
  apply (free_doomed_spec max need duty (sort_reverse doomed) fs s (block_runs ext ++ runs_of kept ++ runs)) in E1 as (fr & Edoom & -> & F1 & F2 & F3).
  2: { eapply holds_same; [|exact T3]. intros b. rewrite !held_app, !held_runs, <- (S3 b), owners_app, (owners_perm _ _ b Hp). lia. }
  2: { rewrite Hp. apply exts_lens. apply Forall_app in S1 as [_ S1]. exact S1. }
  destruct (punch_survivors a e l kept doomed un fr T2 Hae Es Edoom) as (k & K1 & K2 & K3).
  destruct (reserialize seed _ ext (t, (fs1, s1))) as [[[na nf]|err] [t1 [fs2 s2]]] eqn:E2; trun; [|done].
  destruct (survivors_step seed t fs s l ext runs fr _ k e na nf t1 fs1 s1 fs2 s2 (data_blocks fr) T4 F2 K3) as (t2 & E3 & P); [|done|done|].
  { eapply holds_same; [|exact F1]. intros b. rewrite !held_app, !held_runs, (owners_perm _ _ b (sort_by_perm e_block (kept ++ un))), owners_app. lia. }
  rewrite E3. trun. intros [= <- <- <- <- <-]. eexists k, _. split_and!; [lia|lia| |intros Hm; by rewrite bool_decide_eq_true_2 by (by apply F3)|exact P].
  intros Hm%negb_false_iff%bool_decide_eq_true. by apply K2.
Qed.

Lemma straddler_run keep x b : straddles keep x = true ->
  held [run_of x] b = (held [run_of (head_of keep x)] b + held [run_of (tail_of keep x)] b)%nat.
Proof.
  unfold straddles, e_end. intros Hs. rewrite !held_cons. change (held [] b) with 0%nat. unfold run_of, head_of, tail_of, mk_extent, one_if, e_end.
  cbn [fst snd e_start e_len]. repeat case_decide; lia.
Qed.

(** The extent across the new end: kept whole, or its tail freed. *)
Lemma free_straddler_spec max need duty keep stopped x fs s runs kept n fs' s' :
  holds fs s ([run_of x] ++ runs) -> ext_ok x -> straddles keep x = true ->
  free_straddler max need duty keep stopped x (fs, s) = (Ok (kept, n), (fs', s')) ->
  (kept = x /\ n = 0 /\ holds fs' s' ([run_of x] ++ runs) /\ dropped [] fs s fs' s' /\ (max = None -> stopped = true)) \/
  (kept = head_of keep x /\ stopped = false /\ n = e_len (tail_of keep x) /\
   holds fs' s' ([run_of (head_of keep x)] ++ runs) /\ dropped [tail_of keep x] fs s fs' s').
Proof.
  intros Hh Hx Hs. pose proof Hx as [B L E _]. unfold free_straddler. trun.
  assert (Hu : u16 (keep - e_block x) = keep - e_block x).
  { unfold straddles, e_end, u16, max_len, MAX_WRITTEN_LEN in *. apply wrap_small. unfold fits. destruct (is_unwritten x); lia. }
  rewrite Hu. destruct stopped; trun.
  - intros [= <- <- <- <-]. left. split_and!; try done. apply dropped_nil.
  - destruct (probe max need (fs, s)) as [[stop|err] [fs1 s1]] eqn:E1; trun; [|done].
    destruct (probe_spec _ _ _ _ _ _ _ _ Hh E1) as (-> & P1 & P2 & P3). destruct stop; trun.
    + intros [= <- <- <- <-]. left. split_and!; try done. intros Hm. by specialize (P3 Hm).
    + replace (e_start x + (keep - e_block x)) with (e_start (tail_of keep x)) by done.
      replace (e_len x - (keep - e_block x)) with (e_len (tail_of keep x)) by (cbn; unfold e_end; lia).
      destruct (fs_free_blocks _ _ duty (fs, s1)) as [[[]|err] [fs2 s2]] eqn:E2; trun; [|done]. intros [= <- <- <- <-]. right.
      destruct (free_extent fs s1 (tail_of keep x) ([run_of (head_of keep x)] ++ runs) duty fs2 s2) as [Q1 Q2]; [|cbn; unfold straddles in Hs; lia|done|].
      { eapply holds_same; [|exact P1]. intros b. pose proof (straddler_run keep x b Hs) as Hr. cbn [app]. rewrite !held_cons in *.
        change (held [] b) with 0%nat in *. lia. }
      split_and!; try done. apply (dropped_trans _ _ _ _ _ _ _ _ P2 Q2).
Qed.

Lemma reached_bound l b : ext_map l b <> None -> b < foldr Z.max 0 (e_end <$> l).
Proof.
  intros Hb. destruct (ext_map l b) as [p|] eqn:E; [|done]. apply ext_map_cover in E as (e & He & Hc).
  assert (e_end e <= foldr Z.max 0 (e_end <$> l)); [|lia]. clear -He. induction l as [|x l IH]; [set_solver|]. cbn.
  apply elem_of_cons in He as [->|He]; [lia|]. specialize (IH He). lia.
Qed.

Lemma reached_below l n : 0 <= n -> Forall (fun e => e_end e <= n) l -> foldr Z.max 0 (e_end <$> l) <= n.
Proof. intros Hn. induction 1; cbn; lia. Qed.

(** What [truncate_chunk] has after its frees. *)
Lemma truncate_frees max need duty keep l ext runs fs s un n fs1 s1 sk n2 fs2 s2 :
  holds fs s (block_runs ext ++ runs_of l ++ runs) -> exts_ok l -> 0 <= keep < 2 ^ 32 ->
  free_doomed max need duty (sort_reverse (filter (dooms keep) l)) (fs, s) = (Ok (un, n), (fs1, s1)) ->
  (match find (straddles keep) l with
   | Some x => r ← free_straddler max need duty keep (negb (bool_decide (un = []))) x; mret ([r.1], r.2)
   | None => mret ([], 0)
   end) (fs1, s1) = (Ok (sk, n2), (fs2, s2)) ->
  let l' := sort_by_key e_block ((filter (keeps keep) l ++ un) ++ sk) in
  exists k fr, keep <= k <= 2 ^ 32 /\ survivors l k (2 ^ 32) fr l' /\ dropped fr fs s fs2 s2 /\ n + n2 = data_blocks fr /\
    holds fs2 s2 (block_runs ext ++ runs_of l' ++ runs) /\ (max = None -> k = keep).
Proof.
  intros Hh Hl Hk E1 E2 l'. subst l'. set (kept := filter (keeps keep) l) in *. set (doomed := filter (dooms keep) l) in *.
  assert (Hp : sort_reverse doomed ≡ₚ doomed) by apply sort_by_perm.
  assert (Hw : forall b, (owners doomed b + owners kept b + held (match straddler keep l with Some x => [run_of x] | None => [] end) b)%nat = owners l b).
  { intros b. pose proof (truncate_split keep l Hl Hk) as Es.
    pose proof (punch_split_spec keep (2 ^ 32) l (eo_each l Hl) (exts_ok_once l Hl) ltac:(lia)) as Hsp. rewrite Es in Hsp. destruct Hsp as (_ & _ & S3 & _).
    fold kept doomed in S3. rewrite <- (S3 b), !owners_app. unfold straddler in *. destruct (find (straddles keep) l) as [x|] eqn:Ex.
    - apply find_some in Ex as [_ Hs]. rewrite (straddler_run keep x b Hs). rewrite <- !held_runs. unfold runs_of. cbn [fmap list_fmap]. lia.
    - change (held [] b) with 0%nat. change (owners [] b) with 0%nat. lia. }
  apply (free_doomed_spec max need duty (sort_reverse doomed) fs s
    (match straddler keep l with Some x => [run_of x] | None => [] end ++ block_runs ext ++ runs_of kept ++ runs)) in E1 as (fr & Ed & -> & F1 & F2 & F3).
  2: { eapply holds_same; [|exact Hh]. intros b. rewrite !held_app, !held_runs, (owners_perm _ _ b Hp), <- (Hw b). lia. }
  2: { rewrite Hp. apply exts_lens, Forall_forall. intros e [_ He]%list_elem_of_filter. eapply Forall_forall; [apply Hl|done]. }
  pose proof (truncate_survivors keep l fr un Hl Hk Ed) as Ht. fold kept in Ht. unfold straddler in *. clear Hw.
  assert (Hrun : forall l0 b, held (runs_of (sort_by_key e_block l0)) b = owners l0 b) by (intros l0 b; apply owners_perm, sort_by_perm).
  destruct (find (straddles keep) l) as [x|].
  - destruct Ht as (Hx & _ & Hs & (k & K1 & K2) & K3). revert E2. trun.
    destruct (free_straddler max need duty keep _ x (fs1, s1)) as [[[kx m]|err] [fs3 s3]] eqn:E3; trun; [|done]. intros [= <- <- <- <-].
    apply (free_straddler_spec _ _ _ _ _ _ _ _ (runs_of un ++ block_runs ext ++ runs_of kept ++ runs)) in E3; [|eapply holds_same; [|exact F1]; intros b; rewrite !held_app; lia|done|done].
    destruct E3 as [(-> & -> & H1 & H2 & H3)|(-> & Hst & -> & H1 & H2)].
    + exists k, fr. split_and!; try lia; [done| | |].
      * rewrite <- (app_nil_r fr). by eapply dropped_trans.
      * eapply holds_same; [|exact H1]. intros b. change ([run_of x]) with (runs_of [x]). rewrite !held_app, Hrun, !owners_app, !held_runs. lia.
      * intros Hm. rewrite (F3 Hm) in H3. by specialize (H3 Hm).
    + exists keep, (fr ++ [tail_of keep x]). apply negb_false_iff, bool_decide_eq_true in Hst. split_and!; try lia; [by apply K3| | |].
      * by eapply dropped_trans.
      * rewrite data_blocks_app. cbn. lia.
      * eapply holds_same; [|exact H1]. intros b. change ([run_of (head_of keep x)]) with (runs_of [head_of keep x]).
        rewrite !held_app, Hrun, !owners_app, !held_runs. lia.
  - destruct Ht as (k & K1 & K2 & K3). injection E2 as <- <- <- <-. exists k, fr. split_and!; try lia; [done|done| |].
    + eapply holds_same; [|exact F1]. intros b. rewrite !held_app, Hrun, !owners_app, !held_runs. change (held [] b) with 0%nat. change (owners [] b) with 0%nat. lia.
    + intros Hm. apply K2, F3, Hm.
Qed.

Lemma cut_off_lower t fs s l ext runs k k' e t' fs' s' l' :
  cut_off t fs s l ext runs k e t' fs' s' l' -> k' <= k -> (forall b, k' <= b < k -> ext_map l b = None) ->
  cut_off t fs s l ext runs k' e t' fs' s' l'.
Proof.
  intros [(ext' & P) Hm Hf] Hk Hn. assert (Hb : forall p, behind l k' e p <-> behind l k e p).
  { intros p. unfold behind. split; intros (b & kd & Hb & E); exists b, kd; (split; [|done]); [|lia].
    destruct (decide (b < k)); [|lia]. rewrite (Hn b) in E by lia. done. }
  split.
  - exists ext'. destruct P as [P1 P2 P3 P4 P5]. split; try done. eapply frame_weaken; [|exact P5]. cbn. intros c [Hc|Hc]; [left; by apply Hb|by right].
  - intros b. rewrite Hm. unfold in_range. cases. apply Hn. lia.
  - intros p Hp. apply Hf, Hb, Hp.
Qed.

Lemma survivors_end l keep fr l' : 0 <= keep -> survivors l keep (2 ^ 32) fr l' -> foldr Z.max 0 (e_end <$> l') <= keep.
Proof.
  intros Hk [V1 _ _ _ V5 _]. apply reached_below; [done|]. apply Forall_forall. intros e He. pose proof (eo_each l' V1) as Ho. rewrite Forall_forall in Ho.
  pose proof (Ho e He) as [B L E _]. specialize (V5 (e_end e - 1)). unfold in_range, e_end in *. destruct (decide (e_block e + e_len e <= keep)); [done|exfalso].
  replace ((keep <=? e_block e + e_len e - 1) && (e_block e + e_len e - 1 <? 2 ^ 32)) with true in V5 by lia.
  apply ext_map_None in V5. assert (e ∈ covering l' (e_block e + e_len e - 1)) as Hc by (apply elem_of_covering; unfold e_end; split; [lia|done]).
  rewrite V5 in Hc. set_solver.
Qed.

(** The steps of a successful [truncate_chunk]. *)
Definition needed (fs : Ext4) (n : Z) : Z := extent_free_credits + truncate_chunk_credits fs (external_node_count n).

Lemma ends_fit l : exts_ok l -> forallb (fun e => e_end e <? 2 ^ 32) l = true.
Proof.
  intros Hl. apply forallb_forall. intros e He. pose proof (eo_each l Hl) as Ho. rewrite Forall_forall in Ho. apply Z.ltb_lt, (xo_end e), Ho.
  by apply list_elem_of_In.
Qed.

Lemma straddle_len keep x : ext_ok x -> straddles keep x = true -> 0 <= u16 (keep - e_block x) <= e_len x.
Proof.
  intros [B L E _] Hs. unfold straddles, u16, max_len, MAX_WRITTEN_LEN, e_end in *. rewrite wrap_small by (unfold fits; destruct (is_unwritten x); lia). lia.
Qed.

Lemma truncate_run seed t fs s l ext runs new_size duty max reached next t' fs' s' :
  let keep := div_ceil new_size BLOCK_SIZE in
  tree_ok t fs s l ext runs -> 0 <= keep < 2 ^ 32 ->
  truncate_chunk seed new_size duty max (t, (fs, s)) = (Ok (reached, next), (t', (fs', s'))) ->
  let need := needed fs (zlen l) in
  exists un n fs1 s1 sk n2 fs2 s2 t1 na nf,
    free_doomed max need duty (sort_reverse (filter (dooms keep) l)) (fs, s) = (Ok (un, n), (fs1, s1)) /\
    (match find (straddles keep) l with
     | Some x => r ← free_straddler max need duty keep (negb (bool_decide (un = []))) x; mret ([r.1], r.2)
     | None => mret ([], 0)
     end) (fs1, s1) = (Ok (sk, n2), (fs2, s2)) /\
    let l' := sort_by_key e_block ((filter (keeps keep) l ++ un) ++ sk) in
    reserialize seed l' ext (t, (fs2, s2)) = (Ok (na, nf), (t1, (fs', s'))) /\
    add_blocks (- (n + n2 - (na - nf))) (t1, (fs', s')) = (Ok tt, (t', (fs', s'))) /\
    reached = foldr Z.max 0 (e_end <$> l') /\ next = needed fs (zlen l').
Proof.
  intros keep [T1 T2 T3 T4] Hk. unfold truncate_chunk. fold keep. rewrite (wrap_small 32 keep Hk : u32 keep = keep). trun.
  unfold flatten_now. cbn [fst snd]. rewrite (repr_flatten _ _ _ _ T1). trun. rewrite (sort_sorted l T2). unfold guard.
  rewrite (ends_fit l T2). trun. fold (needed fs (zlen l)). set (need := needed fs (zlen l)). destruct (negb (over_floor _ _ need)) eqn:Ef; trun; [|done].
  destruct (free_doomed max need duty _ (fs, s)) as [[[un n]|err] [fs1 s1]] eqn:E1; trun; [|done].
  match goal with |- context [(?m (fs1, s1)).2] => destruct (m (fs1, s1)) as [[[sk n2]|err] [fs2 s2]] eqn:E2 end; trun; [|done].
  set (l' := sort_by_key e_block _) in *. destruct (reserialize seed l' ext (t, (fs2, s2))) as [[[na nf]|err] [t1 [fs3 s3]]] eqn:E3; trun; [|done].
  rewrite add_blocks_eq. trun. intros [= <- <- <- <- <-]. exists un, n, fs1, s1, sk, n2, fs2, s2, t1, na, nf. split_and!; done.
Qed.

(** *** Progress *)

(** The extents that reach past the new end. *)
Definition past (keep : Z) (l : list Extent) : nat := length (filter (fun e => keep < e_end e) l).

Lemma past_app keep l k : past keep (l ++ k) = (past keep l + past keep k)%nat.
Proof. unfold past. by rewrite filter_app, length_app. Qed.
Lemma past_perm keep l k : l ≡ₚ k -> past keep l = past keep k.
Proof. intros Hp. unfold past. by rewrite Hp. Qed.
Lemma past_cons keep e l : past keep (e :: l) = (one_if (keep < e_end e)%Z + past keep l)%nat.
Proof. unfold past, one_if. rewrite filter_cons. by case_decide. Qed.

(** A probe within the handle's credits does not stop. *)
Lemma probe_granted max need fs s : need <= ms_credits s -> probe max need (fs, s) = (Ok false, (fs, s)).
Proof. intros Hn. unfold probe. destruct max; [|done]. unfold stop_before_free. frun. rewrite (ms_reserve_granted s need Hn). by frun. Qed.

(** What is not reached is a suffix. *)
Lemma free_doomed_prefix max need duty k : forall fs s un n fs' s',
  free_doomed max need duty k (fs, s) = (Ok (un, n), (fs', s')) -> exists fr, k = fr ++ un.
Proof.
  induction k as [|x k IH]; intros fs s un n fs' s'; cbn [free_doomed]; frun; [intros [= <- <- <- <-]; by exists []|].
  destruct (probe max need (fs, s)) as [[[]|err] [fs3 s3]]; frun; [intros [= <- <- <- <-]; by exists []| |done].
  destruct (fs_free_blocks _ _ duty (fs3, s3)) as [[[]|err] [fs4 s4]]; frun; [|done].
  destruct (free_doomed max need duty k (fs4, s4)) as [[[u m]|err] [fs5 s5]] eqn:E; frun; [|done]. intros [= <- <- <- <-].
  destruct (IH _ _ _ _ _ _ E) as (fr & ->). by exists (x :: fr).
Qed.

Lemma free_doomed_progress max need duty doomed fs s un n fs' s' :
  need <= ms_credits s -> doomed <> [] -> free_doomed max need duty doomed (fs, s) = (Ok (un, n), (fs', s')) ->
  exists fr, fr <> [] /\ doomed = fr ++ un.
Proof.
  intros Hn Hd. destruct doomed as [|e doomed]; [done|]. cbn [free_doomed]. frun. rewrite (probe_granted max need fs s Hn). frun.
  destruct (fs_free_blocks _ _ duty (fs, s)) as [[[]|err] [fs1 s1]]; frun; [|done].
  destruct (free_doomed max need duty doomed (fs1, s1)) as [[[u m]|err] [fs2 s2]] eqn:E; frun; [|done]. intros [= <- <- <- <-].
  destruct (free_doomed_prefix _ _ _ _ _ _ _ _ _ _ E) as (fr & ->). by exists (e :: fr).
Qed.

Lemma past_split keep l : exts_ok l -> 0 <= keep < 2 ^ 32 ->
  past keep l = (length (filter (dooms keep) l) + match find (straddles keep) l with Some _ => 1 | None => 0 end)%nat.
Proof.
  intros [He Hs] Hk. induction Hs as [|x l Hs IH Hb]; [done|]. apply Forall_cons in He as [Hx He]. rewrite past_cons, (IH He), filter_cons.
  cbn [find]. pose proof (xo_len x Hx). unfold one_if. destruct (straddles keep x) eqn:Es.
  - unfold straddles, dooms, e_end in *. rewrite decide_True by lia. rewrite decide_False by (rewrite Is_true_true; lia).
    assert (find (fun e => (e_block e <? keep) && (keep <? e_block e + e_len e)) l = None) as ->; [|lia].
    destruct (find _ l) as [y|] eqn:Ey; [exfalso|done]. apply find_some in Ey as [Hy Ey]. apply list_elem_of_In in Hy. rewrite Forall_forall in Hb.
    specialize (Hb y Hy). unfold before in Hb. lia.
  - unfold straddles, dooms, e_end in *. destruct (decide (keep <= e_block x)).
    + rewrite decide_True by lia. rewrite decide_True by (rewrite Is_true_true; lia). cbn. lia.
    + rewrite decide_False by lia. rewrite decide_False by (rewrite Is_true_true; lia). lia.
Qed.

Lemma past_zero keep l : Forall (fun e => e_end e <= keep) l -> past keep l = 0%nat.
Proof. induction 1 as [|e l He Hl IH]; [done|]. rewrite past_cons, IH. unfold one_if. rewrite decide_False by lia. done. Qed.
Lemma past_length keep l : (past keep l <= length l)%nat.
Proof. apply length_filter. Qed.

Lemma reached_past keep l : 0 <= keep -> keep < foldr Z.max 0 (e_end <$> l) -> (0 < past keep l)%nat.
Proof.
  intros Hk Hr. induction l as [|e l IH]; cbn in Hr; [lia|]. rewrite past_cons. unfold one_if. case_decide; [lia|]. apply IH. lia.
Qed.

Lemma head_past keep x : ext_ok x -> straddles keep x = true ->
  past keep [mk_extent (e_block x) (u16 (keep - e_block x)) (e_start x) (e_kind x)] = 0%nat.
Proof.
  intros [B L E _] Hs. apply past_zero. constructor; [|done]. unfold e_end, mk_extent, straddles, u16, max_len, MAX_WRITTEN_LEN, e_end in *.
  cbn [e_block e_len]. rewrite wrap_small by (unfold fits; destruct (is_unwritten x); lia). lia.
Qed.

(** A chunk adds nothing past the new end, and frees something when it starts
    with its reservation. *)
Lemma chunk_past max need duty keep l fs s un n fs1 s1 sk n2 fs2 s2 :
  exts_ok l -> 0 <= keep < 2 ^ 32 ->
  free_doomed max need duty (sort_reverse (filter (dooms keep) l)) (fs, s) = (Ok (un, n), (fs1, s1)) ->
  (match find (straddles keep) l with
   | Some x => r ← free_straddler max need duty keep (negb (bool_decide (un = []))) x; mret ([r.1], r.2)
   | None => mret ([], 0)
   end) (fs1, s1) = (Ok (sk, n2), (fs2, s2)) ->
  let l' := sort_by_key e_block ((filter (keeps keep) l ++ un) ++ sk) in
  (past keep l' <= past keep l)%nat /\
  (need <= ms_credits s -> keep < foldr Z.max 0 (e_end <$> l') -> (past keep l' < past keep l)%nat).
Proof.
  intros Hl Hk E1 E2 l'. assert (Hr : keep < foldr Z.max 0 (e_end <$> l') -> (0 < past keep l')%nat) by (apply reached_past; lia).
  revert Hr. unfold l'. rewrite (past_perm _ _ _ (sort_by_perm e_block _)), !past_app.
  rewrite (past_zero keep (filter _ l)), (past_split keep l Hl Hk).
  2: { apply Forall_forall. intros e [He _]%list_elem_of_filter. apply Is_true_true in He. unfold keeps in He. lia. }
  assert (Hp : sort_reverse (filter (dooms keep) l) ≡ₚ filter (dooms keep) l) by apply sort_by_perm. apply Permutation_length in Hp.
  pose proof (past_length keep un) as Hun. intros Hr.
  assert (Hsk : (past keep sk <= match find (straddles keep) l with Some _ => 1 | None => 0 end)%nat).
  { destruct (find (straddles keep) l) as [x|]; [|injection E2 as <- _ _ _; cbn; lia]. revert E2. frun.
    destruct (free_straddler _ _ _ _ _ _ _) as [[r|err] st]; frun; [|done]. intros [= <- <- _]. apply (past_length keep [r.1]). }
  split; [apply free_doomed_prefix in E1 as [fr E1]; rewrite E1, length_app in Hp; lia|]. intros Hn Hlt. specialize (Hr Hlt). revert Hr.
  destruct (decide (filter (dooms keep) l = [])) as [Hd|Hd].
  - rewrite Hd in E1 |- *. cbn [sort_reverse sort_by_key foldr free_doomed] in E1. injection E1 as <- <- <- <-. cbn [length].
    destruct (find (straddles keep) l) as [x|] eqn:Ex; [|injection E2 as <- _ _ _; cbn; lia]. revert E2. frun. unfold free_straddler.
    rewrite bool_decide_eq_true_2 by done. cbn [negb]. frun. rewrite (probe_granted max need fs s Hn). frun.
    destruct (fs_free_blocks _ _ duty (fs, s)) as [[[]|err] [fs3 s3]]; frun; [|done]. intros [= <- <- <- <-].
    apply find_some in Ex as [Hx Hs]. apply list_elem_of_In in Hx. pose proof (eo_each l Hl) as Ho. rewrite Forall_forall in Ho.
    rewrite (head_past keep x (Ho x Hx) Hs). cbn. lia.
  - destruct (free_doomed_progress _ _ _ _ _ _ _ _ _ _ Hn ltac:(intros E0; rewrite E0 in Hp; by destruct (filter (dooms keep) l)) E1) as (fr & Hfr & Ed).
    rewrite Ed, length_app in Hp. destruct fr; [done|]. cbn in Hp. lia.
Qed.

(** Truncating: the file ends at the new size when the call says so, else some
    upper part is gone; a chunk that starts with its reservation shortens the
    list of extents past the new end. *)
Lemma truncate_spec seed t fs s l ext runs new_size duty max reached next t' fs' s' :
  let keep := div_ceil new_size BLOCK_SIZE in
  tree_ok t fs s l ext runs -> 0 <= keep < 2 ^ 32 ->
  truncate_chunk seed new_size duty max (t, (fs, s)) = (Ok (reached, next), (t', (fs', s'))) ->
  exists k l', keep <= k <= 2 ^ 32 /\ (reached <= keep -> k = keep) /\ (max = None -> reached <= keep) /\
    cut_off t fs s l ext runs k (2 ^ 32) t' fs' s' l' /\ next = needed fs (zlen l') /\ (past keep l' <= past keep l)%nat /\
    (needed fs (zlen l) <= ms_credits s -> keep < reached -> (past keep l' < past keep l)%nat).
Proof.
  intros keep Ht Hk E. pose proof Ht as [T1 T2 T3 T4].
  destruct (truncate_run seed t fs s l ext runs new_size duty max reached next t' fs' s' Ht Hk E)
    as (un & n & fs1 & s1 & sk & n2 & fs2 & s2 & t1 & na & nf & E1 & E2 & E3 & E4 & -> & ->).
  destruct (truncate_frees max _ duty keep l ext runs fs s un n fs1 s1 sk n2 fs2 s2 T3 T2 Hk E1 E2) as (k & fr & K1 & K2 & K3 & K4 & K5 & K6).
  destruct (chunk_past max _ duty keep l fs s un n fs1 s1 sk n2 fs2 s2 T2 Hk E1 E2) as [Hle Hpast].
  fold keep in E3. set (l' := sort_by_key e_block _) in *.
  destruct (survivors_step seed t fs s l ext runs fr l' k (2 ^ 32) na nf t1 fs2 s2 fs' s' (n + n2) T4 K3 K2 K5 K4 E3) as (t2 & E5 & P).
  rewrite E4 in E5. injection E5 as <-. fold keep l'. set (reached := foldr Z.max 0 (e_end <$> l')) in *.
  assert (Hmax : max = None -> reached <= keep) by (intros Hm; rewrite (K6 Hm) in K2; eapply survivors_end; [apply Hk|exact K2]).
  destruct (decide (reached <= keep)) as [Hr|Hr]; [|exists k, l'; by split_and!; try lia].
  exists keep, l'. split_and!; try lia. eapply cut_off_lower; [exact P|lia|]. intros b Hb. destruct K2 as [_ _ _ _ V5 _]. specialize (V5 b). unfold in_range in V5.
  replace ((k <=? b) && (b <? 2 ^ 32)) with false in V5 by lia. rewrite <- V5. destruct (ext_map l' b) eqn:E5; [exfalso|done].
  pose proof (reached_bound l' b ltac:(by rewrite E5)). lia.
Qed.
End Spec.
