(* ===== verification/ExtentManager.v ===== *)
(** * The extent manager of an inode

    Models [inode/extent_manager/mod.rs]: mapping a logical block for a read,
    allocating the holes of a range (as unwritten extents, so that a fresh
    block reads as zeros until its data has landed), marking a range written,
    and planning a truncation.  A read or a write of a page of the page
    cache ([PageCache.v]) is the choice of the block it goes to. *)

From stdpp Require Import sorting.
From S2P Require Import Prelude Pod Checksum JournalFormat Device Bitmap SuperBlock GroupDesc Transaction JournalState MetaStore BlockGroup Alloc AllocSpec.
From S2P Require Import Credits ExtentNode ExtentMap ExtentTree ExtentWrite ExtentSpec.

(** ** The code *)

Inductive Mapping : Type :=
  | Mapped (pblock len : Z) (written : bool)
  | HoleOf (len : Z).

Definition mapped_pblock (m : Mapping) : option Z := match m with Mapped pblock _ _ => Some pblock | HoleOf _ => None end.

Inductive AllocBound : Type := WholeRange | CreditChunk.
Inductive HoleFill : Type := Filled | Stopped (reached need : Z).

Record ShrinkPlan : Type := { whole_estimate : Z; floor_efbig : bool }.

Definition next_insert_credit_bound (fs : Ext4) (projected_extents : Z) : Z := chunk_insert_credits fs (external_node_count projected_extents).

(** The end of the last extent before a block, the goal of its allocation. *)
Definition goal_before (extents : list Extent) (ib : Z) : Z :=
  match find (fun e => e_block e <? ib) (rev extents) with Some e => e_start e + e_len e | None => 0 end.

Section Code.
Context {S : Type} `{MetaStore S}.

Notation fstate := (Ext4 * S)%type.
Notation tstate := (ExtentTree * fstate)%type.

(** [ExtentManager::map_blocks] *)
Definition map_blocks (t : ExtentTree) (s : S) (iblock : Z) : result Mapping :=
  let? found := lookup t s iblock in
  match found with
  | Some extent =>
      let offset_in_extent := iblock - e_block extent in
      Ok (Mapped (e_start extent + offset_in_extent) (e_len extent - offset_in_extent) (negb (is_unwritten extent)))
  | None => Ok (HoleOf 1)
  end.

(** [submit_read_bio]: the block that is read, or none for zeros. *)
Definition submit_read_bio (npages : Z) (t : ExtentTree) (s : S) (idx : Z) : result (option Z) :=
  check negb (npages <=? idx) else EINVAL in
  check idx <? 2 ^ 32 else EINVAL in
  let? m := map_blocks t s idx in
  match m with
  | Mapped pblock _ true => Ok (Some pblock)
  | _ => Ok None
  end.

(** [submit_write_bio] on a journaled volume, with [allocate_one] refusing a
    hole. *)
Definition submit_write_bio (npages : Z) (t : ExtentTree) (s : S) (idx : Z) : result Z :=
  check negb (npages <=? idx) else EINVAL in
  check idx <? 2 ^ 32 else EINVAL in
  let? m := map_blocks t s idx in
  match m with
  | Mapped pblock _ _ => Ok pblock
  | HoleOf _ => Err EIO
  end.

Section Seed.
Variable csum_seed : option InodeCsumSeed.

(** [tree.insert(...)] with the blocks freed again when it fails. *)
Definition insert_or_free (ib : Z) (range : Z * Z) (got : Z) : M tstate unit := fun st =>
  match insert csum_seed ib range.1 (u16 got) Unwritten st with
  | (Err e, st) => if handled e then (on_store (ignore (fs_free_blocks range.1 got false));; fail e) st else (Err e, st)
  | (Ok a, st) => (Ok a, st)
  end.

(** The credit probe before an insertion, in chunked mode only. *)
Definition fill_reserve (bound : AllocBound) (need : Z) : M tstate ExtendOutcome :=
  match bound with CreditChunk => on_store (on_store (ms_reserve need)) | WholeRange => mret Granted end.

(** The inner loop of [fill_holes]: one hole from [ib] on; each round maps at
    least one block. *)
Fixpoint fill_hole (fuel : nat) (bound : AllocBound) (goal ib hole_end projected : Z) : M tstate (option (Z * Z) * Z) :=
  if hole_end <=? ib then mret (None, projected)
  else
    match fuel with
    | O => fail DIVERGE
    | Datatypes.S fuel =>
        fs ← on_store ext4;
        let need := next_insert_credit_bound fs (projected + 1) in
        outcome ← fill_reserve bound need;
        match outcome with
        | NeedsRestart => mret (Some (ib, need), projected)
        | Granted =>
            let want := Z.min (hole_end - ib) MAX_UNWRITTEN_LEN in
            range ← on_store (fs_alloc_blocks want goal);
            let got := u32 (range.2 - range.1) in
            insert_or_free ib range got;;
            fill_hole fuel bound goal (ib + got) hole_end (projected + 1)
        end
    end.

(** The outer loop. *)
Fixpoint fill_all (bound : AllocBound) (extents : list Extent) (holes : list (Z * Z)) (projected : Z) : M tstate HoleFill :=
  match holes with
  | [] => mret Filled
  | hole :: holes =>
      r ← fill_hole (Z.to_nat (hole.2 - hole.1)) bound (goal_before extents hole.1) hole.1 hole.2 projected;
      match r.1 with
      | Some (reached, need) => mret (Stopped reached need)
      | None => fill_all bound extents holes r.2
      end
  end.

Definition extents_now : M tstate (list Extent) := fun st => (extents st.1 st.2.2, st).

(** [ExtentManager::fill_holes] *)
Definition fill_holes (start_iblock end_iblock : Z) (bound : AllocBound) : M tstate HoleFill :=
  if end_iblock <=? start_iblock then mret Filled
  else
    l ← extents_now;
    holes ← lift (compute_holes l start_iblock end_iblock);
    fill_all bound l holes (zlen l).

(** [ensure_allocated] and [ensure_allocated_chunk] *)
Definition ensure_allocated (start_iblock end_iblock : Z) : M tstate unit :=
  fill_holes start_iblock end_iblock WholeRange;; mret tt.
Definition ensure_allocated_chunk (start_iblock end_iblock : Z) : M tstate HoleFill := fill_holes start_iblock end_iblock CreditChunk.

(** [mark_range_written] *)
Definition mark_range_written (start_iblock end_iblock : Z) : M tstate unit :=
  if end_iblock <=? start_iblock then mret tt
  else convert_unwritten csum_seed start_iblock (end_iblock - start_iblock).

(** [punch_range] *)
Definition punch_range (start_block end_block : Z) (duty : bool) : M tstate unit :=
  punch_chunk csum_seed start_block end_block duty None;; mret tt.
End Seed.

(** [plan_shrink] *)
Definition plan_shrink (fs : Ext4) (t : ExtentTree) (s : S) (revoke_per_block new_size max_credits : Z) : result ShrinkPlan :=
  let keep_blocks := div_ceil new_size BLOCK_SIZE in
  check keep_blocks <? 2 ^ 32 else EFBIG in
  let? l := extents t s in
  check forallb (fun e => e_end e <? 2 ^ 32) l else PANIC in
  let external := external_node_count (zlen l) in
  let freed_extents := zlen (filter (fun e => keep_blocks < e_end e) l) in
  Ok {| whole_estimate := whole_truncate_credit_bound fs external freed_extents revoke_per_block;
        floor_efbig := (0 <? freed_extents) && (max_credits <? extent_free_credits + truncate_chunk_credits fs external) |}.
End Code.

(** ** Mapping *)

Section Spec.
Context {S : Type} `{MetaStoreOk S}.
Implicit Types s : S.

(** What a read of a block finds. *)
Lemma map_blocks_spec t fs s l ext runs b :
  tree_ok t fs s l ext runs ->
  exists m, map_blocks t s b = Ok m /\
    match m with
    | Mapped p len w => 0 < len /\ (forall i, 0 <= i < len -> ext_map l (b + i) = Some (p + i, if w then Written else Unwritten))
    | HoleOf _ => ext_map l b = None
    end.
Proof.
  intros [T1 T2 _ _]. destruct (repr_lookup s t l ext b T1 T2) as (r & E & Hr). unfold map_blocks. rewrite E. cbn [rbind].
  destruct r as [e|]; cbn [found_in] in Hr; eexists; (split; [done|]); [|done]. destruct Hr as (He & Hc & _). apply covers_spec in Hc. unfold e_end in Hc.
  split; [lia|]. intros i Hi. apply ext_map_elem; [by apply exts_ok_once|]. exists e. split; [done|]. apply e_map_Some. unfold e_end. split; [lia|].
  f_equal; [lia|]. unfold is_unwritten. by destruct (e_kind e).
Qed.

(** ** Filling holes *)

(** The map [l'] keeps [l] and maps the holes of [F] to unwritten blocks. *)
Definition grown (l l' : list Extent) (F : Z -> Prop) : Prop := forall b,
  match ext_map l b with
  | Some p => ext_map l' b = Some p
  | None => (F b -> exists p, ext_map l' b = Some (p, Unwritten)) /\ (~ F b -> ext_map l' b = None)
  end.

Lemma grown_refl l : grown l l (fun _ => False).
Proof. intros b. by destruct (ext_map l b) eqn:E. Qed.

Lemma grown_trans l l1 l2 (F G : Z -> Prop) : (forall b, Decision (F b)) -> grown l l1 F -> grown l1 l2 G -> grown l l2 (fun b => F b \/ G b).
Proof.
  intros HF H1 H2 b. specialize (H1 b). specialize (H2 b). destruct (ext_map l b) as [p|]; [by rewrite H1 in H2|]. destruct H1 as [A1 A2].
  destruct (decide (F b)) as [Hf|Hf].
  - destruct (A1 Hf) as (p & Ep). rewrite Ep in H2. split; [intros _; by exists p|tauto].
  - rewrite (A2 Hf) in H2. destruct H2 as [B1 B2]. split; [intros [?|?]; [done|by apply B1]|intros Hn; apply B2; tauto].
Qed.

Lemma grown_ext l l' (F G : Z -> Prop) : (forall b, F b <-> G b) -> grown l l' F -> grown l l' G.
Proof. intros HF Hg b. specialize (Hg b). destruct (ext_map l b); [done|]. by rewrite <- HF. Qed.

(** A tree, the runs around it, and what the volume keeps. *)
Definition grows (t : ExtentTree) (fs : Ext4) (s : S) (l : list Extent) (runs : list (Z * Z)) (t' : ExtentTree) (fs' : Ext4) (s' : S)
  (F : Z -> Prop) : Prop :=
  exists l' ext', tree_ok t' fs' s' l' ext' runs /\ grown l l' F /\ forall c, (1 <= held (runs_of l ++ runs) c)%nat -> ms_read s' c = ms_read s c.

(** What the file holds it still holds. *)
Lemma grown_held t fs s l ext runs t' fs' s' l' ext' F c : tree_ok t fs s l ext runs -> tree_ok t' fs' s' l' ext' runs -> grown l l' F ->
  (1 <= held (runs_of l ++ runs) c)%nat -> (1 <= held (runs_of l' ++ runs) c)%nat.
Proof.
  intros [_ T2 _ _] [_ T2' _ _] G. rewrite !held_app, !held_runs. intros Hc. destruct (decide (1 <= owners l c)%nat) as [Ho|]; [|lia].
  apply owners_map in Ho as (b & k & Hm); [|by apply exts_ok_once]. specialize (G b). rewrite Hm in G.
  assert (1 <= owners l' c)%nat by (apply owners_map; [by apply exts_ok_once|eauto]). lia.
Qed.

(** One round: a run is allocated and inserted. *)
(** A run has been allocated for a hole: the tree is ready to take it. *)
Lemma fill_ready t fs s l ext runs want goal range fs1 s1 ib :
  tree_ok t fs s l ext runs -> 0 <= ib -> 0 < want -> ib + want < 2 ^ 32 -> want <= MAX_UNWRITTEN_LEN ->
  fs_alloc_blocks want goal (fs, s) = (Ok range, (fs1, s1)) ->
  let got := u32 (range.2 - range.1) in
  0 < got <= want /\ got = range.2 - range.1 /\ u16 got = got /\ tree_ok t fs1 s1 l ext ((range.1, range.1 + got) :: runs) /\
  ext_ok (mk_extent ib got range.1 Unwritten) /\
  (forall c, (1 <= held (block_runs ext ++ runs_of l ++ runs) c)%nat -> ms_read s1 c = ms_read s c).
Proof.
  intros Ht Hib Hw Hend Hmax E1 got. pose proof Ht as [T1 T2 T3 T4]. unfold MAX_UNWRITTEN_LEN, MAX_WRITTEN_LEN in Hmax.
  destruct (alloc_holds fs s _ want goal range fs1 s1 T3 ltac:(lia) E1) as (A1 & A2 & A3 & A4).
  assert (Hgot : got = range.2 - range.1) by (apply wrap_small; unfold fits; lia). assert (Hu : u16 got = got) by (apply wrap_small; unfold fits; lia).
  assert (Hnf : forall c, (1 <= held (block_runs ext ++ runs_of l ++ runs) c)%nat -> ms_read s1 c = ms_read s c).
  { intros c Hc. destruct (holds_block _ _ _ _ T3 Hc) as (_ & Hs & _). apply (fm_read _ _ _ _ _ A2); [done|by intros []]. }
  split; [lia|]. split; [done|]. split; [done|]. split_and!; [| |done].
  - split; try done.
    + eapply repr_same; [|exact T1]. intros b Hb. apply Hnf. rewrite held_app. pose proof (held_blocks_in ext b Hb). lia.
    + eapply holds_same; [|exact A1]. intros b. rewrite held_cons, !held_app, held_cons. cbn [fst snd]. rewrite Hgot.
      replace (range.1 + (range.2 - range.1)) with range.2 by lia. unfold one_if. repeat case_decide; lia.
  - destruct (holds_fs _ _ _ A1) as (K1 & _). assert (Hin : forall b, range.1 <= b < range.2 -> fits 48 b).
    { intros b Hb. eapply volume_fits; [exact K1|]. eapply holds_block; [exact A1|]. rewrite held_cons. unfold one_if. rewrite decide_True by done. lia. }
    pose proof (Hin range.1 ltac:(lia)). pose proof (Hin (range.2 - 1) ltac:(lia)). unfold fits in *.
    split; cbn [mk_extent e_block e_len e_start]; try lia. unfold max_len, is_unwritten, MAX_WRITTEN_LEN. cbn. lia.
Qed.

Lemma fill_round seed t fs s l ext runs want goal range fs1 s1 ib t' fs' s' :
  tree_ok t fs s l ext runs -> 0 <= ib -> 0 < want -> ib + want < 2 ^ 32 -> want <= MAX_UNWRITTEN_LEN -> (forall b, ib <= b < ib + want -> ext_map l b = None) ->
  fs_alloc_blocks want goal (fs, s) = (Ok range, (fs1, s1)) ->
  let got := u32 (range.2 - range.1) in
  insert_or_free seed ib range got (t, (fs1, s1)) = (Ok tt, (t', (fs', s'))) ->
  0 < got <= want /\ exists l' ext', tree_ok t' fs' s' l' ext' runs /\ grown l l' (fun b => ib <= b < ib + got) /\
    forall c, (1 <= held (runs_of l ++ runs) c)%nat -> ms_read s' c = ms_read s c.
Proof.
  intros Ht Hib Hw Hend Hmax Hhole E1 got.
  destruct (fill_ready t fs s l ext runs want goal range fs1 s1 ib Ht Hib Hw Hend Hmax E1) as (G1 & Hgot & Hu & Ht1 & Hok & Hnf). fold got in G1, Hgot, Hu, Ht1, Hok.
  unfold insert_or_free. rewrite Hu. destruct (insert seed ib range.1 got Unwritten (t, (fs1, s1))) as [[[]|e] [t2 [fs2 s2]]] eqn:E2.
  2: { destruct (handled e); [|done]. trun. destruct (ignore (fs_free_blocks range.1 got false) (fs2, s2)) as [[?|?] ?]; trun; done. }
  intros [= <- <- <-]. split; [lia|].
  destruct (insert_spec seed t fs1 s1 l ext runs ib range.1 got Unwritten t2 fs2 s2 Ht1 Hok ltac:(intros; apply Hhole; lia) E2) as (l' & ext' & P & Hm).
  exists l', ext'. split_and!; [apply P| |].
  - intros b. rewrite Hm, e_map_mk. destruct (ext_map l b) as [q|] eqn:El.
    + destruct ((ib <=? b) && (b <? ib + got)) eqn:Eb; [|done]. rewrite Hhole in El by lia. done.
    + destruct ((ib <=? b) && (b <? ib + got)) eqn:Eb; split; intros Hb; try lia; [by eexists|done].
  - intros c Hc. rewrite (step_keeps _ _ _ _ _ _ _ _ _ _ _ _ _ c Ht1 P); [|rewrite held_app, held_cons; rewrite held_app in Hc; lia|by intros []].
    apply Hnf. rewrite held_app. lia.
Qed.

Lemma tree_same_reads t fs s l ext runs s' :
  tree_ok t fs s l ext runs -> ms_ok s' -> (forall c, ms_read s' c = ms_read s c) -> tree_ok t fs s' l ext runs.
Proof.
  intros [T1 T2 T3 T4] Hok Hrd. destruct (holds_fs _ _ _ T3) as (_ & K2 & _). split; try done; [eapply repr_same; [|exact T1]; intros; apply Hrd|].
  apply (session_step_ok _ _ _ T3 (Step_other fs s _ s' Hok ltac:(eapply fs_stored_on; [|exact K2]; intros c _; apply Hrd))).
Qed.

(** The probe of a chunked fill. *)
Lemma fill_probe bound need t fs s l ext runs o st' :
  tree_ok t fs s l ext runs ->
  fill_reserve bound need (t, (fs, s)) = (Ok o, st') ->
  exists s1, st' = (t, (fs, s1)) /\ tree_ok t fs s1 l ext runs /\ (forall c, ms_read s1 c = ms_read s c) /\ (o = NeedsRestart -> bound = CreditChunk).
Proof.
  intros Ht. unfold fill_reserve. destruct bound; trun; [intros [= <- <-]; by exists s|].
  destruct (ms_reserve need s) as [r s1] eqn:E; cbn [fst snd]. intros [= -> <-]. exists s1.
  destruct (holds_fs _ _ _ (to_holds _ _ _ _ _ _ Ht)) as (_ & _ & K3). destruct (ms_reserve_spec _ _ _ _ K3 E) as (R1 & R2 & _).
  split_and!; try done. by eapply tree_same_reads.
Qed.

Lemma fill_hole_spec seed bound goal hole_end fuel : forall t fs s l ext runs ib projected r pr t' fs' s',
  tree_ok t fs s l ext runs -> 0 <= ib <= hole_end -> hole_end < 2 ^ 32 -> hole_end - ib <= Z.of_nat fuel ->
  (forall b, ib <= b < hole_end -> ext_map l b = None) ->
  fill_hole seed fuel bound goal ib hole_end projected (t, (fs, s)) = (Ok (r, pr), (t', (fs', s'))) ->
  exists reach, ib <= reach <= hole_end /\ grows t fs s l runs t' fs' s' (fun b => ib <= b < reach) /\
    match r with None => reach = hole_end | Some (x, _) => x = reach /\ bound = CreditChunk end.
Proof.
  induction fuel as [|fuel IH]; intros t fs s l ext runs ib projected r pr t' fs' s' Ht Hib Hend Hfuel Hhole; cbn [fill_hole].
  - rewrite (proj2 (Z.leb_le _ _)) by lia. trun. intros [= <- <- <- <- <-]. exists hole_end. split_and!; try lia. exists l, ext. split_and!; try done.
    eapply grown_ext; [|apply grown_refl]. cbn. lia.
  - destruct (Z.leb_spec hole_end ib).
    { trun. intros [= <- <- <- <- <-]. exists hole_end. split_and!; try lia. exists l, ext. split_and!; try done.
      eapply grown_ext; [|apply grown_refl]. cbn. lia. }
    trun. set (need := next_insert_credit_bound fs (projected + 1)).
    unfold fstate. destruct (fill_reserve bound need (t, (fs, s))) as [[o|e] st1] eqn:E0; trun; [|done].
    destruct (fill_probe bound need t fs s l ext runs o st1 Ht E0) as (s1 & -> & Ht1 & Hrd1 & Hb). destruct o; trun.
    2: { intros [= <- <- <- <- <-]. exists ib. split_and!; try lia; [|by apply Hb]. exists l, ext. split_and!; try done.
         eapply grown_ext; [|apply grown_refl]. cbn. lia. }
    set (want := Z.min (hole_end - ib) MAX_UNWRITTEN_LEN). destruct (fs_alloc_blocks want goal (fs, s1)) as [[range|e] [fs2 s2]] eqn:E1; trun; [|done].
    destruct (insert_or_free seed ib range _ (t, (fs2, s2))) as [[[]|e] [t3 [fs3 s3]]] eqn:E2; trun; [|done].
    assert (0 < want) by (unfold want, MAX_UNWRITTEN_LEN, MAX_WRITTEN_LEN; lia).
    destruct (fill_round seed t fs s1 l ext runs want goal range fs2 s2 ib t3 fs3 s3 Ht1 ltac:(lia) ltac:(lia) ltac:(lia) ltac:(lia) ltac:(intros; apply Hhole; lia) E1 E2)
      as (Hgot & l1 & ext1 & G1 & G2 & G3). set (got := u32 (range.2 - range.1)) in *. intros E3.
    destruct (IH t3 fs3 s3 l1 ext1 runs (ib + got) (projected + 1) r pr t' fs' s' G1) as (reach & R1 & (l2 & ext2 & Q1 & Q2 & Q3) & R3); try done; try lia.
    { intros b Hin. specialize (G2 b). rewrite Hhole in G2 by lia. apply G2. lia. }
    exists reach. split_and!; try lia; [|done]. exists l2, ext2. split_and!; [done| |].
    + eapply grown_ext; [|eapply (grown_trans l l1 l2); [|exact G2|exact Q2]; intros b; apply _]. cbn. lia.
    + intros c Hc. by rewrite (Q3 c (grown_held _ _ _ _ _ _ _ _ _ _ _ _ c Ht G1 G2 Hc)), (G3 c Hc), Hrd1.
Qed.

Lemma in_runs_cons a e holes b : in_runs ((a, e) :: holes) b <-> a <= b < e \/ in_runs holes b.
Proof. unfold in_runs, in_run. split; [intros (h & [->|Hh]%elem_of_cons & Hb); [by left|right; by exists h]|]. intros [Hb|(h & Hh & Hb)]; [exists (a, e)|exists h]; set_solver. Qed.

#[local] Instance in_runs_dec l b : Decision (in_runs l b).
Proof.
  destruct (decide (Exists (in_run b) l)) as [He|He]; [left|right]; rewrite Exists_exists in He; done.
Defined.

(** What was reached when a fill ends. *)
Definition fill_reach (r : HoleFill) (stop reach : Z) : Prop :=
  match r with Filled => reach = stop | Stopped x _ => x = reach end.

Lemma fill_all_spec seed bound l0 holes : forall t fs s l ext runs start stop projected r t' fs' s',
  tree_ok t fs s l ext runs -> 0 <= start <= stop -> stop < 2 ^ 32 -> plan_ok start stop holes -> (forall b, in_runs holes b -> ext_map l b = None) ->
  fill_all seed bound l0 holes projected (t, (fs, s)) = (Ok r, (t', (fs', s'))) ->
  exists reach, start <= reach <= stop /\ grows t fs s l runs t' fs' s' (fun b => in_runs holes b /\ b < reach) /\ fill_reach r stop reach /\
    (bound = WholeRange -> r = Filled).
Proof.
  induction holes as [|[a e] holes IH]; intros t fs s l ext runs start stop projected r t' fs' s' Ht Hs Hstop [Hp Hsort] Hn; cbn [fill_all].
  - trun. intros [= <- <- <- <-]. exists stop. split_and!; try done; try lia. exists l, ext. split_and!; try done.
    eapply grown_ext; [|apply grown_refl]. cbn. intros b. unfold in_runs. set_solver.
  - apply Forall_cons in Hp as [[Ha He] Hp]. cbn [fst snd] in *. apply StronglySorted_inv in Hsort as [Hsort Hb]. trun.
    destruct (fill_hole seed _ bound _ a e projected (t, (fs, s))) as [[[o pr]|err] [t1 [fs1 s1]]] eqn:E1; trun; [|done].
    destruct (fill_hole_spec seed bound (goal_before l0 a) e (Z.to_nat (e - a)) t fs s l ext runs a projected o pr t1 fs1 s1 Ht ltac:(lia) ltac:(lia) ltac:(lia)
      ltac:(intros b Hb'; apply Hn; rewrite in_runs_cons; by left) E1) as (reach & R1 & (l1 & ext1 & G1 & G2 & G3) & R3).
    assert (Hlater : forall b, in_runs holes b -> e < b).
    { intros b (h & Hh & Hin). rewrite Forall_forall in Hb. specialize (Hb h Hh). cbn in Hb. unfold in_run in Hin. lia. }
    destruct o as [[x need]|]; trun.
    + destruct R3 as [-> ->]. intros [= <- <- <- <-]. exists reach. split_and!; try done; try lia. exists l1, ext1. split_and!; try done.
      eapply grown_ext; [|exact G2]. cbn. intros b. rewrite in_runs_cons. split; [lia|]. intros [[?|Hin] ?]; [lia|]. specialize (Hlater b Hin). lia.
    + subst reach. intros E2. destruct (IH t1 fs1 s1 l1 ext1 runs e stop pr r t' fs' s' G1 ltac:(lia) Hstop) as (reach & Q1 & (l2 & ext2 & Q2 & Q3 & Q4) & Q5 & Q6); try done.
      { split; [|done]. rewrite Forall_forall in *. intros h Hh. specialize (Hp h Hh). specialize (Hb h Hh). cbn in *. lia. }
      { intros b Hin. specialize (G2 b). rewrite (Hn b) in G2 by (rewrite in_runs_cons; by right). apply G2. specialize (Hlater b Hin). lia. }
      exists reach. split_and!; try done; try lia. exists l2, ext2. split_and!; [done| |intros c Hc; by rewrite (Q4 c (grown_held _ _ _ _ _ _ _ _ _ _ _ _ c Ht G1 G2 Hc)), (G3 c Hc)].
      eapply grown_ext; [|eapply (grown_trans l l1 l2); [|exact G2|exact Q3]; intros b; apply _]. cbn. intros b. rewrite in_runs_cons. split; [|tauto].
      intros [?|[? ?]]; split; try done; [by left|lia|by right].
Qed.

Lemma fill_holes_spec seed t fs s l ext runs start stop bound r t' fs' s' :
  tree_ok t fs s l ext runs -> 0 <= start < stop -> stop < 2 ^ 32 ->
  fill_holes seed start stop bound (t, (fs, s)) = (Ok r, (t', (fs', s'))) ->
  exists reach, start <= reach <= stop /\ grows t fs s l runs t' fs' s' (fun b => start <= b < reach) /\ fill_reach r stop reach /\
    (bound = WholeRange -> r = Filled).
Proof.
  intros Ht Hs Hstop. pose proof Ht as [T1 T2 _ _]. unfold fill_holes. rewrite (proj2 (Z.leb_gt _ _)) by lia. trun. unfold extents_now, extents. cbn [fst snd].
  rewrite (repr_flatten _ _ _ _ T1). cbn [rbind]. trun. rewrite (sort_sorted l T2). unfold compute_holes.
  destruct (holes_from_spec l start stop T2 ltac:(lia)) as (holes & E & P1 & P2). rewrite E. trun. intros E1.
  destruct (fill_all_spec seed bound l holes t fs s l ext runs start stop (zlen l) r t' fs' s' Ht ltac:(lia) Hstop P1) as (reach & R1 & (l' & ext' & G1 & G2 & G3) & R3 & R4).
  { intros b Hb%P2. apply Hb. } { done. }
  exists reach. split_and!; try done; try lia. exists l', ext'. split_and!; try done. intros b. specialize (G2 b). destruct (ext_map l b) eqn:El; [done|].
  destruct G2 as [A1 A2]. split; intros Hb; [apply A1; rewrite P2; split; [split; [lia|done]|lia]|apply A2; rewrite P2; intros [[? _] ?]; lia].
Qed.
End Spec.
