(* ===== verification/ExtentTotal.v ===== *)
(** * The extent tree never panics

    Every operation on a well-formed tree returns: a result, or an error that
    the caller handles.  That includes the clean-up after an error of the
    store, which works on bitmaps that may have parted from the store
    ([Calm.v]); no operation panics, and no loop runs on. *)

From stdpp Require Import sorting.
From S2P Require Import Prelude Pod Checksum JournalFormat Device Bitmap SuperBlock GroupDesc JournalState MetaStore BlockGroup Alloc AllocSpec Calm.
From S2P Require Import ExtentNode Credits ExtentMap ExtentTree ExtentWrite ExtentSpec ExtentManager.

Definition vol_block (sb0 : SuperBlock) (b : Z) : Prop := sb_first_data_block sb0 <= b < sb_blocks_count sb0.

Section Total.
Context {S : Type} `{MetaStoreOk S}.
Implicit Types s : S.
Variable sb0 : SuperBlock.

Notation calmly := (sound (steady (S := S) sb0) harmless).
Notation any := (fun _ => True).

(** *** Metadata blocks *)

Lemma ignore_sound {A} (Q : A -> Prop) m : calmly Q m -> calmly any (ignore m).
Proof.
  intros Hm st HI. unfold ignore. destruct (Hm st HI) as [H1 H2]. destruct (m st) as [[a|e] st1]; cbn [fst snd] in *; [done|].
  unfold harmless in H2. rewrite H2. done.
Qed.

Lemma alloc_meta_sound goal : calmly (vol_block sb0) (alloc_meta_block goal).
Proof.
  unfold alloc_meta_block. eapply sound_bind; [by apply fs_alloc_sound|]. intros range [Hr1 Hr2].
  eapply (sound_bind _ _ any); [|intros _ _; apply sound_ret; split; lia].
  apply sound_store. intros s Hok. destruct (ms_create range.1 s) as [r s1] eqn:E. destruct (ms_create_spec _ _ _ _ Hok E) as (Hok1 & _ & _ & _ & Hr).
  split; [done|]. by destruct r.
Qed.

Lemma free_meta_sound b : vol_block sb0 b -> calmly any (free_meta_block b).
Proof. intros [H1 H2]. apply fs_free_sound; lia. Qed.

Lemma free_metas_sound bids : Forall (vol_block sb0) bids -> calmly any (free_meta_blocks bids).
Proof.
  induction 1 as [|b bids Hb Hbs IH]; cbn [free_meta_blocks]; [by apply sound_ret|]. eapply sound_bind; [by apply free_meta_sound|]. by intros _ _.
Qed.

Lemma rollback_sound bids : Forall (vol_block sb0) bids -> calmly any (rollback_meta_blocks bids).
Proof.
  induction 1 as [|b bids Hb Hbs IH]; cbn [rollback_meta_blocks]; [by apply sound_ret|].
  eapply sound_bind; [by eapply ignore_sound, free_meta_sound|]. by intros _ _.
Qed.

Lemma or_rollback_sound {A} (Q : A -> Prop) blocks m : Forall (vol_block sb0) blocks -> calmly Q m -> calmly Q (or_rollback blocks m).
Proof.
  intros Hb Hm st HI. unfold or_rollback. destruct (Hm st HI) as [H1 H2]. destruct (m st) as [[a|e] st1]; cbn [fst snd] in *; [done|].
  unfold harmless in H2. rewrite H2. revert st1 H1. eapply sound_bind; [by apply rollback_sound|]. intros _ _. by apply sound_fail.
Qed.

Lemma acquire_fresh_sound goal n : forall newly, Forall (vol_block sb0) newly -> calmly (Forall (vol_block sb0)) (acquire_fresh n goal newly).
Proof.
  induction n as [|n IH]; intros newly Hn; cbn [acquire_fresh]; [by apply sound_ret|].
  eapply sound_bind; [apply or_rollback_sound; [done|apply alloc_meta_sound]|]. intros b Hb. apply IH. apply Forall_app. split; [done|]. by constructor.
Qed.

Lemma acquire_sound pool count goal : Forall (vol_block sb0) pool ->
  calmly (fun r => Forall (vol_block sb0) r.1 /\ Forall (vol_block sb0) r.2) (acquire_meta_blocks pool count goal).
Proof.
  intros Hp. unfold acquire_meta_blocks. eapply sound_bind; [by apply acquire_fresh_sound|]. intros newly Hn. apply sound_ret. split; [|done].
  apply Forall_app. split; [by apply Forall_take|done].
Qed.

Lemma write_node_sound bid block : is_block block -> calmly any (write_node bid block).
Proof.
  intros Hb [fs s] [C Hok]. cbn [fst snd] in *. destruct (write_patch_sound bid (fun _ => block) ltac:(done) s Hok) as [H1 H2].
  unfold write_node, write_patch in *. rewrite bind_eq in H1, H2. frun. destruct (ms_write bid s) as [[a|e] s1]; frun; [|done]. done.
Qed.

Lemma write_nodes_sound nodes : Forall (fun x => is_block x.1) nodes -> calmly any (write_nodes nodes).
Proof.
  induction 1 as [|[block bid] nodes Hb Hbs IH]; cbn [write_nodes]; [by apply sound_ret|]. eapply sound_bind; [by apply write_node_sound|]. by intros _ _.
Qed.

(** *** Writing the tree *)

Definition tree_steady (st : ExtentTree * (Ext4 * S)) : Prop := True /\ steady sb0 st.2.
Notation tcalmly := (sound tree_steady harmless).

Lemma on_tree {A} (Q : A -> Prop) (m : M (Ext4 * S) A) : calmly Q m -> tcalmly Q (on_store m).
Proof. apply (sound_store (fun _ => True)). Qed.

Lemma set_root_sound root : tcalmly any (set_root root).
Proof. intros [t st] HI. by rewrite set_root_eq. Qed.

Lemma add_blocks_sound n : tcalmly any (add_blocks n).
Proof. intros [t st] HI. by rewrite add_blocks_eq. Qed.

(** The index entries of blocks of the volume. *)
Lemma volume_idx bids cs (f : list Extent -> Z) : fits 48 (sb_blocks_count sb0 - 1) -> 0 <= sb_first_data_block sb0 ->
  Forall (vol_block sb0) bids -> Forall (fun c => fits 32 (f c)) cs -> Forall idx_ok (zip (f <$> cs) bids).
Proof.
  intros Hfit Hz Hb Hc. apply Forall_forall. intros [k b] Hin. pose proof (elem_of_zip_l _ _ _ _ Hin) as H1. pose proof (elem_of_zip_r _ _ _ _ Hin) as H2.
  rewrite Forall_forall in Hb. pose proof (proj1 (Forall_forall _ cs) Hc) as Hc'. split; cbn [fst snd].
  - apply list_elem_of_fmap in H1 as (c & -> & Hin'). by apply Hc'.
  - destruct (Hb b H2). unfold fits in *. lia.
Qed.

Lemma steady_volume st : steady sb0 st -> fits 48 (sb_blocks_count sb0 - 1) /\ 0 <= sb_first_data_block sb0.
Proof.
  intros [C _]. pose proof (ca_sb _ _ C) as Hs. destruct (ca_static _ _ C) as (fb & fi & inc & lo & E). rewrite E in Hs.
  pose proof (so_cover _ Hs) as H1. pose proof (so_bpg _ Hs) as H2. pose proof (so_groups _ Hs) as H3. pose proof (so_first _ Hs) as H4.
  cbn in H1, H2, H3, H4. unfold fits in *. nia.
Qed.

Variable seed : option InodeCsumSeed.

(** Freeing what is left over and counting. *)
Lemma tail_sound root surplus (newly : list Z) : Forall (vol_block sb0) surplus ->
  tcalmly any (set_root root;; on_store (free_meta_blocks surplus);; mret (zlen newly, zlen surplus)).
Proof.
  intros Hs. eapply sound_bind; [apply set_root_sound|]. intros _ _. eapply sound_bind; [by apply on_tree, free_metas_sound|]. intros _ _. by apply sound_ret.
Qed.

Lemma reserialize_sound l ext : exts_ok l -> Forall (vol_block sb0) ext -> tcalmly any (reserialize seed l ext).
Proof.
  intros Hl He st HI. revert HI. pose proof (leaf_chunks l Hl) as (C1 & C2 & C3). intros HI. destruct (steady_volume _ (proj2 HI)) as [V1 V2]. revert st HI. unfold reserialize.
  destruct (zlen l <=? INLINE_MAX).
  { eapply sound_bind; [apply set_root_sound|]. intros _ _. eapply sound_bind; [by apply on_tree, free_metas_sound|]. intros _ _. by apply sound_ret. }
  assert (Hsur : forall n, Forall (vol_block sb0) (drop n ext)) by (intros n; by apply Forall_drop).
  destruct (_ <=? INLINE_MAX).
  - eapply sound_bind; [by apply on_tree, acquire_sound|]. intros [bids newly] [Hb Hn]. cbn [fst snd] in *.
    eapply sound_bind; [|intros _ _; by apply tail_sound]. apply on_tree, or_rollback_sound; [done|]. by apply write_nodes_sound, zip_blocks, leaf_node_blocks.
  - destruct (INLINE_MAX <? _); [by apply sound_fail|].
    eapply sound_bind; [by apply on_tree, acquire_sound|]. intros [bids newly] [Hb Hn]. cbn [fst snd] in *. rewrite leaf_index_pairs.
    assert (Hidx : Forall idx_ok (zip (first_key <$> chunks LEAF_MAX l) (take (Z.to_nat (div_ceil (zlen l) LEAF_MAX)) bids))).
    { apply volume_idx; [done|done|by apply Forall_take|]. eapply Forall_impl; [exact C3|]. intros [|e c] (Hne & _ & Hok); [done|].
      apply Forall_cons in Hok as [Hok _]. by apply ext_ok_key. }
    eapply sound_bind; [apply on_tree, or_rollback_sound; [done|]; by apply write_nodes_sound, zip_blocks, leaf_node_blocks|]. intros _ _.
    eapply sound_bind; [|intros _ _; by apply tail_sound]. apply on_tree, or_rollback_sound; [done|]. apply write_nodes_sound.
    rewrite interior_nodes_pairs. by apply zip_blocks, interior_chunks.
Qed.

(** *** Freeing *)

(** The run of an extent lies in the volume. *)
Definition vol_run (e : Extent) : Prop := 0 <= e_len e /\ sb_first_data_block sb0 <= e_start e /\ e_start e + e_len e <= sb_blocks_count sb0.

Lemma probe_sound max need : calmly any (probe max need).
Proof.
  unfold probe. destruct max; [|by apply sound_ret]. unfold stop_before_free. eapply (sound_bind _ _ any); [|intros o _; by apply sound_ret].
  apply sound_store. intros s Hok. destruct (ms_reserve need s) as [r s1] eqn:E. destruct (ms_reserve_spec _ _ _ _ Hok E) as (Hok1 & _ & _ & Hr).
  split; [done|]. by destruct r.
Qed.

Lemma free_doomed_sound max need duty doomed : Forall vol_run doomed -> calmly any (free_doomed max need duty doomed).
Proof.
  induction 1 as [|e doomed (H1 & H2 & H3) Hd IH]; cbn [free_doomed]; [by apply sound_ret|]. eapply sound_bind; [apply probe_sound|].
  intros [|] _; [by apply sound_ret|]. eapply sound_bind; [by apply fs_free_sound|]. intros _ _. eapply sound_bind; [exact IH|].
  intros [un n] _. by apply sound_ret.
Qed.

Lemma free_straddler_sound max need duty keep stopped x :
  vol_run x -> 0 <= u16 (keep - e_block x) <= e_len x -> calmly any (free_straddler max need duty keep stopped x).
Proof.
  intros (H1 & H2 & H3) Hu. unfold free_straddler. eapply sound_bind; [destruct stopped; [by apply (sound_ret _ _ any)|apply probe_sound]|].
  intros [|] _; [by apply sound_ret|]. eapply sound_bind; [apply fs_free_sound; lia|]. intros _ _. by apply sound_ret.
Qed.

(** *** From one state *)

(** [m] answers from [st]: a result or an error that is handled. *)
Definition answers {A} (m : M (ExtentTree * (Ext4 * S)) A) (st : ExtentTree * (Ext4 * S)) : Prop :=
  tree_steady (m st).2 /\ match (m st).1 with Ok _ => True | Err e => handled e = true end.

Lemma answers_sound {A} (Q : A -> Prop) m st : tcalmly Q m -> tree_steady st -> answers m st.
Proof. intros Hm HI. destruct (Hm st HI) as [H1 H2]. split; [done|]. by destruct (m st).1. Qed.

Lemma answers_bind {A B} (m : M _ A) (f : A -> M _ B) st :
  answers m st -> (forall a st', m st = (Ok a, st') -> tree_steady st' -> answers (f a) st') -> answers (m ≫= f) st.
Proof.
  unfold answers. intros [H1 H2] Hf. rewrite bind_eq. destruct (m st) as [[a|e] st'] eqn:E; cbn [fst snd] in *; [|done]. by apply Hf.
Qed.

Lemma answers_ret {A} (a : A) st : tree_steady st -> answers (mret a) st.
Proof. by intros HI. Qed.

Lemma answers_guard b e st : (b = false -> handled e = true) -> tree_steady st -> answers (guard b e) st.
Proof. intros He HI. unfold guard. destruct b; [done|]. split; [done|by apply He]. Qed.
End Total.

Section Operations.
Context {S : Type} `{MetaStoreOk S}.
Implicit Types s : S.

Lemma tree_ok_steady t fs s l ext runs : tree_ok t fs s l ext runs -> tree_steady (super_block fs) (t, (fs, s)).
Proof. intros [_ _ T3 _]. destruct (holds_fs _ _ _ T3) as (K1 & K2 & K3). split; [done|]. by apply steady_ok. Qed.

Lemma held_volume fs s runs bids : holds fs s (block_runs bids ++ runs) -> Forall (vol_block (super_block fs)) bids.
Proof.
  intros Hh. apply Forall_forall. intros b Hb. eapply holds_block; [exact Hh|]. rewrite held_app. pose proof (held_blocks_in bids b Hb). lia.
Qed.

(** A run that is held lies in the volume. *)
Lemma owned_volume fs s runs l : holds fs s (runs_of l ++ runs) -> Forall ext_ok l -> Forall (vol_run (super_block fs)) l.
Proof.
  intros Hh Hl. apply Forall_forall. intros e He. rewrite Forall_forall in Hl. destruct (Hl e He) as [_ L _ _].
  assert (Hb : forall p, e_start e <= p < e_start e + e_len e -> sb_first_data_block (super_block fs) <= p < sb_blocks_count (super_block fs)).
  { intros p Hp. eapply holds_block; [exact Hh|]. rewrite held_app, held_runs. pose proof (owners_in e l p He Hp). lia. }
  pose proof (Hb (e_start e) ltac:(lia)). pose proof (Hb (e_start e + e_len e - 1) ltac:(lia)). split_and!; lia.
Qed.

Section Seed.
Variable seed : option InodeCsumSeed.

Lemma flatten_answers {A} t fs s l ext runs (f : list Extent * list Z -> M _ A) :
  tree_ok t fs s l ext runs -> answers (super_block fs) (f (l, ext)) (t, (fs, s)) -> answers (super_block fs) (flatten_now ≫= f) (t, (fs, s)).
Proof. intros [T1 _ _ _] Hf. unfold answers in *. rewrite bind_eq. unfold flatten_now. cbn [fst snd]. by rewrite (repr_flatten _ _ _ _ T1). Qed.

Lemma tree_ok_ext t fs s l ext runs : tree_ok t fs s l ext runs -> Forall (vol_block (super_block fs)) ext.
Proof. intros [_ _ T3 _]. by eapply held_volume. Qed.

(** The tail of every operation: the new list is written. *)
Lemma rewrite_answers sb0 l ext (g : Z -> Z -> Z) st : exts_ok l -> Forall (vol_block sb0) ext -> tree_steady sb0 st ->
  answers sb0 (delta ← reserialize seed l ext; let '(na, nf) := delta in add_blocks (g na nf)) st.
Proof.
  intros Hl He HI. eapply answers_sound; [|exact HI]. eapply sound_bind; [by apply reserialize_sound|]. intros [na nf] _. apply add_blocks_sound.
Qed.

Lemma insert_answers t fs s l ext runs iblock pblock len kind :
  tree_ok t fs s l ext runs -> ext_ok (mk_extent iblock len pblock kind) -> (forall b, iblock <= b < iblock + len -> ext_map l b = None) ->
  answers (super_block fs) (insert seed iblock pblock len kind) (t, (fs, s)).
Proof.
  intros Ht He Hhole. unfold insert. eapply flatten_answers; [exact Ht|]. cbv beta iota.
  apply (rewrite_answers _ _ _ (fun na nf => len + (na - nf))); [|by eapply tree_ok_ext|by eapply tree_ok_steady].
  eapply merge_extents_spec; [apply Forall_app; split; [apply Ht|by constructor]|by apply hole_once; [apply Ht|]].
Qed.

Lemma convert_answers t fs s l ext runs iblock len : tree_ok t fs s l ext runs -> 0 <= iblock -> 0 < len ->
  answers (super_block fs) (convert_unwritten seed iblock len) (t, (fs, s)).
Proof.
  intros Ht Hi Hn. unfold convert_unwritten. eapply flatten_answers; [exact Ht|]. cbv beta iota. pose proof (to_exts _ _ _ _ _ _ Ht) as T2.
  destruct (negb _); [apply answers_ret; by eapply tree_ok_steady|].
  destruct (convert_extents_spec iblock (iblock + len) l (eo_each l T2) (exts_ok_once l T2) ltac:(lia)) as (C1 & C2 & _).
  apply (rewrite_answers _ _ _ (fun na nf => na - nf)); [by eapply merge_extents_spec|by eapply tree_ok_ext|by eapply tree_ok_steady].
Qed.

Lemma on_store_ok {T A} (m : M (Ext4 * S) A) (t : T) st a st' : on_store m (t, st) = (Ok a, st') -> exists st1, st' = (t, st1) /\ m st = (Ok a, st1).
Proof. rewrite on_store_eq. intros E. injection E as E1 <-. exists (m st).2. split; [done|]. rewrite <- E1. by destruct (m st). Qed.

(** The list a chunk leaves when it stopped in front of [un]. *)
Lemma punch_rest t fs s l ext runs a e max need duty kept doomed un n st1 :
  tree_ok t fs s l ext runs -> 0 <= a < e -> punch_split a e l = (kept, doomed) ->
  free_doomed max need duty (sort_reverse doomed) (fs, s) = (Ok (un, n), st1) -> exts_ok (sort_by_key e_block (kept ++ un)).
Proof.
  intros [_ T2 T3 _] Hae Es E1. pose proof (punch_split_spec a e l (eo_each l T2) (exts_ok_once l T2) Hae) as Hsp. rewrite Es in Hsp.
  destruct Hsp as (S1 & _ & S3 & _). assert (Hp : sort_reverse doomed ≡ₚ doomed) by apply sort_by_perm. destruct st1 as [fs1 s1].
  apply (free_doomed_spec max need duty (sort_reverse doomed) fs s (block_runs ext ++ runs_of kept ++ runs)) in E1 as (fr & Edoom & _).
  - destruct (punch_survivors a e l kept doomed un fr T2 Hae Es Edoom) as (k & _ & _ & [V1 _ _ _ _ _]). exact V1.
  - eapply holds_same; [|exact T3]. intros b. rewrite !held_app, !held_runs, <- (S3 b), owners_app, (owners_perm _ _ b Hp). lia.
  - rewrite Hp. apply exts_lens. by apply Forall_app in S1 as [_ S1].
Qed.

(** What is freed lies in the volume. *)
Lemma split_volume t fs s l ext runs kept doomed :
  tree_ok t fs s l ext runs -> Forall ext_ok (kept ++ doomed) -> (forall p, owners (kept ++ doomed) p = owners l p) ->
  Forall (vol_run (super_block fs)) (sort_reverse doomed).
Proof.
  intros [_ _ T3 _] Hok Ho. assert (Hp : sort_reverse doomed ≡ₚ doomed) by apply sort_by_perm. rewrite Hp. apply Forall_app in Hok as [_ Hok].
  eapply (owned_volume fs s (block_runs ext ++ runs_of kept ++ runs)); [|done]. eapply holds_same; [|exact T3].
  intros b. rewrite !held_app, !held_runs, <- (Ho b), owners_app. lia.
Qed.

Lemma punch_answers t fs s l ext runs a e duty max : tree_ok t fs s l ext runs -> 0 <= a ->
  answers (super_block fs) (punch_chunk seed a e duty max) (t, (fs, s)).
Proof.
  intros Ht Ha. pose proof (tree_ok_steady _ _ _ _ _ _ Ht) as HI. unfold punch_chunk. destruct (Z.leb_spec e a) as [|Hlt]; [by apply answers_ret|].
  eapply flatten_answers; [exact Ht|]. cbv beta iota. pose proof (to_exts _ _ _ _ _ _ Ht) as T2. rewrite (sort_sorted l T2).
  destruct (punch_split a e l) as [kept doomed] eqn:Es. pose proof (punch_split_spec a e l (eo_each l T2) (exts_ok_once l T2) ltac:(lia)) as Hsp.
  rewrite Es in Hsp. destruct Hsp as (S1 & _ & S3 & _). unfold answers. rewrite bind_eq, on_store_eq, ext4_eq. cbn [fst snd].
  match goal with |- _ (?m _).2 /\ _ => change (answers (super_block fs) m (t, (fs, s))) end. set (need := extent_free_credits + _).
  apply answers_bind; [by apply answers_guard|]. intros [] st' Eg _. assert (st' = (t, (fs, s))) as -> by (unfold guard in Eg; case_match; by injection Eg).
  apply answers_bind; [eapply answers_sound; [|exact HI]; apply on_tree, free_doomed_sound; by eapply split_volume|].
  intros [un n] st' (st1 & -> & E1)%on_store_ok HI1. pose proof (punch_rest _ _ _ _ _ _ _ _ _ _ _ _ _ _ _ _ Ht (conj Ha Hlt) Es E1) as Hl'.
  eapply answers_sound; [|exact HI1]. eapply sound_bind; [apply reserialize_sound; [done|by eapply tree_ok_ext]|]. intros [na nf] _.
  eapply sound_bind; [apply add_blocks_sound|]. intros _ _. by apply (sound_ret _ _ (fun _ => True)).
Qed.

Lemma truncate_answers t fs s l ext runs new_size duty max :
  tree_ok t fs s l ext runs -> 0 <= div_ceil new_size BLOCK_SIZE < 2 ^ 32 ->
  answers (super_block fs) (truncate_chunk seed new_size duty max) (t, (fs, s)).
Proof.
  set (keep := div_ceil new_size BLOCK_SIZE). intros Ht Hk. pose proof (tree_ok_steady _ _ _ _ _ _ Ht) as HI. pose proof Ht as [_ T2 T3 _].
  unfold truncate_chunk. fold keep. rewrite (wrap_small 32 keep Hk : u32 keep = keep).
  eapply flatten_answers; [exact Ht|]. cbv beta iota. rewrite (sort_sorted l T2). unfold answers. rewrite bind_eq, on_store_eq, ext4_eq. cbn [fst snd].
  match goal with |- _ (?m _).2 /\ _ => change (answers (super_block fs) m (t, (fs, s))) end. set (need := extent_free_credits + _).
  assert (Hg : forall b e (k : M _ (Z * Z)), (b = false -> handled e = true) -> answers (super_block fs) k (t, (fs, s)) ->
    answers (super_block fs) (guard b e ;; k) (t, (fs, s))).
  { intros b e k He Hk'. unfold guard. destruct b; [done|]. split; [done|by apply He]. }
  apply Hg; [intros Hf; by rewrite ends_fit in Hf|]. apply Hg; [done|].
  apply answers_bind; [eapply answers_sound; [|exact HI]; apply on_tree, free_doomed_sound|].
  { pose proof (truncate_split keep l T2 Hk) as Es. pose proof (punch_split_spec keep (2 ^ 32) l (eo_each l T2) (exts_ok_once l T2) ltac:(lia)) as Hsp.
    rewrite Es in Hsp. destruct Hsp as (S1 & _ & S3 & _). eapply (split_volume t fs s l ext runs _ _ Ht) in S1; [|done].
    apply Forall_forall. intros x Hx. eapply Forall_forall; [exact S1|]. unfold sort_reverse in *. rewrite !sort_by_perm in *. set_solver. }
  intros [un n] st' (st1 & -> & E1)%on_store_ok HI1.
  apply answers_bind; [eapply answers_sound; [|exact HI1]; apply on_tree|].
  { destruct (find (straddles keep) l) as [x|] eqn:Ex; [|by apply (sound_ret _ _ (fun _ => True))].
    apply find_some in Ex as [Hx%list_elem_of_In Hs]. eapply sound_bind; [apply free_straddler_sound|intros r _; by apply (sound_ret _ _ (fun _ => True))].
    - eapply Forall_forall; [eapply (owned_volume fs s (block_runs ext ++ runs)); [eapply holds_same; [|exact T3]|apply T2]|done].
      intros b. rewrite !held_app. lia.
    - apply straddle_len; [|done]. eapply Forall_forall; [apply T2|done]. }
  intros [sk n2] st' (st2 & -> & E2)%on_store_ok HI2. destruct st1 as [fs1 s1], st2 as [fs2 s2].
  destruct (truncate_frees max need duty keep l ext runs fs s un n fs1 s1 sk n2 fs2 s2 T3 T2 Hk E1 E2) as (k & fr & _ & V & _).
  eapply answers_sound; [|exact HI2]. eapply sound_bind; [apply reserialize_sound; [apply V|by eapply tree_ok_ext]|]. intros [na nf] _.
  eapply sound_bind; [apply add_blocks_sound|]. intros _ _. by apply (sound_ret _ _ (fun _ => True)).
Qed.

(** *** Filling *)

(** The geometry may be taken from any state on the way. *)
Lemma answers_static {A} sb0 (m : M _ A) t fs s st : tree_steady sb0 (t, (fs, s)) -> answers (super_block fs) m st -> answers sb0 m st.
Proof.
  intros [_ [C _]] [[_ [C' Hok]] Hr]. destruct (ca_static _ _ C) as (fb & fi & inc & lo & E). cbn [fst snd] in *. rewrite E in C'.
  split; [|done]. split; [done|]. split; [|done]. destruct C' as [D1 (fb' & fi' & inc' & lo' & D2) D3 D4]. split; try done. by exists fb', fi', inc', lo'.
Qed.

Lemma insert_or_free_answers sb0 t fs s l ext runs ib range got :
  tree_steady sb0 (t, (fs, s)) -> tree_ok t fs s l ext runs -> ext_ok (mk_extent ib got range.1 Unwritten) ->
  (forall b, ib <= b < ib + got -> ext_map l b = None) -> u16 got = got -> 0 <= got -> got = range.2 - range.1 -> in_volume sb0 range ->
  answers sb0 (insert_or_free seed ib range got) (t, (fs, s)).
Proof.
  intros HI Ht Hok Hhole Hu Hg Eg [V1 V2]. unfold insert_or_free, answers. rewrite Hu.
  pose proof (answers_static sb0 _ t fs s _ HI (insert_answers t fs s l ext runs ib range.1 got Unwritten Ht Hok Hhole)) as [J1 J2].
  destruct (insert seed ib range.1 got Unwritten (t, (fs, s))) as [[[]|e] st2]; cbn [fst snd] in *; [done|]. rewrite J2.
  match goal with |- _ (?m _).2 /\ _ => change (answers sb0 m st2) end.
  eapply answers_sound; [|exact J1]. eapply sound_bind; [apply on_tree; eapply ignore_sound; apply fs_free_sound; lia|]. intros _ _. by apply (sound_fail _ _ (fun _ => True)).
Qed.

Lemma fill_reserve_sound sb0 bound need : sound (tree_steady sb0) harmless (fun _ => True) (fill_reserve bound need).
Proof.
  unfold fill_reserve. destruct bound; [by apply (sound_ret _ _ (fun _ => True))|]. apply on_tree, (sound_store (calm sb0)). intros s Hok.
  destruct (ms_reserve need s) as [r s1] eqn:E. destruct (ms_reserve_spec _ _ _ _ Hok E) as (Hok1 & _ & _ & Hr). split; [done|]. by destruct r.
Qed.

Lemma fill_hole_answers sb0 bound goal hole_end fuel : forall t fs s l ext runs ib projected,
  tree_steady sb0 (t, (fs, s)) -> tree_ok t fs s l ext runs -> 0 <= ib <= hole_end -> hole_end < 2 ^ 32 -> hole_end - ib <= Z.of_nat fuel ->
  (forall b, ib <= b < hole_end -> ext_map l b = None) ->
  answers sb0 (fill_hole seed fuel bound goal ib hole_end projected) (t, (fs, s)).
Proof.
  induction fuel as [|fuel IH]; intros t fs s l ext runs ib projected HI Ht Hib Hend Hfuel Hhole; cbn [fill_hole];
    (destruct (Z.leb_spec hole_end ib); [by apply answers_ret|lia || idtac]).
  unfold answers. rewrite bind_eq, on_store_eq, ext4_eq. cbn [fst snd]. match goal with |- _ (?m _).2 /\ _ => change (answers sb0 m (t, (fs, s))) end.
  set (need := next_insert_credit_bound fs (projected + 1)).
  apply answers_bind; [eapply answers_sound; [apply fill_reserve_sound|exact HI]|]. intros o st1 E0 HI1.
  destruct (fill_probe bound need t fs s l ext runs o st1 Ht E0) as (s1 & -> & Ht1 & _). destruct o; [|by apply answers_ret].
  set (want := Z.min (hole_end - ib) MAX_UNWRITTEN_LEN). assert (Hw : 0 < want <= hole_end - ib /\ want <= MAX_UNWRITTEN_LEN)
    by (unfold want, MAX_UNWRITTEN_LEN, MAX_WRITTEN_LEN; lia).
  pose proof (on_tree sb0 _ _ (fs_alloc_sound sb0 want goal ltac:(lia))) as Hsound.
  apply answers_bind; [by eapply answers_sound|]. intros range st2 Er HI2. destruct (Hsound _ HI1) as [_ Hv].
  apply on_store_ok in Er as ([fs2 s2] & -> & E1). rewrite on_store_eq in Hv. cbn [fst] in Hv. unfold fstate in E1. rewrite E1 in Hv. cbn [fst] in Hv.
  destruct (fill_ready t fs s1 l ext runs want goal range fs2 s2 ib Ht1 ltac:(lia) ltac:(lia) ltac:(lia) ltac:(lia) E1) as (G1 & Hgot & Hu & Ht2 & Hok & _).
  set (got := u32 (range.2 - range.1)) in *.
  apply answers_bind; [eapply insert_or_free_answers; try done; [intros; apply Hhole; lia|lia]|]. intros [] [t3 [fs3 s3]] E2 HI3.
  destruct (fill_round seed t fs s1 l ext runs want goal range fs2 s2 ib t3 fs3 s3 Ht1 ltac:(lia) ltac:(lia) ltac:(lia) ltac:(lia) ltac:(intros; apply Hhole; lia) E1 E2)
    as (_ & l1 & ext1 & Q1 & Q2 & _). eapply IH; try done; try lia. intros b Hin. specialize (Q2 b). rewrite Hhole in Q2 by lia. apply Q2. unfold got in *. lia.
Qed.

Lemma fill_all_answers sb0 bound l0 holes : forall t fs s l ext runs start stop projected,
  tree_steady sb0 (t, (fs, s)) -> tree_ok t fs s l ext runs -> 0 <= start <= stop -> stop < 2 ^ 32 -> plan_ok start stop holes ->
  (forall b, in_runs holes b -> ext_map l b = None) -> answers sb0 (fill_all seed bound l0 holes projected) (t, (fs, s)).
Proof.
  induction holes as [|[a e] holes IH]; intros t fs s l ext runs start stop projected HI Ht Hs Hstop [Hp Hsort] Hn; cbn [fill_all]; [by apply answers_ret|].
  apply Forall_cons in Hp as [[Ha He] Hp]. cbn [fst snd] in *. apply StronglySorted_inv in Hsort as [Hsort Hb].
  assert (Hh : forall b, a <= b < e -> ext_map l b = None) by (intros b Hb'; apply Hn; rewrite in_runs_cons; by left).
  apply answers_bind; [eapply fill_hole_answers; try done; lia|]. intros [o pr] [t1 [fs1 s1]] E1 HI1. cbn [fst snd].
  destruct o as [[x need]|]; [by apply answers_ret|].
  destruct (fill_hole_spec seed bound (goal_before l0 a) e (Z.to_nat (e - a)) t fs s l ext runs a projected None pr t1 fs1 s1 Ht ltac:(lia) ltac:(lia) ltac:(lia) Hh E1)
    as (reach & R1 & (l1 & ext1 & G1 & G2 & _) & ->). apply (IH t1 fs1 s1 l1 ext1 runs e stop pr HI1 G1); try lia.
  - split; [|done]. rewrite Forall_forall in *. intros h Hin. specialize (Hp h Hin). specialize (Hb h Hin). cbn in *. lia.
  - intros b Hin. specialize (G2 b). rewrite (Hn b) in G2 by (rewrite in_runs_cons; by right). apply G2. destruct Hin as (h & Hin & Hr).
    rewrite Forall_forall in Hb. specialize (Hb h Hin). cbn in Hb. unfold in_run in Hr. lia.
Qed.

Lemma fill_holes_answers t fs s l ext runs start stop bound : tree_ok t fs s l ext runs -> 0 <= start -> stop < 2 ^ 32 ->
  answers (super_block fs) (fill_holes seed start stop bound) (t, (fs, s)).
Proof.
  intros Ht Hs Hstop. pose proof (tree_ok_steady _ _ _ _ _ _ Ht) as HI. pose proof Ht as [T1 T2 _ _]. unfold fill_holes.
  destruct (Z.leb_spec stop start); [by apply answers_ret|]. unfold answers. rewrite bind_eq. unfold extents_now, extents. cbn [fst snd].
  rewrite (repr_flatten _ _ _ _ T1). cbn [rbind]. rewrite (sort_sorted l T2). rewrite bind_eq. unfold compute_holes.
  destruct (holes_from_spec l start stop T2 ltac:(lia)) as (holes & E & P1 & P2). rewrite E, lift_eq.
  match goal with |- _ (?m _).2 /\ _ => change (answers (super_block fs) m (t, (fs, s))) end.
  apply (fill_all_answers _ _ _ holes t fs s l ext runs start stop); try done; [lia|]. intros b Hb%P2. apply Hb.
Qed.
End Seed.
End Operations.
