(* ===== verification/ExtentTheorems.v ===== *)
(** * What the extent tree guarantees

    The theorems on the extent manager (modelled in [ExtentNode.v],
    [ExtentTree.v] and [ExtentManager.v]): what each operation does to the map
    from the blocks of a file to the blocks of the volume, that it answers on
    every path, that trees do not disturb each other, and that a truncation in
    chunks ends. *)

From S2P Require Import Prelude Pod Checksum JournalFormat Device Bitmap SuperBlock GroupDesc Transaction JournalState Handles MetaStore BlockGroup Alloc AllocSpec Calm.
From S2P Require Import ExtentNode Credits ExtentMap ExtentTree ExtentWrite ExtentSpec ExtentManager ExtentTotal.

Section Theorems.
Context {S : Type} `{MetaStoreOk S}.
Implicit Types s : S.

Lemma answers_err {A} sb0 (m : M (ExtentTree * (Ext4 * S)) A) st e st' : answers sb0 m st -> m st = (Err e, st') -> handled e = true.
Proof. intros [_ Hr] E. by rewrite E in Hr. Qed.

(** ** Chunks of a truncation *)

(** Between two chunks the inode is written back and the handle restarts: the
    tree stays what it is, and the new reservation holds what the last chunk
    asked for. *)
Record restarted (need : Z) (st st' : ExtentTree * (Ext4 * S)) : Prop := {
  rs_credits : need <= ms_credits st'.2.2;
  rs_needed n : needed st'.2.1 n = needed st.2.1 n;
  rs_tree l ext runs : tree_ok st.1 st.2.1 st.2.2 l ext runs -> tree_ok st'.1 st'.2.1 st'.2.2 l ext runs;
}.

(** A run of [n] chunks, none of which reached the new end. *)
Inductive unfinished (seed : option InodeCsumSeed) (new_size : Z) (duty : bool) (max : option Z) :
  nat -> ExtentTree * (Ext4 * S) -> ExtentTree * (Ext4 * S) -> Prop :=
  | Unfinished_nil st : unfinished seed new_size duty max 0 st st
  | Unfinished_cons n st st1 st2 st3 reached next :
      truncate_chunk seed new_size duty max st = (Ok (reached, next), st1) -> div_ceil new_size BLOCK_SIZE < reached ->
      restarted next st1 st2 -> unfinished seed new_size duty max n st2 st3 -> unfinished seed new_size duty max (Datatypes.S n) st st3.

Lemma needed_frame X fs s fs' s' n : frame X fs s fs' s' -> needed fs' n = needed fs n.
Proof. intros [_ _ [fb E] _]. unfold needed, truncate_chunk_credits, reserialize_credits, nr_groups, nr_gdt_blocks. by rewrite E. Qed.

(** With its reservation each chunk ends one of the extents past the new end. *)
Lemma rounds_bounded seed new_size duty max n st st' :
  unfinished seed new_size duty max n st st' -> 0 <= div_ceil new_size BLOCK_SIZE < 2 ^ 32 ->
  forall l ext runs, tree_ok st.1 st.2.1 st.2.2 l ext runs -> needed st.2.1 (zlen l) <= ms_credits st.2.2 ->
  (n <= past (div_ceil new_size BLOCK_SIZE) l)%nat.
Proof.
  intros Hu Hk. induction Hu as [st|n [t [fs s]] [t1 [fs1 s1]] st2 st3 reached next E Hlt [R1 R2 R3] Hu IH]; intros l ext runs Ht Hc; [lia|]. cbn [fst snd] in *.
  destruct (truncate_spec seed t fs s l ext runs new_size duty max reached next t1 fs1 s1 Ht Hk E) as (k & l' & _ & _ & _ & Hcut & Hnext & _ & Hprog).
  specialize (Hprog Hc Hlt). destruct Hcut as [[ext' [P1 _ _ _ P5]] _ _].
  specialize (IH l' ext' runs (R3 _ _ _ P1)). rewrite R2, (needed_frame _ _ _ _ _ _ P5), <- Hnext in IH. specialize (IH R1). lia.
Qed.

(** ** Theorems *)

(** C33: Looking a block of a file up in its tree finds exactly what the extents
    say, whatever the depth of the tree: the mapping of a covered block gives
    its physical block, how many blocks follow it contiguously and whether they
    are written; a hole is a hole.  A read is sent to a block only when it is
    written, a write only when it is mapped. *)
Theorem extent_lookup_exact t fs s l ext runs npages idx :
  tree_ok t fs s l ext runs -> 0 <= idx < npages -> idx < 2 ^ 32 ->
  (exists m, map_blocks t s idx = Ok m /\
     match m with
     | Mapped p len w => 0 < len /\ (forall i, 0 <= i < len -> ext_map l (idx + i) = Some (p + i, if w then Written else Unwritten))
     | HoleOf _ => ext_map l idx = None
     end) /\
  submit_read_bio npages t s idx = Ok (match ext_map l idx with Some (p, Written) => Some p | _ => None end) /\
  submit_write_bio npages t s idx = (match ext_map l idx with Some (p, _) => Ok p | None => Err EIO end).
Proof.
  intros Ht Hn H32. destruct (map_blocks_spec t fs s l ext runs idx Ht) as (m & E & Hm). split; [by exists m|]. unfold submit_read_bio, submit_write_bio.
  rewrite (proj2 (Z.leb_gt _ _)), (proj2 (Z.ltb_lt _ _)), E by lia. cbn [negb rbind].
  destruct m as [p len w|len]; [|by rewrite Hm]. destruct Hm as [Hl Hm]. specialize (Hm 0 ltac:(lia)). rewrite !Z.add_0_r in Hm. rewrite Hm. by destruct w.
Qed.

(** C34: Inserting a run that the file system allocated into a hole of a file adds
    exactly that run to the map; the tree, rebuilt at whatever depth it needs,
    keeps its invariant, its blocks and the count of [i_blocks]; every block
    of other files stays.  An error is one the callers handle. *)
Theorem extent_insert_exact seed t fs s l ext runs iblock pblock len kind r t' fs' s' :
  let e := mk_extent iblock len pblock kind in
  tree_ok t fs s l ext ((pblock, pblock + len) :: runs) -> ext_ok e -> (forall b, iblock <= b < iblock + len -> ext_map l b = None) ->
  insert seed iblock pblock len kind (t, (fs, s)) = (r, (t', (fs', s'))) ->
  match r with
  | Ok _ => exists l' ext', tree_step (fun _ => False) t fs s ext t' fs' s' l' ext' runs /\
      forall b, ext_map l' b = match e_map e b with Some p => Some p | None => ext_map l b end
  | Err err => handled err = true
  end.
Proof.
  intros e Ht He Hh E. destruct r as [[]|err]; [by apply (insert_spec seed t fs s l ext runs iblock pblock len kind)|].
  eapply answers_err; [|exact E]. by eapply insert_answers.
Qed.

(** Marking a range as written turns exactly its unwritten blocks into
    written ones; no mapping moves, and no block changes hands but those of the
    nodes of the tree. *)
Theorem extent_convert_exact seed t fs s l ext runs iblock len r t' fs' s' :
  tree_ok t fs s l ext runs -> 0 <= iblock -> 0 < len ->
  convert_unwritten seed iblock len (t, (fs, s)) = (r, (t', (fs', s'))) ->
  match r with
  | Ok _ => exists l' ext', tree_ok t' fs' s' l' ext' runs /\ frame (fun c => c ∈ ext \/ fs_free fs c) fs s fs' s' /\
      (forall b, ext_map l' b = converted iblock (iblock + len) b (ext_map l b)) /\ (forall p, owners l' p = owners l p)
  | Err err => handled err = true
  end.
Proof.
  intros Ht Hi Hn E. destruct r as [[]|err]; [by apply (convert_spec seed t fs s l ext runs iblock len)|].
  eapply answers_err; [|exact E]. by eapply convert_answers.
Qed.

(** C26: Filling a range of a file maps exactly the blocks of it that were holes,
    up to where the fill got, to fresh blocks that read as zeros; what was
    mapped stays, and neither the contents of the file nor a block that anyone
    else holds changes.  A whole fill reaches the end of the range, a fill bounded by
    the credits of its handle may stop before.  It never runs on. *)
Theorem fill_holes_exact seed t fs s l ext runs start stop bound r t' fs' s' :
  tree_ok t fs s l ext runs -> 0 <= start < stop -> stop < 2 ^ 32 ->
  fill_holes seed start stop bound (t, (fs, s)) = (r, (t', (fs', s'))) ->
  match r with
  | Ok fill => exists reach, start <= reach <= stop /\ grows t fs s l runs t' fs' s' (fun b => start <= b < reach) /\ fill_reach fill stop reach /\
      (bound = WholeRange -> fill = Filled)
  | Err err => handled err = true
  end.
Proof.
  intros Ht Hs Hstop E. destruct r as [fill|err]; [by apply (fill_holes_spec seed t fs s l ext runs start stop bound)|].
  eapply answers_err; [|exact E]. eapply fill_holes_answers; [exact Ht|lia|done].
Qed.

(** C25: A chunk of a truncation frees the mapped blocks from some block [k] on
    and drops exactly these from the tree; what lies below [k] stays.  The
    freed blocks are free in the bitmaps and pinned until the commit.  The
    chunk reports the end it left; when that is the new end, or when the call
    is not bounded, [k] is the new end.  A chunk that starts with the credits
    it asked for and does not finish drops an extent past the new end. *)
Theorem extent_truncate_exact seed t fs s l ext runs new_size duty max r t' fs' s' :
  let keep := div_ceil new_size BLOCK_SIZE in
  tree_ok t fs s l ext runs -> 0 <= keep < 2 ^ 32 ->
  truncate_chunk seed new_size duty max (t, (fs, s)) = (r, (t', (fs', s'))) ->
  match r with
  | Ok (reached, next) =>
      exists k l', keep <= k <= 2 ^ 32 /\ (reached <= keep -> k = keep) /\ (max = None -> reached <= keep) /\
        cut_off t fs s l ext runs k (2 ^ 32) t' fs' s' l' /\ next = needed fs (zlen l') /\ (past keep l' <= past keep l)%nat /\
        (needed fs (zlen l) <= ms_credits s -> keep < reached -> (past keep l' < past keep l)%nat)
  | Err err => handled err = true
  end.
Proof.
  intros keep Ht Hk E. destruct r as [[reached next]|err]; [by apply (truncate_spec seed t fs s l ext runs new_size duty max reached next)|].
  eapply answers_err; [|exact E]. by eapply truncate_answers.
Qed.

(** A chunk of a punch frees exactly the mapped blocks of the end of the
    punched range, from some block [k] on, splitting the extents that cross its
    edges; the rest of the file stays.  When no more remains, [k] is the start
    of the range. *)
Theorem extent_punch_exact seed t fs s l ext runs a e duty max r t' fs' s' :
  tree_ok t fs s l ext runs -> 0 <= a < e ->
  punch_chunk seed a e duty max (t, (fs, s)) = (r, (t', (fs', s'))) ->
  match r with
  | Ok (more, next) =>
      exists k l', a <= k <= e /\ (more = false -> k = a) /\ (max = None -> more = false) /\ cut_off t fs s l ext runs k e t' fs' s' l'
  | Err err => handled err = true
  end.
Proof.
  intros Ht Hae E. destruct r as [[more next]|err]; [by apply (punch_spec seed t fs s l ext runs a e duty max more next)|].
  eapply answers_err; [|exact E]. eapply punch_answers; [exact Ht|lia].
Qed.

(** An operation on one file leaves every other file alone: the tree of a
    file whose nodes and data are held next to the one that changes stands for
    the same extents afterwards, in the same blocks, and its data blocks read
    the same.  ([taken] are the runs the operation takes over, as an insertion
    does.) *)
Theorem extent_trees_apart X t fs s l ext t2 l2 ext2 taken runs t' fs' s' l' ext' :
  let other := block_runs ext2 ++ runs_of l2 ++ runs in
  tree_ok t fs s l ext (taken ++ other) -> repr s (et_root t2) l2 ext2 -> exts_ok l2 -> et_sector_count t2 = (data_blocks l2 + zlen ext2) * SECTORS_PER_BLOCK ->
  tree_step X t fs s ext t' fs' s' l' ext' other -> (forall c, X c -> (1 <= owners l c)%nat) ->
  tree_ok t2 fs' s' l2 ext2 (block_runs ext' ++ runs_of l' ++ runs) /\
  (forall p, (1 <= owners l2 p)%nat -> ms_read s' p = ms_read s p).
Proof.
  intros other Ht Hr Hl2 Hc Hstep HX. subst other.
  assert (Hkeep : forall c, (1 <= held (block_runs ext2 ++ runs_of l2 ++ runs) c)%nat -> ms_read s' c = ms_read s c).
  { intros c Hheld. eapply step_keeps; [exact Ht|exact Hstep|rewrite (held_app (runs_of l)), (held_app taken); lia|]. intros Hx%HX. pose proof (holds_once _ _ _ c (to_holds _ _ _ _ _ _ Ht)) as Ho.
    rewrite !held_app, !held_runs in Ho. rewrite !held_app, held_runs in Hheld. lia. }
  split.
  - split; try done.
    + eapply repr_same; [|exact Hr]. intros b Hb. apply Hkeep. rewrite held_app. pose proof (held_blocks_in ext2 b Hb). lia.
    + eapply holds_same; [|exact (to_holds _ _ _ _ _ _ (ts_ok _ _ _ _ _ _ _ _ _ _ _ Hstep))]. intros b. rewrite !held_app. lia.
  - intros p Hp. apply Hkeep. rewrite !held_app, held_runs. lia.
Qed.

End Theorems.

(** ** Samples

    Trees on the sample volume, over its data blocks 5 to 9. *)

Module SampleTree.
Definition l : list Extent := [mk_extent 0 2 5 Written; mk_extent 4 3 7 Unwritten].
Definition tree_of (l : list Extent) (sectors : Z) : ExtentTree := {| et_root := inline_leaf_root l; et_sector_count := sectors; et_dirty := false |}.
Definition t : ExtentTree := Eval vm_compute in tree_of l 40.
Definition half : ExtentTree := Eval vm_compute in tree_of (take 1 l) 16.
Definition fs : Ext4 := SampleVolume.fs.
Definition s : op := SampleVolume.store.

(** A journal whose running transaction is almost full, and a handle with one
    credit. *)
Definition dev : device := Device SampleVolume.disk [] (fun _ => true) (fun _ => true) true.
Definition crowded (d : device) : Journal := SampleHandle.started 505 (journal_new SampleHandle.wide_geometry d).
Definition tight_op (d : device) : op := Op (SampleHandle.started 1 (crowded d)) (handle_new 5 1).
Definition tight : op := tight_op dev.

(** The volume when every block is taken. *)
Definition full : Ext4 * op := (fs_alloc_blocks 21 40 (fs_alloc_blocks 22 0 (fs, s)).2).2.
Definition l4 : list Extent := [mk_extent 0 1 5 Written; mk_extent 2 1 7 Written; mk_extent 4 1 9 Written; mk_extent 10 5 12 Written].
Definition t4 : ExtentTree := Eval vm_compute in tree_of l4 64.

(** A root that claims five extents. *)
Definition bad_root : list byte := put_le 2 4 5 (put_le 2 2 5 (put_le 2 0 EXTENT_MAGIC (zeros ROOT_SIZE))).
End SampleTree.

Ltac sample_exts := split; [repeat (constructor; [by split; cbn; vm_compute|]); constructor|repeat (constructor; [|repeat (constructor; [by vm_compute|]); constructor]); constructor].

Lemma sample_exts_ok : exts_ok SampleTree.l.
Proof. sample_exts. Qed.

(** The data blocks of the sample, in pieces. *)
Lemma sample_holds runs : (forall b, held [(5, 8); (8, 10)] b = held runs b) -> holds SampleTree.fs SampleTree.s runs.
Proof. intros E. eapply holds_same; [exact E|]. apply sample_session_ok. Qed.

Ltac same_held := intros b;
  match goal with |- held ?r _ = held ?k _ => let r' := eval vm_compute in r in let k' := eval vm_compute in k in change (held r' b = held k' b) end;
  rewrite !held_cons; unfold one_if; cbn [fst snd]; repeat case_decide; cbn; lia.

Lemma inline_repr {S} `{MetaStore S} (s : S) l sectors : leaf_entries (zlen l) (inline_leaf_root l) = l ->
  rh_entries (node_header (inline_leaf_root l)) = zlen l -> rh_depth (node_header (inline_leaf_root l)) = 0 -> zlen l <= 4 ->
  zlen (inline_leaf_root l) = 60 -> repr s (et_root (SampleTree.tree_of l sectors)) l [].
Proof.
  intros E1 E2 E3 Hn Hz. pose proof (repr_inline s (inline_leaf_root l)) as Hr. cbn zeta in Hr. rewrite E2, E1 in Hr. apply Hr; [done|].
  rewrite Hz. unfold entry_off, ENTRY_SIZE. lia.
Qed.

Ltac sample_repr l n := exact (inline_repr _ l n ltac:(vm_compute; reflexivity) ltac:(vm_compute; reflexivity) ltac:(vm_compute; reflexivity)
  ltac:(by vm_compute) ltac:(vm_compute; reflexivity)).

Lemma sample_tree_ok : tree_ok SampleTree.t SampleTree.fs SampleTree.s SampleTree.l [] [].
Proof.
  split; [change SampleTree.t with (SampleTree.tree_of SampleTree.l 40); sample_repr SampleTree.l 40|apply sample_exts_ok|apply sample_holds; same_held|done].
Qed.

Lemma extent_lookup_exact_witness :
  submit_read_bio 9 SampleTree.t SampleTree.s 1 = Ok (Some 6) /\ submit_write_bio 9 SampleTree.t SampleTree.s 5 = Ok 8 /\
  submit_read_bio 9 SampleTree.t SampleTree.s 5 = Ok None.
Proof.
  destruct (extent_lookup_exact _ _ _ _ _ _ 9 1 sample_tree_ok ltac:(lia) ltac:(lia)) as (_ & H1 & _).
  destruct (extent_lookup_exact _ _ _ _ _ _ 9 5 sample_tree_ok ltac:(lia) ltac:(lia)) as (_ & H2 & H3).
  split; [exact H1|split; [exact H3|exact H2]].
Defined.

Lemma sample_half_ok : tree_ok SampleTree.half SampleTree.fs SampleTree.s (take 1 SampleTree.l) [] [(7, 7 + 3)].
Proof.
  split; [change SampleTree.half with (SampleTree.tree_of (take 1 SampleTree.l) 16); sample_repr (take 1 SampleTree.l) 16|sample_exts|apply sample_holds; same_held|done].
Qed.

Lemma extent_insert_exact_witness : exists st', insert None 4 7 3 Unwritten (SampleTree.half, (SampleTree.fs, SampleTree.s)) = (Ok tt, st') /\
  exists l', forall b, ext_map l' b = match e_map (mk_extent 4 3 7 Unwritten) b with Some p => Some p | None => ext_map (take 1 SampleTree.l) b end.
Proof.
  destruct (run_result (insert None 4 7 3 Unwritten) (SampleTree.half, (SampleTree.fs, SampleTree.s)) (Ok tt)) as [[t' [fs' s']] E]; [vm_compute; reflexivity|].
  exists (t', (fs', s')). split; [exact E|].
  assert (Hh : forall b, 4 <= b < 4 + 3 -> ext_map (take 1 SampleTree.l) b = None).
  { intros b Hb. change (take 1 SampleTree.l) with [mk_extent 0 2 5 Written]. cbn [ext_map]. rewrite e_map_mk.
    by replace ((0 <=? b) && (b <? 0 + 2)) with false by lia. }
  destruct (extent_insert_exact None _ _ _ _ _ [] 4 7 3 Unwritten (Ok tt) t' fs' s' sample_half_ok ltac:(by split; vm_compute) Hh E) as (l' & ext' & _ & Hm).
  exists l'. exact Hm.
Defined.

Lemma extent_convert_exact_witness : exists st', convert_unwritten None 5 1 (SampleTree.t, (SampleTree.fs, SampleTree.s)) = (Ok tt, st') /\
  exists l', forall b, ext_map l' b = converted 5 (5 + 1) b (ext_map SampleTree.l b).
Proof.
  destruct (run_result (convert_unwritten None 5 1) (SampleTree.t, (SampleTree.fs, SampleTree.s)) (Ok tt)) as [[t' [fs' s']] E]; [vm_compute; reflexivity|].
  exists (t', (fs', s')). split; [exact E|].
  destruct (extent_convert_exact None _ _ _ _ _ [] 5 1 (Ok tt) t' fs' s' sample_tree_ok ltac:(lia) ltac:(lia) E) as (l' & ext' & _ & _ & Hm & _).
  exists l'. exact Hm.
Defined.

Lemma fill_holes_exact_witness : exists t' fs' s', fill_holes None 0 9 WholeRange (SampleTree.t, (SampleTree.fs, SampleTree.s)) = (Ok Filled, (t', (fs', s'))) /\
  grows SampleTree.t SampleTree.fs SampleTree.s SampleTree.l [] t' fs' s' (fun b => 0 <= b < 9).
Proof.
  destruct (run_result (fill_holes None 0 9 WholeRange) (SampleTree.t, (SampleTree.fs, SampleTree.s)) (Ok Filled)) as [[t' [fs' s']] E]; [vm_compute; reflexivity|].
  exists t', fs', s'. split; [exact E|].
  destruct (fill_holes_exact None _ _ _ _ _ [] 0 9 WholeRange (Ok Filled) t' fs' s' sample_tree_ok ltac:(lia) ltac:(lia) E) as (reach & _ & Hg & Hr & _).
  cbn in Hr. subst reach. exact Hg.
Defined.

Lemma extent_truncate_exact_witness : exists t' fs' s' l', truncate_chunk None 5000 false None (SampleTree.t, (SampleTree.fs, SampleTree.s)) = (Ok (2, 7), (t', (fs', s'))) /\
  cut_off SampleTree.t SampleTree.fs SampleTree.s SampleTree.l [] [] 2 (2 ^ 32) t' fs' s' l'.
Proof.
  destruct (run_result (truncate_chunk None 5000 false None) (SampleTree.t, (SampleTree.fs, SampleTree.s)) (Ok (2, 7))) as [[t' [fs' s']] E]; [vm_compute; reflexivity|].
  destruct (extent_truncate_exact None _ _ _ _ _ [] 5000 false None (Ok (2, 7)) t' fs' s' sample_tree_ok ltac:(by split; vm_compute) E) as (k & l' & _ & Hk & _ & Hc & _).
  exists t', fs', s', l'. split; [exact E|]. rewrite (Hk ltac:(by vm_compute)) in Hc. exact Hc.
Defined.

Lemma extent_punch_exact_witness : exists t' fs' s' l', punch_chunk None 1 5 false None (SampleTree.t, (SampleTree.fs, SampleTree.s)) = (Ok (false, 7), (t', (fs', s'))) /\
  cut_off SampleTree.t SampleTree.fs SampleTree.s SampleTree.l [] [] 1 5 t' fs' s' l'.
Proof.
  destruct (run_result (punch_chunk None 1 5 false None) (SampleTree.t, (SampleTree.fs, SampleTree.s)) (Ok (false, 7))) as [[t' [fs' s']] E]; [vm_compute; reflexivity|].
  destruct (extent_punch_exact None _ _ _ _ _ [] 1 5 false None (Ok (false, 7)) t' fs' s' sample_tree_ok ltac:(lia) E) as (k & l' & _ & Hk & _ & Hc).
  exists t', fs', s', l'. split; [exact E|]. rewrite (Hk eq_refl) in Hc. exact Hc.
Defined.

(** Two files share the sample: one takes block 7, the other keeps 8 and 9. *)
Definition sample_other : list Extent := [mk_extent 3 2 8 Written].

Lemma extent_trees_apart_witness : exists t' fs' s' l' ext', insert None 4 7 1 Unwritten (SampleTree.half, (SampleTree.fs, SampleTree.s)) = (Ok tt, (t', (fs', s'))) /\
  tree_ok (SampleTree.tree_of sample_other 16) fs' s' sample_other [] (block_runs ext' ++ runs_of l' ++ []).
Proof.
  destruct (run_result (insert None 4 7 1 Unwritten) (SampleTree.half, (SampleTree.fs, SampleTree.s)) (Ok tt)) as [[t' [fs' s']] E]; [vm_compute; reflexivity|].
  assert (Ht : tree_ok SampleTree.half SampleTree.fs SampleTree.s (take 1 SampleTree.l) [] ((7, 7 + 1) :: block_runs [] ++ runs_of sample_other ++ [])).
  { split; [change SampleTree.half with (SampleTree.tree_of (take 1 SampleTree.l) 16); sample_repr (take 1 SampleTree.l) 16|sample_exts|apply sample_holds; same_held|done]. }
  assert (Hh : forall b, 4 <= b < 4 + 1 -> ext_map (take 1 SampleTree.l) b = None).
  { intros b Hb. change (take 1 SampleTree.l) with [mk_extent 0 2 5 Written]. cbn [ext_map]. rewrite e_map_mk.
    by replace ((0 <=? b) && (b <? 0 + 2)) with false by lia. }
  destruct (insert_spec None _ _ _ _ _ _ 4 7 1 Unwritten t' fs' s' Ht ltac:(by split; vm_compute) Hh E) as (l' & ext' & P & _).
  exists t', fs', s', l', ext'. split; [exact E|].
  exact (proj1 (extent_trees_apart _ _ _ _ _ _ (SampleTree.tree_of sample_other 16) sample_other [] [(7, 7 + 1)] [] t' fs' s' l' ext' Ht
    ltac:(sample_repr sample_other 16) ltac:(sample_exts) eq_refl P ltac:(done))).
Defined.

(** The handle with one credit on the crowded journal. *)
Lemma tight_op_ok d : disk_ok (d_disk d) -> op_ok (SampleTree.tight_op d).
Proof.
  intros Hd. assert (E1 : uncheckpointed (state (o_j (SampleTree.tight_op d))) = ∅) by (vm_compute; reflexivity).
  assert (E2 : j_device (o_j (SampleTree.tight_op d)) = d) by (vm_compute; reflexivity). split.
  - split; [by rewrite E2|by rewrite E1|]. intros t E. assert (Transaction.metadata t = ∅) as ->; [|done]. revert E. vm_compute. by intros [= <-].
  - exists [], [handle_new 5 505].
    assert (Hs : rtc world_step (World (journal_new SampleHandle.wide_geometry d) []) (World (SampleTree.crowded d) [handle_new 5 505]))
      by (apply started_step; [lia|vm_compute; reflexivity]).
    apply (world_steps_ok _ _ (rtc_r _ _ _ Hs (WStart 0 (SampleTree.crowded d) (SampleHandle.started 1 (SampleTree.crowded d)) [handle_new 5 505] 1 5
      ltac:(lia) ltac:(vm_compute; reflexivity)))). apply journal_new_seats.
Qed.

(** Nothing is captured, so both handles read the device. *)
Lemma fresh_reads o d t : op_ok o -> uncheckpointed (state (o_j o)) = ∅ -> j_device (o_j o) = d -> active (state (o_j o)) = Some t ->
  Transaction.metadata t = ∅ -> forall c, ms_read o c = dev_read d c.
Proof.
  intros [_ (l1 & l2 & Hs)] E1 E2 Ea Em c. cbn [ms_read op_store]. rewrite (view_active _ _ c Hs). unfold view_of. rewrite E1, Ea, E2.
  unfold buffer_bytes. cbn [mbind option_bind]. by rewrite Em, !lookup_empty.
Qed.

Lemma sample_dev_ok : disk_ok (d_disk SampleTree.dev).
Proof. vm_decide. Qed.

Lemma tight_reads d c : disk_ok (d_disk d) -> ms_read (SampleTree.tight_op d) c = dev_read d c.
Proof. intros Hd. eapply fresh_reads; [by apply tight_op_ok|vm_compute; reflexivity..|done]. Qed.

Lemma fresh_op_reads d c : disk_ok (d_disk d) -> ms_read (sample_op d) c = dev_read d c.
Proof. intros Hd. eapply fresh_reads; [by apply sample_op_ok|vm_compute; reflexivity..|done]. Qed.

Definition sample_stopped : op := (ms_reserve 7 SampleTree.tight).2.

Lemma sample_stopped_ok : ms_ok sample_stopped /\ forall c, ms_read sample_stopped c = ms_read SampleTree.s c.
Proof.
  pose proof (op_reserve_spec SampleTree.tight 7 _ sample_stopped (tight_op_ok _ sample_dev_ok) (surjective_pairing _)) as (Hok & Hrd & _).
  split; [exact Hok|]. intros c. rewrite Hrd. etransitivity; [apply tight_reads, sample_dev_ok|]. symmetry. apply fresh_op_reads, sample_dev_ok.
Qed.

Lemma sample_tight_tree : tree_ok SampleTree.t SampleTree.fs SampleTree.tight SampleTree.l [] [].
Proof.
  apply (tree_same_reads _ _ SampleTree.s); [apply sample_tree_ok|apply tight_op_ok, sample_dev_ok|]. intros c.
  etransitivity; [apply tight_reads, sample_dev_ok|]. symmetry. apply fresh_op_reads, sample_dev_ok.
Qed.

(** With one credit the first chunk stops at once, and after the restart the
    next one finishes. *)
Lemma sample_first_round : unfinished None 5000 false (Some 400) 1 (SampleTree.t, (SampleTree.fs, SampleTree.tight))
  (SampleTree.t, (SampleTree.fs, SampleTree.s)).
Proof.
  set (t1 := {| et_root := et_root SampleTree.t; et_sector_count := 40; et_dirty := true |}).
  eapply (Unfinished_cons _ _ _ _ 0 _ (t1, (SampleTree.fs, sample_stopped)) (SampleTree.t, (SampleTree.fs, SampleTree.s)) _ 7 7).
  - vm_compute. reflexivity.
  - by vm_compute.
  - split; [by vm_compute|done|]. intros l ext runs [T1 T2 T3 T4]. destruct sample_stopped_ok as [Hok Hrd].
    apply (tree_same_reads _ _ sample_stopped); [|exact sample_volume_store|done]. by split.
  - constructor.
Qed.


(** The full volume: every data block is held. *)
Lemma sample_full_holds runs :
  (forall b, held [(35, 56); (10, 32); (5, 8); (8, 10)] b = held runs b) -> holds SampleTree.full.1 SampleTree.full.2 runs.
Proof.
  intros Eh. destruct (run_result (fs_alloc_blocks 22 0) (SampleTree.fs, SampleTree.s) (Ok (10, 32))) as [[fs1 s1] E1]; [vm_compute; reflexivity|].
  assert (E2 : (fs_alloc_blocks 21 40 (fs_alloc_blocks 22 0 (SampleTree.fs, SampleTree.s)).2).1 = Ok (35, 56)) by (vm_compute; reflexivity).
  assert (Ef : SampleTree.full = (fs_alloc_blocks 21 40 (fs_alloc_blocks 22 0 (SampleTree.fs, SampleTree.s)).2).2) by done. rewrite E1 in E2, Ef. cbn [snd] in E2, Ef.
  apply run_result in E2 as [[fs2 s2] E2]. rewrite E2 in Ef. rewrite Ef. cbn [fst snd].
  pose proof (proj1 (alloc_holds _ _ _ 22 0 _ _ _ sample_session_ok ltac:(lia) E1)) as H1.
  pose proof (proj1 (alloc_holds _ _ _ 21 40 _ _ _ H1 ltac:(lia) E2)) as H2. by eapply holds_same.
Qed.

Definition sample_rest : list (Z * Z) := [(6, 7); (8, 9); (10, 12); (17, 32); (35, 56)].

Lemma sample_full_tree : tree_ok SampleTree.t4 SampleTree.full.1 SampleTree.full.2 SampleTree.l4 [] sample_rest.
Proof.
  split; [change SampleTree.t4 with (SampleTree.tree_of SampleTree.l4 64); sample_repr SampleTree.l4 64|sample_exts|apply sample_full_holds; same_held|done].
Qed.


(** The mount check of a root accepts more entries than the root has room
    for.  A lookup then reports corruption, but reading the whole list, which
    every write, truncation and punch does first, indexes past the root and
    panics. *)
Theorem wide_root_panics {S} `{MetaStore S} (s : S) sectors b :
  exists t, try_new SampleTree.bad_root sectors = Ok t /\ lookup t s b = Err EUCLEAN /\ flatten t s = Err PANIC /\ extents t s = Err PANIC.
Proof. exists {| et_root := SampleTree.bad_root; et_sector_count := sectors; et_dirty := false |}. by vm_compute. Qed.
