(* ===== verification/InodeRecord.v ===== *)
(** * The on-disk inode and its descriptor

    Models the first part of [inode/mod.rs]: the 256-byte [RawInode], the
    typed [InodeDesc] read from it and written back to it, the split
    timestamps, the device numbers of special files, and the checksum of an
    inode.  [i_block] is kept as its 60 bytes.  The device-number packing is
    the one of [device-id], the inode types are those of [inode_attr]. *)

From S2P Require Import Prelude Pod Checksum JournalFormat Device SuperBlock ExtentNode.

(** ** Types, times and flags *)

Inductive InodeType : Set :=
  | Unknown | NamedPipe | CharDevice | Dir | BlockDevice | File | SymLink | Socket.

#[export] Instance InodeType_eq_dec : EqDecision InodeType.
Proof. solve_decision. Defined.

(** The discriminants, [type_ as u16]. *)
Definition type_bits (t : InodeType) : Z :=
  match t with
  | Unknown => 0 | NamedPipe => 0x1000 | CharDevice => 0x2000 | Dir => 0x4000
  | BlockDevice => 0x6000 | File => 0x8000 | SymLink => 0xA000 | Socket => 0xC000
  end.

(** The derived [TryFromInt]. *)
Definition type_of_bits (v : Z) : option InodeType :=
  find (fun t => type_bits t =? v) [Unknown; NamedPipe; CharDevice; Dir; BlockDevice; File; SymLink; Socket].

Definition TYPE_MASK : Z := 0xF000.

(** [InodeType::from_raw_mode] *)
Definition from_raw_mode (mode : Z) : result InodeType :=
  let mode := Z.land mode TYPE_MASK in
  if mode =? 0 then Ok File
  else match type_of_bits (Z.land mode TYPE_MASK) with Some t => Ok t | None => Err EINVAL end.

Definition is_directory (t : InodeType) : bool := bool_decide (t = Dir).

(** [FilePerm::from_bits_truncate] *)
Definition PERM_MASK : Z := 0xFFF.
Definition perm_truncate (bits : Z) : Z := Z.land bits PERM_MASK.

(** [FileFlags]: the bits the code names; [from_bits_truncate] drops the others. *)
Module FileFlags.
Definition INDEX : Z := Z.shiftl 1 12.
Definition HUGE_FILE : Z := Z.shiftl 1 18.
Definition EXTENTS : Z := Z.shiftl 1 19.
Definition EA_INODE : Z := Z.shiftl 1 21.
Definition INLINE_DATA : Z := Z.shiftl 1 28.
Definition all : Z :=
  fold_right Z.lor 0
    (map (Z.shiftl 1) [0; 1; 2; 3; 4; 5; 6; 7; 12; 18; 19; 21; 28]).
End FileFlags.

(** [core::time::Duration], with the carry of [Duration::new]. *)
Definition NANOS_PER_SEC : Z := 1000000000.
Record Duration : Type := { d_secs : Z; d_nanos : Z }.
Definition duration_new (secs nanos : Z) : Duration :=
  {| d_secs := secs + nanos / NANOS_PER_SEC; d_nanos := nanos mod NANOS_PER_SEC |}.
Definition duration_ok (t : Duration) : Prop := fits 64 (d_secs t) /\ 0 <= d_nanos t < NANOS_PER_SEC.

(** A [u32] read as an [i32]. *)
Definition as_i32 (v : Z) : Z := if v <? 2 ^ 31 then v else v - 2 ^ 32.

Definition decode_time (secs extra : Z) : Duration :=
  let epoch := Z.land extra 3 in
  let nsec := Z.shiftr extra 2 in
  let secs := as_i32 secs + Z.shiftl epoch 32 in
  duration_new (if secs <? 0 then 0 else secs) nsec.

Definition encode_time (time : Duration) : Z * Z :=
  let secs := Z.min (d_secs time) (Z.shiftl 1 34 - 1) in
  let nsec := d_nanos time in
  let epoch := Z.land (Z.shiftr secs 32) 3 in
  (u32 secs, Z.lor (u32 epoch) (u32 (Z.shiftl nsec 2))).

(** [Dtime]: [i_dtime] is a deletion time, or the successor on the orphan list. *)
Inductive Dtime : Type :=
  | Time (time : Duration)
  | OrphanNext (next : option Z).

Definition dtime_to_raw (d : Dtime) : Z :=
  match d with
  | Time time => if 2 ^ 32 - 1 <? d_secs time then 2 ^ 32 - 1 else d_secs time
  | OrphanNext (Some ino) => ino
  | OrphanNext None => 0
  end.

(** ** The records *)

Record InodeDesc : Type := {
  i_type : InodeType;
  i_perm : Z;
  i_uid : Z;
  i_gid : Z;
  i_size : Z;
  i_atime : Duration;
  i_ctime : Duration;
  i_mtime : Duration;
  i_crtime : Duration;
  i_dtime : Dtime;
  i_link_count : Z;
  i_sector_count : Z;
  i_flags : Z;
  i_file_acl : Z;
  i_generation : Z;
  i_block : list byte;
}.

Record RawInode : Type := {
  ri_mode : Z;
  ri_uid : Z;
  ri_size_lo : Z;
  ri_atime : Z;
  ri_ctime : Z;
  ri_mtime : Z;
  ri_dtime : Z;
  ri_gid : Z;
  ri_link_count : Z;
  ri_sector_count : Z;
  ri_flags : Z;
  ri_osd1 : Z;
  ri_block : list byte;
  ri_generation : Z;
  ri_file_acl_lo : Z;
  ri_size_high : Z;
  ri_obso_faddr : Z;
  ri_blocks_high : Z;
  ri_file_acl_high : Z;
  ri_uid_high : Z;
  ri_gid_high : Z;
  ri_checksum_lo : Z;
  ri_osd2_reserved : Z;
  ri_extra_isize : Z;
  ri_checksum_hi : Z;
  ri_ctime_extra : Z;
  ri_mtime_extra : Z;
  ri_atime_extra : Z;
  ri_crtime : Z;
  ri_crtime_extra : Z;
  ri_version_hi : Z;
  ri_projid : Z;
  ri_tail : list byte;
}.

Definition raw_inode_codec : codec RawInode :=
  struct
    (fun '
      (v0, (v1, (v2, (v3, (v4, (v5, (v6, (v7, (v8, (v9, (v10, (v11, (v12, (v13, (v14, (v15, (v16, (v17, (v18, (v19,
      (v20, (v21, (v22, (v23, (v24, (v25, (v26, (v27, (v28, (v29, (v30, (v31, v32)))))))))))))))))))))))))))))))) =>
      Build_RawInode
        v0 v1 v2 v3 v4 v5 v6 v7 v8 v9 v10 v11 v12 v13 v14 v15 v16 v17 v18 v19 v20 v21 v22 v23 v24 v25 v26 v27 v28 v29
        v30 v31 v32)
    (fun r =>
      (ri_mode r, (ri_uid r, (ri_size_lo r, (ri_atime r, (ri_ctime r, (ri_mtime r, (ri_dtime r, (ri_gid r,
      (ri_link_count r, (ri_sector_count r, (ri_flags r, (ri_osd1 r, (ri_block r, (ri_generation r, (ri_file_acl_lo
      r, (ri_size_high r, (ri_obso_faddr r, (ri_blocks_high r, (ri_file_acl_high r, (ri_uid_high r, (ri_gid_high r,
      (ri_checksum_lo r, (ri_osd2_reserved r, (ri_extra_isize r, (ri_checksum_hi r, (ri_ctime_extra r,
      (ri_mtime_extra r, (ri_atime_extra r, (ri_crtime r, (ri_crtime_extra r, (ri_version_hi r, (ri_projid r, ri_tail
      r)))))))))))))))))))))))))))))))))
    (
     le 2 ⊗ le 2 ⊗ le 4 ⊗ le 4 ⊗ le 4 ⊗ le 4 ⊗ le 4 ⊗ le 2 ⊗ le 2 ⊗ le 4 ⊗ le 4 ⊗ le 4 ⊗ raw 60 ⊗ le 4 ⊗ le 4 ⊗ le 4
     ⊗ le 4 ⊗ le 2 ⊗ le 2 ⊗ le 2 ⊗ le 2 ⊗ le 2 ⊗ le 2 ⊗ le 2 ⊗ le 2 ⊗ le 4 ⊗ le 4 ⊗ le 4 ⊗ le 4 ⊗ le 4 ⊗ le 4 ⊗ le 4
     ⊗ raw 96)%codec.

(** [r.dtime = dtime], and the stamp of the two checksum fields. *)
Definition ri_with_dtime (r : RawInode) (dtime : Z) : RawInode :=
  Build_RawInode
    (ri_mode r) (ri_uid r) (ri_size_lo r) (ri_atime r) (ri_ctime r) (ri_mtime r) dtime (ri_gid r) (ri_link_count r)
    (ri_sector_count r) (ri_flags r) (ri_osd1 r) (ri_block r) (ri_generation r) (ri_file_acl_lo r) (ri_size_high r)
    (ri_obso_faddr r) (ri_blocks_high r) (ri_file_acl_high r) (ri_uid_high r) (ri_gid_high r) (ri_checksum_lo r)
    (ri_osd2_reserved r) (ri_extra_isize r) (ri_checksum_hi r) (ri_ctime_extra r) (ri_mtime_extra r) (ri_atime_extra
    r) (ri_crtime r) (ri_crtime_extra r) (ri_version_hi r) (ri_projid r) (ri_tail r).
Definition ri_with_csum (r : RawInode) (lo hi : Z) : RawInode :=
  Build_RawInode
    (ri_mode r) (ri_uid r) (ri_size_lo r) (ri_atime r) (ri_ctime r) (ri_mtime r) (ri_dtime r) (ri_gid r)
    (ri_link_count r) (ri_sector_count r) (ri_flags r) (ri_osd1 r) (ri_block r) (ri_generation r) (ri_file_acl_lo r)
    (ri_size_high r) (ri_obso_faddr r) (ri_blocks_high r) (ri_file_acl_high r) (ri_uid_high r) (ri_gid_high r) lo
    (ri_osd2_reserved r) (ri_extra_isize r) hi (ri_ctime_extra r) (ri_mtime_extra r) (ri_atime_extra r) (ri_crtime r)
    (ri_crtime_extra r) (ri_version_hi r) (ri_projid r) (ri_tail r).

(** ** Device numbers *)

Definition decode_device_numbers (raw : Z) : Z * Z :=
  (u32 (Z.lor (Z.land (Z.shiftr raw 32) 0xfffff000) (Z.land (Z.shiftr raw 8) 0x00000fff)),
   u32 (Z.lor (Z.land (Z.shiftr raw 12) 0xffffff00) (Z.land raw 0x000000ff))).

Definition encode_device_numbers (major minor : Z) : Z :=
  Z.lor (Z.lor (Z.lor (u64 (Z.shiftl (Z.land major 0xfffff000) 32)) (Z.shiftl (Z.land major 0x00000fff) 8))
               (Z.shiftl (Z.land minor 0xffffff00) 12))
        (Z.land minor 0x000000ff).

Definition encode_device_block (device_id : Z) : list byte :=
  let '(major, minor) := decode_device_numbers device_id in
  let block := zeros ROOT_SIZE in
  if (major <? 256) && (minor <? 256) then put_le 4 0 (Z.lor (Z.shiftl major 8) minor) block
  else
    put_le 4 4 (Z.lor (Z.lor (Z.land minor 0xFF) (u32 (Z.shiftl major 8))) (u32 (Z.shiftl (Z.land minor (not32 0xFF)) 12))) block.

Definition decode_device_block (block : list byte) : Z :=
  let block0 := get_le 4 0 block in
  let '(major, minor) :=
    if negb (block0 =? 0) then (Z.land (Z.shiftr block0 8) 0xFF, Z.land block0 0xFF)
    else
      let dev := get_le 4 4 block in
      (Z.shiftr (Z.land dev 0xFFF00) 8, Z.lor (Z.land dev 0xFF) (Z.land (Z.shiftr dev 12) 0xFFF00)) in
  encode_device_numbers major minor.

(** ** The descriptor *)

Inductive InodeSeed : Type :=
  | ExtentRoot
  | Device (id : Z)
  | Nothing.

(** [InodeDesc::new] *)
Definition desc_new (type_ : InodeType) (perm uid gid link_count generation : Z) (now : Duration) (seed : InodeSeed) : InodeDesc :=
  let '(flags, block) :=
    match seed with
    | ExtentRoot => (FileFlags.EXTENTS, empty_root)
    | Device id => (0, encode_device_block id)
    | Nothing => (0, zeros ROOT_SIZE)
    end in
  {| i_type := type_; i_perm := perm; i_uid := uid; i_gid := gid; i_size := 0;
     i_atime := now; i_ctime := now; i_mtime := now; i_crtime := now;
     i_dtime := Time {| d_secs := 0; d_nanos := 0 |}; i_link_count := link_count; i_sector_count := 0;
     i_flags := flags; i_file_acl := 0; i_generation := generation; i_block := block |}.

Definition device_id (d : InodeDesc) : option Z :=
  match i_type d with
  | CharDevice | BlockDevice => Some (decode_device_block (i_block d))
  | _ => None
  end.

Definition is_extent_based (d : InodeDesc) : bool := contains (i_flags d) FileFlags.EXTENTS.

(** *** The setters *)

Definition set_size (d : InodeDesc) (size : Z) : InodeDesc :=
  Build_InodeDesc
    (i_type d) (i_perm d) (i_uid d) (i_gid d) size (i_atime d) (i_ctime d) (i_mtime d) (i_crtime d) (i_dtime d)
    (i_link_count d) (i_sector_count d) (i_flags d) (i_file_acl d) (i_generation d) (i_block d).
Definition set_link_count (d : InodeDesc) (count : Z) : InodeDesc :=
  Build_InodeDesc
    (i_type d) (i_perm d) (i_uid d) (i_gid d) (i_size d) (i_atime d) (i_ctime d) (i_mtime d) (i_crtime d) (i_dtime d)
    count (i_sector_count d) (i_flags d) (i_file_acl d) (i_generation d) (i_block d).
(** The counter is a [u16]: the addition panics when it does not fit. *)
Definition inc_link_count (d : InodeDesc) (delta : Z) : result InodeDesc :=
  check fitsb 16 (i_link_count d + delta) else PANIC in
  Ok (set_link_count d (i_link_count d + delta)).
Definition dec_link_count (d : InodeDesc) (delta : Z) : InodeDesc :=
  set_link_count d (sat_sub (i_link_count d) delta).
Definition set_dtime_state (d : InodeDesc) (dtime : Dtime) : InodeDesc :=
  Build_InodeDesc
    (i_type d) (i_perm d) (i_uid d) (i_gid d) (i_size d) (i_atime d) (i_ctime d) (i_mtime d) (i_crtime d) dtime
    (i_link_count d) (i_sector_count d) (i_flags d) (i_file_acl d) (i_generation d) (i_block d).
Definition set_dtime (d : InodeDesc) (time : Duration) : InodeDesc := set_dtime_state d (Time time).
Definition set_orphan_next (d : InodeDesc) (next : option Z) : InodeDesc := set_dtime_state d (OrphanNext next).
Definition set_flags (d : InodeDesc) (flags : Z) : InodeDesc :=
  Build_InodeDesc
    (i_type d) (i_perm d) (i_uid d) (i_gid d) (i_size d) (i_atime d) (i_ctime d) (i_mtime d) (i_crtime d) (i_dtime d)
    (i_link_count d) (i_sector_count d) flags (i_file_acl d) (i_generation d) (i_block d).
Definition remove_flags (d : InodeDesc) (flags : Z) : InodeDesc := set_flags d (Z.ldiff (i_flags d) flags).
Definition insert_flags (d : InodeDesc) (flags : Z) : InodeDesc := set_flags d (Z.lor (i_flags d) flags).
Definition set_raw_block (d : InodeDesc) (block : list byte) : InodeDesc :=
  Build_InodeDesc
    (i_type d) (i_perm d) (i_uid d) (i_gid d) (i_size d) (i_atime d) (i_ctime d) (i_mtime d) (i_crtime d) (i_dtime d)
    (i_link_count d) (i_sector_count d) (i_flags d) (i_file_acl d) (i_generation d) block.
Definition set_mtime (d : InodeDesc) (time : Duration) : InodeDesc :=
  Build_InodeDesc
    (i_type d) (i_perm d) (i_uid d) (i_gid d) (i_size d) (i_atime d) (i_ctime d) time (i_crtime d) (i_dtime d)
    (i_link_count d) (i_sector_count d) (i_flags d) (i_file_acl d) (i_generation d) (i_block d).
Definition set_ctime (d : InodeDesc) (time : Duration) : InodeDesc :=
  Build_InodeDesc
    (i_type d) (i_perm d) (i_uid d) (i_gid d) (i_size d) (i_atime d) time (i_mtime d) (i_crtime d) (i_dtime d)
    (i_link_count d) (i_sector_count d) (i_flags d) (i_file_acl d) (i_generation d) (i_block d).
Definition set_sector_count (d : InodeDesc) (sectors : Z) : InodeDesc :=
  Build_InodeDesc
    (i_type d) (i_perm d) (i_uid d) (i_gid d) (i_size d) (i_atime d) (i_ctime d) (i_mtime d) (i_crtime d) (i_dtime d)
    (i_link_count d) sectors (i_flags d) (i_file_acl d) (i_generation d) (i_block d).
Definition set_perm (d : InodeDesc) (perm : Z) : InodeDesc :=
  Build_InodeDesc
    (i_type d) perm (i_uid d) (i_gid d) (i_size d) (i_atime d) (i_ctime d) (i_mtime d) (i_crtime d) (i_dtime d)
    (i_link_count d) (i_sector_count d) (i_flags d) (i_file_acl d) (i_generation d) (i_block d).
Definition set_uid (d : InodeDesc) (uid : Z) : InodeDesc :=
  Build_InodeDesc
    (i_type d) (i_perm d) uid (i_gid d) (i_size d) (i_atime d) (i_ctime d) (i_mtime d) (i_crtime d) (i_dtime d)
    (i_link_count d) (i_sector_count d) (i_flags d) (i_file_acl d) (i_generation d) (i_block d).
Definition set_gid (d : InodeDesc) (gid : Z) : InodeDesc :=
  Build_InodeDesc
    (i_type d) (i_perm d) (i_uid d) gid (i_size d) (i_atime d) (i_ctime d) (i_mtime d) (i_crtime d) (i_dtime d)
    (i_link_count d) (i_sector_count d) (i_flags d) (i_file_acl d) (i_generation d) (i_block d).
Definition set_atime (d : InodeDesc) (time : Duration) : InodeDesc :=
  Build_InodeDesc
    (i_type d) (i_perm d) (i_uid d) (i_gid d) (i_size d) time (i_ctime d) (i_mtime d) (i_crtime d) (i_dtime d)
    (i_link_count d) (i_sector_count d) (i_flags d) (i_file_acl d) (i_generation d) (i_block d).

(** *** Encoding and decoding *)

(** [InodeDesc::to_raw_inode]; the fields it does not name are zero. *)
Definition to_raw_inode (d : InodeDesc) (root : list byte) : RawInode :=
  let '(mtime_secs, mtime_extra) := encode_time (i_mtime d) in
  let '(ctime_secs, ctime_extra) := encode_time (i_ctime d) in
  let '(atime_secs, atime_extra) := encode_time (i_atime d) in
  let '(crtime_secs, crtime_extra) := encode_time (i_crtime d) in
  {| ri_mode := Z.lor (type_bits (i_type d)) (Z.land (i_perm d) PERM_MASK);
     ri_uid := u16 (i_uid d); ri_size_lo := u32 (i_size d);
     ri_atime := atime_secs; ri_ctime := ctime_secs; ri_mtime := mtime_secs;
     ri_dtime := dtime_to_raw (i_dtime d); ri_gid := u16 (i_gid d); ri_link_count := i_link_count d;
     ri_sector_count := u32 (i_sector_count d); ri_flags := i_flags d; ri_osd1 := 0;
     ri_block := root; ri_generation := i_generation d; ri_file_acl_lo := 0;
     ri_size_high := if bool_decide (i_type d = File) then u32 (Z.shiftr (i_size d) 32) else 0;
     ri_obso_faddr := 0; ri_blocks_high := u16 (Z.shiftr (i_sector_count d) 32);
     ri_file_acl_high := 0; ri_uid_high := u16 (Z.shiftr (i_uid d) 16); ri_gid_high := u16 (Z.shiftr (i_gid d) 16);
     ri_checksum_lo := 0; ri_osd2_reserved := 0; ri_extra_isize := 32; ri_checksum_hi := 0;
     ri_ctime_extra := ctime_extra; ri_mtime_extra := mtime_extra; ri_atime_extra := atime_extra;
     ri_crtime := crtime_secs; ri_crtime_extra := crtime_extra; ri_version_hi := 0; ri_projid := 0;
     ri_tail := zeros 96 |}.

(** [InodeDesc::try_from] *)
Definition desc_try_from (raw : RawInode) : result InodeDesc :=
  check negb (ri_link_count raw =? 0) else ESTALE in
  let? type_ := match from_raw_mode (ri_mode raw) with Ok t => Ok t | Err _ => Err EUCLEAN end in
  let perm := perm_truncate (ri_mode raw) in
  let uid := Z.lor (ri_uid raw) (Z.shiftl (ri_uid_high raw) 16) in
  let gid := Z.lor (ri_gid raw) (Z.shiftl (ri_gid_high raw) 16) in
  let size := if bool_decide (type_ = File) then Z.lor (ri_size_lo raw) (Z.shiftl (ri_size_high raw) 32) else ri_size_lo raw in
  check negb (bool_decide (type_ = SymLink) && (BLOCK_SIZE <=? size)) else EUCLEAN in
  check negb (2 ^ 63 - 1 <? size) else EUCLEAN in
  Ok {| i_type := type_; i_perm := perm; i_uid := uid; i_gid := gid; i_size := size;
        i_atime := decode_time (ri_atime raw) (ri_atime_extra raw);
        i_ctime := decode_time (ri_ctime raw) (ri_ctime_extra raw);
        i_mtime := decode_time (ri_mtime raw) (ri_mtime_extra raw);
        i_crtime := decode_time (ri_crtime raw) (ri_crtime_extra raw);
        i_dtime := Time {| d_secs := ri_dtime raw; d_nanos := 0 |};
        i_link_count := ri_link_count raw;
        i_sector_count := Z.lor (ri_sector_count raw) (Z.shiftl (ri_blocks_high raw) 32);
        i_flags := Z.land (ri_flags raw) FileFlags.all;
        i_file_acl := Z.lor (ri_file_acl_lo raw) (Z.shiftl (ri_file_acl_high raw) 32);
        i_generation := ri_generation raw; i_block := ri_block raw |}.

(** ** The checksum *)

Definition I_CHECKSUM_LO_OFFSET : Z := 0x7C.
Definition I_CHECKSUM_HI_OFFSET : Z := 0x82.

(** [bytes[from..to]] *)
Definition byte_range (bytes : list byte) (from to : Z) : result (list byte) :=
  check (0 <=? from) && (from <=? to) && (to <=? zlen bytes) else PANIC in
  Ok (slice from (to - from) bytes).

Definition inode_checksum (raw : RawInode) (seed : InodeCsumSeed) (inode_size : Z) : result Z :=
  let bytes := as_bytes raw_inode_codec raw in
  let? head := byte_range bytes 0 I_CHECKSUM_LO_OFFSET in
  let crc := crc32c (inode_seed seed) head in
  let crc := crc32c crc (zeros 2) in
  if 128 <? inode_size then
    let? gap := byte_range bytes (I_CHECKSUM_LO_OFFSET + 2) I_CHECKSUM_HI_OFFSET in
    let crc := crc32c crc gap in
    let crc := crc32c crc (zeros 2) in
    let? rest := byte_range bytes (I_CHECKSUM_HI_OFFSET + 2) inode_size in
    Ok (crc32c crc rest)
  else
    let? rest := byte_range bytes (I_CHECKSUM_LO_OFFSET + 2) inode_size in
    Ok (crc32c crc rest).

Definition verify_inode_checksum (raw : RawInode) (seed : InodeCsumSeed) (inode_size : Z) : result unit :=
  let? crc := inode_checksum raw seed inode_size in
  check ri_checksum_lo raw =? u16 (Z.land crc 0xFFFF) else EUCLEAN in
  check negb ((128 <? inode_size) && negb (ri_checksum_hi raw =? u16 (Z.land (Z.shiftr crc 16) 0xFFFF))) else EUCLEAN in
  Ok tt.

Definition stamp_inode_checksum (raw : RawInode) (seed : InodeCsumSeed) (inode_size : Z) : result RawInode :=
  let? crc := inode_checksum raw seed inode_size in
  Ok (ri_with_csum raw (u16 (Z.land crc 0xFFFF))
        (if 128 <? inode_size then u16 (Z.land (Z.shiftr crc 16) 0xFFFF) else ri_checksum_hi raw)).

(** ** Lemmas: the codec *)

#[export] Instance raw_inode_ok : CodecOk raw_inode_codec.
Proof.
  apply struct_ok; [|by intros []|apply _].
  intros. repeat match goal with x : _ * _ |- _ => destruct x end. reflexivity.
Qed.

Lemma raw_inode_size : c_size raw_inode_codec = RAW_INODE_SIZE.
Proof. reflexivity. Qed.

#[global] Opaque raw_inode_ok.

Ltac inode_wf W := cbn -[fits zlen] in W; destruct_and? W.

(** ** Lemmas: times *)

(** What a timestamp reads back as: seconds are clamped to 34 bits, and the
    32-bit base is read as signed although the epoch was not adjusted for it. *)
Lemma time_reads_back t : duration_ok t ->
  let s := Z.min (d_secs t) (2 ^ 34 - 1) in
  uncurry decode_time (encode_time t) =
  {| d_secs := if s mod 2 ^ 32 <? 2 ^ 31 then s else Z.max 0 (s - 2 ^ 32); d_nanos := d_nanos t |}.
Proof.
  intros [Hs Hn] s. unfold encode_time. change (Z.shiftl 1 34) with (2 ^ 34). fold s. cbn [uncurry]. unfold decode_time.
  assert (0 <= s < 2 ^ 34) by (subst s; unfold fits in Hs; lia). unfold NANOS_PER_SEC in Hn.
  assert (He : 0 <= s / 2 ^ 32 < 4) by (split; [apply Z.div_pos; lia|apply Z.div_lt_upper_bound; lia]).
  rewrite Z.shiftr_div_pow2 by lia. change 3 with (Z.ones 2). rewrite !Z.land_ones by lia. fold (wrap 2 (s / 2 ^ 32)).
  rewrite (wrap_small 2) by (unfold fits; lia). unfold u32. rewrite (wrap_small 32 (s / 2 ^ 32)) by (unfold fits; lia).
  rewrite (wrap_small 32 (Z.shiftl _ _)) by (unfold fits; rewrite Z.shiftl_mul_pow2; lia).
  fold (wrap 2 (Z.lor (s / 2 ^ 32) (Z.shiftl (d_nanos t) 2))). rewrite lor_halves_low, lor_halves_high by (unfold fits; lia).
  unfold duration_new, NANOS_PER_SEC. rewrite (Z.div_small (d_nanos t)), (Z.mod_small (d_nanos t)) by lia. unfold as_i32, wrap.
  rewrite Z.shiftl_mul_pow2 by lia. pose proof (Z.div_mod s (2 ^ 32) ltac:(lia)).
  pose proof (Z.mod_pos_bound s (2 ^ 32) ltac:(lia)).
  f_equal. destruct (Z.ltb_spec (s mod 2 ^ 32) (2 ^ 31)); case_match eqn:E; bool_hyps; lia.
Qed.

(** The times the format keeps: 34 bits of seconds, bit 31 clear. *)
Definition time_kept (t : Duration) : Prop := duration_ok t /\ d_secs t < 2 ^ 34 /\ d_secs t mod 2 ^ 32 < 2 ^ 31.

Lemma time_kept_iff t : duration_ok t -> uncurry decode_time (encode_time t) = t <-> time_kept t.
Proof.
  intros Hok. pose proof (time_reads_back t Hok) as E. cbn zeta in E. rewrite E. destruct Hok as [Hs Hn]. destruct t as [s n]. cbn in *.
  unfold fits in Hs. unfold time_kept, duration_ok, fits. cbn. split.
  - intros H. injection H as H. destruct (Z.ltb_spec (Z.min s (2 ^ 34 - 1) mod 2 ^ 32) (2 ^ 31)) as [L|L].
    + rewrite Z.min_l in L by lia. lia.
    + destruct (decide (s <= 2 ^ 34 - 1)); [rewrite Z.min_l in H by lia|rewrite Z.min_r in H by lia]; [|lia].
      rewrite Z.min_l in L by lia. replace s with 0 in L by lia. rewrite Z.mod_0_l in L; lia.
  - intros (_ & Hl & Hm). rewrite Z.min_l by lia. by rewrite (proj2 (Z.ltb_lt _ _)).
Qed.

Lemma encode_time_fits t : fits 32 (encode_time t).1 /\ fits 32 (encode_time t).2.
Proof.
  unfold encode_time. cbn [fst snd]. split; [by apply wrap_fits|]. apply lor_fits; [lia|by apply wrap_fits..].
Qed.

(** ** Lemmas: modes *)

Lemma mode_split t perm : fits 12 perm ->
  Z.land (Z.lor (type_bits t) (Z.land perm PERM_MASK)) TYPE_MASK = type_bits t /\
  perm_truncate (Z.lor (type_bits t) (Z.land perm PERM_MASK)) = perm.
Proof.
  intros Hp. unfold perm_truncate. assert (Ep : Z.land perm PERM_MASK = perm).
  { change PERM_MASK with (Z.ones 12). rewrite Z.land_ones by lia. by apply wrap_small. }
  rewrite Ep, !Z.land_lor_distr_l, Ep. split.
  - replace (Z.land perm TYPE_MASK) with 0; [by destruct t|]. symmetry. apply Z.bits_inj'. intros n Hn. rewrite Z.bits_0, Z.land_spec.
    destruct (decide (n < 12)); [|by rewrite (testbit_fits 12) by (done || lia)].
    apply andb_false_iff. right. change TYPE_MASK with (Z.shiftl 15 12). by rewrite Z.shiftl_spec_low by lia.
  - by destruct t.
Qed.

Lemma from_raw_mode_type t perm : fits 12 perm -> t <> Unknown ->
  from_raw_mode (Z.lor (type_bits t) (Z.land perm PERM_MASK)) = Ok t.
Proof. intros Hp Ht. unfold from_raw_mode. destruct (mode_split t perm Hp) as [-> _]. by destruct t. Qed.

(** ** Invariant of a descriptor *)

Record desc_ok (d : InodeDesc) : Prop := {
  do_type : i_type d <> Unknown;
  do_perm : fits 12 (i_perm d);
  do_uid : fits 32 (i_uid d);
  do_gid : fits 32 (i_gid d);
  do_size : if bool_decide (i_type d = File) then fits 63 (i_size d) else fits 32 (i_size d);
  do_symlink : i_type d = SymLink -> i_size d < BLOCK_SIZE;
  do_dtime : fits 32 (dtime_to_raw (i_dtime d));
  do_links : fits 16 (i_link_count d);
  do_sectors : fits 48 (i_sector_count d);
  do_flags : fits 32 (i_flags d) /\ Z.land (i_flags d) FileFlags.all = i_flags d;
  do_generation : fits 32 (i_generation d);
}.

Record times_kept (d : InodeDesc) : Prop := {
  tk_atime : time_kept (i_atime d);
  tk_ctime : time_kept (i_ctime d);
  tk_mtime : time_kept (i_mtime d);
  tk_crtime : time_kept (i_crtime d);
}.

(** What is read after a descriptor is written: the extended-attribute block
    is gone and [i_dtime] is a time again. *)
Definition reread (d : InodeDesc) (root : list byte) : InodeDesc :=
  {| i_type := i_type d; i_perm := i_perm d; i_uid := i_uid d; i_gid := i_gid d; i_size := i_size d;
     i_atime := i_atime d; i_ctime := i_ctime d; i_mtime := i_mtime d; i_crtime := i_crtime d;
     i_dtime := Time {| d_secs := dtime_to_raw (i_dtime d); d_nanos := 0 |};
     i_link_count := i_link_count d; i_sector_count := i_sector_count d; i_flags := i_flags d; i_file_acl := 0;
     i_generation := i_generation d; i_block := root |}.

Lemma time_kept_decode t a b : time_kept t -> encode_time t = (a, b) -> decode_time a b = t.
Proof. intros Ht E. pose proof (proj2 (time_kept_iff t (proj1 Ht)) Ht) as H. by rewrite E in H. Qed.

Lemma size_reads d : desc_ok d ->
  (if bool_decide (i_type d = File)
   then Z.lor (u32 (i_size d)) (Z.shiftl (if bool_decide (i_type d = File) then u32 (Z.shiftr (i_size d) 32) else 0) 32)
   else u32 (i_size d)) = i_size d.
Proof.
  intros Hok. pose proof (do_size d Hok) as Hs. case_bool_decide.
  - apply (lor_halves_split 32 32); [lia..|]. unfold fits in *. lia.
  - by apply wrap_small.
Qed.

Lemma desc_write_read d root : desc_ok d -> times_kept d -> i_link_count d <> 0 ->
  desc_try_from (to_raw_inode d root) = Ok (reread d root).
Proof.
  intros Hok Ht Hl. unfold desc_try_from, to_raw_inode. destruct Ht as [T1 T2 T3 T4].
  destruct (encode_time (i_mtime d)) eqn:E3, (encode_time (i_ctime d)) eqn:E2, (encode_time (i_atime d)) eqn:E1, (encode_time (i_crtime d)) eqn:E4.
  cbn -[Z.lor Z.land Z.shiftl Z.shiftr u32 u16 BLOCK_SIZE FileFlags.all].
  rewrite (proj2 (Z.eqb_neq _ _)) by done. cbn [negb].
  rewrite from_raw_mode_type by apply Hok. cbn [rbind]. rewrite size_reads by done.
  pose proof (do_symlink d Hok) as Hsym. pose proof (do_size d Hok) as Hsz.
  replace (bool_decide (i_type d = SymLink) && (BLOCK_SIZE <=? i_size d)) with false.
  2:{ clear Hsz. symmetry. apply andb_false_iff. case_bool_decide; [right; apply Z.leb_gt; by apply Hsym|by left]. }
  rewrite (proj2 (Z.ltb_ge _ _)) by (unfold fits in Hsz; case_bool_decide; lia). cbn [negb].
  unfold reread. do 2 f_equal; try by eapply time_kept_decode.
  - apply mode_split, Hok.
  - apply (lor_halves_split 16 16); [lia..|]. apply Hok.
  - apply (lor_halves_split 16 16); [lia..|]. apply Hok.
  - apply (lor_halves_split 32 16); [lia..|]. apply Hok.
  - apply Hok.
Qed.

Lemma to_raw_wf d root : desc_ok d -> zlen root = ROOT_SIZE -> c_wf raw_inode_codec (to_raw_inode d root).
Proof.
  intros Hok Hr. unfold to_raw_inode.
  pose proof (encode_time_fits (i_mtime d)) as [? ?]. pose proof (encode_time_fits (i_ctime d)) as [? ?].
  pose proof (encode_time_fits (i_atime d)) as [? ?]. pose proof (encode_time_fits (i_crtime d)) as [? ?].
  destruct (encode_time (i_mtime d)), (encode_time (i_ctime d)), (encode_time (i_atime d)), (encode_time (i_crtime d)).
  cbn -[fits zlen Z.lor Z.land Z.shiftr u32 u16 zeros] in *. change (Z.pos (2 * 8)) with 16 in *. change (Z.pos (4 * 8)) with 32 in *.
  split_and!; try (by apply wrap_fits); try (by apply Hok); try done; try (by unfold fits).
  - apply lor_fits; [lia|by destruct (i_type d)|]. pose proof (land_fits 12 (i_perm d) PERM_MASK ltac:(lia) (do_perm d Hok)). unfold fits in *. lia.
  - case_bool_decide; [by apply wrap_fits|by unfold fits].
Qed.

(** A decoded descriptor satisfies the invariant. *)
Lemma land_known a b : Z.land (Z.land a b) b = Z.land a b.
Proof. by rewrite <- Z.land_assoc, Z.land_diag. Qed.

Lemma from_raw_mode_known mode t : from_raw_mode mode = Ok t -> t <> Unknown.
Proof.
  unfold from_raw_mode. rewrite land_known. destruct (Z.eqb_spec (Z.land mode TYPE_MASK) 0) as [|Hne]; [by intros [= <-]|].
  unfold type_of_bits. cbn -[Z.land Z.eqb]. rewrite (proj2 (Z.eqb_neq 0 _)) by done.
  repeat (match goal with |- context [?x =? ?y] => destruct (x =? y) end; [by intros [= <-]|]). done.
Qed.

Lemma desc_try_from_ok raw d : c_wf raw_inode_codec raw -> desc_try_from raw = Ok d ->
  desc_ok d /\ i_link_count d <> 0 /\ zlen (i_block d) = ROOT_SIZE.
Proof.
  intros W H. cbn -[fits zlen] in W. change (Z.pos (2 * 8)) with 16 in W. change (Z.pos (4 * 8)) with 32 in W.
  unfold desc_try_from in H. inv_result. subst d. rename x into t.
  assert (Ht : t <> Unknown) by (destruct (from_raw_mode (ri_mode raw)) eqn:E; [|done]; injection H0 as ->; by eapply from_raw_mode_known).
  destruct W as (? & ? & ? & ? & ? & ? & ? & ? & ? & ? & ? & ? & ? & ? & ? & ? & ? & ? & ? & ? & ? & W).
  bool_hyps. split; [|done]. split; cbn -[fits Z.lor Z.land FileFlags.all BLOCK_SIZE]; try done.
  - unfold perm_truncate. rewrite Z.land_comm. by apply land_fits.
  - by apply (lor_halves_fits 16 16).
  - by apply (lor_halves_fits 16 16).
  - case_bool_decide; [|done]. pose proof (lor_halves_fits 32 32 (ri_size_lo raw) (ri_size_high raw)) as Hs. unfold fits in *. lia.
  - intros ->. by apply andb_false_iff in Hck0 as [|Hs%Z.leb_gt].
  - rewrite (proj2 (Z.ltb_ge _ _)); [done|]. unfold fits in *. lia.
  - by apply (lor_halves_fits 32 16).
  - split; [by apply land_fits|apply land_known].
Qed.

(** ** Lemmas: the checksum *)

(** The two checksum fields, and what surrounds them. *)
Definition csum_head (r : RawInode) : list byte :=
  le_bytes 2 (ri_mode r) ++ le_bytes 2 (ri_uid r) ++ le_bytes 4 (ri_size_lo r) ++ le_bytes 4 (ri_atime r) ++
  le_bytes 4 (ri_ctime r) ++ le_bytes 4 (ri_mtime r) ++ le_bytes 4 (ri_dtime r) ++ le_bytes 2 (ri_gid r) ++
  le_bytes 2 (ri_link_count r) ++ le_bytes 4 (ri_sector_count r) ++ le_bytes 4 (ri_flags r) ++ le_bytes 4 (ri_osd1 r) ++
  ri_block r ++ le_bytes 4 (ri_generation r) ++ le_bytes 4 (ri_file_acl_lo r) ++ le_bytes 4 (ri_size_high r) ++
  le_bytes 4 (ri_obso_faddr r) ++ le_bytes 2 (ri_blocks_high r) ++ le_bytes 2 (ri_file_acl_high r) ++
  le_bytes 2 (ri_uid_high r) ++ le_bytes 2 (ri_gid_high r).
Definition csum_gap (r : RawInode) : list byte := le_bytes 2 (ri_osd2_reserved r) ++ le_bytes 2 (ri_extra_isize r).
Definition csum_rest (r : RawInode) : list byte :=
  le_bytes 4 (ri_ctime_extra r) ++ le_bytes 4 (ri_mtime_extra r) ++ le_bytes 4 (ri_atime_extra r) ++
  le_bytes 4 (ri_crtime r) ++ le_bytes 4 (ri_crtime_extra r) ++ le_bytes 4 (ri_version_hi r) ++ le_bytes 4 (ri_projid r) ++
  ri_tail r.

Lemma csum_bytes r lo hi : as_bytes raw_inode_codec (ri_with_csum r lo hi) =
  csum_head r ++ le_bytes 2 lo ++ csum_gap r ++ le_bytes 2 hi ++ csum_rest r.
Proof. unfold csum_head, csum_gap, csum_rest. cbn -[le_bytes]. by rewrite <- !app_assoc. Qed.

Lemma csum_lens r : c_wf raw_inode_codec r ->
  zlen (csum_head r) = I_CHECKSUM_LO_OFFSET /\ zlen (csum_gap r) = 4 /\ zlen (csum_rest r) = RAW_INODE_SIZE - (I_CHECKSUM_HI_OFFSET + 2).
Proof.
  intros W. assert (zlen (ri_block r) = 60 /\ zlen (ri_tail r) = 96) as [Hb Ht] by (cbn -[fits zlen] in W; tauto).
  unfold csum_head, csum_gap, csum_rest. autorewrite with zlen. rewrite Hb, Ht. done.
Qed.

Lemma ri_with_csum_self r : ri_with_csum r (ri_checksum_lo r) (ri_checksum_hi r) = r.
Proof. by destruct r. Qed.

Lemma ri_with_csum_wf r lo hi : c_wf raw_inode_codec r -> fits 16 lo -> fits 16 hi -> c_wf raw_inode_codec (ri_with_csum r lo hi).
Proof. intros W ? ?. cbn -[fits zlen] in *. tauto. Qed.

Lemma slice_prefix_app {A} n (l k : list A) : zlen l <= n -> slice 0 n (l ++ k) = l ++ slice 0 (n - zlen l) k.
Proof.
  intros Hn. unfold slice, zlen in *. rewrite !drop_0, take_app_ge by lia. do 2 f_equal. lia.
Qed.

(** The checksum is the CRC of the inode with both fields zero. *)
Lemma inode_checksum_zeroed r seed size : c_wf raw_inode_codec r -> I_CHECKSUM_HI_OFFSET + 2 <= size <= RAW_INODE_SIZE ->
  inode_checksum r seed size = Ok (crc32c (inode_seed seed) (slice 0 size (as_bytes raw_inode_codec (ri_with_csum r 0 0)))).
Proof.
  intros W Hs. destruct (csum_lens r W) as (L1 & L2 & L3). pose proof (codec_len r W) as L. rewrite raw_inode_size in L.
  pose proof (csum_bytes r (ri_checksum_lo r) (ri_checksum_hi r)) as E. rewrite ri_with_csum_self in E.
  unfold inode_checksum. set (b := as_bytes raw_inode_codec r) in *. unfold byte_range. rewrite L.
  unfold I_CHECKSUM_LO_OFFSET, I_CHECKSUM_HI_OFFSET, RAW_INODE_SIZE in *.
  assert (S1 : slice 0 (124 - 0) b = csum_head r) by (rewrite E, slice_app_l, slice_all by lia; done).
  assert (S2 : slice (124 + 2) (130 - (124 + 2)) b = csum_gap r).
  { rewrite E, slice_app_r, slice_app_r, slice_app_l, slice_all by len. done. }
  assert (S3 : slice (130 + 2) (size - (130 + 2)) b = slice 0 (size - 132) (csum_rest r)).
  { rewrite E, !slice_app_r by len. f_equal; len. }
  rewrite S1, S2, S3. rewrite (proj2 (Z.ltb_lt 128 _)) by lia. repeat (rewrite (proj2 (Z.leb_le _ _)) by lia). cbn [andb rbind].
  rewrite <- !crc32c_app. do 2 f_equal. rewrite csum_bytes. change (le_bytes 2 0) with (zeros 2). assert (zlen (zeros 2) = 2) by done.
  rewrite !slice_prefix_app by lia. do 5 f_equal. lia.
Qed.

Lemma inode_checksum_panic r seed size : c_wf raw_inode_codec r -> RAW_INODE_SIZE < size -> inode_checksum r seed size = Err PANIC.
Proof.
  intros W Hs. pose proof (codec_len r W) as L. rewrite raw_inode_size in L. unfold inode_checksum, byte_range. rewrite L.
  unfold I_CHECKSUM_LO_OFFSET, I_CHECKSUM_HI_OFFSET, RAW_INODE_SIZE in *. cbn -[Z.add].
  rewrite (proj2 (Z.ltb_lt 128 _)) by lia. rewrite (proj2 (Z.leb_gt size 256)) by lia. by rewrite andb_false_r.
Qed.

Section Checksum.
Context (seed : InodeCsumSeed) (size : Z).
Context (Hseed : fits 32 (inode_seed seed)) (Hsize : I_CHECKSUM_HI_OFFSET + 2 <= size <= RAW_INODE_SIZE).

(** What the fields must hold. *)
Definition inode_crc (r : RawInode) : Z :=
  crc32c (inode_seed seed) (slice 0 size (as_bytes raw_inode_codec (ri_with_csum r 0 0))).

Lemma inode_crc_fits r : fits 32 (inode_crc r).
Proof using Hseed. by apply crc32c_fits. Qed.

Lemma inode_verify_iff r : c_wf raw_inode_codec r ->
  verify_inode_checksum r seed size = if decide (Z.lor (ri_checksum_lo r) (Z.shiftl (ri_checksum_hi r) 16) = inode_crc r) then Ok tt else Err EUCLEAN.
Proof using Hseed Hsize.
  intros W. assert (fits 16 (ri_checksum_lo r) /\ fits 16 (ri_checksum_hi r)) as [Hlo Hhi] by (cbn -[fits zlen] in W; tauto).
  unfold verify_inode_checksum. rewrite inode_checksum_zeroed by done. cbn [rbind]. fold (inode_crc r). pose proof (inode_crc_fits r) as Hc.
  generalize dependent (inode_crc r). intros crc Hc. change 65535 with (Z.ones 16). rewrite !Z.land_ones by lia.
  fold (wrap 16 crc) (wrap 16 (Z.shiftr crc 16)). unfold u16. rewrite !(wrap_small 16 (wrap 16 _)) by (by apply wrap_fits).
  rewrite (proj2 (Z.ltb_lt 128 _)) by (unfold I_CHECKSUM_HI_OFFSET in *; lia). cbn [andb]. rewrite negb_involutive.
  case_decide as Hd.
  - subst crc. rewrite lor_halves_low, lor_halves_high by (done || lia). rewrite (wrap_small 16) by done. by rewrite !Z.eqb_refl.
  - destruct (Z.eqb_spec (ri_checksum_lo r) (wrap 16 crc)) as [E1|]; [|done].
    destruct (Z.eqb_spec (ri_checksum_hi r) (wrap 16 (Z.shiftr crc 16))) as [E2|]; [|done].
    destruct Hd. rewrite E1, E2. by apply (lor_halves_split 16 16).
Qed.

Lemma stamp_inode_verifies r : c_wf raw_inode_codec r ->
  exists lo hi, fits 16 lo /\ fits 16 hi /\ stamp_inode_checksum r seed size = Ok (ri_with_csum r lo hi) /\
    verify_inode_checksum (ri_with_csum r lo hi) seed size = Ok tt.
Proof using Hseed Hsize.
  intros W. unfold stamp_inode_checksum. rewrite inode_checksum_zeroed by done. cbn [rbind]. fold (inode_crc r).
  rewrite (proj2 (Z.ltb_lt 128 _)) by (unfold I_CHECKSUM_HI_OFFSET in *; lia).
  eexists _, _. assert (F : forall z, fits 16 (u16 z)) by (intros; by apply wrap_fits). split_and!; [apply F|apply F|done|].
  rewrite inode_verify_iff by (apply ri_with_csum_wf; [done|apply F..]).
  rewrite decide_True; [done|]. change (inode_crc (ri_with_csum r _ _)) with (inode_crc r). cbn [ri_checksum_lo ri_checksum_hi ri_with_csum].
  change 65535 with (Z.ones 16). rewrite !Z.land_ones by lia. fold (wrap 16 (inode_crc r)) (wrap 16 (Z.shiftr (inode_crc r) 16)).
  unfold u16. rewrite !(wrap_small 16 (wrap 16 _)) by (by apply wrap_fits). apply (lor_halves_split 16 16); [lia..|apply inode_crc_fits].
Qed.

(** A change confined to four consecutive bytes outside the fields is seen. *)
Lemma inode_verify_detects r r' p w w' s : c_wf raw_inode_codec r -> c_wf raw_inode_codec r' ->
  ri_checksum_lo r' = ri_checksum_lo r -> ri_checksum_hi r' = ri_checksum_hi r ->
  slice 0 size (as_bytes raw_inode_codec (ri_with_csum r 0 0)) = p ++ w ++ s ->
  slice 0 size (as_bytes raw_inode_codec (ri_with_csum r' 0 0)) = p ++ w' ++ s ->
  zlen w = zlen w' -> zlen w <= 4 -> w <> w' ->
  verify_inode_checksum r seed size = Ok tt -> verify_inode_checksum r' seed size = Err EUCLEAN.
Proof using Hseed Hsize.
  intros W W' El Eh Eb Eb' Hl H4 Hne. rewrite !inode_verify_iff by done. case_decide as H; [|done]. intros _.
  rewrite decide_False; [done|]. rewrite El, Eh, H. unfold inode_crc. rewrite Eb, Eb'. by apply crc32c_detects_burst.
Qed.
End Checksum.

(** ** Lemmas: device numbers *)

Lemma land_field z k w : 0 <= k -> 0 <= w -> Z.land z (Z.shiftl (Z.ones w) k) = Z.shiftl (wrap w (Z.shiftr z k)) k.
Proof.
  intros Hk Hw. unfold wrap. rewrite <- Z.land_ones by done. apply Z.bits_inj'. intros n Hn.
  rewrite Z.land_spec, !Z.shiftl_spec, Z.land_spec by done. destruct (decide (n < k)).
  - by rewrite !(Z.testbit_neg_r _ (n - k)), andb_false_r by lia.
  - rewrite Z.shiftr_spec by lia. do 2 f_equal. lia.
Qed.

(** A number that fits 12 bits of major and 20 bits of minor, packed. *)
Definition dev_code (major minor : Z) : Z := Z.lor (wrap 8 minor) (Z.shiftl (Z.lor major (Z.shiftl (Z.shiftr minor 8) 12)) 8).

Section Devices.
Context (major minor : Z) (HM : fits 12 major) (Hm : fits 20 minor).

Lemma minor_high : fits 12 (Z.shiftr minor 8).
Proof using Hm. unfold fits in *. rewrite Z.shiftr_div_pow2 by lia. split; [apply Z.div_pos|apply Z.div_lt_upper_bound]; lia. Qed.

Lemma minor_join : Z.lor (wrap 8 minor) (Z.shiftl (Z.shiftr minor 8) 8) = minor.
Proof using Hm.
  rewrite <- (wrap_small 12 (Z.shiftr minor 8)) by apply minor_high. by apply (lor_halves_split 8 12).
Qed.

Lemma dev_code_parts :
  wrap 8 (dev_code major minor) = wrap 8 minor /\ wrap 12 (Z.shiftr (dev_code major minor) 8) = major /\
  Z.shiftr (dev_code major minor) 20 = Z.shiftr minor 8 /\ fits 32 (dev_code major minor).
Proof using HM Hm.
  pose proof minor_high. assert (fits 8 (wrap 8 minor)) by (by apply wrap_fits).
  assert (Hh : Z.shiftr (dev_code major minor) 8 = Z.lor major (Z.shiftl (Z.shiftr minor 8) 12)) by (by apply lor_halves_high).
  split_and!.
  - by apply lor_halves_low.
  - rewrite Hh. by apply lor_halves_low.
  - change 20 with (8 + 12). rewrite <- Z.shiftr_shiftr by lia. rewrite Hh. by apply lor_halves_high.
  - apply (lor_halves_fits 8 24); [lia..|done|]. by apply (lor_halves_fits 12 12).
Qed.

Lemma encode_numbers_code : encode_device_numbers major minor = dev_code major minor.
Proof using HM Hm.
  pose proof minor_high as Hh. unfold encode_device_numbers.
  change 0xfffff000 with (Z.shiftl (Z.ones 20) 12). change 0xfff with (Z.ones 12). change 0xffffff00 with (Z.shiftl (Z.ones 24) 8). change 0xff with (Z.ones 8).
  rewrite !land_field, !Z.land_ones by lia. fold (wrap 12 major) (wrap 8 minor). rewrite (wrap_small 12), (wrap_small 24) by (unfold fits in *; lia).
  replace (Z.shiftr major 12) with 0 by (symmetry; rewrite Z.shiftr_div_pow2 by lia; by apply Z.div_small).
  change (u64 _) with 0. rewrite Z.lor_0_l. unfold dev_code. rewrite Z.shiftl_lor, !Z.shiftl_shiftl by lia. by rewrite Z.lor_comm, (Z.add_comm 8 12).
Qed.

Lemma decode_numbers_code : decode_device_numbers (dev_code major minor) = (major, minor).
Proof using HM Hm.
  destruct dev_code_parts as (P1 & P2 & P3 & P4). pose proof minor_high. unfold decode_device_numbers.
  change 0xfffff000 with (Z.shiftl (Z.ones 20) 12). change 0xfff with (Z.ones 12). change 0xffffff00 with (Z.shiftl (Z.ones 24) 8). change 0xff with (Z.ones 8).
  rewrite !land_field, !Z.land_ones, !Z.shiftr_shiftr by lia. fold (wrap 12 (Z.shiftr (dev_code major minor) 8)) (wrap 8 (dev_code major minor)).
  replace (Z.shiftr (dev_code major minor) (32 + 12)) with 0.
  2:{ symmetry. rewrite Z.shiftr_div_pow2 by lia. apply Z.div_small. unfold fits in P4. lia. }
  change (12 + 8) with 20. rewrite P1, P2, P3. rewrite (wrap_small 24) by (unfold fits in *; lia).
  change (Z.shiftl (wrap 20 0) 12) with 0. rewrite Z.lor_0_l, Z.lor_comm, minor_join.
  unfold u32. rewrite !(wrap_small 32) by (unfold fits in *; lia). done.
Qed.
End Devices.

(** A device node keeps its number: 12 bits of major, 20 of minor. *)
Lemma device_block_keeps major minor : fits 12 major -> fits 20 minor ->
  decode_device_block (encode_device_block (encode_device_numbers major minor)) = encode_device_numbers major minor.
Proof.
  intros HM Hm. rewrite encode_numbers_code by done. unfold encode_device_block. rewrite decode_numbers_code by done.
  assert (Hl : zlen (zeros ROOT_SIZE) = 60) by done.
  unfold decode_device_block. destruct ((major <? 256) && (minor <? 256)) eqn:E.
  - bool_hyps. assert (F : fits 8 minor) by (unfold fits in *; lia). assert (F' : fits 8 major) by (unfold fits in *; lia).
    rewrite Z.lor_comm. set (v := Z.lor minor (Z.shiftl major 8)). assert (Fv : fits 16 v) by (by apply (lor_halves_fits 8 8)).
    rewrite get_le_put_same by (cbn; lia). change (Z.of_nat 4 * 8) with 32. rewrite (wrap_small 32 v) by (unfold fits in *; lia).
    destruct (Z.eqb_spec v 0) as [Ev|Nv]; cbn [negb].
    + rewrite get_le_put_other by (cbn; lia). change (get_le 4 4 (zeros ROOT_SIZE)) with 0.
      assert (minor = 0) as -> by (rewrite <- (lor_halves_low 8 minor major) by (done || lia); fold v; by rewrite Ev).
      assert (major = 0) as -> by (rewrite <- (lor_halves_high 8 0 major) by (done || lia); fold v; by rewrite Ev). done.
    + change 0xFF with (Z.ones 8). rewrite !Z.land_ones by lia. fold (wrap 8 v) (wrap 8 (Z.shiftr v 8)). unfold v.
      rewrite lor_halves_low, lor_halves_high by (done || lia). rewrite (wrap_small 8) by done. by apply encode_numbers_code.
  - set (v := Z.lor (Z.lor _ _) _). assert (v = dev_code major minor) as ->.
    { subst v. pose proof (minor_high minor Hm). unfold u32, not32. change (Z.lxor 255 (2 ^ 32 - 1)) with (Z.shiftl (Z.ones 24) 8). change 0xFF with (Z.ones 8).
      rewrite land_field, Z.land_ones by lia. fold (wrap 8 minor). rewrite (wrap_small 24) by (unfold fits in *; lia).
      rewrite Z.shiftl_shiftl, !(wrap_small 32) by (unfold fits in *; rewrite ?Z.shiftl_mul_pow2; lia).
      unfold dev_code. rewrite Z.shiftl_lor, Z.shiftl_shiftl by lia. by rewrite Z.lor_assoc. }
    destruct (dev_code_parts major minor HM Hm) as (P1 & P2 & P3 & P4).
    rewrite get_le_put_other, get_le_put_same by (cbn; lia). change (get_le 4 0 (zeros ROOT_SIZE)) with 0. cbn [Z.eqb negb].
    change (Z.of_nat 4 * 8) with 32. rewrite (wrap_small 32) by done.
    change 0xFFF00 with (Z.shiftl (Z.ones 12) 8). change 0xFF with (Z.ones 8). rewrite !land_field, Z.land_ones, Z.shiftr_shiftr by lia. fold (wrap 8 (dev_code major minor)).
    change (12 + 8) with 20. rewrite P1, P2, P3, (wrap_small 12) by apply (minor_high minor Hm).
    rewrite Z.shiftr_shiftl_l, Z.sub_diag, Z.shiftl_0_r, minor_join by (done || lia). by apply encode_numbers_code.
Qed.
