(* ===== verification/OrphanChain.v ===== *)
(** * The orphan chain in memory

    Models [OrphanChain] of [fs.rs]: the list of inodes whose deletion or
    truncation is not finished, head first, with the two-phase removal that
    first says what to persist and only then forgets the inode. *)

From S2P Require Import Prelude.

(** ** The code *)

(** [iter().position(|&i| i == ino)] *)
Fixpoint position (ino : Z) (chain : list Z) : option nat :=
  match chain with
  | [] => None
  | i :: chain => if i =? ino then Some 0%nat else S <$> position ino chain
  end.

(** What removing an inode must persist. *)
Inductive OrphanSplice : Type :=
  | Head (successor : option Z)
  | Middle (predecessor : Z) (successor : option Z).

Definition successor_of (chain : list Z) (ino : Z) : option (option Z) :=
  match position ino chain with
  | None => None
  | Some idx => Some (chain !! (idx + 1)%nat)
  end.

Definition push_head (chain : list Z) (ino : Z) : list Z := ino :: chain.

Definition splice_for (chain : list Z) (ino : Z) : option OrphanSplice :=
  match position ino chain with
  | None => None
  | Some idx =>
      let successor := chain !! (idx + 1)%nat in
      match idx with
      | O => Some (Head successor)
      | S before => (fun predecessor => Middle predecessor successor) <$> chain !! before
      end
  end.

(** [Vec::remove] at the position. *)
Definition commit_remove (chain : list Z) (ino : Z) : list Z :=
  match position ino chain with
  | None => chain
  | Some idx => delete idx chain
  end.

(** ** Lemmas *)

Lemma position_spec ino chain :
  match position ino chain with
  | None => ino ∉ chain
  | Some idx => exists l r, chain = l ++ ino :: r /\ ino ∉ l /\ length l = idx
  end.
Proof.
  induction chain as [|i chain IH]; cbn [position]; [apply not_elem_of_nil|]. destruct (Z.eqb_spec i ino) as [->|Hne].
  - exists [], chain. split_and!; [done|apply not_elem_of_nil|done].
  - destruct (position ino chain) as [idx|]; cbn.
    + destruct IH as (l & r & -> & Hl & <-). exists (i :: l), r. split_and!; [done| |done]. rewrite not_elem_of_cons. by split.
    + rewrite not_elem_of_cons. by split.
Qed.

Lemma position_None ino chain : position ino chain = None <-> ino ∉ chain.
Proof.
  pose proof (position_spec ino chain) as H. split; [intros E; by rewrite E in H|]. intros Hn. destruct (position ino chain); [|done].
  destruct H as (l & r & -> & _). set_solver.
Qed.

Lemma position_app l ino r : ino ∉ l -> position ino (l ++ ino :: r) = Some (length l).
Proof.
  induction l as [|i l IH]; intros Hn; cbn [app position length]; [by rewrite Z.eqb_refl|]. rewrite not_elem_of_cons in Hn.
  rewrite (proj2 (Z.eqb_neq i ino)) by (intros ->; tauto). by rewrite IH by tauto.
Qed.

Lemma lookup_after {A} (l : list A) x r : (l ++ x :: r) !! (length l + 1)%nat = hd_error r.
Proof. rewrite lookup_app_r by lia. replace (length l + 1 - length l)%nat with 1%nat by lia. by destruct r. Qed.

Lemma successor_of_app l ino r : ino ∉ l -> successor_of (l ++ ino :: r) ino = Some (hd_error r).
Proof. intros Hn. unfold successor_of. by rewrite position_app, lookup_after. Qed.

Lemma successor_of_None chain ino : successor_of chain ino = None <-> ino ∉ chain.
Proof. unfold successor_of. rewrite <- position_None. by destruct (position ino chain). Qed.

Lemma successor_in chain ino next : successor_of chain ino = Some (Some next) -> next ∈ chain.
Proof. unfold successor_of. destruct (position ino chain); [|done]. intros [= E]. by eapply list_elem_of_lookup_2. Qed.

Lemma successor_of_cons x l ino : successor_of (x :: l) ino = if x =? ino then Some (hd_error l) else successor_of l ino.
Proof.
  unfold successor_of. cbn [position]. destruct (x =? ino); [by destruct l|]. destruct (position ino l) as [idx|]; [|done]. cbn. done.
Qed.

Lemma successor_of_skip l k ino : ino ∉ l -> successor_of (l ++ k) ino = successor_of k ino.
Proof.
  induction l as [|x l IH]; intros Hn; [done|]. rewrite not_elem_of_cons in Hn. cbn [app]. rewrite successor_of_cons.
  rewrite (proj2 (Z.eqb_neq x ino)) by (intros ->; tauto). apply IH. tauto.
Qed.

Lemma successor_of_prefix l p k k' ino : ino ∈ l -> successor_of (l ++ p :: k) ino = successor_of (l ++ p :: k') ino.
Proof.
  induction l as [|x l IH]; intros Hi; [by apply not_elem_of_nil in Hi|]. cbn [app]. rewrite !successor_of_cons.
  destruct (Z.eqb_spec x ino) as [->|Hne]; [by destruct l|]. apply IH. apply elem_of_cons in Hi as [->|Hi]; [done|done].
Qed.

(** Removing an inode from a chain that lists it once. *)
Lemma remove_cases chain ino : NoDup chain ->
  match splice_for chain ino with
  | None => ino ∉ chain /\ commit_remove chain ino = chain
  | Some (Head successor) => exists r, chain = ino :: r /\ successor = hd_error r /\ commit_remove chain ino = r
  | Some (Middle predecessor successor) =>
      exists l r, chain = l ++ predecessor :: ino :: r /\ successor = hd_error r /\ commit_remove chain ino = l ++ predecessor :: r
  end.
Proof.
  intros Hd. unfold splice_for, commit_remove. pose proof (position_spec ino chain) as Hp. destruct (position ino chain) as [idx|]; [|done].
  destruct Hp as (l & r & -> & Hl & <-). destruct (length l) as [|before] eqn:El.
  - apply nil_length_inv in El as ->. exists r. by destruct r.
  - destruct l as [|p l _] using rev_ind; [done|]. rewrite length_app in El. cbn in El. assert (before = length l) as -> by lia.
    rewrite <- app_assoc. cbn [app]. rewrite (list_lookup_middle l (ino :: r) p (length l)) by done. cbn. exists l, r. split_and!; [done| |].
    + replace (l ++ p :: ino :: r) with ((l ++ [p]) ++ ino :: r) by (by rewrite <- app_assoc).
      rewrite <- (lookup_after (l ++ [p]) ino r). f_equal. rewrite length_app. cbn. lia.
    + replace (l ++ p :: ino :: r) with ((l ++ [p]) ++ ino :: r) by (by rewrite <- app_assoc).
      replace (S (length l)) with (length (l ++ [p])) by (rewrite length_app; cbn; lia). rewrite delete_middle. by rewrite <- app_assoc.
Qed.
