(* ===== verification/InodeTable.v ===== *)
(** * The inode table

    Models the part of [fs.rs] and of [block_group.rs] that finds the record
    of an inode on the volume, reads it and writes it back: [InodeSlot], the
    journaled write-backs, the splice of one [i_dtime] and the group's
    [read_inode_desc].  A write-back takes the successor of a listed orphan
    from the chain, not from the descriptor.  The lemmas place the records:
    each lies inside one block of its group's table, two never overlap, and
    a write-back changes one record and nothing else. *)

From S2P Require Import Prelude Pod Checksum JournalFormat Device Bitmap SuperBlock GroupDesc JournalState MetaStore BlockGroup Alloc.
From S2P Require Import ExtentNode InodeRecord OrphanChain.

(** ** The code *)

Record InodeSlot : Type := { slot_bid : Z; slot_off : Z }.

(** [Ext4::inode_slot] *)
Definition inode_slot (fs : Ext4) (ino : Z) : result InodeSlot :=
  check negb (ino =? 0) else ENOENT in
  let group_idx := (ino - 1) / fs_nr_inodes_per_group fs in
  let idx_in_group := (ino - 1) mod fs_nr_inodes_per_group fs in
  match block_groups fs !! Z.to_nat group_idx with
  | None => Err ENOENT
  | Some (g, md) =>
      let sb := super_block fs in
      let byte := inode_table_bid (md_desc md) * sb_block_size sb + idx_in_group * sb_inode_size sb in
      check fitsb 64 byte else PANIC in
      Ok {| slot_bid := byte / BLOCK_SIZE; slot_off := byte mod BLOCK_SIZE |}
  end.

(** What the stamping of an inode needs on a volume with [metadata_csum]. *)
Definition inode_csum (fs : Ext4) : option (FsCsumSeed * Z) :=
  if has_metadata_csum (super_block fs) then Some (metadata_csum_seed (super_block fs), sb_inode_size (super_block fs)) else None.

Definition stamped (csum : option (FsCsumSeed * Z)) (ino : Z) (raw : RawInode) : result RawInode :=
  match csum with
  | None => Ok raw
  | Some (seed, inode_size) => stamp_inode_checksum raw (derive_inode seed ino (ri_generation raw)) inode_size
  end.

(** The bytes [InodeSlot::journal_patch_dtime] leaves in the block. *)
Definition patch_dtime (off next ino : Z) (csum : option (FsCsumSeed * Z)) (buf : list byte) : result (list byte) :=
  let buf := put_le 4 (off + 0x14) next buf in
  match csum with
  | None => Ok buf
  | Some _ =>
      let? raw := stamped csum ino (read_at raw_inode_codec off buf) in
      Ok (write_at raw_inode_codec off raw buf)
  end.

(** The read-modify-write of [Ext4::write_back_inode_desc] without a handle, as
    a function of the record that was read. *)
Definition rmw_inode (raw : RawInode) (d : InodeDesc) (root : list byte) : RawInode :=
  let '(mtime_secs, mtime_extra) := encode_time (i_mtime d) in
  let '(ctime_secs, ctime_extra) := encode_time (i_ctime d) in
  let '(atime_secs, atime_extra) := encode_time (i_atime d) in
  {| ri_mode := Z.lor (Z.land (ri_mode raw) TYPE_MASK) (Z.land (i_perm d) PERM_MASK); ri_uid := u16 (i_uid d);
     ri_size_lo := u32 (i_size d); ri_atime := atime_secs; ri_ctime := ctime_secs; ri_mtime := mtime_secs;
     ri_dtime := dtime_to_raw (i_dtime d); ri_gid := u16 (i_gid d); ri_link_count := i_link_count d;
     ri_sector_count := u32 (i_sector_count d); ri_flags := i_flags d; ri_osd1 := ri_osd1 raw; ri_block := root;
     ri_generation := ri_generation raw; ri_file_acl_lo := ri_file_acl_lo raw;
     ri_size_high := if bool_decide (i_type d = File) then u32 (Z.shiftr (i_size d) 32) else ri_size_high raw;
     ri_obso_faddr := ri_obso_faddr raw; ri_blocks_high := u16 (Z.shiftr (i_sector_count d) 32);
     ri_file_acl_high := ri_file_acl_high raw; ri_uid_high := u16 (Z.shiftr (i_uid d) 16);
     ri_gid_high := u16 (Z.shiftr (i_gid d) 16); ri_checksum_lo := ri_checksum_lo raw;
     ri_osd2_reserved := ri_osd2_reserved raw; ri_extra_isize := ri_extra_isize raw;
     ri_checksum_hi := ri_checksum_hi raw; ri_ctime_extra := ctime_extra; ri_mtime_extra := mtime_extra;
     ri_atime_extra := atime_extra; ri_crtime := ri_crtime raw; ri_crtime_extra := ri_crtime_extra raw;
     ri_version_hi := ri_version_hi raw; ri_projid := ri_projid raw; ri_tail := ri_tail raw |}.

Section Operations.
Context {S : Type} `{MetaStore S}.

(** A patch of a block that may panic; the buffer is the one the access was
    granted for. *)
Definition try_patch (bid : Z) (f : list byte -> result (list byte)) : M fstate unit :=
  a ← on_store (ms_write bid);
  buf ← (fun st => (ms_read st.2 bid, st));
  match f buf with
  | Err e => fail e
  | Ok _ => on_store (ms_patch a (fun buf => match f buf with Ok buf => buf | Err _ => buf end))
  end.

(** [InodeSlot::journal_write] *)
Definition journal_write (slot : InodeSlot) (raw : RawInode) : M fstate unit :=
  try_patch (slot_bid slot) (fun buf =>
    check slot_off slot + RAW_INODE_SIZE <=? zlen buf else PANIC in
    Ok (write_at raw_inode_codec (slot_off slot) raw buf)).

(** [InodeSlot::journal_patch_dtime] *)
Definition journal_patch_dtime (slot : InodeSlot) (next ino : Z) (csum : option (FsCsumSeed * Z)) : M fstate unit :=
  try_patch (slot_bid slot) (fun buf =>
    check slot_off slot + RAW_INODE_SIZE <=? zlen buf else PANIC in
    patch_dtime (slot_off slot) next ino csum buf).

(** The journaled path of [Ext4::write_back_inode_desc]. *)
Definition write_back_inode_desc (ino : Z) (desc : InodeDesc) (root : list byte) : M fstate unit :=
  fs ← ext4;
  slot ← lift (inode_slot fs ino);
  let raw := to_raw_inode desc root in
  let raw := match successor_of (orphan_chain fs) ino with
             | Some next => ri_with_dtime raw (default 0 next)
             | None => raw
             end in
  raw ← lift (stamped (inode_csum fs) ino raw);
  journal_write slot raw.

(** [Ext4::write_new_inode_desc] *)
Definition write_new_inode_desc (ino : Z) (desc : InodeDesc) : M fstate unit :=
  fs ← ext4;
  slot ← lift (inode_slot fs ino);
  raw ← lift (stamped (inode_csum fs) ino (to_raw_inode desc (i_block desc)));
  journal_write slot raw.

(** [BlockGroup::read_inode_desc] *)
Definition group_read_inode_desc (g : BlockGroup) (md : BlockGroupMetadata) (s : S) (ino : Z) : result InodeDesc :=
  let byte_off := inode_idx_in_group g ino * bg_inode_size g in
  let block_bid := inode_table_bid (md_desc md) + byte_off / bg_block_size g in
  let off_in_block := byte_off mod bg_block_size g in
  let? block := ms_read s block_bid in
  check off_in_block + RAW_INODE_SIZE <=? zlen block else PANIC in
  let raw := read_at raw_inode_codec off_in_block block in
  let? _ :=
    match bg_csum_seed g with
    | Some seed => verify_inode_checksum raw (derive_inode seed ino (ri_generation raw)) (bg_inode_size g)
    | None => Ok tt
    end in
  desc_try_from raw.

(** [Ext4::read_inode_desc] *)
Definition read_inode_desc (fs : Ext4) (s : S) (ino : Z) : result InodeDesc :=
  let? group_idx := find_group fs ino in
  match block_groups fs !! Z.to_nat group_idx with
  | None => Err ENOENT
  | Some (g, md) => group_read_inode_desc g md s ino
  end.

(** [Ext4::read_raw_inode], once nothing is in flight. *)
Definition read_raw_inode (fs : Ext4) (s : S) (ino : Z) : result RawInode :=
  let? slot := inode_slot fs ino in
  let? block := ms_read s (slot_bid slot) in
  check slot_off slot + RAW_INODE_SIZE <=? zlen block else PANIC in
  Ok (read_at raw_inode_codec (slot_off slot) block).

(** [Ext4::is_inode_allocated] *)
Definition fs_is_inode_allocated (fs : Ext4) (ino : Z) : result bool :=
  match find_group fs ino with
  | Err _ => Ok false
  | Ok group_idx =>
      match block_groups fs !! Z.to_nat group_idx with
      | None => Ok false
      | Some (g, md) => is_inode_allocated g md ino
      end
  end.
End Operations.

(** ** Lemmas: the direct path *)

(** Writing through keeps what the descriptor does not carry: the attribute
    block, the creation time and the generation on the volume. *)
Definition reread_rmw (raw : RawInode) (d : InodeDesc) (root : list byte) : InodeDesc :=
  let d' := reread d root in
  Build_InodeDesc (i_type d') (i_perm d') (i_uid d') (i_gid d') (i_size d') (i_atime d') (i_ctime d') (i_mtime d')
    (decode_time (ri_crtime raw) (ri_crtime_extra raw)) (i_dtime d') (i_link_count d') (i_sector_count d') (i_flags d')
    (Z.lor (ri_file_acl_lo raw) (Z.shiftl (ri_file_acl_high raw) 32)) (ri_generation raw) (i_block d').

Lemma rmw_reads raw d root : from_raw_mode (ri_mode raw) = Ok (i_type d) -> Z.land (ri_mode raw) TYPE_MASK <> 0 ->
  desc_ok d -> times_kept d -> i_link_count d <> 0 -> desc_try_from (rmw_inode raw d root) = Ok (reread_rmw raw d root).
Proof.
  intros Hm Hnz Hok Ht Hl. unfold desc_try_from, rmw_inode. destruct Ht as [T1 T2 T3 _].
  destruct (encode_time (i_mtime d)) eqn:E3, (encode_time (i_ctime d)) eqn:E2, (encode_time (i_atime d)) eqn:E1.
  cbn -[Z.lor Z.land Z.shiftl Z.shiftr u32 u16 BLOCK_SIZE FileFlags.all].
  assert (Et : Z.land (ri_mode raw) TYPE_MASK = type_bits (i_type d)).
  { unfold from_raw_mode in Hm. rewrite land_known in Hm. rewrite (proj2 (Z.eqb_neq _ 0) Hnz) in Hm. unfold type_of_bits in Hm. cbn -[Z.land Z.eqb] in Hm.
    repeat (match type of Hm with context [?x =? ?y] => destruct (Z.eqb_spec x y) as [Ex|] end; [by injection Hm as <-|]). done. }
  rewrite Et. rewrite (proj2 (Z.eqb_neq _ _)) by done. cbn [negb].
  rewrite from_raw_mode_type by apply Hok. cbn [rbind].
  pose proof (size_reads d Hok) as Hsr. pose proof (do_symlink d Hok) as Hsym. pose proof (do_size d Hok) as Hsz.
  replace (if bool_decide (i_type d = File) then Z.lor _ _ else _) with (i_size d) by (rewrite <- Hsr at 1; by destruct (bool_decide (i_type d = File))).
  replace (bool_decide (i_type d = SymLink) && (BLOCK_SIZE <=? i_size d)) with false.
  2:{ clear Hsz Hsr. symmetry. apply andb_false_iff. case_bool_decide; [right; apply Z.leb_gt; by apply Hsym|by left]. }
  rewrite (proj2 (Z.ltb_ge _ _)) by (unfold fits in Hsz; case_bool_decide; lia). cbn [negb].
  unfold reread_rmw, reread. cbn [i_type i_perm i_uid i_gid i_size i_atime i_ctime i_mtime i_dtime i_link_count i_sector_count i_flags i_block].
  do 2 f_equal; try by eapply time_kept_decode.
  - apply mode_split, Hok.
  - apply (lor_halves_split 16 16); [lia..|]. apply Hok.
  - apply (lor_halves_split 16 16); [lia..|]. apply Hok.
  - apply (lor_halves_split 32 16); [lia..|]. apply Hok.
  - apply Hok.
Qed.

(** ** The records on the volume *)

(** The blocks that hold the records of a group. *)
Definition table_span (g : BlockGroup) : Z := div_ceil (bg_ipg g * bg_inode_size g) BLOCK_SIZE.
Definition table_block (g : BlockGroup) (md : BlockGroupMetadata) (b : Z) : Prop :=
  inode_table_bid (md_desc md) <= b < inode_table_bid (md_desc md) + table_span g.

(** The tables are blocks of their own. *)
Record tables_ok (fs : Ext4) : Prop := {
  to_addr i g md : block_groups fs !! i = Some (g, md) ->
    0 <= inode_table_bid (md_desc md) /\ (inode_table_bid (md_desc md) + table_span g) * BLOCK_SIZE < 2 ^ 64;
  to_apart i j g md g2 md2 b : i <> j -> block_groups fs !! i = Some (g, md) -> block_groups fs !! j = Some (g2, md2) ->
    table_block g md b -> ~ table_block g2 md2 b;
  to_other i j g md g2 md2 b : block_groups fs !! i = Some (g, md) -> block_groups fs !! j = Some (g2, md2) -> table_block g md b ->
    b <> SUPERBLOCK_BID /\ b <> block_bitmap_bid (md_desc md2) /\ b <> inode_bitmap_bid (md_desc md2) /\ b <> desc_offset g2 / BLOCK_SIZE;
}.

(** The inode numbers of the volume. *)
Definition valid_ino (fs : Ext4) (ino : Z) : Prop := 1 <= ino <= fs_total_inodes fs.

(** ** Lemmas: places *)

Lemma valid_find fs ino : fs_ok fs -> valid_ino fs ino -> exists i g md,
  find_group fs ino = Ok (Z.of_nat i) /\ block_groups fs !! i = Some (g, md) /\ Z.of_nat i = (ino - 1) / fs_nr_inodes_per_group fs.
Proof.
  intros Hf [H1 H2]. pose proof (fo_sb fs Hf) as Hs. pose proof (so_ipg _ Hs) as Hp. pose proof (so_inodes _ Hs) as Hi.
  unfold find_group. rewrite (fo_ipg fs Hf) in *. rewrite (fo_total fs Hf) in *.
  set (ipg := sb_nr_inodes_per_group (super_block fs)) in *.
  assert (Hd : 0 <= (ino - 1) / ipg < zlen (block_groups fs)).
  { rewrite (fo_len fs Hf). split; [apply Z.div_pos; lia|]. apply Z.div_lt_upper_bound; lia. }
  rewrite (proj2 (Z.eqb_neq ino 0)) by lia. rewrite (proj2 (Z.ltb_ge _ _)) by lia. rewrite (proj2 (Z.ltb_lt _ _)) by lia. cbn [negb].
  destruct (lookup_lt_is_Some_2 (block_groups fs) (Z.to_nat ((ino - 1) / ipg))) as ([g md] & Hl); [unfold zlen in Hd; lia|].
  exists (Z.to_nat ((ino - 1) / ipg)), g, md. rewrite Z2Nat.id by lia. done.
Qed.

(** Where the record of an inode is. *)
Record placed (fs : Ext4) (ino : Z) (i : nat) (g : BlockGroup) (md : BlockGroupMetadata) (slot : InodeSlot) : Prop := {
  pl_group : block_groups fs !! i = Some (g, md);
  pl_find : find_group fs ino = Ok (Z.of_nat i);
  pl_slot : inode_slot fs ino = Ok slot;
  pl_idx : (ino - 1) / fs_nr_inodes_per_group fs = Z.of_nat i;
  pl_bid : slot_bid slot = inode_table_bid (md_desc md) + (ino - 1) mod bg_ipg g * bg_inode_size g / BLOCK_SIZE;
  pl_off : slot_off slot = (ino - 1) mod bg_ipg g * bg_inode_size g mod BLOCK_SIZE;
  pl_fit : 0 <= slot_off slot /\ slot_off slot + RAW_INODE_SIZE <= BLOCK_SIZE;
  pl_table : table_block g md (slot_bid slot);
}.

Lemma inode_size_cases sb : sb_ok sb ->
  sb_inode_size sb = 256 \/ sb_inode_size sb = 512 \/ sb_inode_size sb = 1024 \/ sb_inode_size sb = 2048 \/ sb_inode_size sb = 4096.
Proof.
  intros Hs. destruct (so_inode_size sb Hs) as (k & Hk & ->).
  assert (k = 8 \/ k = 9 \/ k = 10 \/ k = 11 \/ k = 12) as [-> | [-> | [-> | [-> | ->]]]] by lia; vm_compute; tauto.
Qed.

Lemma placed_exists fs ino : fs_ok fs -> tables_ok fs -> valid_ino fs ino -> exists i g md slot, placed fs ino i g md slot.
Proof.
  intros Hf Ht Hv. destruct (valid_find fs ino Hf Hv) as (i & g & md & Ef & Hl & Ei). exists i, g, md.
  pose proof (fo_sb fs Hf) as Hs. pose proof (so_ipg _ Hs) as Hp. destruct (to_addr fs Ht i g md Hl) as [Ha Hb].
  pose proof (fo_geometry fs Hf i g md Hl) as Eg. pose proof (inode_size_cases _ Hs) as Hc.
  assert (Eipg : bg_ipg g = fs_nr_inodes_per_group fs) by (by rewrite Eg, (fo_ipg fs Hf)).
  assert (Eisz : bg_inode_size g = sb_inode_size (super_block fs)) by (by rewrite Eg).
  set (k := (ino - 1) mod fs_nr_inodes_per_group fs).
  assert (Hk : 0 <= k < bg_ipg g) by (rewrite Eipg; apply Z.mod_pos_bound; rewrite (fo_ipg fs Hf); lia).
  assert (Hspan : k * bg_inode_size g + bg_inode_size g <= bg_ipg g * bg_inode_size g) by nia.
  assert (Hdiv : 0 <= k * bg_inode_size g / BLOCK_SIZE < table_span g).
  { unfold table_span, div_ceil, BLOCK_SIZE in *. destruct Hc as [E|[E|[E|[E|E]]]]; rewrite Eisz, E in *; Z.to_euclidean_division_equations; lia. }
  assert (Hmod : 0 <= k * bg_inode_size g mod BLOCK_SIZE /\ k * bg_inode_size g mod BLOCK_SIZE + RAW_INODE_SIZE <= BLOCK_SIZE).
  { unfold BLOCK_SIZE, RAW_INODE_SIZE. destruct Hc as [E|[E|[E|[E|E]]]]; rewrite Eisz, E; Z.to_euclidean_division_equations; lia. }
  exists {| slot_bid := inode_table_bid (md_desc md) + k * bg_inode_size g / BLOCK_SIZE; slot_off := k * bg_inode_size g mod BLOCK_SIZE |}.
  split; cbn [slot_bid slot_off]; rewrite ?Eipg; try done; [|unfold table_block; cbn; lia].
  unfold inode_slot. destruct Hv as [Hv _]. rewrite (proj2 (Z.eqb_neq ino 0)) by lia. cbn [negb]. rewrite <- Ei, Nat2Z.id, Hl.
  rewrite (so_block_size _ Hs), <- Eisz. fold k. set (x := k * bg_inode_size g) in *.
  rewrite (proj2 (fitsb_spec 64 _)).
  2:{ unfold fits, BLOCK_SIZE in *. Z.to_euclidean_division_equations; nia. }
  unfold BLOCK_SIZE. rewrite Z.div_add_l by lia. rewrite (Z.add_comm (_ * _) x), Z.mod_add by lia. done.
Qed.

(** Two records share no byte. *)
Lemma placed_apart fs ino i g md slot ino' i' g' md' slot' : fs_ok fs -> tables_ok fs ->
  valid_ino fs ino -> valid_ino fs ino' -> placed fs ino i g md slot -> placed fs ino' i' g' md' slot' -> ino <> ino' ->
  slot_bid slot <> slot_bid slot' \/ slot_off slot + RAW_INODE_SIZE <= slot_off slot' \/ slot_off slot' + RAW_INODE_SIZE <= slot_off slot.
Proof.
  intros Hf Ht V V' P P' Hne. destruct (decide (i = i')) as [<-|Hi].
  2: { left. intros E. pose proof (pl_table _ _ _ _ _ _ P) as T. rewrite E in T.
       by apply (to_apart fs Ht i i' g md g' md' _ Hi (pl_group _ _ _ _ _ _ P) (pl_group _ _ _ _ _ _ P') T), (pl_table _ _ _ _ _ _ P'). }
  pose proof (pl_group _ _ _ _ _ _ P) as Hl. pose proof (pl_group _ _ _ _ _ _ P') as Hl'. rewrite Hl in Hl'. injection Hl' as <- <-.
  pose proof (fo_geometry fs Hf i g md Hl) as Eg. assert (Eipg : bg_ipg g = fs_nr_inodes_per_group fs) by (by rewrite Eg, (fo_ipg fs Hf)).
  pose proof (so_ipg _ (fo_sb fs Hf)) as Hp. rewrite <- (fo_ipg fs Hf), <- Eipg in Hp.
  assert (Hc : bg_inode_size g = sb_inode_size (super_block fs)) by (by rewrite Eg). pose proof (inode_size_cases _ (fo_sb fs Hf)) as Hs. rewrite <- Hc in Hs.
  pose proof (pl_idx _ _ _ _ _ _ P) as Q. pose proof (pl_idx _ _ _ _ _ _ P') as Q'. rewrite <- Eipg in Q, Q'.
  rewrite (pl_bid _ _ _ _ _ _ P), (pl_bid _ _ _ _ _ _ P'), (pl_off _ _ _ _ _ _ P), (pl_off _ _ _ _ _ _ P').
  pose proof (Z.div_mod (ino - 1) (bg_ipg g) ltac:(lia)) as D. pose proof (Z.div_mod (ino' - 1) (bg_ipg g) ltac:(lia)) as D'.
  rewrite Q in D. rewrite Q' in D'. set (k := (ino - 1) mod bg_ipg g) in *. set (k' := (ino' - 1) mod bg_ipg g) in *.
  assert (k <> k') by lia. clearbody k k'. unfold BLOCK_SIZE, RAW_INODE_SIZE.
  clear -Hs H. destruct Hs as [E|[E|[E|[E|E]]]]; rewrite E; Z.to_euclidean_division_equations; lia.
Qed.

(** ** Lemmas: patching a block *)

Section Patching.
Context {S : Type} `{MetaStoreOk S}.
Implicit Types s : S.

(** Only the contents of one block may change. *)
Record one_block (bid : Z) (s s' : S) : Prop := {
  ob_ok : ms_ok s';
  ob_pins : forall c, pinned s' c <-> pinned s c;
  ob_reads : forall c, c <> bid -> ms_read s' c = ms_read s c;
}.

Lemma try_patch_spec fs s bid f :
  ms_ok s -> (forall img, is_block img -> exists b, f img = Ok b /\ is_block b) ->
  exists r s', try_patch bid f (fs, s) = (r, (fs, s')) /\ one_block bid s s' /\
    match r with
    | Ok _ => exists img b, ms_read s bid = Ok img /\ is_block img /\ f img = Ok b /\ ms_read s' bid = Ok b
    | Err e => handled e = true /\ ms_read s' bid = ms_read s bid
    end.
Proof.
  intros Hok Hf. unfold try_patch. frun. destruct (ms_write bid s) as [[a|e] s1] eqn:E1; destruct (ms_write_spec _ _ _ _ Hok E1) as (Hok1 & Hrd1 & _ & Hp1 & Hr1); frun.
  2: { exists (Err e), s1. by repeat split; try apply Hp1. }
  destruct (ms_patch_spec s1 a bid (fun buf => match f buf with Ok buf => buf | Err _ => buf end) Hok1 Hr1) as (img & s2 & R2 & E2 & Hok2 & Hrd2 & _ & Hp2).
  { intros img Hi. by destruct (Hf img Hi) as (b & -> & ?). }
  pose proof (ms_read_block _ _ _ Hok1 R2) as Hi. destruct (Hf img Hi) as (b & Eb & Hb). rewrite R2. frun. rewrite Eb. frun. rewrite E2.
  exists (Ok tt), s2. split; [done|]. split; [split; [done|intros c; by rewrite Hp2, Hp1|intros c Hc; by rewrite Hrd2, decide_False, Hrd1]|].
  exists img, b. rewrite <- Hrd1. split_and!; try done. by rewrite Hrd2, decide_True, Eb.
Qed.
End Patching.

(** ** Lemmas: one record of a block *)

(** [b] is [img] with the record at [off] replaced. *)
Record record_set (off : Z) (raw : RawInode) (img b : list byte) : Prop := {
  rc_block : is_block b;
  rc_raw : read_at raw_inode_codec off b = raw;
  rc_wf : c_wf raw_inode_codec raw;
  rc_other o n : 0 <= o -> o + n <= off \/ off + RAW_INODE_SIZE <= o -> slice o n b = slice o n img;
}.

Lemma record_write off raw img : 0 <= off -> off + RAW_INODE_SIZE <= BLOCK_SIZE -> is_block img -> c_wf raw_inode_codec raw ->
  record_set off raw img (write_at raw_inode_codec off raw img).
Proof.
  intros Ho Hf Hi W. unfold is_block in *. assert (Hs : off + c_size raw_inode_codec <= zlen img) by (by rewrite Hi).
  split; [|rewrite read_write_same; [done|apply _|done|exact Hs|exact W]|done|].
  - unfold is_block. rewrite zlen_write_at; [exact Hi|apply _|done|exact Hs|exact W].
  - intros o n Hp Hd. apply slice_write_other; [apply _|done|exact Hs|exact W|done|done].
Qed.

Lemma record_trans off raw raw' img b b' : record_set off raw img b -> record_set off raw' b b' -> record_set off raw' img b'.
Proof. intros [A1 A2 A3 A4] [B1 B2 B3 B4]. split; try done. intros o n Ho Hd. by rewrite B4, A4. Qed.

(** The four bytes of [i_dtime]. *)
Lemma dtime_bytes r : exists pre post, zlen pre = 0x14 /\ forall v, as_bytes raw_inode_codec (ri_with_dtime r v) = pre ++ le_bytes 4 v ++ post.
Proof.
  exists (le_bytes 2 (ri_mode r) ++ le_bytes 2 (ri_uid r) ++ le_bytes 4 (ri_size_lo r) ++ le_bytes 4 (ri_atime r) ++ le_bytes 4 (ri_ctime r) ++ le_bytes 4 (ri_mtime r)).
  eexists. split; [by autorewrite with zlen|]. intros v. cbn -[le_bytes]. rewrite <- !app_assoc. reflexivity.
Qed.

Lemma ri_with_dtime_self r : ri_with_dtime r (ri_dtime r) = r.
Proof. by destruct r. Qed.

Lemma ri_with_dtime_wf r v : c_wf raw_inode_codec r -> fits 32 v -> c_wf raw_inode_codec (ri_with_dtime r v).
Proof. intros W ?. cbn -[fits zlen] in *. tauto. Qed.

Lemma put_dtime r v : c_wf raw_inode_codec r -> put_le 4 0x14 v (as_bytes raw_inode_codec r) = as_bytes raw_inode_codec (ri_with_dtime r v).
Proof.
  intros W. destruct (dtime_bytes r) as (pre & post & Hp & E). rewrite E. rewrite <- (ri_with_dtime_self r) at 1. rewrite E.
  unfold put_le, splice. rewrite <- Hp. unfold zlen. rewrite !Nat2Z.id, take_app_length. f_equal. f_equal.
  rewrite app_assoc, drop_app_length'; [done|]. rewrite length_app. f_equal.
Qed.

Lemma slice_splice_within {A} o n p (x l : list A) : 0 <= o <= p -> p + zlen x <= o + n -> o + n <= zlen l ->
  slice o n (splice p x l) = splice (p - o) x (slice o n l).
Proof.
  intros Ho Hp Hl. pose proof (zlen_nonneg x). apply list_eq. intros i.
  rewrite lookup_slice, !lookup_splice, lookup_slice by (rewrite ?zlen_slice; lia).
  repeat case_decide; try lia; try done; f_equal; lia.
Qed.

Lemma record_dtime off v img : 0 <= off -> off + RAW_INODE_SIZE <= BLOCK_SIZE -> is_block img -> fits 32 v ->
  record_set off (ri_with_dtime (read_at raw_inode_codec off img) v) img (put_le 4 (off + 0x14) v img).
Proof.
  intros Ho Hf Hi Hv. unfold is_block, RAW_INODE_SIZE in *. assert (W : c_wf raw_inode_codec (read_at raw_inode_codec off img)).
  { apply read_at_wf; [apply _|done|rewrite raw_inode_size; unfold RAW_INODE_SIZE; lia]. }
  assert (Hl : zlen (slice off 256 img) = c_size raw_inode_codec) by (rewrite zlen_slice by lia; done).
  split; [unfold is_block; rewrite zlen_put_le by lia; done| |by apply ri_with_dtime_wf|].
  - unfold read_at. rewrite raw_inode_size. unfold RAW_INODE_SIZE, put_le. rewrite slice_splice_within by len.
    replace (off + 20 - off) with 20 by lia. fold (put_le 4 20 v (slice off 256 img)).
    rewrite <- (codec_enc_dec (c := raw_inode_codec) (slice off 256 img)) at 1 by done. rewrite put_dtime by (by apply codec_dec_wf).
    apply codec_dec_enc. by apply ri_with_dtime_wf, Hv; apply codec_dec_wf.
  - intros o n Hp Hd. unfold RAW_INODE_SIZE in Hd. unfold put_le. apply slice_splice_other; len.
Qed.

(** ** Lemmas: one record of the volume *)

Section Records.
Context {S : Type} `{MetaStoreOk S}.
Implicit Types s : S.

Context (fs : Ext4) (Hfs : fs_ok fs) (Htab : tables_ok fs).

Lemma read_raw_placed s ino i g md slot : ms_ok s -> placed fs ino i g md slot ->
  read_raw_inode fs s ino = let? block := ms_read s (slot_bid slot) in Ok (read_at raw_inode_codec (slot_off slot) block).
Proof using.
  intros Hok P. unfold read_raw_inode. rewrite (pl_slot _ _ _ _ _ _ P). cbn [rbind].
  destruct (ms_read s (slot_bid slot)) as [block|e] eqn:E; [|done]. cbn [rbind].
  pose proof (ms_read_block _ _ _ Hok E) as Hb. unfold is_block in Hb. rewrite Hb.
  by rewrite (proj2 (Z.leb_le _ _)) by apply (pl_fit _ _ _ _ _ _ P).
Qed.

Lemma read_raw_wf s ino raw : ms_ok s -> valid_ino fs ino -> read_raw_inode fs s ino = Ok raw -> c_wf raw_inode_codec raw.
Proof using Hfs Htab.
  intros Hok V E. destruct (placed_exists fs ino Hfs Htab V) as (i & g & md & slot & P). rewrite (read_raw_placed s ino i g md slot Hok P) in E.
  destruct (ms_read s (slot_bid slot)) as [block|] eqn:Er; [|done]. cbn [rbind] in E. inv_result. subst raw. pose proof (ms_read_block _ _ _ Hok Er) as Hb. unfold is_block in Hb. destruct (pl_fit _ _ _ _ _ _ P) as [F1 F2].
  apply read_at_wf; [apply _|done|]. by rewrite raw_inode_size, Hb.
Qed.

(** Every record of the volume but one is as it was, and so is every block
    outside the tables. *)
Record one_record (ino : Z) (s s' : S) : Prop := {
  or_ok : ms_ok s';
  or_pins : forall c, pinned s' c <-> pinned s c;
  or_others ino' : valid_ino fs ino' -> ino' <> ino -> read_raw_inode fs s' ino' = read_raw_inode fs s ino';
  or_blocks b : (forall i g md, block_groups fs !! i = Some (g, md) -> ~ table_block g md b) -> ms_read s' b = ms_read s b;
}.

Lemma one_record_refl ino s : ms_ok s -> one_record ino s s.
Proof using. by split. Qed.

Lemma one_record_same ino s s' : ms_ok s' -> (forall c, pinned s' c <-> pinned s c) -> (forall c, ms_read s' c = ms_read s c) -> one_record ino s s'.
Proof using.
  intros Hok Hp Hr. split; try done. intros ino' _ _. unfold read_raw_inode. destruct (inode_slot fs ino') as [slot|]; [|done]. cbn [rbind]. by rewrite Hr.
Qed.

(** A patch of the record of [ino] that replaces it according to [Q]. *)
Lemma try_patch_record s ino i g md slot f (Q : RawInode -> RawInode -> Prop) :
  ms_ok s -> valid_ino fs ino -> placed fs ino i g md slot ->
  (forall img, is_block img -> exists b raw, f img = Ok b /\ record_set (slot_off slot) raw img b /\ Q (read_at raw_inode_codec (slot_off slot) img) raw) ->
  exists r s', try_patch (slot_bid slot) f (fs, s) = (r, (fs, s')) /\ one_record ino s s' /\
    match r with
    | Ok _ => exists old raw, read_raw_inode fs s ino = Ok old /\ read_raw_inode fs s' ino = Ok raw /\ c_wf raw_inode_codec raw /\ Q old raw
    | Err e => handled e = true /\ forall c, ms_read s' c = ms_read s c
    end.
Proof using Hfs Htab.
  intros Hok V P Hq. destruct (try_patch_spec fs s (slot_bid slot) f Hok) as (r & s' & E & [B1 B2 B3] & Hr).
  { intros img Hi. destruct (Hq img Hi) as (b & raw & ? & R & _). exists b. split; [done|]. apply R. }
  exists r, s'. split; [done|]. destruct r as [u|e].
  2: { destruct Hr as [He Hs]. assert (Hrd : forall c, ms_read s' c = ms_read s c) by (intros c; destruct (decide (c = slot_bid slot)) as [->|]; [done|by apply B3]).
       split; [by apply one_record_same|done]. }
  destruct Hr as (img & b & Ri & Hi & Ef & Rb). destruct (Hq img Hi) as (b' & raw & Ef' & R & HQ). rewrite Ef in Ef'. injection Ef' as <-. split.
  - split; [done|done| |].
    + intros ino' V' Hne. destruct (placed_exists fs ino' Hfs Htab V') as (i' & g' & md' & slot' & P').
      rewrite (read_raw_placed s' _ _ _ _ _ B1 P'), (read_raw_placed s _ _ _ _ _ Hok P'). destruct (decide (slot_bid slot' = slot_bid slot)) as [Eb|Nb]; [|by rewrite B3].
      rewrite Eb, Ri, Rb. cbn [rbind]. f_equal. unfold read_at. f_equal. apply R; [apply (pl_fit _ _ _ _ _ _ P')|].
      destruct (placed_apart fs ino i g md slot ino' i' g' md' slot' Hfs Htab V V' P P') as [Hb|[Hb|Hb]]; [congruence|congruence|by right|by left].
    + intros c Hc. apply B3. intros ->. apply (Hc i g md (pl_group _ _ _ _ _ _ P)), (pl_table _ _ _ _ _ _ P).
  - exists (read_at raw_inode_codec (slot_off slot) img), raw. rewrite (read_raw_placed s' _ _ _ _ _ B1 P), (read_raw_placed s _ _ _ _ _ Hok P), Ri, Rb. cbn [rbind].
    rewrite (rc_raw _ _ _ _ R). split_and!; try done. apply R.
Qed.

(** The checksum code reads past a [RawInode] when the volume has larger
    inodes; these lemmas are about the volumes where it does not. *)
Definition csum_fits : Prop := has_metadata_csum (super_block fs) = true -> sb_inode_size (super_block fs) = RAW_INODE_SIZE.

Lemma inode_seed_fits ino gen : fits 32 (inode_seed (derive_inode (metadata_csum_seed (super_block fs)) ino gen)).
Proof using. apply crc32c_fits, crc32c_fits, crc32c_fits. by unfold fits. Qed.

(** A stamped record: the same but for the checksum, and it verifies. *)
Definition stamp_of (ino : Z) (raw raw' : RawInode) : Prop :=
  stamped (inode_csum fs) ino raw = Ok raw' /\ c_wf raw_inode_codec raw' /\
  (exists lo hi, raw' = ri_with_csum raw lo hi) /\
  (has_metadata_csum (super_block fs) = true ->
   verify_inode_checksum raw' (derive_inode (metadata_csum_seed (super_block fs)) ino (ri_generation raw')) (sb_inode_size (super_block fs)) = Ok tt).

Lemma stamped_ok ino raw : csum_fits -> c_wf raw_inode_codec raw -> exists raw', stamp_of ino raw raw'.
Proof using.
  intros Hc W. unfold stamp_of, inode_csum. destruct (has_metadata_csum (super_block fs)) eqn:E; cbn [stamped].
  2: { exists raw. split_and!; try done. exists (ri_checksum_lo raw), (ri_checksum_hi raw). by rewrite ri_with_csum_self. }
  rewrite (Hc E). destruct (stamp_inode_verifies (derive_inode (metadata_csum_seed (super_block fs)) ino (ri_generation raw)) RAW_INODE_SIZE (inode_seed_fits _ _)
    ltac:(done) raw W) as (lo & hi & Flo & Fhi & Es & Ev).
  exists (ri_with_csum raw lo hi). split_and!; [done|by apply ri_with_csum_wf|by exists lo, hi|by intros _].
Qed.

(** The descriptor a write-back stores: a listed orphan carries its successor. *)
Definition listed_desc (ino : Z) (d : InodeDesc) : InodeDesc :=
  match successor_of (orphan_chain fs) ino with
  | Some next => set_orphan_next d next
  | None => d
  end.

Definition chain_valid : Prop := Forall (valid_ino fs) (orphan_chain fs).

Lemma valid_ino_fits ino : valid_ino fs ino -> fits 32 ino.
Proof using Hfs. intros [? ?]. pose proof (so_inodes32 _ (fo_sb fs Hfs)). rewrite <- (fo_total fs Hfs) in *. unfold fits in *. lia. Qed.

Lemma listed_desc_ok ino d : chain_valid -> desc_ok d -> desc_ok (listed_desc ino d).
Proof using Hfs.
  intros Hc Hd. unfold listed_desc. destruct (successor_of (orphan_chain fs) ino) as [next|] eqn:E; [|done].
  destruct Hd. split; try done. destruct next as [next|]; cbn; [|by unfold fits].
  apply successor_in in E. unfold chain_valid in Hc. rewrite Forall_forall in Hc. by apply valid_ino_fits, Hc.
Qed.

Lemma listed_raw ino d root :
  match successor_of (orphan_chain fs) ino with
  | Some next => ri_with_dtime (to_raw_inode d root) (default 0 next)
  | None => to_raw_inode d root
  end = to_raw_inode (listed_desc ino d) root.
Proof using.
  unfold listed_desc. destruct (successor_of (orphan_chain fs) ino) as [[next|]|]; [| |done];
    unfold to_raw_inode; cbn -[encode_time Z.lor Z.land type_bits u32 u16 Z.shiftr zeros]; by repeat case_match.
Qed.

(** What a write-back leaves: the stamped encoding in the record, nothing else
    changed; an error changes nothing. *)
Definition record_written (ino : Z) (d : InodeDesc) (root : list byte) (r : result unit) (s s' : S) : Prop :=
  one_record ino s s' /\
  match r with
  | Ok _ => exists raw, read_raw_inode fs s' ino = Ok raw /\ stamp_of ino (to_raw_inode d root) raw
  | Err e => handled e = true /\ forall c, ms_read s' c = ms_read s c
  end.

Lemma journal_write_spec s ino i g md slot raw : ms_ok s -> valid_ino fs ino -> placed fs ino i g md slot -> c_wf raw_inode_codec raw ->
  exists r s', journal_write slot raw (fs, s) = (r, (fs, s')) /\ one_record ino s s' /\
    match r with
    | Ok _ => read_raw_inode fs s' ino = Ok raw
    | Err e => handled e = true /\ forall c, ms_read s' c = ms_read s c
    end.
Proof using Hfs Htab.
  intros Hok V P W. destruct (pl_fit _ _ _ _ _ _ P) as [F1 F2].
  destruct (try_patch_record s ino i g md slot (fun buf => check slot_off slot + RAW_INODE_SIZE <=? zlen buf else PANIC in
    Ok (write_at raw_inode_codec (slot_off slot) raw buf)) (fun _ raw' => raw' = raw) Hok V P) as (r & s' & E & Ho & Hr).
  { intros img Hi. exists (write_at raw_inode_codec (slot_off slot) raw img), raw. split_and!; [|by apply record_write|done].
    unfold is_block in Hi. rewrite Hi. by rewrite (proj2 (Z.leb_le _ _)). }
  exists r, s'. split; [done|]. split; [done|]. destruct r as [u|e]; [|done]. by destruct Hr as (old & raw' & _ & Hr & _ & ->).
Qed.

Lemma write_back_spec s ino d root : ms_ok s -> valid_ino fs ino -> csum_fits -> chain_valid -> desc_ok d -> zlen root = ROOT_SIZE ->
  exists r s', write_back_inode_desc ino d root (fs, s) = (r, (fs, s')) /\ record_written ino (listed_desc ino d) root r s s'.
Proof using Hfs Htab.
  intros Hok V Hc Hv Hd Hr. destruct (placed_exists fs ino Hfs Htab V) as (i & g & md & slot & P).
  unfold write_back_inode_desc. frun. rewrite (pl_slot _ _ _ _ _ _ P). frun. rewrite listed_raw.
  destruct (stamped_ok ino (to_raw_inode (listed_desc ino d) root) Hc) as (raw & Hs); [by apply to_raw_wf; [apply listed_desc_ok|]|].
  rewrite (proj1 Hs). frun. destruct (journal_write_spec s ino i g md slot raw Hok V P (proj1 (proj2 Hs))) as (r & s' & E & Ho & Hw).
  exists r, s'. split; [done|]. split; [done|]. destruct r; [|done]. by exists raw.
Qed.

Lemma write_new_spec s ino d : ms_ok s -> valid_ino fs ino -> csum_fits -> desc_ok d -> zlen (i_block d) = ROOT_SIZE ->
  exists r s', write_new_inode_desc ino d (fs, s) = (r, (fs, s')) /\ record_written ino d (i_block d) r s s'.
Proof using Hfs Htab.
  intros Hok V Hc Hd Hr. destruct (placed_exists fs ino Hfs Htab V) as (i & g & md & slot & P).
  unfold write_new_inode_desc. frun. rewrite (pl_slot _ _ _ _ _ _ P). frun.
  destruct (stamped_ok ino (to_raw_inode d (i_block d)) Hc) as (raw & Hs); [by apply to_raw_wf|].
  rewrite (proj1 Hs). frun. destruct (journal_write_spec s ino i g md slot raw Hok V P (proj1 (proj2 Hs))) as (r & s' & E & Ho & Hw).
  exists r, s'. split; [done|]. split; [done|]. destruct r; [|done]. by exists raw.
Qed.

(** The splice of [i_dtime] changes that field alone. *)
Lemma patch_dtime_spec s ino i g md slot next : ms_ok s -> valid_ino fs ino -> placed fs ino i g md slot -> csum_fits -> fits 32 next ->
  exists r s', journal_patch_dtime slot next ino (inode_csum fs) (fs, s) = (r, (fs, s')) /\ one_record ino s s' /\
    match r with
    | Ok _ => exists old raw, read_raw_inode fs s ino = Ok old /\ read_raw_inode fs s' ino = Ok raw /\ stamp_of ino (ri_with_dtime old next) raw
    | Err e => handled e = true /\ forall c, ms_read s' c = ms_read s c
    end.
Proof using Hfs Htab.
  intros Hok V P Hc Hn. destruct (pl_fit _ _ _ _ _ _ P) as [F1 F2].
  destruct (try_patch_record s ino i g md slot (fun buf => check slot_off slot + RAW_INODE_SIZE <=? zlen buf else PANIC in
    patch_dtime (slot_off slot) next ino (inode_csum fs) buf) (fun old raw => stamp_of ino (ri_with_dtime old next) raw) Hok V P) as (r & s' & E & Ho & Hr).
  - intros img Hi. pose proof (record_dtime (slot_off slot) next img F1 F2 Hi Hn) as R.
    destruct (stamped_ok ino _ Hc (rc_wf _ _ _ _ R)) as (raw & Hs).
    assert (Hz : zlen img = BLOCK_SIZE) by exact Hi. rewrite Hz. rewrite (proj2 (Z.leb_le _ _)) by done.
    unfold patch_dtime. destruct (inode_csum fs) as [[seed size]|] eqn:Ec.
    + rewrite (rc_raw _ _ _ _ R). pose proof Hs as (Es & Ws & _). rewrite Ec in Es. rewrite Es. cbn [rbind]. eexists _, raw. split; [done|]. split; [|exact Hs].
      eapply record_trans; [exact R|]. apply record_write; try done. apply R.
    + pose proof Hs as (Es & _). rewrite Ec in Es. injection Es as Es. rewrite <- Es in Hs. eexists _, _. split; [done|]. split; [exact R|exact Hs].
  - exists r, s'. split; [done|]. split; [done|]. destruct r as [u|e]; [|done]. destruct Hr as (old & raw & ? & ? & _ & ?). by exists old, raw.
Qed.

(** *** Reading back *)

Lemma desc_try_from_csum raw lo hi : desc_try_from (ri_with_csum raw lo hi) = desc_try_from raw.
Proof using. done. Qed.

Lemma read_inode_raw s ino : ms_ok s -> valid_ino fs ino ->
  read_inode_desc fs s ino =
  let? raw := read_raw_inode fs s ino in
  let? _ := if has_metadata_csum (super_block fs)
            then verify_inode_checksum raw (derive_inode (metadata_csum_seed (super_block fs)) ino (ri_generation raw)) (sb_inode_size (super_block fs))
            else Ok tt in
  desc_try_from raw.
Proof using Hfs Htab.
  intros Hok V. destruct (placed_exists fs ino Hfs Htab V) as (i & g & md & slot & P). pose proof (pl_group _ _ _ _ _ _ P) as Hl.
  rewrite (read_raw_placed s ino i g md slot Hok P).
  unfold read_inode_desc. rewrite (pl_find _ _ _ _ _ _ P). cbn [rbind]. rewrite Nat2Z.id, Hl. unfold group_read_inode_desc.
  pose proof (fo_geometry fs Hfs i g md Hl) as Eg. pose proof (so_ipg _ (fo_sb fs Hfs)) as Hp.
  assert (Ei : inode_idx_in_group g ino = (ino - 1) mod bg_ipg g).
  { unfold inode_idx_in_group. apply wrap_small. assert (bg_ipg g = sb_nr_inodes_per_group (super_block fs)) as -> by (by rewrite Eg).
    pose proof (Z.mod_pos_bound (ino - 1) (sb_nr_inodes_per_group (super_block fs))). unfold fits. lia. }
  assert (Eb : bg_block_size g = BLOCK_SIZE) by (rewrite Eg; apply (so_block_size _ (fo_sb fs Hfs))).
  rewrite Ei, Eb, <- (pl_bid _ _ _ _ _ _ P), <- (pl_off _ _ _ _ _ _ P).
  destruct (ms_read s (slot_bid slot)) as [block|e] eqn:Er; cbn [rbind]; [|done].
  pose proof (ms_read_block _ _ _ Hok Er) as Hb. unfold is_block in Hb. rewrite Hb. rewrite (proj2 (Z.leb_le _ _)) by apply (pl_fit _ _ _ _ _ _ P).
  assert (bg_csum_seed g = if has_metadata_csum (super_block fs) then Some (metadata_csum_seed (super_block fs)) else None) as -> by (by rewrite Eg).
  assert (bg_inode_size g = sb_inode_size (super_block fs)) as -> by (by rewrite Eg). by destruct (has_metadata_csum (super_block fs)).
Qed.

Lemma read_stamped s ino raw raw' : ms_ok s -> valid_ino fs ino -> read_raw_inode fs s ino = Ok raw' -> stamp_of ino raw raw' ->
  read_inode_desc fs s ino = desc_try_from raw.
Proof using Hfs Htab.
  intros Hok V Er (_ & _ & (lo & hi & ->) & Hv). rewrite (read_inode_raw s ino Hok V), Er. cbn [rbind].
  destruct (has_metadata_csum (super_block fs)); [rewrite Hv by done|]; cbn [rbind]; apply desc_try_from_csum.
Qed.

Lemma written_reads s s' ino d root u : valid_ino fs ino -> record_written ino d root (Ok u) s s' ->
  desc_ok d -> times_kept d -> i_link_count d <> 0 -> read_inode_desc fs s' ino = Ok (reread d root).
Proof using Hfs Htab.
  intros V [Ho (raw & Er & Hs)] Hd Ht Hl. rewrite (read_stamped s' ino _ raw (or_ok _ _ _ Ho) V Er Hs). by apply desc_write_read.
Qed.

Lemma others_read ino s s' ino' : ms_ok s -> one_record ino s s' -> valid_ino fs ino' -> ino' <> ino -> read_inode_desc fs s' ino' = read_inode_desc fs s ino'.
Proof using Hfs Htab.
  intros Hok Ho V Hne. rewrite (read_inode_raw s ino' Hok V), (read_inode_raw s' ino' (or_ok _ _ _ Ho) V). by rewrite (or_others _ _ _ Ho).
Qed.

(** The rest of the metadata is untouched. *)
Lemma one_record_stored ino s s' : one_record ino s s' -> fs_stored fs s -> fs_stored fs s'.
Proof using Htab.
  intros Ho [S1 S2]. split.
  - rewrite (or_blocks _ _ _ Ho); [done|]. intros i g md Hl Hb. by destruct (to_other fs Htab i i g md g md _ Hl Hl Hb).
  - intros i g md Hl. eapply group_stored_on; [|by apply (S2 i)]. intros b Hb. apply (or_blocks _ _ _ Ho). intros j g2 md2 Hl2 Ht.
    destruct (to_other fs Htab j i g2 md2 g md b Hl2 Hl Ht) as (_ & ? & ? & ?). by destruct Hb as [|[|]].
Qed.
End Records.
