(* ===== verification/Orphan.v ===== *)
(** * The orphan list

    Models the orphan machinery of [fs.rs]: linking an inode onto the list,
    unlinking it, and the mount-time walk of the list on the volume.  The
    list on the volume is a chain through the [i_dtime] fields that starts in
    the superblock; the chain in memory mirrors it.  [orphans_ok] says that
    the two agree.  It holds between the operations, so a crash at any such
    point leaves a chain that the walk reads back exactly. *)

From S2P Require Import Prelude Pod Checksum JournalFormat Device Bitmap SuperBlock GroupDesc JournalState MetaStore BlockGroup Alloc.
From S2P Require Import ExtentNode InodeRecord OrphanChain InodeTable.

(** ** The code *)

Definition set_chain (fs : Ext4) (chain : list Z) : Ext4 :=
  Build_Ext4 (super_block fs) (sb_dirty fs) (block_groups fs) (fs_nr_inodes_per_group fs) (fs_total_inodes fs) chain.

Record OrphanScan : Type := {
  scan_chain : list Z;
  to_free : list Z;
  to_retruncate : list Z;
  suspect : bool;
}.

Section Operations.
Context {S : Type} `{MetaStore S}.

(** The capture of a new head, and its publication in memory. *)
Definition move_head (head : option Z) : M fstate unit :=
  journal_capture head;;
  fs ← ext4;
  set_ext4 (set_super fs (set_last_orphan (super_block fs) head)).

(** [Ext4::orphan_add]; the result is the [OrphanLink]. *)
Definition orphan_add (ino : Z) : M fstate (option Z) :=
  fs ← ext4;
  match successor_of (orphan_chain fs) ino with
  | Some next => mret next
  | None =>
      let old_head := sb_last_orphan (super_block fs) in
      move_head (Some ino);;
      fs ← ext4;
      set_ext4 (set_chain fs (push_head (orphan_chain fs) ino));;
      mret old_head
  end.

(** [Ext4::orphan_add_if_absent] *)
Definition orphan_add_if_absent (ino : Z) : M fstate unit :=
  fs ← ext4;
  match successor_of (orphan_chain fs) ino with
  | Some _ => mret tt
  | None => _ ← orphan_add ino; mret tt
  end.

(** [Ext4::patch_orphan_next_on_disk] *)
Definition patch_orphan_next_on_disk (ino : Z) (next : option Z) : M fstate unit :=
  fs ← ext4;
  slot ← lift (inode_slot fs ino);
  journal_patch_dtime slot (default 0 next) ino (inode_csum fs).

(** [Ext4::orphan_del] *)
Definition orphan_del (ino : Z) : M fstate unit :=
  fs ← ext4;
  match splice_for (orphan_chain fs) ino with
  | None => mret tt
  | Some splice =>
      match splice with
      | Head successor => move_head successor
      | Middle predecessor successor => patch_orphan_next_on_disk predecessor successor
      end;;
      fs ← ext4;
      set_ext4 (set_chain fs (commit_remove (orphan_chain fs) ino))
  end.

(** [Ext4::clear_orphan_head], once its handle is open. *)
Definition clear_orphan_head : M fstate unit :=
  move_head None;;
  fs ← ext4;
  set_ext4 (set_chain fs []).

(** [InodeInner::persist_as_orphan], on the descriptor and the root of an
    inode; the descriptor it stores is the new one. *)
Definition persist_as_orphan (ino : Z) (desc : InodeDesc) (root : list byte) (link : option Z) : M fstate unit :=
  write_back_inode_desc ino (set_orphan_next desc link) root.

(** The loop of [Ext4::walk_orphan_chain]. *)
Fixpoint walk_from (fuel : nat) (fs : Ext4) (s : S) (cursor : option Z) (scan : OrphanScan) : result OrphanScan :=
  let stop := Ok {| scan_chain := scan_chain scan; to_free := to_free scan; to_retruncate := to_retruncate scan; suspect := true |} in
  match fuel, cursor with
  | _, None => Ok scan
  | O, Some _ => Err DIVERGE
  | Datatypes.S fuel, Some cur =>
      let sb := super_block fs in
      let in_range := (sb_first_ino sb <=? cur) && (cur <=? sb_inodes_count sb) in
      if negb in_range || bool_decide (cur ∈ scan_chain scan) then stop
      else
        let? allocated := fs_is_inode_allocated fs cur in
        if negb allocated then stop
        else
          match read_raw_inode fs s cur with
          | Err e => if handled e then stop else Err e
          | Ok raw =>
              let dead := ri_link_count raw =? 0 in
              walk_from fuel fs s (if negb (ri_dtime raw =? 0) then Some (ri_dtime raw) else None)
                {| scan_chain := scan_chain scan ++ [cur];
                   to_free := if dead then to_free scan ++ [cur] else to_free scan;
                   to_retruncate := if dead then to_retruncate scan else to_retruncate scan ++ [cur];
                   suspect := suspect scan |}
          end
  end.

(** [Ext4::walk_orphan_chain]: no inode is visited twice, so the number of
    inodes bounds the rounds. *)
Definition walk_orphan_chain (fs : Ext4) (s : S) : result OrphanScan :=
  walk_from (Z.to_nat (sb_inodes_count (super_block fs)) + 1) fs s (sb_last_orphan (super_block fs))
    {| scan_chain := []; to_free := []; to_retruncate := []; suspect := false |}.
End Operations.

(** ** The chain on the volume *)

Section Chain.
Context {S : Type} `{MetaStoreOk S}.
Implicit Types s : S.

(** Every member of [chain] but [but] records its successor. *)
Definition links_stored (fs : Ext4) (s : S) (chain : list Z) (but : option Z) : Prop :=
  forall ino next, but <> Some ino -> successor_of chain ino = Some next ->
    exists raw, read_raw_inode fs s ino = Ok raw /\ ri_dtime raw = default 0 next.

Record orphans_but (fs : Ext4) (s : S) (but : option Z) : Prop := {
  oo_head : sb_last_orphan (super_block fs) = hd_error (orphan_chain fs);
  oo_distinct : NoDup (orphan_chain fs);
  oo_valid : chain_valid fs;
  oo_links : links_stored fs s (orphan_chain fs) but;
}.
Definition orphans_ok (fs : Ext4) (s : S) : Prop := orphans_but fs s None.

(** What the operations of the list rely on. *)
Record volume (fs : Ext4) (s : S) : Prop := {
  vo_fs : fs_ok fs;
  vo_tables : tables_ok fs;
  vo_stored : fs_stored fs s;
  vo_store : ms_ok s;
  vo_csum : csum_fits fs;
}.

(** ** Lemmas: the head *)

Lemma journal_capture_err fs s h e fs' s' : ms_ok s -> sb_ok (super_block fs) -> (forall ino, h = Some ino -> ino <> 0 /\ fits 32 ino) ->
  journal_capture h (fs, s) = (Err e, (fs', s')) -> fs' = fs /\ ms_ok s' /\ handled e = true /\ (forall c, pinned s' c <-> pinned s c) /\ forall c, ms_read s' c = ms_read s c.
Proof.
  intros Hok Hs Hh. unfold journal_capture. frun. destruct (ms_write SUPERBLOCK_BID s) as [[a|e1] s1] eqn:E1;
    destruct (ms_write_spec _ _ _ _ Hok E1) as (Hok1 & Hrd1 & _ & Hp1 & Hr1); frun.
  - destruct (ms_patch_spec s1 a SUPERBLOCK_BID (capture_patch (super_block fs) h) Hok1 Hr1) as (img & s2 & _ & -> & _); [|done].
    intros img. by apply capture_patch_block.
  - intros [= <- <- <-]. done.
Qed.

Lemma fs_ok_head fs h : fs_ok fs -> (forall ino, h = Some ino -> valid_ino fs ino) ->
  fs_ok (set_super fs (set_last_orphan (super_block fs) h)).
Proof.
  intros Hf Hh. destruct Hf. split; try done. destruct fo_sb. split; try done.
  intros ino E. cbn in E. destruct (Hh ino E) as [? ?]. cbn in *. unfold fits in *. rewrite fo_total in *. lia.
Qed.

Lemma fs_ok_chain fs chain : fs_ok fs -> fs_ok (set_chain fs chain).
Proof. by intros []. Qed.

Lemma tables_ok_groups fs fs' : block_groups fs' = block_groups fs -> tables_ok fs -> tables_ok fs'.
Proof. intros E []. split; by rewrite E. Qed.

(** Reads of the records see neither the head nor the chain in memory. *)
Lemma table_not_super fs ino i g md slot : tables_ok fs -> placed fs ino i g md slot -> slot_bid slot <> SUPERBLOCK_BID.
Proof. intros Ht P. by apply (to_other fs Ht i i g md g md _ (pl_group _ _ _ _ _ _ P) (pl_group _ _ _ _ _ _ P) (pl_table _ _ _ _ _ _ P)). Qed.

Lemma read_raw_super fs s s' ino : fs_ok fs -> tables_ok fs -> ms_ok s -> ms_ok s' -> (forall c, c <> SUPERBLOCK_BID -> ms_read s' c = ms_read s c) ->
  valid_ino fs ino -> read_raw_inode fs s' ino = read_raw_inode fs s ino.
Proof.
  intros Hf Ht Hok Hok' Hr V. destruct (placed_exists fs ino Hf Ht V) as (i & g & md & slot & P).
  rewrite (read_raw_placed fs s' ino i g md slot Hok' P), (read_raw_placed fs s ino i g md slot Hok P). rewrite Hr; [done|]. by eapply table_not_super.
Qed.

(** The head moves: in memory, and in the superblock on the volume. *)
Lemma move_head_spec fs s h : volume fs s -> (forall ino, h = Some ino -> valid_ino fs ino) ->
  exists r fs' s', move_head h (fs, s) = (r, (fs', s')) /\ (forall c, c <> SUPERBLOCK_BID -> ms_read s' c = ms_read s c) /\
    (forall ino, valid_ino fs ino -> read_raw_inode fs s' ino = read_raw_inode fs s ino) /\
    match r with
    | Ok _ => fs' = set_super fs (set_last_orphan (super_block fs) h) /\ volume fs' s'
    | Err e => handled e = true /\ fs' = fs /\ volume fs s'
    end.
Proof.
  intros [Vf Vt Vs Vk Vc] Hh. pose proof (fo_sb fs Vf) as Hs. pose proof (fs_ok_head fs h Vf Hh) as Hf'.
  assert (Hh' : forall ino, h = Some ino -> ino <> 0 /\ fits 32 ino) by (by apply (so_orphan _ (fo_sb _ Hf'))).
  destruct (fst_super _ _ Vs) as (buf & Rb & Pb).
  destruct (journal_capture_spec fs s h buf (super_block fs) Vk Hs Rb Pb) as (r & s' & E & Hok' & Hp & Ho & Hr); try done.
  { exists (sb_free_blocks_count (super_block fs)), (sb_free_inodes_count (super_block fs)), (sb_feature_incompat (super_block fs)), (sb_last_orphan (super_block fs)).
    split; [apply sb_set_self|]. pose proof (so_free_blocks _ Hs). pose proof (so_free_inodes _ Hs). pose proof (so_incompat _ Hs) as [? ?]. split_and!; done || lia. }
  unfold move_head. rewrite bind_eq, E. destruct r as [u|e]; frun.
  - eexists _, _, s'. split; [done|]. split; [done|]. split; [intros ino V; by apply (read_raw_super fs)|]. split; [done|]. split; [done|by apply (tables_ok_groups fs)| |done|done].
    split; [exact Hr|]. intros i g md Hl. eapply group_stored_on; [|by apply (fst_group _ _ Vs i)]. intros b Hb. apply Ho. by apply (fo_super fs Vf i g md).
  - destruct (journal_capture_err fs s h e fs s' Vk Hs Hh' E) as (_ & _ & He & _ & Hrd). exists (Err e), fs, s'. split; [done|]. split; [done|].
    split; [intros ino V; by apply (read_raw_super fs)|]. split; [done|]. split; [done|]. split; try done. split.
    + exists buf. by rewrite Hrd.
    + intros i g md Hl. eapply group_stored_on; [|by apply (fst_group _ _ Vs i)]. intros b Hb. apply Hrd.
Qed.

(** ** Lemmas: the list *)

Lemma volume_chain fs s chain : volume fs s -> volume (set_chain fs chain) s.
Proof. intros [Vf Vt Vs Vk Vc]. split; [by apply fs_ok_chain|by apply (tables_ok_groups fs)|by destruct Vs|done|done]. Qed.

Lemma links_same fs s fs' s' chain but : Forall (valid_ino fs) chain ->
  (forall ino, valid_ino fs ino -> read_raw_inode fs' s' ino = read_raw_inode fs s ino) -> links_stored fs s chain but -> links_stored fs' s' chain but.
Proof.
  intros Hv Hr Hl ino next Hb Hs. rewrite Hr; [by apply Hl|]. rewrite Forall_forall in Hv. apply Hv.
  destruct (decide (ino ∈ chain)); [done|]. rewrite (proj2 (successor_of_None _ _)) in Hs; done.
Qed.

Lemma orphan_add_spec fs s ino : volume fs s -> orphans_ok fs s -> valid_ino fs ino ->
  exists r fs' s', orphan_add ino (fs, s) = (r, (fs', s')) /\ (forall c, c <> SUPERBLOCK_BID -> ms_read s' c = ms_read s c) /\
    (forall ino', valid_ino fs ino' -> read_raw_inode fs s' ino' = read_raw_inode fs s ino') /\
    match r with
    | Ok link =>
        if decide (ino ∈ orphan_chain fs) then fs' = fs /\ s' = s /\ successor_of (orphan_chain fs) ino = Some link
        else fs' = set_chain (set_super fs (set_last_orphan (super_block fs) (Some ino))) (ino :: orphan_chain fs) /\
          link = hd_error (orphan_chain fs) /\ volume fs' s' /\ orphans_but fs' s' (Some ino)
    | Err e => handled e = true /\ fs' = fs /\ volume fs s' /\ orphans_ok fs s'
    end.
Proof.
  intros V [Oh Od Ov Ol] Hi. unfold orphan_add. frun. destruct (successor_of (orphan_chain fs) ino) as [next|] eqn:Es.
  { frun. exists (Ok next), fs, s. split_and!; try done. rewrite decide_True; [done|].
    destruct (decide (ino ∈ orphan_chain fs)) as [|Hn]; [done|]. by rewrite (proj2 (successor_of_None _ _) Hn) in Es. }
  apply successor_of_None in Es. rewrite bind_eq.
  destruct (move_head_spec fs s (Some ino) V) as (r & fs1 & s1 & -> & Hc & Hr & Hm); [by intros ? [= <-]|]. destruct r as [u|e]; frun.
  - destruct Hm as [-> Vm]. eexists _, _, s1. split; [done|]. split; [done|]. split; [done|]. rewrite decide_False by done. split; [done|]. split; [done|].
    split; [by apply volume_chain|]. split; [done|by constructor|by constructor|].
    intros i next Hb Hs. change (successor_of (ino :: orphan_chain fs) i = Some next) in Hs. rewrite successor_of_cons in Hs.
    rewrite (proj2 (Z.eqb_neq ino i)) in Hs by congruence.
    destruct (links_same fs s fs s1 (orphan_chain fs) None Ov Hr Ol i next) as (raw & ? & ?); [done|done|]. by exists raw.
  - destruct Hm as (He & -> & Vm). exists (Err e), fs, s1. split_and!; try done. split; try done. by eapply links_same.
Qed.

(** A write-back of an inode keeps the chain, and repairs the one link that
    was missing. *)
Lemma stamp_dtime fs ino raw raw' : stamp_of fs ino raw raw' -> ri_dtime raw' = ri_dtime raw.
Proof. by intros (_ & _ & (lo & hi & ->) & _). Qed.

Lemma one_record_volume fs s s' ino : one_record fs ino s s' -> volume fs s -> volume fs s'.
Proof. intros Ho [Vf Vt Vs Vk Vc]. split; try done; [by eapply one_record_stored|apply Ho]. Qed.

Lemma listed_dtime fs ino d root next : successor_of (orphan_chain fs) ino = Some next -> ri_dtime (to_raw_inode (listed_desc fs ino d) root) = default 0 next.
Proof. intros E. rewrite <- listed_raw, E. done. Qed.

Lemma write_back_keeps fs s ino d root but : volume fs s -> orphans_but fs s but -> valid_ino fs ino -> desc_ok d -> zlen root = ROOT_SIZE ->
  exists r s', write_back_inode_desc ino d root (fs, s) = (r, (fs, s')) /\ record_written fs ino (listed_desc fs ino d) root r s s' /\ volume fs s' /\
    orphans_but fs s' (match r with Ok _ => if decide (but = Some ino) then None else but | Err _ => but end).
Proof.
  intros V [Oh Od Ov Ol] Hi Hd Hr. destruct (write_back_spec fs (vo_fs _ _ V) (vo_tables _ _ V) s ino d root (vo_store _ _ V) Hi (vo_csum _ _ V) Ov Hd Hr)
    as (r & s' & E & Hw). exists r, s'. split; [done|]. split; [done|]. destruct Hw as [Ho Hw]. split; [by eapply one_record_volume|].
  split; try done. intros i next Hb Hs. assert (Vi : valid_ino fs i).
  { unfold chain_valid in Ov. rewrite Forall_forall in Ov. apply Ov. destruct (decide (i ∈ orphan_chain fs)); [done|]. rewrite (proj2 (successor_of_None _ _)) in Hs; done. }
  destruct (decide (i = ino)) as [->|Hne].
  - destruct r as [u|e].
    + destruct Hw as (raw & Er & Hst). exists raw. split; [done|]. rewrite (stamp_dtime _ _ _ _ Hst). by apply listed_dtime.
    + destruct (Ol ino next Hb Hs) as (raw & Er & ?). exists raw. split; [|done]. rewrite <- Er. destruct Hw as [_ Hw].
      unfold read_raw_inode. destruct (inode_slot fs ino) as [slot|]; [|done]. cbn [rbind]. by rewrite Hw.
  - rewrite (or_others _ _ _ _ Ho) by done. apply Ol; [|done]. destruct r; [|done]. case_decide; [congruence|done].
Qed.

(** Unlinking: the rest of the chain is what it was. *)
Lemma read_raw_reads fs s s' ino : (forall c, ms_read s' c = ms_read s c) -> read_raw_inode fs s' ino = read_raw_inode fs s ino.
Proof. intros Hr. unfold read_raw_inode. destruct (inode_slot fs ino) as [slot|]; [|done]. cbn [rbind]. by rewrite Hr. Qed.

Lemma patch_next_spec fs s p next : volume fs s -> valid_ino fs p -> (forall n, next = Some n -> valid_ino fs n) ->
  exists r s', patch_orphan_next_on_disk p next (fs, s) = (r, (fs, s')) /\ volume fs s' /\
    (forall i, valid_ino fs i -> i <> p -> read_raw_inode fs s' i = read_raw_inode fs s i) /\
    match r with
    | Ok _ => exists old raw, read_raw_inode fs s p = Ok old /\ read_raw_inode fs s' p = Ok raw /\ stamp_of fs p (ri_with_dtime old (default 0 next)) raw
    | Err e => handled e = true /\ forall c, ms_read s' c = ms_read s c
    end.
Proof.
  intros V Vp Hn. destruct (placed_exists fs p (vo_fs _ _ V) (vo_tables _ _ V) Vp) as (i & g & md & slot & P).
  unfold patch_orphan_next_on_disk. frun. rewrite (pl_slot _ _ _ _ _ _ P). frun.
  destruct (patch_dtime_spec fs (vo_fs _ _ V) (vo_tables _ _ V) s p i g md slot (default 0 next) (vo_store _ _ V) Vp P (vo_csum _ _ V)) as (r & s' & E & Ho & Hr).
  { destruct next as [n|]; [|by unfold fits]. by apply (valid_ino_fits fs (vo_fs _ _ V)), Hn. }
  exists r, s'. split; [done|]. split; [by eapply one_record_volume|]. split; [apply Ho|done].
Qed.

Record unlinked (fs : Ext4) (s : S) (ino : Z) (fs' : Ext4) (s' : S) : Prop := {
  un_fs : exists h dirty, fs' = Build_Ext4 (set_last_orphan (super_block fs) h) dirty (block_groups fs) (fs_nr_inodes_per_group fs)
    (fs_total_inodes fs) (commit_remove (orphan_chain fs) ino);
  un_volume : volume fs' s';
  un_ok : orphans_ok fs' s';
  un_record i raw : valid_ino fs i -> read_raw_inode fs s i = Ok raw ->
    exists dt lo hi, read_raw_inode fs s' i = Ok (ri_with_csum (ri_with_dtime raw dt) lo hi);
}.

Lemma record_kept fs s s' i raw : read_raw_inode fs s i = Ok raw -> read_raw_inode fs s' i = read_raw_inode fs s i ->
  exists dt lo hi, read_raw_inode fs s' i = Ok (ri_with_csum (ri_with_dtime raw dt) lo hi).
Proof. intros E ->. exists (ri_dtime raw), (ri_checksum_lo raw), (ri_checksum_hi raw). rewrite E. by destruct raw. Qed.

Lemma unlink_head fs s ino r s' : volume fs s -> orphans_ok fs s -> orphan_chain fs = ino :: r -> commit_remove (orphan_chain fs) ino = r ->
  (forall i, valid_ino fs i -> read_raw_inode fs s' i = read_raw_inode fs s i) -> volume (set_super fs (set_last_orphan (super_block fs) (hd_error r))) s' ->
  unlinked fs s ino (set_chain (set_super fs (set_last_orphan (super_block fs) (hd_error r))) r) s'.
Proof.
  intros V [Oh Od Ov Ol] E Er Hr Vm. unfold chain_valid in Ov. rewrite E in Od, Ov. apply NoDup_cons in Od as [Hni Od]. apply Forall_cons in Ov as [_ Ov].
  split; [exists (hd_error r), true; by rewrite Er|by apply volume_chain| |].
  - split; try done. intros i next _ Hs. change (successor_of r i = Some next) in Hs. apply (links_same fs s fs s' r None Ov Hr); try done.
    intros i' next' _ Hs'. apply Ol; [done|]. rewrite E, successor_of_cons. destruct (Z.eqb_spec ino i') as [<-|]; [|done].
    by rewrite (proj2 (successor_of_None r ino) Hni) in Hs'.
  - intros i raw Vi Er'. apply (record_kept fs s); [done|by apply Hr].
Qed.

Lemma unlink_middle fs s ino l p r old raw s' : volume fs s -> orphans_ok fs s -> orphan_chain fs = l ++ p :: ino :: r ->
  commit_remove (orphan_chain fs) ino = l ++ p :: r -> volume fs s' ->
  (forall i, valid_ino fs i -> i <> p -> read_raw_inode fs s' i = read_raw_inode fs s i) ->
  read_raw_inode fs s p = Ok old -> read_raw_inode fs s' p = Ok raw -> stamp_of fs p (ri_with_dtime old (default 0 (hd_error r))) raw ->
  unlinked fs s ino (set_chain fs (l ++ p :: r)) s'.
Proof.
  intros V [Oh Od Ov Ol] E Er Vm Hr Eo Ep Hst. unfold chain_valid in Ov. rewrite Forall_forall in Ov.
  assert (Hsub : forall i, i ∈ l ++ p :: r -> i ∈ orphan_chain fs) by (rewrite E; set_solver).
  rewrite E in Od. pose proof Od as (Hnl & Hlp & Hpr)%NoDup_app. apply NoDup_cons in Hpr as [Hp (Hino & Hnd)%NoDup_cons].
  assert (Hd' : NoDup (l ++ p :: r)).
  { apply NoDup_app. split_and!; [done|intros x Hx Hx'; apply (Hlp x Hx); set_solver|]. apply NoDup_cons. split; [set_solver|done]. }
  split; [|by apply volume_chain| |].
  - exists (sb_last_orphan (super_block fs)), (sb_dirty fs). rewrite Er. unfold set_last_orphan. by rewrite <- sb_set_self.
  - split; [|exact Hd'|apply Forall_forall; intros i Hi; by apply Ov, Hsub|].
    { change (sb_last_orphan (super_block fs) = hd_error (l ++ p :: r)). rewrite Oh, E. by destruct l. }
    intros i next _ Hs. change (successor_of (l ++ p :: r) i = Some next) in Hs. change (read_raw_inode (set_chain fs (l ++ p :: r)) s' i) with (read_raw_inode fs s' i).
    assert (Hi : i ∈ l ++ p :: r) by (destruct (decide (i ∈ l ++ p :: r)); [done|]; by rewrite (proj2 (successor_of_None _ _)) in Hs).
    destruct (decide (i = p)) as [->|Hne].
    { rewrite successor_of_app in Hs by set_solver. injection Hs as <-. exists raw. split; [done|]. by rewrite (stamp_dtime _ _ _ _ Hst). }
    rewrite Hr by (done || by apply Ov, Hsub). apply Ol; [done|]. rewrite E. destruct (decide (i ∈ l)) as [Hil|Hil].
    + by rewrite (successor_of_prefix l p (ino :: r) r).
    + rewrite successor_of_skip in * by done. rewrite !successor_of_cons in *. rewrite (proj2 (Z.eqb_neq p i)) in * by done.
      rewrite (proj2 (Z.eqb_neq ino i)); [done|]. intros ->. apply Hino. set_solver.
  - intros i raw' Vi Er'. destruct (decide (i = p)) as [->|Hne]; [|by apply (record_kept fs s), Hr].
    rewrite Eo in Er'. injection Er' as <-. destruct Hst as (_ & _ & (lo & hi & ->) & _). by exists (default 0 (hd_error r)), lo, hi.
Qed.

Lemma orphan_del_spec fs s ino : volume fs s -> orphans_ok fs s ->
  exists r fs' s', orphan_del ino (fs, s) = (r, (fs', s')) /\
    match r with
    | Ok _ => unlinked fs s ino fs' s'
    | Err e => handled e = true /\ fs' = fs /\ volume fs s' /\ orphans_ok fs s'
    end.
Proof.
  intros V O. pose proof O as [Oh Od Ov Ol]. unfold orphan_del. frun. pose proof (remove_cases (orphan_chain fs) ino Od) as Hc.
  assert (Hv : forall i, i ∈ orphan_chain fs -> valid_ino fs i) by (by apply Forall_forall).
  destruct (splice_for (orphan_chain fs) ino) as [[succ|p succ]|] eqn:Es.
  - destruct Hc as (r & E & -> & Er). rewrite bind_eq.
    destruct (move_head_spec fs s (hd_error r) V) as ([u|e] & fs1 & s1 & -> & _ & Hr & Hm).
    { intros i Hi. apply Hv. rewrite E. destruct r; [done|]. injection Hi as ->. set_solver. }
    + destruct Hm as [-> Vm]. frun. eexists (Ok tt), _, s1. split; [done|]. change (orphan_chain (set_super _ _)) with (orphan_chain fs). rewrite Er. by apply unlink_head.
    + destruct Hm as (He & -> & Vm). exists (Err e), fs, s1. split_and!; try done. split; try done. by eapply links_same.
  - destruct Hc as (l & r & E & -> & Er). rewrite bind_eq.
    destruct (patch_next_spec fs s p (hd_error r) V) as ([u|e] & s1 & -> & Vm & Hr & Hm); [apply Hv; rewrite E; set_solver| | |].
    { intros n Hn. apply Hv. rewrite E. destruct r; [done|]. injection Hn as ->. set_solver. }
    + destruct Hm as (old & raw & Eo & Ep & Hst). frun. eexists (Ok tt), _, s1. split; [done|]. rewrite Er. by eapply unlink_middle.
    + destruct Hm as [He Hrd]. exists (Err e), fs, s1. split_and!; try done. split; try done. eapply links_same; [done| |exact Ol]. intros i _. by apply read_raw_reads.
  - destruct Hc as [Hn Er]. frun. exists (Ok tt), fs, s. split; [done|]. split; [|done|done|].
    + exists (sb_last_orphan (super_block fs)), (sb_dirty fs). rewrite Er. unfold set_last_orphan. rewrite <- sb_set_self. by destruct fs.
    + intros i raw Vi E. by apply (record_kept fs s).
Qed.

(** ** Lemmas: the walk *)

(** An inode with no name left. *)
Definition dead (fs : Ext4) (s : S) (ino : Z) : bool :=
  match read_raw_inode fs s ino with Ok raw => ri_link_count raw =? 0 | Err _ => false end.

(** A member of the list is allocated, and not one of the reserved inodes. *)
Definition scannable (fs : Ext4) (ino : Z) : Prop :=
  sb_first_ino (super_block fs) <= ino <= sb_inodes_count (super_block fs) /\ fs_is_inode_allocated fs ino = Ok true.

Definition scan_of (fs : Ext4) (s : S) (chain : list Z) (sus : bool) : OrphanScan :=
  {| scan_chain := chain; to_free := List.filter (dead fs s) chain; to_retruncate := List.filter (fun i => negb (dead fs s i)) chain; suspect := sus |}.

(** Distinct numbers of a range are at most as many as the range. *)
Lemma distinct_below l n : Forall (fun i => 1 <= i <= n) l -> NoDup l -> (length l <= Z.to_nat n)%nat.
Proof.
  intros Hr Hd. assert (Hs : l ⊆ seqZ 1 n).
  { intros i Hi. rewrite Forall_forall in Hr. apply elem_of_seqZ. specialize (Hr i Hi). lia. }
  pose proof (submseteq_length _ _ (NoDup_submseteq l (seqZ 1 n) Hd Hs)) as Hm. by rewrite length_seqZ in Hm.
Qed.

(** One round of the walk on a readable member. *)
Lemma walk_step fs s fuel cur chain raw : scannable fs cur -> cur ∉ chain -> read_raw_inode fs s cur = Ok raw ->
  walk_from (Datatypes.S fuel) fs s (Some cur) (scan_of fs s chain false) =
  walk_from fuel fs s (if negb (ri_dtime raw =? 0) then Some (ri_dtime raw) else None) (scan_of fs s (chain ++ [cur]) false).
Proof.
  intros [[R1 R2] Ha] Hn Er. cbn [walk_from scan_chain scan_of]. rewrite (proj2 (Z.leb_le _ _) R1), (proj2 (Z.leb_le _ _) R2).
  rewrite bool_decide_eq_false_2 by done. cbn [andb negb orb]. rewrite Ha. cbn [rbind negb]. rewrite Er.
  f_equal. unfold scan_of. cbn [scan_chain to_free to_retruncate suspect]. rewrite !List.filter_app. cbn [List.filter].
  assert (dead fs s cur = (ri_link_count raw =? 0)) as -> by (unfold dead; by rewrite Er).
  by destruct (ri_link_count raw =? 0); cbn [negb]; rewrite ?app_nil_r.
Qed.

Lemma walk_exact fs s : fs_ok fs -> orphans_ok fs s -> Forall (scannable fs) (orphan_chain fs) ->
  walk_orphan_chain fs s = Ok (scan_of fs s (orphan_chain fs) false).
Proof.
  intros Hf [Oh Od Ov Ol] Hsc. unfold walk_orphan_chain. rewrite Oh.
  assert (Hlen : (length (orphan_chain fs) <= Z.to_nat (sb_inodes_count (super_block fs)))%nat).
  { apply distinct_below; [|done]. eapply Forall_impl; [exact Ov|]. intros i [? ?]. rewrite (fo_total fs Hf) in *. lia. }
  change {| scan_chain := []; to_free := []; to_retruncate := []; suspect := false |} with (scan_of fs s [] false).
  assert (G : forall rest dn fuel, orphan_chain fs = dn ++ rest -> (length rest <= fuel)%nat ->
    walk_from fuel fs s (hd_error rest) (scan_of fs s dn false) = Ok (scan_of fs s (orphan_chain fs) false)).
  { induction rest as [|cur rest IH]; intros dn fuel E Hfu; [rewrite E, app_nil_r; by destruct fuel|].
    destruct fuel as [|fuel]; [cbn in Hfu; lia|]. rewrite E in Od, Hsc. apply Forall_app in Hsc as [_ (Hc & _)%Forall_cons].
    apply NoDup_app in Od as (_ & Hdn & _).
    destruct (Ol cur (hd_error rest)) as (raw & Er & Ed); [done|rewrite E; apply successor_of_app; intros Hi; apply (Hdn cur Hi); set_solver|].
    cbn [hd_error]. rewrite (walk_step fs s fuel cur dn raw Hc); [|intros Hi; apply (Hdn cur Hi); set_solver|done].
    rewrite <- (IH (dn ++ [cur]) fuel); [|by rewrite <- app_assoc|cbn in Hfu; lia]. f_equal. rewrite Ed.
    destruct rest as [|n rest]; [done|]. cbn. unfold chain_valid in Ov. rewrite Forall_forall in Ov. destruct (Ov n) as [Hn _]; [rewrite E; set_solver|].
    by rewrite (proj2 (Z.eqb_neq n 0)) by lia. }
  apply (G (orphan_chain fs) []); [done|lia].
Qed.

(** The walk ends whatever the volume holds, and what it lists is safe to act
    on: distinct allocated inodes, of which those to free have no name. *)
Record scan_safe (fs : Ext4) (s : S) (scan : OrphanScan) : Prop := {
  sf_shape : scan = scan_of fs s (scan_chain scan) (suspect scan);
  sf_distinct : NoDup (scan_chain scan);
  sf_members : Forall (scannable fs) (scan_chain scan);
  sf_valid : Forall (valid_ino fs) (scan_chain scan);
}.

Lemma allocated_total fs ino : fs_ok fs -> tables_ok fs -> valid_ino fs ino -> exists b, fs_is_inode_allocated fs ino = Ok b.
Proof.
  intros Hf Ht Hv. destruct (placed_exists fs ino Hf Ht Hv) as (i & g & md & slot & P). unfold fs_is_inode_allocated. rewrite (pl_find _ _ _ _ _ _ P), Nat2Z.id, (pl_group _ _ _ _ _ _ P).
  unfold is_inode_allocated, is_allocated, inode_idx_in_group. rewrite (go_inodes_len g md (fo_group fs Hf i g md (pl_group _ _ _ _ _ _ P))).
  pose proof (fo_geometry fs Hf i g md (pl_group _ _ _ _ _ _ P)) as Eg. pose proof (so_ipg _ (fo_sb fs Hf)) as Hp.
  assert (bg_ipg g = sb_nr_inodes_per_group (super_block fs)) as -> by (by rewrite Eg).
  pose proof (Z.mod_pos_bound (ino - 1) (sb_nr_inodes_per_group (super_block fs)) ltac:(lia)).
  unfold u16. rewrite wrap_small by (unfold fits; lia). rewrite (proj2 (Z.ltb_lt _ _)) by lia. by eexists.
Qed.

Lemma walk_from_safe fs s : fs_ok fs -> tables_ok fs -> ms_ok s ->
  forall fuel cursor scan, (forall c, cursor = Some c -> 1 <= c) -> scan_safe fs s scan -> suspect scan = false ->
  (Z.to_nat (sb_inodes_count (super_block fs)) < fuel + length (scan_chain scan))%nat ->
  match walk_from fuel fs s cursor scan with
  | Ok scan' => scan_safe fs s scan'
  | Err e => handled e = false /\ exists ino, read_raw_inode fs s ino = Err e
  end.
Proof.
  intros Hf Ht Hok. induction fuel as [|fuel IH]; intros [cur|] scan Hc Hs Hsus Hfu; try done.
  - exfalso. destruct Hs as [_ S2 S3 S4]. assert (length (scan_chain scan) <= Z.to_nat (sb_inodes_count (super_block fs)))%nat; [|lia].
    apply distinct_below; [|done]. eapply Forall_impl; [exact S4|]. intros i [? ?]. rewrite (fo_total fs Hf) in *. lia.
  - pose proof Hs as [S1 S2 S3 S4]. rewrite Hsus in S1.
    assert (Hstop : scan_safe fs s {| scan_chain := scan_chain scan; to_free := to_free scan; to_retruncate := to_retruncate scan; suspect := true |}).
    { split; cbn [scan_chain suspect]; try done. rewrite S1. done. }
    destruct (negb ((sb_first_ino (super_block fs) <=? cur) && (cur <=? sb_inodes_count (super_block fs))) || bool_decide (cur ∈ scan_chain scan)) eqn:E.
    { cbn [walk_from]. by rewrite E. }
    pose proof E as [E1%negb_false_iff E2%bool_decide_eq_false_1]%orb_false_iff. apply andb_prop in E1 as [L1%Z.leb_le L2%Z.leb_le]. specialize (Hc cur eq_refl).
    assert (Hv : valid_ino fs cur) by (split; [done|by rewrite (fo_total fs Hf)]).
    destruct (allocated_total fs cur Hf Ht Hv) as [[] Ea]; [|cbn [walk_from]; rewrite E, Ea; exact Hstop].
    destruct (read_raw_inode fs s cur) as [raw|e] eqn:Er.
    2: { cbn [walk_from]. rewrite E, Ea. cbn [rbind negb]. rewrite Er. destruct (handled e) eqn:He; [exact Hstop|]. split; [done|by exists cur]. }
    rewrite S1, (walk_step fs s fuel cur (scan_chain scan) raw) by done. apply IH; cbn [scan_chain scan_of suspect]; [| |done|rewrite length_app; cbn; lia].
    + pose proof (read_raw_wf fs Hf Ht s cur raw Hok Hv Er) as W. assert (fits 32 (ri_dtime raw)) as Hd by (cbn -[fits zlen] in W; tauto).
      intros c. destruct (Z.eqb_spec (ri_dtime raw) 0); cbn [negb]; [done|]. intros [= <-]. unfold fits in Hd. lia.
    + split; cbn [scan_chain scan_of suspect]; [done| | |]; [apply NoDup_app; split_and!; [done|set_solver|apply NoDup_singleton]|by apply Forall_app_2; [|apply Forall_singleton]..].
Qed.

Lemma walk_safe fs s : fs_ok fs -> tables_ok fs -> ms_ok s ->
  match walk_orphan_chain fs s with
  | Ok scan => scan_safe fs s scan
  | Err e => handled e = false /\ exists ino, read_raw_inode fs s ino = Err e
  end.
Proof.
  intros Hf Ht Hok. apply walk_from_safe; try done; [| |cbn; lia].
  - intros c Ec. destruct (so_orphan _ (fo_sb fs Hf) c Ec) as [? Hc]. unfold fits in Hc. lia.
  - split; [done|constructor|constructor|constructor].
Qed.

(** A mount starts with no chain in memory; the walk does not look at it. *)
Lemma walk_from_chain fs s chain : forall fuel cursor scan, walk_from fuel (set_chain fs chain) s cursor scan = walk_from fuel fs s cursor scan.
Proof.
  induction fuel as [|fuel IH]; intros [cur|] scan; try done. cbn [walk_from]. change (super_block (set_chain fs chain)) with (super_block fs).
  change (fs_is_inode_allocated (set_chain fs chain) cur) with (fs_is_inode_allocated fs cur). change (read_raw_inode (set_chain fs chain) s cur) with (read_raw_inode fs s cur).
  destruct (negb _ || _); [done|]. destruct (fs_is_inode_allocated fs cur) as [[]|]; [cbn [rbind negb]|done|done].
  destruct (read_raw_inode fs s cur); [apply IH|done].
Qed.

Lemma walk_chain fs s chain : walk_orphan_chain (set_chain fs chain) s = walk_orphan_chain fs s.
Proof. apply walk_from_chain. Qed.
End Chain.
