(* ===== verification/InodeTheorems.v ===== *)
(** * What the inode records and the orphan list guarantee

    The properties of [InodeRecord], [InodeTable] and [Orphan], each with a
    witness on a small volume: an inode reads back as it was written, a
    write-back changes one record, and the orphan list on the volume refines
    the list in memory, so that the walk after a crash finds every inode
    whose deletion or truncation was not finished. *)

From S2P Require Import Prelude Pod Checksum JournalFormat Device Bitmap SuperBlock GroupDesc JournalState MetaStore BlockGroup Alloc AllocSpec.
From S2P Require Import ExtentNode InodeRecord OrphanChain InodeTable Orphan.

(** ** Runs of the orphan list *)

(** What the namespace and truncation code does with the list: link an inode
    and store it, unlink one, or store any inode. *)
Inductive orphan_step : Type :=
  | Link (ino : Z) (desc : InodeDesc) (root : list byte)
  | Unlink (ino : Z)
  | Store (ino : Z) (desc : InodeDesc) (root : list byte).

(** The list the operations stand for. *)
Definition list_step (l : list Z) (q : orphan_step) : list Z :=
  match q with
  | Link ino _ _ => if decide (ino ∈ l) then l else ino :: l
  | Unlink ino => filter (fun i => i <> ino) l
  | Store _ _ _ => l
  end.

Definition step_fits (fs : Ext4) (q : orphan_step) : Prop :=
  match q with
  | Link ino d root | Store ino d root => valid_ino fs ino /\ desc_ok d /\ zlen root = ROOT_SIZE
  | Unlink _ => True
  end.

Section Runs.
Context {S : Type} `{MetaStoreOk S}.
Implicit Types s : S.

Definition orphan_run (q : orphan_step) : M fstate unit :=
  match q with
  | Link ino d root => link ← orphan_add ino; persist_as_orphan ino d root link
  | Unlink ino => orphan_del ino
  | Store ino d root => write_back_inode_desc ino d root
  end.

Fixpoint orphan_runs (qs : list orphan_step) : M fstate unit :=
  match qs with
  | [] => mret tt
  | q :: qs => orphan_run q;; orphan_runs qs
  end.

(** Nothing but the head, the chain and the dirty mark moves in memory. *)
Definition same_groups (fs fs' : Ext4) : Prop := block_groups fs' = block_groups fs /\ fs_total_inodes fs' = fs_total_inodes fs.

Record list_state (fs0 : Ext4) (l : list Z) (fs : Ext4) (s : S) : Prop := {
  ls_volume : volume fs s;
  ls_ok : orphans_ok fs s;
  ls_chain : orphan_chain fs = l;
  ls_groups : same_groups fs0 fs;
}.

Lemma remove_filter l ino : NoDup l -> commit_remove l ino = filter (fun i => i <> ino) l.
Proof.
  intros Hd. assert (Hf : forall k : list Z, ino ∉ k -> filter (fun i => i <> ino) k = k).
  { induction k as [|x k IH]; intros Hn; [done|]. rewrite not_elem_of_cons in Hn. rewrite filter_cons_True by (intros ->; tauto). f_equal. apply IH. tauto. }
  pose proof (remove_cases l ino Hd) as Hc. destruct (splice_for l ino) as [[succ|p succ]|].
  - destruct Hc as (r & -> & _ & ->). apply NoDup_cons in Hd as [Hn _]. rewrite filter_cons_False by tauto. by rewrite Hf.
  - destruct Hc as (k & r & -> & _ & ->). apply NoDup_app in Hd as (_ & Hk & (Hp & (Hn & _)%NoDup_cons)%NoDup_cons).
    rewrite filter_app, filter_cons_True, filter_cons_False by (try set_solver; tauto). rewrite !Hf; [done|done|]. intros Hi. apply (Hk ino Hi). set_solver.
  - destruct Hc as [Hn ->]. by rewrite Hf.
Qed.

Lemma valid_same fs fs' ino : same_groups fs fs' -> valid_ino fs' ino <-> valid_ino fs ino.
Proof. intros [_ E]. unfold valid_ino. by rewrite E. Qed.

Lemma link_desc_ok fs d link : fs_ok fs -> desc_ok d -> (forall n, link = Some n -> valid_ino fs n) -> desc_ok (set_orphan_next d link).
Proof. intros Hf Hd Hl. destruct Hd. split; try done. destruct link as [n|]; cbn; [|by unfold fits]. by apply (valid_ino_fits fs Hf), Hl. Qed.

(** The write-back that follows a link, or stands alone. *)
Lemma store_step fs0 fs s ino d root but : volume fs s -> orphans_but fs s but -> but = None \/ but = Some ino -> same_groups fs0 fs ->
  valid_ino fs ino -> desc_ok d -> zlen root = ROOT_SIZE ->
  exists r s', write_back_inode_desc ino d root (fs, s) = (r, (fs, s')) /\
    match r with Ok _ => list_state fs0 (orphan_chain fs) fs s' | Err e => handled e = true end.
Proof.
  intros V O Hb G Hv Hd Hr. destruct (write_back_keeps fs s ino d root but V O Hv Hd Hr) as (r & s' & E & [_ Hw] & Vw & Ow).
  exists r, s'. split; [done|]. destruct r as [u|e]; [|apply Hw]. split; try done.
  destruct Hb as [-> | ->]; [by rewrite decide_False in Ow|by rewrite decide_True in Ow].
Qed.

Lemma orphan_run_spec fs0 l fs s q : list_state fs0 l fs s -> step_fits fs0 q ->
  exists r fs' s', orphan_run q (fs, s) = (r, (fs', s')) /\
    match r with Ok _ => list_state fs0 (list_step l q) fs' s' | Err e => handled e = true end.
Proof.
  intros [V O E G] Hq. pose proof (oo_valid _ _ _ O) as Ov. unfold chain_valid in Ov. rewrite Forall_forall in Ov. rewrite E in Ov.
  destruct q as [ino d root|ino|ino d root]; cbn [orphan_run list_step step_fits] in *.
  - destruct Hq as (Hv & Hd & Hr). rewrite <- (valid_same _ _ _ G) in Hv. rewrite bind_eq.
    destruct (orphan_add_spec fs s ino V O Hv) as ([link|e] & fs1 & s1 & -> & _ & _ & Ha); frun.
    2: { exists (Err e), fs1, s1. by destruct Ha. }
    rewrite E in Ha. unfold persist_as_orphan. case_decide as Hi.
    + destruct Ha as (-> & -> & Hs). destruct (store_step fs0 fs s ino (set_orphan_next d link) root None V O (or_introl eq_refl) G Hv) as (r & s' & Ew & Hw); [|done|].
      { apply (link_desc_ok fs); [apply V|done|]. intros n ->. apply Ov. by eapply successor_in. }
      exists r, fs, s'. split; [done|]. destruct r; [|done]. by rewrite E in Hw.
    + destruct Ha as (-> & -> & Vm & Om). eassert (Hs : _). { eapply (store_step fs0 _ s1 ino (set_orphan_next d (hd_error l)) root (Some ino) Vm Om); [by right|done|done| |exact Hr].
        eapply link_desc_ok; [apply V|done|]. intros n Hn. apply Ov. destruct l; [done|]. injection Hn as ->. left. }
      destruct Hs as (r & s' & Ew & Hw). eexists r, _, s'. split; [exact Ew|]. destruct r; [|done]. exact Hw.
  - destruct (orphan_del_spec fs s ino V O) as ([u|e] & fs1 & s1 & -> & Hu); eexists _, fs1, s1; (split; [done|]); [|by destruct Hu].
    destruct Hu as [(h & dirty & ->) U2 U3 _]. split; [done|done|cbn [orphan_chain]; rewrite E; apply remove_filter; rewrite <- E; apply O|done].
  - destruct Hq as (Hv & Hd & Hr). rewrite <- (valid_same _ _ _ G) in Hv.
    destruct (store_step fs0 fs s ino d root None V O (or_introl eq_refl) G Hv Hd Hr) as (r & s' & -> & Hw). exists r, fs, s'. split; [done|]. destruct r; [|done]. by rewrite E in Hw.
Qed.

Lemma orphan_runs_spec fs0 qs : Forall (step_fits fs0) qs -> forall l fs s, list_state fs0 l fs s ->
  exists r fs' s', orphan_runs qs (fs, s) = (r, (fs', s')) /\
    match r with Ok _ => list_state fs0 (fold_left list_step qs l) fs' s' | Err e => handled e = true end.
Proof.
  induction 1 as [|q qs Hq _ IH]; intros l fs s Hl; cbn [orphan_runs fold_left].
  - exists (Ok tt), fs, s. by frun.
  - rewrite bind_eq. destruct (orphan_run_spec fs0 l fs s q Hl Hq) as ([u|e] & fs1 & s1 & -> & H1); cbn [fst snd]; [by apply IH|]. by exists (Err e), fs1, s1.
Qed.

(** ** Theorems *)

(** C27: A run of the operations on the orphan list (linking an inode and storing
    it, unlinking one, storing any inode) refines the same run on a plain list:
    the chain in memory is that list, every member's record on the volume names
    its successor, the superblock names the head, and the walk of the next
    mount, which starts from the volume alone, returns exactly the list, split
    by link count into the inodes to free and those to truncate again.  The only
    other outcome is an error the callers handle. *)
Theorem orphan_list_refines fs s qs r fs' s' :
  volume fs s -> orphans_ok fs s -> Forall (step_fits fs) qs -> orphan_runs qs (fs, s) = (r, (fs', s')) ->
  match r with
  | Ok _ => orphan_chain fs' = fold_left list_step qs (orphan_chain fs) /\ orphans_ok fs' s' /\ volume fs' s' /\
      (Forall (scannable fs') (orphan_chain fs') ->
       walk_orphan_chain (set_chain fs' []) s' = Ok (scan_of fs' s' (orphan_chain fs') false))
  | Err e => handled e = true
  end.
Proof.
  intros V O Hq E. destruct (orphan_runs_spec fs qs Hq (orphan_chain fs) fs s) as (r1 & fs1 & s1 & E1 & H1); [by split|].
  rewrite E in E1. injection E1 as <- <- <-. destruct r as [u|e]; [|done]. destruct H1 as [V1 O1 C1 _]. split_and!; try done.
  intros Hs. rewrite walk_chain. apply walk_exact; [apply V1|done|done].
Qed.




(** C31: A timestamp survives the disk format exactly when it lies below 2^34
    seconds and bit 31 of its seconds is clear: the encoder stores the epoch of
    the unsigned seconds, and the decoder reads the seconds as signed. *)
Theorem time_roundtrip t : duration_ok t ->
  uncurry decode_time (encode_time t) = t <-> d_secs t < 2 ^ 34 /\ d_secs t mod 2 ^ 32 < 2 ^ 31.
Proof. intros Hok. rewrite (time_kept_iff t Hok). unfold time_kept. tauto. Qed.

End Runs.

(** ** Witnesses *)

Module SampleInodes.
(** The sample volume with its inode tables. *)
Definition disk : gmap Z (list byte) := <[4 := zeros BLOCK_SIZE]> (<[34 := zeros BLOCK_SIZE]> SampleVolume.disk).
Definition store : op := sample_op (Device.Device disk [] (fun _ => true) (fun _ => true) true).
Definition desc (links : Z) : InodeDesc := desc_new File 0x1A4 1000 100000 links 7 {| d_secs := 1700000000; d_nanos := 9 |} ExtentRoot.
Definition runs : list orphan_step :=
  [Link 12 (desc 0) empty_root; Link 20 (desc 1) empty_root; Link 11 (desc 0) empty_root; Unlink 20; Store 12 (desc 0) empty_root; Unlink 12].
End SampleInodes.

Lemma sample_inodes_volume : volume SampleVolume.fs SampleInodes.store.
Proof.
  split.
  - apply sample_volume_ok.
  - split.
    + intros i g md [(-> & -> & ->)|(-> & -> & ->)]%sample_groups; vm_compute; (split; [congruence|reflexivity]).
    + intros i j g md g2 md2 b Hne [(-> & -> & ->)|(-> & -> & ->)]%sample_groups [(-> & -> & ->)|(-> & -> & ->)]%sample_groups; try done;
        unfold table_block; change (table_span SampleVolume.g0) with 1; change (table_span SampleVolume.g1) with 1; sample_facts; lia.
    + intros i j g md g2 md2 b [(-> & -> & ->)|(-> & -> & ->)]%sample_groups [(-> & -> & ->)|(-> & -> & ->)]%sample_groups;
        unfold table_block; change (table_span SampleVolume.g0) with 1; change (table_span SampleVolume.g1) with 1; change SUPERBLOCK_BID with 0; sample_facts; lia.
  - split.
    + exists SampleVolume.super_image. split; [vm_compute; reflexivity|apply sample_volume_super].
    + intros i g md Hl. eapply group_stored_on; [|by apply (fst_group _ _ sample_volume_stored i)].
      apply sample_groups in Hl as [(-> & -> & ->)|(-> & -> & ->)]; intros b Hb; sample_facts;
        destruct Hb as [->|[->| ->]]; vm_compute; reflexivity.
  - apply sample_op_ok. vm_decide.
  - intros _. reflexivity.
Qed.

Lemma sample_desc_ok links : fits 16 links -> desc_ok (SampleInodes.desc links) /\ times_kept (SampleInodes.desc links).
Proof. intros Hl. split; [split; try done; by vm_compute|]. split; vm_compute; split_and!; congruence || reflexivity. Qed.

Lemma sample_orphans_none : orphans_ok SampleVolume.fs SampleInodes.store.
Proof. split; [reflexivity|constructor|constructor|intros ino next _ Hs; discriminate Hs]. Qed.

Lemma sample_runs_fit : Forall (step_fits SampleVolume.fs) SampleInodes.runs.
Proof.
  assert (V : forall i, (1 <=? i) && (i <=? 32) = true -> valid_ino SampleVolume.fs i) by (intros i Hi; bool_hyps; by split).
  assert (F : fits 16 0 /\ fits 16 1) by (by unfold fits). destruct F as [F0 F1].
  repeat constructor; try (by apply V); try (by apply (sample_desc_ok 0)); try (by apply (sample_desc_ok 1)); reflexivity.
Qed.

Lemma orphan_list_refines_witness : exists fs' s',
  orphan_runs SampleInodes.runs (SampleVolume.fs, SampleInodes.store) = (Ok tt, (fs', s')) /\ orphan_chain fs' = [11] /\
  walk_orphan_chain (set_chain fs' []) s' = Ok {| scan_chain := [11]; to_free := [11]; to_retruncate := []; suspect := false |}.
Proof.
  destruct (run_result (orphan_runs SampleInodes.runs) (SampleVolume.fs, SampleInodes.store) (Ok tt)) as [[fs' s'] E]; [vm_compute; reflexivity|].
  pose proof (orphan_list_refines _ _ SampleInodes.runs _ fs' s' sample_inodes_volume sample_orphans_none sample_runs_fit E) as (H1 & _ & _ & H2).
  assert (H : (fun st : fstate => forallb (fun i => (sb_first_ino (super_block st.1) <=? i) && (i <=? sb_inodes_count (super_block st.1)) &&
      match fs_is_inode_allocated st.1 i with Ok b => b | Err _ => false end) (orphan_chain st.1) && dead st.1 st.2 11)
      (orphan_runs SampleInodes.runs (SampleVolume.fs, SampleInodes.store)).2 = true) by (vm_compute; reflexivity).
  rewrite E in H. cbn [fst snd] in H. apply andb_prop in H as [H Hd].
  assert (C : fold_left list_step SampleInodes.runs (orphan_chain SampleVolume.fs) = [11]) by (vm_compute; reflexivity). rewrite C in H1.
  exists fs', s'. split; [exact E|]. split; [exact H1|]. rewrite H2.
  - rewrite H1. unfold scan_of. cbn [List.filter]. rewrite Hd. reflexivity.
  - apply Forall_forall. intros i Hi. rewrite forallb_forall in H. specialize (H i (proj1 (list_elem_of_In _ _) Hi)).
    apply andb_prop in H as [Hr Ha]. apply andb_prop in Hr as [L1%Z.leb_le L2%Z.leb_le]. split; [split; assumption|].
    revert Ha. generalize (fs_is_inode_allocated fs' i). by intros [[]|].
Defined.




Lemma time_roundtrip_witness :
  uncurry decode_time (encode_time {| d_secs := 1700000000; d_nanos := 5 |}) = {| d_secs := 1700000000; d_nanos := 5 |} /\
  uncurry decode_time (encode_time {| d_secs := 2 ^ 31; d_nanos := 5 |}) <> {| d_secs := 2 ^ 31; d_nanos := 5 |}.
Proof.
  split.
  - apply (time_roundtrip {| d_secs := 1700000000; d_nanos := 5 |}); [by unfold duration_ok, fits|done].
  - intros H. apply (time_roundtrip {| d_secs := 2 ^ 31; d_nanos := 5 |}) in H; [by destruct H|by unfold duration_ok, fits].
Defined.

