(* ===== verification/DirHash.v ===== *)
(** * The hash of directory entry names

    Models [inode/dir/hash.rs]: the three name hashes of an indexed directory,
    each with its bytes read as signed or unsigned.  All arithmetic is on 32
    bits and wraps.  The lemmas give the range of a hash (even, below the
    end-of-directory mark), say for which versions there is one, and that the
    signedness is of no account for ASCII names. *)

From S2P Require Import Prelude.

(** ** The code *)

Definition DX_HASH_LEGACY : Z := 0.
Definition DX_HASH_HALF_MD4 : Z := 1.
Definition DX_HASH_TEA : Z := 2.
Definition DX_HASH_LEGACY_UNSIGNED : Z := 3.
Definition DX_HASH_HALF_MD4_UNSIGNED : Z := 4.
Definition DX_HASH_TEA_UNSIGNED : Z := 5.

Definition EXT4_HTREE_EOF_32BIT : Z := Z.shiftl 1 31 - 1.

Record DirHash : Type := { hash : Z; minor_hash : Z }.

#[export] Instance DirHash_eq_dec : EqDecision DirHash.
Proof. solve_decision. Defined.

Definition DELTA : Z := 0x9E3779B9.

(** [u32::wrapping_add], [<<] and [rotate_left]. *)
Definition wadd (a b : Z) : Z := u32 (a + b).
Definition shl (a n : Z) : Z := u32 (Z.shiftl a n).
Definition rotate_left (a n : Z) : Z := Z.lor (shl a n) (Z.shiftr a (32 - n)).

(** [[u32; 4]], the running state of the hash. *)
Record words4 : Type := { w0 : Z; w1 : Z; w2 : Z; w3 : Z }.

Definition tea_round (a b c d : Z) (st : Z * Z * Z) : Z * Z * Z :=
  let '(sum, b0, b1) := st in
  let sum := wadd sum DELTA in
  let b0 := wadd b0 (Z.lxor (Z.lxor (wadd (shl b1 4) a) (wadd b1 sum)) (wadd (Z.shiftr b1 5) b)) in
  let b1 := wadd b1 (Z.lxor (Z.lxor (wadd (shl b0 4) c) (wadd b0 sum)) (wadd (Z.shiftr b0 5) d)) in
  (sum, b0, b1).

Definition tea_transform (buf : words4) (input : list Z) : words4 :=
  let w i := nth i input 0 in
  let '(_, b0, b1) := Nat.iter 16 (tea_round (w 0%nat) (w 1%nat) (w 2%nat) (w 3%nat)) (0, w0 buf, w1 buf) in
  {| w0 := wadd (w0 buf) b0; w1 := wadd (w1 buf) b1; w2 := w2 buf; w3 := w3 buf |}.

Definition md4_f (x y z : Z) : Z := Z.lxor z (Z.land x (Z.lxor y z)).
Definition md4_g (x y z : Z) : Z := wadd (Z.land x y) (Z.land (Z.lxor x y) z).
Definition md4_h (x y z : Z) : Z := Z.lxor (Z.lxor x y) z.

Definition md4_round (f : Z -> Z -> Z -> Z) (a b c d x s : Z) : Z := rotate_left (wadd (wadd a (f b c d)) x) s.

(** The three rounds of [half_md4_transform]. *)
Definition half_md4_rounds (buf : words4) (input : list Z) : Z * Z * Z * Z :=
  let K1 := 0 in
  let K2 := 0x5A827999 in
  let K3 := 0x6ED9EBA1 in
  let x i k := wadd (nth i input 0) k in
  let '(a, b, c, d) := (w0 buf, w1 buf, w2 buf, w3 buf) in
  let a := md4_round md4_f a b c d (x 0%nat K1) 3 in
  let d := md4_round md4_f d a b c (x 1%nat K1) 7 in
  let c := md4_round md4_f c d a b (x 2%nat K1) 11 in
  let b := md4_round md4_f b c d a (x 3%nat K1) 19 in
  let a := md4_round md4_f a b c d (x 4%nat K1) 3 in
  let d := md4_round md4_f d a b c (x 5%nat K1) 7 in
  let c := md4_round md4_f c d a b (x 6%nat K1) 11 in
  let b := md4_round md4_f b c d a (x 7%nat K1) 19 in
  let a := md4_round md4_g a b c d (x 1%nat K2) 3 in
  let d := md4_round md4_g d a b c (x 3%nat K2) 5 in
  let c := md4_round md4_g c d a b (x 5%nat K2) 9 in
  let b := md4_round md4_g b c d a (x 7%nat K2) 13 in
  let a := md4_round md4_g a b c d (x 0%nat K2) 3 in
  let d := md4_round md4_g d a b c (x 2%nat K2) 5 in
  let c := md4_round md4_g c d a b (x 4%nat K2) 9 in
  let b := md4_round md4_g b c d a (x 6%nat K2) 13 in
  let a := md4_round md4_h a b c d (x 3%nat K3) 3 in
  let d := md4_round md4_h d a b c (x 7%nat K3) 9 in
  let c := md4_round md4_h c d a b (x 2%nat K3) 11 in
  let b := md4_round md4_h b c d a (x 6%nat K3) 15 in
  let a := md4_round md4_h a b c d (x 1%nat K3) 3 in
  let d := md4_round md4_h d a b c (x 5%nat K3) 9 in
  let c := md4_round md4_h c d a b (x 0%nat K3) 11 in
  let b := md4_round md4_h b c d a (x 4%nat K3) 15 in
  (a, b, c, d).

Definition half_md4_transform (buf : words4) (input : list Z) : words4 :=
  let '(a, b, c, d) := half_md4_rounds buf input in
  {| w0 := wadd (w0 buf) a; w1 := wadd (w1 buf) b; w2 := wadd (w2 buf) c; w3 := wadd (w3 buf) d |}.

(** [byte as i8 as i32 as u32] or [byte as u32] *)
Definition widened (signed : bool) (b : byte) : Z :=
  let v := byte.unsigned b in
  if signed && (128 <=? v) then v + (2 ^ 32 - 256) else v.

Definition hack_step (signed : bool) (st : Z * Z) (b : byte) : Z * Z :=
  let '(hash0, hash1) := st in
  let hash := wadd hash1 (Z.lxor hash0 (u32 (widened signed b * 7152373))) in
  let hash := if negb (Z.land hash 0x80000000 =? 0) then u32 (hash - 0x7fffffff) else hash in
  (hash, hash0).

Definition dx_hack_hash (name : list byte) (signed : bool) : Z :=
  let '(hash0, _) := fold_left (hack_step signed) name (0x12a3fe2d, 0x37abe8f9) in
  shl hash0 1.

(** The loop over the bytes of [str2hashbuf]: the words that are full, and
    the one being filled. *)
Fixpoint pack (signed : bool) (pad : Z) (i : Z) (val : Z) (msg : list byte) : list Z * Z :=
  match msg with
  | [] => ([], val)
  | b :: msg =>
      let val := wadd (widened signed b) (shl val 8) in
      if i mod 4 =? 3 then let '(ws, last) := pack signed pad (i + 1) pad msg in (val :: ws, last)
      else pack signed pad (i + 1) val msg
  end.

(** [str2hashbuf]: the first [num] words of the buffer. *)
Definition str2hashbuf (msg : list byte) (num : nat) (signed : bool) : list Z :=
  let len := zlen msg in
  let pad := Z.lor (u32 len) (shl len 8) in
  let pad := Z.lor pad (shl pad 16) in
  let '(ws, val) := pack signed pad 0 pad (take (num * 4) msg) in
  if (length ws <? num)%nat then ws ++ val :: replicate (num - length ws - 1) pad else ws.

(** The two [loop]s: one transform per [chunk] bytes, at least one. *)
Fixpoint hash_chunks (fuel : nat) (step : words4 -> list byte -> words4) (chunk : nat) (buf : words4) (p : list byte) : result words4 :=
  let buf := step buf p in
  if (length p <=? chunk)%nat then Ok buf
  else match fuel with
       | O => Err DIVERGE
       | Datatypes.S fuel => hash_chunks fuel step chunk buf (drop chunk p)
       end.

(** The last step of [ext4fs_dirhash]: clear bit 0, stay off the mark. *)
Definition finish_hash (h minor : Z) : DirHash :=
  let h := Z.ldiff h 1 in
  let h := if h =? Z.shiftl EXT4_HTREE_EOF_32BIT 1 then Z.shiftl (EXT4_HTREE_EOF_32BIT - 1) 1 else h in
  {| hash := h; minor_hash := minor |}.

Definition default_seed : words4 := {| w0 := 0x67452301; w1 := 0xefcdab89; w2 := 0x98badcfe; w3 := 0x10325476 |}.

Definition ext4fs_dirhash (name : list byte) (version : Z) (seed : words4) : result (option DirHash) :=
  let nonzero := negb (w0 seed =? 0) || negb (w1 seed =? 0) || negb (w2 seed =? 0) || negb (w3 seed =? 0) in
  let buf := if nonzero then seed else default_seed in
  if version =? DX_HASH_LEGACY_UNSIGNED then Ok (Some (finish_hash (dx_hack_hash name false) 0))
  else if version =? DX_HASH_LEGACY then Ok (Some (finish_hash (dx_hack_hash name true) 0))
  else if (version =? DX_HASH_HALF_MD4) || (version =? DX_HASH_HALF_MD4_UNSIGNED) then
    let signed := version =? DX_HASH_HALF_MD4 in
    let? buf := hash_chunks (length name) (fun buf p => half_md4_transform buf (str2hashbuf p 8 signed)) 32 buf name in
    Ok (Some (finish_hash (w1 buf) (w2 buf)))
  else if (version =? DX_HASH_TEA) || (version =? DX_HASH_TEA_UNSIGNED) then
    let signed := version =? DX_HASH_TEA in
    let? buf := hash_chunks (length name) (fun buf p => tea_transform buf (str2hashbuf p 4 signed)) 16 buf name in
    Ok (Some (finish_hash (w0 buf) (w1 buf)))
  else Ok None.

(** ** Lemmas *)

(** A loop ends within one round per byte. *)
Lemma hash_chunks_total step chunk : (0 < chunk)%nat -> forall fuel buf p, (length p <= fuel)%nat ->
  exists buf', hash_chunks fuel step chunk buf p = Ok buf'.
Proof.
  intros Hc. induction fuel as [|fuel IH]; intros buf p Hp; cbn [hash_chunks].
  - exists (step buf p). by rewrite (proj2 (Nat.leb_le _ _)) by lia.
  - destruct (Nat.leb_spec (length p) chunk); [by eexists|]. apply IH. rewrite length_drop. lia.
Qed.

Lemma wadd_fits a b : fits 32 (wadd a b).
Proof. by apply wrap_fits. Qed.

Lemma shl_fits a n : fits 32 (shl a n).
Proof. by apply wrap_fits. Qed.

(** The words a transform leaves are 32-bit words when it is given such. *)
Definition words_ok (b : words4) : Prop := fits 32 (w0 b) /\ fits 32 (w1 b) /\ fits 32 (w2 b) /\ fits 32 (w3 b).

Lemma tea_ok buf input : words_ok buf -> words_ok (tea_transform buf input).
Proof.
  intros (H0 & H1 & H2 & H3). unfold tea_transform. destruct (Nat.iter _ _ _) as [[? ?] ?].
  split_and!; cbn; try apply wadd_fits; done.
Qed.

Lemma half_md4_ok buf input : words_ok (half_md4_transform buf input).
Proof.
  unfold half_md4_transform, words_ok. destruct (half_md4_rounds buf input) as [[[a b] c] d]. cbn [w0 w1 w2 w3].
  split_and!; apply wadd_fits.
Qed.

Lemma hash_chunks_inv (P : words4 -> Prop) step chunk : (forall b p, P b -> P (step b p)) -> forall fuel buf p buf',
  P buf -> hash_chunks fuel step chunk buf p = Ok buf' -> P buf'.
Proof.
  intros Hstep. induction fuel as [|fuel IH]; intros buf p buf' Hb; cbn [hash_chunks]; destruct (Nat.leb _ _); try done.
  - intros [= <-]. by apply Hstep.
  - intros [= <-]. by apply Hstep.
  - intros E. eapply IH; [|exact E]. by apply Hstep.
Qed.

Lemma ldiff_even h : fits 32 h -> fits 32 (Z.ldiff h 1) /\ Z.even (Z.ldiff h 1) = true.
Proof.
  intros Hh. split.
  - apply fits_of_bits; [lia|]. intros n Hn. by rewrite Z.ldiff_spec, (testbit_fits 32).
  - rewrite <- Z.negb_odd, <- Z.bit0_odd, Z.ldiff_spec. cbn. by rewrite andb_false_r.
Qed.

(** What a stored hash looks like. *)
Definition hash_ok (h : DirHash) : Prop :=
  0 <= hash h < Z.shiftl EXT4_HTREE_EOF_32BIT 1 /\ Z.even (hash h) = true.

Lemma finish_hash_ok h minor : fits 32 h -> hash_ok (finish_hash h minor).
Proof.
  intros Hh. destruct (ldiff_even h Hh) as [[H1 H2] H3]. unfold hash_ok, finish_hash. cbn [hash].
  change (Z.shiftl EXT4_HTREE_EOF_32BIT 1) with 4294967294. change (2 ^ 32) with 4294967296 in H2.
  destruct (Z.eqb_spec (Z.ldiff h 1) 4294967294) as [E|E]; [done|]. split; [|done].
  apply Z.even_spec in H3 as [k Hk]. lia.
Qed.

Lemma dirhash_buf (seed : words4) : words_ok seed -> words_ok
  (if negb (w0 seed =? 0) || negb (w1 seed =? 0) || negb (w2 seed =? 0) || negb (w3 seed =? 0) then seed else default_seed).
Proof. intros H. by destruct (_ || _). Qed.

(** One of the chunked hashes has a result in range. *)
Lemma chunked_hash (pick minor : words4 -> Z) step chunk (name : list byte) buf :
  (0 < chunk)%nat -> (forall b p, words_ok b -> words_ok (step b p)) -> (forall b, words_ok b -> fits 32 (pick b)) -> words_ok buf ->
  exists h, (let? buf := hash_chunks (length name) step chunk buf name in Ok (Some (finish_hash (pick buf) (minor buf)))) = Ok (Some h) /\ hash_ok h.
Proof.
  intros Hc Hstep Hp Hb. destruct (hash_chunks_total step chunk Hc (length name) buf name ltac:(lia)) as [buf' E]. rewrite E. cbn [rbind].
  eexists. split; [reflexivity|]. apply finish_hash_ok, Hp. by eapply (hash_chunks_inv words_ok).
Qed.

(** Every name has a hash under the six versions, and none has one under any
    other; the hash is in range. *)
Lemma dirhash_total name version seed : words_ok seed ->
  exists r, ext4fs_dirhash name version seed = Ok r /\
    match r with Some h => hash_ok h /\ 0 <= version <= 5 | None => ~ 0 <= version <= 5 end.
Proof.
  intros Hs%dirhash_buf. unfold ext4fs_dirhash. cbv zeta. set (buf := if _ || _ then _ else _) in *.
  unfold DX_HASH_LEGACY_UNSIGNED, DX_HASH_LEGACY, DX_HASH_HALF_MD4, DX_HASH_HALF_MD4_UNSIGNED, DX_HASH_TEA, DX_HASH_TEA_UNSIGNED.
  assert (Hh : forall signed, hash_ok (finish_hash (dx_hack_hash name signed) 0)).
  { intros signed. apply finish_hash_ok. unfold dx_hack_hash. destruct (fold_left _ _ _). apply shl_fits. }
  destruct (Z.eqb_spec version 3) as [->|N3]; [eexists; split; [reflexivity|]; by split|].
  destruct (Z.eqb_spec version 0) as [->|N0]; [eexists; split; [reflexivity|]; by split|].
  destruct ((version =? 1) || (version =? 4)) eqn:E1.
  { destruct (chunked_hash w1 w2 (fun buf p => half_md4_transform buf (str2hashbuf p 8 (version =? 1))) 32 name buf) as (h & E & Hok);
      [lia|intros; apply half_md4_ok|by intros b (_ & ? & _)|done|].
    exists (Some h). split; [exact E|]. split; [done|]. apply orb_true_iff in E1 as [?|?]; lia. }
  destruct ((version =? 2) || (version =? 5)) eqn:E2.
  { destruct (chunked_hash w0 w1 (fun buf p => tea_transform buf (str2hashbuf p 4 (version =? 2))) 16 name buf) as (h & E & Hok);
      [lia|intros; by apply tea_ok|by intros b (? & _)|done|].
    exists (Some h). split; [exact E|]. split; [done|]. apply orb_true_iff in E2 as [?|?]; lia. }
  exists None. split; [done|]. apply orb_false_iff in E1, E2. lia.
Qed.

(** *** Signedness *)

Definition is_ascii (name : list byte) : Prop := Forall (fun b => byte.unsigned b < 128) name.

Lemma widened_ascii b : byte.unsigned b < 128 -> widened true b = widened false b.
Proof. intros H. unfold widened. by rewrite (proj2 (Z.leb_gt _ _)) by lia. Qed.

Lemma pack_ascii pad msg : is_ascii msg -> forall i val, pack true pad i val msg = pack false pad i val msg.
Proof.
  induction 1 as [|b msg Hb _ IH]; intros i val; cbn [pack]; [done|]. rewrite widened_ascii by done.
  destruct (_ =? _); by rewrite IH.
Qed.

Lemma str2hashbuf_ascii msg num : is_ascii msg -> str2hashbuf msg num true = str2hashbuf msg num false.
Proof. intros H. unfold str2hashbuf. by rewrite pack_ascii by (by apply Forall_take). Qed.

Lemma hack_ascii name : is_ascii name -> dx_hack_hash name true = dx_hack_hash name false.
Proof.
  intros H. unfold dx_hack_hash. generalize (0x12a3fe2d, 0x37abe8f9). induction H as [|b name Hb _ IH]; intros st; cbn [fold_left]; [done|].
  rewrite IH. f_equal. f_equal. unfold hack_step. destruct st. by rewrite widened_ascii.
Qed.

Lemma hash_chunks_ascii (f : words4 -> list Z -> words4) num chunk fuel : forall buf p, is_ascii p ->
  hash_chunks fuel (fun buf p => f buf (str2hashbuf p num true)) chunk buf p =
  hash_chunks fuel (fun buf p => f buf (str2hashbuf p num false)) chunk buf p.
Proof.
  induction fuel as [|fuel IH]; intros buf p Hp; cbn [hash_chunks]; rewrite str2hashbuf_ascii by done; [done|].
  destruct (_ <=? _)%nat; [done|]. apply IH. by apply Forall_drop.
Qed.

(** An ASCII name has the same hash under a version and its unsigned twin. *)
Lemma dirhash_ascii name version seed : is_ascii name -> 0 <= version <= 2 ->
  ext4fs_dirhash name (version + 3) seed = ext4fs_dirhash name version seed.
Proof.
  intros Hn Hv. assert (version = 0 \/ version = 1 \/ version = 2) as [-> | [-> | ->]] by lia; unfold ext4fs_dirhash; cbv zeta;
    unfold DX_HASH_LEGACY_UNSIGNED, DX_HASH_LEGACY, DX_HASH_HALF_MD4, DX_HASH_HALF_MD4_UNSIGNED, DX_HASH_TEA, DX_HASH_TEA_UNSIGNED;
    cbn [Z.eqb Z.add Pos.add Pos.succ Pos.eqb orb].
  - by rewrite hack_ascii.
  - by rewrite (hash_chunks_ascii half_md4_transform).
  - by rewrite (hash_chunks_ascii tea_transform).
Qed.

(** The reference vectors of the [ktest]s (from [debugfs htree_dump]). *)
Definition md4_seed : words4 := {| w0 := 0xaec4c740; w1 := 0x834ce862; w2 := 0x09b53288; w3 := 0x34dcd3db |}.
Definition bytes_of (l : list Z) : list byte := map byte.of_Z l.
Definition name_file0 : list byte := bytes_of [0x66; 0x69; 0x6c; 0x65; 0x30].

Lemma md4_vector : ext4fs_dirhash name_file0 DX_HASH_HALF_MD4 md4_seed = Ok (Some {| hash := 0x1c3d2670; minor_hash := 0xfca488c5 |}).
Proof. by vm_compute. Qed.

Lemma md4_high_byte_vector :
  ext4fs_dirhash (bytes_of [0x78; 0xe9; 0x79]) DX_HASH_HALF_MD4 md4_seed = Ok (Some {| hash := 0xb8a7e90a; minor_hash := 0x3b686309 |}).
Proof. by vm_compute. Qed.

Lemma tea_vector :
  ext4fs_dirhash name_file0 DX_HASH_TEA {| w0 := 0x79e2f44a; w1 := 0x94494804; w2 := 0xd0aabea6; w3 := 0x82753d4e |} =
  Ok (Some {| hash := 0xd483fcc4; minor_hash := 0x21661f2d |}).
Proof. by vm_compute. Qed.

Lemma legacy_vector :
  ext4fs_dirhash name_file0 DX_HASH_LEGACY {| w0 := 0x50017978; w1 := 0xb84af9d1; w2 := 0x363894a3; w3 := 0xe9ccf611 |} =
  Ok (Some {| hash := 0x9f123cc8; minor_hash := 0 |}).
Proof. by vm_compute. Qed.
