(* ===== verification/Htree.v ===== *)
(** * The hash index of a directory

    Models [inode/dir/htree.rs]: decoding the index blocks of an indexed
    directory and descending them to the leaf that may hold a name.  An index
    block is read through the [read_block] argument, as in the code; a slice
    out of range is a panic, and the lemmas show that there is none.  The
    binary search is shown to find the entry a scan would find. *)

From S2P Require Import Prelude Pod JournalFormat DirHash.

(** ** The code *)

Record DxCtx : Type := { dx_seed : words4; dx_unsigned : bool }.

Definition DX_ENTRY_SIZE : Z := 8.
Definition DX_NODE_ENTRIES_OFF : Z := 8.
Definition DX_ROOT_INFO_OFF : Z := 24.
Definition DX_ROOT_INFO_LEN : Z := 8.
Definition MAX_INDIRECT_LEVELS : Z := 1.
Definition DX_BLOCK_MASK : Z := 0x0fffffff.

Definition read_le32 (buf : list byte) (off : Z) : result Z :=
  check off + 4 <=? zlen buf else PANIC in Ok (get_le 4 off buf).
Definition read_le16 (buf : list byte) (off : Z) : result Z :=
  check off + 2 <=? zlen buf else PANIC in Ok (get_le 2 off buf).
(** [buf[off]] *)
Definition read_u8 (buf : list byte) (off : Z) : result Z :=
  check off + 1 <=? zlen buf else PANIC in Ok (get_le 1 off buf).

Record DxEntries : Type := { dx_buf : list byte; dx_off : Z; dx_count : Z }.

(** [DxEntries::parse] *)
Definition parse_entries (buf : list byte) (off : Z) : result DxEntries :=
  let? limit := read_le16 buf off in
  let? count := read_le16 buf (off + 2) in
  check negb ((count <? 1) || (limit <? count) || (BLOCK_SIZE <? off + limit * DX_ENTRY_SIZE)) else EUCLEAN in
  Ok {| dx_buf := buf; dx_off := off; dx_count := count |}.

(** [DxEntries::hash] and [DxEntries::block] *)
Definition entry_hash (e : DxEntries) (i : Z) : result Z := read_le32 (dx_buf e) (dx_off e + i * DX_ENTRY_SIZE).
Definition entry_block (e : DxEntries) (i : Z) : result Z :=
  let? v := read_le32 (dx_buf e) (dx_off e + i * DX_ENTRY_SIZE + 4) in Ok (Z.land v DX_BLOCK_MASK).

Record DxRootInfo : Type := { hash_version : Z; info_length : Z; indirect_levels : Z }.

Definition parse_dx_root (block0 : list byte) : result DxRootInfo :=
  let? hash_version := read_u8 block0 (DX_ROOT_INFO_OFF + 4) in
  let? info_length := read_u8 block0 (DX_ROOT_INFO_OFF + 5) in
  let? indirect_levels := read_u8 block0 (DX_ROOT_INFO_OFF + 6) in
  let? unused_flags := read_u8 block0 (DX_ROOT_INFO_OFF + 7) in
  check info_length =? DX_ROOT_INFO_LEN else EUCLEAN in
  check Z.land unused_flags 1 =? 0 else EUCLEAN in
  check negb (MAX_INDIRECT_LEVELS <? indirect_levels) else EUCLEAN in
  Ok {| hash_version := hash_version; info_length := info_length; indirect_levels := indirect_levels |}.

(** The binary search; each round shrinks the interval.  [m - 1] is a [usize]. *)
Fixpoint dx_search (fuel : nat) (e : DxEntries) (target p q : Z) : result Z :=
  if q <? p then Ok p
  else match fuel with
       | O => Err DIVERGE
       | S fuel =>
           let m := p + (q - p) / 2 in
           let? h := entry_hash e m in
           if target <? h then check 1 <=? m else PANIC in dx_search fuel e target p (m - 1)
           else dx_search fuel e target (m + 1) q
       end.

(** The block [dx_lookup_leaf] goes to from one index block. *)
Definition dx_step (buf : list byte) (off target : Z) : result Z :=
  let? e := parse_entries buf off in
  let? p := dx_search (Z.to_nat (dx_count e)) e target 1 (dx_count e - 1) in
  entry_block e (p - 1).

Section Read.
Variable read_block : Z -> result (list byte).

(** The loop of [dx_lookup_leaf], one round per level. *)
Fixpoint dx_descend (fuel : nat) (indirect target level : Z) (blocks : list Z) (entries_off : Z) (block_buf : list byte) : result Z :=
  let? block := dx_step block_buf entries_off target in
  check level + 1 <=? zlen blocks else PANIC in
  check negb (existsb (Z.eqb block) (take (Z.to_nat (level + 1)) blocks)) else EUCLEAN in
  if level =? indirect then Ok block
  else match fuel with
       | O => Err DIVERGE
       | S fuel =>
           let level := level + 1 in
           check level <? zlen blocks else PANIC in
           let blocks := <[Z.to_nat level := block]> blocks in
           let? block_buf := read_block block in
           dx_descend fuel indirect target level blocks DX_NODE_ENTRIES_OFF block_buf
       end.

(** The hash version in effect. *)
Definition effective_version (hash_unsigned : bool) (version : Z) : Z :=
  if hash_unsigned && (version <=? DX_HASH_TEA) then version + 3 else version.

Definition dx_lookup_leaf (name : list byte) (hash_seed : words4) (hash_unsigned : bool) : result (option Z) :=
  let? root_block := read_block 0 in
  let? root := parse_dx_root root_block in
  let version := effective_version hash_unsigned (hash_version root) in
  let? dirhash := ext4fs_dirhash name version hash_seed in
  match dirhash with
  | None => Ok None
  | Some dirhash =>
      let? leaf := dx_descend (Z.to_nat (indirect_levels root)) (indirect_levels root) (hash dirhash) 0 [0; 0; 0]
                     (DX_ROOT_INFO_OFF + info_length root) root_block in
      Ok (Some leaf)
  end.

(** [entries.block(i)] for each [i] of [idxs]. *)
Fixpoint entry_blocks (e : DxEntries) (idxs : list Z) : result (list Z) :=
  match idxs with
  | [] => Ok []
  | i :: idxs => let? b := entry_block e i in let? bs := entry_blocks e idxs in Ok (b :: bs)
  end.

Definition dx_index_blocks : result (list Z) :=
  let? root_block := read_block 0 in
  let? root := parse_dx_root root_block in
  if 1 <=? indirect_levels root then
    let? e := parse_entries root_block (DX_ROOT_INFO_OFF + info_length root) in
    let? bs := entry_blocks e (map Z.of_nat (seq 0 (Z.to_nat (dx_count e)))) in
    Ok (0 :: bs)
  else Ok [0].
End Read.

(** ** Index blocks *)

(** The table an index block holds: its keys, the first of which is taken as
    zero, and its blocks. *)
Definition dx_key (buf : list byte) (off i : Z) : Z := if i =? 0 then 0 else get_le 4 (off + i * DX_ENTRY_SIZE) buf.
Definition dx_block (buf : list byte) (off i : Z) : Z := Z.land (get_le 4 (off + i * DX_ENTRY_SIZE + 4) buf) DX_BLOCK_MASK.

(** Its keys ascend. *)
Definition dx_sorted (buf : list byte) (off count : Z) : Prop :=
  forall i j, 0 <= i -> i < j -> j < count -> dx_key buf off i <= dx_key buf off j.

(** What [parse_entries] grants: every entry is inside the block. *)
Record entries_ok (e : DxEntries) : Prop := {
  eo_off : 0 <= dx_off e;
  eo_count : 1 <= dx_count e;
  eo_fit : dx_off e + dx_count e * DX_ENTRY_SIZE <= zlen (dx_buf e);
}.

Lemma read_le16_ok buf off : off + 2 <= zlen buf -> read_le16 buf off = Ok (get_le 2 off buf).
Proof. intros. unfold read_le16. by rewrite (proj2 (Z.leb_le _ _)) by lia. Qed.

Lemma read_le32_ok buf off : off + 4 <= zlen buf -> read_le32 buf off = Ok (get_le 4 off buf).
Proof. intros. unfold read_le32. by rewrite (proj2 (Z.leb_le _ _)) by lia. Qed.

Lemma read_u8_ok buf off : off + 1 <= zlen buf -> read_u8 buf off = Ok (get_le 1 off buf).
Proof. intros. unfold read_u8. by rewrite (proj2 (Z.leb_le _ _)) by lia. Qed.

Lemma parse_entries_spec buf off : is_block buf -> 0 <= off <= BLOCK_SIZE - 4 ->
  parse_entries buf off = Err EUCLEAN \/
  exists e, parse_entries buf off = Ok e /\ entries_ok e /\ dx_buf e = buf /\ dx_off e = off /\ dx_count e = get_le 2 (off + 2) buf.
Proof.
  unfold is_block, BLOCK_SIZE. intros Hb Ho. unfold parse_entries. rewrite !read_le16_ok by lia. cbn [rbind].
  destruct (_ || _) eqn:E; [by left|]. right. eexists. split; [reflexivity|]. split; [|done].
  bool_hyps. unfold DX_ENTRY_SIZE, BLOCK_SIZE in *. split; cbn; unfold DX_ENTRY_SIZE; lia.
Qed.

Lemma entry_hash_ok e i : entries_ok e -> 0 <= i < dx_count e -> entry_hash e i = Ok (get_le 4 (dx_off e + i * DX_ENTRY_SIZE) (dx_buf e)).
Proof. intros [? ? ?] Hi. unfold entry_hash. apply read_le32_ok. unfold DX_ENTRY_SIZE in *. lia. Qed.

Lemma entry_block_ok e i : entries_ok e -> 0 <= i < dx_count e -> entry_block e i = Ok (dx_block (dx_buf e) (dx_off e) i).
Proof. intros [? ? ?] Hi. unfold entry_block. rewrite read_le32_ok by (unfold DX_ENTRY_SIZE in *; lia). done. Qed.

(** The search ends, inside the table; on a sorted table the entry before the
    result is the last whose key does not exceed the target. *)
Lemma dx_search_spec e target : entries_ok e -> forall fuel p q,
  1 <= p -> p <= q + 1 -> q <= dx_count e - 1 -> q - p + 1 <= Z.of_nat fuel ->
  exists r, dx_search fuel e target p q = Ok r /\ p <= r <= q + 1 /\
    (dx_sorted (dx_buf e) (dx_off e) (dx_count e) ->
     (forall i, p <= i < r -> dx_key (dx_buf e) (dx_off e) i <= target) /\ (forall i, r <= i <= q -> target < dx_key (dx_buf e) (dx_off e) i)).
Proof.
  intros He. induction fuel as [|fuel IH]; intros p q Hp Hpq Hq Hf; cbn [dx_search].
  - rewrite (proj2 (Z.ltb_lt _ _)) by lia. exists p. split_and!; try done; try lia. intros _. split; intros; lia.
  - destruct (Z.ltb_spec q p). { exists p. split_and!; try done; try lia. intros _. split; intros; lia. }
    set (m := p + (q - p) / 2). assert (Hm : p <= m <= q).
    { unfold m. pose proof (Z.div_pos (q - p) 2). pose proof (Z.div_le_upper_bound (q - p) 2 (q - p)). lia. }
    rewrite entry_hash_ok by (done || lia). cbn [rbind].
    assert (Hk : get_le 4 (dx_off e + m * DX_ENTRY_SIZE) (dx_buf e) = dx_key (dx_buf e) (dx_off e) m).
    { unfold dx_key. destruct (Z.eqb_spec m 0); [lia|done]. }
    rewrite Hk. destruct (Z.ltb_spec target (dx_key (dx_buf e) (dx_off e) m)).
    + rewrite (proj2 (Z.leb_le _ _)) by lia. destruct (IH p (m - 1)) as (r & E & Hr & Hs); try lia. exists r. split_and!; try done; try lia.
      intros So. destruct (Hs So) as [S1 S2]. split; [done|]. intros i Hi. destruct (decide (i < m)); [apply S2; lia|].
      destruct (decide (i = m)) as [->|]; [done|]. pose proof (So m i). lia.
    + destruct (IH (m + 1) q) as (r & E & Hr & Hs); try lia. exists r. split_and!; try done; try lia.
      intros So. destruct (Hs So) as [S1 S2]. split; [|done]. intros i Hi. destruct (decide (m < i)); [apply S1; lia|].
      destruct (decide (i = m)) as [->|]; [done|]. pose proof (So i m). lia.
Qed.

(** The entry a scan of the table finds: the last whose key does not exceed
    the target. *)
Definition dx_scan (buf : list byte) (off count target i : Z) : Prop :=
  0 <= i < count /\ dx_key buf off i <= target /\ forall j, i < j < count -> target < dx_key buf off j.

Lemma dx_step_spec buf off target : is_block buf -> 0 <= off <= BLOCK_SIZE - 4 -> 0 <= target ->
  dx_step buf off target = Err EUCLEAN \/
  exists i, dx_step buf off target = Ok (dx_block buf off i) /\ 0 <= i < get_le 2 (off + 2) buf /\
    (dx_sorted buf off (get_le 2 (off + 2) buf) -> dx_scan buf off (get_le 2 (off + 2) buf) target i).
Proof.
  intros Hb Ho Ht. unfold dx_step. destruct (parse_entries_spec buf off Hb Ho) as [->|(e & -> & He & <- & <- & Hc)]; [by left|right].
  cbn [rbind]. pose proof He as [E1 E2 E3].
  destruct (dx_search_spec e target He (Z.to_nat (dx_count e)) 1 (dx_count e - 1)) as (r & -> & Hr & Hs); try lia.
  cbn [rbind]. rewrite entry_block_ok by (done || lia). exists (r - 1). rewrite <- Hc. split_and!; try done; try lia.
  intros So. destruct (Hs So) as [S1 S2]. split_and!; try lia.
  - destruct (decide (r = 1)) as [->|]; [|apply S1; lia]. unfold dx_key. by rewrite Z.eqb_refl.
  - intros j Hj. apply S2. lia.
Qed.

(** *** The descent *)

Lemma land_mask_fits v : 0 <= Z.land v DX_BLOCK_MASK < 2 ^ 28.
Proof.
  change DX_BLOCK_MASK with (Z.ones 28). rewrite Z.land_ones by lia. apply Z.mod_pos_bound. lia.
Qed.

Lemma parse_dx_root_spec b : is_block b ->
  parse_dx_root b = Err EUCLEAN \/
  exists r, parse_dx_root b = Ok r /\ info_length r = DX_ROOT_INFO_LEN /\ 0 <= indirect_levels r <= 1 /\
    hash_version r = get_le 1 28 b /\ indirect_levels r = get_le 1 30 b /\ get_le 1 29 b = DX_ROOT_INFO_LEN.
Proof.
  unfold is_block, BLOCK_SIZE. intros Hb. unfold parse_dx_root, DX_ROOT_INFO_OFF. rewrite !read_u8_ok by lia. cbn [rbind].
  change (24 + 4) with 28. change (24 + 5) with 29. change (24 + 6) with 30. change (24 + 7) with 31.
  destruct (Z.eqb_spec (get_le 1 29 b) DX_ROOT_INFO_LEN); [|by left]. destruct (Z.eqb_spec (Z.land (get_le 1 31 b) 1) 0); [|by left].
  destruct (Z.ltb_spec MAX_INDIRECT_LEVELS (get_le 1 30 b)); [by left|]. right. eexists. split; [reflexivity|].
  pose proof (get_le_fits 1 30 b ltac:(lia) ltac:(lia)) as [? _]. unfold MAX_INDIRECT_LEVELS in *. cbn. split_and!; done || lia.
Qed.

(** The outcome of a lookup on blocks that read as blocks: an answer, or an
    error the caller handles.  It never runs out of a block or of levels. *)
Section Outcome.
Context (read_block : Z -> result (list byte)).
Context (Hread : forall b, match read_block b with Ok img => is_block img | Err e => handled e = true end).

Lemma dx_descend_total fuel indirect target level blocks off buf :
  is_block buf -> 0 <= off <= BLOCK_SIZE - 4 -> 0 <= target -> zlen blocks = 3 -> 0 <= level -> indirect <= 1 -> level + Z.of_nat fuel = indirect ->
  match dx_descend read_block fuel indirect target level blocks off buf with Ok b => 0 <= b < 2 ^ 28 | Err e => handled e = true end.
Proof.
  revert level blocks off buf. induction fuel as [|fuel IH]; intros level blocks off buf Hb Ho Ht Hl Hlv Hi Hf; cbn [dx_descend].
  all: destruct (dx_step_spec buf off target Hb Ho Ht) as [->|(i & -> & _ & _)]; cbn [rbind]; [done|].
  all: rewrite (proj2 (Z.leb_le _ _)) by lia; destruct (existsb _ _); cbn [negb]; [done|].
  - rewrite (proj2 (Z.eqb_eq _ _)) by lia. apply land_mask_fits.
  - rewrite (proj2 (Z.eqb_neq _ _)) by lia. rewrite (proj2 (Z.ltb_lt _ _)) by lia.
    pose proof (Hread (dx_block buf off i)) as Hr. destruct (read_block _) as [img|e]; cbn [rbind]; [|done].
    apply IH; try done; try lia. unfold zlen in *. by rewrite length_insert.
Qed.

Lemma dx_lookup_leaf_total name seed unsigned : words_ok seed ->
  match dx_lookup_leaf read_block name seed unsigned with
  | Ok (Some b) => 0 <= b < 2 ^ 28
  | Ok None => True
  | Err e => handled e = true
  end.
Proof.
  intros Hs. unfold dx_lookup_leaf. pose proof (Hread 0) as Hr. destruct (read_block 0) as [buf|e]; cbn [rbind]; [|done].
  destruct (parse_dx_root_spec buf Hr) as [->|(root & -> & Hl & Hi & _)]; cbn [rbind]; [done|].
  destruct (dirhash_total name (effective_version unsigned (hash_version root)) seed Hs) as (h & -> & Hh). cbn [rbind].
  destruct h as [h|]; [|done]. destruct Hh as [[[Hh0 _] _] _]. rewrite Hl.
  pose proof (dx_descend_total (Z.to_nat (indirect_levels root)) (indirect_levels root) (hash h) 0 [0; 0; 0] (DX_ROOT_INFO_OFF + DX_ROOT_INFO_LEN) buf) as Hd.
  destruct (dx_descend _ _ _ _ _ _ _ _); cbn [rbind]; apply Hd; try done; lia.
Qed.

Lemma entry_blocks_ok e idxs : entries_ok e -> Forall (fun i => 0 <= i < dx_count e) idxs ->
  entry_blocks e idxs = Ok (dx_block (dx_buf e) (dx_off e) <$> idxs).
Proof.
  intros He. induction 1 as [|i idxs Hi _ IH]; [done|]. cbn [entry_blocks]. rewrite entry_block_ok by done. cbn [rbind]. rewrite IH. done.
Qed.

(** The index blocks are the root and, below it, the blocks its table names. *)
Lemma dx_index_blocks_spec :
  match dx_index_blocks read_block with
  | Ok bs => exists root, read_block 0 = Ok root /\
      bs = 0 :: (if get_le 1 30 root =? 0 then [] else dx_block root 32 <$> map Z.of_nat (seq 0 (Z.to_nat (get_le 2 34 root)))) /\
      zlen bs <= 509
  | Err e => handled e = true
  end.
Proof.
  unfold dx_index_blocks. pose proof (Hread 0) as Hr. destruct (read_block 0) as [buf|e]; cbn [rbind]; [|done].
  destruct (parse_dx_root_spec buf Hr) as [->|(root & -> & Hl & Hi & _ & Hlv & _)]; cbn [rbind]; [done|]. rewrite Hl.
  destruct (Z.leb_spec 1 (indirect_levels root)).
  - destruct (parse_entries_spec buf (DX_ROOT_INFO_OFF + DX_ROOT_INFO_LEN) Hr) as [->|(e & -> & He & Eb & Eo & Ec)]; cbn [rbind]; [split; by vm_compute|done|].
    rewrite entry_blocks_ok; [|done|].
    2: { apply Forall_forall. intros i Hin. apply list_elem_of_In, in_map_iff in Hin as (k & <- & Hk%in_seq). lia. }
    cbn [rbind]. exists buf. rewrite <- Hlv, (proj2 (Z.eqb_neq _ _)) by lia. rewrite Eb, Eo, Ec. change (DX_ROOT_INFO_OFF + DX_ROOT_INFO_LEN) with 32 in *.
    change (32 + 2) with 34 in *. split_and!; [done|done|]. pose proof He as [_ H1 H2]. rewrite Eb, Eo, Ec in *.
    rewrite zlen_cons. unfold zlen. rewrite length_fmap, length_map, length_seq. unfold is_block, BLOCK_SIZE, DX_ENTRY_SIZE in *. rewrite Hr in H2.
    assert (get_le 2 34 buf <= 508) by lia. lia.
  - exists buf. rewrite <- Hlv, (proj2 (Z.eqb_eq _ _)) by lia. split_and!; try done.
Qed.
End Outcome.
