(* ===== verification/PageCache.v ===== *)
(** * The page cache of an inode

    Models [kernel/src/vm/page_cache]: reads and writes through the cached
    pages, zero filling and resizing.  The state holds the capacity and the
    pages written since they were last clean; a page that is not among them
    reads as what the backend returns, so that bringing a clean page in is not
    a change of state.  Pages of 4096 bytes are blocks.  The readers and
    writers are kernel buffers, whose copies do not fail. *)

From S2P Require Import Prelude Pod JournalFormat Device.

(** ** The code *)

Definition PAGE_SIZE : Z := 4096.
Definition align_up (z : Z) : Z := div_ceil z PAGE_SIZE * PAGE_SIZE.
Definition align_down (z : Z) : Z := z / PAGE_SIZE * PAGE_SIZE.

Record PageCache : Type := {
  pc_size : Z;
  pc_pages : gmap Z (list byte);
}.

(** [new_with_backend] *)
Definition pc_new (size : Z) : PageCache := {| pc_size := align_up size; pc_pages := ∅ |}.

Definition set_page (pc : PageCache) (idx : Z) (p : list byte) : PageCache :=
  {| pc_size := pc_size pc; pc_pages := <[idx := p]> (pc_pages pc) |}.

(** [get_page_idx_range] of [start..stop] *)
Definition page_idx_range (start stop : Z) : list Z :=
  map (fun i => start / PAGE_SIZE + Z.of_nat i) (seq 0 (Z.to_nat (div_ceil stop PAGE_SIZE - start / PAGE_SIZE))).

(** An error that crosses [VmIo] is narrowed to an [ostd::Error] and back. *)
Definition via_ostd (e : errno) : errno :=
  match e with EIO => EIO | ENOMEM => ENOMEM | PANIC => PANIC | DIVERGE => DIVERGE | _ => EINVAL end.
Definition map_err {A} (f : errno -> errno) (r : result A) : result A := match r with Ok a => Ok a | Err e => Err (f e) end.
Definition map_errM {S A} (f : errno -> errno) (m : M S A) : M S A := fun s => let '(r, s') := m s in (map_err f r, s').

Inductive CommitMode : Set := Read | Overwrite.

Definition PAGE_BATCH_CAPACITY : Z := 32.

Section Backend.
(** [PageCacheBackend::read_page] *)
Variable read_page : Z -> result (list byte).

(** [commit_on_internal]: the content of one page; a page about to be
    overwritten whole is not read. *)
Definition commit_page (mode : CommitMode) (pc : PageCache) (idx : Z) : result (list byte) :=
  check idx <? div_ceil (pc_size pc) PAGE_SIZE else EINVAL in
  match pc_pages pc !! idx, mode with
  | Some p, _ => Ok p
  | None, Overwrite => Ok (zeros PAGE_SIZE)
  | None, Read => read_page idx
  end.

(** [collect_pages] *)
Fixpoint collect_pages (mode : CommitMode) (pc : PageCache) (idxs : list Z) : result (list (Z * list byte)) :=
  match idxs with
  | [] => Ok []
  | i :: idxs => let? p := commit_page mode pc i in let? ps := collect_pages mode pc idxs in Ok ((i, p) :: ps)
  end.

(** [Vmo::read]: the bytes copied into a buffer of [len] bytes. *)
Definition vmo_read (pc : PageCache) (offset len : Z) : result (list byte) :=
  let read_len := Z.min len (sat_sub (pc_size pc) offset) in
  if read_len =? 0 then Ok []
  else
    let? ps := collect_pages Read pc (page_idx_range offset (offset + read_len)) in
    Ok (slice (offset mod PAGE_SIZE) read_len (concat (map snd ps))).

(** [read_bytes] into a buffer, and [read_val] of a value of [len] bytes,
    which starts as zeros. *)
Definition read_bytes (pc : PageCache) (offset : Z) (buf : list byte) : result (list byte) :=
  let? got := map_err via_ostd (vmo_read pc offset (zlen buf)) in Ok (splice 0 got buf).
Definition read_raw (pc : PageCache) (offset len : Z) : result (list byte) := read_bytes pc offset (zeros len).
Definition read_val {A} (c : codec A) (pc : PageCache) (offset : Z) : result A :=
  let? b := read_raw pc offset (c_size c) in Ok (from_bytes c b).

(** The pages of one batch, each taking what fits of the reader. *)
Fixpoint write_batch (ps : list (Z * list byte)) (page_offset : Z) (reader : list byte) (pc : PageCache) : Z * list byte * PageCache :=
  match ps with
  | [] => (page_offset, reader, pc)
  | (i, p) :: ps =>
      let n := Z.min (zlen p - page_offset) (zlen reader) in
      write_batch ps 0 (slice n (zlen reader - n) reader) (set_page pc i (splice page_offset (slice 0 n reader) p))
  end.

(** [write_pages_with_backend]: batch by batch. *)
Fixpoint write_pages (mode : CommitMode) (batches : list (list Z)) (page_offset : Z) (reader : list byte) : M PageCache (Z * list byte) :=
  match batches with
  | [] => mret (page_offset, reader)
  | b :: batches => fun pc =>
      match collect_pages mode pc b with
      | Err e => (Err e, pc)
      | Ok ps =>
          let '(page_offset, reader, pc) := write_batch ps page_offset reader pc in
          write_pages mode batches page_offset reader pc
      end
  end.

Definition write_range (mode : CommitMode) (cap start stop page_offset : Z) (reader : list byte) : M PageCache (Z * list byte) :=
  if start =? stop then mret (page_offset, reader)
  else write_pages mode (chunks cap (page_idx_range start stop)) page_offset reader.

(** [Vmo::write] on a cache with a backend *)
Definition vmo_write (offset : Z) (data : list byte) : M PageCache unit := fun pc =>
  let write_len := Z.min (zlen data) (sat_sub (pc_size pc) offset) in
  if write_len =? 0 then (Ok tt, pc)
  else
    let stop := offset + write_len in
    let page_offset := offset mod PAGE_SIZE in
    let cap := Z.min (div_ceil write_len PAGE_SIZE) PAGE_BATCH_CAPACITY in
    (if write_len <? PAGE_SIZE then write_range Read cap offset stop page_offset data;; mret tt
     else
       let up := align_up offset in
       let down := align_down stop in
       r ← write_range Read cap offset up page_offset data;
       r ← write_range Overwrite cap up down r.1 r.2;
       write_range Read cap down stop r.1 r.2;; mret tt) pc.

(** [VmIo::write_bytes] and [write_val] *)
Definition write_bytes (offset : Z) (data : list byte) : M PageCache unit := map_errM via_ostd (vmo_write offset data).
Definition write_val {A} (c : codec A) (offset : Z) (a : A) : M PageCache unit := write_bytes offset (as_bytes c a).

(** The loop of [fill_zeros]: one write per page. *)
Fixpoint fill_loop (fuel : nat) (current stop : Z) : M PageCache unit :=
  if stop <=? current then mret tt
  else match fuel with
       | O => fail DIVERGE
       | Datatypes.S fuel =>
           let page_remaining := PAGE_SIZE - current mod PAGE_SIZE in
           let write_len := Z.min (stop - current) page_remaining in
           vmo_write current (zeros write_len);;
           fill_loop fuel (current + write_len) stop
       end.

Definition fill_zeros (start stop : Z) : M PageCache unit := fun pc =>
  if stop <=? start then (Ok tt, pc)
  else if pc_size pc <? stop then (Err EINVAL, pc)
  else fill_loop (Z.to_nat (stop - start)) start stop pc.

(** The part of [PageCache::resize] after the fill: the capacity changes, and
    the pages past it go. *)
Definition set_capacity (new_cache_size : Z) (pc : PageCache) : PageCache :=
  {| pc_size := new_cache_size;
     pc_pages := if new_cache_size <? pc_size pc then filter (fun kv => kv.1 * PAGE_SIZE < new_cache_size) (pc_pages pc) else pc_pages pc |}.

(** [PageCache::resize] *)
Definition pc_resize (new_file_size old_file_size : Z) : M PageCache unit :=
  (if (new_file_size <? old_file_size) && negb (new_file_size mod PAGE_SIZE =? 0)
   then fill_zeros new_file_size (Z.min old_file_size (align_up new_file_size))
   else if (old_file_size <? new_file_size) && negb (old_file_size mod PAGE_SIZE =? 0)
   then fill_zeros old_file_size (Z.min new_file_size (align_up old_file_size))
   else mret tt);;
  modify (set_capacity (align_up new_file_size)).
End Backend.

(** ** Lemmas *)

Record pc_ok (pc : PageCache) : Prop := {
  pk_size : 0 <= pc_size pc;
  pk_align : pc_size pc mod PAGE_SIZE = 0;
  pk_pages : map_Forall (fun i p => 0 <= i < pc_size pc / PAGE_SIZE /\ is_block p) (pc_pages pc);
}.

Lemma page_size_block : PAGE_SIZE = BLOCK_SIZE.
Proof. done. Qed.

Lemma div_ceil_mult n : div_ceil (n * PAGE_SIZE) PAGE_SIZE = n.
Proof.
  unfold div_ceil, PAGE_SIZE. replace (n * 4096 + 4096 - 1) with (4095 + n * 4096) by lia.
  rewrite Z.div_add by lia. change (4095 / 4096) with 0. lia.
Qed.

(** The pages of a range inside one page. *)
Lemma one_page_range i off len : 0 <= off -> 0 < len -> off + len <= PAGE_SIZE -> page_idx_range (i * PAGE_SIZE + off) (i * PAGE_SIZE + off + len) = [i].
Proof.
  unfold page_idx_range, div_ceil, PAGE_SIZE. intros H0 Hl H.
  replace ((i * 4096 + off) / 4096) with i; [|apply Z.div_unique with off; lia].
  replace ((i * 4096 + off + len + 4096 - 1) / 4096) with (i + 1); [|apply Z.div_unique with (off + len - 1); lia].
  replace (i + 1 - i) with 1 by lia. change (Z.to_nat 1) with 1%nat. cbn [seq map]. by rewrite Z.add_0_r.
Qed.

Section Lemmas.
Context (read_page : Z -> result (list byte)).

(** What page [i] of the cache reads as. *)
Definition page_is (pc : PageCache) (i : Z) (img : list byte) : Prop := commit_page read_page Read pc i = Ok img /\ is_block img.

Lemma page_in_range pc i img : pc_ok pc -> page_is pc i img -> i * PAGE_SIZE + PAGE_SIZE <= pc_size pc.
Proof.
  intros [Hs Ha _] [H _]. unfold commit_page in H. destruct (Z.ltb_spec i (div_ceil (pc_size pc) PAGE_SIZE)); [|done].
  apply Z.mod_divide in Ha as [k Hk]; [|done]. rewrite Hk in *. rewrite div_ceil_mult in *. unfold PAGE_SIZE. lia.
Qed.

(** A read inside one page. *)
Lemma read_bytes_page pc i img off buf :
  pc_ok pc -> page_is pc i img -> 0 <= i -> 0 <= off -> off + zlen buf <= PAGE_SIZE ->
  read_bytes read_page pc (i * PAGE_SIZE + off) buf = Ok (slice off (zlen buf) img).
Proof.
  intros Hpc Hp Hi Ho H. pose proof (page_in_range pc i img Hpc Hp) as Hr. destruct Hp as [Hc Hb]. pose proof (zlen_nonneg buf) as Hl.
  unfold read_bytes, vmo_read, sat_sub. rewrite Z.max_r, Z.min_l by (unfold PAGE_SIZE in *; lia).
  destruct (Z.eqb_spec (zlen buf) 0) as [E|].
  - apply zlen_nil_inv in E as ->. by rewrite slice_nil by done.
  - rewrite one_page_range by lia. cbn [collect_pages]. rewrite Hc. cbn [rbind map concat snd map_err]. rewrite app_nil_r.
    rewrite Z.add_comm, Z.mod_add, Z.mod_small by (unfold PAGE_SIZE in *; lia). f_equal.
    assert (Hz : zlen (slice off (zlen buf) img) = zlen buf) by (unfold is_block in Hb; rewrite zlen_slice; unfold PAGE_SIZE, BLOCK_SIZE in *; lia).
    unfold splice. cbn [Z.to_nat take]. rewrite drop_ge; [by rewrite app_nil_r|]. unfold zlen in *. lia.
Qed.

Lemma read_raw_page pc i img off len :
  pc_ok pc -> page_is pc i img -> 0 <= i -> 0 <= off -> 0 <= len -> off + len <= PAGE_SIZE ->
  read_raw read_page pc (i * PAGE_SIZE + off) len = Ok (slice off len img).
Proof. intros. unfold read_raw. rewrite (read_bytes_page pc i img); rewrite ?zlen_zeros; done. Qed.

Lemma read_val_page {A} (c : codec A) pc i img off :
  pc_ok pc -> page_is pc i img -> 0 <= i -> 0 <= off -> 0 <= c_size c -> off + c_size c <= PAGE_SIZE ->
  read_val read_page c pc (i * PAGE_SIZE + off) = Ok (read_at c off img).
Proof. intros. unfold read_val. rewrite (read_raw_page pc i img) by done. done. Qed.

(** The state after a write that replaces page [i]. *)
Lemma set_page_ok pc i img : pc_ok pc -> 0 <= i < pc_size pc / PAGE_SIZE -> is_block img -> pc_ok (set_page pc i img).
Proof.
  intros [Hs Ha Hp] Hi Hb. split; cbn; try done. apply map_Forall_insert_2; [done|]. done.
Qed.

Lemma set_page_is pc i img : i * PAGE_SIZE + PAGE_SIZE <= pc_size pc -> is_block img -> page_is (set_page pc i img) i img.
Proof.
  intros Hi Hb. split; [|done]. unfold commit_page, set_page. cbn. rewrite lookup_insert_eq.
  assert (i < div_ceil (pc_size pc) PAGE_SIZE); [|by rewrite (proj2 (Z.ltb_lt _ _))].
  assert (div_ceil ((i + 1) * PAGE_SIZE) PAGE_SIZE <= div_ceil (pc_size pc) PAGE_SIZE); [|rewrite div_ceil_mult in *; lia].
  unfold div_ceil. apply Z.div_le_mono; unfold PAGE_SIZE in *; lia.
Qed.

Lemma set_page_other pc i j p img : j <> i -> page_is pc j img -> page_is (set_page pc i p) j img.
Proof. intros Hj [H Hb]. split; [|done]. unfold commit_page, set_page in *. cbn. by rewrite lookup_insert_ne. Qed.

(** A write inside one page. *)
Lemma vmo_write_page pc i img off data :
  pc_ok pc -> page_is pc i img -> 0 <= i -> 0 <= off -> 0 < zlen data < PAGE_SIZE -> off + zlen data <= PAGE_SIZE ->
  vmo_write read_page (i * PAGE_SIZE + off) data pc = (Ok tt, set_page pc i (splice off data img)).
Proof.
  intros Hpc Hp Hi Ho Hd H. pose proof (page_in_range pc i img Hpc Hp) as Hr. destruct Hp as [Hc Hb].
  unfold vmo_write, sat_sub. rewrite Z.max_r, Z.min_l by (unfold PAGE_SIZE in *; lia). rewrite (proj2 (Z.eqb_neq _ _)), (proj2 (Z.ltb_lt _ _)) by lia.
  unfold write_range. rewrite (proj2 (Z.eqb_neq _ _)) by lia. rewrite one_page_range by lia.
  replace (div_ceil (zlen data) PAGE_SIZE) with 1; [|unfold div_ceil; apply Z.div_unique with (zlen data - 1); lia].
  change (chunks (1 `min` PAGE_BATCH_CAPACITY) [i]) with [[i]]. unfold mbind, M_bind. cbn [write_pages collect_pages]. rewrite Hc. cbn [rbind write_batch].
  rewrite Z.add_comm, Z.mod_add, Z.mod_small by (unfold PAGE_SIZE in *; lia). unfold is_block in Hb.
  rewrite Z.min_r by (rewrite Hb; unfold PAGE_SIZE, BLOCK_SIZE in *; lia). rewrite slice_full by done. done.
Qed.

(** A write of a whole page of zeros does not read the page. *)
Lemma overwrite_page pc i :
  pc_ok pc -> 0 <= i -> i * PAGE_SIZE + PAGE_SIZE <= pc_size pc ->
  vmo_write read_page (i * PAGE_SIZE) (zeros PAGE_SIZE) pc = (Ok tt, set_page pc i (zeros PAGE_SIZE)).
Proof.
  intros [Hs Ha Hpg] Hi Hr. unfold vmo_write, sat_sub. rewrite zlen_zeros by done. rewrite Z.max_r, Z.min_l by (unfold PAGE_SIZE in *; lia).
  change (PAGE_SIZE =? 0) with false. cbv iota. change (PAGE_SIZE <? PAGE_SIZE) with false. cbv iota.
  rewrite Z.mod_mul by done. change (div_ceil PAGE_SIZE PAGE_SIZE `min` PAGE_BATCH_CAPACITY) with 1.
  unfold align_up, align_down. rewrite div_ceil_mult. replace (i * PAGE_SIZE + PAGE_SIZE) with ((i + 1) * PAGE_SIZE) by lia. rewrite Z.div_mul by done.
  unfold write_range. rewrite !Z.eqb_refl. unfold mbind, M_bind, mret, M_ret. cbn [fst snd].
  rewrite (proj2 (Z.eqb_neq _ _)) by (unfold PAGE_SIZE; lia).
  replace ((i + 1) * PAGE_SIZE) with (i * PAGE_SIZE + 0 + PAGE_SIZE) by lia. replace (i * PAGE_SIZE) with (i * PAGE_SIZE + 0) at 1 by lia.
  rewrite one_page_range by (unfold PAGE_SIZE; lia). change (chunks 1 [i]) with [[i]]. cbn [write_pages collect_pages].
  assert (Hc : exists p, commit_page read_page Overwrite pc i = Ok p /\ zlen p = PAGE_SIZE).
  { unfold commit_page. assert (i < div_ceil (pc_size pc) PAGE_SIZE) as Hlt.
    { apply Z.mod_divide in Ha as [k Hk]; [|done]. rewrite Hk in *. rewrite div_ceil_mult. unfold PAGE_SIZE in *. lia. }
    rewrite (proj2 (Z.ltb_lt _ _)) by done. destruct (pc_pages pc !! i) as [p|] eqn:E; [|exists (zeros PAGE_SIZE); by rewrite zlen_zeros].
    exists p. split; [done|]. apply (Hpg i p E). }
  destruct Hc as (p & -> & Hz). cbn [rbind write_batch]. rewrite zlen_zeros by done. rewrite Hz. change ((PAGE_SIZE - 0) `min` PAGE_SIZE) with PAGE_SIZE.
  rewrite slice_full by (by rewrite zlen_zeros). do 3 f_equal. unfold splice. cbn [Z.to_nat take].
  rewrite drop_ge; [by rewrite app_nil_r|]. unfold zlen, zeros in *. rewrite length_replicate. lia.
Qed.

(** [VmIo] writes inside one page. *)
Lemma write_bytes_page pc i img off data :
  pc_ok pc -> page_is pc i img -> 0 <= i -> 0 <= off -> 0 < zlen data < PAGE_SIZE -> off + zlen data <= PAGE_SIZE ->
  write_bytes read_page (i * PAGE_SIZE + off) data pc = (Ok tt, set_page pc i (splice off data img)).
Proof. intros. unfold write_bytes, map_errM. by rewrite (vmo_write_page pc i img) by done. Qed.

(** A fill of one whole page. *)
Lemma fill_page pc i :
  pc_ok pc -> 0 <= i -> i * PAGE_SIZE + PAGE_SIZE <= pc_size pc ->
  fill_zeros read_page (i * PAGE_SIZE) (i * PAGE_SIZE + PAGE_SIZE) pc = (Ok tt, set_page pc i (zeros PAGE_SIZE)).
Proof.
  intros Hpc Hi Hr. unfold fill_zeros. rewrite (proj2 (Z.leb_gt _ _)), (proj2 (Z.ltb_ge _ _)) by (unfold PAGE_SIZE in *; lia).
  destruct (Z.to_nat _) as [|fuel] eqn:Ef; [unfold PAGE_SIZE in Ef; lia|]. clear Ef. cbn [fill_loop].
  rewrite (proj2 (Z.leb_gt _ _)) by (unfold PAGE_SIZE; lia). rewrite Z.mod_mul by done.
  replace (_ `min` _) with PAGE_SIZE by (unfold PAGE_SIZE; lia). unfold mbind at 1, M_bind at 1.
  rewrite (overwrite_page pc i Hpc Hi Hr). destruct fuel; cbn [fill_loop]; by rewrite (proj2 (Z.leb_le _ _)) by lia.
Qed.

(** Growing the capacity at a page boundary adds unwritten pages only. *)
Lemma grow_page pc n :
  pc_ok pc -> 0 <= n -> pc_size pc = n * PAGE_SIZE ->
  pc_resize read_page (n * PAGE_SIZE + PAGE_SIZE) (n * PAGE_SIZE) pc = (Ok tt, {| pc_size := n * PAGE_SIZE + PAGE_SIZE; pc_pages := pc_pages pc |}).
Proof.
  intros Hpc Hn Hs. unfold pc_resize. rewrite (proj2 (Z.ltb_ge _ _)) by (unfold PAGE_SIZE; lia). cbn [andb].
  rewrite Z.mod_mul by done. rewrite Z.eqb_refl, andb_false_r. unfold mbind, M_bind, mret, M_ret, modify, set_capacity.
  rewrite (proj2 (Z.ltb_ge _ _)). 2: { unfold align_up. replace (n * PAGE_SIZE + PAGE_SIZE) with ((n + 1) * PAGE_SIZE) by lia. rewrite div_ceil_mult. unfold PAGE_SIZE in *. lia. }
  do 2 f_equal. unfold align_up. replace (n * PAGE_SIZE + PAGE_SIZE) with ((n + 1) * PAGE_SIZE) by lia. by rewrite div_ceil_mult.
Qed.

(** A read or a write past the capacity succeeds without doing anything. *)
Lemma past_capacity pc off len data :
  pc_size pc <= off -> 0 <= len ->
  read_raw read_page pc off len = Ok (zeros len) /\ vmo_write read_page off data pc = (Ok tt, pc).
Proof.
  intros H Hl. unfold read_raw, read_bytes, vmo_read, vmo_write, sat_sub. rewrite Z.max_l by lia. split.
  - rewrite Z.min_r by apply zlen_nonneg. rewrite Z.eqb_refl. cbn [rbind map_err]. done.
  - rewrite Z.min_r by apply zlen_nonneg. by rewrite Z.eqb_refl.
Qed.
End Lemmas.
