(* ===== verification/DirEntry.v ===== *)
(** * The records of a directory block

    Models [inode/dir/dir_entry.rs]: the header of a directory record, the
    bounded view of one block in the page cache, its iterator and the edits of
    records.  An iterator only reads, so it is the list of what it yields,
    with the error it ends on.  The second part relates the code to the image
    of a block: a well-formed block is a sequence of records that fills it, and
    the edits are described on that sequence. *)

From S2P Require Import Prelude Pod JournalFormat Device InodeRecord PageCache.

(** ** The code *)

Definition NAME_MAX : Z := 255.
Definition EXT4_FT_DIR_CSUM : Z := 0xDE.
Definition DIR_TAIL_LEN : Z := 12.
Definition DOT_BYTE : list byte := [Byte.x2e].
Definition DOT_DOT_BYTE : list byte := [Byte.x2e; Byte.x2e].

Record DirEntryHeader : Type := Header {
  de_ino : Z;
  de_rec_len : Z;
  de_name_len : Z;
  de_file_type : Z;
}.

Definition header_codec : codec DirEntryHeader :=
  struct (fun '(a, (b, (c, d))) => Header a b c d) (fun h => (de_ino h, (de_rec_len h, (de_name_len h, de_file_type h))))
    (le 4 ⊗ le 2 ⊗ le 1 ⊗ le 1)%codec.

#[export] Instance header_codec_ok : CodecOk header_codec.
Proof. apply struct_ok; [by intros (? & ? & ? & ?)|by intros []|apply _]. Qed.

Definition HEADER_LEN : Z := 8.
Definition dir_tail : DirEntryHeader := Header 0 DIR_TAIL_LEN 0 EXT4_FT_DIR_CSUM.

Definition REC_LEN_OFFSET : Z := 4.
Definition FILE_TYPE_OFFSET : Z := 7.
Definition ALIGN_MASK : Z := 3.

Definition min_rec_len (name_len : Z) : Z := u16 (div_ceil (name_len + HEADER_LEN) 4 * 4).

Inductive DirEntryFileType : Set :=
  | FtUnknown | FtFile | FtDir | FtCharDevice | FtBlockDevice | FtNamedPipe | FtSocket | FtSymLink.

(** [file_type as u8], and the derived [TryFromInt]. *)
Definition ft_code (t : DirEntryFileType) : Z :=
  match t with
  | FtUnknown => 0 | FtFile => 1 | FtDir => 2 | FtCharDevice => 3
  | FtBlockDevice => 4 | FtNamedPipe => 5 | FtSocket => 6 | FtSymLink => 7
  end.
Definition ft_of_code (v : Z) : option DirEntryFileType :=
  find (fun t => ft_code t =? v) [FtUnknown; FtFile; FtDir; FtCharDevice; FtBlockDevice; FtNamedPipe; FtSocket; FtSymLink].

Definition inode_type_of (t : DirEntryFileType) : InodeType :=
  match t with
  | FtUnknown => Unknown | FtFile => File | FtDir => Dir | FtCharDevice => CharDevice
  | FtBlockDevice => BlockDevice | FtNamedPipe => NamedPipe | FtSocket => Socket | FtSymLink => SymLink
  end.
Definition file_type_of (t : InodeType) : DirEntryFileType :=
  match t with
  | File => FtFile | Dir => FtDir | CharDevice => FtCharDevice | BlockDevice => FtBlockDevice
  | NamedPipe => FtNamedPipe | Socket => FtSocket | SymLink => FtSymLink | _ => FtUnknown
  end.

Record DirEntry : Type := { e_header : DirEntryHeader; e_name : list byte }.

Record DirBlockView : Type := { v_offset : Z; v_limit : Z }.

Definition view_from_index (block_idx file_size : Z) : DirBlockView :=
  let offset := block_idx * BLOCK_SIZE in
  {| v_offset := offset; v_limit := Z.min (sat_sub file_size offset) BLOCK_SIZE |}.

Definition create_view (offset limit : Z) : DirBlockView :=
  let block_remaining := BLOCK_SIZE - offset mod BLOCK_SIZE in
  {| v_offset := offset; v_limit := Z.min limit block_remaining |}.

Section Backend.
Variable read_page : Z -> result (list byte).

(** [DirBlockView::read_header] *)
Definition read_header (pc : PageCache) (v : DirBlockView) (offset : Z) : result DirEntryHeader :=
  check negb (v_offset v + v_limit v <? offset + HEADER_LEN) else EIO in
  let? header := map_err (fun _ => EIO) (read_val read_page header_codec pc offset) in
  let stop := v_offset v + v_limit v in
  let rec_len := de_rec_len header in
  check Z.land rec_len ALIGN_MASK =? 0 else EIO in
  let name_len := de_name_len header in
  check negb (NAME_MAX <? name_len) else EIO in
  check negb (negb (de_ino header =? 0) && (name_len =? 0)) else EIO in
  check negb (rec_len <? min_rec_len name_len) else EIO in
  check negb (stop <? offset + rec_len) else EIO in
  Ok header.

(** [next_entry_header]: the offset in the block, the header, and the cursor
    it moves to. *)
Definition next_entry_header (pc : PageCache) (v : DirBlockView) (cursor : Z) : result (option (Z * DirEntryHeader * Z)) :=
  let stop := v_offset v + v_limit v in
  if stop <=? cursor then Ok None
  else
    let? header := read_header pc v cursor in
    Ok (Some (cursor - v_offset v, header, cursor + de_rec_len header)).

(** [next_entry]: also the name, read into the reused buffer. *)
Definition next_entry (pc : PageCache) (v : DirBlockView) (cursor : Z) (name_buf : list byte)
  : result (option (Z * DirEntry * Z * list byte)) :=
  let? next := next_entry_header pc v cursor in
  match next with
  | None => Ok None
  | Some (entry_offset, header, cursor) =>
      if negb (de_ino header =? 0) then
        let name_len := de_name_len header in
        let name_abs_offset := v_offset v + entry_offset + HEADER_LEN in
        let? name := read_bytes read_page pc name_abs_offset (slice 0 name_len name_buf) in
        Ok (Some (entry_offset, {| e_header := header; e_name := name |}, cursor, splice 0 name name_buf))
      else Ok (Some (entry_offset, {| e_header := header; e_name := [] |}, cursor, name_buf))
  end.

(** What an iterator yields, and the error it ends on if any. *)
Fixpoint headers_from (fuel : nat) (pc : PageCache) (v : DirBlockView) (cursor : Z) : list (Z * DirEntryHeader) * option errno :=
  match next_entry_header pc v cursor with
  | Err e => ([], Some e)
  | Ok None => ([], None)
  | Ok (Some (off, h, cursor)) =>
      match fuel with
      | O => ([], Some DIVERGE)
      | Datatypes.S fuel => let '(l, e) := headers_from fuel pc v cursor in ((off, h) :: l, e)
      end
  end.

Fixpoint entries_from (fuel : nat) (pc : PageCache) (v : DirBlockView) (cursor : Z) (name_buf : list byte)
  : list (Z * DirEntry) * option errno :=
  match next_entry pc v cursor name_buf with
  | Err e => ([], Some e)
  | Ok None => ([], None)
  | Ok (Some (off, d, cursor, name_buf)) =>
      match fuel with
      | O => ([], Some DIVERGE)
      | Datatypes.S fuel => let '(l, e) := entries_from fuel pc v cursor name_buf in ((off, d) :: l, e)
      end
  end.

(** [iter_entries]; a record takes eight bytes at least. *)
Definition iter_headers (pc : PageCache) (v : DirBlockView) : list (Z * DirEntryHeader) * option errno :=
  headers_from (Z.to_nat (v_limit v)) pc v (v_offset v).
Definition iter_entries (pc : PageCache) (v : DirBlockView) : list (Z * DirEntry) * option errno :=
  entries_from (Z.to_nat (v_limit v)) pc v (v_offset v) (zeros NAME_MAX).

(** [DirBlockView::write_entry] *)
Definition write_entry (v : DirBlockView) (entry_offset : Z) (header : DirEntryHeader) (name : list byte) : M PageCache unit :=
  let entry_abs_offset := v_offset v + entry_offset in
  write_val read_page header_codec entry_abs_offset header;;
  if negb (zlen name =? 0) then write_bytes read_page (entry_abs_offset + HEADER_LEN) name else mret tt.

Definition set_inode (v : DirBlockView) (entry_offset ino : Z) : M PageCache unit :=
  write_val read_page (le 4) (v_offset v + entry_offset) ino.
Definition set_rec_len (v : DirBlockView) (entry_offset rec_len : Z) : M PageCache unit :=
  write_val read_page (le 2) (v_offset v + entry_offset + REC_LEN_OFFSET) rec_len.
Definition set_file_type (v : DirBlockView) (entry_offset : Z) (file_type : DirEntryFileType) : M PageCache unit :=
  write_val read_page (le 1) (v_offset v + entry_offset + FILE_TYPE_OFFSET) (ft_code file_type).

(** The walk of [delete_entry] to the predecessor. *)
Fixpoint find_prev (fuel : nat) (pc : PageCache) (v : DirBlockView) (current entry_offset : Z) (prev : option Z) : result (option Z) :=
  if entry_offset <=? current then check current =? entry_offset else EIO in Ok prev
  else match fuel with
       | O => Err DIVERGE
       | Datatypes.S fuel =>
           let? header := map_err (fun _ => EIO) (read_val read_page header_codec pc (v_offset v + current)) in
           let rec_len := de_rec_len header in
           check negb (rec_len =? 0) else EIO in
           let next := current + rec_len in
           check negb (v_limit v <? next) else EIO in
           find_prev fuel pc v next entry_offset (Some current)
       end.

(** [DirBlockView::delete_entry] *)
Definition block_delete_entry (v : DirBlockView) (entry_offset entry_rec_len : Z) : M PageCache unit :=
  let entry_end_offset := entry_offset + entry_rec_len in
  if (entry_rec_len =? 0) || (v_limit v <? entry_end_offset) then fail EIO
  else
    pc ← get;
    prev ← lift (find_prev (Z.to_nat entry_offset) pc v (align_down entry_offset) entry_offset None);
    match prev with
    | Some prev_entry_offset => set_rec_len v prev_entry_offset (u16 (entry_end_offset - prev_entry_offset))
    | None => mret tt
    end;;
    set_inode v entry_offset 0.
End Backend.

(** ** Blocks as sequences of records *)

Definition header_at (img : list byte) (off : Z) : DirEntryHeader := read_at header_codec off img.

(** A record that [read_header] accepts at [off] of a block with [limit]
    bytes. *)
Definition rec_ok (limit off : Z) (h : DirEntryHeader) : bool :=
  (off + HEADER_LEN <=? limit) && (Z.land (de_rec_len h) ALIGN_MASK =? 0) && negb (negb (de_ino h =? 0) && (de_name_len h =? 0)) &&
  (min_rec_len (de_name_len h) <=? de_rec_len h) && (off + de_rec_len h <=? limit).

(** The records of [img] from [off] on, up to [stop] exactly. *)
Inductive seg (img : list byte) (limit : Z) : Z -> Z -> list (Z * DirEntryHeader) -> Prop :=
  | seg_nil off : seg img limit off off []
  | seg_cons off stop l :
      rec_ok limit off (header_at img off) = true ->
      seg img limit (off + de_rec_len (header_at img off)) stop l ->
      seg img limit off stop ((off, header_at img off) :: l).

Definition entry_name (img : list byte) (p : Z * DirEntryHeader) : list byte := slice (p.1 + HEADER_LEN) (de_name_len p.2) img.
Definition entry_of (img : list byte) (p : Z * DirEntryHeader) : Z * DirEntry :=
  (p.1, {| e_header := p.2; e_name := if de_ino p.2 =? 0 then [] else entry_name img p |}).

(** The names a run of records holds: name, inode and type of the live ones. *)
Definition live_of (img : list byte) (p : Z * DirEntryHeader) : option (list byte * Z * Z) :=
  if de_ino p.2 =? 0 then None else Some (entry_name img p, de_ino p.2, de_file_type p.2).
Definition live (img : list byte) (l : list (Z * DirEntryHeader)) : list (list byte * Z * Z) := omap (live_of img) l.

Lemma dir_header_size : c_size header_codec = HEADER_LEN.
Proof. done. Qed.

Lemma dir_header_wf img off : 0 <= off -> off + HEADER_LEN <= zlen img -> c_wf header_codec (header_at img off).
Proof. intros. apply read_at_wf; [apply _|done|by rewrite dir_header_size]. Qed.

Lemma wf_fields h : c_wf header_codec h -> fits 32 (de_ino h) /\ fits 16 (de_rec_len h) /\ fits 8 (de_name_len h) /\ fits 8 (de_file_type h).
Proof. intros (? & ? & ? & ?). by split_and!. Qed.

Lemma fields_wf h : fits 32 (de_ino h) -> fits 16 (de_rec_len h) -> fits 8 (de_name_len h) -> fits 8 (de_file_type h) -> c_wf header_codec h.
Proof. done. Qed.

Lemma min_rec_len_bounds n : 0 <= n <= 255 -> n + HEADER_LEN <= min_rec_len n <= n + HEADER_LEN + 3 /\ min_rec_len n mod 4 = 0.
Proof.
  intros Hn. unfold min_rec_len, u16, HEADER_LEN, div_ceil. pose proof (Z.mod_pos_bound (n + 8 + 4 - 1) 4 ltac:(lia)).
  pose proof (Z.div_mod (n + 8 + 4 - 1) 4 ltac:(lia)). rewrite wrap_small by (unfold fits; lia).
  split; [lia|]. by rewrite Z.mod_mul.
Qed.

Lemma rec_ok_spec limit off h : c_wf header_codec h -> rec_ok limit off h = true ->
  off + HEADER_LEN <= limit /\ de_rec_len h mod 4 = 0 /\ (de_ino h <> 0 -> 0 < de_name_len h) /\
  min_rec_len (de_name_len h) <= de_rec_len h /\ off + de_rec_len h <= limit /\ HEADER_LEN <= de_rec_len h /\
  de_name_len h + HEADER_LEN <= de_rec_len h.
Proof.
  intros (_ & _ & Hn & _)%wf_fields H. unfold rec_ok in H. apply andb_prop in H as [[[[H1 H2]%andb_prop H3]%andb_prop H4]%andb_prop H5].
  destruct (min_rec_len_bounds (de_name_len h)) as [[? _] _]; [unfold fits in Hn; lia|].
  change ALIGN_MASK with (Z.ones 2) in H2. apply Z.eqb_eq in H2. rewrite Z.land_ones in H2 by lia. change (2 ^ 2) with 4 in H2. unfold fits, HEADER_LEN in *.
  split_and!; lia.
Qed.

Section Seg.
Implicit Types (img : list byte) (limit off stop mid : Z) (l : list (Z * DirEntryHeader)).

Lemma seg_app img limit off stop l1 l2 : seg img limit off stop (l1 ++ l2) <-> exists mid, seg img limit off mid l1 /\ seg img limit mid stop l2.
Proof.
  split.
  - revert off. induction l1 as [|[o h] l1 IH]; intros off H; cbn in H; [exists off; by split; [constructor|]|].
    inversion H; subst. destruct (IH _ ltac:(eassumption)) as (mid & H1 & H2). exists mid. split; [by constructor|done].
  - intros (mid & H1 & H2). revert H2. induction H1 as [|off stop' l Hr _ IH]; intros H2; cbn; [done|]. constructor; [done|]. by apply IH.
Qed.

Lemma seg_one img limit off h : header_at img off = h -> rec_ok limit off h = true -> seg img limit off (off + de_rec_len h) [(off, h)].
Proof. intros <- H. constructor; [done|constructor]. Qed.

(** The records of a run are inside it. *)
Lemma seg_bounds img limit off stop l : zlen img = BLOCK_SIZE -> limit <= BLOCK_SIZE -> 0 <= off -> seg img limit off stop l ->
  off <= stop /\ Forall (fun p => header_at img p.1 = p.2 /\ rec_ok limit p.1 p.2 = true /\ c_wf header_codec p.2 /\ off <= p.1 /\ p.1 + de_rec_len p.2 <= stop) l.
Proof.
  intros Hz Hlim Ho H. induction H as [off|off stop l Hr H IH]; [split; [lia|constructor]|].
  assert (Hw : c_wf header_codec (header_at img off)).
  { apply dir_header_wf; [done|]. unfold rec_ok in Hr. apply andb_prop in Hr as [[[[H1 _]%andb_prop _]%andb_prop _]%andb_prop _]. lia. }
  destruct (rec_ok_spec _ _ _ Hw Hr) as (_ & _ & _ & _ & _ & H8 & _). unfold HEADER_LEN in H8. destruct IH as [Hs Hl]; [lia|].
  split; [lia|]. constructor; [cbn [fst snd]; split_and!; done || lia|]. eapply Forall_impl; [exact Hl|]. cbn [fst snd]. intros p (? & ? & ? & ? & ?). split_and!; done || lia.
Qed.

(** A run depends on its own bytes only. *)
Lemma seg_frame img img' limit off stop l :
  zlen img = BLOCK_SIZE -> zlen img' = BLOCK_SIZE -> limit <= BLOCK_SIZE -> 0 <= off -> seg img limit off stop l -> slice off (stop - off) img' = slice off (stop - off) img ->
  seg img' limit off stop l /\ live img' l = live img l.
Proof.
  intros Hz Hz' Hlim Ho H. induction H as [off|off stop l Hr H IH]; intros Hs; [split; [constructor|done]|].
  assert (Hseg : seg img limit off stop ((off, header_at img off) :: l)) by (by constructor).
  destruct (seg_bounds _ _ _ _ _ Hz Hlim Ho Hseg) as [Hle Hall]. apply Forall_cons in Hall as [(_ & _ & Hw & _ & Hin) _]. cbn [fst snd] in *.
  destruct (rec_ok_spec _ _ _ Hw Hr) as (_ & _ & _ & _ & _ & H8 & Hn). unfold HEADER_LEN in *.
  assert (Hsub : forall o n, off <= o -> 0 <= n -> o + n <= stop -> slice o n img' = slice o n img).
  { intros o n H1 H2 H3. replace o with (off + (o - off)) by lia. rewrite <- !(slice_slice (o - off) n off (stop - off)) by lia. by rewrite Hs. }
  assert (Hh : header_at img' off = header_at img off) by (unfold header_at, read_at; f_equal; apply Hsub; rewrite ?dir_header_size; unfold HEADER_LEN; lia).
  destruct IH as [I1 I2]; [lia| |].
  { apply Hsub; lia. }
  split; [rewrite <- Hh in Hr, I1 |- *; by constructor|]. unfold live in *. cbn [omap list_omap]. rewrite I2. unfold live_of at 1 3. cbn [fst snd].
  unfold entry_name. cbn [fst snd]. pose proof Hw as (_ & _ & [Hn0 _] & _)%wf_fields. unfold HEADER_LEN. by rewrite Hsub by lia.
Qed.

Lemma live_app img l1 l2 : live img (l1 ++ l2) = live img l1 ++ live img l2.
Proof. apply omap_app. Qed.

Lemma seg_unique img limit off stop l l' : seg img limit off stop l -> zlen img = BLOCK_SIZE -> limit <= BLOCK_SIZE -> 0 <= off ->
  seg img limit off stop l' -> l = l'.
Proof.
  intros H Hz Hlim. revert l'. induction H as [off|off stop l Hr H IH]; intros l' Ho H'.
  - inversion H' as [|? ? ? Hr' Hl']; subst; [done|]. destruct (seg_bounds _ _ _ _ _ Hz Hlim Ho H') as [_ Hall]. apply Forall_cons in Hall as [(_ & _ & Hw & _ & Hin) _].
    destruct (rec_ok_spec _ _ _ Hw Hr') as (_ & _ & _ & _ & _ & H8 & _). cbn in *. unfold HEADER_LEN in *. lia.
  - assert (Hseg : seg img limit off stop ((off, header_at img off) :: l)) by (by constructor).
    destruct (seg_bounds _ _ _ _ _ Hz Hlim Ho Hseg) as [_ Hall]. apply Forall_cons in Hall as [(_ & _ & Hw & _ & Hin) _]. cbn [fst snd] in *.
    destruct (rec_ok_spec _ _ _ Hw Hr) as (_ & _ & _ & _ & _ & H8 & _). unfold HEADER_LEN in *.
    inversion H' as [|? ? ? Hr' Hl']; subst; [|f_equal; apply IH; [lia|done]].
    destruct (seg_bounds _ _ _ _ _ Hz Hlim ltac:(lia) H) as [? _]. lia.
Qed.
End Seg.
