(* ===== verification/DirBlock.v ===== *)
(** * Reading and editing a directory block

    The iterators of [dir_entry.rs] on the image of a block: they end, with
    the records that fill the block or with [EIO] at the first malformed one.
    The edits on the sequence of records: splitting a live record, reusing a
    free one, merging a deleted one into its predecessor, and repointing a
    record, each with the names it leaves. *)

From S2P Require Import Prelude Pod JournalFormat Device InodeRecord PageCache DirEntry.

(** ** Iterating *)

Section Iterate.
Context (read_page : Z -> result (list byte)) (pc : PageCache) (i limit : Z) (img : list byte).
Context (Hpc : pc_ok pc) (Hpage : page_is read_page pc i img) (Hi : 0 <= i) (Hlim : 0 <= limit <= BLOCK_SIZE).

Notation v := {| v_offset := i * PAGE_SIZE; v_limit := limit |}.

Lemma read_header_page off : 0 <= off ->
  read_header read_page pc v (i * PAGE_SIZE + off) = if rec_ok limit off (header_at img off) then Ok (header_at img off) else Err EIO.
Proof.
  intros Ho. unfold read_header, rec_ok. cbn [v_offset v_limit].
  destruct (Z.ltb_spec (i * PAGE_SIZE + limit) (i * PAGE_SIZE + off + HEADER_LEN)); cbn [negb].
  { by rewrite (proj2 (Z.leb_gt _ _)) by lia. }
  rewrite (proj2 (Z.leb_le _ _)) by lia. cbn [andb]. unfold HEADER_LEN, BLOCK_SIZE, PAGE_SIZE in *.
  rewrite (read_val_page read_page header_codec pc i img) by (rewrite ?dir_header_size; unfold HEADER_LEN, PAGE_SIZE; done || lia).
  cbn [map_err rbind]. fold (header_at img off).
  assert (Hw : c_wf header_codec (header_at img off)).
  { destruct Hpage as [_ Hb]. unfold is_block in Hb. apply dir_header_wf; unfold HEADER_LEN, BLOCK_SIZE in *; lia. }
  apply wf_fields in Hw as (_ & _ & [_ Hn] & _).
  destruct (Z.eqb_spec (Z.land (de_rec_len (header_at img off)) ALIGN_MASK) 0); [|done]. cbn [andb].
  rewrite (proj2 (Z.ltb_ge NAME_MAX _)) by (unfold NAME_MAX; lia). cbn [negb andb].
  destruct (negb (de_ino (header_at img off) =? 0) && (de_name_len (header_at img off) =? 0)); [done|]. cbn [negb andb].
  rewrite !Z.ltb_antisym, !negb_involutive. destruct (_ <=? _); [|done]. cbn [andb].
  replace (i * 4096 + off + de_rec_len (header_at img off) <=? i * 4096 + limit) with (off + de_rec_len (header_at img off) <=? limit); [done|].
  destruct (Z.leb_spec (off + de_rec_len (header_at img off)) limit); symmetry; [apply Z.leb_le|apply Z.leb_gt]; lia.
Qed.

Lemma next_header_page off : 0 <= off ->
  next_entry_header read_page pc v (i * PAGE_SIZE + off) =
    if limit <=? off then Ok None
    else if rec_ok limit off (header_at img off) then Ok (Some (off, header_at img off, i * PAGE_SIZE + (off + de_rec_len (header_at img off)))) else Err EIO.
Proof.
  intros Ho. unfold next_entry_header. cbn [v_offset v_limit].
  replace (i * PAGE_SIZE + limit <=? i * PAGE_SIZE + off) with (limit <=? off).
  2: { destruct (Z.leb_spec limit off); symmetry; [apply Z.leb_le|apply Z.leb_gt]; lia. }
  destruct (limit <=? off); [done|]. rewrite read_header_page by done. destruct (rec_ok _ _ _); [|done]. cbn [rbind].
  replace (i * PAGE_SIZE + off - i * PAGE_SIZE) with off by lia. by rewrite Z.add_assoc.
Qed.

(** The records before the first malformed one. *)
Definition readable (off mid : Z) (l : list (Z * DirEntryHeader)) : Prop :=
  seg img limit off mid l /\ (mid = limit \/ mid < limit /\ rec_ok limit mid (header_at img mid) = false).

Definition ends_at (mid : Z) : option errno := if mid =? limit then None else Some EIO.

Lemma rec_advances off : 0 <= off -> rec_ok limit off (header_at img off) = true ->
  off + HEADER_LEN <= off + de_rec_len (header_at img off) <= limit /\ c_wf header_codec (header_at img off).
Proof.
  intros Ho H. destruct Hpage as [_ Hb]. unfold is_block in Hb.
  assert (Hw : c_wf header_codec (header_at img off)).
  { apply dir_header_wf; [done|]. unfold rec_ok in H. apply andb_prop in H as [[[[H1 _]%andb_prop _]%andb_prop _]%andb_prop _]. lia. }
  destruct (rec_ok_spec _ _ _ Hw H) as (_ & _ & _ & _ & ? & ? & _). split; [lia|done].
Qed.

Lemma headers_from_spec fuel : forall off, 0 <= off <= limit -> limit - off <= Z.of_nat fuel ->
  exists l mid, headers_from read_page fuel pc v (i * PAGE_SIZE + off) = (l, ends_at mid) /\ readable off mid l.
Proof.
  induction fuel as [|fuel IH]; intros off Ho Hf; cbn [headers_from]; rewrite next_header_page by lia.
  - rewrite (proj2 (Z.leb_le _ _)) by lia. exists [], off. unfold ends_at. rewrite (proj2 (Z.eqb_eq _ _)) by lia.
    split; [done|]. split; [constructor|left; lia].
  - destruct (Z.leb_spec limit off).
    { exists [], off. unfold ends_at. rewrite (proj2 (Z.eqb_eq _ _)) by lia. split; [done|]. split; [constructor|left; lia]. }
    destruct (rec_ok _ _ _) eqn:Hr.
    2: { exists [], off. unfold ends_at. rewrite (proj2 (Z.eqb_neq _ _)) by lia. split; [done|]. split; [constructor|by right]. }
    destruct (rec_advances off ltac:(lia) Hr) as [Ha _]. unfold HEADER_LEN in Ha.
    destruct (IH (off + de_rec_len (header_at img off))) as (l & mid & E & Hl & Hm); [lia|lia|]. rewrite E.
    exists ((off, header_at img off) :: l), mid. split; [done|]. split; [by constructor|done].
Qed.

Lemma iter_headers_spec : exists l mid, iter_headers read_page pc v = (l, ends_at mid) /\ readable 0 mid l.
Proof.
  pose proof (headers_from_spec (Z.to_nat limit) 0 ltac:(lia) ltac:(lia)) as H. by rewrite Z.add_0_r in H.
Qed.

Lemma entries_from_spec fuel : forall off buf, 0 <= off <= limit -> limit - off <= Z.of_nat fuel -> zlen buf = NAME_MAX ->
  exists l mid, entries_from read_page fuel pc v (i * PAGE_SIZE + off) buf = (entry_of img <$> l, ends_at mid) /\ readable off mid l.
Proof.
  induction fuel as [|fuel IH]; intros off buf Ho Hf Hb; cbn [entries_from]; unfold next_entry; rewrite next_header_page by lia.
  - rewrite (proj2 (Z.leb_le _ _)) by lia. exists [], off. unfold ends_at. rewrite (proj2 (Z.eqb_eq _ _)) by lia.
    split; [done|]. split; [constructor|left; lia].
  - destruct (Z.leb_spec limit off); cbn [rbind].
    { exists [], off. unfold ends_at. rewrite (proj2 (Z.eqb_eq _ _)) by lia. split; [done|]. split; [constructor|left; lia]. }
    destruct (rec_ok _ _ _) eqn:Hr; cbn [rbind].
    2: { exists [], off. unfold ends_at. rewrite (proj2 (Z.eqb_neq _ _)) by lia. split; [done|]. split; [constructor|by right]. }
    destruct (rec_advances off ltac:(lia) Hr) as [Ha Hw]. unfold HEADER_LEN in Ha. set (h := header_at img off) in *. cbn [v_offset]. cbv zeta.
    assert (Hnext : exists buf', zlen buf' = NAME_MAX /\
      (if negb (de_ino h =? 0) then
        let? name := read_bytes read_page pc (i * PAGE_SIZE + off + HEADER_LEN) (slice 0 (de_name_len h) buf) in
        Ok (Some (off, {| e_header := h; e_name := name |}, i * PAGE_SIZE + (off + de_rec_len h), splice 0 name buf))
      else Ok (Some (off, {| e_header := h; e_name := [] |}, i * PAGE_SIZE + (off + de_rec_len h), buf))) =
      Ok (Some ((entry_of img (off, h)).1, (entry_of img (off, h)).2, i * PAGE_SIZE + (off + de_rec_len h), buf'))).
    { unfold entry_of, entry_name. cbn [fst snd]. destruct (Z.eqb_spec (de_ino h) 0); cbn [negb]; [by exists buf|].
      destruct (rec_ok_spec _ _ _ Hw Hr) as (_ & _ & _ & _ & _ & _ & Hn). apply wf_fields in Hw as (_ & _ & Hnl & _). unfold fits in Hnl.
      assert (Hlen : zlen (slice 0 (de_name_len h) buf) = de_name_len h) by (apply zlen_slice; unfold NAME_MAX in *; lia).
      assert (Hname : read_bytes read_page pc (i * PAGE_SIZE + off + HEADER_LEN) (slice 0 (de_name_len h) buf) = Ok (slice (off + HEADER_LEN) (de_name_len h) img)).
      { replace (i * PAGE_SIZE + off + HEADER_LEN) with (i * PAGE_SIZE + (off + HEADER_LEN)) by lia.
        rewrite (read_bytes_page read_page pc i img) by (unfold HEADER_LEN, PAGE_SIZE, BLOCK_SIZE in *; done || lia). by rewrite Hlen. }
      rewrite Hname. cbn [rbind]. eexists. split; [|done]. destruct Hpage as [_ Hblk]. unfold is_block in Hblk.
      rewrite zlen_splice; [done|lia|]. rewrite zlen_slice; unfold HEADER_LEN, BLOCK_SIZE, NAME_MAX in *; lia. }
    destruct Hnext as (buf' & Hb' & ->). destruct (IH (off + de_rec_len h) buf') as (l & mid & E & Hl & Hm); [lia|lia|done|]. rewrite E.
    exists ((off, h) :: l), mid. split; [done|]. split; [by constructor|done].
Qed.

Lemma iter_entries_spec : exists l mid, iter_entries read_page pc v = (entry_of img <$> l, ends_at mid) /\ readable 0 mid l.
Proof.
  pose proof (entries_from_spec (Z.to_nat limit) 0 (zeros NAME_MAX) ltac:(lia) ltac:(lia) ltac:(done)) as H. by rewrite Z.add_0_r in H.
Qed.

(** On a well-formed block. *)
Lemma seg_no_stop off mid l l' : 0 <= off -> seg img limit off mid l -> mid < limit -> rec_ok limit mid (header_at img mid) = false ->
  seg img limit off limit l' -> False.
Proof.
  intros H0 Hs Hlt Hbad. revert l'. induction Hs as [off|off mid l Hr Hs IH]; intros l' H'.
  - inversion H' as [|? ? ? Hr' _]; subst; [lia|congruence].
  - destruct (rec_advances off ltac:(lia) Hr) as [? _]. unfold HEADER_LEN in *. inversion H' as [|? ? ? Hr' Hl']; subst; [lia|].
    by eapply IH; [lia| | |exact Hl'].
Qed.

Lemma readable_full mid l l' : readable 0 mid l -> seg img limit 0 limit l' -> mid = limit /\ l = l'.
Proof.
  intros [Hs Hm] H'. destruct Hpage as [_ Hb]. unfold is_block in Hb.
  assert (mid = limit) as ->; [|split; [done|by eapply (seg_unique img limit 0 limit); try done; lia]].
  destruct Hm as [|[Hlt Hbad]]; [done|exfalso]. by eapply (seg_no_stop 0 mid l l').
Qed.

Lemma iter_headers_full l : seg img limit 0 limit l -> iter_headers read_page pc v = (l, None).
Proof.
  intros H. destruct iter_headers_spec as (l' & mid & -> & Hr). destruct (readable_full _ _ _ Hr H) as [-> ->].
  unfold ends_at. by rewrite Z.eqb_refl.
Qed.

Lemma iter_entries_full l : seg img limit 0 limit l -> iter_entries read_page pc v = (entry_of img <$> l, None).
Proof.
  intros H. destruct iter_entries_spec as (l' & mid & -> & Hr). destruct (readable_full _ _ _ Hr H) as [-> ->].
  unfold ends_at. by rewrite Z.eqb_refl.
Qed.

(** The walk to the predecessor of a record. *)
Lemma find_prev_spec fuel : forall l cur off prev, 0 <= cur -> seg img limit cur off l -> off <= limit -> (length l <= fuel)%nat ->
  find_prev read_page fuel pc v cur off prev = Ok (match last l with Some p => Some p.1 | None => prev end).
Proof.
  induction fuel as [|fuel IH]; intros l cur off prev Hc Hs Hle Hf; cbn [find_prev].
  - destruct l; [|cbn in Hf; lia]. inversion Hs; subst. by rewrite Z.leb_refl, Z.eqb_refl.
  - inversion Hs as [|? ? l' Hr Hl']; subst; [by rewrite Z.leb_refl, Z.eqb_refl|].
    destruct (rec_advances cur ltac:(lia) Hr) as [Ha _]. unfold HEADER_LEN in Ha. destruct Hpage as [_ Hb]. unfold is_block in Hb.
    destruct (seg_bounds img limit (cur + de_rec_len (header_at img cur)) off l' Hb ltac:(lia) ltac:(lia) Hl') as [Hoff _].
    rewrite (proj2 (Z.leb_gt _ _)) by lia. cbn [v_offset]. unfold BLOCK_SIZE in *.
    rewrite (read_val_page read_page header_codec pc i img) by (rewrite ?dir_header_size; unfold HEADER_LEN, PAGE_SIZE; done || lia). cbn [map_err rbind].
    fold (header_at img cur). rewrite (proj2 (Z.eqb_neq _ _)) by lia. cbn [negb v_limit]. rewrite (proj2 (Z.ltb_ge _ _)) by lia. cbn [negb].
    rewrite (IH l') by (done || lia || (cbn in Hf; lia)). rewrite last_cons. by destruct (last l').
Qed.
End Iterate.

(** ** Editing *)

(** A header and a name written at [off]. *)
Definition put_header (off : Z) (h : DirEntryHeader) (img : list byte) : list byte := write_at header_codec off h img.
Definition put_entry (off : Z) (h : DirEntryHeader) (name img : list byte) : list byte := splice (off + HEADER_LEN) name (put_header off h img).

Definition with_ino (h : DirEntryHeader) (ino : Z) : DirEntryHeader := Header ino (de_rec_len h) (de_name_len h) (de_file_type h).
Definition with_rec_len (h : DirEntryHeader) (n : Z) : DirEntryHeader := Header (de_ino h) n (de_name_len h) (de_file_type h).
Definition with_type (h : DirEntryHeader) (t : Z) : DirEntryHeader := Header (de_ino h) (de_rec_len h) (de_name_len h) t.

Lemma splice_nested {A} o p n (s l : list A) : 0 <= o -> 0 <= p -> p + zlen s <= n -> o + n <= zlen l ->
  splice (o + p) s l = splice o (splice p s (slice o n l)) l.
Proof.
  intros Ho Hp Hs Hn. pose proof (zlen_nonneg s). apply list_eq. intros k.
  assert (Hz : zlen (splice p s (slice o n l)) = n) by (rewrite zlen_splice; rewrite ?zlen_slice; lia).
  rewrite !lookup_splice by lia. rewrite Hz. repeat case_decide; try lia; try done.
  - rewrite lookup_splice by (rewrite ?zlen_slice; lia). rewrite decide_True by lia. f_equal. lia.
  - rewrite lookup_splice by (rewrite ?zlen_slice; lia). rewrite decide_False by lia. rewrite lookup_slice, decide_True by lia. f_equal. lia.
Qed.

Section Fields.
Context (img : list byte) (off : Z) (Hb : is_block img) (Ho : 0 <= off) (Hle : off + HEADER_LEN <= BLOCK_SIZE).

Lemma header_bytes : slice off HEADER_LEN img = as_bytes header_codec (header_at img off).
Proof. symmetry. apply codec_enc_dec. unfold is_block in Hb. by rewrite zlen_slice by (unfold HEADER_LEN in *; lia). Qed.

(** Patching one field of a header is writing the header with that field. *)
Lemma patch_field p n v (f : DirEntryHeader -> DirEntryHeader) :
  0 <= p -> p + Z.of_nat n <= HEADER_LEN ->
  splice p (le_bytes n v) (as_bytes header_codec (header_at img off)) = as_bytes header_codec (f (header_at img off)) ->
  splice (off + p) (le_bytes n v) img = put_header off (f (header_at img off)) img.
Proof.
  intros Hp Hn E. unfold put_header, write_at. rewrite <- E, <- header_bytes. unfold is_block in Hb.
  apply splice_nested; rewrite ?zlen_le_bytes; lia.
Qed.

Ltac field_bytes h := destruct h; unfold header_codec, splice; cbn [struct as_bytes cpair le de_ino de_rec_len de_name_len de_file_type fst snd];
  cbn [with_ino with_rec_len with_type de_ino de_rec_len de_name_len de_file_type].

Lemma patch_ino v : splice off (le_bytes 4 v) img = put_header off (with_ino (header_at img off) v) img.
Proof. replace off with (off + 0) at 1 by lia. apply (patch_field 0 4 v (fun h => with_ino h v)); [lia|unfold HEADER_LEN; lia|]. by field_bytes (header_at img off). Qed.

Lemma patch_rec_len v : splice (off + REC_LEN_OFFSET) (le_bytes 2 v) img = put_header off (with_rec_len (header_at img off) v) img.
Proof. apply (patch_field REC_LEN_OFFSET 2 v (fun h => with_rec_len h v)); [done|unfold REC_LEN_OFFSET, HEADER_LEN; lia|]. by field_bytes (header_at img off). Qed.

Lemma patch_type v : splice (off + FILE_TYPE_OFFSET) (le_bytes 1 v) img = put_header off (with_type (header_at img off) v) img.
Proof. apply (patch_field FILE_TYPE_OFFSET 1 v (fun h => with_type h v)); [done|unfold FILE_TYPE_OFFSET, HEADER_LEN; lia|]. by field_bytes (header_at img off). Qed.
End Fields.

Lemma put_header_len off h img : 0 <= off -> off + HEADER_LEN <= zlen img -> c_wf header_codec h -> zlen (put_header off h img) = zlen img.
Proof. intros. by apply (zlen_write_at header_codec). Qed.

Lemma put_entry_len off h name img : 0 <= off -> off + HEADER_LEN + zlen name <= zlen img -> c_wf header_codec h -> zlen (put_entry off h name img) = zlen img.
Proof. intros. pose proof (zlen_nonneg name). unfold put_entry. rewrite zlen_splice; rewrite ?put_header_len; done || (unfold HEADER_LEN in *; lia). Qed.

Lemma put_header_at off h img : 0 <= off -> off + HEADER_LEN <= zlen img -> c_wf header_codec h -> header_at (put_header off h img) off = h.
Proof. intros. by apply (read_write_same header_codec). Qed.

Lemma put_header_slice off h img o n : 0 <= off -> off + HEADER_LEN <= zlen img -> c_wf header_codec h -> 0 <= o -> o + n <= off \/ off + HEADER_LEN <= o ->
  slice o n (put_header off h img) = slice o n img.
Proof. intros. by apply (slice_write_other header_codec). Qed.

Lemma put_entry_at off h name img : 0 <= off -> off + HEADER_LEN + zlen name <= zlen img -> c_wf header_codec h -> header_at (put_entry off h name img) off = h.
Proof.
  intros Ho Hl Hw. pose proof (zlen_nonneg name). unfold put_entry, header_at, read_at. rewrite dir_header_size.
  rewrite slice_splice_other; rewrite ?put_header_len; try done; try (unfold HEADER_LEN in *; lia).
  pose proof (put_header_at off h img Ho ltac:(lia) Hw) as E. unfold header_at, read_at in E. by rewrite dir_header_size in E.
Qed.

Lemma put_entry_name off h name img : 0 <= off -> off + HEADER_LEN + zlen name <= zlen img -> c_wf header_codec h -> slice (off + HEADER_LEN) (zlen name) (put_entry off h name img) = name.
Proof. intros Ho Hl Hw. pose proof (zlen_nonneg name). unfold put_entry. apply slice_splice_same; rewrite ?put_header_len; done || (unfold HEADER_LEN in *; lia). Qed.

Lemma put_entry_slice off h name img o n : 0 <= off -> off + HEADER_LEN + zlen name <= zlen img -> c_wf header_codec h -> 0 <= o ->
  o + n <= off \/ off + HEADER_LEN + zlen name <= o -> slice o n (put_entry off h name img) = slice o n img.
Proof.
  intros Ho Hl Hw Hp Hd. pose proof (zlen_nonneg name). unfold put_entry.
  rewrite slice_splice_other; rewrite ?put_header_len; try done; try (unfold HEADER_LEN in *; lia).
  apply put_header_slice; done || (unfold HEADER_LEN in *; lia).
Qed.

(** *** Edits of the sequence *)

Section Edit.
Context (limit : Z) (Hlim : 0 <= limit <= BLOCK_SIZE).
Implicit Types (img : list byte) (l : list (Z * DirEntryHeader)).

(** Replacing a run of records. *)
Lemma seg_replace img img' l1 lm l2 lm' a b :
  is_block img -> is_block img' -> seg img limit 0 a l1 -> seg img limit a b lm -> seg img limit b limit l2 ->
  slice 0 a img' = slice 0 a img -> slice b (BLOCK_SIZE - b) img' = slice b (BLOCK_SIZE - b) img -> seg img' limit a b lm' ->
  seg img' limit 0 limit (l1 ++ lm' ++ l2) /\ live img' (l1 ++ lm' ++ l2) = live img l1 ++ live img' lm' ++ live img l2.
Proof.
  unfold is_block. intros Hb Hb' H1 Hm H2 Ha Hc Hm'. destruct (seg_bounds img limit 0 a l1 Hb ltac:(lia) ltac:(lia) H1) as [Ha0 _].
  destruct (seg_bounds img limit a b lm Hb ltac:(lia) Ha0 Hm) as [Hab _]. destruct (seg_bounds img limit b limit l2 Hb ltac:(lia) ltac:(lia) H2) as [Hbl _].
  destruct (seg_frame img img' limit 0 a l1 Hb Hb' ltac:(lia) ltac:(lia) H1) as [S1 L1]; [by rewrite Z.sub_0_r|].
  destruct (seg_frame img img' limit b limit l2 Hb Hb' ltac:(lia) ltac:(lia) H2) as [S2 L2].
  { pose proof (f_equal (slice 0 (limit - b)) Hc) as E. by rewrite !slice_slice, Z.add_0_r in E by lia. }
  split; [|rewrite !live_app; by rewrite L1, L2]. apply seg_app. exists a. split; [done|]. apply seg_app. by exists b.
Qed.

(** A record of a well-formed block, and what is around it. *)
Lemma seg_at img l1 o h l2 : is_block img -> seg img limit 0 limit (l1 ++ (o, h) :: l2) ->
  seg img limit 0 o l1 /\ seg img limit o (o + de_rec_len h) [(o, h)] /\ seg img limit (o + de_rec_len h) limit l2 /\
  header_at img o = h /\ c_wf header_codec h /\ rec_ok limit o h = true /\ 0 <= o /\ o + HEADER_LEN <= limit /\ o + de_rec_len h <= limit.
Proof.
  unfold is_block. intros Hb H. apply seg_app in H as (mid & H1 & H2). inversion H2 as [|? ? ? Hr Hl]; subst.
  destruct (seg_bounds img limit 0 o l1 Hb ltac:(lia) ltac:(lia) H1) as [Ho _].
  destruct (seg_bounds img limit o limit ((o, header_at img o) :: l2) Hb ltac:(lia) Ho H2) as [_ Hall].
  apply Forall_cons in Hall as [(_ & _ & Hw & _ & Hin) _]. cbn [fst snd] in *. destruct (rec_ok_spec _ _ _ Hw Hr) as (? & _).
  split_and!; try done. by apply seg_one.
Qed.

Lemma rec_ok_intro o h : c_wf header_codec h -> o + HEADER_LEN <= limit -> de_rec_len h mod 4 = 0 -> (de_ino h <> 0 -> 0 < de_name_len h) ->
  min_rec_len (de_name_len h) <= de_rec_len h -> o + de_rec_len h <= limit -> rec_ok limit o h = true.
Proof.
  intros (_ & _ & Hn & _)%wf_fields H1 H2 H3 H4 H5. unfold rec_ok. change ALIGN_MASK with (Z.ones 2). rewrite Z.land_ones by lia. change (2 ^ 2) with 4.
  rewrite H2. destruct (Z.eqb_spec (de_ino h) 0), (Z.eqb_spec (de_name_len h) 0); cbn [negb andb]; try lia.
Qed.

(** The tail of a live record becomes a record of its own. *)
Lemma split_live img l1 o h l2 ino ft name :
  let used := min_rec_len (de_name_len h) in
  let h1 := with_rec_len h used in
  let h2 := Header ino (de_rec_len h - used) (zlen name) ft in
  let img' := put_entry (o + used) h2 name (put_header o h1 img) in
  is_block img -> seg img limit 0 limit (l1 ++ (o, h) :: l2) -> de_ino h <> 0 -> used + min_rec_len (zlen name) <= de_rec_len h ->
  0 < zlen name <= NAME_MAX -> fits 32 ino -> ino <> 0 -> fits 8 ft ->
  is_block img' /\ seg img' limit 0 limit (l1 ++ (o, h1) :: (o + used, h2) :: l2) /\
  live img' (l1 ++ (o, h1) :: (o + used, h2) :: l2) = live img (l1 ++ [(o, h)]) ++ (name, ino, ft) :: live img l2.
Proof.
  intros used h1 h2 img' Hb H Hi Hroom Hn Hino Hin0 Hft. destruct (seg_at img l1 o h l2 Hb H) as (S1 & S2 & S3 & Hh & Hw & Hr & Ho & Ho8 & Hol).
  destruct (rec_ok_spec _ _ _ Hw Hr) as (_ & Hm4 & Hpos & Hmin & _ & H8 & _). pose proof Hw as (W1 & W2 & W3 & W4)%wf_fields. unfold fits in W2, W3. unfold NAME_MAX in Hn.
  destruct (min_rec_len_bounds (de_name_len h) ltac:(lia)) as [Hu Hu4]. fold used in Hu, Hu4, Hmin.
  destruct (min_rec_len_bounds (zlen name) ltac:(lia)) as [Hv Hv4]. unfold HEADER_LEN in *. unfold is_block in Hb.
  assert (Hw1 : c_wf header_codec h1) by (apply fields_wf; cbn; try done; unfold fits; lia).
  assert (Hw2 : c_wf header_codec h2) by (apply fields_wf; cbn; try done; unfold fits; lia).
  assert (Hz1 : zlen (put_header o h1 img) = BLOCK_SIZE) by (rewrite put_header_len; unfold HEADER_LEN; done || lia).
  assert (Hz : zlen img' = BLOCK_SIZE) by (unfold img'; rewrite put_entry_len; unfold HEADER_LEN; done || lia).
  assert (Hd : de_rec_len h2 mod 4 = 0) by (cbn; rewrite Zminus_mod, Hm4, Hu4; done).
  assert (Hh1 : header_at img' o = h1).
  { unfold header_at, read_at, img'. rewrite dir_header_size, put_entry_slice by (unfold HEADER_LEN; done || lia).
    pose proof (put_header_at o h1 img) as E. unfold header_at, read_at in E. rewrite dir_header_size in E. apply E; unfold HEADER_LEN; done || lia. }
  assert (Hh2 : header_at img' (o + used) = h2) by (apply put_entry_at; unfold HEADER_LEN; done || lia).
  split; [done|]. destruct (seg_replace img img' l1 [(o, h)] l2 [(o, h1); (o + used, h2)] o (o + de_rec_len h) Hb Hz S1 S2 S3) as [R1 R2].
  - unfold img'. rewrite put_entry_slice by (unfold HEADER_LEN; done || lia). apply put_header_slice; unfold HEADER_LEN; done || lia.
  - unfold img'. rewrite put_entry_slice by (unfold HEADER_LEN; done || lia). apply put_header_slice; unfold HEADER_LEN; done || lia.
  - change [(o, h1); (o + used, h2)] with ([(o, h1)] ++ [(o + used, h2)]). apply seg_app. exists (o + used). split.
    + apply (seg_one img' limit o h1); [done|]. apply rec_ok_intro; cbn; unfold HEADER_LEN; try done; try lia.
    + replace (o + de_rec_len h) with (o + used + de_rec_len h2) by (cbn; lia). apply seg_one; [done|].
      apply rec_ok_intro; unfold HEADER_LEN; try done; cbn [de_rec_len de_name_len de_ino h2]; try lia.
  - split; [exact R1|]. cbn [app] in R2. rewrite R2, live_app, <- app_assoc. f_equal. unfold live at 1 3. cbn [omap list_omap]. unfold live_of, entry_name. cbn [fst snd de_ino de_name_len de_file_type h1 h2 with_rec_len].
    rewrite (proj2 (Z.eqb_neq _ _)) by done. rewrite (proj2 (Z.eqb_neq _ _)) by done. unfold img'.
    rewrite (put_entry_name (o + used)) by (unfold HEADER_LEN; done || lia). cbn [app]. do 3 f_equal.
    rewrite put_entry_slice by (unfold HEADER_LEN; done || lia). apply put_header_slice; unfold HEADER_LEN; done || lia.
Qed.

(** A free record takes a name. *)
Lemma reuse_free img l1 o h l2 ino ft name :
  let h2 := Header ino (de_rec_len h) (zlen name) ft in
  let img' := put_entry o h2 name img in
  is_block img -> seg img limit 0 limit (l1 ++ (o, h) :: l2) -> de_ino h = 0 -> min_rec_len (zlen name) <= de_rec_len h ->
  0 < zlen name <= NAME_MAX -> fits 32 ino -> ino <> 0 -> fits 8 ft ->
  is_block img' /\ seg img' limit 0 limit (l1 ++ (o, h2) :: l2) /\
  live img' (l1 ++ (o, h2) :: l2) = live img (l1 ++ [(o, h)]) ++ (name, ino, ft) :: live img l2.
Proof.
  intros h2 img' Hb H Hi Hroom Hn Hino Hin0 Hft. destruct (seg_at img l1 o h l2 Hb H) as (S1 & S2 & S3 & Hh & Hw & Hr & Ho & Ho8 & Hol).
  destruct (rec_ok_spec _ _ _ Hw Hr) as (_ & Hm4 & _ & _ & _ & H8 & _). pose proof Hw as (_ & W2 & _)%wf_fields. unfold NAME_MAX in Hn.
  destruct (min_rec_len_bounds (zlen name) ltac:(lia)) as [Hv Hv4]. unfold HEADER_LEN in *. unfold is_block in Hb.
  assert (Hw2 : c_wf header_codec h2) by (apply fields_wf; cbn; try done; unfold fits; lia).
  assert (Hz : zlen img' = BLOCK_SIZE) by (unfold img'; rewrite put_entry_len; unfold HEADER_LEN; done || lia).
  split; [done|]. destruct (seg_replace img img' l1 [(o, h)] l2 [(o, h2)] o (o + de_rec_len h) Hb Hz S1 S2 S3) as [R1 R2].
  - unfold img'. apply put_entry_slice; unfold HEADER_LEN; done || lia.
  - unfold img'. apply put_entry_slice; unfold HEADER_LEN; done || lia.
  - apply (seg_one img' limit o h2); [apply put_entry_at; unfold HEADER_LEN; done || lia|].
    apply rec_ok_intro; unfold HEADER_LEN; try done; cbn [de_rec_len de_name_len de_ino h2]; try lia.
  - split; [exact R1|]. cbn [app] in R2. rewrite R2, live_app, <- app_assoc. f_equal. unfold live at 1 3. cbn [omap list_omap]. unfold live_of, entry_name. cbn [fst snd de_ino de_name_len de_file_type h2].
    rewrite Hi, (proj2 (Z.eqb_neq _ _)) by done. cbn [Z.eqb app]. unfold img'. by rewrite put_entry_name by (unfold HEADER_LEN; done || lia).
Qed.

(** A header rewritten in place, with another length: it takes in the record
    that follows or stands alone. *)
Lemma rewrite_header img l1 lm l2 o h' :
  let img' := put_header o h' img in
  is_block img -> seg img limit 0 o l1 -> seg img limit o (o + de_rec_len h') lm -> seg img limit (o + de_rec_len h') limit l2 ->
  c_wf header_codec h' -> rec_ok limit o h' = true ->
  is_block img' /\ seg img' limit 0 limit (l1 ++ (o, h') :: l2) /\
  live img' (l1 ++ (o, h') :: l2) = live img l1 ++ live img [(o, h')] ++ live img l2.
Proof.
  intros img' Hb S1 Sm S2 Hw Hr. pose proof Hb as Hb0. unfold is_block in Hb. destruct (seg_bounds img limit 0 o l1 Hb ltac:(lia) ltac:(lia) S1) as [Ho _].
  destruct (rec_ok_spec _ _ _ Hw Hr) as (H8 & _ & _ & _ & Hl & Hr8 & Hn). unfold HEADER_LEN in *.
  assert (Hz : zlen img' = BLOCK_SIZE) by (unfold img'; rewrite put_header_len; unfold HEADER_LEN; done || lia).
  split; [done|]. destruct (seg_replace img img' l1 lm l2 [(o, h')] o (o + de_rec_len h') Hb0 Hz S1 Sm S2) as [R1 R2].
  - apply put_header_slice; unfold HEADER_LEN; done || lia.
  - apply put_header_slice; unfold HEADER_LEN; done || lia.
  - apply (seg_one img' limit o h'); [|done]. apply put_header_at; unfold HEADER_LEN; done || lia.
  - split; [exact R1|]. cbn [app] in R2. rewrite R2. f_equal. f_equal. unfold live. cbn [omap list_omap]. unfold live_of, entry_name. cbn [fst snd].
    unfold img'. by rewrite put_header_slice by (unfold HEADER_LEN; done || lia).
Qed.

(** A record deleted into its predecessor. *)
Lemma merge_prev img l1 o1 h1 o h l2 :
  let h1' := with_rec_len h1 (o + de_rec_len h - o1) in
  let img' := put_header o (with_ino h 0) (put_header o1 h1' img) in
  is_block img -> seg img limit 0 limit (l1 ++ (o1, h1) :: (o, h) :: l2) ->
  is_block img' /\ seg img' limit 0 limit (l1 ++ (o1, h1') :: l2) /\
  live img' (l1 ++ (o1, h1') :: l2) = live img (l1 ++ [(o1, h1)]) ++ live img l2 /\ header_at (put_header o1 h1' img) o = h.
Proof.
  intros h1' img' Hb H. destruct (seg_at img l1 o1 h1 ((o, h) :: l2) Hb H) as (S1 & S2 & S3 & Hh1 & Hw1 & Hr1 & Ho1 & Ho18 & Hol1).
  rewrite (cons_middle (o1, h1)), app_assoc in H. destruct (seg_at img (l1 ++ [(o1, h1)]) o h l2 Hb H) as (S4 & S5 & S6 & Hh & Hw & Hr & Ho & Ho8 & Hol).
  assert (o = o1 + de_rec_len h1) as -> by (inversion S3; done).
  destruct (rec_ok_spec _ _ _ Hw1 Hr1) as (_ & Hm1 & Hp1 & Hmin1 & _ & H81 & Hn1). destruct (rec_ok_spec _ _ _ Hw Hr) as (_ & Hm & _ & _ & _ & H8 & _).
  unfold HEADER_LEN in *. pose proof Hb as Hb0. unfold is_block in Hb. pose proof Hw1 as (W1 & W2 & W3 & W4)%wf_fields. pose proof Hw as (V1 & V2 & V3 & V4)%wf_fields. unfold fits in W2, V2, W3.
  assert (Hw1' : c_wf header_codec h1') by (apply fields_wf; cbn; try done; unfold fits, BLOCK_SIZE in *; lia).
  assert (Hw' : c_wf header_codec (with_ino h 0)) by (by apply fields_wf).
  assert (Hz1 : zlen (put_header o1 h1' img) = BLOCK_SIZE) by (rewrite put_header_len; unfold HEADER_LEN; done || lia).
  assert (Hz : zlen img' = BLOCK_SIZE) by (unfold img'; rewrite put_header_len; unfold HEADER_LEN; done || lia).
  assert (Hhead : header_at (put_header o1 h1' img) (o1 + de_rec_len h1) = h).
  { rewrite <- Hh. unfold header_at, read_at. rewrite dir_header_size. by rewrite put_header_slice by (unfold HEADER_LEN; done || lia). }
  split; [done|]. destruct (seg_replace img img' l1 [(o1, h1); (o1 + de_rec_len h1, h)] l2 [(o1, h1')] o1 (o1 + de_rec_len h1') Hb0 Hz S1) as [R1 R2].
  - cbn [with_rec_len de_rec_len h1']. replace (o1 + _) with (o1 + de_rec_len h1 + de_rec_len h) by lia.
    change [(o1, h1); (o1 + de_rec_len h1, h)] with ([(o1, h1)] ++ [(o1 + de_rec_len h1, h)]). apply seg_app. by exists (o1 + de_rec_len h1).
  - cbn [with_rec_len de_rec_len h1']. by replace (o1 + _) with (o1 + de_rec_len h1 + de_rec_len h) by lia.
  - unfold img'. rewrite put_header_slice by (unfold HEADER_LEN; done || lia). apply put_header_slice; unfold HEADER_LEN; done || lia.
  - cbn [with_rec_len de_rec_len h1']. unfold img'. rewrite put_header_slice by (unfold HEADER_LEN; done || lia). apply put_header_slice; unfold HEADER_LEN; done || lia.
  - apply (seg_one img' limit o1 h1').
    + unfold header_at, read_at, img'. rewrite dir_header_size, put_header_slice by (unfold HEADER_LEN; done || lia).
      pose proof (put_header_at o1 h1' img) as E. unfold header_at, read_at in E. rewrite dir_header_size in E. apply E; unfold HEADER_LEN; done || lia.
    + apply rec_ok_intro; unfold HEADER_LEN; try done; cbn [de_rec_len de_name_len de_ino with_rec_len h1']; try lia.
      replace (o1 + de_rec_len h1 + de_rec_len h - o1) with (de_rec_len h1 + de_rec_len h) by lia. by rewrite Zplus_mod, Hm1, Hm.
  - split; [exact R1|]. split; [|done]. cbn [app] in R2. rewrite R2, live_app, <- app_assoc. f_equal. f_equal. unfold live. cbn [omap list_omap]. unfold live_of, entry_name. cbn [fst snd].
    cbn [de_ino de_name_len de_file_type with_rec_len h1']. unfold img'.
    rewrite put_header_slice by (unfold HEADER_LEN; done || lia). by rewrite put_header_slice by (unfold HEADER_LEN; done || lia).
Qed.

(** A record whose fields other than the length change in place. *)
Lemma retarget img l1 o h l2 ino ft :
  let h' := with_type (with_ino h ino) ft in
  let img' := put_header o h' img in
  is_block img -> seg img limit 0 limit (l1 ++ (o, h) :: l2) -> fits 32 ino -> fits 8 ft -> de_name_len h <> 0 ->
  is_block img' /\ seg img' limit 0 limit (l1 ++ (o, h') :: l2) /\
  live img' (l1 ++ (o, h') :: l2) = live img l1 ++ (if ino =? 0 then [] else [(entry_name img (o, h), ino, ft)]) ++ live img l2.
Proof.
  intros h' img' Hb H Hi Hf Hn. destruct (seg_at img l1 o h l2 Hb H) as (S1 & S2 & S3 & Hh & Hw & Hr & Ho & Ho8 & Hol).
  destruct (rec_ok_spec _ _ _ Hw Hr) as (H1 & H2 & H3 & H4 & H5 & _). pose proof Hw as (_ & W2 & W3 & _)%wf_fields.
  assert (Hw' : c_wf header_codec h') by (by apply fields_wf).
  destruct (rewrite_header img l1 [(o, h)] l2 o h' Hb S1 S2 S3 Hw') as (R1 & R2 & R3).
  { apply rec_ok_intro; try done. cbn [h' with_type with_ino de_ino de_name_len]. unfold fits in W3. lia. }
  split_and!; [done|done|]. unfold img'. rewrite R3. f_equal. unfold live at 1. cbn [omap list_omap]. unfold live_of, entry_name.
  cbn [fst snd h' with_type with_ino de_ino de_name_len de_file_type]. by destruct (ino =? 0).
Qed.

Lemma put_header_twice o h1 h2 img : 0 <= o -> o + HEADER_LEN <= zlen img -> c_wf header_codec h1 -> c_wf header_codec h2 ->
  put_header o h2 (put_header o h1 img) = put_header o h2 img.
Proof.
  intros Ho Hl H1 H2. unfold put_header, write_at. apply splice_splice_same; [done| |].
  - by rewrite !codec_len.
  - rewrite codec_len by done. by rewrite dir_header_size.
Qed.
End Edit.

(** ** The edits on the page cache *)

Lemma set_page_twice pc i a b : set_page (set_page pc i a) i b = set_page pc i b.
Proof. unfold set_page. cbn. by rewrite insert_insert_eq. Qed.

Section Pages.
Context (read_page : Z -> result (list byte)) (pc : PageCache) (i limit : Z) (img : list byte).
Context (Hpc : pc_ok pc) (Hpage : page_is read_page pc i img) (Hi : 0 <= i).

Notation v := {| v_offset := i * PAGE_SIZE; v_limit := limit |}.

Lemma page_bounds : 0 <= i < pc_size pc / PAGE_SIZE.
Proof.
  pose proof (page_in_range read_page pc i img Hpc Hpage). split; [done|]. apply Z.lt_le_trans with ((i + 1) * PAGE_SIZE / PAGE_SIZE).
  - rewrite Z.div_mul by done. lia.
  - apply Z.div_le_mono; unfold PAGE_SIZE in *; lia.
Qed.

(** Writing a page again. *)
Lemma set_page_page img' : is_block img' -> pc_ok (set_page pc i img') /\ page_is read_page (set_page pc i img') i img'.
Proof.
  intros Hb. split; [apply set_page_ok; try done; apply page_bounds|]. apply set_page_is; [|done]. by apply (page_in_range read_page pc i img).
Qed.

Lemma write_bytes_put off data : 0 <= off -> 0 < zlen data < PAGE_SIZE -> off + zlen data <= PAGE_SIZE ->
  write_bytes read_page (i * PAGE_SIZE + off) data pc = (Ok tt, set_page pc i (splice off data img)).
Proof. intros. by apply write_bytes_page. Qed.

Lemma set_inode_page off ino : 0 <= off -> off + HEADER_LEN <= BLOCK_SIZE ->
  set_inode read_page v off ino pc = (Ok tt, set_page pc i (put_header off (with_ino (header_at img off) ino) img)).
Proof.
  intros Ho Hl. destruct Hpage as [_ Hb]. unfold set_inode, write_val. cbn [v_offset]. unfold HEADER_LEN, BLOCK_SIZE in *.
  rewrite write_bytes_put; cbn [as_bytes le]; rewrite ?zlen_le_bytes; unfold PAGE_SIZE; try lia.
  by rewrite patch_ino by (unfold HEADER_LEN, BLOCK_SIZE; done || lia).
Qed.

Lemma set_rec_len_page off n : 0 <= off -> off + HEADER_LEN <= BLOCK_SIZE ->
  set_rec_len read_page v off n pc = (Ok tt, set_page pc i (put_header off (with_rec_len (header_at img off) n) img)).
Proof.
  intros Ho Hl. destruct Hpage as [_ Hb]. unfold set_rec_len, write_val. cbn [v_offset]. unfold HEADER_LEN, BLOCK_SIZE in *. rewrite <- Z.add_assoc.
  rewrite write_bytes_put; cbn [as_bytes le]; rewrite ?zlen_le_bytes; unfold PAGE_SIZE, REC_LEN_OFFSET; try lia.
  by rewrite (patch_rec_len img off Hb) by (unfold HEADER_LEN, BLOCK_SIZE; done || lia).
Qed.

Lemma set_file_type_page off t : 0 <= off -> off + HEADER_LEN <= BLOCK_SIZE ->
  set_file_type read_page v off t pc = (Ok tt, set_page pc i (put_header off (with_type (header_at img off) (ft_code t)) img)).
Proof.
  intros Ho Hl. destruct Hpage as [_ Hb]. unfold set_file_type, write_val. cbn [v_offset]. unfold HEADER_LEN, BLOCK_SIZE in *. rewrite <- Z.add_assoc.
  rewrite write_bytes_put; cbn [as_bytes le]; rewrite ?zlen_le_bytes; unfold PAGE_SIZE, FILE_TYPE_OFFSET; try lia.
  by rewrite (patch_type img off Hb) by (unfold HEADER_LEN, BLOCK_SIZE; done || lia).
Qed.
End Pages.

(** A whole entry; the view may start inside the page. *)
Lemma write_entry_page read_page pc i img base limit off h name :
  pc_ok pc -> page_is read_page pc i img -> 0 <= i -> 0 <= base -> 0 <= off -> base + off + HEADER_LEN + zlen name <= BLOCK_SIZE -> c_wf header_codec h -> zlen name <= NAME_MAX ->
  write_entry read_page {| v_offset := i * PAGE_SIZE + base; v_limit := limit |} off h name pc = (Ok tt, set_page pc i (put_entry (base + off) h name img)).
Proof.
  intros Hpc Hpage Hi Hbs Ho Hl Hw Hn. pose proof (zlen_nonneg name). unfold write_entry, write_val, HEADER_LEN, BLOCK_SIZE, NAME_MAX in *. cbn [v_offset].
  rewrite <- !Z.add_assoc. unfold mbind at 1, M_bind at 1.
  assert (Hlen : zlen (as_bytes header_codec h) = 8) by (by rewrite codec_len).
  rewrite (write_bytes_put read_page pc i img) by (unfold PAGE_SIZE; done || lia). fold (write_at header_codec (base + off) h img). fold (put_header (base + off) h img).
  destruct Hpage as [Hc Hb]. assert (Hb1 : is_block (put_header (base + off) h img)) by (unfold is_block in *; rewrite put_header_len; unfold HEADER_LEN, BLOCK_SIZE in *; done || lia).
  destruct (Z.eqb_spec (zlen name) 0) as [E|E]; cbn [negb].
  - apply zlen_nil_inv in E as ->. unfold mret, M_ret. do 2 f_equal. unfold put_entry, splice. cbn [app length]. rewrite Nat.add_0_r. by rewrite take_drop.
  - destruct (set_page_page read_page pc i img Hpc (conj Hc Hb) Hi _ Hb1) as [P1 P2].
    rewrite (write_bytes_put read_page (set_page pc i (put_header (base + off) h img)) i (put_header (base + off) h img)) by (unfold PAGE_SIZE; done || lia).
    rewrite set_page_twice. unfold put_entry, HEADER_LEN. by rewrite Z.add_assoc.
Qed.
