(* ===== verification/InodeInner.v ===== *)
(** * The inode in memory

    Models the [InodeInner] of [inode/mod.rs] on a journaled volume: the
    descriptor with its dirty flag, the payload (page cache and extent tree),
    the stamps of the transactions to wait for, and the operations the
    directory and symbolic link code shares: building the payload, resizing
    the page cache, preparing a write and undoing it, writing the descriptor
    back.  The device the page cache reads from and the identifier of the open
    handle's transaction are arguments. *)

From S2P Require Import Prelude Pod Checksum JournalFormat Device SuperBlock MetaStore BlockGroup Alloc ExtentNode ExtentTree ExtentManager.
From S2P Require Import InodeRecord InodeTable Orphan PageCache.

(** ** The state *)

Definition MAX_FAST_SYMLINK_LEN : Z := 60.

Inductive InodePayload : Type :=
  | DataBacked (page_cache : PageCache) (extents : ExtentTree) (npages : Z)
  | FastSymlink (target : list byte)
  | NoPayload.

Record InodeInner : Type := {
  in_desc : InodeDesc;
  in_dirty : bool;
  in_payload : InodePayload;
  in_sync_tid : option Z;
  in_datasync_tid : option Z;
  in_seed : option InodeCsumSeed;
}.

(** [InodePayload::new]; the extent root is parsed once, here. *)
Definition new_data_backed (size : Z) (root : list byte) (sector_count : Z) : result InodePayload :=
  let page_cache_size := align_up size in
  let? t := try_new root sector_count in
  Ok (DataBacked (pc_new page_cache_size) t (page_cache_size / PAGE_SIZE)).

Definition payload_new (desc : InodeDesc) : result InodePayload :=
  match i_type desc with
  | File | Dir => new_data_backed (i_size desc) (i_block desc) (i_sector_count desc)
  | SymLink =>
      if negb (is_extent_based desc) && (i_size desc <=? MAX_FAST_SYMLINK_LEN) then Ok (FastSymlink (i_block desc))
      else new_data_backed (i_size desc) (i_block desc) (i_sector_count desc)
  | _ => Ok NoPayload
  end.

(** The [DataForgetPolicy] of an inode: are its freed data blocks revoked? *)
Definition data_forget (desc : InodeDesc) : bool := match i_type desc with File => false | _ => true end.

Definition set_payload (n : InodeInner) (p : InodePayload) : InodeInner :=
  {| in_desc := in_desc n; in_dirty := in_dirty n; in_payload := p; in_sync_tid := in_sync_tid n;
     in_datasync_tid := in_datasync_tid n; in_seed := in_seed n |}.
(** A change through [Dirty<InodeDesc>]. *)
Definition set_desc (n : InodeInner) (d : InodeDesc) : InodeInner :=
  {| in_desc := d; in_dirty := true; in_payload := in_payload n; in_sync_tid := in_sync_tid n;
     in_datasync_tid := in_datasync_tid n; in_seed := in_seed n |}.

Definition file_size (n : InodeInner) : Z := i_size (in_desc n).

(** [is_dirty], and the root and sector count that are written back. *)
Definition is_dirty (n : InodeInner) : bool :=
  in_dirty n || match in_payload n with DataBacked _ t _ => et_dirty t | _ => false end.
Definition root_and_sectors (n : InodeInner) : list byte * Z :=
  match in_payload n with
  | DataBacked _ t _ => (et_root t, et_sector_count t)
  | _ => (i_block (in_desc n), i_sector_count (in_desc n))
  end.
Definition inner_clear_dirty (n : InodeInner) : InodeInner :=
  {| in_desc := in_desc n; in_dirty := false;
     in_payload := match in_payload n with DataBacked pc t np => DataBacked pc (clear_dirty t) np | p => p end;
     in_sync_tid := in_sync_tid n; in_datasync_tid := in_datasync_tid n; in_seed := in_seed n |}.
Definition stamp_sync (n : InodeInner) (tid : Z) : InodeInner :=
  {| in_desc := in_desc n; in_dirty := in_dirty n; in_payload := in_payload n; in_sync_tid := Some tid;
     in_datasync_tid := in_datasync_tid n; in_seed := in_seed n |}.
Definition stamp_datasync_tid (n : InodeInner) (tid : Z) : InodeInner :=
  {| in_desc := in_desc n; in_dirty := in_dirty n; in_payload := in_payload n; in_sync_tid := in_sync_tid n;
     in_datasync_tid := Some tid; in_seed := in_seed n |}.

(** [Ext4::max_file_size] *)
Definition max_file_size : Z := Z.min ((2 ^ 32 - 1) * BLOCK_SIZE) (2 ^ 63 - 1).

Definition ensure_size_within_limit (n : InodeInner) (new_size : Z) : result unit :=
  let max := match i_type (in_desc n) with File => max_file_size | _ => 2 ^ 32 - 1 end in
  check negb (max <? new_size) else EFBIG in Ok tt.

Section Operations.
Context {S : Type} `{MetaStore S}.
(** The device the file system is on, and [handle.tid()]. *)
Context (dev : device) (tid : Z).

Notation dstate := (InodeInner * (Ext4 * S))%type.

Definition inner : M dstate InodeInner := fun st => (Ok st.1, st).
Definition update_inner (f : InodeInner -> InodeInner) : M dstate unit := fun st => (Ok tt, (f st.1, st.2)).
Definition update_desc (f : InodeDesc -> InodeDesc) : M dstate unit := update_inner (fun n => set_desc n (f (in_desc n))).

Definition set_file_size (new_size : Z) : M dstate unit := update_desc (fun d => set_size d new_size).
Definition set_mtime_ctime (time : Duration) : M dstate unit := update_desc (fun d => set_ctime (set_mtime d time) time).
Definition inner_set_ctime (time : Duration) : M dstate unit := update_desc (fun d => set_ctime d time).
Definition inner_dec_link_count (delta : Z) : M dstate unit := update_desc (fun d => dec_link_count d delta).
(** The counter is a [u16]. *)
Definition inner_inc_link_count (delta : Z) : M dstate unit := fun st =>
  match inc_link_count (in_desc st.1) delta with
  | Ok d => (Ok tt, (set_desc st.1 d, st.2))
  | Err e => (Err e, st)
  end.

(** The backend of the page cache: [submit_read_bio] and the read of the block
    it chooses. *)
Definition read_page (npages : Z) (t : ExtentTree) (s : S) (idx : Z) : result (list byte) :=
  let? b := submit_read_bio npages t s idx in
  match b with
  | Some pblock => dev_read dev pblock
  | None => Ok (zeros PAGE_SIZE)
  end.

(** An operation on the page cache, and one on the extent tree. *)
Definition on_cache {A} (m : (Z -> result (list byte)) -> M PageCache A) : M dstate A := fun st =>
  match in_payload st.1 with
  | DataBacked pc t np => let '(r, pc) := m (read_page np t st.2.2) pc in (r, (set_payload st.1 (DataBacked pc t np), st.2))
  | _ => (Err EINVAL, st)
  end.
Definition on_extents {A} (m : M (ExtentTree * (Ext4 * S)) A) : M dstate A := fun st =>
  match in_payload st.1 with
  | DataBacked pc t np => let '(r, (t, fs)) := m (t, st.2) in (r, (set_payload st.1 (DataBacked pc t np), fs))
  | _ => (Err EINVAL, st)
  end.
(** Reads, which leave the state alone. *)
Definition read_cache {A} (f : (Z -> result (list byte)) -> PageCache -> result A) : M dstate A := fun st =>
  match in_payload st.1 with
  | DataBacked pc t np => (f (read_page np t st.2.2) pc, st)
  | _ => (Err EINVAL, st)
  end.
Definition mapping (iblock : Z) : M dstate Mapping := fun st =>
  match in_payload st.1 with
  | DataBacked _ t _ => (map_blocks t st.2.2 iblock, st)
  | _ => (Err EINVAL, st)
  end.

Definition set_npages (npages : Z) : M dstate unit := update_inner (fun n =>
  match in_payload n with DataBacked pc t _ => set_payload n (DataBacked pc t npages) | _ => n end).

(** [InodeInner::resize_page_cache] *)
Definition resize_page_cache (new_size old_size : Z) : M dstate unit :=
  let boundary := Z.min new_size old_size in
  boundary_block_is_mapped ←
    (if boundary mod PAGE_SIZE =? 0 then read_cache (fun _ _ => Ok false)
     else if negb (boundary / BLOCK_SIZE <? 2 ^ 32) then read_cache (fun _ _ => Err EFBIG)
     else m ← mapping (boundary / BLOCK_SIZE);
          mret (match m with Mapped _ _ _ => true | HoleOf _ => false end));
  (if (boundary_block_is_mapped : bool) then on_cache (fun rp => pc_resize rp new_size old_size)
   else on_cache (fun rp => pc_resize rp (align_up new_size) (align_up old_size)));;
  set_npages (div_ceil new_size PAGE_SIZE).

(** [InodeInner::prepare_write] *)
Definition prepare_write (offset stop : Z) : M dstate unit :=
  n ← inner;
  let old_size := file_size n in
  let start_block := offset / BLOCK_SIZE in
  let end_block := div_ceil stop BLOCK_SIZE in
  guard (start_block <? 2 ^ 32) EFBIG;;
  guard (end_block <? 2 ^ 32) EFBIG;;
  (if old_size <? stop then lift (ensure_size_within_limit n stop);; resize_page_cache stop old_size else mret tt);;
  on_extents (ensure_allocated (in_seed n) start_block end_block).

(** [InodeInner::rollback_write]; its errors are logged. *)
Definition rollback_write (old_size stop : Z) : M dstate unit :=
  if stop <=? old_size then mret tt
  else
    n ← inner;
    ignore (resize_page_cache old_size stop);;
    ignore (on_extents (truncate_to_byte_len (in_seed n) old_size (data_forget (in_desc n)))).

(** A step that is rolled back when it fails. *)
Definition or_rollback_write {A} (old_size stop : Z) (m : M dstate A) : M dstate A := fun st =>
  match m st with
  | (Err e, st) => if handled e then (rollback_write old_size stop;; fail e) st else (Err e, st)
  | (Ok a, st) => (Ok a, st)
  end.

(** [InodeInner::write_back_inode_desc] *)
Definition inner_write_back (ino : Z) : M dstate unit := fun st =>
  if negb (is_dirty st.1) then (Ok tt, st)
  else
    let '(root, sectors) := root_and_sectors st.1 in
    let n := set_desc st.1 (set_sector_count (in_desc st.1) sectors) in
    match write_back_inode_desc ino (in_desc n) root st.2 with
    | (Err e, fs) => (Err e, (n, fs))
    | (Ok _, fs) => (Ok tt, (inner_clear_dirty (stamp_sync n tid), fs))
    end.

(** [InodeInner::persist_as_orphan] *)
Definition inner_persist_as_orphan (ino : Z) (link : option Z) : M dstate unit :=
  update_desc (fun d => set_orphan_next d link);; inner_write_back ino.
End Operations.
