(* ===== verification/Dir.v ===== *)
(** * Linear directories

    Models the [InodeInner] methods of [inode/dir/mod.rs]: listing, looking
    up, adding, deleting and repointing entries, growing a directory by a
    block, its first block, sealing and journaling a block, and turning an
    indexed directory into a linear one. *)

From S2P Require Import Prelude Pod Checksum JournalFormat Device SuperBlock MetaStore BlockGroup Alloc ExtentNode ExtentTree ExtentManager.
From S2P Require Import InodeRecord PageCache DirEntry DirHash Htree InodeInner.

Record DirSlotInfo : Type := { ds_offset : Z; ds_rec_len : Z; ds_used : Z }.
Record DirEntryInfo : Type := { di_ino : Z; di_offset : Z; di_rec_len : Z }.

Definition is_dir (n : InodeInner) : bool := bool_decide (i_type (in_desc n) = Dir).
Definition has_index (n : InodeInner) : bool := contains (i_flags (in_desc n)) FileFlags.INDEX.
Definition is_some {A} (o : option A) : bool := match o with Some _ => true | None => false end.

(** [SuperBlock::has_dir_index], and [dx_ctx]. *)
Definition has_dir_index (sb : SuperBlock) : bool := contains (sb_feature_compat sb) FeatureCompatSet.DIR_INDEX.
Definition dx_ctx (sb : SuperBlock) : option DxCtx :=
  if has_dir_index sb then
    let w i := nth i (sb_hash_seed sb) 0 in
    Some {| dx_seed := {| w0 := w 0%nat; w1 := w 1%nat; w2 := w 2%nat; w3 := w 3%nat |}; dx_unsigned := sb_hash_unsigned sb |}
  else None.

(** [0..n] *)
Definition block_range (n : Z) : list Z := map Z.of_nat (seq 0 (Z.to_nat n)).
Definition dir_blocks (n : InodeInner) : list Z := block_range (div_ceil (file_size n) BLOCK_SIZE).

(** ** Scans *)

(** The body of the loop of [find_dir_slot] over the headers of a block. *)
Fixpoint slot_in (block_offset new_rec_len : Z) (l : list (Z * DirEntryHeader)) : option DirSlotInfo :=
  match l with
  | [] => None
  | (entry_offset, header) :: l =>
      if de_file_type header =? EXT4_FT_DIR_CSUM then slot_in block_offset new_rec_len l
      else
        let ino := de_ino header in
        let rec_len := de_rec_len header in
        let used_rec_len := if ino =? 0 then 0 else min_rec_len (de_name_len header) in
        if ((ino =? 0) && (new_rec_len <=? rec_len)) || (negb (ino =? 0) && (used_rec_len + new_rec_len <=? rec_len))
        then Some {| ds_offset := block_offset + entry_offset; ds_rec_len := rec_len; ds_used := used_rec_len |}
        else slot_in block_offset new_rec_len l
  end.

(** The body of the loop of [scan_block_for_name]. *)
Fixpoint entry_in (block_offset : Z) (name : list byte) (l : list (Z * DirEntry)) : option DirEntryInfo :=
  match l with
  | [] => None
  | (entry_offset, entry) :: l =>
      if (de_ino (e_header entry) =? 0) || negb (bool_decide (e_name entry = name)) then entry_in block_offset name l
      else Some {| di_ino := de_ino (e_header entry); di_offset := block_offset + entry_offset; di_rec_len := de_rec_len (e_header entry) |}
  end.

(** The body of the loop of [empty_dir]: [true] to go on. *)
Definition keeps_empty (self_ino : Z) (entry : DirEntry) : bool :=
  if de_ino (e_header entry) =? 0 then true
  else if bool_decide (e_name entry = DOT_BYTE) then de_ino (e_header entry) =? self_ino
  else bool_decide (e_name entry = DOT_DOT_BYTE).

(** A [while let Some(..) = iter.next()? { .. }] that returns what [found]
    finds, or the error the iterator ends on. *)
Definition search_stream {A B} (found : list A -> option B) (stream : list A * option errno) : result (option B) :=
  match found stream.1, stream.2 with
  | Some b, _ => Ok (Some b)
  | None, Some e => Err e
  | None, None => Ok None
  end.

(** The first block that has an answer. *)
Fixpoint first_block {A} (search : Z -> result (option A)) (idxs : list Z) : result (option A) :=
  match idxs with
  | [] => Ok None
  | i :: idxs =>
      let? r := search i in
      match r with Some a => Ok (Some a) | None => first_block search idxs end
  end.

(** [core::str::from_utf8] accepts. *)
Fixpoint utf8_ok (fuel : nat) (b : list Z) : bool :=
  match fuel with
  | O => true
  | Datatypes.S fuel =>
      let cont x := (0x80 <=? x) && (x <=? 0xBF) in
      match b with
      | [] => true
      | x :: b =>
          if x <? 0x80 then utf8_ok fuel b
          else match b with
          | [] => false
          | y :: b =>
              if (0xC2 <=? x) && (x <=? 0xDF) then cont y && utf8_ok fuel b
              else match b with
              | [] => false
              | z :: b =>
                  if (0xE0 <=? x) && (x <=? 0xEF) then
                    cont y && cont z && ((negb (x =? 0xE0) || (0xA0 <=? y)) && (negb (x =? 0xED) || (y <=? 0x9F))) && utf8_ok fuel b
                  else match b with
                  | [] => false
                  | w :: b =>
                      (0xF0 <=? x) && (x <=? 0xF4) && cont y && cont z && cont w &&
                      ((negb (x =? 0xF0) || (0x90 <=? y)) && (negb (x =? 0xF4) || (y <=? 0x8F))) && utf8_ok fuel b
                  end
              end
          end
      end
  end.
Definition from_utf8 (name : list byte) : result (list byte) :=
  check utf8_ok (length name) (map byte.unsigned name) else EIO in Ok name.

Section Operations.
Context {S : Type} `{MetaStore S}.
Context (dev : device) (tid : Z).

Notation dstate := (InodeInner * (Ext4 * S))%type.

(** The pages of a directory, with the backend they are read from. *)
Definition dir_pages (n : InodeInner) (s : S) : result ((Z -> result (list byte)) * PageCache) :=
  match in_payload n with
  | DataBacked pc t np => Ok (read_page dev np t s, pc)
  | _ => Err EINVAL
  end.

(** *** [find_dir_slot] *)

Definition find_dir_slot (n : InodeInner) (s : S) (name_len : Z) : result (option DirSlotInfo) :=
  check is_dir n else ENOTDIR in
  let new_rec_len := min_rec_len name_len in
  let? (rp, pc) := dir_pages n s in
  first_block (fun i => search_stream (slot_in (i * BLOCK_SIZE) new_rec_len) (iter_headers rp pc (view_from_index i (file_size n)))) (dir_blocks n).

(** *** [find_entry_info] *)

Definition scan_block_for_name (n : InodeInner) (s : S) (block_idx : Z) (name : list byte) : result (option DirEntryInfo) :=
  let? (rp, pc) := dir_pages n s in
  search_stream (entry_in (block_idx * BLOCK_SIZE) name) (iter_entries rp pc (view_from_index block_idx (file_size n))).

(** The closure that reads an index block. *)
Definition read_dx_block (rp : Z -> result (list byte)) (pc : PageCache) (logical : Z) : result (list byte) :=
  map_err (fun _ => EIO) (read_raw rp pc (logical * BLOCK_SIZE) BLOCK_SIZE).

(** The part of [find_entry_info] that goes through the index. *)
Definition probe_index (n : InodeInner) (s : S) (name : list byte) (dx : DxCtx) : result (option DirEntryInfo) :=
  let? (rp, pc) := dir_pages n s in
  match dx_lookup_leaf (read_dx_block rp pc) name (dx_seed dx) (dx_unsigned dx) with
  | Ok (Some leaf) => if leaf <? div_ceil (file_size n) BLOCK_SIZE then scan_block_for_name n s leaf name else Ok None
  | Err e => if handled e then Ok None else Err e
  | _ => Ok None
  end.

Definition find_entry_info (n : InodeInner) (s : S) (name : list byte) (dx : option DxCtx) : result DirEntryInfo :=
  check is_dir n else ENOTDIR in
  let? probed :=
    match dx with
    | Some dx => if has_index n then probe_index n s name dx else Ok None
    | None => Ok None
    end in
  match probed with
  | Some info => Ok info
  | None =>
      let? found := first_block (fun i => scan_block_for_name n s i name) (dir_blocks n) in
      match found with Some info => Ok info | None => Err ENOENT end
  end.

(** *** [empty_dir] *)

Definition block_keeps_empty (n : InodeInner) (rp : Z -> result (list byte)) (pc : PageCache) (self_ino i : Z) : bool :=
  let '(l, e) := iter_entries rp pc (view_from_index i (file_size n)) in
  forallb (fun p => keeps_empty self_ino p.2) l && negb (is_some e).

Definition empty_dir (n : InodeInner) (s : S) (self_ino : Z) : bool :=
  is_dir n &&
  match dir_pages n s with
  | Ok (rp, pc) => forallb (block_keeps_empty n rp pc self_ino) (dir_blocks n)
  | Err _ => false
  end.

(** *** [readdir_at] *)

Section Readdir.
(** [DirentVisitor::visit]: the visitor afterwards, or its refusal. *)
Context {V : Type} (visit : V -> list byte -> Z -> InodeType -> Z -> option V).

Inductive visited : Type :=
  | Going (current_offset : Z) (v : V)
  | Done (current_offset : Z) (v : V).

(** The entries of one block. *)
Fixpoint visit_block (block_offset current_offset : Z) (v : V) (l : list (Z * DirEntry)) : result visited :=
  match l with
  | [] => Ok (Going current_offset v)
  | (entry_offset_in_block, entry) :: l =>
      let entry_offset := block_offset + entry_offset_in_block in
      let next_offset := entry_offset + de_rec_len (e_header entry) in
      if next_offset <=? current_offset then visit_block block_offset current_offset v l
      else if entry_offset <? current_offset then visit_block block_offset next_offset v l
      else
        let ino := de_ino (e_header entry) in
        if negb (ino =? 0) then
          let? name := from_utf8 (e_name entry) in
          let file_type := default FtUnknown (ft_of_code (de_file_type (e_header entry))) in
          match visit v name ino (inode_type_of file_type) next_offset with
          | None => Ok (Done current_offset v)
          | Some v => visit_block block_offset next_offset v l
          end
        else visit_block block_offset next_offset v l
  end.

(** The blocks from the one of the starting offset on. *)
Fixpoint visit_blocks (n : InodeInner) (rp : Z -> result (list byte)) (pc : PageCache) (idxs : list Z) (current_offset : Z) (v : V)
  : result visited :=
  match idxs with
  | [] => Ok (Going current_offset v)
  | i :: idxs =>
      let block_offset := i * BLOCK_SIZE in
      if file_size n <=? block_offset then Ok (Going current_offset v)
      else
        let '(l, e) := iter_entries rp pc (view_from_index i (file_size n)) in
        let? r := visit_block block_offset current_offset v l in
        match r, e with
        | Done current_offset v, _ => Ok (Done current_offset v)
        | Going _ _, Some e => Err e
        | Going current_offset v, None => visit_blocks n rp pc idxs current_offset v
        end
  end.

Definition readdir_at (n : InodeInner) (s : S) (offset : Z) (v : V) : result (Z * V) :=
  check is_dir n else ENOTDIR in
  let size := file_size n in
  let min_rec_len := min_rec_len 1 in
  if (size <? min_rec_len) || (size - min_rec_len <? offset) then Ok (0, v)
  else
    let start_block := offset / BLOCK_SIZE in
    let total_blocks := div_ceil size BLOCK_SIZE in
    let? (rp, pc) := dir_pages n s in
    let idxs := map (fun i => start_block + i) (block_range (total_blocks - start_block)) in
    let? r := visit_blocks n rp pc idxs offset v in
    match r with Going current v | Done current v => Ok (current - offset, v) end.
End Readdir.

(** ** Edits *)

Definition dir_payload_len (n : InodeInner) : Z := BLOCK_SIZE - (if is_some (in_seed n) then DIR_TAIL_LEN else 0).

(** *** [seal_dir_block] and [journal_dir_block] *)

Definition CSUM_COVER : Z := BLOCK_SIZE - DIR_TAIL_LEN.
Definition DET_CHECKSUM_OFFSET : Z := BLOCK_SIZE - 4.

Definition seal_dir_block (logical : Z) : M dstate unit :=
  n ← inner;
  match in_seed n with
  | None => mret tt
  | Some seed =>
      let block_offset := logical * BLOCK_SIZE in
      block ← read_cache dev (fun rp pc => map_err (fun _ => EIO) (read_raw rp pc block_offset BLOCK_SIZE));
      let csum := crc32c (inode_seed seed) (slice 0 CSUM_COVER block) in
      on_cache dev (fun rp => write_val rp (le 4) (block_offset + DET_CHECKSUM_OFFSET) csum)
  end.

Definition journal_dir_block (dir_offset : Z) : M dstate unit :=
  let logical := u32 (dir_offset / BLOCK_SIZE) in
  seal_dir_block logical;;
  m ← mapping logical;
  match mapped_pblock m with
  | None => fail EIO
  | Some phys =>
      block ← read_cache dev (fun rp pc => map_err (fun _ => EIO) (read_raw rp pc (logical * BLOCK_SIZE) BLOCK_SIZE));
      a ← on_store (on_store (ms_create phys));
      on_store (on_store (ms_patch a (fun _ => block)))
  end.

(** *** [grow_dir_block] *)

Definition empty_header (payload_len : Z) : DirEntryHeader := Header 0 (u16 payload_len) 0 (ft_code FtUnknown).

(** An empty block: one free record, and the checksum tail. *)
Definition write_empty_block (rp : Z -> result (list byte)) (base payload_len : Z) (has_csum : bool) : M PageCache unit :=
  fill_zeros rp base (base + BLOCK_SIZE);;
  let block := create_view base BLOCK_SIZE in
  write_entry rp block 0 (empty_header payload_len) [];;
  if has_csum then write_entry rp block payload_len dir_tail [] else mret tt.

Definition grow_dir_block : M dstate DirSlotInfo :=
  n ← inner;
  guard (is_dir n) ENOTDIR;;
  let old_size := file_size n in
  let new_size := old_size + BLOCK_SIZE in
  prepare_write dev old_size new_size;;
  let payload_len := dir_payload_len n in
  let has_csum := is_some (in_seed n) in
  or_rollback_write dev old_size new_size (on_cache dev (fun rp => write_empty_block rp old_size payload_len has_csum));;
  let start_block := u32 (old_size / BLOCK_SIZE) in
  or_rollback_write dev old_size new_size (on_extents (mark_range_written (in_seed n) start_block (start_block + 1)));;
  set_file_size new_size;;
  mret {| ds_offset := old_size; ds_rec_len := payload_len; ds_used := 0 |}.

(** *** [add_entry] *)

(** The writes of [add_entry], before the block is journaled. *)
Definition place_entry (rp : Z -> result (list byte)) (slot : DirSlotInfo) (name : list byte) (ino : Z) (file_type : DirEntryFileType) : M PageCache unit :=
  (if negb (ds_used slot =? 0)
   then set_rec_len rp (create_view (ds_offset slot) (ds_rec_len slot)) 0 (u16 (ds_used slot)) else mret tt);;
  let entry_offset := if negb (ds_used slot =? 0) then ds_offset slot + ds_used slot else ds_offset slot in
  let entry_rec_len := if negb (ds_used slot =? 0) then ds_rec_len slot - ds_used slot else ds_rec_len slot in
  let header := Header ino (u16 entry_rec_len) (wrap 8 (zlen name)) (ft_code file_type) in
  write_entry rp (create_view entry_offset entry_rec_len) 0 header name.

Definition add_entry (slot : DirSlotInfo) (name : list byte) (ino : Z) (file_type : DirEntryFileType) : M dstate unit :=
  guard (negb (NAME_MAX <? zlen name)) ENAMETOOLONG;;
  on_cache dev (fun rp => place_entry rp slot name ino file_type);;
  journal_dir_block (ds_offset slot).

(** *** [degrade_htree_to_linear] *)

(** The rewritten first block. *)
Definition write_dot_block (rp : Z -> result (list byte)) (payload_len self_ino parent_ino : Z) (has_csum : bool) : M PageCache unit :=
  let dot_len := min_rec_len (zlen DOT_BYTE) in
  fill_zeros rp 0 BLOCK_SIZE;;
  let block0 := create_view 0 BLOCK_SIZE in
  write_entry rp block0 0 (Header self_ino (u16 dot_len) (zlen DOT_BYTE) (ft_code FtDir)) DOT_BYTE;;
  write_entry rp block0 dot_len (Header parent_ino (u16 (payload_len - dot_len)) (zlen DOT_DOT_BYTE) (ft_code FtDir)) DOT_DOT_BYTE;;
  if has_csum then write_entry rp block0 payload_len dir_tail [] else mret tt.

Definition degrade_htree_to_linear : M dstate unit :=
  n ← inner;
  let payload_len := dir_payload_len n in
  let has_csum := is_some (in_seed n) in
  let dot_len := min_rec_len (zlen DOT_BYTE) in
  index_blocks ← read_cache dev (fun rp pc => dx_index_blocks (read_dx_block rp pc));
  on_store (on_store (ms_burst (zlen index_blocks + 1)));;
  dot ← read_cache dev (fun rp pc => read_val rp header_codec pc 0);
  dotdot ← read_cache dev (fun rp pc => read_val rp header_codec pc dot_len);
  on_cache dev (fun rp => write_dot_block rp payload_len (de_ino dot) (de_ino dotdot) has_csum);;
  forM (drop 1 index_blocks) (fun blk => on_cache dev (fun rp => write_empty_block rp (blk * BLOCK_SIZE) payload_len has_csum));;
  update_desc (fun d => remove_flags d FileFlags.INDEX);;
  forM index_blocks (fun blk => journal_dir_block (blk * BLOCK_SIZE));;
  inner_write_back tid (de_ino dot).

(** *** [add_new_entry] *)

Definition find_slot (name_len : Z) : M dstate (option DirSlotInfo) := fun st => (find_dir_slot st.1 st.2.2 name_len, st).
Definition find_entry (name : list byte) (dx : option DxCtx) : M dstate DirEntryInfo := fun st => (find_entry_info st.1 st.2.2 name dx, st).

(** A slot in a block there is, or in a new one. *)
Definition slot_or_grow (name_len : Z) : M dstate DirSlotInfo :=
  slot ← find_slot name_len;
  match slot with
  | Some slot => mret slot
  | None => grow_dir_block
  end.

Definition add_new_entry (name : list byte) (ino : Z) (file_type : DirEntryFileType) : M dstate unit :=
  n ← inner;
  fs ← on_store ext4;
  (if has_index n && has_dir_index (super_block fs) then degrade_htree_to_linear else mret tt);;
  slot ← slot_or_grow (zlen name);
  add_entry slot name ino file_type.

(** *** [set_entry_target], [overwrite_entry] and [delete_entry] *)

Definition set_entry_target (entry : DirEntryInfo) (new_ino : Z) (new_file_type : DirEntryFileType) : M dstate unit :=
  let block_idx := di_offset entry / BLOCK_SIZE in
  let entry_offset := di_offset entry - block_idx * BLOCK_SIZE in
  n ← inner;
  let block := view_from_index block_idx (file_size n) in
  on_cache dev (fun rp => set_inode rp block entry_offset new_ino);;
  on_cache dev (fun rp => set_file_type rp block entry_offset new_file_type);;
  journal_dir_block (di_offset entry).

Definition overwrite_entry (name : list byte) (new_ino : Z) (new_file_type : DirEntryFileType) : M dstate unit :=
  entry_info ← find_entry name None;
  set_entry_target entry_info new_ino new_file_type.

Definition delete_entry (target : DirEntryInfo) : M dstate unit :=
  let block_idx := di_offset target / BLOCK_SIZE in
  let entry_offset := di_offset target - block_idx * BLOCK_SIZE in
  n ← inner;
  on_cache dev (fun rp => block_delete_entry rp (view_from_index block_idx (file_size n)) entry_offset (di_rec_len target));;
  journal_dir_block (di_offset target).

(** *** [make_empty] *)

Definition make_empty (ino parent_ino : Z) : M dstate unit :=
  slot ← grow_dir_block;
  let dot_len := min_rec_len (zlen DOT_BYTE) in
  n ← inner;
  let block := view_from_index 0 (file_size n) in
  on_cache dev (fun rp =>
    write_entry rp block 0 (Header ino (u16 dot_len) (zlen DOT_BYTE) (ft_code FtDir)) DOT_BYTE;;
    write_entry rp block dot_len (Header parent_ino (u16 (ds_rec_len slot - dot_len)) (zlen DOT_DOT_BYTE) (ft_code FtDir)) DOT_DOT_BYTE);;
  journal_dir_block 0.
End Operations.
