(* ===== verification/DirSpec.v ===== *)
(** * What the directory operations do

    The relation between a directory in memory and its blocks, each block with
    the records it consists of, and the behaviour of the scans and of the
    edits in terms of it. *)

From S2P Require Import Prelude Pod Checksum JournalFormat Device Bitmap SuperBlock GroupDesc MetaStore BlockGroup Alloc AllocSpec ExtentNode ExtentMap.
From S2P Require Import ExtentTree ExtentWrite ExtentSpec ExtentManager InodeRecord PageCache DirEntry DirBlock DirHash Htree InodeInner Dir.

(** A block and its records. *)
Notation dblock := (list byte * list (Z * DirEntryHeader))%type.
Definition block_ok (b : dblock) : Prop := is_block b.1 /\ seg b.1 BLOCK_SIZE 0 BLOCK_SIZE b.2.

(** The names of a directory: name, inode number and type code. *)
Definition names_of (b : dblock) : list (list byte * Z * Z) := live b.1 b.2.
Definition dir_names (ds : list dblock) : list (list byte * Z * Z) := concat (map names_of ds).
Definition key (e : list byte * Z * Z) : list byte := e.1.1.

(** The record of a name: the records of its block before it and after it. *)
Record located (ds : list dblock) (name : list byte) (i : nat) (o : Z) (h : DirEntryHeader) : Prop := {
  lo_block : exists img l1 l2, ds !! i = Some ((img, l1 ++ (o, h) :: l2) : dblock) /\ entry_name img (o, h) = name;
  lo_live : de_ino h <> 0;
}.

Definition info_of (i : nat) (o : Z) (h : DirEntryHeader) : DirEntryInfo :=
  {| di_ino := de_ino h; di_offset := Z.of_nat i * BLOCK_SIZE + o; di_rec_len := de_rec_len h |}.

Lemma zlen_slice_le {A} o n (l : list A) : 0 <= n -> zlen (slice o n l) <= n.
Proof. intros. unfold zlen, slice. rewrite length_take. lia. Qed.

(** ** Searching a block *)

Lemma live_elem img l p : p ∈ l -> de_ino p.2 <> 0 -> (entry_name img p, de_ino p.2, de_file_type p.2) ∈ live img l.
Proof. intros Hp Hi. apply list_elem_of_omap. exists p. split; [done|]. unfold live_of. by rewrite (proj2 (Z.eqb_neq _ _)). Qed.

Lemma elem_live img l e : e ∈ live img l -> exists p, p ∈ l /\ de_ino p.2 <> 0 /\ e = (entry_name img p, de_ino p.2, de_file_type p.2).
Proof.
  intros (p & Hp & E)%list_elem_of_omap. unfold live_of in E. destruct (Z.eqb_spec (de_ino p.2) 0); [done|]. injection E as <-. by exists p.
Qed.

(** [entry_in] finds the first record of the name. *)
Lemma entry_in_spec img l base name :
  match entry_in base name (entry_of img <$> l) with
  | Some info => exists l1 o h l2, l = l1 ++ (o, h) :: l2 /\ de_ino h <> 0 /\ entry_name img (o, h) = name /\
      info = {| di_ino := de_ino h; di_offset := base + o; di_rec_len := de_rec_len h |}
  | None => forall p, p ∈ l -> de_ino p.2 <> 0 -> entry_name img p <> name
  end.
Proof.
  induction l as [|[o h] l IH]; cbn [fmap list_fmap entry_in]; [intros p Hp; set_solver|]. unfold entry_of at 1. cbn [e_header e_name fst snd].
  destruct (Z.eqb_spec (de_ino h) 0) as [E|E]; cbn [orb].
  - destruct (entry_in _ _ _) as [info|].
    + destruct IH as (l1 & o' & h' & l2 & -> & H1 & H2 & ->). by exists ((o, h) :: l1), o', h', l2.
    + intros p [->|Hp]%elem_of_cons; [by cbn|]. by apply IH.
  - case_bool_decide as Hn; cbn [negb].
    + exists [], o, h, l. by split_and!.
    + destruct (entry_in _ _ _) as [info|].
      * destruct IH as (l1 & o' & h' & l2 & -> & H1 & H2 & ->). by exists ((o, h) :: l1), o', h', l2.
      * intros p [->|Hp]%elem_of_cons; [by intros _|]. by apply IH.
Qed.

(** [slot_in] finds a free record that is long enough, or a live one with room
    after its name; never the checksum tail. *)
Definition slot_fits (new_rec_len : Z) (h : DirEntryHeader) : Prop :=
  de_file_type h <> EXT4_FT_DIR_CSUM /\
  ((de_ino h = 0 /\ new_rec_len <= de_rec_len h) \/ (de_ino h <> 0 /\ min_rec_len (de_name_len h) + new_rec_len <= de_rec_len h)).
Definition slot_of (base o : Z) (h : DirEntryHeader) : DirSlotInfo :=
  {| ds_offset := base + o; ds_rec_len := de_rec_len h; ds_used := if de_ino h =? 0 then 0 else min_rec_len (de_name_len h) |}.

Lemma slot_in_spec l base new_rec_len :
  match slot_in base new_rec_len l with
  | Some slot => exists l1 o h l2, l = l1 ++ (o, h) :: l2 /\ slot_fits new_rec_len h /\ slot = slot_of base o h
  | None => forall p, p ∈ l -> ~ slot_fits new_rec_len p.2
  end.
Proof.
  induction l as [|[o h] l IH]; cbn [slot_in]; [intros p Hp; set_solver|].
  assert (Hcons : ~ slot_fits new_rec_len h -> match slot_in base new_rec_len l with
    | Some slot => exists l1 o' h' l2, (o, h) :: l = l1 ++ (o', h') :: l2 /\ slot_fits new_rec_len h' /\ slot = slot_of base o' h'
    | None => forall p, p ∈ (o, h) :: l -> ~ slot_fits new_rec_len p.2 end).
  { intros Hno. destruct (slot_in _ _ l) as [slot|].
    - destruct IH as (l1 & o' & h' & l2 & -> & H1 & ->). by exists ((o, h) :: l1), o', h', l2.
    - intros p [->|Hp]%elem_of_cons; [done|]. by apply IH. }
  destruct (Z.eqb_spec (de_file_type h) EXT4_FT_DIR_CSUM) as [Et|Et]; [apply Hcons; by intros [? _]|].
  destruct (_ || _) eqn:E.
  - exists [], o, h, l. split_and!; try done. split; [done|]. destruct (Z.eqb_spec (de_ino h) 0); cbn [negb andb orb] in E; [left|right]; split; try done; lia.
  - apply Hcons. intros [_ Hs]. destruct (Z.eqb_spec (de_ino h) 0); cbn [negb andb orb] in E; lia.
Qed.

(** ** Searching a directory *)

Lemma first_block_spec {A} (search : Z -> result (option A)) (P : nat -> option A -> Prop) m k :
  (forall i, (k <= i < k + m)%nat -> exists r, search (Z.of_nat i) = Ok r /\ P i r) ->
  exists r, first_block search (map Z.of_nat (seq k m)) = Ok r /\
    match r with Some a => exists i, (k <= i < k + m)%nat /\ P i (Some a) | None => forall i, (k <= i < k + m)%nat -> P i None end.
Proof.
  revert k. induction m as [|m IH]; intros k Hs; cbn [seq map first_block]; [exists None; split; [done|]; lia|].
  destruct (Hs k ltac:(lia)) as (r & -> & Hr). cbn [rbind]. destruct r as [a|]; [exists (Some a); split; [done|]; exists k; split; [lia|done]|].
  destruct (IH (Datatypes.S k)) as (r & -> & Hr'); [intros i Hi; apply Hs; lia|]. exists r. split; [done|].
  destruct r as [a|]; [destruct Hr' as (i & Hi & Hp); exists i; split; [lia|done]|].
  intros i Hi. destruct (decide (i = k)) as [->|]; [done|]. apply Hr'. lia.
Qed.

Section View.
Context {S : Type} `{MetaStore S}.
Context (dev : device).

(** The directory in memory shows the blocks [ds]. *)
Record dir_view (n : InodeInner) (s : S) (ds : list dblock) : Prop := {
  dv_dir : i_type (in_desc n) = Dir;
  dv_size : file_size n = zlen ds * BLOCK_SIZE;
  dv_pages : exists pc t np, in_payload n = DataBacked pc t np /\ pc_ok pc /\
    forall i b, ds !! i = Some b -> page_is (read_page dev np t s) pc (Z.of_nat i) b.1 /\ block_ok b;
}.

Context (n : InodeInner) (s : S) (ds : list dblock) (Hv : dir_view n s ds).

Lemma dir_view_index i : (i < length ds)%nat -> view_from_index (Z.of_nat i) (file_size n) = {| v_offset := Z.of_nat i * PAGE_SIZE; v_limit := BLOCK_SIZE |}.
Proof.
  intros Hi. rewrite (dv_size _ _ _ Hv). unfold view_from_index, sat_sub, zlen. f_equal. unfold BLOCK_SIZE. lia.
Qed.

Lemma dir_blocks_seq : dir_blocks n = map Z.of_nat (seq 0 (length ds)).
Proof.
  unfold dir_blocks, block_range. rewrite (dv_size _ _ _ Hv). change BLOCK_SIZE with PAGE_SIZE. rewrite div_ceil_mult. unfold zlen. by rewrite Nat2Z.id.
Qed.

(** One block of the directory, as the iterators see it. *)
Lemma dir_block_streams i img l : ds !! i = Some ((img, l) : dblock) -> exists rp pc, dir_pages dev n s = Ok (rp, pc) /\
  iter_headers rp pc (view_from_index (Z.of_nat i) (file_size n)) = (l, None) /\
  iter_entries rp pc (view_from_index (Z.of_nat i) (file_size n)) = (entry_of img <$> l, None).
Proof.
  intros Hi. destruct (dv_pages _ _ _ Hv) as (pc & t & np & Hp & Hok & Hb). destruct (Hb i _ Hi) as [Hpage [Hblk Hseg]]. cbn [fst snd] in *.
  exists (read_page dev np t s), pc. unfold dir_pages. rewrite Hp. split; [done|]. rewrite dir_view_index by (by eapply lookup_lt_Some).
  split; [eapply iter_headers_full|eapply iter_entries_full]; try done; lia.
Qed.

Lemma dir_pages_ok : exists rp pc, dir_pages dev n s = Ok (rp, pc).
Proof. destruct (dv_pages _ _ _ Hv) as (pc & t & np & Hp & _). unfold dir_pages. rewrite Hp. by eexists _, _. Qed.

(** A scan of one block for a name. *)
Lemma scan_block_spec i name : (i < length ds)%nat -> exists r, scan_block_for_name dev n s (Z.of_nat i) name = Ok r /\
  match r with
  | Some info => exists o h, located ds name i o h /\ info = info_of i o h
  | None => forall o h, ~ located ds name i o h
  end.
Proof.
  intros Hi. destruct (lookup_lt_is_Some_2 ds i Hi) as [[img l] Hb]. destruct (dir_block_streams i img l Hb) as (rp & pc & E & _ & Es).
  unfold scan_block_for_name. rewrite E. cbn [rbind]. rewrite Es. unfold search_stream. cbn [fst snd].
  pose proof (entry_in_spec img l (Z.of_nat i * BLOCK_SIZE) name) as H0. destruct (entry_in _ _ _) as [info|].
  - eexists. split; [done|]. destruct H0 as (l1 & o & h & l2 & -> & H1 & H2 & ->). exists o, h. split; [|done]. split; [|done]. by exists img, l1, l2.
  - eexists. split; [done|]. intros o h [(img' & l1 & l2 & Hb' & Hn) Hl]. rewrite Hb in Hb'. injection Hb' as <- ->.
    apply (H0 (o, h)); [set_solver|done|done].
Qed.

(** The linear scan finds the name, if the directory has it. *)
Lemma linear_scan_spec name : exists r, first_block (fun i => scan_block_for_name dev n s i name) (dir_blocks n) = Ok r /\
  match r with
  | Some info => exists i o h, located ds name i o h /\ info = info_of i o h
  | None => forall i o h, ~ located ds name i o h
  end.
Proof.
  rewrite dir_blocks_seq. destruct (first_block_spec (fun i => scan_block_for_name dev n s i name) (fun i r => match r with
    | Some info => exists o h, located ds name i o h /\ info = info_of i o h | None => forall o h, ~ located ds name i o h end) (length ds) 0) as (r & E & Hr).
  { intros i Hi. apply scan_block_spec. lia. }
  exists r. split; [done|]. destruct r as [info|].
  - destruct Hr as (i & _ & o & h & Hl & ->). by exists i, o, h.
  - intros i o h Hl. apply (Hr i) with o h; [|done]. destruct Hl as [(img & l1 & l2 & Hb & _) _]. apply lookup_lt_Some in Hb. lia.
Qed.

(** A probe of the index answers with the name or not at all. *)
Lemma read_dx_block_ok rp pc b : match read_dx_block rp pc b with Ok img => is_block img | Err e => handled e = true end.
Proof.
  unfold read_dx_block, read_raw, read_bytes. rewrite zlen_zeros by done. destruct (vmo_read rp pc _ BLOCK_SIZE) as [got|e] eqn:E; cbn [map_err rbind]; [|done].
  unfold is_block. rewrite zlen_splice; rewrite ?zlen_zeros by done; [done|lia|]. unfold vmo_read in E.
  destruct (_ =? 0); [by injection E as <-|]. inv_result. subst got. etrans; [|apply (Z.le_min_l BLOCK_SIZE (sat_sub (pc_size pc) (b * BLOCK_SIZE)))].
  rewrite Z.add_0_l. apply zlen_slice_le. unfold sat_sub, BLOCK_SIZE. lia.
Qed.

Lemma probe_index_spec name dx : words_ok (dx_seed dx) ->
  exists r, probe_index dev n s name dx = Ok r /\ match r with Some info => exists i o h, located ds name i o h /\ info = info_of i o h | None => True end.
Proof.
  intros Hs. unfold probe_index. destruct dir_pages_ok as (rp & pc & E). rewrite E. cbn [rbind].
  pose proof (dx_lookup_leaf_total (read_dx_block rp pc) (read_dx_block_ok rp pc) name (dx_seed dx) (dx_unsigned dx) Hs) as Hl.
  destruct (dx_lookup_leaf _ _ _ _) as [[leaf|]|e]; [|by exists None|rewrite Hl; by exists None].
  destruct (Z.ltb_spec leaf (div_ceil (file_size n) BLOCK_SIZE)) as [Hlt|]; [|by exists None].
  rewrite (dv_size _ _ _ Hv) in Hlt. change BLOCK_SIZE with PAGE_SIZE in Hlt. rewrite div_ceil_mult in Hlt. unfold zlen in Hlt.
  destruct (scan_block_spec (Z.to_nat leaf) name) as (r & Er & Hr); [lia|]. rewrite Z2Nat.id in Er by lia. exists r. split; [done|].
  destruct r as [info|]; [|done]. destruct Hr as (o & h & Hl' & ->). by exists (Z.to_nat leaf), o, h.
Qed.

(** [find_entry_info], through the index or not. *)
Lemma find_entry_spec name dx : (forall d, dx = Some d -> words_ok (dx_seed d)) ->
  match find_entry_info dev n s name dx with
  | Ok info => exists i o h, located ds name i o h /\ info = info_of i o h
  | Err e => e = ENOENT /\ forall i o h, ~ located ds name i o h
  end.
Proof.
  intros Hs. unfold find_entry_info, is_dir. rewrite bool_decide_eq_true_2 by apply Hv.
  assert (Hp : exists r, (match dx with Some dx => if has_index n then probe_index dev n s name dx else Ok None | None => Ok None end) = Ok r /\
    match r with Some info => exists i o h, located ds name i o h /\ info = info_of i o h | None => True end).
  { destruct dx as [d|]; [|by exists None]. destruct (has_index n); [|by exists None]. by apply probe_index_spec, Hs. }
  destruct Hp as (r & -> & Hr). cbn [rbind]. destruct r as [info|]; [done|].
  destruct (linear_scan_spec name) as (r & -> & Hr'). cbn [rbind]. by destruct r.
Qed.

(** A slot for a name. *)
Lemma find_slot_spec name_len : exists r, find_dir_slot dev n s name_len = Ok r /\
  match r with
  | Some slot => exists i img l1 o h l2, ds !! i = Some ((img, l1 ++ (o, h) :: l2) : dblock) /\ slot_fits (min_rec_len name_len) h /\ slot = slot_of (Z.of_nat i * BLOCK_SIZE) o h
  | None => forall i img l p, ds !! i = Some ((img, l) : dblock) -> p ∈ l -> ~ slot_fits (min_rec_len name_len) p.2
  end.
Proof.
  unfold find_dir_slot, is_dir. rewrite bool_decide_eq_true_2 by apply Hv. destruct dir_pages_ok as (rp & pc & E). rewrite E. cbn [rbind]. rewrite dir_blocks_seq.
  destruct (first_block_spec (fun i => search_stream (slot_in (i * BLOCK_SIZE) (min_rec_len name_len)) (iter_headers rp pc (view_from_index i (file_size n))))
    (fun i r => forall img l, ds !! i = Some ((img, l) : dblock) -> match r with
      | Some slot => exists l1 o h l2, l = l1 ++ (o, h) :: l2 /\ slot_fits (min_rec_len name_len) h /\ slot = slot_of (Z.of_nat i * BLOCK_SIZE) o h
      | None => forall p, p ∈ l -> ~ slot_fits (min_rec_len name_len) p.2 end) (length ds) 0) as (r & Er & Hr).
  { intros i Hi. destruct (lookup_lt_is_Some_2 ds i ltac:(lia)) as [[img l] Hb]. destruct (dir_block_streams i img l Hb) as (rp' & pc' & E' & Es & _).
    rewrite E in E'. injection E' as <- <-. rewrite Es. unfold search_stream. cbn [fst snd]. pose proof (slot_in_spec l (Z.of_nat i * BLOCK_SIZE) (min_rec_len name_len)) as H0.
    destruct (slot_in _ _ l) as [slot|]; (eexists; split; [done|]); intros img' l' Hb'; rewrite Hb in Hb'; by injection Hb' as <- <-. }
  exists r. split; [done|]. destruct r as [slot|].
  - destruct Hr as (i & Hi & Hr). destruct (lookup_lt_is_Some_2 ds i ltac:(lia)) as [[img l] Hb]. destruct (Hr img l Hb) as (l1 & o & h & l2 & -> & H1 & ->).
    by exists i, img, l1, o, h, l2.
  - intros i img l p Hb Hp. apply (Hr i) with img l; try done. apply lookup_lt_Some in Hb. lia.
Qed.

(** [empty_dir] *)
Lemma keeps_empty_spec self_ino img p : keeps_empty self_ino (entry_of img p).2 = true <->
  (de_ino p.2 <> 0 -> (entry_name img p = DOT_BYTE /\ de_ino p.2 = self_ino) \/ entry_name img p = DOT_DOT_BYTE).
Proof.
  unfold keeps_empty, entry_of. cbn [fst snd e_header e_name]. destruct (Z.eqb_spec (de_ino p.2) 0) as [E|E]; [by split|].
  case_bool_decide as Hd.
  - rewrite Z.eqb_eq, Hd. split; [intros; left; done|]. intros H0. destruct (H0 E) as [[_ ?]|?]; [done|done].
  - rewrite bool_decide_eq_true. split; [intros; by right|]. intros H0. destruct (H0 E) as [[? _]|?]; done.
Qed.

Lemma empty_dir_spec self_ino : empty_dir dev n s self_ino = true <->
  Forall (fun e => (key e = DOT_BYTE /\ e.1.2 = self_ino) \/ key e = DOT_DOT_BYTE) (dir_names ds).
Proof.
  unfold empty_dir, is_dir. rewrite bool_decide_eq_true_2 by apply Hv. destruct dir_pages_ok as (rp & pc & E). rewrite E. cbn [andb]. rewrite dir_blocks_seq, forallb_forall.
  unfold dir_names. rewrite Forall_concat, Forall_map, Forall_lookup. split.
  - intros Hall i [img l] Hb. cbn. apply Forall_forall. intros e (p & Hp & Hi & ->)%elem_live. unfold key. cbn [fst snd].
    specialize (Hall (Z.of_nat i) ltac:(apply in_map, in_seq; apply lookup_lt_Some in Hb; lia)). unfold block_keeps_empty in Hall.
    destruct (dir_block_streams i img l Hb) as (rp' & pc' & E' & _ & Es). rewrite E in E'. injection E' as <- <-. rewrite Es in Hall. apply andb_prop in Hall as [Hall _].
    rewrite forallb_forall in Hall. specialize (Hall (entry_of img p) ltac:(by apply in_map, list_elem_of_In)). by apply keeps_empty_spec in Hall.
  - intros Hall x (i & <- & Hi%in_seq)%in_map_iff. destruct (lookup_lt_is_Some_2 ds i ltac:(lia)) as [[img l] Hb]. unfold block_keeps_empty.
    destruct (dir_block_streams i img l Hb) as (rp' & pc' & E' & _ & Es). rewrite E in E'. injection E' as <- <-. rewrite Es. cbn [is_some negb]. rewrite andb_true_r.
    apply forallb_forall. intros x (p & <- & Hp)%in_map_iff. apply keeps_empty_spec. intros Hi0. specialize (Hall i _ Hb). cbn in Hall.
    rewrite Forall_forall in Hall. apply (Hall _ (live_elem img l p ltac:(by apply list_elem_of_In) Hi0)).
Qed.
End View.
