(* ===== verification/DirEdit.v ===== *)
(** * Directory edits under the journal

    [dir_ok] is a directory whose blocks are mapped by its extent tree and
    whose newest image in the journal is the one in memory.  Each edit keeps
    it: the block that changed is sealed, its whole image is captured, and no
    other block of the volume changes.  The lemmas give the names an edit
    leaves. *)

From S2P Require Import Prelude Pod Checksum JournalFormat Device Bitmap SuperBlock GroupDesc MetaStore BlockGroup Alloc AllocSpec ExtentNode ExtentMap.
From S2P Require Import ExtentTree ExtentWrite ExtentSpec ExtentManager InodeRecord PageCache DirEntry DirBlock DirHash Htree InodeInner Dir DirSpec.

(** ** Sealed blocks *)

(** The records of a block on a [metadata_csum] volume end with the tail. *)
Definition tailed (b : dblock) : Prop := exists l, b.2 = l ++ [(CSUM_COVER, dir_tail)].

Definition sealed (seed : option InodeCsumSeed) (img : list byte) : list byte :=
  match seed with
  | None => img
  | Some seed => splice DET_CHECKSUM_OFFSET (le_bytes 4 (crc32c (inode_seed seed) (slice 0 CSUM_COVER img))) img
  end.

(** The checksum of a block verifies. *)
Definition seal_ok (seed : option InodeCsumSeed) (img : list byte) : Prop :=
  match seed with
  | None => True
  | Some seed => get_le 4 DET_CHECKSUM_OFFSET img = crc32c (inode_seed seed) (slice 0 CSUM_COVER img)
  end.

Lemma sealed_block seed img : is_block img -> is_block (sealed seed img).
Proof. unfold is_block. intros Hb. destruct seed; [|done]. cbn. rewrite zlen_splice; rewrite ?zlen_le_bytes; unfold DET_CHECKSUM_OFFSET, BLOCK_SIZE in *; lia. Qed.

Lemma sealed_ok seed img : is_block img -> (forall sd, seed = Some sd -> fits 32 (inode_seed sd)) -> seal_ok seed (sealed seed img).
Proof.
  unfold is_block. intros Hb Hs. destruct seed as [sd|]; [|done]. cbn. unfold DET_CHECKSUM_OFFSET, CSUM_COVER, DIR_TAIL_LEN, BLOCK_SIZE in *.
  change (splice (4096 - 4) ?d img) with (put_le 4 (4096 - 4) (crc32c (inode_seed sd) (slice 0 (4096 - 12) img)) img) at 1.
  rewrite get_le_put_same by lia. rewrite slice_splice_other by (rewrite ?zlen_le_bytes; lia). apply wrap_small. apply crc32c_fits. by apply Hs.
Qed.

Lemma sealed_records seed img l : block_ok (img, l) -> (is_some seed = true -> tailed (img, l)) ->
  block_ok (sealed seed img, l) /\ live (sealed seed img) l = live img l.
Proof.
  intros [Hb Hs] Ht. cbn [fst snd] in *. destruct seed as [sd|]; [|by repeat split]. destruct (Ht eq_refl) as [l1 E]. cbn in E. subst l.
  pose proof (sealed_block (Some sd) img Hb) as Hb'. set (img' := sealed (Some sd) img) in *.
  destruct (seg_at BLOCK_SIZE ltac:(done) img l1 CSUM_COVER dir_tail [] Hb Hs) as (S1 & S2 & S3 & Hh & _).
  assert (Hsl : forall o n, 0 <= o -> o + n <= DET_CHECKSUM_OFFSET -> slice o n img' = slice o n img).
  { intros o n Ho Hn. cbn. unfold is_block in Hb. apply slice_splice_other; rewrite ?zlen_le_bytes; unfold DET_CHECKSUM_OFFSET, BLOCK_SIZE in *; lia. }
  destruct (seg_replace BLOCK_SIZE ltac:(done) img img' l1 [(CSUM_COVER, dir_tail)] [] [(CSUM_COVER, dir_tail)] CSUM_COVER BLOCK_SIZE) as [R1 R2]; try done.
  - by apply Hsl.
  - apply (seg_one img' BLOCK_SIZE CSUM_COVER dir_tail); [|by vm_compute]. rewrite <- Hh. unfold header_at, read_at. f_equal. by apply Hsl.
  - rewrite app_nil_r in *. split; [by split|]. rewrite R2, live_app. done.
Qed.

(** ** The edits of a block in memory *)

Notation full_block i := {| v_offset := i * PAGE_SIZE; v_limit := BLOCK_SIZE |}.
Notation on_page i img op img1 := (forall rp pc, pc_ok pc -> page_is rp pc i img -> 0 <= i -> op rp pc = (Ok tt, set_page pc i img1)).

(** *** Deletion *)

Definition deleted_img (img : list byte) (l1 : list (Z * DirEntryHeader)) (o : Z) (h : DirEntryHeader) : list byte :=
  match last l1 with
  | Some (o1, h1) => put_header o (with_ino h 0) (put_header o1 (with_rec_len h1 (o + de_rec_len h - o1)) img)
  | None => put_header o (with_ino h 0) img
  end.

Definition deleted_recs (l1 : list (Z * DirEntryHeader)) (o : Z) (h : DirEntryHeader) : list (Z * DirEntryHeader) :=
  match last l1 with
  | Some (o1, h1) => removelast l1 ++ [(o1, with_rec_len h1 (o + de_rec_len h - o1))]
  | None => [(o, with_ino h 0)]
  end.

(** Either way. *)
Lemma deleted_snoc img l0 o1 h1 o h :
  deleted_img img (l0 ++ [(o1, h1)]) o h = put_header o (with_ino h 0) (put_header o1 (with_rec_len h1 (o + de_rec_len h - o1)) img) /\
  deleted_recs (l0 ++ [(o1, h1)]) o h = l0 ++ [(o1, with_rec_len h1 (o + de_rec_len h - o1))].
Proof. unfold deleted_img, deleted_recs. by rewrite last_snoc, removelast_last. Qed.

Lemma deleted_block img l1 o h l2 : block_ok (img, l1 ++ (o, h) :: l2) -> de_ino h <> 0 ->
  block_ok (deleted_img img l1 o h, deleted_recs l1 o h ++ l2) /\
  live (deleted_img img l1 o h) (deleted_recs l1 o h ++ l2) = live img l1 ++ live img l2.
Proof.
  intros [Hb Hs] Hi. cbn [fst snd] in *. destruct l1 as [|[o1 h1] l0 _] using rev_ind.
  2:{ destruct (deleted_snoc img l0 o1 h1 o h) as [-> ->]. rewrite <- app_assoc in *. cbn [app] in *.
    destruct (merge_prev BLOCK_SIZE ltac:(done) img _ o1 h1 o h l2 Hb Hs) as (M1 & M2 & M3 & _). by repeat split. }
  cbn [app] in *. destruct (seg_at BLOCK_SIZE ltac:(done) img [] o h l2 Hb Hs) as (_ & _ & _ & _ & Hw & Hr & _).
  destruct (rec_ok_spec _ _ _ Hw Hr) as (_ & _ & Hn & _). pose proof Hw as (_ & _ & _ & W4)%wf_fields.
  destruct (retarget BLOCK_SIZE ltac:(done) img [] o h l2 0 (de_file_type h) Hb Hs ltac:(done) W4) as (R1 & R2 & R3); [specialize (Hn Hi); lia|]. by repeat split.
Qed.

Lemma seg_count img limit off stop l : zlen img = BLOCK_SIZE -> limit <= BLOCK_SIZE -> 0 <= off -> seg img limit off stop l -> zlen l * HEADER_LEN <= stop - off.
Proof.
  intros Hz Hl Ho H. revert Ho. induction H as [off|off stop l Hr H IH]; intros Ho; [unfold zlen; cbn [length]; lia|].
  assert (Hseg : seg img limit off stop ((off, header_at img off) :: l)) by (by constructor).
  destruct (seg_bounds img limit off stop _ Hz Hl Ho Hseg) as [_ Hall]. apply Forall_cons in Hall as [(_ & _ & Hw & _) _]. cbn [fst snd] in *.
  destruct (rec_ok_spec _ _ _ Hw Hr) as (_ & _ & _ & _ & _ & H8 & _). rewrite zlen_cons. unfold HEADER_LEN in *. specialize (IH ltac:(lia)). lia.
Qed.

Lemma delete_page i img l1 o h l2 : block_ok (img, l1 ++ (o, h) :: l2) -> de_ino h <> 0 ->
  on_page i img (fun rp => block_delete_entry rp (full_block i) o (de_rec_len h)) (deleted_img img l1 o h).
Proof.
  intros [Hb Hs] Hi rp pc Hok Hpage Hi0. cbn [fst snd] in *. destruct (seg_at BLOCK_SIZE ltac:(done) img l1 o h l2 Hb Hs) as (S1 & _ & _ & Hh & Hw & Hr & Ho & Ho8 & Hol).
  destruct (rec_ok_spec _ _ _ Hw Hr) as (_ & _ & _ & _ & _ & H8 & _). pose proof (seg_count img BLOCK_SIZE 0 o l1 Hb ltac:(done) ltac:(done) S1) as Hcnt. unfold HEADER_LEN, zlen in *.
  unfold block_delete_entry. cbn [v_limit]. rewrite (proj2 (Z.eqb_neq _ _)), (proj2 (Z.ltb_ge _ _)) by lia. cbn [orb].
  rewrite bind_eq. unfold get. rewrite bind_eq, lift_eq. replace (align_down o) with 0 by (unfold align_down; rewrite Z.div_small by (unfold PAGE_SIZE, BLOCK_SIZE in *; lia); done).
  rewrite (find_prev_spec rp pc i BLOCK_SIZE img Hok Hpage Hi0 ltac:(done) (Z.to_nat o) l1 0 o None) by (done || lia).
  destruct l1 as [|[o1 h1] l0 _] using rev_ind.
  2:{ destruct (deleted_snoc img l0 o1 h1 o h) as [-> _]. rewrite last_snoc. cbn [fst]. rewrite <- app_assoc in Hs. cbn [app] in Hs. destruct (merge_prev BLOCK_SIZE ltac:(done) img _ o1 h1 o h l2 Hb Hs) as (_ & _ & _ & Hh').
    destruct (seg_at BLOCK_SIZE ltac:(done) img _ o1 h1 ((o, h) :: l2) Hb Hs) as (_ & _ & _ & Hh1 & Hw1 & Hrk & Ho1 & Ho18 & Hol1).
    destruct (rec_ok_spec _ _ _ Hw1 Hrk) as (_ & _ & _ & _ & _ & H81 & _). destruct (wf_fields _ Hw1) as (F1 & F2 & F3 & F4).
    apply seg_app in S1 as (m1 & _ & S1). inversion S1 as [|? ? ? Hr1 Hn1]; subst. inversion Hn1; subst. unfold HEADER_LEN in *.
    unfold HEADER_LEN, BLOCK_SIZE in *.
    rewrite bind_eq, (set_rec_len_page rp pc i BLOCK_SIZE img Hok Hpage Hi0) by (unfold HEADER_LEN, BLOCK_SIZE; lia).
    assert (Hb1 : is_block (put_header o1 (with_rec_len (header_at img o1) (u16 (o1 + de_rec_len (header_at img o1) + de_rec_len (header_at img (o1 + de_rec_len (header_at img o1))) - o1))) img)).
    { unfold is_block in *. rewrite put_header_len; [done|lia|unfold HEADER_LEN, BLOCK_SIZE in *; lia|]. apply fields_wf; try done. by apply wrap_fits. }
    destruct (set_page_page rp pc i img Hok Hpage Hi0 _ Hb1) as [Hok1 Hpage1].
    rewrite (set_inode_page rp _ i BLOCK_SIZE _ Hok1 Hpage1 Hi0) by (unfold HEADER_LEN, BLOCK_SIZE; lia). rewrite set_page_twice. do 2 f_equal.
    rewrite !(wrap_small 16 _ : _ -> u16 _ = _) in * by (unfold fits; lia). by rewrite Hh'. }
  cbn [last]. rewrite bind_eq, mret_eq. rewrite (set_inode_page rp pc i BLOCK_SIZE img Hok Hpage Hi0) by (unfold HEADER_LEN; lia). by rewrite Hh.
Qed.

(** *** Insertion *)

(** The record of the new entry, at the end of the slot [h] is. *)
Definition placed_at (o : Z) (h : DirEntryHeader) : Z := if de_ino h =? 0 then o else o + min_rec_len (de_name_len h).
Definition placed_header (h : DirEntryHeader) (name : list byte) (ino ft : Z) : DirEntryHeader :=
  Header ino (if de_ino h =? 0 then de_rec_len h else de_rec_len h - min_rec_len (de_name_len h)) (zlen name) ft.
Definition placed_img (img : list byte) (o : Z) (h : DirEntryHeader) (name : list byte) (ino ft : Z) : list byte :=
  put_entry (placed_at o h) (placed_header h name ino ft) name
    (if de_ino h =? 0 then img else put_header o (with_rec_len h (min_rec_len (de_name_len h))) img).
Definition placed_recs (o : Z) (h : DirEntryHeader) (name : list byte) (ino ft : Z) : list (Z * DirEntryHeader) :=
  (if de_ino h =? 0 then [] else [(o, with_rec_len h (min_rec_len (de_name_len h)))]) ++ [(placed_at o h, placed_header h name ino ft)].

Definition entry_args (name : list byte) (ino : Z) : Prop := 0 < zlen name <= NAME_MAX /\ fits 32 ino /\ ino <> 0.

Lemma ft_code_fits t : fits 8 (ft_code t).
Proof. by destruct t. Qed.

Lemma placed_block img l1 o h l2 name ino t : block_ok (img, l1 ++ (o, h) :: l2) -> slot_fits (min_rec_len (zlen name)) h -> entry_args name ino ->
  let ft := ft_code t in
  block_ok (placed_img img o h name ino ft, l1 ++ placed_recs o h name ino ft ++ l2) /\
  live (placed_img img o h name ino ft) (l1 ++ placed_recs o h name ino ft ++ l2) = live img (l1 ++ [(o, h)]) ++ (name, ino, ft) :: live img l2.
Proof.
  intros [Hb Hs] [_ Hf] (Hn & Hi & Hi0) ft. cbn [fst snd] in *. pose proof (ft_code_fits t). unfold placed_img, placed_recs, placed_at, placed_header. destruct (Z.eqb_spec (de_ino h) 0) as [E|E].
  - destruct (reuse_free BLOCK_SIZE ltac:(done) img l1 o h l2 ino ft name Hb Hs E ltac:(lia) Hn Hi Hi0 ltac:(done)) as (R1 & R2 & R3). by repeat split.
  - destruct (split_live BLOCK_SIZE ltac:(done) img l1 o h l2 ino ft name Hb Hs E ltac:(lia) Hn Hi Hi0 ltac:(done)) as (R1 & R2 & R3). by repeat split.
Qed.

Lemma place_page i img l1 o h l2 name ino t : block_ok (img, l1 ++ (o, h) :: l2) -> slot_fits (min_rec_len (zlen name)) h -> entry_args name ino ->
  on_page i img (fun rp => place_entry rp (slot_of (i * BLOCK_SIZE) o h) name ino t) (placed_img img o h name ino (ft_code t)).
Proof.
  intros [Hb Hs] [_ Hf] (Hn & Hi & Hi0) rp pc Hok Hpage Hi1. cbn [fst snd] in *. destruct (seg_at BLOCK_SIZE ltac:(done) img l1 o h l2 Hb Hs) as (_ & _ & _ & Hh & Hw & Hr & Ho & Ho8 & Hol).
  pose proof Hw as (W1 & W2 & W3 & W4)%wf_fields. unfold fits, NAME_MAX in *. destruct (min_rec_len_bounds (zlen name) ltac:(lia)) as [Hm _]. destruct (min_rec_len_bounds (de_name_len h) ltac:(lia)) as [Hu _].
  unfold place_entry, slot_of, placed_img, placed_at, placed_header, create_view. cbn [ds_used ds_offset ds_rec_len]. unfold HEADER_LEN in *.
  rewrite (wrap_small 8 (zlen name)) by (unfold fits; lia). destruct (Z.eqb_spec (de_ino h) 0) as [E|E].
  - cbn [Z.eqb negb]. rewrite bind_eq, mret_eq, !(wrap_small 16 _ : _ -> u16 _ = _) by (unfold fits; lia). change BLOCK_SIZE with PAGE_SIZE.
    rewrite (write_entry_page rp pc i img o _ 0) by (try apply fields_wf; cbn; try apply ft_code_fits; unfold HEADER_LEN, NAME_MAX, fits; done || lia). by rewrite Z.add_0_r.
  - rewrite (proj2 (Z.eqb_neq _ _)) by lia. cbn [negb]. rewrite bind_eq, !(wrap_small 16 _ : _ -> u16 _ = _) by (unfold fits; lia).
    assert (forall a b c, set_rec_len rp {| v_offset := i * BLOCK_SIZE + a; v_limit := b |} 0 c = set_rec_len rp (full_block i) a c) as ->.
    { intros. unfold set_rec_len. cbn [v_offset]. by rewrite Z.add_0_r. }
    rewrite (set_rec_len_page rp pc i BLOCK_SIZE img Hok Hpage Hi1) by (unfold HEADER_LEN; lia). rewrite Hh.
    assert (Hb1 : is_block (put_header o (with_rec_len h (min_rec_len (de_name_len h))) img)).
    { unfold is_block in *. rewrite put_header_len; [done|lia|unfold HEADER_LEN; lia|]. apply fields_wf; cbn; unfold fits; lia. }
    destruct (set_page_page rp pc i img Hok Hpage Hi1 _ Hb1) as [Hok1 Hpage1]. rewrite <- Z.add_assoc. change BLOCK_SIZE with PAGE_SIZE at 1.
    rewrite (write_entry_page rp _ i _ (o + min_rec_len (de_name_len h)) _ 0 _ name Hok1 Hpage1) by (try apply fields_wf; cbn; try apply ft_code_fits; unfold HEADER_LEN, NAME_MAX, fits; done || lia).
    by rewrite Z.add_0_r, set_page_twice.
Qed.

(** *** A new target *)

Definition retargeted (img : list byte) (o : Z) (h : DirEntryHeader) (ino ft : Z) : list byte := put_header o (with_type (with_ino h ino) ft) img.

Lemma retarget_page i img l1 o h l2 ino t : block_ok (img, l1 ++ (o, h) :: l2) -> fits 32 ino ->
  on_page i img (fun rp => set_inode rp (full_block i) o ino;; set_file_type rp (full_block i) o t) (retargeted img o h ino (ft_code t)).
Proof.
  intros [Hb Hs] Hi rp pc Hok Hpage Hi1. cbn [fst snd] in *. destruct (seg_at BLOCK_SIZE ltac:(done) img l1 o h l2 Hb Hs) as (_ & _ & _ & Hh & Hw & Hr & Ho & Ho8 & Hol).
  pose proof Hw as (W1 & W2 & W3 & W4)%wf_fields. rewrite bind_eq, (set_inode_page rp pc i BLOCK_SIZE img Hok Hpage Hi1), Hh by done.
  assert (Hw1 : c_wf header_codec (with_ino h ino)) by (by apply fields_wf).
  assert (Hb1 : is_block (put_header o (with_ino h ino) img)) by (unfold is_block in *; by rewrite put_header_len by (done || lia)).
  destruct (set_page_page rp pc i img Hok Hpage Hi1 _ Hb1) as [Hok1 Hpage1].
  rewrite (set_file_type_page rp _ i BLOCK_SIZE _ Hok1 Hpage1 Hi1) by done. unfold is_block in *. rewrite put_header_at by (done || lia). rewrite set_page_twice, put_header_twice; try done; try lia.
  apply fields_wf; try done. apply ft_code_fits.
Qed.

(** ** The invariant *)

Section Edit.
Context {S : Type} `{MetaStoreOk S}.
Context (dev : device).
Implicit Types s : S.

(** The page of a block: written and kept, or on the device. *)
Definition holds_page (pc : PageCache) (i p : Z) (img : list byte) : Prop :=
  pc_pages pc !! i = Some img \/ (pc_pages pc !! i = None /\ dev_read dev p = Ok img).

(** The blocks in [skip] may differ from their image in the journal. *)
Record dir_ok_but (skip : nat -> Prop) (n : InodeInner) (fs : Ext4) (s : S) (ds : list dblock) (l : list Extent) (ext : list Z) (runs : list (Z * Z)) : Prop := {
  dk_dir : i_type (in_desc n) = Dir;
  dk_size : file_size n = zlen ds * BLOCK_SIZE;
  dk_fits : zlen ds * BLOCK_SIZE < 2 ^ 32;
  dk_blocks : Forall block_ok ds;
  dk_tails : is_some (in_seed n) = true -> Forall tailed ds;
  dk_payload : exists pc t np, in_payload n = DataBacked pc t np /\ pc_ok pc /\ tree_ok t fs s l ext runs /\
    zlen ds * BLOCK_SIZE <= pc_size pc /\ zlen ds <= np /\
    forall i b, ds !! i = Some b -> exists p, ext_map l (Z.of_nat i) = Some (p, Written) /\ (~ skip i -> ms_read s p = Ok b.1) /\ holds_page pc (Z.of_nat i) p b.1;
}.

Definition dir_ok := dir_ok_but (fun _ => False).

Lemma dir_ok_weaken (P Q : nat -> Prop) n fs s ds l ext runs : (forall i, P i -> Q i) -> dir_ok_but P n fs s ds l ext runs -> dir_ok_but Q n fs s ds l ext runs.
Proof.
  intros HPQ [D1 D2 D3 D4 D5 (pc & t & np & Hp & Hok & Ht & Hc & Hn & Hpg)]. split; try done. exists pc, t, np. split_and!; try done.
  intros i b Hb. destruct (Hpg i b Hb) as (p & Hm & Hr & Hh). exists p. split_and!; try done. auto.
Qed.

(** A mapped block is read from where it is mapped. *)
Lemma mapped_read t fs s l ext runs np i p : tree_ok t fs s l ext runs -> ext_map l i = Some (p, Written) -> 0 <= i < np -> i < 2 ^ 32 ->
  read_page dev np t s i = dev_read dev p /\ exists len, map_blocks t s i = Ok (Mapped p len true).
Proof.
  intros Ht Hm Hi H32. destruct (map_blocks_spec t fs s l ext runs i Ht) as (m & E & Hr).
  assert (exists len, m = Mapped p len true) as [len ->].
  { destruct m as [p' len w|]; [|congruence]. destruct Hr as [Hl Hr]. specialize (Hr 0 ltac:(lia)). rewrite !Z.add_0_r, Hm in Hr. exists len. by destruct w; injection Hr as <-. }
  split; [|by exists len]. unfold read_page, submit_read_bio. rewrite (proj2 (Z.leb_gt _ _)), (proj2 (Z.ltb_lt _ _)) by lia. cbn [negb]. by rewrite E.
Qed.

Lemma holds_page_is t fs s l ext runs np pc i p img : tree_ok t fs s l ext runs -> ext_map l i = Some (p, Written) -> 0 <= i < np -> i < 2 ^ 32 ->
  i * PAGE_SIZE + PAGE_SIZE <= pc_size pc -> is_block img -> holds_page pc i p img -> page_is (read_page dev np t s) pc i img.
Proof.
  intros Ht Hm Hi H32 Hc Hb Hp. split; [|done]. unfold commit_page.
  assert (i < div_ceil (pc_size pc) PAGE_SIZE) as Hlt.
  { apply Z.lt_le_trans with (div_ceil ((i + 1) * PAGE_SIZE) PAGE_SIZE); [rewrite div_ceil_mult; lia|]. unfold div_ceil. apply Z.div_le_mono; unfold PAGE_SIZE in *; lia. }
  rewrite (proj2 (Z.ltb_lt _ _)) by done. destruct Hp as [->|[-> Hd]]; [done|]. destruct (mapped_read t fs s l ext runs np i p Ht Hm Hi H32) as [-> _]. done.
Qed.

Lemma dir_ok_view skip n fs s ds l ext runs : dir_ok_but skip n fs s ds l ext runs -> dir_view dev n s ds.
Proof.
  intros [D1 D2 D3 D4 D5 (pc & t & np & Hp & Hok & Ht & Hc & Hn & Hpg)]. split; try done. exists pc, t, np. split_and!; try done.
  intros i b Hb. pose proof (lookup_lt_Some _ _ _ Hb). destruct (Hpg i b Hb) as (p & Hm & Hr & Hh). rewrite Forall_lookup in D4. specialize (D4 i b Hb).
  split; [|done]. apply (holds_page_is t fs s l ext runs np pc (Z.of_nat i) p); try done; try apply D4; unfold zlen, BLOCK_SIZE, PAGE_SIZE in *; lia.
Qed.

(** A block of a tree's file is no block of the tree, nor of the file system
    or of anyone else. *)
Lemma mapped_apart t fs s l ext runs i p k : tree_ok t fs s l ext runs -> ext_map l i = Some (p, k) ->
  ~ fs_system fs p /\ p ∉ ext /\ held runs p = 0%nat /\ ~ fs_free fs p.
Proof.
  intros [T1 T2 T3 T4] Hm. apply ext_map_elem in Hm as (e & He & Em); [|by apply exts_ok_once]. apply e_map_Some in Em as [Hb Ep]. injection Ep as -> ->. unfold e_end in Hb.
  assert (Ho : (1 <= owners l (e_start e + (i - e_block e)))%nat) by (apply (owners_in e); [done|lia]). pose proof (holds_once _ _ _ (e_start e + (i - e_block e)) T3) as H1.
  rewrite !held_app, held_runs in H1. destruct (holds_block _ _ _ (e_start e + (i - e_block e)) T3) as (B1 & B2 & _); [rewrite !held_app, held_runs; lia|].
  split_and!; try done; [|lia]. intros Hin%held_blocks_in. lia.
Qed.

(** Two logical blocks of a file are two blocks. *)
Lemma mapped_inj t fs s l ext runs i j p k k' : tree_ok t fs s l ext runs -> ext_map l i = Some (p, k) -> ext_map l j = Some (p, k') -> i = j.
Proof.
  intros [T1 T2 T3 T4] Hi Hj. apply ext_map_elem in Hi as (e & He & Ee); [|by apply exts_ok_once]. apply ext_map_elem in Hj as (f & Hf & Ef); [|by apply exts_ok_once].
  apply e_map_Some in Ee as [Hb Ep], Ef as [Hc Fp]. injection Ep as Ep _. injection Fp as Fp _. unfold e_end in *.
  assert (Ho : (owners l p <= 1)%nat). { pose proof (holds_once _ _ _ p T3) as H1. rewrite !held_app, held_runs in H1. lia. }
  destruct (decide (e = f)) as [->|Hne]; [lia|exfalso].
  apply list_elem_of_split in He as (l1 & l2 & ->). rewrite owners_app, owners_cons in Ho. unfold one_if in Ho. rewrite decide_True in Ho by lia.
  apply elem_of_app in Hf as [Hf|[->|Hf]%elem_of_cons]; [|done|]; pose proof (owners_in f _ p Hf ltac:(lia)); lia.
Qed.

(** A change of one data block leaves the tree alone. *)
Lemma tree_data_write t fs s l ext runs i p k s' : tree_ok t fs s l ext runs -> ext_map l i = Some (p, k) -> ms_ok s' ->
  (forall c, c <> p -> ms_read s' c = ms_read s c) -> tree_ok t fs s' l ext runs.
Proof.
  intros Ht Hm Hok Hrd. destruct (mapped_apart t fs s l ext runs i p k Ht Hm) as (Hs & He & _). destruct Ht as [T1 T2 T3 T4]. destruct (holds_fs _ _ _ T3) as (_ & K2 & _).
  split; try done; [eapply repr_same; [|exact T1]; intros b Hb; apply Hrd; congruence|].
  apply (session_step_ok _ _ _ T3 (Step_other fs s _ s' Hok ltac:(eapply fs_stored_on; [|exact K2]; intros c Hc; apply Hrd; congruence))).
Qed.

(** *** Journaling a block *)

Lemma inner_eq n (st : Ext4 * S) : inner (n, st) = (Ok n, (n, st)).
Proof. done. Qed.

Lemma read_cache_eq {A} (f : (Z -> result (list byte)) -> PageCache -> result A) n fs s pc t np :
  in_payload n = DataBacked pc t np -> read_cache dev f (n, (fs, s)) = (f (read_page dev np t s) pc, (n, (fs, s))).
Proof. intros E. unfold read_cache. cbn [fst snd]. by rewrite E. Qed.

Lemma on_cache_eq {A} (m : (Z -> result (list byte)) -> M PageCache A) n fs s pc t np r pc' :
  in_payload n = DataBacked pc t np -> m (read_page dev np t s) pc = (r, pc') ->
  on_cache dev m (n, (fs, s)) = (r, (set_payload n (DataBacked pc' t np), (fs, s))).
Proof. intros E Em. unfold on_cache. cbn [fst snd]. by rewrite E, Em. Qed.

Lemma set_payload_twice n p q : set_payload (set_payload n p) q = set_payload n q.
Proof. done. Qed.

Lemma seal_spec n fs s pc t np i img :
  in_payload n = DataBacked pc t np -> pc_ok pc -> page_is (read_page dev np t s) pc i img -> 0 <= i ->
  seal_dir_block dev i (n, (fs, s)) = (Ok tt, (match in_seed n with None => n | Some _ => set_payload n (DataBacked (set_page pc i (sealed (in_seed n) img)) t np) end, (fs, s))).
Proof.
  intros Hp Hok Hpage Hi. unfold seal_dir_block. rewrite bind_eq, inner_eq. destruct (in_seed n) as [sd|]; [|done].
  rewrite bind_eq, (read_cache_eq _ n fs s pc t np Hp). change BLOCK_SIZE with PAGE_SIZE.
  pose proof (read_raw_page (read_page dev np t s) pc i img 0 PAGE_SIZE Hok Hpage Hi) as E. rewrite Z.add_0_r in E. rewrite E by done. cbn [map_err]. clear E.
  destruct Hpage as [Hc Hb]. rewrite (slice_full PAGE_SIZE img) by done.
  rewrite (on_cache_eq _ n fs s pc t np (Ok tt) (set_page pc i (sealed (Some sd) img))); [done|done|].
  unfold write_val. cbn [as_bytes le]. apply write_bytes_page; try done; rewrite ?zlen_le_bytes; unfold DET_CHECKSUM_OFFSET, BLOCK_SIZE, PAGE_SIZE; lia.
Qed.

Lemma mapping_eq b n fs s pc t np : in_payload n = DataBacked pc t np -> mapping b (n, (fs, s)) = (map_blocks t s b, (n, (fs, s))).
Proof. intros E. unfold mapping. cbn [fst snd]. by rewrite E. Qed.

(** What journaling block [i] with the image [img] leaves in the store. *)
Definition one_image (p : Z) (img : list byte) (r : result unit) (s s' : S) : Prop :=
  ms_ok s' /\ (forall c, c <> p -> ms_read s' c = ms_read s c) /\
  match r with Ok _ => ms_read s' p = Ok img | Err e => handled e = true end.

Lemma journal_block_spec n fs s pc t np l ext runs i p img off :
  in_payload n = DataBacked pc t np -> pc_ok pc -> tree_ok t fs s l ext runs -> ext_map l i = Some (p, Written) ->
  page_is (read_page dev np t s) pc i img -> 0 <= i < np -> off / BLOCK_SIZE = i -> i < 2 ^ 32 ->
  exists r pc' s', journal_dir_block dev off (n, (fs, s)) = (r, (set_payload n (DataBacked pc' t np), (fs, s'))) /\
    (pc' = pc /\ in_seed n = None \/ pc' = set_page pc i (sealed (in_seed n) img)) /\ one_image p (sealed (in_seed n) img) r s s'.
Proof.
  intros Hp Hok Ht Hm Hpage Hi Ho H32. unfold journal_dir_block. rewrite Ho, (wrap_small 32 i : _ -> u32 i = i) by (unfold fits; lia).
  rewrite bind_eq, (seal_spec n fs s pc t np i img) by (done || lia).
  assert (exists pc', (match in_seed n with None => n | Some _ => set_payload n (DataBacked (set_page pc i (sealed (in_seed n) img)) t np) end) = set_payload n (DataBacked pc' t np) /\
    (pc' = pc /\ in_seed n = None \/ pc' = set_page pc i (sealed (in_seed n) img)) /\ pc_ok pc' /\ page_is (read_page dev np t s) pc' i (sealed (in_seed n) img)) as (pc' & -> & Hpc' & Hok' & Hpage').
  { pose proof (sealed_block (in_seed n) img (proj2 Hpage)) as Hb. destruct (in_seed n) as [sd|] eqn:Es.
    - eexists. split; [done|]. split; [by right|]. apply (set_page_page (read_page dev np t s) pc i img); done || lia.
    - exists pc. split; [destruct n; cbn in *; by subst|]. split; [by left|done]. }
  set (n1 := set_payload n (DataBacked pc' t np)). destruct (mapped_read t fs s l ext runs np i p Ht Hm Hi H32) as [_ [len El]].
  rewrite bind_eq, (mapping_eq i n1 fs s pc' t np eq_refl), El. cbn [mapped_pblock].
  rewrite bind_eq, (read_cache_eq _ n1 fs s pc' t np eq_refl). change BLOCK_SIZE with PAGE_SIZE.
  pose proof (read_raw_page (read_page dev np t s) pc' i _ 0 PAGE_SIZE Hok' Hpage' ltac:(lia)) as E. rewrite Z.add_0_r in E. rewrite E by done. cbn [map_err]. clear E.
  rewrite (slice_full PAGE_SIZE) by (symmetry; apply Hpage'). destruct (holds_fs _ _ _ (to_holds _ _ _ _ _ _ Ht)) as (_ & _ & Kok).
  rewrite bind_eq, !on_store_eq. cbn [fst snd]. destruct (ms_create p s) as [[a|e] s1] eqn:Ec; destruct (ms_create_spec s p _ s1 Kok Ec) as (C1 & C2 & C3 & _ & C5); cbn [fst snd].
  - destruct (ms_patch_spec s1 a p (fun _ => sealed (in_seed n) img) C1 C5) as (img0 & s2 & _ & Ep & P1 & P2 & _); [intros; apply Hpage'|].
    rewrite !on_store_eq. cbn [fst snd]. rewrite Ep. cbn [fst snd]. eexists _, pc', s2. split; [done|]. split; [done|]. split_and!; [done| |].
    + intros c Hc. rewrite P2, decide_False by done. by apply C2.
    + by rewrite P2, decide_True.
  - eexists _, pc', s1. split; [done|]. split; [done|]. by split_and!.
Qed.

(** *** One block rewritten *)

(** What an edit of block [i] does: the inode keeps everything but its pages,
    one block of the volume changes, and on success the directory is the one
    whose block is [b].  A failed edit reports an error the caller handles. *)
Definition pages_only (n n' : InodeInner) : Prop := exists pc pc' t np, in_payload n = DataBacked pc t np /\ n' = set_payload n (DataBacked pc' t np).

Lemma pages_only_trans n n1 n2 : pages_only n n1 -> pages_only n1 n2 -> pages_only n n2.
Proof. intros (pc & pc1 & t & np & E & ->) (pc2 & pc3 & t' & np' & E' & ->). injection E' as <- <- <-. by exists pc, pc3, t, np. Qed.

Lemma pages_only_kept n n' : pages_only n n' -> in_desc n' = in_desc n /\ in_seed n' = in_seed n /\ root_and_sectors n' = root_and_sectors n /\ is_dirty n' = is_dirty n.
Proof. intros (pc & pc' & t & np & E & ->). unfold root_and_sectors, is_dirty. cbn. by rewrite E. Qed.

Record block_edit (skip : nat -> Prop) (n : InodeInner) (fs : Ext4) (s : S) (ds : list dblock) (l : list Extent) (ext : list Z) (runs : list (Z * Z))
    (i : nat) (b : dblock) (r : result unit) (n' : InodeInner) (s' : S) : Prop := {
  be_inode : pages_only n n';
  be_store : ms_ok s';
  be_frame : exists p, ext_map l (Z.of_nat i) = Some (p, Written) /\ forall c, c <> p -> ms_read s' c = ms_read s c;
  be_seal : (forall sd, in_seed n = Some sd -> fits 32 (inode_seed sd)) -> seal_ok (in_seed n) b.1;
  be_result : match r with Ok _ => dir_ok_but skip n' fs s' (<[i := b]> ds) l ext runs | Err e => handled e = true end;
}.

(** The page of a block is rewritten. *)
Lemma page_edit_spec skip (op : (Z -> result (list byte)) -> M PageCache unit) n fs s ds l ext runs i img recs img1 recs1 :
  dir_ok_but skip n fs s ds l ext runs -> ds !! i = Some ((img, recs) : dblock) -> on_page (Z.of_nat i) img op img1 ->
  block_ok (img1, recs1) -> (is_some (in_seed n) = true -> tailed (img1, recs1)) ->
  exists n1, on_cache dev op (n, (fs, s)) = (Ok tt, (n1, (fs, s))) /\ pages_only n n1 /\
    dir_ok_but (fun j => skip j \/ j = i) n1 fs s (<[i := (img1, recs1)]> ds) l ext runs.
Proof.
  intros Hd Hi Hop Hb1 Ht1. pose proof (dv_pages _ _ _ _ (dir_ok_view skip n fs s ds l ext runs Hd)) as (pc0 & t0 & np0 & Ep & _ & Hview).
  destruct Hd as [D1 D2 D3 D4 D5 (pc & t & np & Hp & Hok & Ht & Hc & Hn & Hpg)]. rewrite Hp in Ep. injection Ep as <- <- <-. destruct (Hview i _ Hi) as [Hpage _]. clear Hview. cbn [fst] in Hpage.
  eexists. split; [apply (on_cache_eq op n fs s pc t np _ _ Hp (Hop _ pc Hok Hpage ltac:(lia)))|]. split; [by eexists _, _, _, _|].
  destruct (set_page_page (read_page dev np t s) pc (Z.of_nat i) img Hok Hpage ltac:(lia) img1 (proj1 Hb1)) as [Hok1 Hpage1].
  split; unfold zlen; rewrite ?length_insert; try done; [by apply Forall_insert|intros Es; apply Forall_insert; auto|].
  exists (set_page pc (Z.of_nat i) img1), t, np. split_and!; try done. intros j b Hj. destruct (decide (j = i)) as [->|Hne].
  - rewrite list_lookup_insert_eq in Hj by (by eapply lookup_lt_Some). injection Hj as <-. destruct (Hpg i _ Hi) as (p & Hm & _). exists p. split_and!; [done|tauto|]. left. cbn. by rewrite lookup_insert_eq.
  - rewrite list_lookup_insert_ne in Hj by done. destruct (Hpg j b Hj) as (q & Hq & Hr & Hh). exists q. split_and!; [done|tauto|]. unfold holds_page in *. cbn. by rewrite lookup_insert_ne by lia.
Qed.

(** The image of a block is captured. *)
Lemma journal_step skip n fs s ds l ext runs i img recs off :
  dir_ok_but skip n fs s ds l ext runs -> ds !! i = Some ((img, recs) : dblock) -> off / BLOCK_SIZE = Z.of_nat i ->
  exists r n' s', journal_dir_block dev off (n, (fs, s)) = (r, (n', (fs, s'))) /\
    block_edit (fun j => skip j /\ j <> i) n fs s ds l ext runs i (sealed (in_seed n) img, recs) r n' s'.
Proof.
  intros Hd Hi Ho. pose proof (dv_pages _ _ _ _ (dir_ok_view skip n fs s ds l ext runs Hd)) as (pc0 & t0 & np0 & Ep & _ & Hview).
  destruct Hd as [D1 D2 D3 D4 D5 (pc & t & np & Hp & Hok & Ht & Hc & Hn & Hpg)]. rewrite Hp in Ep. injection Ep as <- <- <-. destruct (Hview i _ Hi) as [Hpage Hb]. clear Hview. cbn [fst] in Hpage.
  pose proof (lookup_lt_Some _ _ _ Hi) as Hlt. destruct (Hpg i _ Hi) as (p & Hm & _ & Hh). cbn [fst] in *. unfold zlen in *.
  destruct (journal_block_spec n fs s _ t np l ext runs (Z.of_nat i) p img off Hp Hok Ht Hm Hpage ltac:(lia) Ho) as (r & pc' & s' & E & Hpc' & O1 & O2 & O3); [unfold BLOCK_SIZE in *; lia|].
  eexists r, _, s'. split; [exact E|]. pose proof (sealed_block (in_seed n) img (proj1 Hb)) as Hsb. split; [by exists pc, pc', t, np|done|by exists p|intros Hf; by apply sealed_ok; [apply Hb|]|].
  destruct r as [[]|e]; [|done]. assert (Htl : is_some (in_seed n) = true -> tailed (img, recs)) by (intros Es; specialize (D5 Es); rewrite Forall_lookup in D5; by apply (D5 i)).
  destruct (sealed_records (in_seed n) img recs Hb Htl) as [Hsr _].
  assert (Hpc : pc_ok pc' /\ pc_size pc' = pc_size pc /\ holds_page pc' (Z.of_nat i) p (sealed (in_seed n) img) /\ forall j, j <> Z.of_nat i -> pc_pages pc' !! j = pc_pages pc !! j).
  { destruct Hpc' as [[-> Es]| ->]; [by rewrite Es|]. split_and!; [|done| |].
    - by apply (set_page_page (read_page dev np t s) pc (Z.of_nat i) img Hok Hpage ltac:(lia)).
    - left. cbn. by rewrite lookup_insert_eq.
    - intros j Hj. cbn. by rewrite lookup_insert_ne. }
  destruct Hpc as (Q1 & Q2 & Q3 & Q4). split; unfold zlen; rewrite ?length_insert; try done; [by apply Forall_insert|intros Es; apply Forall_insert; [by apply D5|destruct (Htl Es) as [l1 El]; by exists l1]|].
  exists pc', t, np. rewrite Q2. split_and!; try done; [by apply (tree_data_write t fs s l ext runs (Z.of_nat i) p Written)|].
  intros j b Hj. destruct (decide (j = i)) as [->|Hne].
  - rewrite list_lookup_insert_eq in Hj by done. injection Hj as <-. by exists p.
  - rewrite list_lookup_insert_ne in Hj by done. destruct (Hpg j b Hj) as (q & Hq & Hr & Hh'). exists q. split_and!; [done| |unfold holds_page in *; by rewrite Q4 by lia].
    intros Hs. rewrite O2; [apply Hr; tauto|]. intros ->. apply Hne, Nat2Z.inj. by apply (mapped_inj t fs s l ext runs (Z.of_nat j) (Z.of_nat i) p Written Written).
Qed.

Lemma edit_spec skip (op : (Z -> result (list byte)) -> M PageCache unit) n fs s ds l ext runs i img recs img1 recs1 off :
  dir_ok_but skip n fs s ds l ext runs -> (forall j, skip j -> j = i) -> ds !! i = Some ((img, recs) : dblock) -> on_page (Z.of_nat i) img op img1 ->
  block_ok (img1, recs1) -> (is_some (in_seed n) = true -> tailed (img1, recs1)) -> off / BLOCK_SIZE = Z.of_nat i ->
  exists r n' s', (on_cache dev op;; journal_dir_block dev off) (n, (fs, s)) = (r, (n', (fs, s'))) /\
    block_edit (fun _ => False) n fs s ds l ext runs i (sealed (in_seed n) img1, recs1) r n' s'.
Proof.
  intros Hd Hskip Hi Hop Hb1 Ht1 Ho. pose proof (lookup_lt_Some _ _ _ Hi) as Hlt. destruct (page_edit_spec skip op n fs s ds l ext runs i img recs img1 recs1 Hd Hi Hop Hb1 Ht1) as (n1 & E & Hp1 & Hd1).
  destruct (pages_only_kept n n1 Hp1) as (_ & Es & _). destruct (journal_step _ n1 fs s _ l ext runs i img1 recs1 off Hd1 ltac:(by apply list_lookup_insert_eq) Ho) as (r & n' & s' & E' & [B1 B2 B3 B4 B5]).
  rewrite Es in *. exists r, n', s'. rewrite bind_eq, E. split; [done|]. split; try done; [by eapply pages_only_trans|].
  destruct r as [[]|]; [|done]. rewrite list_insert_insert_eq in B5. eapply dir_ok_weaken; [|exact B5]. cbn. intros j [[Hj| ->] Hne]; [by apply Hne, Hskip|done].
Qed.

(** *** Names after an edit *)

Lemma dir_names_split (ds : list dblock) i (b : dblock) : ds !! i = Some b ->
  exists x y, dir_names ds = x ++ names_of b ++ y /\ forall b', dir_names (<[i := b']> ds) = x ++ names_of b' ++ y.
Proof.
  intros Hi. pose proof (lookup_lt_Some _ _ _ Hi). exists (dir_names (take i ds)), (dir_names (drop (Datatypes.S i) ds)). split.
  - rewrite <- (take_drop_middle ds i b Hi) at 1. unfold dir_names. by rewrite map_app, concat_app.
  - intros b'. rewrite insert_take_drop by done. unfold dir_names. by rewrite map_app, concat_app.
Qed.

(** A record other than the tail has the tail after it. *)
Lemma tailed_after (img img' : list byte) l1 l1' (p : Z * DirEntryHeader) l2 : tailed (img, l1 ++ p :: l2) -> p.2 <> dir_tail -> tailed (img', l1' ++ l2).
Proof.
  intros [l E] Hp. cbn in E. destruct l2 as [|q l2 _] using rev_ind.
  - apply app_inj_tail in E as [_ ->]. done.
  - change (l1 ++ p :: l2 ++ [q]) with (l1 ++ (p :: l2) ++ [q]) in E. rewrite app_assoc in E. apply app_inj_tail in E as [_ ->]. exists (l1' ++ l2). cbn. by rewrite app_assoc.
Qed.

(** *** The entry operations *)

Lemma located_block ds name i o h : located ds name i o h -> Forall block_ok ds ->
  exists img l1 l2, ds !! i = Some ((img, l1 ++ (o, h) :: l2) : dblock) /\ entry_name img (o, h) = name /\ block_ok (img, l1 ++ (o, h) :: l2) /\
    0 <= o < BLOCK_SIZE /\ c_wf header_codec h /\ 0 < de_name_len h /\ h <> dir_tail.
Proof.
  intros [(img & l1 & l2 & Hi & Hn) Hl] Hall. rewrite Forall_lookup in Hall. pose proof (Hall i _ Hi) as Hb. exists img, l1, l2. split_and!; try done.
  all: destruct Hb as [Hb Hs]; cbn [fst snd] in *; destruct (seg_at BLOCK_SIZE ltac:(done) img l1 o h l2 Hb Hs) as (_ & _ & _ & _ & Hw & Hr & Ho & Ho8 & _); unfold HEADER_LEN in *; try lia; try done.
  - destruct (rec_ok_spec _ _ _ Hw Hr) as (_ & _ & Hp & _). auto.
  - by intros ->.
Qed.

Lemma offset_split i o : 0 <= o < BLOCK_SIZE -> (Z.of_nat i * BLOCK_SIZE + o) / BLOCK_SIZE = Z.of_nat i.
Proof. intros Ho. rewrite Z.div_add_l by done. rewrite Z.div_small by done. lia. Qed.

(** Deleting the entry of a name. *)
Lemma delete_spec n fs s ds l ext runs name i o h : dir_ok n fs s ds l ext runs -> located ds name i o h ->
  exists b r n' s', delete_entry dev (info_of i o h) (n, (fs, s)) = (r, (n', (fs, s'))) /\ block_edit (fun _ => False) n fs s ds l ext runs i b r n' s' /\
    dir_names ds ≡ₚ (name, de_ino h, de_file_type h) :: dir_names (<[i := b]> ds).
Proof.
  intros Hd Hl. destruct (located_block ds name i o h Hl (dk_blocks _ _ _ _ _ _ _ _ Hd)) as (img & l1 & l2 & Hi & Hn & Hb & Ho & Hw & Hp & Hnt). pose proof (lo_live _ _ _ _ _ Hl) as Hlive.
  pose proof (dir_ok_view _ n fs s ds l ext runs Hd) as Hv. pose proof (lookup_lt_Some _ _ _ Hi) as Hlt. destruct (deleted_block img l1 o h l2 Hb Hlive) as [Hb1 Hn1].
  assert (Ht1 : is_some (in_seed n) = true -> tailed (deleted_img img l1 o h, deleted_recs l1 o h ++ l2)).
  { intros Es. pose proof (dk_tails _ _ _ _ _ _ _ _ Hd Es) as Ht. rewrite Forall_lookup in Ht. apply (tailed_after img _ l1 _ (o, h) l2); [by apply (Ht i)|done]. }
  exists (sealed (in_seed n) (deleted_img img l1 o h), deleted_recs l1 o h ++ l2).
  destruct (edit_spec (fun _ => False) (fun rp => block_delete_entry rp (full_block (Z.of_nat i)) o (de_rec_len h)) n fs s ds l ext runs i img _ _ _ (Z.of_nat i * BLOCK_SIZE + o) Hd ltac:(done) Hi (delete_page (Z.of_nat i) img l1 o h l2 Hb Hlive) Hb1 Ht1 (offset_split i o Ho)) as (r & n' & s' & E & Hed).
  exists r, n', s'. split_and!; [|done|].
  - unfold delete_entry, info_of. cbn [di_offset di_rec_len]. rewrite bind_eq, inner_eq, offset_split by done. rewrite (dir_view_index dev n s ds Hv) by done.
    by replace (Z.of_nat i * BLOCK_SIZE + o - Z.of_nat i * BLOCK_SIZE) with o by lia.
  - destruct (dir_names_split ds i _ Hi) as (x & y & -> & ->). unfold names_of. cbn [fst snd]. destruct (sealed_records (in_seed n) _ _ Hb1 Ht1) as [_ ->]. rewrite Hn1, live_app. cbn [live omap list_omap].
    unfold live at 2. cbn [omap list_omap]. unfold live_of at 1. cbn [fst snd]. rewrite (proj2 (Z.eqb_neq _ _)), Hn by done. fold (live img l2). solve_Permutation.
Qed.

(** Giving a name another inode. *)
Lemma on_cache_seq (a b : (Z -> result (list byte)) -> M PageCache unit) (st : InodeInner * (Ext4 * S)) :
  (on_cache dev a;; on_cache dev b) st = on_cache dev (fun rp => a rp;; b rp) st.
Proof.
  destruct st as [n [fs s]]. rewrite bind_eq. unfold on_cache. cbn [fst snd]. destruct (in_payload n) as [pc t np|b'|] eqn:Ep; cbn; try done. rewrite bind_eq.
  destruct (a (read_page dev np t s) pc) as [[[]|e] pc']; cbn; [|done]. by destruct (b (read_page dev np t s) pc').
Qed.

Lemma retarget_spec n fs s ds l ext runs name i o h ino t : dir_ok n fs s ds l ext runs -> located ds name i o h -> fits 32 ino -> ino <> 0 ->
  exists b r n' s' rest, set_entry_target dev (info_of i o h) ino t (n, (fs, s)) = (r, (n', (fs, s'))) /\ block_edit (fun _ => False) n fs s ds l ext runs i b r n' s' /\
    dir_names ds ≡ₚ (name, de_ino h, de_file_type h) :: rest /\ dir_names (<[i := b]> ds) ≡ₚ (name, ino, ft_code t) :: rest.
Proof.
  intros Hd Hl Hino Hino0. destruct (located_block ds name i o h Hl (dk_blocks _ _ _ _ _ _ _ _ Hd)) as (img & l1 & l2 & Hi & Hn & Hb & Ho & Hw & Hp & Hnt). pose proof (lo_live _ _ _ _ _ Hl) as Hlive.
  pose proof (dir_ok_view _ n fs s ds l ext runs Hd) as Hv. pose proof (lookup_lt_Some _ _ _ Hi) as Hlt.
  destruct (retarget BLOCK_SIZE ltac:(done) img l1 o h l2 ino (ft_code t) (proj1 Hb) (proj2 Hb) Hino (ft_code_fits t) ltac:(lia)) as (R1 & R2 & R3).
  pose proof (conj R1 R2 : block_ok (retargeted img o h ino (ft_code t), l1 ++ (o, with_type (with_ino h ino) (ft_code t)) :: l2)) as Hb1.
  assert (Ht1 : is_some (in_seed n) = true -> tailed (retargeted img o h ino (ft_code t), l1 ++ (o, with_type (with_ino h ino) (ft_code t)) :: l2)).
  { intros Es. pose proof (dk_tails _ _ _ _ _ _ _ _ Hd Es) as Ht. rewrite Forall_lookup in Ht. rewrite cons_middle, app_assoc. apply (tailed_after img _ l1 _ (o, h) l2); [by apply (Ht i)|done]. }
  destruct (edit_spec (fun _ => False) (fun rp => set_inode rp (full_block (Z.of_nat i)) o ino;; set_file_type rp (full_block (Z.of_nat i)) o t) n fs s ds l ext runs i img _ _ _ (Z.of_nat i * BLOCK_SIZE + o) Hd ltac:(done) Hi
    (retarget_page (Z.of_nat i) img l1 o h l2 ino t Hb Hino) Hb1 Ht1 (offset_split i o Ho)) as (r & n' & s' & E & Hed).
  destruct (dir_names_split ds i _ Hi) as (x & y & Hx & Hy). eexists _, r, n', s', (x ++ live img l1 ++ live img l2 ++ y). split_and!; [|exact Hed| |].
  - rewrite <- E. unfold set_entry_target, info_of. cbn [di_offset di_rec_len]. rewrite bind_eq, inner_eq, offset_split by done. rewrite (dir_view_index dev n s ds Hv) by done.
    replace (Z.of_nat i * BLOCK_SIZE + o - Z.of_nat i * BLOCK_SIZE) with o by lia. rewrite !bind_eq, <- on_cache_seq, bind_eq. by destruct (on_cache dev _ _) as [[[]|e] st].
  - rewrite Hx. unfold names_of. cbn [fst snd]. rewrite live_app. unfold live at 2. cbn [omap list_omap]. unfold live_of at 1. cbn [fst snd]. rewrite (proj2 (Z.eqb_neq _ _)), Hn by done. fold (live img l2). solve_Permutation.
  - rewrite Hy. unfold names_of. cbn [fst snd]. destruct (sealed_records (in_seed n) _ _ Hb1 Ht1) as [_ ->]. unfold retargeted. rewrite R3, (proj2 (Z.eqb_neq _ _)), Hn by done. solve_Permutation.
Qed.
End Edit.
