(* ===== verification/DirGrow.v ===== *)
(** * Directories that grow

    Adding an entry: into a slot of a block there is, or into a new block at
    the end of the directory, which is allocated, written as one free record
    and mapped before the entry is placed in it. *)

From S2P Require Import Prelude Pod Checksum JournalFormat Device Bitmap SuperBlock GroupDesc MetaStore BlockGroup Alloc AllocSpec ExtentNode ExtentMap.
From S2P Require Import ExtentTree ExtentWrite ExtentSpec ExtentManager InodeRecord PageCache DirEntry DirBlock DirHash Htree InodeInner Dir DirSpec DirEdit.

(** ** An empty block *)

Definition payload_len (seed : option InodeCsumSeed) : Z := BLOCK_SIZE - (if is_some seed then DIR_TAIL_LEN else 0).
Definition empty_img (seed : option InodeCsumSeed) : list byte :=
  let img := put_entry 0 (empty_header (payload_len seed)) [] (zeros PAGE_SIZE) in
  if is_some seed then put_entry (payload_len seed) dir_tail [] img else img.
Definition empty_recs (seed : option InodeCsumSeed) : list (Z * DirEntryHeader) :=
  (0, empty_header (payload_len seed)) :: if is_some seed then [(CSUM_COVER, dir_tail)] else [].

Lemma empty_block seed : block_ok (empty_img seed, empty_recs seed) /\ (is_some seed = true -> tailed (empty_img seed, empty_recs seed)) /\ live (empty_img seed) (empty_recs seed) = [].
Proof.
  split_and!.
  - destruct seed; (split; [by vm_compute|]); cbn [fst snd].
    + change (seg (empty_img (Some i)) 4096 0 4096 ([(0, empty_header 4084)] ++ [(4084, dir_tail)])). apply seg_app. exists 4084.
      split; [apply (seg_one _ 4096 0 (empty_header 4084))|apply (seg_one _ 4096 4084 dir_tail)]; by vm_compute.
    + apply (seg_one _ 4096 0 (empty_header 4096)); by vm_compute.
  - intros Hs. exists [(0, empty_header (payload_len seed))]. by destruct seed.
  - by destruct seed.
Qed.

Lemma write_empty_page rp pc i seed : pc_ok pc -> 0 <= i -> i * PAGE_SIZE + PAGE_SIZE <= pc_size pc ->
  write_empty_block rp (i * BLOCK_SIZE) (payload_len seed) (is_some seed) pc = (Ok tt, set_page pc i (empty_img seed)).
Proof.
  intros Hok Hi Hr. unfold write_empty_block. change BLOCK_SIZE with PAGE_SIZE. rewrite bind_eq, (fill_page rp pc i Hok Hi Hr).
  assert (Hsp : forall img, is_block img -> pc_ok (set_page pc i img) /\ page_is rp (set_page pc i img) i img).
  { intros img Hb. split; [apply set_page_ok; try done; split; [done|]|by apply set_page_is]. apply Z.lt_le_trans with ((i + 1) * PAGE_SIZE / PAGE_SIZE); [rewrite Z.div_mul by done; lia|]. apply Z.div_le_mono; unfold PAGE_SIZE in *; lia. }
  destruct (Hsp (zeros PAGE_SIZE) eq_refl) as [H1 H2]. unfold create_view. rewrite bind_eq.
  pose proof (fun h => write_entry_page rp (set_page pc i (zeros PAGE_SIZE)) i (zeros PAGE_SIZE) 0 (PAGE_SIZE `min` (PAGE_SIZE - (i * PAGE_SIZE) `mod` PAGE_SIZE)) 0 h [] H1 H2 Hi ltac:(done) ltac:(done) ltac:(done)) as E. rewrite Z.add_0_r in E.
  rewrite E by (by destruct seed). clear E. rewrite set_page_twice. unfold empty_img. destruct seed as [sd|]; cbn [is_some]; [|done].
  set (img1 := put_entry _ _ _ _). destruct (Hsp img1 ltac:(by vm_compute)) as [H3 H4].
  pose proof (fun h => write_entry_page rp (set_page pc i img1) i img1 0 (PAGE_SIZE `min` (PAGE_SIZE - (i * PAGE_SIZE) `mod` PAGE_SIZE)) (payload_len (Some sd)) h [] H3 H4 Hi ltac:(done) ltac:(done) ltac:(done)) as E. rewrite Z.add_0_r in E.
  rewrite E by done. by rewrite set_page_twice.
Qed.

(** The capacity of a cache, changed to one page more. *)
Lemma capacity_ok pc k : pc_ok pc -> 0 <= k -> k * PAGE_SIZE <= pc_size pc ->
  let pc' := set_capacity (k * PAGE_SIZE + PAGE_SIZE) pc in
  pc_ok pc' /\ pc_size pc' = k * PAGE_SIZE + PAGE_SIZE /\ forall j, j < k -> pc_pages pc' !! j = pc_pages pc !! j.
Proof.
  intros [P1 P2 P3] Hk Hs. unfold set_capacity. cbn [pc_size pc_pages]. replace (k * PAGE_SIZE + PAGE_SIZE) with ((k + 1) * PAGE_SIZE) by lia.
  split_and!; [split; cbn; [unfold PAGE_SIZE; lia|by rewrite Z.mod_mul|]|done|].
  - rewrite Z.div_mul by done. destruct (Z.ltb_spec ((k + 1) * PAGE_SIZE) (pc_size pc)) as [Hlt|Hge].
    + intros j p [Hj Hf]%map_lookup_filter_Some. destruct (P3 j p Hj) as [? ?]. cbn in Hf. unfold PAGE_SIZE in Hf. split; [lia|done].
    + intros j p Hj. destruct (P3 j p Hj) as [[? Hj2] ?]. split; [|done]. split; [done|]. apply Z.lt_le_trans with (pc_size pc / PAGE_SIZE); [done|].
      rewrite <- (Z.div_mul (k + 1) PAGE_SIZE) by done. by apply Z.div_le_mono.
  - intros j Hj. destruct (Z.ltb_spec ((k + 1) * PAGE_SIZE) (pc_size pc)); [|done]. apply option_eq. intros p. rewrite map_lookup_filter_Some. cbn.
    split; [by intros []|]. intros Hp. split; [done|]. unfold PAGE_SIZE. lia.
Qed.

Section Grow.
Context {S : Type} `{MetaStoreOk S}.
Context (dev : device).
Implicit Types s : S.

(** ** Into a slot *)

Lemma add_at_spec skip n fs s ds l ext runs name i img l1 o h l2 ino t :
  dir_ok_but dev skip n fs s ds l ext runs -> (forall j, skip j -> j = i) -> ds !! i = Some ((img, l1 ++ (o, h) :: l2) : dblock) -> slot_fits (min_rec_len (zlen name)) h -> entry_args name ino ->
  exists b r n' s', add_entry dev (slot_of (Z.of_nat i * BLOCK_SIZE) o h) name ino t (n, (fs, s)) = (r, (n', (fs, s'))) /\
    block_edit dev (fun _ => False) n fs s ds l ext runs i b r n' s' /\ dir_names (<[i := b]> ds) ≡ₚ (name, ino, ft_code t) :: dir_names ds /\
    b.1 = sealed (in_seed n) (placed_img img o h name ino (ft_code t)).
Proof.
  intros Hd Hskip Hi Hf Ha. pose proof (dk_blocks _ _ _ _ _ _ _ _ _ Hd) as Hb. rewrite Forall_lookup in Hb. specialize (Hb i _ Hi).
  destruct (placed_block img l1 o h l2 name ino t Hb Hf Ha) as [Hb1 Hn1]. pose proof (lookup_lt_Some _ _ _ Hi) as Hlt.
  set (img1 := placed_img img o h name ino (ft_code t)) in *. set (recs1 := l1 ++ placed_recs o h name ino (ft_code t) ++ l2) in *.
  assert (Ht1 : is_some (in_seed n) = true -> tailed (img1, recs1)).
  { intros Es. pose proof (dk_tails _ _ _ _ _ _ _ _ _ Hd Es) as Ht. rewrite Forall_lookup in Ht. unfold recs1. rewrite app_assoc. apply (tailed_after img _ l1 _ (o, h) l2); [by apply (Ht i)|]. destruct Hf as [Hf _]. cbn [snd]. by intros ->. }
  destruct (seg_at BLOCK_SIZE ltac:(done) img l1 o h l2 (proj1 Hb) (proj2 Hb)) as (_ & _ & _ & _ & _ & _ & Ho & Ho8 & _).
  destruct (edit_spec dev skip (fun rp => place_entry rp (slot_of (Z.of_nat i * BLOCK_SIZE) o h) name ino t) n fs s ds l ext runs i img _ img1 recs1 (Z.of_nat i * BLOCK_SIZE + o) Hd Hskip Hi
    (place_page (Z.of_nat i) img l1 o h l2 name ino t Hb Hf Ha) Hb1 Ht1 (offset_split i o ltac:(unfold HEADER_LEN in *; lia))) as (r & n' & s' & E & Hed).
  exists (sealed (in_seed n) img1, recs1), r, n', s'. split_and!; [|done| |done].
  - unfold add_entry. rewrite bind_eq. destruct Ha as [Ha _]. rewrite (proj2 (Z.ltb_ge _ _)) by lia. cbn [negb guard]. rewrite mret_eq. exact E.
  - destruct (dir_names_split ds i _ Hi) as (x & y & -> & ->). unfold names_of. cbn [fst snd]. destruct (sealed_records (in_seed n) _ _ Hb1 Ht1) as [_ ->]. rewrite Hn1, !live_app. change ((o, h) :: l2) with ([(o, h)] ++ l2). rewrite live_app.
    solve_Permutation.
Qed.

Lemma add_spec skip n fs s ds l ext runs name i img l1 o h l2 ino t :
  dir_ok_but dev skip n fs s ds l ext runs -> (forall j, skip j -> j = i) -> ds !! i = Some ((img, l1 ++ (o, h) :: l2) : dblock) -> slot_fits (min_rec_len (zlen name)) h -> entry_args name ino ->
  exists b r n' s', add_entry dev (slot_of (Z.of_nat i * BLOCK_SIZE) o h) name ino t (n, (fs, s)) = (r, (n', (fs, s'))) /\
    block_edit dev (fun _ => False) n fs s ds l ext runs i b r n' s' /\ dir_names (<[i := b]> ds) ≡ₚ (name, ino, ft_code t) :: dir_names ds.
Proof. intros Hd Hskip Hi Hf Ha. destruct (add_at_spec skip n fs s ds l ext runs name i img l1 o h l2 ino t Hd Hskip Hi Hf Ha) as (b & r & n' & s' & E & Hed & Hnm & _). by exists b, r, n', s'. Qed.

(** ** Into a new block *)

Lemma prepare_grow n fs s pc t np k : in_payload n = DataBacked pc t np -> 0 <= k < 2 ^ 32 - 1 -> file_size n = k * BLOCK_SIZE ->
  prepare_write dev (k * BLOCK_SIZE) (k * BLOCK_SIZE + BLOCK_SIZE) (n, (fs, s)) =
  match ensure_size_within_limit n (k * BLOCK_SIZE + BLOCK_SIZE) with
  | Err e => (Err e, (n, (fs, s)))
  | Ok _ => let '(r, (t', fs')) := ensure_allocated (in_seed n) k (k + 1) (t, (fs, s)) in
            (r, (set_payload n (DataBacked (set_capacity (k * BLOCK_SIZE + BLOCK_SIZE) pc) t' (k + 1)), fs'))
  end.
Proof.
  intros Hp Hk Hs. unfold prepare_write. change BLOCK_SIZE with PAGE_SIZE in *. rewrite bind_eq, inner_eq, Hs. rewrite Z.div_mul by done.
  assert (E : k * PAGE_SIZE + PAGE_SIZE = (k + 1) * PAGE_SIZE) by lia. rewrite !E, !div_ceil_mult.
  rewrite (proj2 (Z.ltb_lt k _)), (proj2 (Z.ltb_lt (k + 1) _)), (proj2 (Z.ltb_lt (k * _) _)) by (unfold PAGE_SIZE; lia). cbn [guard]. rewrite !bind_eq, !mret_eq, bind_eq, mret_eq.
  rewrite bind_eq, bind_eq, lift_eq. destruct (ensure_size_within_limit n ((k + 1) * PAGE_SIZE)) as [[]|e]; [|done].
  unfold resize_page_cache. rewrite bind_eq, Z.min_r by (unfold PAGE_SIZE; lia). rewrite Z.mod_mul by done. rewrite Z.eqb_refl, (read_cache_eq dev _ n fs s pc t np Hp).
  unfold align_up. rewrite bind_eq, !div_ceil_mult.
  rewrite (on_cache_eq dev _ n fs s pc t np (Ok tt) (set_capacity ((k + 1) * PAGE_SIZE) pc) Hp).
  2: { unfold pc_resize, align_up. rewrite (proj2 (Z.ltb_ge _ _)) by (unfold PAGE_SIZE; lia). cbn [andb]. rewrite Z.mod_mul, Z.eqb_refl, andb_false_r, div_ceil_mult by done. done. }
  unfold set_npages, update_inner, on_extents. cbn [fst snd in_payload set_payload]. by destruct (ensure_allocated _ _ _ _) as [r [t' fs']].
Qed.
(** The new block in the tree. *)
Lemma tree_grow seed t fs s l ext runs k t1 fs1 s1 t2 fs2 s2 : tree_ok t fs s l ext runs -> 0 <= k -> k + 1 < 2 ^ 32 ->
  ensure_allocated seed k (k + 1) (t, (fs, s)) = (Ok tt, (t1, (fs1, s1))) -> mark_range_written seed k (k + 1) (t1, (fs1, s1)) = (Ok tt, (t2, (fs2, s2))) ->
  exists l2 ext2 p, tree_ok t2 fs2 s2 l2 ext2 runs /\ ext_map l2 k = Some (p, Written) /\ (forall j, j <> k -> ext_map l2 j = ext_map l j) /\
    forall c, (1 <= held (runs_of l ++ runs) c)%nat -> ms_read s2 c = ms_read s c.
Proof.
  intros Ht Hk Hk1. unfold ensure_allocated. rewrite bind_eq. destruct (fill_holes seed k (k + 1) WholeRange (t, (fs, s))) as [[fill|e] st1] eqn:E; [|done]. rewrite mret_eq. intros [= ->].
  destruct (fill_holes_spec seed t fs s l ext runs k (k + 1) WholeRange fill t1 fs1 s1 Ht ltac:(lia) Hk1 E) as (reach & R1 & (l1 & ext1 & Ht1 & Hg & Hrd) & R3 & R4).
  rewrite (R4 eq_refl) in R3. cbn in R3. subst reach. unfold mark_range_written. rewrite (proj2 (Z.leb_gt _ _)) by lia. intros Ec.
  destruct (convert_spec seed t1 fs1 s1 l1 ext1 runs k (k + 1 - k) t2 fs2 s2 Ht1 Hk ltac:(lia) Ec) as (l2 & ext2 & Ht2 & Hfr & Hm & _). exists l2, ext2.
  replace (k + (k + 1 - k)) with (k + 1) in Hm by lia.
  assert (exists p, ext_map l2 k = Some (p, Written)) as [p Hp].
  { rewrite Hm. unfold converted. rewrite (proj2 (Z.leb_le k k)), (proj2 (Z.ltb_lt k _)) by lia. cbn [andb]. specialize (Hg k). destruct (ext_map l k) as [[p []]|].
    - rewrite Hg. by exists p.
    - rewrite Hg. by exists p.
    - destruct (proj1 Hg ltac:(lia)) as [p ->]. by exists p. }
  exists p. split_and!; try done.
  - intros j Hj. rewrite Hm. unfold converted. replace ((k <=? j) && (j <? k + 1)) with false by lia. specialize (Hg j). destruct (ext_map l j) as [[q []]|].
    + by rewrite Hg. + by rewrite Hg. + by rewrite (proj2 Hg) by lia.
  - intros c Hc. rewrite <- (Hrd c Hc). pose proof (grown_held _ _ _ _ _ _ _ _ _ _ _ _ c Ht Ht1 Hg Hc) as Hc1. destruct Ht1 as [_ _ T3 _].
    destruct (holds_block _ _ _ c T3 ltac:(rewrite held_app; lia)) as (Hf & Hs & _). apply (fm_read _ _ _ _ _ Hfr); [done|]. intros [Hx|?]; [|done].
    destruct (holds_nodup _ _ _ _ T3) as [_ Hd]. specialize (Hd c Hx). lia.
Qed.

(** A block added at the end, not journaled yet. *)
Lemma grow_spec n fs s ds l ext runs slot n' fs' s' : dir_ok dev n fs s ds l ext runs -> grow_dir_block dev (n, (fs, s)) = (Ok slot, (n', (fs', s'))) ->
  slot = slot_of (zlen ds * BLOCK_SIZE) 0 (empty_header (payload_len (in_seed n))) /\ in_seed n' = in_seed n /\ in_desc n' = set_size (in_desc n) ((zlen ds + 1) * BLOCK_SIZE) /\
  exists l' ext', dir_ok_but dev (fun j => j = length ds) n' fs' s' (ds ++ [(empty_img (in_seed n), empty_recs (in_seed n))]) l' ext' runs /\
    forall c, (1 <= held (runs_of l ++ runs) c)%nat -> ms_read s' c = ms_read s c.
Proof.
  intros Hd. destruct Hd as [D1 D2 D3 D4 D5 (pc & t & np & Hp & Hok & Ht & Hc & Hn & Hpg)]. set (k := zlen ds) in *. assert (Hk : 0 <= k < 2 ^ 20) by (unfold k, zlen, BLOCK_SIZE in *; lia).
  unfold grow_dir_block. rewrite bind_eq, inner_eq. assert (is_dir n = true) as -> by (unfold is_dir; by rewrite D1). cbn [guard]. rewrite bind_eq, mret_eq.
  cbv beta iota zeta. rewrite bind_eq, D2, (prepare_grow n fs s pc t np k Hp ltac:(lia) D2). destruct (ensure_size_within_limit n (k * BLOCK_SIZE + BLOCK_SIZE)) as [[]|e] eqn:El; [|done].
  unfold ensure_size_within_limit in El. rewrite D1 in El. destruct (Z.ltb_spec (2 ^ 32 - 1) (k * BLOCK_SIZE + BLOCK_SIZE)) as [|Hmax]; [done|]. clear El.
  destruct (ensure_allocated (in_seed n) k (k + 1) (t, (fs, s))) as [[[]|e] [t1 [fs1 s1]]] eqn:E1; [|done].
  destruct (capacity_ok pc k Hok ltac:(lia) Hc) as (Q1 & Q2 & Q3). change BLOCK_SIZE with PAGE_SIZE in *. set (pc1 := set_capacity (k * PAGE_SIZE + PAGE_SIZE) pc) in *.
  set (n1 := set_payload n (DataBacked pc1 t1 (k + 1))). change (dir_payload_len n) with (payload_len (in_seed n)).
  rewrite bind_eq. unfold or_rollback_write at 1. rewrite (on_cache_eq dev _ n1 fs1 s1 pc1 t1 (k + 1) (Ok tt) (set_page pc1 k (empty_img (in_seed n))) eq_refl) by (apply write_empty_page; done || lia).
  rewrite bind_eq. unfold or_rollback_write at 1, on_extents at 1. cbn [fst snd in_payload set_payload]. rewrite Z.div_mul by done. rewrite (wrap_small 32 k : _ -> u32 k = k) by (unfold fits; lia).
  destruct (mark_range_written (in_seed n) k (k + 1) (t1, (fs1, s1))) as [[[]|e] [t2 [fs2 s2]]] eqn:E2.
  2: { destruct (handled e); [|done]. rewrite bind_eq. by destruct (rollback_write _ _ _ _) as [[]]. }
  rewrite bind_eq. unfold set_file_size, update_desc, update_inner. cbn [fst snd]. rewrite mret_eq. intros [= <- <- <- <-].
  destruct (tree_grow (in_seed n) t fs s l ext runs k t1 fs1 s1 t2 fs2 s2 Ht ltac:(lia) ltac:(lia) E1 E2) as (l2 & ext2 & p & T1 & T2 & T3 & T4).
  split; [unfold slot_of; rewrite Z.add_0_r; by destruct (in_seed n)|]. split; [done|]. split; [cbn; by rewrite Z.mul_add_distr_r, Z.mul_1_l|]. exists l2, ext2. split; [|done]. destruct (empty_block (in_seed n)) as (B1 & B2 & _).
  assert (Hlen : zlen (ds ++ [(empty_img (in_seed n), empty_recs (in_seed n))]) = k + 1) by (unfold k, zlen; rewrite length_app; cbn; lia).
  split; rewrite ?Hlen; try done.
  - unfold file_size. cbn. change BLOCK_SIZE with PAGE_SIZE. lia.
  - change BLOCK_SIZE with PAGE_SIZE. lia.
  - apply Forall_app. split; [done|by constructor].
  - intros Es. apply Forall_app. split; [by apply D5|constructor; [by apply B2|done]].
  - exists (set_page pc1 k (empty_img (in_seed n))), t2, (k + 1). split_and!; try done; [|change BLOCK_SIZE with PAGE_SIZE; change (pc_size (set_page pc1 k _)) with (pc_size pc1); lia|].
    + apply set_page_ok; [done| |by apply B1]. rewrite Q2. replace (k * PAGE_SIZE + PAGE_SIZE) with ((k + 1) * PAGE_SIZE) by lia. rewrite Z.div_mul by done. lia.
    + intros j b Hj. destruct (decide (j = length ds)) as [->|Hne].
      * rewrite lookup_app_r, Nat.sub_diag in Hj by lia. injection Hj as <-. change (Z.of_nat (length ds)) with k. exists p. split_and!; [done|done|]. left. cbn. by rewrite lookup_insert_eq.
      * assert (Hlt : (j < length ds)%nat) by (apply lookup_lt_Some in Hj; rewrite length_app in Hj; cbn in Hj; lia). rewrite lookup_app_l in Hj by done.
        destruct (Hpg j b Hj) as (q & Hq & Hr & Hh). exists q. rewrite T3 by (unfold k, zlen; lia). split_and!; [done| |].
        -- intros _. rewrite T4; [by apply Hr; intros []|]. rewrite held_app, held_runs. destruct Ht as [_ X2 _ _]. assert (1 <= owners l q)%nat by (apply owners_map; [by apply exts_ok_once|eauto]). lia.
        -- unfold holds_page in *. cbn. rewrite lookup_insert_ne by (unfold k, zlen; lia). by rewrite Q3 by (unfold k, zlen; lia).
Qed.
(** ** [add_new_entry] without an index *)

(** A new block has room for any name. *)
Lemma empty_fits seed (name : list byte) : 0 < zlen name <= NAME_MAX -> slot_fits (min_rec_len (zlen name)) (empty_header (payload_len seed)).
Proof.
  intros Hn. destruct (min_rec_len_bounds (zlen name)) as [Hm _]; [unfold NAME_MAX in Hn; lia|]. unfold NAME_MAX, HEADER_LEN in *. split; [by destruct seed|]. left. split; [by destruct seed|].
  enough (4084 <= de_rec_len (empty_header (payload_len seed))) by lia. by destruct seed.
Qed.

Lemma edit_frame skip skip' n fs s ds l ext runs i b r n' s' : dir_ok_but dev skip n fs s ds l ext runs -> block_edit dev skip' n fs s ds l ext runs i b r n' s' ->
  forall c, (1 <= held runs c)%nat -> ms_read s' c = ms_read s c.
Proof.
  intros [_ _ _ _ _ (pc & t & np & _ & _ & Ht & _)] [_ _ (p & Hm & Hr) _ _] c Hc. apply Hr. intros ->.
  destruct (mapped_apart t fs s l ext runs (Z.of_nat i) p Written Ht Hm) as (_ & _ & Hz & _). lia.
Qed.

Lemma add_new_spec tid n fs s ds l ext runs name ino t : dir_ok dev n fs s ds l ext runs -> has_index n && has_dir_index (super_block fs) = false -> entry_args name ino ->
  exists r n' fs' s', add_new_entry dev tid name ino t (n, (fs, s)) = (r, (n', (fs', s'))) /\
  match r with
  | Ok _ => exists ds' l' ext', dir_ok dev n' fs' s' ds' l' ext' runs /\ dir_names ds' ≡ₚ (name, ino, ft_code t) :: dir_names ds /\
      (forall c, (1 <= held runs c)%nat -> ms_read s' c = ms_read s c) /\ has_index n' = has_index n
  | Err e => (exists slot, find_dir_slot dev n s (zlen name) = Ok (Some slot)) -> handled e = true
  end.
Proof.
  intros Hd Hx Ha. unfold add_new_entry. rewrite bind_eq, inner_eq, bind_eq, on_store_eq, ext4_eq. cbn [fst snd]. rewrite Hx. rewrite bind_eq, mret_eq. cbn [fst snd].
  unfold slot_or_grow. rewrite !bind_eq. unfold find_slot. cbn [fst snd].
  destruct (find_slot_spec dev n s ds (dir_ok_view dev _ n fs s ds l ext runs Hd) (zlen name)) as ([slot|] & -> & Hs).
  - destruct Hs as (i & img & l1 & o & h & l2 & Hi & Hf & ->). rewrite mret_eq. destruct (add_spec (fun _ => False) n fs s ds l ext runs name i img l1 o h l2 ino t Hd ltac:(done) Hi Hf Ha) as (b & r & n' & s' & E & Hed & Hnm).
    exists r, n', fs, s'. split; [done|]. pose proof (be_result _ _ _ _ _ _ _ _ _ _ _ _ _ _ Hed) as Hr. destruct r as [[]|e]; [|done]. exists (<[i := b]> ds), l, ext. split_and!; try done; [by eapply edit_frame|].
    unfold has_index. by destruct (pages_only_kept _ _ (be_inode _ _ _ _ _ _ _ _ _ _ _ _ _ _ Hed)) as [-> _].
  - unfold fstate. destruct (grow_dir_block dev (n, (fs, s))) as [[slot|e] [n1 [fs1 s1]]] eqn:E; [|exists (Err e), n1, fs1, s1; split; [done|intros [slot Hslot]; done]].
    destruct (grow_spec n fs s ds l ext runs slot n1 fs1 s1 Hd E) as (-> & Es & Ed & l1 & ext1 & Hd1 & Hrd1).
    destruct (add_spec _ n1 fs1 s1 _ l1 ext1 runs name (length ds) _ [] 0 (empty_header (payload_len (in_seed n))) (if is_some (in_seed n) then [(CSUM_COVER, dir_tail)] else []) ino t Hd1 ltac:(done) ltac:(by rewrite lookup_app_r, Nat.sub_diag by lia) (empty_fits _ _ (proj1 Ha)) Ha)
      as (b & r & n' & s' & E2 & Hed & Hnm). exists r, n', fs1, s'. split; [exact E2|]. pose proof (be_result _ _ _ _ _ _ _ _ _ _ _ _ _ _ Hed) as Hr. destruct r as [[]|e]; [|by intros [? ?]].
    eexists _, l1, ext1. split_and!; [exact Hr| | |].
    + rewrite Hnm. unfold dir_names at 1. rewrite map_app, concat_app. cbn [map concat]. unfold names_of at 2. cbn [fst snd]. destruct (empty_block (in_seed n)) as (_ & _ & ->). by rewrite !app_nil_r.
    + intros c Hc. rewrite <- Hrd1 by (rewrite held_app; lia). by eapply edit_frame.
    + unfold has_index. destruct (pages_only_kept _ _ (be_inode _ _ _ _ _ _ _ _ _ _ _ _ _ _ Hed)) as [-> _]. by rewrite Ed.
Qed.
End Grow.
