(* ===== verification/DirDots.v ===== *)
(** * The first block of a directory

    The block with [.] and [..], written when a directory is made and when an
    indexed directory becomes a linear one. *)

From S2P Require Import Prelude Pod Checksum JournalFormat Device Bitmap SuperBlock GroupDesc MetaStore BlockGroup Alloc AllocSpec ExtentNode ExtentMap.
From S2P Require Import ExtentTree ExtentWrite ExtentSpec ExtentManager InodeRecord PageCache DirEntry DirBlock DirHash Htree InodeInner Dir DirSpec DirEdit DirGrow.

Definition DOT_LEN : Z := 12.
Definition dot_header (ino : Z) : DirEntryHeader := Header ino DOT_LEN 1 (ft_code FtDir).
Definition dotdot_header (seed : option InodeCsumSeed) (parent : Z) : DirEntryHeader := Header parent (payload_len seed - DOT_LEN) 2 (ft_code FtDir).
Definition dot_recs (seed : option InodeCsumSeed) (ino parent : Z) : list (Z * DirEntryHeader) :=
  (0, dot_header ino) :: (DOT_LEN, dotdot_header seed parent) :: if is_some seed then [(CSUM_COVER, dir_tail)] else [].
Definition dot_names (ino parent : Z) : list (list byte * Z * Z) := [(DOT_BYTE, ino, ft_code FtDir); (DOT_DOT_BYTE, parent, ft_code FtDir)].
Definition two_dots (seed : option InodeCsumSeed) (ino parent : Z) (img : list byte) : list byte :=
  put_entry DOT_LEN (dotdot_header seed parent) DOT_DOT_BYTE (put_entry 0 (dot_header ino) DOT_BYTE img).

Section Dots.
Context (seed : option InodeCsumSeed) (ino parent : Z) (Hino : fits 32 ino) (Hino0 : ino <> 0) (Hpar : fits 32 parent) (Hpar0 : parent <> 0).

Lemma dot_wf : c_wf header_codec (dot_header ino) /\ c_wf header_codec (dotdot_header seed parent).
Proof. split; apply fields_wf; try done. by destruct seed. Qed.

(** What the two writes leave of an image. *)
Lemma two_dots_spec img : is_block img -> let img' := two_dots seed ino parent img in
  is_block img' /\ header_at img' 0 = dot_header ino /\ slice 8 1 img' = DOT_BYTE /\ header_at img' DOT_LEN = dotdot_header seed parent /\ slice 20 2 img' = DOT_DOT_BYTE /\
  forall o n, 22 <= o -> slice o n img' = slice o n img.
Proof.
  intros Hb img'. destruct dot_wf as [W1 W2]. unfold is_block, BLOCK_SIZE in *. change (zlen DOT_BYTE) with 1 in *.
  set (img1 := put_entry 0 (dot_header ino) DOT_BYTE img). assert (Hb1 : zlen img1 = 4096) by (unfold img1; rewrite put_entry_len; change (zlen DOT_BYTE) with 1; unfold HEADER_LEN; done || lia).
  assert (Hsl : forall o n, 0 <= o -> o + n <= DOT_LEN \/ 22 <= o -> slice o n img' = slice o n img1).
  { intros o n Ho Hn. apply put_entry_slice; change (zlen DOT_DOT_BYTE) with 2; unfold HEADER_LEN, DOT_LEN in *; done || lia. }
  split_and!.
  - unfold img', two_dots. fold img1. rewrite put_entry_len; change (zlen DOT_DOT_BYTE) with 2; unfold HEADER_LEN, DOT_LEN in *; done || lia.
  - unfold header_at, read_at. rewrite dir_header_size, Hsl by (unfold HEADER_LEN, DOT_LEN; lia). pose proof (put_entry_at 0 (dot_header ino) DOT_BYTE img) as E. unfold header_at, read_at in E. rewrite dir_header_size in E.
    apply E; change (zlen DOT_BYTE) with 1; unfold HEADER_LEN; done || lia.
  - rewrite Hsl by (unfold DOT_LEN; lia). apply (put_entry_name 0 (dot_header ino) DOT_BYTE); change (zlen DOT_BYTE) with 1; unfold HEADER_LEN; done || lia.
  - apply put_entry_at; fold img1; change (zlen DOT_DOT_BYTE) with 2; unfold HEADER_LEN, DOT_LEN; done || lia.
  - apply (put_entry_name DOT_LEN (dotdot_header seed parent) DOT_DOT_BYTE); fold img1; change (zlen DOT_DOT_BYTE) with 2; unfold HEADER_LEN, DOT_LEN; done || lia.
  - intros o n Ho. rewrite Hsl by lia. apply put_entry_slice; change (zlen DOT_BYTE) with 1; unfold HEADER_LEN; done || lia.
Qed.

(** A block of that shape. *)
Lemma dot_block_spec img : is_block img -> header_at img 0 = dot_header ino -> slice 8 1 img = DOT_BYTE -> header_at img DOT_LEN = dotdot_header seed parent ->
  slice 20 2 img = DOT_DOT_BYTE -> (is_some seed = true -> header_at img CSUM_COVER = dir_tail) ->
  block_ok (img, dot_recs seed ino parent) /\ (is_some seed = true -> tailed (img, dot_recs seed ino parent)) /\ live img (dot_recs seed ino parent) = dot_names ino parent.
Proof.
  intros Hb H1 N1 H2 N2 H3. destruct dot_wf as [W1 W2]. split_and!.
  - split; [done|]. cbn [fst snd]. unfold dot_recs. change (seg img BLOCK_SIZE 0 BLOCK_SIZE ([(0, dot_header ino)] ++ [(DOT_LEN, dotdot_header seed parent)] ++ (if is_some seed then [(CSUM_COVER, dir_tail)] else []))).
    apply seg_app. exists (0 + de_rec_len (dot_header ino)). split; [apply seg_one; [done|]; by apply rec_ok_intro|]. change (0 + de_rec_len (dot_header ino)) with DOT_LEN.
    apply seg_app. exists (DOT_LEN + de_rec_len (dotdot_header seed parent)). split; [apply seg_one; [done|]; apply rec_ok_intro; try done; by destruct seed|].
    destruct seed; cbn [is_some] in *; [|apply seg_nil]. apply (seg_one img BLOCK_SIZE CSUM_COVER dir_tail); [by apply H3|by vm_compute].
  - intros Hs. exists [(0, dot_header ino); (DOT_LEN, dotdot_header seed parent)]. by destruct seed.
  - unfold live, dot_recs. cbn [omap list_omap]. unfold live_of at 1 2, entry_name. cbn [fst snd dot_header dotdot_header de_ino de_name_len de_file_type].
    rewrite (proj2 (Z.eqb_neq _ _)), (proj2 (Z.eqb_neq parent 0)) by done. change (0 + HEADER_LEN) with 8. change (DOT_LEN + HEADER_LEN) with 20. rewrite N1, N2. by destruct seed.
Qed.

Lemma write_dots_page rp pc i img lim : pc_ok pc -> page_is rp pc i img -> 0 <= i ->
  (write_entry rp {| v_offset := i * PAGE_SIZE; v_limit := lim |} 0 (dot_header ino) DOT_BYTE;;
   write_entry rp {| v_offset := i * PAGE_SIZE; v_limit := lim |} DOT_LEN (dotdot_header seed parent) DOT_DOT_BYTE) pc = (Ok tt, set_page pc i (two_dots seed ino parent img)).
Proof.
  intros Hok Hpage Hi. destruct dot_wf as [W1 W2]. rewrite bind_eq.
  pose proof (write_entry_page rp pc i img 0 lim 0 (dot_header ino) DOT_BYTE Hok Hpage Hi ltac:(done) ltac:(done) ltac:(done) W1 ltac:(done)) as E. rewrite Z.add_0_r in E. rewrite E. clear E. change (0 + 0) with 0.
  destruct Hpage as [Hc Hb]. assert (Hb1 : is_block (put_entry 0 (dot_header ino) DOT_BYTE img)) by (unfold is_block in *; rewrite put_entry_len; rewrite ?Hb; done).
  destruct (set_page_page rp pc i img Hok (conj Hc Hb) Hi _ Hb1) as [P1 P2].
  pose proof (write_entry_page rp _ i _ 0 lim DOT_LEN (dotdot_header seed parent) DOT_DOT_BYTE P1 P2 Hi ltac:(done) ltac:(done) ltac:(done) W2 ltac:(done)) as E. rewrite Z.add_0_r in E. rewrite E. by rewrite set_page_twice.
Qed.
End Dots.

Lemma empty_tail seed : is_some seed = true -> header_at (empty_img seed) CSUM_COVER = dir_tail.
Proof. destruct seed; [intros _; by vm_compute|done]. Qed.

Section Make.
Context {S : Type} `{MetaStoreOk S}.
Context (dev : device).
Implicit Types s : S.

(** A directory that is made has [.] and [..]. *)
Lemma make_empty_spec n fs s l ext runs ino parent r n' fs' s' : dir_ok dev n fs s [] l ext runs -> fits 32 ino -> ino <> 0 -> fits 32 parent -> parent <> 0 ->
  make_empty dev ino parent (n, (fs, s)) = (r, (n', (fs', s'))) -> r = Ok tt ->
  exists b l' ext', dir_ok dev n' fs' s' [b] l' ext' runs /\ dir_names [b] = dot_names ino parent /\ in_desc n' = set_size (in_desc n) BLOCK_SIZE /\
    forall c, (1 <= held runs c)%nat -> ms_read s' c = ms_read s c.
Proof.
  intros Hd Hi Hi0 Hp Hp0. unfold make_empty. rewrite bind_eq. unfold fstate. destruct (grow_dir_block dev (n, (fs, s))) as [[slot|e] [n1 [fs1 s1]]] eqn:E; [|intros [= <-]; done].
  destruct (grow_spec dev n fs s [] l ext runs slot n1 fs1 s1 Hd E) as (-> & Es & Ed & l1 & ext1 & Hd1 & Hrd1). cbn [length app] in *. change (zlen []) with 0 in *.
  rewrite <- Es in Hd1 |- *.
  destruct (empty_block (in_seed n1)) as (B1 & B2 & _). set (img := empty_img (in_seed n1)) in *.
  destruct (two_dots_spec (in_seed n1) ino parent Hi Hp img (proj1 B1)) as (X1 & X2 & X3 & X4 & X5 & X6).
  destruct (dot_block_spec (in_seed n1) ino parent Hi Hi0 Hp Hp0 _ X1 X2 X3 X4 X5) as (Y1 & Y2 & Y3).
  { intros Hs. unfold header_at, read_at. rewrite X6 by done. unfold img. by apply empty_tail. }
  destruct (edit_spec dev (fun j => j = 0%nat) (fun rp => write_entry rp (full_block 0) 0 (dot_header ino) DOT_BYTE;; write_entry rp (full_block 0) DOT_LEN (dotdot_header (in_seed n1) parent) DOT_DOT_BYTE)
    n1 fs1 s1 _ l1 ext1 runs 0%nat img _ _ _ 0 Hd1 ltac:(done) ltac:(done) ltac:(intros rp pc Hok Hpg Hz; by apply write_dots_page) Y1 Y2 ltac:(done)) as (r1 & n2 & s2 & E2 & Hed).
  rewrite bind_eq, inner_eq. assert (view_from_index 0 (file_size n1) = full_block 0) as -> by (unfold file_size; by rewrite Ed).
  match goal with |- ?x = _ -> _ => replace x with (r1, (n2, (fs1, s2))); [|symmetry] end.
  2: { rewrite <- E2. unfold slot_of, empty_header. by destruct (in_seed n1). }
  intros [= <- <- <- <-] ->. pose proof (be_result _ _ _ _ _ _ _ _ _ _ _ _ _ _ Hed) as Hr. cbn [insert list_insert] in Hr. eexists _, l1, ext1. split_and!; [exact Hr| | |].
  - unfold dir_names. cbn [map concat]. unfold names_of. cbn [fst snd]. destruct (sealed_records (in_seed n1) _ _ Y1 Y2) as [_ ->]. rewrite Y3. done.
  - destruct (pages_only_kept _ _ (be_inode _ _ _ _ _ _ _ _ _ _ _ _ _ _ Hed)) as [-> _]. by rewrite Ed.
  - intros c Hc. rewrite <- Hrd1 by (rewrite held_app; lia). by eapply edit_frame.
Qed.
End Make.
