(* ===== verification/DirInode.v ===== *)
(** * Directories and their inodes

    What a change elsewhere on the volume leaves of a directory, the write-back
    of a directory's descriptor, and the rewriting of an indexed directory as a
    linear one. *)

From S2P Require Import Prelude Pod Checksum JournalFormat Device Bitmap SuperBlock GroupDesc MetaStore BlockGroup Alloc AllocSpec ExtentNode ExtentMap ExtentTree ExtentWrite.
From S2P Require Import ExtentSpec ExtentManager InodeRecord OrphanChain InodeTable Orphan PageCache DirEntry DirBlock DirHash Htree InodeInner Dir DirSpec DirEdit DirGrow DirDots.

(** The inode tables fill whole blocks, which are then the file system's. *)
Definition tables_whole (fs : Ext4) : Prop := forall i g md, block_groups fs !! i = Some (g, md) -> table_span g <= table_blocks g.

Lemma table_system fs b : tables_whole fs -> ~ fs_system fs b -> forall i g md, block_groups fs !! i = Some (g, md) -> ~ table_block g md b.
Proof. intros Hw Hs i g md Hi [H1 H2]. apply Hs. right. exists i, g, md. split; [done|]. left. right. right. pose proof (Hw i g md Hi). lia. Qed.

(** What the descriptor and the root are when they are stored. *)
Definition storable (n : InodeInner) : Prop :=
  desc_ok (set_sector_count (in_desc n) (root_and_sectors n).2) /\ zlen (root_and_sectors n).1 = ROOT_SIZE.

(** The same directory, seen through another record. *)
Record same_dir (n n' : InodeInner) : Prop := {
  sd_type : i_type (in_desc n') = i_type (in_desc n);
  sd_size : file_size n' = file_size n;
  sd_seed : in_seed n' = in_seed n;
  sd_payload : match in_payload n, in_payload n' with
               | DataBacked pc t np, DataBacked pc' t' np' => pc' = pc /\ np' = np /\ et_root t' = et_root t /\ et_sector_count t' = et_sector_count t
               | p, p' => p = p'
               end;
}.

Section Frame.
Context {S : Type} `{MetaStoreOk S}.
Context (dev : device).
Implicit Types s : S.

(** *** Changes elsewhere *)

(** A change of the file system's own blocks. *)
Record elsewhere (fs : Ext4) (s : S) (fs' : Ext4) (s' : S) : Prop := {
  el_fs : fs_ok fs';
  el_stored : fs_stored fs' s';
  el_store : ms_ok s';
  el_groups : block_groups fs' = block_groups fs;
  el_bounds : sb_first_data_block (super_block fs') = sb_first_data_block (super_block fs) /\ sb_blocks_count (super_block fs') = sb_blocks_count (super_block fs);
  el_reads c : ~ fs_system fs c -> ms_read s' c = ms_read s c;
  el_total : fs_total_inodes fs' = fs_total_inodes fs;
}.

Lemma holds_elsewhere fs s fs' s' runs : elsewhere fs s fs' s' -> holds fs s runs -> holds fs' s' runs.
Proof.
  intros [E1 E2 E3 E4 [E5 E6] _ _] [K1 K2 K3 K4 K5]. split; try done. cbn [s_fs s_store s_held] in *. intros b Hb. specialize (K5 b Hb).
  unfold fs_free, fs_system in *. by rewrite E4, E5, E6.
Qed.

Lemma tree_elsewhere fs s fs' s' t l ext runs : elsewhere fs s fs' s' -> tree_ok t fs s l ext runs -> tree_ok t fs' s' l ext runs.
Proof.
  intros He [T1 T2 T3 T4]. split; try done; [|by eapply holds_elsewhere]. eapply repr_same; [|exact T1]. intros b Hb. apply (el_reads _ _ _ _ He).
  eapply (holds_block _ _ _ b T3). rewrite held_app. pose proof (held_blocks_in ext b Hb). lia.
Qed.

Lemma dir_elsewhere skip n n' fs s fs' s' ds l ext runs : elsewhere fs s fs' s' -> same_dir n n' -> dir_ok_but dev skip n fs s ds l ext runs -> dir_ok_but dev skip n' fs' s' ds l ext runs.
Proof.
  intros He [N1 N2 N3 N4] [D1 D2 D3 D4 D5 (pc & t & np & Hp & Hok & Ht & Hc & Hn & Hpg)]. rewrite Hp in N4. destruct (in_payload n') as [pc' t' np'| |] eqn:Ep; try done. destruct N4 as (-> & -> & Er & Es).
  split; rewrite ?N1, ?N2, ?N3; try done. pose proof (tree_elsewhere _ _ _ _ _ _ _ _ He Ht) as Ht1. exists pc, t', np. split_and!; try done.
  - destruct Ht1 as [T1 T2 T3 T4]. split; rewrite ?Er, ?Es; done.
  - intros i b Hb. destruct (Hpg i b Hb) as (p & Hm & Hr & Hh). exists p. split_and!; try done. intros Hsk. rewrite (el_reads _ _ _ _ He); [by apply Hr|].
    by destruct (mapped_apart t fs s l ext runs _ p Written Ht Hm).
Qed.

Lemma elsewhere_reads fs s s' : fs_ok fs -> fs_stored fs s -> ms_ok s' -> (forall c, ms_read s' c = ms_read s c) -> elsewhere fs s fs s'.
Proof. intros Hf Hs Hk Hr. split; try done. eapply fs_stored_on; [|exact Hs]. intros c _. apply Hr. Qed.

Lemma dir_volume skip n fs s ds l ext runs : dir_ok_but dev skip n fs s ds l ext runs -> fs_ok fs /\ fs_stored fs s /\ ms_ok s.
Proof. intros [_ _ _ _ _ (pc & t & np & _ & _ & [_ _ T3 _] & _)]. by eapply holds_fs. Qed.

Lemma same_dir_refl n : same_dir n n.
Proof. split; try done. by destruct (in_payload n). Qed.

Lemma same_dir_desc n d : i_type d = i_type (in_desc n) -> i_size d = i_size (in_desc n) -> same_dir n (set_desc n d).
Proof. intros H1 H2. split; try done. cbn. by destruct (in_payload n). Qed.

(** *** Writing back *)

Lemma inner_write_back_spec tid n fs s but ino : volume fs s -> tables_whole fs -> orphans_but fs s but -> valid_ino fs ino -> storable n ->
  exists r n' s', inner_write_back tid ino (n, (fs, s)) = (r, (n', (fs, s'))) /\ elsewhere fs s fs s' /\ same_dir n n' /\ volume fs s' /\ i_flags (in_desc n') = i_flags (in_desc n) /\
    i_link_count (in_desc n') = i_link_count (in_desc n) /\
    (forall k, valid_ino fs k -> k <> ino -> read_raw_inode fs s' k = read_raw_inode fs s k) /\
    match r with
    | Ok _ => is_dirty n' = false /\ orphans_but fs s' (if is_dirty n then if decide (but = Some ino) then None else but else but) /\
        (is_dirty n = true -> exists raw, read_raw_inode fs s' ino = Ok raw /\
          stamp_of fs ino (to_raw_inode (listed_desc fs ino (set_sector_count (in_desc n) (root_and_sectors n).2)) (root_and_sectors n).1) raw)
    | Err e => handled e = true /\ orphans_but fs s' but
    end.
Proof.
  intros V Hw Ho Hi [Hd Hr]. unfold inner_write_back. cbn [fst snd]. destruct (is_dirty n) eqn:Edirty; cbn [negb].
  2: { exists (Ok tt), n, s. split; [done|]. destruct V as [Vf Vt Vs Vk Vc]. split; [by apply elsewhere_reads|]. split; [apply same_dir_refl|]. by split_and!. }
  destruct (root_and_sectors n) as [root sectors] eqn:Er. cbn [fst snd] in *.
  destruct (write_back_keeps fs s ino (set_sector_count (in_desc n) sectors) root but V Ho Hi Hd Hr) as (r & s' & E & Hw' & V' & Ho'). cbn [in_desc set_desc]. rewrite E.
  assert (He : elsewhere fs s fs s').
  { destruct V' as [Vf' Vt' Vs' Vk' Vc']. split; try done. intros c Hc. apply (or_blocks _ _ _ _ (proj1 Hw')). by apply table_system. }
  assert (Hoth : forall k, valid_ino fs k -> k <> ino -> read_raw_inode fs s' k = read_raw_inode fs s k) by (intros; by apply (or_others _ _ _ _ (proj1 Hw'))).
  destruct r as [[]|e]; eexists _, _, s'; (split; [done|]; split; [done|]).
  - split; [split; try done; cbn; by destruct (in_payload n)|]. split_and!; try done; [cbn; by destruct (in_payload n)|]. intros _. apply Hw'.
  - split; [by apply same_dir_desc|]. split_and!; try done. apply Hw'.
Qed.
End Frame.
