(* ===== verification/DirDegrade.v ===== *)
(** * An indexed directory made linear

    [degrade_htree_to_linear] rewrites the blocks of the index as linear
    directory blocks, clears the flag and captures every block and the inode.
    It keeps the names when the index has the shape it should have: the root
    block holds [.] and [..] and the blocks its table names hold no entry. *)

From S2P Require Import Prelude Pod Checksum JournalFormat Device Bitmap SuperBlock GroupDesc MetaStore BlockGroup Alloc AllocSpec ExtentNode ExtentMap ExtentTree ExtentWrite.
From S2P Require Import ExtentSpec ExtentManager InodeRecord OrphanChain InodeTable Orphan PageCache DirEntry DirBlock DirHash Htree InodeInner Dir DirSpec DirEdit DirGrow DirDots DirInode.

(** The rewritten root block. *)
Definition dot_img (seed : option InodeCsumSeed) (ino parent : Z) : list byte :=
  let img := two_dots seed ino parent (zeros PAGE_SIZE) in
  if is_some seed then put_entry (payload_len seed) dir_tail [] img else img.

Lemma dir_tail_wf : c_wf header_codec dir_tail.
Proof. by apply fields_wf. Qed.

Lemma dot_img_block seed ino parent : fits 32 ino -> ino <> 0 -> fits 32 parent -> parent <> 0 ->
  block_ok (dot_img seed ino parent, dot_recs seed ino parent) /\ (is_some seed = true -> tailed (dot_img seed ino parent, dot_recs seed ino parent)) /\
  live (dot_img seed ino parent) (dot_recs seed ino parent) = dot_names ino parent.
Proof.
  intros Hi Hi0 Hp Hp0. destruct (two_dots_spec seed ino parent Hi Hp (zeros PAGE_SIZE) eq_refl) as (X1 & X2 & X3 & X4 & X5 & _). unfold dot_img. destruct seed as [sd|]; cbn [is_some].
  2: { by apply dot_block_spec. }
  set (img := two_dots (Some sd) ino parent (zeros PAGE_SIZE)) in *. change (payload_len (Some sd)) with CSUM_COVER. pose proof dir_tail_wf as Wt.
  assert (Hsl : forall o n, 0 <= o -> o + n <= CSUM_COVER -> slice o n (put_entry CSUM_COVER dir_tail [] img) = slice o n img).
  { intros o n Ho Hn. apply put_entry_slice; unfold is_block in X1; rewrite ?X1; try done. by left. }
  apply dot_block_spec; try done; unfold header_at, read_at in *; rewrite ?Hsl; try done.
Qed.

Lemma write_dot_page seed img0 ino parent : fits 32 ino -> fits 32 parent ->
  on_page 0 img0 (fun rp => write_dot_block rp (payload_len seed) ino parent (is_some seed)) (dot_img seed ino parent).
Proof.
  intros Hi Hp rp pc Hok Hpage Hi0. unfold write_dot_block. pose proof (page_in_range rp pc 0 img0 Hok Hpage) as Hr.
  rewrite bind_eq. pose proof (fill_page rp pc 0 Hok ltac:(lia) Hr : fill_zeros rp 0 BLOCK_SIZE pc = _) as E. rewrite E. clear E.
  destruct (set_page_page rp pc 0 img0 Hok Hpage ltac:(lia) (zeros PAGE_SIZE) eq_refl) as [P1 P2].
  destruct (two_dots_spec seed ino parent Hi Hp (zeros PAGE_SIZE) eq_refl) as (X1 & _).
  pose proof (write_dots_page seed ino parent Hi Hp rp _ 0 (zeros PAGE_SIZE) BLOCK_SIZE P1 P2 ltac:(lia)) as E. rewrite set_page_twice in E.
  change (Header ino (u16 (min_rec_len (zlen DOT_BYTE))) (zlen DOT_BYTE) (ft_code FtDir)) with (dot_header ino).
  assert (Header parent (u16 (payload_len seed - min_rec_len (zlen DOT_BYTE))) (zlen DOT_DOT_BYTE) (ft_code FtDir) = dotdot_header seed parent) as -> by (by destruct seed).
  change (min_rec_len (zlen DOT_BYTE)) with DOT_LEN. change (create_view 0 BLOCK_SIZE) with {| v_offset := 0 * PAGE_SIZE; v_limit := BLOCK_SIZE |}.
  rewrite bind_eq in E. rewrite bind_eq. destruct (write_entry rp _ 0 (dot_header ino) DOT_BYTE _) as [[[]|e] pc1]; [|done]. rewrite bind_eq, E. unfold dot_img. destruct seed as [sd|]; cbn [is_some]; [|done].
  destruct (set_page_page rp pc 0 img0 Hok Hpage ltac:(lia) _ X1) as [Q1 Q2].
  pose proof (write_entry_page rp _ 0 _ 0 BLOCK_SIZE (payload_len (Some sd)) dir_tail [] Q1 Q2 ltac:(lia) ltac:(lia) ltac:(done) ltac:(done) dir_tail_wf ltac:(done)) as E2.
  rewrite Z.add_0_r in E2. rewrite E2. by rewrite set_page_twice.
Qed.

Section Degrade.
Context {S : Type} `{MetaStoreOk S}.
Context (dev : device).
Implicit Types s : S.

(** ** The rewritten pages *)

Lemma dir_names_same (ds : list dblock) i (b b' : dblock) : ds !! i = Some b -> names_of b' = names_of b -> dir_names (<[i := b']> ds) = dir_names ds.
Proof. intros Hi E. destruct (dir_names_split ds i b Hi) as (x & y & -> & Hy). by rewrite Hy, E. Qed.

Definition nameless (ds : list dblock) (k : Z) : Prop := 0 <= k /\ exists b, ds !! Z.to_nat k = Some b /\ names_of b = [].

Lemma nameless_insert (ds : list dblock) (i : nat) b b' k : ds !! i = Some b -> names_of b' = names_of b -> nameless ds k -> nameless (<[i := b']> ds) k.
Proof.
  intros Hi E [Hk (c & Hc & Hn)]. split; [done|]. destruct (decide (Z.to_nat k = i)) as [<-|Hne].
  - exists b'. rewrite list_lookup_insert_eq by (by eapply lookup_lt_Some). rewrite Hi in Hc. injection Hc as ->. by rewrite E.
  - exists c. by rewrite list_lookup_insert_ne.
Qed.

(** The blocks of an index carry no checksum tail of a linear block: the
    directory is described as one without checksums, with the tails of the
    other blocks beside it. *)
Definition seedless (n : InodeInner) : InodeInner :=
  {| in_desc := in_desc n; in_dirty := in_dirty n; in_payload := in_payload n; in_sync_tid := in_sync_tid n; in_datasync_tid := in_datasync_tid n; in_seed := None |}.
Definition tails_but (n : InodeInner) (nodes : list Z) (ds : list dblock) : Prop :=
  is_some (in_seed n) = true -> forall j b, ds !! j = Some b -> Z.of_nat j ∈ nodes \/ tailed b.

Lemma seeded skip n fs s ds l ext runs : dir_ok_but dev skip (seedless n) fs s ds l ext runs -> tails_but n [] ds -> dir_ok_but dev skip n fs s ds l ext runs.
Proof. intros [D1 D2 D3 D4 D5 D6] Ht. split; try done. intros Es. apply Forall_lookup. intros j b Hb. destruct (Ht Es j b Hb) as [Hx|]; [set_solver|done]. Qed.

Lemma tails_filled n k nodes (ds : list dblock) i (b : dblock) : k = Z.of_nat i -> (is_some (in_seed n) = true -> tailed b) -> tails_but n (k :: nodes) ds -> tails_but n nodes (<[i := b]> ds).
Proof.
  intros -> Hb Ht Es j c Hj. destruct (decide (j = i)) as [->|Hne].
  - rewrite list_lookup_insert_eq in Hj by (apply lookup_lt_Some in Hj; by rewrite length_insert in Hj). injection Hj as <-. right. by apply Hb.
  - rewrite list_lookup_insert_ne in Hj by done. destruct (Ht Es j c Hj) as [[Hx|?]%elem_of_cons|?]; [lia|by left|by right].
Qed.

(** Editing a page does not look at the seed. *)
Lemma page_edit_seedless skip (op : (Z -> result (list byte)) -> M PageCache unit) n fs s ds l ext runs i img recs img1 recs1 :
  dir_ok_but dev skip (seedless n) fs s ds l ext runs -> ds !! i = Some ((img, recs) : dblock) -> on_page (Z.of_nat i) img op img1 -> block_ok (img1, recs1) ->
  exists n1, on_cache dev op (n, (fs, s)) = (Ok tt, (n1, (fs, s))) /\ pages_only n n1 /\
    dir_ok_but dev (fun j => skip j \/ j = i) (seedless n1) fs s (<[i := (img1, recs1)]> ds) l ext runs.
Proof.
  intros Hd Hi Hop Hb. destruct (page_edit_spec dev skip op (seedless n) fs s ds l ext runs i img recs img1 recs1 Hd Hi Hop Hb ltac:(done)) as (m & E & (pc & pc' & t & np & Hp & ->) & Hd1).
  exists (set_payload n (DataBacked pc' t np)). split; [|split; [by exists pc, pc', t, np|exact Hd1]].
  unfold on_cache in *. cbn [fst snd in_payload seedless] in *. rewrite Hp in *. destruct (op _ pc) as [r pc1]. by injection E as -> ->.
Qed.

Lemma empties_spec fs s l ext runs nodes : forall skip n ds, dir_ok_but dev skip (seedless n) fs s ds l ext runs -> tails_but n nodes ds -> Forall (nameless ds) nodes ->
  exists n1 ds1, forM nodes (fun blk => on_cache dev (fun rp => write_empty_block rp (blk * BLOCK_SIZE) (payload_len (in_seed n)) (is_some (in_seed n)))) (n, (fs, s)) = (Ok tt, (n1, (fs, s))) /\ (n1 = n \/ pages_only n n1) /\
    dir_ok_but dev (fun j => skip j \/ Z.of_nat j ∈ nodes) n1 fs s ds1 l ext runs /\ dir_names ds1 = dir_names ds /\ length ds1 = length ds.
Proof.
  induction nodes as [|k nodes IH]; intros skip n ds Hd Ht Hall; cbn [forM].
  - exists n, ds. split_and!; try done; [by left|]. eapply dir_ok_weaken; [|by apply seeded]. set_solver.
  - apply Forall_cons in Hall as [[Hk ([img recs] & Hi & Hn)] Hall]. destruct (empty_block (in_seed n)) as (B1 & B2 & B3). set (i := Z.to_nat k) in *. assert (Ek : k = Z.of_nat i) by (unfold i; lia).
    destruct (page_edit_seedless skip (fun rp => write_empty_block rp (k * BLOCK_SIZE) (payload_len (in_seed n)) (is_some (in_seed n))) n fs s ds l ext runs i img recs (empty_img (in_seed n)) (empty_recs (in_seed n)) Hd Hi) as (n1 & E & Hp1 & Hd1); [|exact B1|].
    { intros rp pc Hok Hpage Hi0. rewrite Ek. apply write_empty_page; [done|done|]. by apply (page_in_range rp pc _ img). }
    assert (Hsame : names_of (empty_img (in_seed n), empty_recs (in_seed n)) = names_of (img, recs)) by (unfold names_of at 1; cbn [fst snd]; by rewrite B3, Hn).
    destruct (pages_only_kept n n1 Hp1) as (_ & Es & _). destruct (IH _ n1 _ Hd1) as (n2 & ds2 & E2 & Hp2 & Hd2 & Hn2 & Hl2).
    { unfold tails_but. rewrite Es. by apply (tails_filled n k). } { eapply Forall_impl; [exact Hall|]. intros j Hj. by eapply nameless_insert. }
    rewrite Es in E2. exists n2, ds2. rewrite bind_eq, E. split; [exact E2|]. split; [right; destruct Hp2 as [->|Hp2]; [done|by eapply pages_only_trans]|]. rewrite length_insert in Hl2. rewrite (dir_names_same ds i (img, recs)) in Hn2 by done.
    split_and!; try done. eapply dir_ok_weaken; [|exact Hd2]. cbn. intros j [[?|Hj]|?]; [by left|right; subst j; rewrite <- Ek; set_solver|right; set_solver].
Qed.

(** ** The captured images *)

(** Only blocks that are not the file system's change. *)
Definition system_kept (fs : Ext4) (s s' : S) : Prop := ms_ok s' /\ forall c, fs_system fs c -> ms_read s' c = ms_read s c.

Lemma edit_system skip skip' n fs s ds l ext runs i b r n' s' : dir_ok_but dev skip n fs s ds l ext runs -> block_edit dev skip' n fs s ds l ext runs i b r n' s' -> system_kept fs s s'.
Proof.
  intros [_ _ _ _ _ (pc & t & np & _ & _ & Ht & _)] [_ Hok (p & Hm & Hr) _ _]. split; [done|]. intros c Hc. apply Hr. intros ->.
  by destruct (mapped_apart t fs s l ext runs (Z.of_nat i) p Written Ht Hm).
Qed.

Lemma journals_spec fs l ext runs idx : forall skip n s ds, dir_ok_but dev skip n fs s ds l ext runs -> Forall (fun k => 0 <= k < zlen ds) idx ->
  exists r n' s', forM idx (fun blk => journal_dir_block dev (blk * BLOCK_SIZE)) (n, (fs, s)) = (r, (n', (fs, s'))) /\ system_kept fs s s' /\ (n' = n \/ pages_only n n') /\
    (forall c, (1 <= held runs c)%nat -> ms_read s' c = ms_read s c) /\
    match r with
    | Ok _ => exists ds', dir_ok_but dev (fun j => skip j /\ Z.of_nat j ∉ idx) n' fs s' ds' l ext runs /\ dir_names ds' = dir_names ds /\ length ds' = length ds
    | Err e => handled e = true
    end.
Proof.
  induction idx as [|k idx IH]; intros skip n s ds Hd Hall; cbn [forM].
  - exists (Ok tt), n, s. destruct (dir_volume dev skip n fs s ds l ext runs Hd) as (_ & _ & Hk). split_and!; try done; [by left|].
    exists ds. split_and!; try done. eapply dir_ok_weaken; [|exact Hd]. cbn. intros i Hi. split; [done|set_solver].
  - apply Forall_cons in Hall as [Hk Hall]. set (i := Z.to_nat k) in *. assert (Ek : k = Z.of_nat i) by (unfold i; lia).
    destruct (lookup_lt_is_Some_2 ds i) as [[img recs] Hi]; [unfold zlen in Hk; lia|].
    destruct (journal_step dev skip n fs s ds l ext runs i img recs (k * BLOCK_SIZE) Hd Hi ltac:(by rewrite Z.div_mul by done)) as (r & n1 & s1 & E & Hed).
    pose proof (edit_system _ _ _ _ _ _ _ _ _ _ _ _ _ _ Hd Hed) as [K1 K2]. pose proof (edit_frame dev _ _ _ _ _ _ _ _ _ _ _ _ _ _ Hd Hed) as Hfr. pose proof (be_result _ _ _ _ _ _ _ _ _ _ _ _ _ _ Hed) as Hr. pose proof (be_inode _ _ _ _ _ _ _ _ _ _ _ _ _ _ Hed) as Hp1.
    rewrite bind_eq, E. destruct r as [[]|e]; [|exists (Err e), n1, s1; split_and!; try done; by right].
    assert (Hb : block_ok (img, recs) /\ (is_some (in_seed n) = true -> tailed (img, recs))).
    { pose proof (dk_blocks _ _ _ _ _ _ _ _ _ Hd) as HB. rewrite Forall_lookup in HB. split; [by apply (HB i)|]. intros Es. pose proof (dk_tails _ _ _ _ _ _ _ _ _ Hd Es) as HT. rewrite Forall_lookup in HT. by apply (HT i). }
    destruct (sealed_records (in_seed n) img recs (proj1 Hb) (proj2 Hb)) as [_ Hnm].
    destruct (IH _ n1 s1 _ Hr) as (r2 & n2 & s2 & E2 & [L1 L2] & Hp2 & Hfr2 & Hr2). { unfold zlen. by rewrite length_insert. }
    exists r2, n2, s2. split; [exact E2|]. split_and!; [split; [done|intros c Hc; by rewrite L2, K2]|right; destruct Hp2 as [->|Hp2]; [done|by eapply pages_only_trans]|intros c Hc; by rewrite Hfr2, Hfr|]. destruct r2 as [[]|e]; [|done].
    destruct Hr2 as (ds' & Hd' & Hn' & Hl'). rewrite length_insert in Hl'. rewrite (dir_names_same ds i (img, recs)) in Hn' by done. exists ds'. split_and!; try done.
    eapply dir_ok_weaken; [|exact Hd']. cbn. intros j [[? Hne] ?]. split; [done|]. rewrite Ek. apply not_elem_of_cons. split; [lia|done].
Qed.

(** ** The volume around *)

Lemma table_in_system fs ino i g md slot : tables_whole fs -> placed fs ino i g md slot -> fs_system fs (slot_bid slot).
Proof.
  intros Hw P. destruct (pl_table _ _ _ _ _ _ P) as [H1 H2]. pose proof (pl_group _ _ _ _ _ _ P) as Hg. pose proof (Hw i g md Hg). right. exists i, g, md. split; [done|]. left. right. right. lia.
Qed.

Lemma volume_kept fs s s' : volume fs s -> tables_whole fs -> system_kept fs s s' ->
  volume fs s' /\ forall ino, valid_ino fs ino -> read_raw_inode fs s' ino = read_raw_inode fs s ino.
Proof.
  intros [Vf Vt Vs Vk Vc] Hw [K1 K2]. split.
  - split; try done. eapply fs_stored_on; [|exact Vs]. intros c Hc. by apply K2.
  - intros ino Hi. destruct (placed_exists fs ino Vf Vt Hi) as (i & g & md & slot & P). rewrite (read_raw_placed fs s' ino i g md slot), (read_raw_placed fs s ino i g md slot) by done.
    by rewrite K2 by (by eapply table_in_system).
Qed.

Lemma orphans_kept fs s s' but : volume fs s -> tables_whole fs -> system_kept fs s s' -> orphans_but fs s but -> orphans_but fs s' but.
Proof. intros V Hw K [O1 O2 O3 O4]. split; try done. eapply links_same; [done| |exact O4]. by apply volume_kept. Qed.

Lemma system_kept_trans fs s s1 s2 : system_kept fs s s1 -> system_kept fs s1 s2 -> system_kept fs s s2.
Proof. intros [A1 A2] [B1 B2]. split; [done|]. intros c Hc. by rewrite B2, A2. Qed.

(** ** The whole *)

(** An index over linear blocks: what [degrade_htree_to_linear] expects. *)
Record dx_dir (n : InodeInner) (s : S) (ds : list dblock) (ino parent : Z) (nodes : list Z) : Prop := {
  dx_index : exists rp pc, dir_pages dev n s = Ok (rp, pc) /\ dx_index_blocks (read_dx_block rp pc) = Ok (0 :: nodes);
  dx_root : exists img recs, ds !! 0%nat = Some ((img, recs) : dblock) /\ live img recs = dot_names ino parent /\
    de_ino (header_at img 0) = ino /\ de_ino (header_at img DOT_LEN) = parent;
  dx_nodes : Forall (nameless ds) nodes;
}.

Lemma index_cleared_ok d : desc_ok d -> desc_ok (remove_flags d FileFlags.INDEX).
Proof.
  intros [D1 D2 D3 D4 D5 D6 D7 D8 D9 [D10 D11] D12]. split; try done. cbn. split.
  - unfold fits in *. assert (0 <= Z.ldiff (i_flags d) FileFlags.INDEX <= i_flags d) as Hle; [|lia].
    split; [apply Z.ldiff_nonneg; lia|]. apply Z.ldiff_le; [lia|]. apply Z.bits_inj'. intros k Hk. rewrite !Z.ldiff_spec, Z.bits_0. destruct (Z.testbit _ k), (Z.testbit FileFlags.INDEX k); done.
  - apply Z.bits_inj'. intros k Hk. pose proof (f_equal (fun z => Z.testbit z k) D11) as E. cbn in E. rewrite Z.land_spec in E. rewrite Z.land_spec, Z.ldiff_spec.
    by destruct (Z.testbit (i_flags d) k), (Z.testbit FileFlags.all k), (Z.testbit FileFlags.INDEX k).
Qed.

Lemma storable_clear n n1 : storable n -> root_and_sectors n1 = root_and_sectors n -> in_desc n1 = remove_flags (in_desc n) FileFlags.INDEX -> storable n1.
Proof.
  intros [H1 H2] Er Ed. split; rewrite Er; [|done]. rewrite Ed. change (set_sector_count (remove_flags ?d ?f) ?x) with (remove_flags (set_sector_count d x) f). by apply index_cleared_ok.
Qed.

Lemma index_gone d : Z.land (Z.ldiff (i_flags d) FileFlags.INDEX) FileFlags.INDEX = 0.
Proof. apply Z.bits_inj'. intros k Hk. rewrite Z.land_spec, Z.ldiff_spec, Z.bits_0. by destruct (Z.testbit _ k), (Z.testbit FileFlags.INDEX k). Qed.

Lemma pages_like_kept n n' : n' = n \/ pages_only n n' -> in_desc n' = in_desc n /\ in_seed n' = in_seed n /\ root_and_sectors n' = root_and_sectors n /\ is_dirty n' = is_dirty n.
Proof. intros [->|Hp]; [done|by apply pages_only_kept]. Qed.

(** The two headers of the root block. *)
Lemma read_dots n fs s ds img recs skip l ext runs : dir_ok_but dev skip (seedless n) fs s ds l ext runs -> ds !! 0%nat = Some ((img, recs) : dblock) ->
  read_cache dev (fun rp pc => read_val rp header_codec pc 0) (n, (fs, s)) = (Ok (header_at img 0), (n, (fs, s))) /\
  read_cache dev (fun rp pc => read_val rp header_codec pc DOT_LEN) (n, (fs, s)) = (Ok (header_at img DOT_LEN), (n, (fs, s))).
Proof.
  intros Hd Hz. destruct (dv_pages _ _ _ _ (dir_ok_view dev skip (seedless n) fs s ds l ext runs Hd)) as (pc & t & np & Hp & Hok & Hpg). cbn [in_payload seedless] in Hp. destruct (Hpg 0%nat _ Hz) as [Hpage _]. cbn [fst] in Hpage.
  rewrite !(read_cache_eq dev _ n fs s pc t np Hp).
  pose proof (read_val_page (read_page dev np t s) header_codec pc 0 img 0 Hok Hpage ltac:(lia) ltac:(lia) ltac:(done)) as E1. pose proof (read_val_page (read_page dev np t s) header_codec pc 0 img DOT_LEN Hok Hpage ltac:(lia) ltac:(done) ltac:(done)) as E2.
  change (0 * PAGE_SIZE + 0) with 0 in E1. change (0 * PAGE_SIZE + DOT_LEN) with DOT_LEN in E2. by rewrite E1, E2.
Qed.

(** The pages rewritten, before anything is captured. *)
Lemma degrade_pages n fs s ds l ext runs ino parent nodes : dir_ok dev (seedless n) fs s ds l ext runs -> tails_but n (0 :: nodes) ds ->
  (exists img recs, ds !! 0%nat = Some ((img, recs) : dblock) /\ live img recs = dot_names ino parent) -> Forall (nameless ds) nodes -> fits 32 ino -> ino <> 0 -> fits 32 parent -> parent <> 0 ->
  exists n1 ds1, (on_cache dev (fun rp => write_dot_block rp (payload_len (in_seed n)) ino parent (is_some (in_seed n)));;
     forM nodes (fun blk => on_cache dev (fun rp => write_empty_block rp (blk * BLOCK_SIZE) (payload_len (in_seed n)) (is_some (in_seed n))))) (n, (fs, s)) = (Ok tt, (n1, (fs, s))) /\ pages_only n n1 /\
    dir_ok_but dev (fun j => Z.of_nat j ∈ 0 :: nodes) n1 fs s ds1 l ext runs /\ dir_names ds1 = dir_names ds /\ length ds1 = length ds.
Proof.
  intros Hd Ht (img & recs & Hz & Hn) Hnodes Hi Hi0 Hp Hp0. destruct (dot_img_block (in_seed n) ino parent Hi Hi0 Hp Hp0) as (B1 & B2 & B3).
  destruct (page_edit_seedless _ (fun rp => write_dot_block rp (payload_len (in_seed n)) ino parent (is_some (in_seed n))) n fs s ds l ext runs 0%nat img recs _ _ Hd Hz (write_dot_page (in_seed n) img ino parent Hi Hp) B1) as (n1 & E & Hp1 & Hd1).
  destruct (pages_only_kept n n1 Hp1) as (_ & Es & _). assert (Hsame : names_of (dot_img (in_seed n) ino parent, dot_recs (in_seed n) ino parent) = names_of (img, recs)) by (unfold names_of; cbn [fst snd]; by rewrite B3, Hn).
  destruct (empties_spec fs s l ext runs nodes _ n1 _ Hd1) as (n2 & ds2 & E2 & Hp2 & Hd2 & Hn2 & Hl2). { unfold tails_but. rewrite Es. by apply (tails_filled n 0). } { eapply Forall_impl; [exact Hnodes|]. intros j Hj. by eapply nameless_insert. }
  rewrite Es in E2. exists n2, ds2. rewrite bind_eq, E. split; [exact E2|]. split; [destruct Hp2 as [->|Hp2]; [done|by eapply pages_only_trans]|].
  rewrite length_insert in Hl2. rewrite (dir_names_same ds 0 (img, recs)) in Hn2 by done. split_and!; try done. eapply dir_ok_weaken; [|exact Hd2]. cbn. set_solver.
Qed.

Lemma degrade_spec tid n fs s ds l ext runs ino parent nodes :
  dir_ok dev (seedless n) fs s ds l ext runs -> tails_but n (0 :: nodes) ds -> volume fs s -> tables_whole fs -> orphans_ok fs s -> valid_ino fs ino -> fits 32 parent -> parent <> 0 -> storable n ->
  dx_dir n s ds ino parent nodes ->
  exists r n' s', degrade_htree_to_linear dev tid (n, (fs, s)) = (r, (n', (fs, s'))) /\
  match r with
  | Ok _ => exists ds', dir_ok dev n' fs s' ds' l ext runs /\ dir_names ds' = dir_names ds /\ has_index n' = false /\ is_dirty n' = false /\ volume fs s' /\ orphans_ok fs s' /\
      forall c, (1 <= held runs c)%nat -> ms_read s' c = ms_read s c
  | Err e => handled e = true
  end.
Proof.
  intros Hd Ht V Hw Ho Hi Hp Hp0 Hst Hdx. pose proof (valid_ino_fits fs (vo_fs _ _ V) ino Hi) as Hif. assert (Hi0 : ino <> 0) by (unfold valid_ino in Hi; lia).
  destruct (dx_index _ _ _ _ _ _ Hdx) as (rp & pc & Epg & Eix). destruct (dx_root _ _ _ _ _ _ Hdx) as (img & recs & Hz & Hn & Eino & Epar).
  unfold degrade_htree_to_linear. rewrite bind_eq, inner_eq, bind_eq.
  assert (read_cache dev (fun rp pc => dx_index_blocks (read_dx_block rp pc)) (n, (fs, s)) = (Ok (0 :: nodes), (n, (fs, s)))) as ->.
  { unfold read_cache. cbn [fst snd]. unfold dir_pages in Epg. destruct (in_payload n); try done. injection Epg as -> ->. by rewrite Eix. }
  rewrite bind_eq, !on_store_eq. cbn [fst snd]. destruct (ms_burst (zlen (0 :: nodes) + 1) s) as [rb s1] eqn:Eb.
  destruct (ms_burst_spec s (zlen (0 :: nodes) + 1) rb s1 (vo_store _ _ V) ltac:(pose proof (zlen_nonneg (0 :: nodes)); lia) Eb) as (U1 & U2 & _ & U3). cbn [fst snd].
  destruct rb as [[]|e]; [|by eexists _, n, s1]. assert (K1 : system_kept fs s s1) by (by split).
  pose proof (elsewhere_reads fs s s1 (vo_fs _ _ V) (vo_stored _ _ V) U1 U2) as He1. pose proof (dir_elsewhere dev _ (seedless n) (seedless n) fs s fs s1 ds l ext runs He1 (same_dir_refl (seedless n)) Hd) as Hd1.
  destruct (read_dots n fs s1 ds img recs _ l ext runs Hd1 Hz) as [Ra Rb]. rewrite bind_eq, Ra, bind_eq. change (min_rec_len (zlen DOT_BYTE)) with DOT_LEN. rewrite Rb, Eino, Epar.
  destruct (degrade_pages n fs s1 ds l ext runs ino parent nodes Hd1) as (n2 & ds2 & E2 & Hp2 & Hd2 & Hn2 & Hl2); try done; [by exists img, recs|apply Hdx|].
  change (dir_payload_len n) with (payload_len (in_seed n)). change (drop 1 (0 :: nodes)) with nodes.
  rewrite bind_eq in E2. rewrite bind_eq. destruct (on_cache dev _ (n, (fs, s1))) as [[[]|e] st2]; [|done]. rewrite bind_eq, E2, bind_eq. unfold update_desc, update_inner. cbn [fst snd].
  destruct (pages_only_kept n n2 Hp2) as (Ed & Es & Er & _). set (n3 := set_desc n2 (remove_flags (in_desc n2) FileFlags.INDEX)).
  pose proof (dir_elsewhere dev _ n2 n3 fs s1 fs s1 ds2 l ext runs (elsewhere_reads fs s1 s1 (vo_fs _ _ V) (el_stored _ _ _ _ He1) U1 ltac:(done)) ltac:(by apply same_dir_desc) Hd2) as Hd3.
  destruct (journals_spec fs l ext runs (0 :: nodes) _ n3 s1 ds2 Hd3) as (rj & n4 & s4 & E4 & K4 & Hp4 & F4 & Hr4).
  { constructor; [pose proof (lookup_lt_Some _ _ _ Hz); unfold zlen; lia|]. eapply Forall_impl; [apply Hdx|]. intros k [Hk (b & Hb & _)]. pose proof (lookup_lt_Some _ _ _ Hb). unfold zlen. lia. }
  rewrite bind_eq. rewrite E4. destruct rj as [[]|e]; [|by eexists _, n4, s4]. destruct Hr4 as (ds4 & Hd4 & Hn4 & _). pose proof (system_kept_trans _ _ _ _ K1 K4) as K14.
  destruct (pages_like_kept n3 n4 Hp4) as (Ed4 & _ & Er4 & Edirty4). destruct (volume_kept fs s s4 V Hw K14) as [V4 _]. pose proof (orphans_kept fs s s4 None V Hw K14 Ho) as Ho4.
  assert (Hst4 : storable n4). { apply (storable_clear n); [done|rewrite Er4; exact Er|rewrite Ed4; unfold n3; cbn; by rewrite Ed]. }
  destruct (inner_write_back_spec tid n4 fs s4 None ino V4 Hw Ho4 Hi Hst4) as (r5 & n5 & s5 & E5 & He5 & Sd5 & V5 & Fl5 & _ & _ & Hr5). exists r5, n5, s5. split; [exact E5|]. destruct r5 as [[]|e]; [|apply Hr5].
  destruct Hr5 as (Dt5 & Ho5 & _). exists ds4. split_and!; try done.
  - eapply dir_ok_weaken; [|by eapply dir_elsewhere; [exact He5|exact Sd5|exact Hd4]]. cbn. tauto.
  - by rewrite Hn4.
  - unfold has_index. rewrite Fl5, Ed4. unfold n3. cbn [in_desc set_desc]. unfold contains, remove_flags. cbn [i_flags set_flags]. rewrite index_gone. done.
  - rewrite decide_False in Ho5 by done. by destruct (is_dirty n4).
  - intros c Hc. rewrite (el_reads _ _ _ _ He5), F4, U2; [done|done|]. destruct Hd4 as [_ _ _ _ _ (pc4 & t4 & np4 & _ & _ & [_ _ T3 _] & _)]. eapply (holds_block _ _ _ c T3). rewrite !held_app. lia.
Qed.
End Degrade.
