(* ===== verification/DirSample.v ===== *)
(** * A sample directory

    The sample volume with a directory of two blocks: a linear one with
    checksums, and one with a hash index on its first block. *)

From S2P Require Import Prelude Pod Checksum JournalFormat Device Bitmap SuperBlock GroupDesc MetaStore BlockGroup Alloc AllocSpec ExtentNode ExtentMap ExtentTree ExtentWrite ExtentSpec ExtentManager ExtentTheorems.
From S2P Require Import InodeRecord OrphanChain InodeTable Orphan InodeTheorems PageCache DirEntry DirBlock DirHash Htree InodeInner Dir DirSpec DirEdit DirGrow DirDots DirInode DirDegrade.

Module SampleDir.
Definition text (l : list Z) : list byte := map byte.of_Z l.
Definition name_a : list byte := Eval vm_compute in text [97].
Definition name_b : list byte := Eval vm_compute in text [98].
Definition name_sub : list byte := Eval vm_compute in text [115; 117; 98].
Definition name_new : list byte := Eval vm_compute in text [110; 101; 119].

Definition seed : option InodeCsumSeed := Eval vm_compute in Some (derive_inode (metadata_csum_seed SampleVolume.sb) 2 7).

(** An image from its entries. *)
Definition put (e : Z * (DirEntryHeader * list byte)) (img : list byte) : list byte := put_entry e.1 e.2.1 e.2.2 img.
Definition image (es : list (Z * (DirEntryHeader * list byte))) : list byte := foldr put (zeros BLOCK_SIZE) es.
Definition recs_of (es : list (Z * (DirEntryHeader * list byte))) : list (Z * DirEntryHeader) := map (fun e => (e.1, e.2.1)) es.

Definition linear : list (Z * (DirEntryHeader * list byte)) :=
  [(0, (Header 2 12 1 2, DOT_BYTE)); (12, (Header 2 12 2 2, DOT_DOT_BYTE)); (24, (Header 12 12 1 1, name_a)); (36, (Header 13 12 1 1, name_b));
   (48, (Header 14 4036 3 2, name_sub)); (CSUM_COVER, (dir_tail, []))].
Definition free : list (Z * (DirEntryHeader * list byte)) := [(0, (Header 0 4084 0 0, [])); (CSUM_COVER, (dir_tail, []))].

(** The root of an index with one leaf, and the leaf, with a tail and without. *)
Definition root : list (Z * (DirEntryHeader * list byte)) := [(0, (Header 2 12 1 2, DOT_BYTE)); (12, (Header 2 4084 2 2, DOT_DOT_BYTE))].
Definition root_img : list byte := put_le 4 36 1 (put_le 2 34 1 (put_le 2 32 508 (put_le 1 29 8 (put_le 1 28 1 (image root))))).
Definition leaf (stop : Z) : list (Z * (DirEntryHeader * list byte)) := [(0, (Header 12 12 1 1, name_a)); (12, (Header 13 (stop - 12) 1 1, name_b))].

Definition b0 : dblock := Eval vm_compute in (sealed seed (image linear), recs_of linear).
Definition b1 : dblock := Eval vm_compute in (sealed seed (image free), recs_of free).
Definition r0 : dblock := Eval vm_compute in (root_img, recs_of root).
Definition r1 : dblock := Eval vm_compute in (image (leaf 4096), recs_of (leaf 4096)).
Definition s1 : dblock := Eval vm_compute in (sealed seed (image (leaf 4084 ++ [(CSUM_COVER, (dir_tail, []))])), recs_of (leaf 4084 ++ [(CSUM_COVER, (dir_tail, []))])).

(** The volume and the directory. *)
Definition disk (x y : list byte) : gmap Z (list byte) := <[5 := x]> (<[6 := y]> SampleInodes.disk).
Definition dev (x y : list byte) : device := Device.Device (disk x y) [] (fun _ => true) (fun _ => true) true.
Definition store (x y : list byte) : op := sample_op (dev x y).
Definition l : list Extent := [mk_extent 0 2 5 Written].
Definition t : ExtentTree := Eval vm_compute in SampleTree.tree_of l 16.
Definition runs : list (Z * Z) := [(7, 10)].
Definition now : Duration := {| d_secs := 1700000000; d_nanos := 9 |}.
Definition desc (links : Z) : InodeDesc := set_size (desc_new Dir 0x1ED 1000 1000 links 7 now ExtentRoot) 8192.
Definition inode (sd : option InodeCsumSeed) (flags : Z) : InodeInner :=
  {| in_desc := insert_flags (desc 3) flags; in_dirty := false; in_payload := DataBacked (pc_new 8192) t 2; in_sync_tid := None; in_datasync_tid := None; in_seed := sd |}.
Definition file (links : Z) : InodeInner :=
  {| in_desc := SampleInodes.desc links; in_dirty := false; in_payload := DataBacked (pc_new 0) empty 0; in_sync_tid := None; in_datasync_tid := None; in_seed := seed |}.
End SampleDir.

#[local] Instance header_eq_dec : EqDecision DirEntryHeader.
Proof. solve_decision. Defined.

Fixpoint seg_check (img : list byte) (off : Z) (recs : list (Z * DirEntryHeader)) : bool :=
  match recs with
  | [] => off =? BLOCK_SIZE
  | (o, h) :: recs => (o =? off) && bool_decide (header_at img off = h) && rec_ok BLOCK_SIZE off h && seg_check img (off + de_rec_len h) recs
  end.

Lemma seg_checked img recs : forall off, seg_check img off recs = true -> seg img BLOCK_SIZE off BLOCK_SIZE recs.
Proof.
  induction recs as [|[o h] recs IH]; intros off Hc; cbn [seg_check] in Hc.
  - apply Z.eqb_eq in Hc as ->. constructor.
  - apply andb_prop in Hc as [[[->%Z.eqb_eq <-%bool_decide_eq_true]%andb_prop Hr]%andb_prop Hc]. constructor; [done|by apply IH].
Qed.

Ltac sample_block := split; [vm_compute; reflexivity|apply seg_checked; vm_compute; reflexivity].

Lemma sample_b0 : block_ok SampleDir.b0.
Proof. sample_block. Qed.
Lemma sample_b1 : block_ok SampleDir.b1.
Proof. sample_block. Qed.
Lemma sample_r0 : block_ok SampleDir.r0.
Proof. sample_block. Qed.
Lemma sample_r1 : block_ok SampleDir.r1.
Proof. sample_block. Qed.
Lemma sample_s1 : block_ok SampleDir.s1.
Proof. sample_block. Qed.

Lemma sample_disk x y : is_block x -> is_block y -> disk_ok (SampleDir.disk x y).
Proof.
  intros Hx Hy. unfold SampleDir.disk, disk_ok. apply map_Forall_insert_2; [done|]. apply map_Forall_insert_2; [done|]. change (disk_ok SampleInodes.disk). vm_decide.
Qed.

Lemma sample_read x y c : is_block x -> is_block y -> ms_read (SampleDir.store x y) c = dev_read (SampleDir.dev x y) c.
Proof. intros Hx Hy. apply fresh_op_reads. by apply sample_disk. Qed.

(** The tables, the bitmaps and the superblock are those of the sample volume. *)
Lemma sample_dir_system x y : is_block x -> is_block y -> system_kept SampleVolume.fs SampleInodes.store (SampleDir.store x y).
Proof.
  intros Hx Hy. split; [by apply sample_op_ok, sample_disk|]. intros c Hc%sample_system. rewrite sample_read by done. unfold SampleInodes.store. rewrite fresh_op_reads by (change (disk_ok SampleInodes.disk); vm_decide).
  unfold dev_read. cbn [d_disk d_rd SampleDir.dev]. unfold SampleDir.disk.
  assert (block_of (to_offset c) <> 5 /\ block_of (to_offset c) <> 6) as [H5 H6]. { rewrite !elem_of_cons in Hc. destruct_or! Hc; [subst c; by vm_compute..|set_solver]. }
  by rewrite !lookup_insert_ne by done.
Qed.

Lemma sample_whole : tables_whole SampleVolume.fs.
Proof. intros i g md [(-> & -> & ->)|(-> & -> & ->)]%sample_groups; by vm_compute. Qed.

Lemma sample_dir_volume x y : is_block x -> is_block y -> volume SampleVolume.fs (SampleDir.store x y) /\ orphans_ok SampleVolume.fs (SampleDir.store x y).
Proof.
  intros Hx Hy. pose proof (sample_dir_system x y Hx Hy) as Hk. split; [by apply (volume_kept _ SampleInodes.store _ sample_inodes_volume sample_whole Hk)|].
  by apply (orphans_kept _ SampleInodes.store _ None sample_inodes_volume sample_whole Hk), sample_orphans_none.
Qed.

Lemma sample_dir_ok (x y : dblock) sd flags : block_ok x -> block_ok y -> (is_some sd = true -> tailed x /\ tailed y) ->
  dir_ok (SampleDir.dev x.1 y.1) (SampleDir.inode sd flags) SampleVolume.fs (SampleDir.store x.1 y.1) [x; y] SampleDir.l [] SampleDir.runs.
Proof.
  intros Hx Hy Ht. split; try done; [by repeat (apply Forall_cons_2; [done|])|intros Es; destruct (Ht Es); by repeat (apply Forall_cons_2; [done|])|]. exists (pc_new 8192), SampleDir.t, 2. split_and!; try done.
  - split; [change SampleDir.t with (SampleTree.tree_of SampleDir.l 16); sample_repr SampleDir.l 16|sample_exts| |done].
    destruct (sample_dir_volume x.1 y.1 (proj1 Hx) (proj1 Hy)) as [[V1 V2 V3 V4 V5] _]. pose proof (sample_holds (block_runs [] ++ runs_of SampleDir.l ++ SampleDir.runs) ltac:(same_held)) as [K1 K2 K3 K4 K5]. by split.
  - intros i b Hb. destruct i as [|[|i]]; [injection Hb as <-|injection Hb as <-|done].
    + exists 5. split; [by vm_compute|]. assert (E : dev_read (SampleDir.dev x.1 y.1) 5 = Ok x.1) by done. split; [intros _; by rewrite sample_read by (apply Hx || apply Hy)|by right].
    + exists 6. split; [by vm_compute|]. assert (E : dev_read (SampleDir.dev x.1 y.1) 6 = Ok y.1) by done. split; [intros _; by rewrite sample_read by (apply Hx || apply Hy)|by right].
Qed.
