(* ===== verification/DirTheorems.v ===== *)
(** * Theorems about directories

    The abstract directory, a finite map from names to inodes, and the
    refinement; the exact behaviour of searches and edits; the hash index. *)

From S2P Require Import Prelude Pod Checksum JournalFormat Device Bitmap SuperBlock GroupDesc MetaStore BlockGroup Alloc AllocSpec ExtentNode ExtentMap ExtentTree ExtentWrite ExtentSpec ExtentManager ExtentTheorems.
From S2P Require Import InodeRecord OrphanChain InodeTable Orphan InodeTheorems PageCache DirEntry DirBlock DirHash Htree InodeInner Dir DirSpec DirEdit DirGrow DirDots DirInode DirDegrade DirSample.

(** ** The abstract directory *)

#[global] Instance byte_eq_dec : EqDecision Init.Byte.byte.
Proof. intros x y. destruct (Byte.eqb x y) eqn:E; [left; by apply Byte.byte_dec_bl|right; intros ->; by rewrite Byte.byte_dec_lb in E]. Defined.
#[global] Program Instance byte_countable : Countable Init.Byte.byte := inj_countable Byte.to_N Byte.of_N _.
Next Obligation. apply Byte.of_to_N. Qed.

Notation directory := (gmap (list byte) (Z * Z)).

Definition binding (e : list byte * Z * Z) : list byte * (Z * Z) := (e.1.1, (e.1.2, e.2)).
Definition names_map (l : list (list byte * Z * Z)) : directory := list_to_map (binding <$> l).
Definition distinct (ds : list dblock) : Prop := NoDup (key <$> dir_names ds).

Inductive dir_call : Type :=
  | Find (name : list byte) (dx : option DxCtx)
  | Add (name : list byte) (ino : Z) (t : DirEntryFileType)
  | Remove (name : list byte) (dx : option DxCtx)
  | Retarget (name : list byte) (ino : Z) (t : DirEntryFileType).

Definition map_step (m : directory) (c : dir_call) : result (option Z) * directory :=
  match c with
  | Find name _ => (match m !! name with Some e => Ok (Some e.1) | None => Err ENOENT end, m)
  | Add name ino t => (Ok None, <[name := (ino, ft_code t)]> m)
  | Remove name _ => match m !! name with Some e => (Ok (Some e.1), delete name m) | None => (Err ENOENT, m) end
  | Retarget name ino t => match m !! name with Some _ => (Ok None, <[name := (ino, ft_code t)]> m) | None => (Err ENOENT, m) end
  end.

(** What the callers guarantee: the name is fit for an entry, a name that is
    added is not there, the inode number is one. *)
Definition call_ok (m : directory) (c : dir_call) : Prop :=
  match c with
  | Find _ dx | Remove _ dx => forall d, dx = Some d -> words_ok (dx_seed d)
  | Add name ino _ => entry_args name ino /\ m !! name = None
  | Retarget _ ino _ => fits 32 ino /\ ino <> 0
  end.

Fixpoint map_steps (m : directory) (cs : list dir_call) : list (result (option Z)) * directory :=
  match cs with
  | [] => ([], m)
  | c :: cs => let '(r, m) := map_step m c in let '(rs, m) := map_steps m cs in (r :: rs, m)
  end.
Fixpoint calls_ok (m : directory) (cs : list dir_call) : Prop :=
  match cs with [] => True | c :: cs => call_ok m c /\ calls_ok (map_step m c).2 cs end.

Section Refine.
Context {S : Type} `{MetaStoreOk S}.
Context (dev : device) (tid : Z) (runs : list (Z * Z)).
Implicit Types s : S.

Notation dstate := (InodeInner * (Ext4 * S))%type.

(** The calls as the code makes them. *)
Definition dir_run (c : dir_call) : M dstate (option Z) :=
  match c with
  | Find name dx => i ← find_entry dev name dx; mret (Some (di_ino i))
  | Add name ino t => add_new_entry dev tid name ino t;; mret None
  | Remove name dx => i ← find_entry dev name dx; delete_entry dev i;; mret (Some (di_ino i))
  | Retarget name ino t => overwrite_entry dev name ino t;; mret None
  end.
Fixpoint dir_runs (cs : list dir_call) (st : dstate) : list (result (option Z)) * dstate :=
  match cs with
  | [] => ([], st)
  | c :: cs => let '(r, st) := dir_run c st in let '(rs, st) := dir_runs cs st in (r :: rs, st)
  end.

(** A linear directory stands for the map of its names. *)
Definition stands_for (st : dstate) (m : directory) : Prop :=
  exists ds l ext, dir_ok dev st.1 st.2.1 st.2.2 ds l ext runs /\ has_index st.1 = false /\ distinct ds /\ names_map (dir_names ds) = m.

(** *** Names and bindings *)

Lemma binding_keys l : (binding <$> l).*1 = key <$> l.
Proof. rewrite <- list_fmap_compose. done. Qed.

Lemma names_map_perm l l' : NoDup (key <$> l) -> l ≡ₚ l' -> names_map l = names_map l'.
Proof. intros Hn Hp. apply list_to_map_proper; [by rewrite binding_keys|by rewrite Hp]. Qed.

Lemma names_map_lookup l name e : NoDup (key <$> l) -> names_map l !! name = Some e <-> (name, e.1, e.2) ∈ l.
Proof.
  intros Hn. unfold names_map. rewrite <- elem_of_list_to_map by (by rewrite binding_keys). destruct e as [ino t]. cbn. split.
  - intros ([[nm i] t'] & E & Hin)%list_elem_of_fmap. unfold binding in E. cbn in E. by injection E as -> -> ->.
  - intros Hin. apply list_elem_of_fmap. by exists (name, ino, t).
Qed.

Lemma names_map_absent l name : names_map l !! name = None <-> name ∉ (key <$> l).
Proof. unfold names_map. rewrite <- not_elem_of_list_to_map. by rewrite binding_keys. Qed.

(** The record of a name is one of the names. *)
Lemma located_in ds name i o h : located ds name i o h -> (name, de_ino h, de_file_type h) ∈ dir_names ds.
Proof.
  intros [(img & l1 & l2 & Hi & <-) Hl]. destruct (dir_names_split ds i _ Hi) as (x & y & -> & _). unfold names_of. cbn [fst snd]. apply elem_of_app. right. apply elem_of_app. left.
  apply (live_elem img _ (o, h)); [set_solver|done].
Qed.

Lemma in_located ds e : e ∈ dir_names ds -> exists i o h, located ds (key e) i o h /\ e = (key e, de_ino h, de_file_type h).
Proof.
  intros He. unfold dir_names in He. apply list_elem_of_In, in_concat in He as (x & Hx & He). apply in_map_iff in Hx as ([img l] & <- & Hb). apply list_elem_of_In in Hb, He.
  apply list_elem_of_lookup in Hb as [i Hi]. unfold names_of in He. cbn [fst snd] in He. apply elem_live in He as ([o h] & Hp & Hl & ->). cbn [fst snd] in *.
  apply list_elem_of_split in Hp as (l1 & l2 & ->). exists i, o, h. split; [|done]. split; [|done]. by exists img, l1, l2.
Qed.

(** A search finds what the map says. *)
Lemma find_agrees n fs s ds l ext name dx : dir_ok dev n fs s ds l ext runs -> distinct ds -> (forall d, dx = Some d -> words_ok (dx_seed d)) ->
  match names_map (dir_names ds) !! name with
  | Some e => exists i o h, find_entry_info dev n s name dx = Ok (info_of i o h) /\ located ds name i o h /\ e = (de_ino h, de_file_type h)
  | None => find_entry_info dev n s name dx = Err ENOENT
  end.
Proof.
  intros Hd Hn Hw. pose proof (find_entry_spec dev n s ds (dir_ok_view dev _ n fs s ds l ext runs Hd) name dx Hw) as Hf.
  destruct (names_map (dir_names ds) !! name) as [e|] eqn:Em; destruct (find_entry_info dev n s name dx) as [info|err] eqn:Ef.
  - destruct Hf as (i & o & h & Hl & ->). exists i, o, h. split_and!; try done. pose proof (located_in ds name i o h Hl) as Hin. apply (names_map_lookup (dir_names ds) name (de_ino h, de_file_type h)) in Hin; [|done]. congruence.
  - exfalso. destruct Hf as [_ Hno]. apply names_map_lookup in Em; [|done]. destruct (in_located ds _ Em) as (i & o & h & Hl & _). by apply (Hno i o h).
  - exfalso. destruct Hf as (i & o & h & Hl & _). apply names_map_absent in Em. apply Em. apply list_elem_of_fmap. exists (name, de_ino h, de_file_type h). split; [done|by apply (located_in ds name i o h)].
  - by destruct Hf as [-> _].
Qed.

(** *** One call *)

Lemma perm_distinct l l' : NoDup (key <$> l) -> l ≡ₚ l' -> NoDup (key <$> l').
Proof. intros Hn Hp. by rewrite <- Hp. Qed.

Lemma names_map_cons e l : names_map (e :: l) = <[key e := (e.1.2, e.2)]> (names_map l).
Proof. done. Qed.

(** A call agrees with the map, or it fails where the map's call succeeds; a
    search never fails. *)
Definition agrees (c : dir_call) (st : dstate) (m : directory) : Prop :=
  let '(r, st') := dir_run c st in
  (r = (map_step m c).1 /\ stands_for st' (map_step m c).2) \/
  (exists e o, r = Err e /\ (map_step m c).1 = Ok o /\ match c with Find _ _ => False | Add _ _ _ => True | _ => handled e = true end).

Lemma find_step name dx st m : stands_for st m -> call_ok m (Find name dx) -> agrees (Find name dx) st m.
Proof.
  destruct st as [n [fs s]]. intros (ds & l & ext & Hd & Hx & Hn & Em) Hw. cbn [fst snd] in *. unfold agrees. cbn [dir_run map_step fst snd]. rewrite bind_eq. unfold find_entry. cbn [fst snd].
  pose proof (find_agrees n fs s ds l ext name dx Hd Hn Hw) as Hf. rewrite Em in Hf. assert (stands_for (n, (fs, s)) m) by (by exists ds, l, ext). destruct (m !! name) as [e|].
  - destruct Hf as (i & o & h & -> & _ & ->). rewrite mret_eq. by left.
  - rewrite Hf. by left.
Qed.

Lemma remove_step name dx st m : stands_for st m -> call_ok m (Remove name dx) -> agrees (Remove name dx) st m.
Proof.
  destruct st as [n [fs s]]. intros (ds & l & ext & Hd & Hx & Hn & Em) Hw. cbn [fst snd] in *. unfold agrees. cbn [dir_run map_step fst snd]. rewrite bind_eq. unfold find_entry. cbn [fst snd].
  pose proof (find_agrees n fs s ds l ext name dx Hd Hn Hw) as Hf. rewrite Em in Hf. destruct (m !! name) as [e|] eqn:El.
  2: { rewrite Hf. left. split; [done|]. by exists ds, l, ext. }
  destruct Hf as (i & o & h & -> & Hl & ->). cbn [fst snd]. destruct (delete_spec dev n fs s ds l ext runs name i o h Hd Hl) as (b & r & n' & s' & E & Hed & Hnm).
  rewrite bind_eq, E. pose proof (be_result _ _ _ _ _ _ _ _ _ _ _ _ _ _ Hed) as Hr. destruct r as [[]|e]; [|right; by eexists _, _].
  rewrite mret_eq. left. split; [done|]. pose proof (perm_distinct _ _ Hn Hnm) as Hn'. rewrite fmap_cons in Hn'. apply NoDup_cons in Hn' as [Hni Hn'].
  exists (<[i := b]> ds), l, ext. cbn [fst snd]. split_and!; try done.
  - unfold has_index. by destruct (pages_only_kept _ _ (be_inode _ _ _ _ _ _ _ _ _ _ _ _ _ _ Hed)) as [-> _].
  - rewrite <- Em. rewrite (names_map_perm _ _ Hn Hnm), names_map_cons. cbn [key fst snd]. rewrite delete_insert_id; [done|]. by apply names_map_absent.
Qed.

Lemma retarget_step name ino t st m : stands_for st m -> call_ok m (Retarget name ino t) -> agrees (Retarget name ino t) st m.
Proof.
  destruct st as [n [fs s]]. intros (ds & l & ext & Hd & Hx & Hn & Em) [Hi Hi0]. cbn [fst snd] in *. unfold agrees. cbn [dir_run map_step fst snd]. unfold overwrite_entry. rewrite !bind_eq. unfold find_entry. cbn [fst snd].
  pose proof (find_agrees n fs s ds l ext name None Hd Hn ltac:(done)) as Hf. rewrite Em in Hf. destruct (m !! name) as [e|] eqn:El.
  2: { rewrite Hf. left. split; [done|]. by exists ds, l, ext. }
  destruct Hf as (i & o & h & -> & Hl & ->). cbn [fst snd]. destruct (retarget_spec dev n fs s ds l ext runs name i o h ino t Hd Hl Hi Hi0) as (b & r & n' & s' & rest & E & Hed & Hnm & Hnm').
  rewrite E. pose proof (be_result _ _ _ _ _ _ _ _ _ _ _ _ _ _ Hed) as Hr. destruct r as [[]|e]; [|right; by eexists _, _].
  rewrite mret_eq. left. split; [done|]. pose proof (perm_distinct _ _ Hn Hnm) as Hn1. pose proof Hn1 as Hn'. rewrite fmap_cons in Hn'. apply NoDup_cons in Hn' as [Hni Hn'].
  assert (Hn2 : distinct (<[i := b]> ds)) by (unfold distinct; rewrite Hnm'; by rewrite fmap_cons in *).
  exists (<[i := b]> ds), l, ext. cbn [fst snd]. split_and!; try done.
  - unfold has_index. by destruct (pages_only_kept _ _ (be_inode _ _ _ _ _ _ _ _ _ _ _ _ _ _ Hed)) as [-> _].
  - rewrite <- Em, (names_map_perm _ _ Hn Hnm), (names_map_perm _ _ Hn2 Hnm'), !names_map_cons. cbn [key fst snd]. by rewrite insert_insert_eq.
Qed.

Lemma add_step name ino t st m : stands_for st m -> call_ok m (Add name ino t) -> agrees (Add name ino t) st m.
Proof.
  destruct st as [n [fs s]]. intros (ds & l & ext & Hd & Hx & Hn & Em) [Ha Hno]. cbn [fst snd] in *. unfold agrees. cbn [dir_run map_step fst snd]. rewrite bind_eq.
  destruct (add_new_spec dev tid n fs s ds l ext runs name ino t Hd ltac:(by rewrite Hx) Ha) as (r & n' & fs' & s' & -> & Hr). destruct r as [[]|e]; [|right; by eexists _, _].
  destruct Hr as (ds' & l' & ext' & Hd' & Hnm & _ & Hx'). rewrite mret_eq. left. split; [done|]. rewrite <- Em in Hno. apply names_map_absent in Hno.
  assert (Hn2 : distinct ds') by (unfold distinct; rewrite Hnm, fmap_cons; by constructor). exists ds', l', ext'. cbn [fst snd]. split_and!; try done; [by rewrite Hx'|].
  by rewrite (names_map_perm _ _ Hn2 Hnm), names_map_cons, Em.
Qed.

Lemma call_agrees c st m : stands_for st m -> call_ok m c -> agrees c st m.
Proof. destruct c; [by apply find_step|by apply add_step|by apply remove_step|by apply retarget_step]. Qed.

End Refine.

(** ** Edits *)

Section Edits.
Context {S : Type} `{MetaStoreOk S}.
Context (dev : device) (tid : Z).
Implicit Types s : S.

(** What an edit of the directory at block [i] leaves on the volume: one block
    differs, the one block [i] of the directory lies in; its image in the
    store is the one in memory and carries the checksum of its contents. *)
Definition edited (n : InodeInner) (fs : Ext4) (s : S) (ds : list dblock) (l : list Extent) (ext : list Z) (runs : list (Z * Z)) (i : nat) (r : result unit) (n' : InodeInner) (s' : S) (P : list dblock -> Prop) : Prop :=
  pages_only n n' /\
  (exists p, ext_map l (Z.of_nat i) = Some (p, Written) /\ forall c, c <> p -> ms_read s' c = ms_read s c) /\
  match r with
  | Ok _ => exists b, seal_ok (in_seed n) b.1 /\ dir_ok dev n' fs s' (<[i := b]> ds) l ext runs /\ P (<[i := b]> ds)
  | Err e => handled e = true
  end.

Lemma edited_of n fs s ds l ext runs i b r n' s' (P : list dblock -> Prop) : (forall sd, in_seed n = Some sd -> fits 32 (inode_seed sd)) ->
  block_edit dev (fun _ => False) n fs s ds l ext runs i b r n' s' -> P (<[i := b]> ds) -> edited n fs s ds l ext runs i r n' s' P.
Proof. intros Hs [B1 B2 B3 B4 B5] HP. split_and!; try done. destruct r as [[]|e]; [|done]. exists b. split_and!; [by apply B4|done|done]. Qed.

(** C16: Deleting, adding and retargeting an entry each rewrite one block of the
    directory.  Exactly the block of the volume it lies in changes, in the
    running transaction; the image captured there is the one the page cache
    holds and carries the right checksum; the names are the old ones without
    the deleted one, with the new one, or with the new target; and an edit
    that fails reports an error its caller handles. *)
Theorem directory_edits_local n fs s ds l ext runs name i o h :
  dir_ok dev n fs s ds l ext runs -> (forall sd, in_seed n = Some sd -> fits 32 (inode_seed sd)) ->
  (located ds name i o h -> exists r n' s', delete_entry dev (info_of i o h) (n, (fs, s)) = (r, (n', (fs, s'))) /\
     edited n fs s ds l ext runs i r n' s' (fun ds' => dir_names ds ≡ₚ (name, de_ino h, de_file_type h) :: dir_names ds')) /\
  (forall ino t, located ds name i o h -> fits 32 ino -> ino <> 0 -> exists r n' s', set_entry_target dev (info_of i o h) ino t (n, (fs, s)) = (r, (n', (fs, s'))) /\
     edited n fs s ds l ext runs i r n' s' (fun ds' => exists rest, dir_names ds ≡ₚ (name, de_ino h, de_file_type h) :: rest /\ dir_names ds' ≡ₚ (name, ino, ft_code t) :: rest)) /\
  (forall img l1 l2 ino t, ds !! i = Some ((img, l1 ++ (o, h) :: l2) : dblock) -> slot_fits (min_rec_len (zlen name)) h -> entry_args name ino ->
     exists r n' s', add_entry dev (slot_of (Z.of_nat i * BLOCK_SIZE) o h) name ino t (n, (fs, s)) = (r, (n', (fs, s'))) /\
     edited n fs s ds l ext runs i r n' s' (fun ds' => dir_names ds' ≡ₚ (name, ino, ft_code t) :: dir_names ds)).
Proof.
  intros Hd Hs. split_and!.
  - intros Hl. destruct (delete_spec dev n fs s ds l ext runs name i o h Hd Hl) as (b & r & n' & s' & E & Hed & Hn). exists r, n', s'. split; [done|by eapply edited_of].
  - intros ino t Hl Hi Hi0. destruct (retarget_spec dev n fs s ds l ext runs name i o h ino t Hd Hl Hi Hi0) as (b & r & n' & s' & rest & E & Hed & Hn). exists r, n', s'. split; [done|]. eapply edited_of; [done|done|by exists rest].
  - intros img l1 l2 ino t Hi Hf Ha. destruct (add_spec dev _ n fs s ds l ext runs name i img l1 o h l2 ino t Hd ltac:(done) Hi Hf Ha) as (b & r & n' & s' & E & Hed & Hn). exists r, n', s'. split; [done|by eapply edited_of].
Qed.

End Edits.

(** ** The index *)

(** The leaf a sorted index leads to: from a table to the block of the last
    entry whose key does not exceed the hash, level by level. *)
Inductive dx_leads (read_block : Z -> result (list byte)) (target : Z) : Z -> Z -> list byte -> Z -> Prop :=
  | leads_leaf off buf i : dx_scan buf off (get_le 2 (off + 2) buf) target i -> dx_leads read_block target 0 off buf (dx_block buf off i)
  | leads_node levels off buf i img leaf : dx_scan buf off (get_le 2 (off + 2) buf) target i -> read_block (dx_block buf off i) = Ok img ->
      dx_leads read_block target levels DX_NODE_ENTRIES_OFF img leaf -> dx_leads read_block target (levels + 1) off buf leaf.

Section Index.
Context (read_block : Z -> result (list byte)).
Context (Hread : forall b, match read_block b with Ok img => is_block img | Err e => handled e = true end).

Lemma descend_leads target : 0 <= target -> forall fuel indirect level blocks off buf leaf,
  is_block buf -> 0 <= off <= BLOCK_SIZE - 4 -> dx_sorted buf off (get_le 2 (off + 2) buf) ->
  (forall b img, read_block b = Ok img -> dx_sorted img DX_NODE_ENTRIES_OFF (get_le 2 (DX_NODE_ENTRIES_OFF + 2) img)) ->
  dx_descend read_block fuel indirect target level blocks off buf = Ok leaf -> dx_leads read_block target (indirect - level) off buf leaf.
Proof.
  intros Ht. induction fuel as [|fuel IH]; intros indirect level blocks off buf leaf Hb Ho Hs Hnodes; cbn [dx_descend];
    (destruct (dx_step_spec buf off target Hb Ho Ht) as [->|(i & -> & _ & Hi)]; [done|]); cbn [rbind]; specialize (Hi Hs).
  all: destruct (level + 1 <=? zlen blocks); [|done]; destruct (existsb _ _); [done|]; cbn [negb]; destruct (Z.eqb_spec level indirect) as [->|Hne];
    [intros [= <-]; rewrite Z.sub_diag; by apply leads_leaf|]; try done.
  destruct (level + 1 <? zlen blocks); [|done]. pose proof (Hread (dx_block buf off i)) as Hr. destruct (read_block (dx_block buf off i)) as [img|e] eqn:E; cbn [rbind]; [|done].
  intros El. apply IH in El; [|done|done|by eapply Hnodes|done]. replace (indirect - level) with (indirect - (level + 1) + 1) by lia. by eapply leads_node.
Qed.

(** C18: A lookup in the hash index is safe on any blocks, damaged ones
    included: it answers with a block number of 28 bits, with nothing when the
    hash is of an unknown kind, or with an error the caller turns into a scan;
    it neither runs out of a block nor forever.  When the tables are sorted the
    leaf it answers with is the one a scan of them leads to, and the hash it
    looks for is even and not the reserved one. *)
Theorem htree_lookup_safe name seed unsigned : words_ok seed ->
  match dx_lookup_leaf read_block name seed unsigned with
  | Ok (Some leaf) => 0 <= leaf < 2 ^ 28 /\
      exists root_block root h, read_block 0 = Ok root_block /\ parse_dx_root root_block = Ok root /\
        ext4fs_dirhash name (effective_version unsigned (hash_version root)) seed = Ok (Some h) /\ hash_ok h /\
        (dx_sorted root_block (DX_ROOT_INFO_OFF + DX_ROOT_INFO_LEN) (get_le 2 (DX_ROOT_INFO_OFF + DX_ROOT_INFO_LEN + 2) root_block) ->
         (forall b img, read_block b = Ok img -> dx_sorted img DX_NODE_ENTRIES_OFF (get_le 2 (DX_NODE_ENTRIES_OFF + 2) img)) ->
         dx_leads read_block (hash h) (indirect_levels root) (DX_ROOT_INFO_OFF + DX_ROOT_INFO_LEN) root_block leaf)
  | Ok None => True
  | Err e => handled e = true
  end.
Proof.
  intros Hs. pose proof (dx_lookup_leaf_total read_block Hread name seed unsigned Hs) as Htot. destruct (dx_lookup_leaf read_block name seed unsigned) as [[leaf|]|e] eqn:E; [|done|done]. split; [done|].
  unfold dx_lookup_leaf in E. pose proof (Hread 0) as Hr. destruct (read_block 0) as [rb|e] eqn:Er; cbn [rbind] in E; [|done]. destruct (parse_dx_root_spec rb Hr) as [Ep|(root & Ep & Hl & Hlev & _)]; rewrite Ep in E; cbn [rbind] in E; [done|].
  destruct (dirhash_total name (effective_version unsigned (hash_version root)) seed Hs) as (dh & Ed & Hd). rewrite Ed in E. cbn [rbind] in E. destruct dh as [h|]; [|done]. destruct Hd as [Hh _].
  destruct (dx_descend _ _ _ _ _ _ _ _) as [lf|e] eqn:El; cbn [rbind] in E; [|done]. injection E as ->. exists rb, root, h. split_and!; try done. intros S1 S2. rewrite Hl in El.
  apply descend_leads in El; try done; [by rewrite Z.sub_0_r in El|apply Hh].
Qed.
End Index.

(** ** Samples *)

Lemma sample_tails : tailed SampleDir.b0 /\ tailed SampleDir.b1.
Proof. split; [exists (SampleDir.recs_of (take 5 SampleDir.linear))|exists (SampleDir.recs_of (take 1 SampleDir.free))]; by vm_compute. Qed.

Lemma sample_linear_ok : dir_ok (SampleDir.dev SampleDir.b0.1 SampleDir.b1.1) (SampleDir.inode SampleDir.seed 0) SampleVolume.fs (SampleDir.store SampleDir.b0.1 SampleDir.b1.1)
  [SampleDir.b0; SampleDir.b1] SampleDir.l [] SampleDir.runs.
Proof. apply sample_dir_ok; [apply sample_b0|apply sample_b1|intros _; apply sample_tails]. Qed.

Lemma sample_linear_distinct : distinct [SampleDir.b0; SampleDir.b1].
Proof. unfold distinct. vm_decide. Qed.

Definition sample_calls : list dir_call :=
  [Find SampleDir.name_a None; Add SampleDir.name_new 15 FtFile; Remove SampleDir.name_b None; Retarget SampleDir.name_a 16 FtFile; Find SampleDir.name_b None; Find SampleDir.name_a None].


Lemma sample_located : located [SampleDir.b0; SampleDir.b1] SampleDir.name_a 0 24 (Header 12 12 1 1).
Proof.
  split; [|done]. exists SampleDir.b0.1, (SampleDir.recs_of (take 2 SampleDir.linear)), (SampleDir.recs_of (drop 3 SampleDir.linear)). split; vm_compute; reflexivity.
Qed.

Lemma sample_seed_fits sd : SampleDir.seed = Some sd -> fits 32 (inode_seed sd).
Proof. intros [= <-]. by split; vm_compute. Qed.

Lemma directory_edits_local_witness :
  let dev := SampleDir.dev SampleDir.b0.1 SampleDir.b1.1 in
  exists n' s' b, delete_entry dev (info_of 0 24 (Header 12 12 1 1)) (SampleDir.inode SampleDir.seed 0, (SampleVolume.fs, SampleDir.store SampleDir.b0.1 SampleDir.b1.1)) = (Ok tt, (n', (SampleVolume.fs, s'))) /\
    seal_ok SampleDir.seed b.1 /\ dir_names [SampleDir.b0; SampleDir.b1] ≡ₚ (SampleDir.name_a, 12, 1) :: dir_names [b; SampleDir.b1].
Proof.
  intros dev. destruct (directory_edits_local dev _ _ _ _ _ _ _ SampleDir.name_a 0 24 (Header 12 12 1 1) sample_linear_ok sample_seed_fits) as (H & _).
  destruct (H sample_located) as (r & n' & s' & E & _ & _ & Hr). assert (Er : (delete_entry dev (info_of 0 24 (Header 12 12 1 1)) (SampleDir.inode SampleDir.seed 0, (SampleVolume.fs, SampleDir.store SampleDir.b0.1 SampleDir.b1.1))).1 = Ok tt) by (vm_compute; reflexivity).
  unfold fstate in *. rewrite E in Er. cbn [fst] in Er. subst r. destruct Hr as (b & Hs & _ & Hp). exists n', s', b. split_and!; [exact E|exact Hs|exact Hp].
Defined.

Lemma sample_index_ok sd : dir_ok (SampleDir.dev SampleDir.r0.1 SampleDir.s1.1) (seedless (SampleDir.inode sd FileFlags.INDEX)) SampleVolume.fs (SampleDir.store SampleDir.r0.1 SampleDir.s1.1)
  [SampleDir.r0; SampleDir.s1] SampleDir.l [] SampleDir.runs.
Proof. change (seedless (SampleDir.inode sd FileFlags.INDEX)) with (SampleDir.inode None FileFlags.INDEX). apply sample_dir_ok; [apply sample_r0|apply sample_s1|done]. Qed.

Lemma sample_storable sd flags : flags = 0 \/ flags = FileFlags.INDEX -> storable (SampleDir.inode sd flags).
Proof. intros [->| ->]; (split; [split; try done; by vm_compute|by vm_compute]). Qed.

Lemma sample_s1_tailed : tailed SampleDir.s1.
Proof. exists (SampleDir.recs_of (SampleDir.leaf 4084)). by vm_compute. Qed.


Definition sample_read_index (b : Z) : result (list byte) := if b =? 0 then Ok SampleDir.r0.1 else Err EIO.

Lemma htree_lookup_safe_witness :
  let seed := {| w0 := 1; w1 := 2; w2 := 3; w3 := 4 |} in
  dx_lookup_leaf sample_read_index SampleDir.name_a seed false = Ok (Some 1) /\ exists h, dx_leads sample_read_index h 0 32 SampleDir.r0.1 1.
Proof.
  intros seed. assert (Hr : forall b, match sample_read_index b with Ok img => is_block img | Err e => handled e = true end) by (intros b; unfold sample_read_index; destruct (b =? 0); [apply sample_r0|done]).
  pose proof (htree_lookup_safe sample_read_index Hr SampleDir.name_a seed false ltac:(by unfold words_ok, fits)) as H.
  assert (E : dx_lookup_leaf sample_read_index SampleDir.name_a seed false = Ok (Some 1)) by (vm_compute; reflexivity). split; [exact E|]. rewrite E in H. destruct H as (_ & rb & root & h & Erb & Ep & _ & _ & Hl).
  assert (Hrb : rb = SampleDir.r0.1) by exact (f_equal (fun x => match x with Ok a => a | Err _ => rb end) (eq_sym Erb)). rewrite Hrb in *. clear Hrb Erb. assert (Hlev : (match parse_dx_root SampleDir.r0.1 with Ok r => indirect_levels r | Err _ => 1 end) = 0) by (vm_compute; reflexivity). rewrite Ep in Hlev. rewrite Hlev in Hl. exists (hash h). apply Hl.
  - unfold dx_sorted. assert (Hc : get_le 2 (DX_ROOT_INFO_OFF + DX_ROOT_INFO_LEN + 2) SampleDir.r0.1 = 1) by (vm_compute; reflexivity). rewrite Hc. intros; lia.
  - intros b img Hb. unfold sample_read_index in Hb. destruct (b =? 0); [|discriminate Hb]. assert (Hi : img = SampleDir.r0.1) by exact (f_equal (fun x => match x with Ok a => a | Err _ => img end) (eq_sym Hb)). rewrite Hi. unfold dx_sorted. assert (Hc : get_le 2 (DX_NODE_ENTRIES_OFF + 2) SampleDir.r0.1 <= 1) by (vm_compute; congruence). intros; lia.
Defined.
