(* ===== verification/Symlink.v ===== *)
(** * Symbolic links

    [InodeInner::write_link] and [read_link] of [inode/symlink.rs]: a short
    target is stored in the 60 bytes of [i_block], a longer one in a data block
    through the page cache.  The extent manager of a payload rebuilt for a long
    target has no checksum seed; its tree has one block and so no node that a
    seed would seal, and the model keeps the seed of the inode. *)

From S2P Require Import Prelude Pod Checksum JournalFormat Device Bitmap SuperBlock GroupDesc MetaStore BlockGroup Alloc AllocSpec ExtentNode ExtentMap ExtentTree ExtentWrite ExtentSpec.
From S2P Require Import ExtentManager InodeRecord InodeTable Orphan PageCache DirEntry DirBlock DirHash Htree InodeInner Dir DirSpec DirEdit DirGrow.

Section Code.
Context {S : Type} `{MetaStore S}.
Context (dev : device).

Notation dstate := (InodeInner * (Ext4 * S))%type.

(** [FastSymlinkTarget]: the target in a zeroed block area. *)
Definition fast_target (target : list byte) : list byte := splice 0 target (zeros ROOT_SIZE).

(** The fast path: the block of a previous slow target is freed first. *)
Definition free_slow_target : M dstate unit :=
  n ← inner;
  match in_payload n with
  | DataBacked _ _ _ => on_extents (truncate_to_byte_len (in_seed n) 0 (data_forget (in_desc n)))
  | _ => mret tt
  end.

Definition write_fast (target : list byte) : M dstate bool :=
  free_slow_target;;
  update_desc (fun d => remove_flags d FileFlags.EXTENTS);;
  update_desc (fun d => set_raw_block d (fast_target target));;
  update_inner (fun n => set_payload n (FastSymlink (fast_target target)));;
  set_file_size (zlen target);;
  mret false.

(** The payload for a slow target. *)
Definition make_data_backed : M dstate unit :=
  n ← inner;
  match in_payload n with
  | DataBacked _ _ _ => mret tt
  | _ =>
      p ← lift (new_data_backed 0 empty_root 0);
      update_inner (fun n => set_payload n p);;
      update_desc (fun d => insert_flags d FileFlags.EXTENTS)
  end.

Definition write_slow (target : list byte) : M dstate bool :=
  let target_len := zlen target in
  make_data_backed;;
  prepare_write dev 0 target_len;;
  on_cache dev (fun rp => write_bytes rp 0 target);;
  let end_block := div_ceil target_len BLOCK_SIZE in
  guard (end_block <? 2 ^ 32) EFBIG;;
  n ← inner;
  on_extents (mark_range_written (in_seed n) 0 end_block);;
  set_file_size target_len;;
  mret true.

(** [InodeInner::write_link]: did the target go to a data block? *)
Definition write_link (target : list byte) : M dstate bool :=
  if zlen target <? MAX_FAST_SYMLINK_LEN then write_fast target else write_slow target.

(** [InodeInner::read_link] *)
Definition read_link (n : InodeInner) (s : S) : result (list byte) :=
  let link_size := file_size n in
  match in_payload n with
  | FastSymlink target => from_utf8 (slice 0 (Z.min link_size (MAX_FAST_SYMLINK_LEN - 1)) target)
  | DataBacked pc t np =>
      let? buf := map_err (fun _ => EIO) (read_raw (read_page dev np t s) pc 0 link_size) in
      from_utf8 buf
  | NoPayload => Err EINVAL
  end.
End Code.

(** ** Lemmas *)

Section Links.
Context {S : Type} `{MetaStoreOk S}.
Context (dev : device).
Implicit Types s : S.

Definition utf8 (target : list byte) : Prop := from_utf8 target = Ok target.

(** A target that fits is kept in the inode; nothing else of the descriptor
    changes but the size, the area and the flag. *)
Lemma write_fast_spec target n fs s b n' fs' s' : zlen target < MAX_FAST_SYMLINK_LEN -> write_link dev target (n, (fs, s)) = (Ok b, (n', (fs', s'))) ->
  b = false /\ in_payload n' = FastSymlink (fast_target target) /\
  in_desc n' = set_size (set_raw_block (remove_flags (in_desc n) FileFlags.EXTENTS) (fast_target target)) (zlen target).
Proof.
  intros Hl. unfold write_link. rewrite (proj2 (Z.ltb_lt _ _)) by done. unfold write_fast. rewrite bind_eq.
  assert (forall r n1 st1, free_slow_target (n, (fs, s)) = (r, (n1, st1)) -> in_desc n1 = in_desc n) as Hk.
  { intros r n1 st1. unfold free_slow_target. rewrite bind_eq, inner_eq. destruct (in_payload n) as [pc t np| |] eqn:Ep; [|by intros [= _ <- _]..]. unfold on_extents. cbn [fst snd]. rewrite Ep. destruct (truncate_to_byte_len _ _ _ _) as [r' [t' fs1]]. by intros [= _ <- _]. }
  destruct (free_slow_target (n, (fs, s))) as [[[]|e] [n1 st1]] eqn:E; [|done]. specialize (Hk _ n1 st1 eq_refl).
  intros [= <- <- _]. cbn. by rewrite Hk.
Qed.

Lemma fast_read target n s : in_payload n = FastSymlink (fast_target target) -> file_size n = zlen target -> zlen target < MAX_FAST_SYMLINK_LEN -> utf8 target -> read_link dev n s = Ok target.
Proof.
  intros Hp Hs Hl Hu. unfold read_link. rewrite Hp, Hs, Z.min_l by (unfold MAX_FAST_SYMLINK_LEN in *; lia). pose proof (zlen_nonneg target).
  unfold fast_target. rewrite slice_splice_same; [exact Hu|..]; rewrite ?zlen_zeros by done; unfold MAX_FAST_SYMLINK_LEN, ROOT_SIZE in *; try done; lia.
Qed.

(** A link without a data block: just created, or with a target inside. *)
Definition no_data (n : InodeInner) (fs : Ext4) (s : S) (runs : list (Z * Z)) : Prop :=
  0 <= file_size n < MAX_FAST_SYMLINK_LEN /\ holds fs s runs /\
  match in_payload n with
  | DataBacked pc t _ => pc_ok pc /\ pc_size pc = 0 /\ tree_ok t fs s [] [] runs
  | _ => True
  end.

Lemma empty_tree_ok fs s runs : holds fs s runs -> tree_ok empty fs s [] [] runs.
Proof. intros Hh. split; [apply (repr_inline s empty_root); by vm_compute|by split; constructor|by apply Hh|done]. Qed.

Lemma make_data_backed_spec n fs s runs : no_data n fs s runs ->
  exists n1 pc t np, make_data_backed (n, (fs, s)) = (Ok tt, (n1, (fs, s))) /\ in_payload n1 = DataBacked pc t np /\ pc_ok pc /\ pc_size pc = 0 /\ tree_ok t fs s [] [] runs /\
    file_size n1 = file_size n /\ i_type (in_desc n1) = i_type (in_desc n).
Proof.
  intros (Hs & Hh & Hp). unfold make_data_backed. rewrite bind_eq, inner_eq. destruct (in_payload n) as [pc t np| |] eqn:Ep.
  1: { destruct Hp as (P1 & P2 & P3). exists n, pc, t, np. by rewrite mret_eq. }
  all: rewrite bind_eq, lift_eq; change (new_data_backed 0 empty_root 0) with (Ok (DataBacked (pc_new 0) empty 0)); cbv beta iota; rewrite bind_eq;
    eexists _, (pc_new 0), empty, 0; (split; [done|]); split_and!; try done; by apply empty_tree_ok.
Qed.

Lemma empty_cache pc : pc_ok pc -> pc_size pc = 0 -> pc_pages pc = ∅.
Proof.
  intros [_ _ P3] Hs. apply map_eq. intros i. rewrite lookup_empty. destruct (pc_pages pc !! i) as [p|] eqn:E; [|done]. destruct (P3 i p E) as [Hi _]. rewrite Hs in Hi. change (0 / PAGE_SIZE) with 0 in Hi. lia.
Qed.

Lemma prepare_link n fs s pc t np runs len : in_payload n = DataBacked pc t np -> pc_ok pc -> pc_size pc = 0 -> tree_ok t fs s [] [] runs ->
  i_type (in_desc n) = SymLink -> 0 <= file_size n < len -> file_size n < PAGE_SIZE -> len <= BLOCK_SIZE ->
  prepare_write dev 0 len (n, (fs, s)) =
  let '(r, (t', fs')) := ensure_allocated (in_seed n) 0 1 (t, (fs, s)) in
  (r, (set_payload n (DataBacked {| pc_size := PAGE_SIZE; pc_pages := ∅ |} t' 1), fs')).
Proof.
  intros Hp Hok Hz Ht Hty Hs Hold Hl. unfold prepare_write. rewrite bind_eq, inner_eq. change (0 / BLOCK_SIZE) with 0.
  assert (Hc : div_ceil len PAGE_SIZE = 1) by (unfold div_ceil; symmetry; apply Z.div_unique with (len - 1); unfold BLOCK_SIZE, PAGE_SIZE in *; lia).
  change BLOCK_SIZE with PAGE_SIZE in *. rewrite Hc. change (0 <? 2 ^ 32) with true. change (1 <? 2 ^ 32) with true. cbn [guard]. rewrite bind_eq, mret_eq, bind_eq, mret_eq, bind_eq.
  rewrite (proj2 (Z.ltb_lt _ _)) by lia. rewrite bind_eq, lift_eq. unfold ensure_size_within_limit. rewrite Hty, (proj2 (Z.ltb_ge _ _)) by (unfold PAGE_SIZE in *; lia). cbn [negb].
  unfold resize_page_cache. rewrite Z.min_r by lia. rewrite bind_eq.
  assert ((if file_size n mod PAGE_SIZE =? 0 then read_cache dev (fun _ _ => Ok false) else if negb (file_size n / BLOCK_SIZE <? 2 ^ 32) then read_cache dev (fun _ _ => Err EFBIG)
    else m ← mapping (file_size n / BLOCK_SIZE); mret (match m with Mapped _ _ _ => true | HoleOf _ => false end)) (n, (fs, s)) = (Ok false, (n, (fs, s)))) as ->.
  { destruct (_ =? 0); [by rewrite (read_cache_eq dev _ n fs s pc t np Hp)|]. rewrite Z.div_small by (change BLOCK_SIZE with PAGE_SIZE; lia). change (0 <? 2 ^ 32) with true. cbn [negb].
    rewrite bind_eq, (mapping_eq 0 n fs s pc t np Hp). destruct (map_blocks_spec t fs s [] [] runs 0 Ht) as (m & -> & Hm). destruct m as [p ln w|]; [|done].
    destruct Hm as [Hln Hm]. by specialize (Hm 0 ltac:(lia)). }
  unfold align_up at 1 2. rewrite Hc, bind_eq, Z.mul_1_l.
  rewrite (on_cache_eq dev _ n fs s pc t np (Ok tt) {| pc_size := PAGE_SIZE; pc_pages := ∅ |} Hp).
  - unfold set_npages, update_inner. cbn [fst snd in_payload set_payload]. unfold on_extents. cbn [fst snd in_payload set_payload]. by destruct (ensure_allocated _ _ _ _) as [r [t' fs']].
  - unfold pc_resize. rewrite Z.mod_mul by done. change (PAGE_SIZE mod PAGE_SIZE =? 0) with true. cbn [negb Z.eqb]. rewrite !andb_false_r. rewrite bind_eq, mret_eq. unfold modify, set_capacity.
    change (align_up PAGE_SIZE) with PAGE_SIZE. rewrite Hz, (empty_cache pc Hok Hz). done.
Qed.

Lemma write_slow_spec target n fs s runs b n' fs' s' : no_data n fs s runs -> i_type (in_desc n) = SymLink -> MAX_FAST_SYMLINK_LEN <= zlen target < BLOCK_SIZE ->
  write_link dev target (n, (fs, s)) = (Ok b, (n', (fs', s'))) ->
  b = true /\ file_size n' = zlen target /\ exists t' l' ext' p, in_payload n' = DataBacked {| pc_size := PAGE_SIZE; pc_pages := {[ 0 := splice 0 target (zeros PAGE_SIZE) ]} |} t' 1 /\
    tree_ok t' fs' s' l' ext' runs /\ ext_map l' 0 = Some (p, Written) /\ forall j, j <> 0 -> ext_map l' j = None.
Proof.
  intros Hn Hty Hl. unfold write_link. rewrite (proj2 (Z.ltb_ge _ _)) by lia. unfold write_slow. rewrite bind_eq.
  destruct (make_data_backed_spec n fs s runs Hn) as (n1 & pc & t & np & -> & Hp & Hok & Hz & Ht & Hs1 & Hty1). destruct Hn as (Hs & _). rewrite bind_eq. unfold MAX_FAST_SYMLINK_LEN, BLOCK_SIZE in *.
  rewrite (prepare_link n1 fs s pc t np runs (zlen target)) by (rewrite ?Hs1; unfold PAGE_SIZE, BLOCK_SIZE; congruence || done || lia).
  destruct (ensure_allocated (in_seed n1) 0 1 (t, (fs, s))) as [[[]|e] [t1 [fs1 s1]]] eqn:E1; [|done]. pose proof E1 as E1'. unfold ensure_allocated in E1. rewrite bind_eq in E1.
  destruct (fill_holes (in_seed n1) 0 1 WholeRange (t, (fs, s))) as [[fill|e] st1] eqn:Ef; [|done]. rewrite mret_eq in E1. injection E1 as ->.
  destruct (fill_holes_spec (in_seed n1) t fs s [] [] runs 0 1 WholeRange fill t1 fs1 s1 Ht ltac:(lia) ltac:(lia) Ef) as (reach & _ & (l1 & ext1 & Ht1 & Hg & _) & R3 & R4). rewrite (R4 eq_refl) in R3. cbn in R3. subst reach.
  set (pc1 := {| pc_size := PAGE_SIZE; pc_pages := ∅ |}). set (n2 := set_payload n1 (DataBacked pc1 t1 1)).
  assert (Hpg : page_is (read_page dev 1 t1 s1) pc1 0 (zeros PAGE_SIZE)).
  { split; [|done]. unfold commit_page. cbn. unfold read_page, submit_read_bio. cbn. destruct (map_blocks_spec t1 fs1 s1 l1 ext1 runs 0 Ht1) as (m & -> & Hm). cbn. destruct m as [p ln w|]; [|done].
    destruct Hm as [Hln Hm]. specialize (Hm 0 ltac:(lia)). pose proof (Hg 0) as [Hg0 _]. destruct (Hg0 ltac:(lia)) as [q Hq]. rewrite Z.add_0_r, Hq in Hm. by destruct w. }
  assert (Hok1 : pc_ok pc1) by (split; [done|done|apply map_Forall_empty]). rewrite bind_eq.
  rewrite (on_cache_eq dev _ n2 fs1 s1 pc1 t1 1 (Ok tt) (set_page pc1 0 (splice 0 target (zeros PAGE_SIZE))) eq_refl) by (apply (write_bytes_page (read_page dev 1 t1 s1) pc1 0 (zeros PAGE_SIZE) 0); unfold PAGE_SIZE; done || lia).
  assert (Hc : div_ceil (zlen target) 4096 = 1) by (unfold div_ceil; symmetry; apply Z.div_unique with (zlen target - 1); lia). rewrite Hc. change (1 <? 2 ^ 32) with true. cbn [guard]. rewrite bind_eq, mret_eq, bind_eq, inner_eq, bind_eq.
  unfold on_extents. cbn [fst snd in_payload set_payload in_seed n2]. destruct (mark_range_written (in_seed n1) 0 1 (t1, (fs1, s1))) as [[[]|e] [t2 [fs2 s2]]] eqn:E2; [|done].
  destruct (tree_grow (in_seed n1) t fs s [] [] runs 0 t1 fs1 s1 t2 fs2 s2 Ht ltac:(lia) ltac:(lia) E1' E2) as (l2 & ext2 & p & T1 & T2 & T3 & _).
  intros [= <- <- <- <-]. split; [done|]. split; [done|]. exists t2, l2, ext2, p. split_and!; try done.
Qed.

Lemma slow_read target n t s : in_payload n = DataBacked {| pc_size := PAGE_SIZE; pc_pages := {[ 0 := splice 0 target (zeros PAGE_SIZE) ]} |} t 1 -> file_size n = zlen target ->
  zlen target < BLOCK_SIZE -> utf8 target -> read_link dev n s = Ok target.
Proof.
  intros Hp Hs Hl Hu. pose proof (zlen_nonneg target). unfold read_link. rewrite Hp, Hs. set (img := splice 0 target (zeros PAGE_SIZE)) in *. unfold BLOCK_SIZE in Hl.
  assert (Hb : is_block img) by (unfold is_block, img; rewrite zlen_splice; rewrite ?zlen_zeros; unfold PAGE_SIZE, BLOCK_SIZE; done || lia).
  set (pc := {| pc_size := PAGE_SIZE; pc_pages := {[0 := img]} |}). assert (Hok : pc_ok pc) by (split; [done|done|apply map_Forall_singleton; by split]).
  pose proof (read_raw_page (read_page dev 1 t s) pc 0 img 0 (zlen target) Hok) as E. change (0 * PAGE_SIZE + 0) with 0 in E. rewrite E; try done; try (unfold PAGE_SIZE; lia).
  - cbn [map_err rbind]. unfold img. rewrite slice_splice_same; [exact Hu|..]; rewrite ?zlen_zeros by done; unfold PAGE_SIZE; try done; lia.
Qed.
End Links.
