(* ===== verification/Namespace.v ===== *)
(** * The namespace operations

    [Inode::lookup], [create], [unlink], [rmdir], [link] and [rename] of
    [inode/dir/mod.rs] with [Ext4::create_inode], [read_inode],
    [insert_inode] and [remove_inode] of [fs.rs] and the inode cache of
    [block_group.rs], on a journaled volume and under a handle that is open;
    [Inode::read_link], [write_link] and [create_symlink], without the list of
    ordered data the handle keeps; the order in which the locks are taken.

    The state is the inodes in memory, the numbers the cache reaches and the
    file system.  Each operation that locks several inodes works on their
    records, [PANIC] standing for a lock that is not held.  The readings of the
    clock, the credentials of the caller and the initialization of a new child
    are arguments.  The inode of a child that is given up stays in memory with
    no link, where the reclaim of its last reference finds it. *)

From stdpp Require Import sorting.
From S2P Require Import Prelude Pod Checksum JournalFormat Device SuperBlock MetaStore BlockGroup Alloc ExtentNode ExtentTree ExtentManager InodeRecord OrphanChain InodeTable Orphan.
From S2P Require Import PageCache DirEntry DirHash Htree InodeInner Dir Symlink.

Record NsState : Type := {
  ns_inodes : gmap Z InodeInner;
  ns_cached : gset Z;
  next_generation : Z;
}.

Definition with_inode (ns : NsState) (ino : Z) (n : InodeInner) : NsState :=
  {| ns_inodes := <[ino := n]> (ns_inodes ns); ns_cached := ns_cached ns; next_generation := next_generation ns |}.
Definition with_cached (ns : NsState) (c : gset Z) : NsState :=
  {| ns_inodes := ns_inodes ns; ns_cached := c; next_generation := next_generation ns |}.
Definition with_generation (ns : NsState) (g : Z) : NsState :=
  {| ns_inodes := ns_inodes ns; ns_cached := ns_cached ns; next_generation := g |}.

Definition MAX_LINK_COUNT : Z := 32000.

(** [DirEntryFileType::from(InodeType)] is [file_type_of]. *)
Definition is_directory (t : InodeType) : bool := match t with Dir => true | _ => false end.

(** [Inode::new] *)
Definition inode_new (fs : Ext4) (ino : Z) (desc : InodeDesc) : result InodeInner :=
  let sb := super_block fs in
  let csum_seed := if has_metadata_csum sb then Some (derive_inode (metadata_csum_seed sb) ino (i_generation desc)) else None in
  let? payload := payload_new desc in
  Ok {| in_desc := desc; in_dirty := false; in_payload := payload; in_sync_tid := None; in_datasync_tid := None; in_seed := csum_seed |}.

(** *** Locks *)

Definition MAX_MULTI_INODE_LOCKS : nat := 4.

(** [MultiInodeInnerGuards::lock]: the inodes whose locks are taken, in that
    order. *)
Fixpoint skip_repeated (prev_ino : option Z) (sorted : list Z) : list Z :=
  match sorted with
  | [] => []
  | ino :: sorted => if bool_decide (prev_ino = Some ino) then skip_repeated prev_ino sorted else ino :: skip_repeated (Some ino) sorted
  end.
Definition lock (inodes : list Z) : list Z := skip_repeated None (merge_sort Z.le (take MAX_MULTI_INODE_LOCKS inodes)).

(** [inner] and [inner_mut]: the guard of an inode. *)
Definition held_guard (entries : list Z) (ino : Z) : result Z :=
  match find (Z.eqb ino) entries with Some entry_ino => Ok entry_ino | None => Err PANIC end.

Section Operations.
Context {S : Type} `{MetaStore S}.
Context (dev : device) (tid : Z) (now : nat -> Duration).

Notation nstate := (NsState * (Ext4 * S))%type.

(** [guards.inner_mut(ino)] and [guards.inner(ino)] *)
Definition on_inode {A} (ino : Z) (m : M (InodeInner * (Ext4 * S)) A) : M nstate A := fun st =>
  match ns_inodes st.1 !! ino with
  | None => (Err PANIC, st)
  | Some n => let '(r, (n, fs)) := m (n, st.2) in (r, (with_inode st.1 ino n, fs))
  end.
Definition the_inner (ino : Z) : M nstate InodeInner := fun st =>
  match ns_inodes st.1 !! ino with Some n => (Ok n, st) | None => (Err PANIC, st) end.
Definition the_fs : M nstate Ext4 := fun st => (Ok st.2.1, st).
Definition the_type (ino : Z) : M nstate InodeType := n ← the_inner ino; mret (i_type (in_desc n)).

(** [Ext4::read_inode] with [BlockGroup::lookup_inode] *)
Definition read_inode (ino : Z) : M nstate unit := fun st =>
  match find_group st.2.1 ino with
  | Err e => (Err e, st)
  | Ok _ =>
      if bool_decide (ino ∈ ns_cached st.1) then (Ok tt, st)
      else
        match (let? desc := read_inode_desc st.2.1 st.2.2 ino in inode_new st.2.1 ino desc) with
        | Err e => (Err e, st)
        | Ok n => (Ok tt, (with_cached (with_inode st.1 ino n) ({[ ino ]} ∪ ns_cached st.1), st.2))
        end
  end.
(** [insert_inode] and [remove_inode] *)
Definition insert_inode (ino : Z) : M nstate unit := fun st =>
  match find_group st.2.1 ino with
  | Ok _ => (Ok tt, (with_cached st.1 ({[ ino ]} ∪ ns_cached st.1), st.2))
  | Err _ => (Ok tt, st)
  end.
Definition remove_inode (ino : Z) : M nstate unit := fun st =>
  match find_group st.2.1 ino with
  | Ok _ => (Ok tt, (with_cached st.1 (ns_cached st.1 ∖ {[ ino ]}), st.2))
  | Err _ => (Ok tt, st)
  end.

Definition find_in (dir : Z) (name : list byte) (dx : option DxCtx) : M nstate DirEntryInfo := on_inode dir (find_entry dev name dx).
Definition write_back (ino : Z) : M nstate unit := on_inode ino (inner_write_back tid ino).

(** [Inode::lookup] *)
Definition inode_lookup (self : Z) (name : list byte) : M nstate Z :=
  fs ← the_fs;
  entry ← find_in self name (dx_ctx (super_block fs));
  read_inode (di_ino entry);;
  mret (di_ino entry).

(** [Ext4::create_inode]: a generation is taken, the number is given back when
    a later step fails. *)
Definition take_generation : M nstate Z := fun st => (Ok (next_generation st.1), (with_generation st.1 (u32 (next_generation st.1 + 1)), st.2)).
Definition give_back {A} (ino : Z) (is_dir : bool) (e : errno) : M nstate A :=
  if handled e then ignore (on_store (fs_free_inode ino is_dir));; fail e else fail e.
Definition build_inode (ino : Z) (desc : InodeDesc) : M nstate Z := fun st =>
  let is_dir := is_directory (i_type desc) in
  match on_store (write_new_inode_desc ino desc) st with
  | (Err e, st) => give_back ino is_dir e st
  | (Ok _, st) =>
      match inode_new st.2.1 ino desc with
      | Err e => give_back ino is_dir e st
      | Ok n => (Ok ino, (with_inode st.1 ino (stamp_sync n tid), st.2))
      end
  end.
Definition create_inode (parent_ino : Z) (type_ : InodeType) (perm uid gid : Z) (seed : InodeSeed) : M nstate Z :=
  ino ← on_store (fs_alloc_ino parent_ino (is_directory type_));
  let link_count := if is_directory type_ then 2 else 1 in
  generation ← take_generation;
  build_inode ino (desc_new type_ perm uid gid link_count generation (now 0%nat) seed).

(** [Inode::create_with_seed_and_init]; [init_child] works on the child.  A
    child whose entry cannot be made loses its link. *)
Definition enter_child (self : Z) (slot : DirSlotInfo) (name : list byte) (child : Z) (type_ : InodeType) (init_child : M (InodeInner * (Ext4 * S)) unit) : M nstate unit := fun st =>
  match (on_inode child (if is_directory type_ then make_empty dev child self else init_child);;
         on_inode self (add_entry dev slot name child (file_type_of type_))) st with
  | (Err e, st) => if handled e then (on_inode child (update_desc (fun d => set_link_count d 0));; fail e) st else (Err e, st)
  | (Ok _, st) => (Ok tt, st)
  end.
Definition create_with_seed_and_init (self : Z) (name : list byte) (type_ : InodeType) (perm uid gid : Z) (seed : InodeSeed)
    (init_child : M (InodeInner * (Ext4 * S)) unit) : M nstate Z :=
  slot ← on_inode self (slot_or_grow dev (zlen name));
  child ← create_inode self type_ perm uid gid seed;
  enter_child self slot name child type_ init_child;;
  (if is_directory type_ then on_inode self (inner_inc_link_count 1) else mret tt);;
  on_inode self (set_mtime_ctime (now 1%nat));;
  write_back self;;
  write_back child;;
  insert_inode child;;
  mret child.

(** [Inode::create] and [create_with_device] *)
Definition create (self : Z) (name : list byte) (type_ : InodeType) (perm uid gid : Z) : M nstate Z :=
  match type_ with
  | File | Dir | SymLink => create_with_seed_and_init self name type_ perm uid gid ExtentRoot (mret tt)
  | NamedPipe | Socket => create_with_seed_and_init self name type_ perm uid gid Nothing (mret tt)
  | _ => fail EINVAL
  end.
Definition create_with_device (self : Z) (name : list byte) (type_ : InodeType) (perm uid gid id : Z) : M nstate Z :=
  match type_ with
  | CharDevice | BlockDevice => create_with_seed_and_init self name type_ perm uid gid (InodeRecord.Device id) (mret tt)
  | _ => fail EINVAL
  end.

(** [Inode::create_symlink] *)
Definition create_symlink (self : Z) (name : list byte) (perm uid gid : Z) (target : list byte) : M nstate Z :=
  guard (negb (BLOCK_SIZE <=? zlen target)) ENAMETOOLONG;;
  create_with_seed_and_init self name SymLink perm uid gid ExtentRoot (write_link dev target;; mret tt).

(** [Inode::read_link] and [write_link] *)
Definition inode_read_link (self : Z) : M nstate (list byte) :=
  t ← the_type self;
  guard (bool_decide (t = SymLink)) EINVAL;;
  on_inode self (fun st => (read_link dev st.1 st.2.2, st)).
Definition inode_write_link (self : Z) (target : list byte) : M nstate unit :=
  t ← the_type self;
  guard (bool_decide (t = SymLink)) EINVAL;;
  guard (negb (BLOCK_SIZE <=? zlen target)) ENAMETOOLONG;;
  on_inode self (write_link dev target);;
  on_inode self (set_mtime_ctime (now 0%nat));;
  write_back self.

(** The end of an inode's last link, shared by [unlink], [rmdir] and
    [rename]: onto the orphan list, written back, out of the cache. *)
Definition orphaned (ino : Z) : M nstate unit :=
  link ← on_store (orphan_add ino);
  on_inode ino (inner_persist_as_orphan tid ino link);;
  remove_inode ino.

(** [Inode::unlink] *)
Definition unlink (self : Z) (name : list byte) : M nstate unit :=
  fs ← the_fs;
  entry ← find_in self name (dx_ctx (super_block fs));
  let child := di_ino entry in
  read_inode child;;
  t ← the_type child;
  guard (negb (is_directory t)) EISDIR;;
  on_inode self (delete_entry dev entry);;
  on_inode self (set_mtime_ctime (now 0%nat));;
  on_inode child (inner_set_ctime (now 1%nat));;
  on_inode child (inner_dec_link_count 1);;
  n ← the_inner child;
  if i_link_count (in_desc n) =? 0 then orphaned child else write_back child.

(** [Inode::rmdir] *)
Definition rmdir (self : Z) (name : list byte) : M nstate unit :=
  fs ← the_fs;
  entry ← find_in self name (dx_ctx (super_block fs));
  let child := di_ino entry in
  read_inode child;;
  t ← the_type child;
  guard (is_directory t) ENOTDIR;;
  empty ← on_inode child (fun st => (Ok (empty_dir dev st.1 st.2.2 child), st));
  guard empty ENOTEMPTY;;
  on_inode child (inner_set_ctime (now 0%nat));;
  on_inode child (inner_dec_link_count 2);;
  n ← the_inner child;
  (if i_link_count (in_desc n) =? 0 then orphaned child else mret tt);;
  on_inode self (delete_entry dev entry);;
  on_inode self (inner_dec_link_count 1);;
  on_inode self (set_mtime_ctime (now 1%nat));;
  write_back self.

(** [Inode::link] *)
Definition link (self old : Z) (name : list byte) : M nstate unit :=
  t ← the_type old;
  n ← the_inner old;
  guard (negb (MAX_LINK_COUNT <=? i_link_count (in_desc n))) EMLINK;;
  slot ← on_inode self (slot_or_grow dev (zlen name));
  on_inode self (add_entry dev slot name old (file_type_of t));;
  on_inode self (set_mtime_ctime (now 0%nat));;
  write_back self;;
  on_inode old (inner_set_ctime (now 1%nat));;
  on_inode old (inner_inc_link_count 1);;
  write_back old.

(** [Inode::validate_rename_invariants] *)
Definition validate_rename_invariants (self old : Z) (replaced : option Z) : M nstate unit :=
  old_t ← the_type old;
  (if is_directory old_t then
     entry ← find_in old DOT_DOT_BYTE None;
     guard (di_ino entry =? self) EIO
   else mret tt);;
  match replaced with
  | None => mret tt
  | Some r =>
      t ← the_type r;
      guard (negb (is_directory old_t && negb (is_directory t))) ENOTDIR;;
      guard (negb (negb (is_directory old_t) && is_directory t)) EISDIR;;
      if is_directory t then
        empty ← on_inode r (fun st => (Ok (empty_dir dev st.1 st.2.2 r), st));
        guard empty ENOTEMPTY
      else mret tt
  end.

(** Step 4.1 of [Inode::apply_dir_mutations]: the directory entries. *)
Definition put_name (dir : Z) (replacing : bool) (name : list byte) (ino : Z) (t : DirEntryFileType) : M nstate unit :=
  on_inode dir (if replacing then overwrite_entry dev name ino t else add_new_entry dev tid name ino t).

Definition move_entries (self target old : Z) (old_name new_name : list byte) (old_info : DirEntryInfo) (old_is_dir has_replaced : bool) (t : DirEntryFileType)
  : M nstate unit :=
  fs ← the_fs;
  if self =? target then
    put_name self has_replaced new_name old t;;
    old_info ← find_in self old_name (dx_ctx (super_block fs));
    on_inode self (delete_entry dev old_info);;
    (if old_is_dir && has_replaced then on_inode self (inner_dec_link_count 1) else mret tt);;
    on_inode self (set_mtime_ctime (now 0%nat));;
    write_back self
  else
    put_name target has_replaced new_name old t;;
    (if old_is_dir && negb has_replaced then on_inode target (inner_inc_link_count 1) else mret tt);;
    on_inode target (set_mtime_ctime (now 0%nat));;
    write_back target;;
    on_inode self (delete_entry dev old_info);;
    (if old_is_dir then on_inode self (inner_dec_link_count 1) else mret tt);;
    on_inode self (set_mtime_ctime (now 1%nat));;
    write_back self.

(** Step 4.2: the inode that lost the name. *)
Definition drop_replaced (r : Z) (old_is_dir : bool) : M nstate unit :=
  on_inode r (inner_set_ctime (now 2%nat));;
  (if old_is_dir then on_inode r (inner_dec_link_count 1) else mret tt);;
  on_inode r (inner_dec_link_count 1);;
  n ← the_inner r;
  if i_link_count (in_desc n) =? 0 then orphaned r else mret tt.

(** Step 4.3: the inode that moved. *)
Definition update_moved (self target old : Z) (old_is_dir : bool) : M nstate unit :=
  fs ← the_fs;
  (if old_is_dir && negb (self =? target) then
     n ← the_inner old;
     (if has_index n && has_dir_index (super_block fs) then on_inode old (degrade_htree_to_linear dev tid) else mret tt);;
     dotdot ← find_in old DOT_DOT_BYTE None;
     on_inode old (set_entry_target dev dotdot target FtDir);;
     on_inode old (set_mtime_ctime (now 3%nat))
   else on_inode old (inner_set_ctime (now 3%nat)));;
  write_back old.

Definition apply_dir_mutations (self target old : Z) (old_name new_name : list byte) (old_info : DirEntryInfo) (replaced : option Z) : M nstate unit :=
  t ← the_type old;
  let old_is_dir := is_directory t in
  move_entries self target old old_name new_name old_info old_is_dir (is_some replaced) (file_type_of t);;
  match replaced with Some r => drop_replaced r old_is_dir | None => mret tt end;;
  update_moved self target old old_is_dir.

(** [find_entry_info(..).ok()] *)
Definition find_replaced (target : Z) (name : list byte) (dx : option DxCtx) : M nstate (option Z) := fun st =>
  match find_in target name dx st with
  | (Ok i, st) => (Ok (Some (di_ino i)), st)
  | (Err e, st) => if handled e then (Ok None, st) else (Err e, st)
  end.

(** [Inode::rename] *)
Definition rename (self : Z) (old_name : list byte) (target : Z) (new_name : list byte) : M nstate unit :=
  if (self =? target) && bool_decide (old_name = new_name) then mret tt
  else
    fs ← the_fs;
    old_info ← find_in self old_name (dx_ctx (super_block fs));
    let old := di_ino old_info in
    read_inode old;;
    found ← find_replaced target new_name (dx_ctx (super_block fs));
    match found with Some r => read_inode r | None => mret tt end;;
    validate_rename_invariants self old found;;
    apply_dir_mutations self target old old_name new_name old_info found.
End Operations.
