(* ===== verification/NsSpec.v ===== *)
(** * What the namespace operations do

    The inodes in memory, a directory among them, and the volume: the end of a
    last link, and the exact behaviour of [unlink], [link], [rename] over a file
    in the same directory, and [rmdir]. *)

From S2P Require Import Prelude Pod Checksum JournalFormat Device Bitmap SuperBlock GroupDesc MetaStore BlockGroup Alloc AllocSpec ExtentNode ExtentMap ExtentTree ExtentWrite ExtentSpec ExtentManager.
From S2P Require Import InodeRecord OrphanChain InodeTable Orphan PageCache DirEntry DirBlock DirHash Htree InodeInner Dir DirSpec DirEdit DirGrow DirDots DirInode DirDegrade DirTheorems Namespace.

(** ** Descriptors that can be stored *)

Lemma storable_set n d : storable n -> (forall x, desc_ok (set_sector_count (in_desc n) x) -> desc_ok (set_sector_count d x)) -> i_block d = i_block (in_desc n) -> i_sector_count d = i_sector_count (in_desc n) ->
  storable (set_desc n d).
Proof.
  intros [H1 H2] Hd Hb Hs. assert (E : root_and_sectors (set_desc n d) = root_and_sectors n) by (unfold root_and_sectors; cbn; destruct (in_payload n); by rewrite ?Hb, ?Hs).
  split; rewrite E; [|done]. cbn [in_desc set_desc]. by apply Hd.
Qed.

Lemma storable_ctime n t : storable n -> storable (set_desc n (set_ctime (in_desc n) t)).
Proof. intros Hs. apply storable_set; try done. intros x [D1 D2 D3 D4 D5 D6 D7 D8 D9 D10 D11]. by split. Qed.

Lemma storable_mtime_ctime n t : storable n -> storable (set_desc n (set_ctime (set_mtime (in_desc n) t) t)).
Proof. intros Hs. apply storable_set; try done. intros x [D1 D2 D3 D4 D5 D6 D7 D8 D9 D10 D11]. by split. Qed.

Lemma storable_links n c : storable n -> fits 16 c -> storable (set_desc n (set_link_count (in_desc n) c)).
Proof. intros Hs Hc. apply storable_set; try done. intros x [D1 D2 D3 D4 D5 D6 D7 D8 D9 D10 D11]. by split. Qed.

Lemma storable_orphan n link : storable n -> (forall i, link = Some i -> fits 32 i) -> storable (set_desc n (set_orphan_next (in_desc n) link)).
Proof. intros Hs Hl. apply storable_set; try done. intros x [D1 D2 D3 D4 D5 D6 D7 D8 D9 D10 D11]. split; try done. cbn. destruct link as [i|]; cbn; [by apply Hl|done]. Qed.

Lemma links_fit n : storable n -> fits 16 (i_link_count (in_desc n)).
Proof. intros [[_ _ _ _ _ _ _ D8 _ _ _] _]. exact D8. Qed.

(** ** Inodes in memory *)

Lemma with_inode_id ns ino n : ns_inodes ns !! ino = Some n -> with_inode ns ino n = ns.
Proof. intros E. destruct ns as [m c g]. unfold with_inode. cbn in *. by rewrite insert_id. Qed.

Lemma with_inode_twice ns ino a b : with_inode (with_inode ns ino a) ino b = with_inode ns ino b.
Proof. unfold with_inode. cbn. by rewrite insert_insert_eq. Qed.

Lemma inode_same ns ino n : ns_inodes (with_inode ns ino n) !! ino = Some n.
Proof. apply lookup_insert_eq. Qed.

Lemma inode_other ns ino n k : k <> ino -> ns_inodes (with_inode ns ino n) !! k = ns_inodes ns !! k.
Proof. intros Hk. by apply lookup_insert_ne. Qed.

Section Spec.
Context {S : Type} `{MetaStoreOk S}.
Context (dev : device) (tid : Z) (now : nat -> Duration).
Implicit Types s : S.

Lemma on_inode_eq {A} ino (m : M (InodeInner * (Ext4 * S)) A) ns st n r n' st' : ns_inodes ns !! ino = Some n -> m (n, st) = (r, (n', st')) ->
  on_inode ino m (ns, st) = (r, (with_inode ns ino n', st')).
Proof. intros E Em. unfold on_inode. cbn [fst snd]. by rewrite E, Em. Qed.

Lemma the_inner_eq ino ns (st : Ext4 * S) n : ns_inodes ns !! ino = Some n -> the_inner ino (ns, st) = (Ok n, (ns, st)).
Proof. intros E. unfold the_inner. cbn [fst]. by rewrite E. Qed.

Lemma the_type_eq ino ns (st : Ext4 * S) n : ns_inodes ns !! ino = Some n -> the_type ino (ns, st) = (Ok (i_type (in_desc n)), (ns, st)).
Proof. intros E. unfold the_type. rewrite bind_eq, (the_inner_eq ino ns st n E). done. Qed.

(** Only the superblock and the list change. *)
Lemma add_elsewhere fs s ino fs' s' : volume fs' s' -> fs' = set_chain (set_super fs (set_last_orphan (super_block fs) (Some ino))) (ino :: orphan_chain fs) ->
  (forall c, c <> SUPERBLOCK_BID -> ms_read s' c = ms_read s c) -> elsewhere fs s fs' s'.
Proof. intros [V1 V2 V3 V4 V5] -> Hr. split; try done. intros c Hc. apply Hr. intros ->. apply Hc. by left. Qed.

Lemma elsewhere_trans fs s fs1 s1 fs2 s2 : elsewhere fs s fs1 s1 -> elsewhere fs1 s1 fs2 s2 -> elsewhere fs s fs2 s2.
Proof.
  intros [A1 A2 A3 A4 [A5 A6] A7 A8] [B1 B2 B3 B4 [B5 B6] B7 B8]. split; try done; [by rewrite B4|split; congruence| |by rewrite B8]. intros c Hc. rewrite B7; [by apply A7|]. unfold fs_system in *. by rewrite A4.
Qed.

(** What the stored record says of the links. *)
Lemma stamped_links fs ino d root raw : stamp_of fs ino (to_raw_inode (listed_desc fs ino d) root) raw -> ri_link_count raw = i_link_count d.
Proof. intros (_ & _ & (lo & hi & ->) & _). unfold listed_desc. by destruct (successor_of (orphan_chain fs) ino). Qed.

(** The state of one inode after its last link went, or after a write-back. *)
Record settled (fs : Ext4) (s : S) (ino : Z) (n : InodeInner) (fs' : Ext4) (s' : S) (n' : InodeInner) : Prop := {
  se_elsewhere : elsewhere fs s fs' s';
  se_volume : volume fs' s';
  se_orphans : orphans_ok fs' s';
  se_links : i_link_count (in_desc n') = i_link_count (in_desc n);
  se_stored : exists raw, read_raw_inode fs' s' ino = Ok raw /\ ri_link_count raw = i_link_count (in_desc n);
  se_others k : valid_ino fs k -> k <> ino -> read_raw_inode fs' s' k = read_raw_inode fs s k;
}.

Lemma persist_spec fs s but ino n d r n' s' : volume fs s -> tables_whole fs -> orphans_but fs s but -> (but = None \/ but = Some ino) -> valid_ino fs ino ->
  storable (set_desc n d) -> inner_write_back tid ino (set_desc n d, (fs, s)) = (r, (n', (fs, s'))) ->
  match r with Ok _ => settled fs s ino (set_desc n d) fs s' n' /\ same_dir (set_desc n d) n' | Err e => handled e = true end.
Proof.
  intros V Hw Ho Hb Hi Hs E. destruct (inner_write_back_spec tid (set_desc n d) fs s but ino V Hw Ho Hi Hs) as (r1 & n1 & s1 & E1 & He & Hsd & V1 & _ & Hl & Hoth & Hr). rewrite E in E1. injection E1 as <- <- <-.
  destruct r as [[]|e]; [|apply Hr]. destruct Hr as (_ & Ho1 & Hraw). assert (Edirty : is_dirty (set_desc n d) = true) by done. rewrite Edirty in *. destruct (Hraw eq_refl) as (raw & Rr & Hst).
  split; [|done]. split; try done; [|exists raw; split; [done|]; by apply stamped_links in Hst].
  destruct Hb as [->| ->]; [rewrite decide_False in Ho1 by done|rewrite decide_True in Ho1 by done]; exact Ho1.
Qed.

Lemma orphaned_spec ns fs s ino n : volume fs s -> tables_whole fs -> orphans_ok fs s -> valid_ino fs ino -> ns_inodes ns !! ino = Some n -> storable n ->
  exists r ns' fs' s', orphaned tid ino (ns, (fs, s)) = (r, (ns', (fs', s'))) /\
  match r with
  | Ok _ => exists n', ns' = with_cached (with_inode ns ino n') (ns_cached ns ∖ {[ ino ]}) /\ settled fs s ino n fs' s' n' /\
      orphan_chain fs' = if decide (ino ∈ orphan_chain fs) then orphan_chain fs else ino :: orphan_chain fs
  | Err e => handled e = true
  end.
Proof.
  intros V Hw Ho Hi Hn Hs. unfold orphaned. rewrite bind_eq, on_store_eq. cbn [fst snd]. destruct (orphan_add_spec fs s ino V Ho Hi) as (r & fs1 & s1 & -> & Hc & Hraw & Hr). cbn [fst snd].
  destruct r as [lk|e]; [|exists (Err e), ns, fs1, s1; split; [done|apply Hr]].
  assert (exists but, volume fs1 s1 /\ tables_whole fs1 /\ elsewhere fs s fs1 s1 /\ (forall k, valid_ino fs k -> valid_ino fs1 k) /\ orphans_but fs1 s1 but /\ (but = None \/ but = Some ino) /\ (forall i, lk = Some i -> fits 32 i) /\
    (forall k, valid_ino fs k -> read_raw_inode fs1 s1 k = read_raw_inode fs s k) /\ orphan_chain fs1 = if decide (ino ∈ orphan_chain fs) then orphan_chain fs else ino :: orphan_chain fs) as (but & V1 & Hw1 & He1 & Hval & Ho1 & Hb & Hlk & Hraw1 & Hch).
  { pose proof (oo_valid _ _ _ Ho) as Hv. unfold chain_valid in Hv. rewrite Forall_forall in Hv. case_decide as Hin.
    - destruct Hr as (-> & -> & Hsu). exists None. destruct V as [Vf Vt Vs Vk Vc]. split_and!; try done; [by left|]. intros i ->. apply (valid_ino_fits fs Vf), Hv. by apply successor_in in Hsu.
    - destruct Hr as (-> & -> & V1 & Ho1). exists (Some ino). split_and!; try done; [by eapply add_elsewhere|by right|]. intros i Ei. apply (valid_ino_fits fs (vo_fs _ _ V)), Hv. destruct (orphan_chain fs); [done|]. injection Ei as <-. set_solver. }
  pose proof (Hval ino Hi) as Hi1. rewrite bind_eq. unfold inner_persist_as_orphan.
  destruct (inner_write_back tid ino (set_desc n (set_orphan_next (in_desc n) lk), (fs1, s1))) as [r2 [n2 [fs2 s2]]] eqn:E2.
  rewrite (on_inode_eq ino _ ns (fs1, s1) n r2 n2 (fs2, s2) Hn) by (rewrite bind_eq; exact E2).
  assert (fs2 = fs1) as ->. { destruct (inner_write_back_spec tid (set_desc n (set_orphan_next (in_desc n) lk)) fs1 s1 but ino V1 Hw1 Ho1 Hi1 (storable_orphan n lk Hs Hlk)) as (? & ? & ? & E3 & _). rewrite E2 in E3. by injection E3. }
  pose proof (persist_spec fs1 s1 but ino n _ r2 n2 s2 V1 Hw1 Ho1 Hb Hi1 (storable_orphan n lk Hs Hlk) E2) as Hp. destruct r2 as [[]|e]; [|by exists (Err e), (with_inode ns ino n2), fs1, s2].
  destruct Hp as [[P1 P2 P3 P4 P5 P6] _]. exists (Ok tt), (with_cached (with_inode ns ino n2) (ns_cached ns ∖ {[ino]})), fs1, s2.
  split; [unfold remove_inode; cbn [fst snd]; by destruct (valid_find fs1 ino (vo_fs _ _ V1) Hi1) as (i & g & md & -> & _)|]. exists n2. split_and!; try done. split; try done; [by eapply elsewhere_trans|].
  intros k Hk Hne. rewrite P6; [by apply Hraw1|by apply Hval|done].
Qed.

(** *** [unlink] *)

Definition hash_words (fs : Ext4) : Prop := forall d, dx_ctx (super_block fs) = Some d -> words_ok (dx_seed d).

(** An inode of the volume that is in memory. *)
Record in_memory (ns : NsState) (fs : Ext4) (ino : Z) (n : InodeInner) : Prop := {
  im_inode : ns_inodes ns !! ino = Some n;
  im_cached : ino ∈ ns_cached ns;
  im_valid : valid_ino fs ino;
  im_storable : storable n;
}.

Lemma read_inode_cached ns fs s ino n : fs_ok fs -> in_memory ns fs ino n -> read_inode ino (ns, (fs, s)) = (Ok tt, (ns, (fs, s))).
Proof.
  intros Hf [_ Hc Hv _]. unfold read_inode. cbn [fst snd]. destruct (valid_find fs ino Hf Hv) as (i & g & md & -> & _). by rewrite bool_decide_eq_true_2.
Qed.

(** The volume after a directory lost an entry. *)
Lemma delete_in ns fs s self nd ds l ext runs name i o h : ns_inodes ns !! self = Some nd -> dir_ok dev nd fs s ds l ext runs -> volume fs s -> tables_whole fs -> orphans_ok fs s -> located ds name i o h ->
  exists r nd1 s1, on_inode self (delete_entry dev (info_of i o h)) (ns, (fs, s)) = (r, (with_inode ns self nd1, (fs, s1))) /\
  match r with
  | Ok _ => pages_only nd nd1 /\ volume fs s1 /\ orphans_ok fs s1 /\ (forall k, valid_ino fs k -> read_raw_inode fs s1 k = read_raw_inode fs s k) /\
      exists ds1, dir_ok dev nd1 fs s1 ds1 l ext runs /\ dir_names ds ≡ₚ (name, de_ino h, de_file_type h) :: dir_names ds1
  | Err e => handled e = true
  end.
Proof.
  intros Hn Hd V Hw Ho Hl. destruct (delete_spec dev nd fs s ds l ext runs name i o h Hd Hl) as (b & r & nd1 & s1 & E & Hed & Hnm). exists r, nd1, s1. split; [by apply (on_inode_eq self _ ns (fs, s) nd)|].
  pose proof (be_result _ _ _ _ _ _ _ _ _ _ _ _ _ _ Hed) as Hr. destruct r as [[]|e]; [|done]. pose proof (edit_system dev _ _ _ _ _ _ _ _ _ _ _ _ _ _ Hd Hed) as Hk.
  destruct (volume_kept fs s s1 V Hw Hk) as [V1 Hraw]. split_and!; try done; [by apply (be_inode _ _ _ _ _ _ _ _ _ _ _ _ _ _ Hed)|by apply (orphans_kept fs s s1)|]. by exists (<[i := b]> ds).
Qed.

(** What [unlink] leaves. *)
Record unlinked_name (ns : NsState) (fs : Ext4) (s : S) (self : Z) (ds : list dblock) (l : list Extent) (ext : list Z) (runs : list (Z * Z))
    (name : list byte) (child ft : Z) (nc : InodeInner) (ns' : NsState) (fs' : Ext4) (s' : S) : Prop := {
  ul_dir : exists nd' nc' ds', ns_inodes ns' = <[child := nc']> (<[self := nd']> (ns_inodes ns)) /\ dir_ok dev nd' fs' s' ds' l ext runs /\
    dir_names ds ≡ₚ (name, child, ft) :: dir_names ds' /\ i_link_count (in_desc nc') = sat_sub (i_link_count (in_desc nc)) 1;
  ul_volume : volume fs' s' /\ orphans_ok fs' s';
  ul_stored : exists raw, read_raw_inode fs' s' child = Ok raw /\ ri_link_count raw = sat_sub (i_link_count (in_desc nc)) 1;
  ul_others k : valid_ino fs k -> k <> child -> read_raw_inode fs' s' k = read_raw_inode fs s k;
  ul_last : if sat_sub (i_link_count (in_desc nc)) 1 =? 0
    then ns_cached ns' = ns_cached ns ∖ {[ child ]} /\ orphan_chain fs' = (if decide (child ∈ orphan_chain fs) then orphan_chain fs else child :: orphan_chain fs)
    else ns_cached ns' = ns_cached ns /\ orphan_chain fs' = orphan_chain fs;
}.

Lemma unlink_spec ns fs s self nd ds l ext runs name child ft nc :
  volume fs s -> tables_whole fs -> orphans_ok fs s -> hash_words fs ->
  ns_inodes ns !! self = Some nd -> dir_ok dev nd fs s ds l ext runs -> distinct ds -> names_map (dir_names ds) !! name = Some (child, ft) ->
  in_memory ns fs child nc -> child <> self -> i_type (in_desc nc) <> InodeRecord.Dir ->
  exists r ns' fs' s', unlink dev tid now self name (ns, (fs, s)) = (r, (ns', (fs', s'))) /\
  match r with
  | Ok _ => unlinked_name ns fs s self ds l ext runs name child ft nc ns' fs' s'
  | Err e => handled e = true
  end.
Proof.
  intros V Hw Ho Hh Hn Hd Hdis Hname Hc Hne Hty. pose proof (find_agrees dev runs nd fs s ds l ext name (dx_ctx (super_block fs)) Hd Hdis Hh) as Hf. rewrite Hname in Hf. destruct Hf as (i & o & h & Ef & Hl & Eh).
  unfold unlink. rewrite bind_eq. unfold the_fs at 1. cbn [fst snd]. rewrite bind_eq. unfold find_in.
  rewrite (on_inode_eq self (find_entry dev name (dx_ctx (super_block fs))) ns (fs, s) nd (Ok (info_of i o h)) nd (fs, s) Hn) by (unfold find_entry; cbn [fst snd]; by rewrite Ef). rewrite (with_inode_id ns self nd Hn).
  change (di_ino (info_of i o h)) with (de_ino h). assert (de_ino h = child /\ de_file_type h = ft) as [Eino Eft] by (split; congruence). rewrite Eino.
  rewrite bind_eq, (read_inode_cached ns fs s child nc (vo_fs _ _ V) Hc), bind_eq, (the_type_eq child ns (fs, s) nc (im_inode _ _ _ _ Hc)).
  assert (is_directory (i_type (in_desc nc)) = false) as -> by (by destruct (i_type (in_desc nc))). cbn [negb guard]. rewrite bind_eq, mret_eq, bind_eq.
  destruct (delete_in ns fs s self nd ds l ext runs name i o h Hn Hd V Hw Ho Hl) as (r & nd1 & s1 & -> & Hr). destruct r as [[]|e]; [|by exists (Err e), (with_inode ns self nd1), fs, s1].
  destruct Hr as (Hp1 & V1 & Ho1 & Hraw1 & ds1 & Hd1 & Hnm). rewrite Eino, Eft in Hnm. rewrite bind_eq.
  set (nd2 := set_desc nd1 (set_ctime (set_mtime (in_desc nd1) (now 0%nat)) (now 0%nat))).
  rewrite (on_inode_eq self _ _ (fs, s1) nd1 (Ok tt) nd2 (fs, s1) (inode_same _ _ _)) by done. rewrite with_inode_twice.
  assert (Hc2 : ns_inodes (with_inode ns self nd2) !! child = Some nc) by (rewrite inode_other by done; apply Hc).
  set (nc1 := set_desc nc (set_ctime (in_desc nc) (now 1%nat))). set (nc2 := set_desc nc1 (dec_link_count (in_desc nc1) 1)).
  rewrite bind_eq, (on_inode_eq child _ _ (fs, s1) nc (Ok tt) nc1 (fs, s1) Hc2) by done. rewrite bind_eq, (on_inode_eq child _ _ (fs, s1) nc1 (Ok tt) nc2 (fs, s1) (inode_same _ _ _)) by done.
  rewrite with_inode_twice. set (ns2 := with_inode (with_inode ns self nd2) child nc2). rewrite bind_eq, (the_inner_eq child ns2 (fs, s1) nc2 (inode_same _ _ _)).
  assert (Hst2 : storable nc2). { apply storable_links; [by apply storable_ctime, Hc|]. pose proof (links_fit nc (im_storable _ _ _ _ Hc)) as Hf. unfold fits, sat_sub in *. cbn. lia. }
  assert (Hd2 : dir_ok dev nd2 fs s1 ds1 l ext runs). { destruct V1 as [W1 W2 W3 W4 W5]. eapply dir_elsewhere; [by apply (elsewhere_reads fs s1 s1)|by apply same_dir_desc|exact Hd1]. }
  assert (Hlinks : i_link_count (in_desc nc2) = sat_sub (i_link_count (in_desc nc)) 1) by done. rewrite Hlinks.
  assert (Hfin : forall fs' s' nc', settled fs s1 child nc2 fs' s' nc' -> exists nd' nc'' ds', <[child := nc']> (ns_inodes ns2) = <[child := nc'']> (<[self := nd']> (ns_inodes ns)) /\ dir_ok dev nd' fs' s' ds' l ext runs /\
    dir_names ds ≡ₚ (name, child, ft) :: dir_names ds' /\ i_link_count (in_desc nc'') = sat_sub (i_link_count (in_desc nc)) 1).
  { intros fs' s' nc' [P1 P2 P3 P4 P5 P6]. exists nd2, nc', ds1. split_and!; [unfold ns2, with_inode; cbn; by rewrite insert_insert_eq| |done|by rewrite P4]. eapply dir_elsewhere; [exact P1|apply same_dir_refl|exact Hd2]. }
  destruct (Z.eqb_spec (sat_sub (i_link_count (in_desc nc)) 1) 0) as [E0|E0].
  - destruct (orphaned_spec ns2 fs s1 child nc2 V1 Hw Ho1 (im_valid _ _ _ _ Hc) (inode_same _ _ _) Hst2) as (r & ns' & fs' & s' & E & Hr). exists r, ns', fs', s'. split; [exact E|]. destruct r as [[]|e]; [|done].
    destruct Hr as (nc' & -> & Hse & Hch). pose proof Hse as [P1 P2 P3 P4 P5 P6]. split; try done; [by apply Hfin| |by rewrite E0].
    intros k Hk Hkc. rewrite P6 by done. by apply Hraw1.
  - unfold write_back. destruct (inner_write_back tid child (nc2, (fs, s1))) as [r [nc' [fs' s']]] eqn:E.
    rewrite (on_inode_eq child _ ns2 (fs, s1) nc2 r nc' (fs', s') (inode_same _ _ _) E). exists r, (with_inode ns2 child nc'), fs', s'. split; [done|].
    assert (fs' = fs) as ->. { destruct (inner_write_back_spec tid nc2 fs s1 None child V1 Hw Ho1 (im_valid _ _ _ _ Hc) Hst2) as (? & ? & ? & E3 & _). rewrite E in E3. by injection E3. }
    pose proof (persist_spec fs s1 None child nc1 _ r nc' s' V1 Hw Ho1 ltac:(by left) (im_valid _ _ _ _ Hc) Hst2 E) as Hp. destruct r as [[]|e]; [|done]. destruct Hp as [Hse _]. pose proof Hse as [P1 P2 P3 P4 P5 P6].
    split; try done; [by apply (Hfin fs s' nc')| |by rewrite (proj2 (Z.eqb_neq _ _))]. intros k Hk Hkc. rewrite P6 by done. by apply Hraw1.
Qed.

(** *** [link] *)

(** The volume after a directory got an entry in a slot it had. *)
Lemma add_in ns fs s self nd ds l ext runs name i img l1 o h l2 ino t : ns_inodes ns !! self = Some nd -> dir_ok dev nd fs s ds l ext runs -> volume fs s -> tables_whole fs -> orphans_ok fs s ->
  ds !! i = Some ((img, l1 ++ (o, h) :: l2) : dblock) -> slot_fits (min_rec_len (zlen name)) h -> entry_args name ino ->
  exists r nd1 s1, on_inode self (add_entry dev (slot_of (Z.of_nat i * BLOCK_SIZE) o h) name ino t) (ns, (fs, s)) = (r, (with_inode ns self nd1, (fs, s1))) /\
  match r with
  | Ok _ => pages_only nd nd1 /\ volume fs s1 /\ orphans_ok fs s1 /\ (forall k, valid_ino fs k -> read_raw_inode fs s1 k = read_raw_inode fs s k) /\
      exists b, dir_ok dev nd1 fs s1 (<[i := b]> ds) l ext runs /\ dir_names (<[i := b]> ds) ≡ₚ (name, ino, ft_code t) :: dir_names ds /\ b.1 = sealed (in_seed nd) (placed_img img o h name ino (ft_code t))
  | Err e => handled e = true
  end.
Proof.
  intros Hn Hd V Hw Ho Hi Hf Ha. destruct (add_at_spec dev _ nd fs s ds l ext runs name i img l1 o h l2 ino t Hd ltac:(done) Hi Hf Ha) as (b & r & nd1 & s1 & E & Hed & Hnm & Himg). exists r, nd1, s1. split; [by apply (on_inode_eq self _ ns (fs, s) nd)|].
  pose proof (be_result _ _ _ _ _ _ _ _ _ _ _ _ _ _ Hed) as Hr. destruct r as [[]|e]; [|done]. pose proof (edit_system dev _ _ _ _ _ _ _ _ _ _ _ _ _ _ Hd Hed) as Hk.
  destruct (volume_kept fs s s1 V Hw Hk) as [V1 Hraw]. split_and!; try done; [by apply (be_inode _ _ _ _ _ _ _ _ _ _ _ _ _ _ Hed)|by apply (orphans_kept fs s s1)|]. by exists b.
Qed.

(** A write-back of one inode among those in memory. *)
Lemma write_back_in ns fs s ino n d : volume fs s -> tables_whole fs -> orphans_ok fs s -> valid_ino fs ino -> ns_inodes ns !! ino = Some (set_desc n d) -> storable (set_desc n d) ->
  exists r n' s', write_back tid ino (ns, (fs, s)) = (r, (with_inode ns ino n', (fs, s'))) /\
  match r with Ok _ => settled fs s ino (set_desc n d) fs s' n' /\ same_dir (set_desc n d) n' /\ i_flags (in_desc n') = i_flags d | Err e => handled e = true end.
Proof.
  intros V Hw Ho Hi Hn Hs. destruct (inner_write_back_spec tid (set_desc n d) fs s None ino V Hw Ho Hi Hs) as (r & n' & s' & E & _ & _ & _ & Hfl & _). exists r, n', s'. split; [by apply (on_inode_eq ino _ ns (fs, s) (set_desc n d))|].
  pose proof (persist_spec fs s None ino n d r n' s' V Hw Ho ltac:(by left) Hi Hs E) as Hp. destruct r as [[]|e]; [|done]. by destruct Hp.
Qed.

(** What [link] leaves. *)
Record linked_name (ns : NsState) (fs : Ext4) (s : S) (self : Z) (nd : InodeInner) (ds : list dblock) (l : list Extent) (ext : list Z) (runs : list (Z * Z))
    (slot : DirSlotInfo) (name : list byte) (old : Z) (no : InodeInner) (ns' : NsState) (s' : S) : Prop := {
  ln_dir : exists nd' no' i img l1 o h l2 b, ns_inodes ns' = <[old := no']> (<[self := nd']> (ns_inodes ns)) /\ dir_ok dev nd' fs s' (<[i := b]> ds) l ext runs /\
    dir_names (<[i := b]> ds) ≡ₚ (name, old, ft_code (file_type_of (i_type (in_desc no)))) :: dir_names ds /\
    ds !! i = Some ((img, l1 ++ (o, h) :: l2) : dblock) /\ slot = slot_of (Z.of_nat i * BLOCK_SIZE) o h /\
    b.1 = sealed (in_seed nd) (placed_img img o h name old (ft_code (file_type_of (i_type (in_desc no))))) /\
    has_index nd' = has_index nd /\ i_link_count (in_desc no') = i_link_count (in_desc no) + 1;
  ln_volume : volume fs s' /\ orphans_ok fs s';
  ln_stored : exists raw, read_raw_inode fs s' old = Ok raw /\ ri_link_count raw = i_link_count (in_desc no) + 1;
  ln_others k : valid_ino fs k -> k <> old -> k <> self -> read_raw_inode fs s' k = read_raw_inode fs s k;
  ln_cached : ns_cached ns' = ns_cached ns;
}.

Lemma link_spec ns fs s self nd ds l ext runs name old no slot :
  volume fs s -> tables_whole fs -> orphans_ok fs s -> in_memory ns fs self nd -> dir_ok dev nd fs s ds l ext runs -> find_dir_slot dev nd s (zlen name) = Ok (Some slot) ->
  in_memory ns fs old no -> old <> self -> 0 < zlen name <= NAME_MAX -> i_link_count (in_desc no) < MAX_LINK_COUNT ->
  exists r ns' s', link dev tid now self old name (ns, (fs, s)) = (r, (ns', (fs, s'))) /\
  match r with
  | Ok _ => linked_name ns fs s self nd ds l ext runs slot name old no ns' s'
  | Err e => handled e = true
  end.
Proof.
  intros V Hw Ho Hs Hd Hslot Hc Hne Hname Hmax. unfold link. rewrite bind_eq, (the_type_eq old ns (fs, s) no (im_inode _ _ _ _ Hc)), bind_eq, (the_inner_eq old ns (fs, s) no (im_inode _ _ _ _ Hc)).
  rewrite (proj2 (Z.leb_gt _ _)) by done. cbn [negb guard]. rewrite bind_eq, mret_eq, bind_eq.
  rewrite (on_inode_eq self (slot_or_grow dev (zlen name)) ns (fs, s) nd (Ok slot) nd (fs, s) (im_inode _ _ _ _ Hs)) by (unfold slot_or_grow; rewrite bind_eq; unfold find_slot; cbn [fst snd]; by rewrite Hslot).
  rewrite (with_inode_id ns self nd (im_inode _ _ _ _ Hs)). destruct (find_slot_spec dev nd s ds (dir_ok_view dev _ nd fs s ds l ext runs Hd) (zlen name)) as ([sl|] & Es & Hr); rewrite Hslot in Es; [|done]. injection Es as <-.
  destruct Hr as (i & img & l1 & o & h & l2 & Hi & Hf & ->). assert (Ha : entry_args name old) by (split; [done|split; [by apply (valid_ino_fits fs (vo_fs _ _ V)), Hc|destruct Hc as [_ _ Hv _]; unfold valid_ino in Hv; lia]]).
  rewrite bind_eq. destruct (add_in ns fs s self nd ds l ext runs name i img l1 o h l2 old (file_type_of (i_type (in_desc no))) (im_inode _ _ _ _ Hs) Hd V Hw Ho Hi Hf Ha) as (r & nd1 & s1 & -> & Hr). destruct r as [[]|e]; [|by eexists _, _, s1].
  destruct Hr as (Hp1 & V1 & Ho1 & Hraw1 & b & Hd1 & Hnm & Himg). destruct (pages_only_kept _ _ Hp1) as (Ed1 & _ & Er1 & _).
  rewrite bind_eq. set (d2 := set_ctime (set_mtime (in_desc nd1) (now 0%nat)) (now 0%nat)). rewrite (on_inode_eq self _ _ (fs, s1) nd1 (Ok tt) (set_desc nd1 d2) (fs, s1) (inode_same _ _ _)) by done. rewrite with_inode_twice, bind_eq.
  assert (Hst1 : storable nd1) by (destruct (im_storable _ _ _ _ Hs) as [X1 X2]; split; rewrite Er1, ?Ed1; done).
  destruct (write_back_in (with_inode ns self (set_desc nd1 d2)) fs s1 self nd1 d2 V1 Hw Ho1 (im_valid _ _ _ _ Hs) (inode_same _ _ _) (storable_mtime_ctime nd1 _ Hst1)) as (r & nd3 & s3 & -> & Hr). destruct r as [[]|e]; [|by eexists _, _, s3].
  destruct Hr as ([P1 P2 P3 _ _ P6] & Hsd & Hfl). rewrite with_inode_twice.
  assert (Hc2 : ns_inodes (with_inode ns self nd3) !! old = Some no) by (rewrite inode_other by done; apply Hc).
  set (no1 := set_desc no (set_ctime (in_desc no) (now 1%nat))). rewrite bind_eq, (on_inode_eq old _ _ (fs, s3) no (Ok tt) no1 (fs, s3) Hc2) by done.
  set (d4 := set_link_count (in_desc no1) (i_link_count (in_desc no) + 1)). pose proof (links_fit no (im_storable _ _ _ _ Hc)) as Hlf.
  rewrite bind_eq, (on_inode_eq old _ _ (fs, s3) no1 (Ok tt) (set_desc no1 d4) (fs, s3) (inode_same _ _ _)).
  2: { unfold inner_inc_link_count, inc_link_count. change (i_link_count (in_desc (no1, (fs, s3)).1)) with (i_link_count (in_desc no)). assert (fitsb 16 (i_link_count (in_desc no) + 1) = true) as -> by (apply fitsb_spec; unfold fits, MAX_LINK_COUNT in *; lia). done. }
  rewrite !with_inode_twice. set (ns4 := with_inode (with_inode ns self nd3) old (set_desc no1 d4)).
  destruct (write_back_in ns4 fs s3 old no1 d4 P2 Hw P3 (im_valid _ _ _ _ Hc) (inode_same _ _ _)) as (r & no5 & s5 & -> & Hr).
  { apply storable_links; [by apply storable_ctime, Hc|]. unfold fits, MAX_LINK_COUNT in *. lia. } destruct r as [[]|e]; [|by eexists _, _, s5].
  destruct Hr as ([Q1 Q2 Q3 Q4 Q5 Q6] & _). exists (Ok tt), (with_inode ns4 old no5), s5. split; [done|]. split; try done.
  - exists nd3, no5, i, img, l1, o, h, l2, b. split_and!; try done; [unfold ns4, with_inode; cbn; by rewrite insert_insert_eq| |unfold has_index; by rewrite Hfl, <- Ed1].
    eapply dir_elsewhere; [exact Q1|apply same_dir_refl|]. eapply dir_elsewhere; [exact P1|exact Hsd|]. destruct V1 as [W1 W2 W3 W4 W5]. eapply dir_elsewhere; [by apply (elsewhere_reads fs s1 s1)|by apply same_dir_desc|exact Hd1].
  - intros k Hk Hko Hks. rewrite Q6, P6 by done. by apply Hraw1.
Qed.

(** *** [rename] over a name of the same directory *)

Lemma overwrite_in ns fs s self nd ds l ext runs name r ft ino t : ns_inodes ns !! self = Some nd -> dir_ok dev nd fs s ds l ext runs -> volume fs s -> tables_whole fs -> orphans_ok fs s -> distinct ds ->
  names_map (dir_names ds) !! name = Some (r, ft) -> fits 32 ino -> ino <> 0 ->
  exists res nd1 s1, on_inode self (overwrite_entry dev name ino t) (ns, (fs, s)) = (res, (with_inode ns self nd1, (fs, s1))) /\
  match res with
  | Ok _ => pages_only nd nd1 /\ volume fs s1 /\ orphans_ok fs s1 /\ (forall k, valid_ino fs k -> read_raw_inode fs s1 k = read_raw_inode fs s k) /\
      exists ds1 rest, dir_ok dev nd1 fs s1 ds1 l ext runs /\ dir_names ds ≡ₚ (name, r, ft) :: rest /\ dir_names ds1 ≡ₚ (name, ino, ft_code t) :: rest
  | Err e => handled e = true
  end.
Proof.
  intros Hn Hd V Hw Ho Hdis Hname Hi Hi0. pose proof (find_agrees dev runs nd fs s ds l ext name None Hd Hdis ltac:(done)) as Hf. rewrite Hname in Hf. destruct Hf as (i & o & h & Ef & Hl & [= -> ->]).
  destruct (retarget_spec dev nd fs s ds l ext runs name i o h ino t Hd Hl Hi Hi0) as (b & res & nd1 & s1 & rest & E & Hed & Hn1 & Hn2). exists res, nd1, s1.
  split; [apply (on_inode_eq self _ ns (fs, s) nd); [done|]; unfold overwrite_entry; rewrite bind_eq; unfold find_entry; cbn [fst snd]; by rewrite Ef|].
  pose proof (be_result _ _ _ _ _ _ _ _ _ _ _ _ _ _ Hed) as Hr. destruct res as [[]|e]; [|done]. pose proof (edit_system dev _ _ _ _ _ _ _ _ _ _ _ _ _ _ Hd Hed) as Hk.
  destruct (volume_kept fs s s1 V Hw Hk) as [V1 Hraw]. split_and!; try done; [by apply (be_inode _ _ _ _ _ _ _ _ _ _ _ _ _ _ Hed)|by apply (orphans_kept fs s s1)|]. by exists (<[i := b]> ds), rest.
Qed.

(** The entries: the new name leads to the inode that moves, the old one is gone. *)
Lemma move_spec ns fs s self nd ds l ext runs old_name new_name old fto r ftr info t :
  volume fs s -> tables_whole fs -> orphans_ok fs s -> hash_words fs -> in_memory ns fs self nd -> dir_ok dev nd fs s ds l ext runs -> distinct ds -> old_name <> new_name ->
  names_map (dir_names ds) !! old_name = Some (old, fto) -> names_map (dir_names ds) !! new_name = Some (r, ftr) -> fits 32 old -> old <> 0 ->
  exists res nd' s', move_entries dev tid now self self old old_name new_name info false true t (ns, (fs, s)) = (res, (with_inode ns self nd', (fs, s'))) /\
  match res with
  | Ok _ => volume fs s' /\ orphans_ok fs s' /\ (forall k, valid_ino fs k -> k <> self -> read_raw_inode fs s' k = read_raw_inode fs s k) /\
      exists ds' rest, dir_ok dev nd' fs s' ds' l ext runs /\ dir_names ds ≡ₚ (old_name, old, fto) :: (new_name, r, ftr) :: rest /\ dir_names ds' ≡ₚ (new_name, old, ft_code t) :: rest
  | Err e => handled e = true
  end.
Proof.
  intros V Hw Ho Hh Hs Hd Hdis Hne Hold Hnew Hi Hi0. unfold move_entries. rewrite bind_eq. unfold the_fs at 1. cbn [fst snd]. rewrite Z.eqb_refl, bind_eq. unfold put_name.
  destruct (overwrite_in ns fs s self nd ds l ext runs new_name r ftr old t (im_inode _ _ _ _ Hs) Hd V Hw Ho Hdis Hnew Hi Hi0) as (res & nd1 & s1 & -> & Hr). destruct res as [[]|e]; [|by eexists _, _, s1].
  destruct Hr as (Hp1 & V1 & Ho1 & Hraw1 & ds1 & rest & Hd1 & Hn1 & Hn2). pose proof (perm_distinct _ _ Hdis Hn1) as Hdn. rewrite fmap_cons in Hdn. apply NoDup_cons in Hdn as [Hx1 Hx2].
  assert (Hdis1 : distinct ds1) by (unfold distinct; rewrite Hn2, fmap_cons; by constructor).
  assert (Hold1 : names_map (dir_names ds1) !! old_name = Some (old, fto)).
  { rewrite (names_map_perm _ _ Hdis1 Hn2), names_map_cons. rewrite lookup_insert_ne by done. rewrite (names_map_perm _ _ Hdis Hn1), names_map_cons in Hold. by rewrite lookup_insert_ne in Hold. }
  pose proof (find_agrees dev runs nd1 fs s1 ds1 l ext old_name (dx_ctx (super_block fs)) Hd1 Hdis1 Hh) as Hf. rewrite Hold1 in Hf. destruct Hf as (i & o & h & Ef & Hl & [= -> ->]).
  rewrite bind_eq. unfold find_in. rewrite (on_inode_eq self (find_entry dev old_name (dx_ctx (super_block fs))) _ (fs, s1) nd1 (Ok (info_of i o h)) nd1 (fs, s1) (inode_same _ _ _)) by (unfold find_entry; cbn [fst snd]; by rewrite Ef). rewrite with_inode_twice, bind_eq.
  destruct (delete_in (with_inode ns self nd1) fs s1 self nd1 ds1 l ext runs old_name i o h (inode_same _ _ _) Hd1 V1 Hw Ho1 Hl) as (res & nd2 & s2 & -> & Hr). rewrite with_inode_twice. destruct res as [[]|e]; [|by eexists _, _, s2].
  destruct Hr as (Hp2 & V2 & Ho2 & Hraw2 & ds2 & Hd2 & Hn3). rewrite bind_eq. cbn [andb]. rewrite mret_eq. set (d3 := set_ctime (set_mtime (in_desc nd2) (now 0%nat)) (now 0%nat)).
  rewrite bind_eq, (on_inode_eq self _ _ (fs, s2) nd2 (Ok tt) (set_desc nd2 d3) (fs, s2) (inode_same _ _ _)) by done. rewrite with_inode_twice.
  destruct (pages_only_kept _ _ (pages_only_trans _ _ _ Hp1 Hp2)) as (Ed & _ & Er & _). assert (Hst : storable nd2) by (destruct (im_storable _ _ _ _ Hs) as [X1 X2]; split; rewrite Er, ?Ed; done).
  destruct (write_back_in (with_inode ns self (set_desc nd2 d3)) fs s2 self nd2 d3 V2 Hw Ho2 (im_valid _ _ _ _ Hs) (inode_same _ _ _) (storable_mtime_ctime nd2 _ Hst)) as (res & nd4 & s4 & -> & Hr). rewrite with_inode_twice.
  exists res, nd4, s4. split; [done|]. destruct res as [[]|e]; [|done]. destruct Hr as ([P1 P2 P3 _ _ P6] & Hsd & _). split_and!; try done; [intros k Hk Hks; rewrite P6, Hraw2 by done; by apply Hraw1|].
  assert (exists rest', rest ≡ₚ (old_name, de_ino h, de_file_type h) :: rest') as [rest' Hrest].
  { apply names_map_lookup in Hold1; [|done]. rewrite Hn2 in Hold1. apply elem_of_cons in Hold1 as [Hbad|Hin]; [by injection Hbad|]. apply list_elem_of_split in Hin as (x & y & ->). exists (x ++ y). solve_Permutation. }
  exists ds2, rest'. split_and!; [|rewrite Hn1, Hrest; solve_Permutation|].
  - eapply dir_elsewhere; [exact P1|exact Hsd|]. destruct V2 as [W1 W2 W3 W4 W5]. eapply dir_elsewhere; [by apply (elsewhere_reads fs s2 s2)|by apply same_dir_desc|exact Hd2].
  - apply (Permutation_cons_inv (a := (old_name, de_ino h, de_file_type h))). rewrite <- Hn3, Hn2, Hrest. solve_Permutation.
Qed.

(** The inode that lost the name: put on the orphan list with its last link;
    with others left, only its record in memory changes. *)
Lemma drop_spec ns fs s r n : volume fs s -> tables_whole fs -> orphans_ok fs s -> valid_ino fs r -> ns_inodes ns !! r = Some n -> storable n ->
  exists res ns' fs' s', drop_replaced tid now r false (ns, (fs, s)) = (res, (ns', (fs', s'))) /\
  match res with
  | Ok _ => exists n', ns_inodes ns' = <[r := n']> (ns_inodes ns) /\ i_link_count (in_desc n') = sat_sub (i_link_count (in_desc n)) 1 /\
      elsewhere fs s fs' s' /\ volume fs' s' /\ orphans_ok fs' s' /\ (forall k, valid_ino fs k -> k <> r -> read_raw_inode fs' s' k = read_raw_inode fs s k) /\
      (forall k, valid_ino fs k -> valid_ino fs' k) /\ tables_whole fs' /\
      if sat_sub (i_link_count (in_desc n)) 1 =? 0
      then ns_cached ns' = ns_cached ns ∖ {[ r ]} /\ r ∈ orphan_chain fs' /\ exists raw, read_raw_inode fs' s' r = Ok raw /\ ri_link_count raw = 0
      else ns_cached ns' = ns_cached ns /\ fs' = fs /\ s' = s
  | Err e => handled e = true
  end.
Proof.
  intros V Hw Ho Hi Hn Hs. unfold drop_replaced. set (n1 := set_desc n (set_ctime (in_desc n) (now 2%nat))). set (n2 := set_desc n1 (dec_link_count (in_desc n1) 1)).
  rewrite bind_eq, (on_inode_eq r _ ns (fs, s) n (Ok tt) n1 (fs, s) Hn) by done. rewrite bind_eq, mret_eq, bind_eq, (on_inode_eq r _ _ (fs, s) n1 (Ok tt) n2 (fs, s) (inode_same _ _ _)) by done. rewrite with_inode_twice.
  rewrite bind_eq, (the_inner_eq r _ (fs, s) n2 (inode_same _ _ _)). assert (Hl : i_link_count (in_desc n2) = sat_sub (i_link_count (in_desc n)) 1) by done. rewrite Hl.
  assert (Hs2 : storable n2). { apply storable_links; [by apply storable_ctime|]. pose proof (links_fit n Hs) as Hf. unfold fits, sat_sub in *. cbn. lia. }
  destruct (Z.eqb_spec (sat_sub (i_link_count (in_desc n)) 1) 0) as [E0|E0].
  - destruct (orphaned_spec (with_inode ns r n2) fs s r n2 V Hw Ho Hi (inode_same _ _ _) Hs2) as (res & ns' & fs' & s' & E & Hr). exists res, ns', fs', s'. split; [exact E|]. destruct res as [[]|e]; [|done].
    destruct Hr as (n' & -> & [P1 P2 P3 P4 (raw & Hraw & Hrl) P6] & Hch). exists n'. split_and!; try done.
    + cbn. by rewrite insert_insert_eq.
    + intros k Hk. unfold valid_ino in *. by rewrite (el_total _ _ _ _ P1).
    + intros i g md. rewrite (el_groups _ _ _ _ P1). apply Hw.
    + rewrite Hch. case_decide; set_solver.
    + exists raw. split; [done|]. rewrite Hrl, Hl. done.
  - rewrite mret_eq. eexists _, _, fs, s. split; [done|]. exists n2. destruct V as [W1 W2 W3 W4 W5]. by split_and!.
Qed.

(** What [rename] leaves. *)
Record renamed_over (ns : NsState) (fs : Ext4) (s : S) (self : Z) (ds : list dblock) (l : list Extent) (ext : list Z) (runs : list (Z * Z))
    (old_name new_name : list byte) (old fto : Z) (no : InodeInner) (r ftr : Z) (nr : InodeInner) (ns' : NsState) (fs' : Ext4) (s' : S) : Prop := {
  rn_dir : exists nd' no' nr' ds' rest, ns_inodes ns' = <[old := no']> (<[r := nr']> (<[self := nd']> (ns_inodes ns))) /\ dir_ok dev nd' fs' s' ds' l ext runs /\
    dir_names ds ≡ₚ (old_name, old, fto) :: (new_name, r, ftr) :: rest /\
    dir_names ds' ≡ₚ (new_name, old, ft_code (file_type_of (i_type (in_desc no)))) :: rest /\
    i_link_count (in_desc no') = i_link_count (in_desc no) /\ i_link_count (in_desc nr') = sat_sub (i_link_count (in_desc nr)) 1;
  rn_volume : volume fs' s' /\ orphans_ok fs' s';
  rn_others k : valid_ino fs k -> k <> self -> k <> old -> k <> r -> read_raw_inode fs' s' k = read_raw_inode fs s k;
  rn_last : if sat_sub (i_link_count (in_desc nr)) 1 =? 0
    then ns_cached ns' = ns_cached ns ∖ {[ r ]} /\ r ∈ orphan_chain fs' /\ exists raw, read_raw_inode fs' s' r = Ok raw /\ ri_link_count raw = 0
    else ns_cached ns' = ns_cached ns /\ orphan_chain fs' = orphan_chain fs /\ read_raw_inode fs' s' r = read_raw_inode fs s r;
}.

Lemma rename_spec ns fs s self nd ds l ext runs old_name new_name old fto no r ftr nr :
  volume fs s -> tables_whole fs -> orphans_ok fs s -> hash_words fs -> in_memory ns fs self nd -> dir_ok dev nd fs s ds l ext runs -> distinct ds -> old_name <> new_name ->
  names_map (dir_names ds) !! old_name = Some (old, fto) -> names_map (dir_names ds) !! new_name = Some (r, ftr) ->
  in_memory ns fs old no -> in_memory ns fs r nr -> old <> self -> r <> self -> r <> old -> i_type (in_desc no) <> InodeRecord.Dir -> i_type (in_desc nr) <> InodeRecord.Dir ->
  exists res ns' fs' s', rename dev tid now self old_name self new_name (ns, (fs, s)) = (res, (ns', (fs', s'))) /\
  match res with
  | Ok _ => renamed_over ns fs s self ds l ext runs old_name new_name old fto no r ftr nr ns' fs' s'
  | Err e => handled e = true
  end.
Proof.
  intros V Hw Ho Hh Hs Hd Hdis Hne Hold Hnew Hno Hnr H1 H2 H3 Ht1 Ht2. pose proof (im_valid _ _ _ _ Hno) as Hvo. pose proof (im_valid _ _ _ _ Hnr) as Hvr.
  pose proof (find_agrees dev runs nd fs s ds l ext old_name (dx_ctx (super_block fs)) Hd Hdis Hh) as Hf. rewrite Hold in Hf. destruct Hf as (i & o & h & Ef & _ & Eh). assert (Eino : di_ino (info_of i o h) = old) by (by injection Eh as -> _).
  pose proof (find_agrees dev runs nd fs s ds l ext new_name (dx_ctx (super_block fs)) Hd Hdis Hh) as Hg. rewrite Hnew in Hg. destruct Hg as (i' & o' & h' & Eg & _ & Eh'). assert (Eino' : di_ino (info_of i' o' h') = r) by (by injection Eh' as -> _).
  unfold rename. rewrite Z.eqb_refl, bool_decide_eq_false_2 by done. cbn [andb]. rewrite bind_eq. unfold the_fs at 1. cbn [fst snd]. rewrite bind_eq. unfold find_in at 1.
  rewrite (on_inode_eq self (find_entry dev old_name _) ns (fs, s) nd (Ok (info_of i o h)) nd (fs, s) (im_inode _ _ _ _ Hs)) by (unfold find_entry; cbn [fst snd]; by rewrite Ef). rewrite (with_inode_id ns self nd (im_inode _ _ _ _ Hs)).
  rewrite Eino, bind_eq, (read_inode_cached ns fs s old no (vo_fs _ _ V) Hno), bind_eq. unfold find_replaced, find_in at 1.
  rewrite (on_inode_eq self (find_entry dev new_name _) ns (fs, s) nd (Ok (info_of i' o' h')) nd (fs, s) (im_inode _ _ _ _ Hs)) by (unfold find_entry; cbn [fst snd]; by rewrite Eg). rewrite (with_inode_id ns self nd (im_inode _ _ _ _ Hs)), Eino'.
  rewrite bind_eq, (read_inode_cached ns fs s r nr (vo_fs _ _ V) Hnr), bind_eq.
  assert (validate_rename_invariants dev self old (Some r) (ns, (fs, s)) = (Ok tt, (ns, (fs, s)))) as ->.
  { unfold validate_rename_invariants. rewrite bind_eq, (the_type_eq old ns (fs, s) no (im_inode _ _ _ _ Hno)), bind_eq. assert (is_directory (i_type (in_desc no)) = false) as -> by (by destruct (i_type (in_desc no))). rewrite mret_eq.
    rewrite bind_eq, (the_type_eq r ns (fs, s) nr (im_inode _ _ _ _ Hnr)). assert (is_directory (i_type (in_desc nr)) = false) as -> by (by destruct (i_type (in_desc nr))). done. }
  unfold apply_dir_mutations. rewrite bind_eq, (the_type_eq old ns (fs, s) no (im_inode _ _ _ _ Hno)). assert (is_directory (i_type (in_desc no)) = false) as -> by (by destruct (i_type (in_desc no))). cbn [is_some]. rewrite bind_eq.
  assert (Hof : fits 32 old /\ old <> 0) by (split; [by apply (valid_ino_fits fs (vo_fs _ _ V))|unfold valid_ino in Hvo; lia]).
  destruct (move_spec ns fs s self nd ds l ext runs old_name new_name old fto r ftr (info_of i o h) (file_type_of (i_type (in_desc no))) V Hw Ho Hh Hs Hd Hdis Hne Hold Hnew (proj1 Hof) (proj2 Hof)) as (res & nd1 & s1 & -> & Hr). destruct res as [[]|e]; [|by eexists _, _, fs, s1].
  destruct Hr as (V1 & Ho1 & Hraw1 & ds1 & rest & Hd1 & Hn1 & Hn2). rewrite bind_eq. set (ns1 := with_inode ns self nd1).
  destruct (drop_spec ns1 fs s1 r nr V1 Hw Ho1 Hvr) as (res & ns2 & fs2 & s2 & -> & Hr); [unfold ns1; rewrite inode_other by done; apply Hnr|apply Hnr|]. destruct res as [[]|e]; [|by eexists _, ns2, fs2, s2].
  destruct Hr as (nr' & En2 & Hl2 & He2 & V2 & Ho2 & Hraw2 & Hval2 & Hw2 & Hlast). unfold update_moved. rewrite bind_eq. unfold the_fs. cbn [fst snd andb]. rewrite bind_eq.
  assert (Hno2 : ns_inodes ns2 !! old = Some no) by (rewrite En2, lookup_insert_ne by done; unfold ns1; rewrite inode_other by done; apply Hno).
  set (d3 := set_ctime (in_desc no) (now 3%nat)). rewrite (on_inode_eq old _ ns2 (fs2, s2) no (Ok tt) (set_desc no d3) (fs2, s2) Hno2) by done.
  destruct (write_back_in (with_inode ns2 old (set_desc no d3)) fs2 s2 old no d3 V2 Hw2 Ho2 (Hval2 old Hvo) (inode_same _ _ _)) as (res & no4 & s4 & -> & Hr); [by apply storable_ctime, Hno|]. rewrite with_inode_twice.
  eexists res, _, fs2, s4. split; [done|]. destruct res as [[]|e]; [|done]. destruct Hr as ([P1 P2 P3 P4 P5 P6] & _ & _). split; try done.
  - exists nd1, no4, nr', ds1, rest. split_and!; try done; [unfold with_inode at 1; cbn; by rewrite En2|]. eapply dir_elsewhere; [exact P1|apply same_dir_refl|]. eapply dir_elsewhere; [exact He2|apply same_dir_refl|exact Hd1].
  - intros k Hk K1 K2 K3. rewrite P6, Hraw2 by auto. by apply Hraw1.
  - destruct (sat_sub (i_link_count (in_desc nr)) 1 =? 0).
    + destruct Hlast as (L1 & L2 & raw & L3 & L4). split_and!; try done. exists raw. split; [|done]. rewrite P6 by auto. done.
    + destruct Hlast as (L1 & -> & ->). split_and!; try done. rewrite P6, Hraw1 by done. done.
Qed.

(** *** [rmdir] *)

Definition holds_no_name (ino : Z) (ds : list dblock) : Prop := Forall (fun e => (key e = DOT_BYTE /\ e.1.2 = ino) \/ key e = DOT_DOT_BYTE) (dir_names ds).

(** What [rmdir] leaves. *)
Record removed_dir (ns : NsState) (fs : Ext4) (s : S) (self : Z) (nd : InodeInner) (ds : list dblock) (l : list Extent) (ext : list Z) (runs : list (Z * Z))
    (name : list byte) (child ft : Z) (ns' : NsState) (fs' : Ext4) (s' : S) : Prop := {
  rd_dir : exists nd' nc' ds', ns_inodes ns' = <[self := nd']> (<[child := nc']> (ns_inodes ns)) /\ dir_ok dev nd' fs' s' ds' l ext runs /\
    dir_names ds ≡ₚ (name, child, ft) :: dir_names ds' /\ i_link_count (in_desc nd') = sat_sub (i_link_count (in_desc nd)) 1 /\ i_link_count (in_desc nc') = 0;
  rd_volume : volume fs' s' /\ orphans_ok fs' s';
  rd_parent : exists raw, read_raw_inode fs' s' self = Ok raw /\ ri_link_count raw = sat_sub (i_link_count (in_desc nd)) 1;
  rd_child : child ∉ ns_cached ns' /\ child ∈ orphan_chain fs' /\ exists raw, read_raw_inode fs' s' child = Ok raw /\ ri_link_count raw = 0;
  rd_others k : valid_ino fs k -> k <> self -> k <> child -> read_raw_inode fs' s' k = read_raw_inode fs s k;
}.

Lemma rmdir_spec ns fs s self nd ds l ext runs name child ft nc cds :
  volume fs s -> tables_whole fs -> orphans_ok fs s -> hash_words fs -> in_memory ns fs self nd -> dir_ok dev nd fs s ds l ext runs -> distinct ds ->
  names_map (dir_names ds) !! name = Some (child, ft) -> in_memory ns fs child nc -> child <> self -> dir_view dev nc s cds -> i_link_count (in_desc nc) = 2 ->
  exists r ns' fs' s', rmdir dev tid now self name (ns, (fs, s)) = (r, (ns', (fs', s'))) /\
  match r with
  | Ok _ => holds_no_name child cds /\ removed_dir ns fs s self nd ds l ext runs name child ft ns' fs' s'
  | Err e => handled e = true /\ (~ holds_no_name child cds -> e = ENOTEMPTY /\ ns' = ns /\ fs' = fs /\ s' = s)
  end.
Proof.
  intros V Hw Ho Hh Hs Hd Hdis Hname Hc Hne Hv Hlinks. pose proof (find_agrees dev runs nd fs s ds l ext name (dx_ctx (super_block fs)) Hd Hdis Hh) as Hf. rewrite Hname in Hf. destruct Hf as (i & o & h & Ef & Hl & Eh). pose proof (im_inode _ _ _ _ Hs) as Hn.
  unfold rmdir. rewrite bind_eq. unfold the_fs at 1. cbn [fst snd]. rewrite bind_eq. unfold find_in.
  rewrite (on_inode_eq self (find_entry dev name (dx_ctx (super_block fs))) ns (fs, s) nd (Ok (info_of i o h)) nd (fs, s) Hn) by (unfold find_entry; cbn [fst snd]; by rewrite Ef). rewrite (with_inode_id ns self nd Hn).
  change (di_ino (info_of i o h)) with (de_ino h). assert (de_ino h = child /\ de_file_type h = ft) as [Eino Eft] by (split; congruence). rewrite Eino.
  rewrite bind_eq, (read_inode_cached ns fs s child nc (vo_fs _ _ V) Hc), bind_eq, (the_type_eq child ns (fs, s) nc (im_inode _ _ _ _ Hc)), (dv_dir _ _ _ _ Hv). cbn [is_directory guard]. rewrite bind_eq, mret_eq, bind_eq.
  rewrite (on_inode_eq child _ ns (fs, s) nc (Ok (empty_dir dev nc s child)) nc (fs, s) (im_inode _ _ _ _ Hc)) by done. rewrite (with_inode_id ns child nc (im_inode _ _ _ _ Hc)), bind_eq.
  pose proof (empty_dir_spec dev nc s cds Hv child : _ <-> holds_no_name child cds) as Hemp. destruct (empty_dir dev nc s child); cbn [guard].
  2: { rewrite fail_eq. exists (Err ENOTEMPTY), ns, fs, s. by split_and!. }
  assert (Hem : holds_no_name child cds) by (by apply Hemp). clear Hemp. rewrite mret_eq. set (nc1 := set_desc nc (set_ctime (in_desc nc) (now 0%nat))). set (nc2 := set_desc nc1 (dec_link_count (in_desc nc1) 2)).
  rewrite bind_eq, (on_inode_eq child _ ns (fs, s) nc (Ok tt) nc1 (fs, s) (im_inode _ _ _ _ Hc)) by done. rewrite bind_eq, (on_inode_eq child _ _ (fs, s) nc1 (Ok tt) nc2 (fs, s) (inode_same _ _ _)) by done. rewrite with_inode_twice.
  rewrite bind_eq, (the_inner_eq child _ (fs, s) nc2 (inode_same _ _ _)). assert (Hl2 : i_link_count (in_desc nc2) = 0) by (unfold nc2, dec_link_count, sat_sub; cbn; rewrite Hlinks; done). rewrite Hl2, Z.eqb_refl.
  assert (Hst2 : storable nc2). { apply storable_links; [by apply storable_ctime, Hc|]. cbn. rewrite Hlinks. done. }
  rewrite bind_eq. destruct (orphaned_spec (with_inode ns child nc2) fs s child nc2 V Hw Ho (im_valid _ _ _ _ Hc) (inode_same _ _ _) Hst2) as (r & ns1 & fs1 & s1 & -> & Hr). destruct r as [[]|e]; [|by exists (Err e), ns1, fs1, s1].
  destruct Hr as (nc' & -> & [P1 P2 P3 P4 (raw1 & P5 & P5') P6] & Hch). rewrite bind_eq. set (ns1 := with_cached _ _).
  assert (Hw1 : tables_whole fs1) by (intros k g md; rewrite (el_groups _ _ _ _ P1); apply Hw). assert (Hval1 : forall k, valid_ino fs k -> valid_ino fs1 k) by (intros k Hk; unfold valid_ino in *; by rewrite (el_total _ _ _ _ P1)).
  assert (Hn1 : ns_inodes ns1 !! self = Some nd) by (unfold ns1; cbn; by rewrite !lookup_insert_ne).
  destruct (delete_in ns1 fs1 s1 self nd ds l ext runs name i o h Hn1 ltac:(eapply dir_elsewhere; [exact P1|apply same_dir_refl|exact Hd]) P2 Hw1 P3 Hl) as (r & nd2 & s2 & -> & Hr). destruct r as [[]|e]; [|by exists (Err e), (with_inode ns1 self nd2), fs1, s2].
  destruct Hr as (Hp2 & V2 & Ho2 & Hraw2 & ds2 & Hd2 & Hnm). rewrite Eino, Eft in Hnm. destruct (pages_only_kept _ _ Hp2) as (Ed2 & _ & Er2 & _).
  set (nd3 := set_desc nd2 (dec_link_count (in_desc nd2) 1)). set (d4 := set_ctime (set_mtime (in_desc nd3) (now 1%nat)) (now 1%nat)).
  rewrite bind_eq, (on_inode_eq self _ _ (fs1, s2) nd2 (Ok tt) nd3 (fs1, s2) (inode_same _ _ _)) by done. rewrite with_inode_twice, bind_eq, (on_inode_eq self _ _ (fs1, s2) nd3 (Ok tt) (set_desc nd3 d4) (fs1, s2) (inode_same _ _ _)) by done. rewrite with_inode_twice.
  assert (Hst3 : storable nd3). { apply storable_links; [destruct (im_storable _ _ _ _ Hs) as [X1 X2]; split; rewrite Er2, ?Ed2; done|]. rewrite Ed2. pose proof (links_fit nd (im_storable _ _ _ _ Hs)) as Hlf. unfold fits, sat_sub in *. lia. }
  destruct (write_back_in (with_inode ns1 self (set_desc nd3 d4)) fs1 s2 self nd3 d4 V2 Hw1 Ho2 (Hval1 _ (im_valid _ _ _ _ Hs)) (inode_same _ _ _) (storable_mtime_ctime nd3 _ Hst3)) as (r & nd5 & s5 & -> & Hr). rewrite with_inode_twice.
  exists r, (with_inode ns1 self nd5), fs1, s5. split; [done|]. destruct r as [[]|e]; [|by split]. destruct Hr as ([Q1 Q2 Q3 Q4 Q5 Q6] & Hsd & _). split; [done|].
  assert (El : i_link_count (in_desc (set_desc nd3 d4)) = sat_sub (i_link_count (in_desc nd)) 1) by (unfold nd3, d4; cbn; by rewrite Ed2). rewrite El in Q4, Q5. split; try done.
  - exists nd5, nc', ds2. split_and!; try done; [unfold ns1, with_inode; cbn; by rewrite insert_insert_eq| |by rewrite P4].
    eapply dir_elsewhere; [exact Q1|exact Hsd|]. destruct V2 as [W1 W2 W3 W4 W5]. eapply dir_elsewhere; [by apply (elsewhere_reads fs1 s2 s2)|by apply (same_dir_desc nd2 d4)|exact Hd2].
  - split_and!; [unfold ns1; cbn; set_solver|rewrite Hch; case_decide; set_solver|]. exists raw1. split; [|by rewrite P5', Hl2]. rewrite Q6, Hraw2; [done|apply Hval1, Hc|apply Hval1, Hc|done].
  - intros k Hk K1 K2. rewrite Q6, Hraw2 by auto. by apply P6.
Qed.
End Spec.
