(* ===== verification/NsTheorems.v ===== *)
(** * Theorems about the namespace

    What [unlink], [rename] and [rmdir] do to names, links and records; the
    round trip of symbolic links; the order of the locks; and what a hard link
    does to a directory with an index.  Each has a witness on a small volume. *)

From stdpp Require Import sorting.
From S2P Require Import Prelude Pod Checksum JournalFormat Device Bitmap SuperBlock GroupDesc MetaStore BlockGroup Alloc AllocSpec ExtentNode ExtentMap ExtentTree ExtentWrite ExtentSpec ExtentManager ExtentTheorems.
From S2P Require Import InodeRecord OrphanChain InodeTable Orphan InodeTheorems PageCache DirEntry DirBlock DirHash Htree InodeInner Dir DirSpec DirEdit DirGrow DirDots DirInode DirDegrade DirSample DirTheorems Symlink Namespace NsSpec.

(** ** An indexed directory that gets a link *)

(** The first two records of an index root: [.], and [..] up to the end of the
    block, over the index. *)
Definition index_root (recs : list (Z * DirEntryHeader)) : Prop := exists dot dotdot l,
  recs = (0, dot) :: (DOT_LEN, dotdot) :: l /\ de_ino dot <> 0 /\ de_name_len dot = 1 /\ de_rec_len dot = DOT_LEN /\
  de_ino dotdot <> 0 /\ de_name_len dotdot = 2 /\ de_rec_len dotdot = BLOCK_SIZE - DOT_LEN /\ de_file_type dotdot <> EXT4_FT_DIR_CSUM.

Section Index.
Context {S : Type} `{MetaStoreOk S}.
Context (dev : device) (tid : Z) (now : nat -> Duration).
Implicit Types s : S.

(** Its slot is the one over the index. *)
Lemma index_slot n s ds img recs (name : list byte) : dir_view dev n s ds -> ds !! 0%nat = Some ((img, recs) : dblock) -> index_root recs -> 0 < zlen name <= NAME_MAX ->
  find_dir_slot dev n s (zlen name) = Ok (Some {| ds_offset := DOT_LEN; ds_rec_len := BLOCK_SIZE - DOT_LEN; ds_used := DOT_LEN |}).
Proof.
  intros Hv Hz (dot & dotdot & l & -> & I1 & I2 & I3 & J1 & J2 & J3 & J4) Hn. unfold find_dir_slot, is_dir. rewrite bool_decide_eq_true_2 by apply Hv. destruct (dir_block_streams dev n s ds Hv 0 img _ Hz) as (rp & pc & E & Es & _).
  rewrite E. cbn [rbind]. rewrite (dir_blocks_seq dev n s ds Hv). pose proof (lookup_lt_Some _ _ _ Hz) as Hlt. destruct (length ds) as [|k]; [lia|]. cbn [seq map first_block]. rewrite Es. unfold search_stream. cbn [fst snd].
  unfold NAME_MAX in Hn. destruct (min_rec_len_bounds (zlen name) ltac:(lia)) as [Hm1 Hm2]. unfold slot_in. rewrite I2, I3, J2, J3. rewrite !(proj2 (Z.eqb_neq _ 0)) by done. rewrite (proj2 (Z.eqb_neq _ _) J4).
  change (min_rec_len 1) with 12. change (min_rec_len 2) with 12. unfold DOT_LEN, BLOCK_SIZE, HEADER_LEN in *. change (4096 - 12) with 4084. cbn [andb negb orb].
  rewrite (proj2 (Z.leb_gt (12 + _) 12)) by lia. rewrite (proj2 (Z.leb_le (12 + _) 4084)) by lia. by destruct (de_file_type dot =? EXT4_FT_DIR_CSUM).
Qed.

(** The header of the new entry lies over the header of the index. *)
Lemma root_overwritten img o h l1 l2 name ino ft : block_ok (img, l1 ++ (o, h) :: l2) -> de_ino h <> 0 -> o = DOT_LEN -> min_rec_len (de_name_len h) = DOT_LEN -> de_rec_len h = BLOCK_SIZE - DOT_LEN ->
  entry_args name ino -> fits 8 ft -> parse_dx_root (placed_img img o h name ino ft) = Err EUCLEAN.
Proof.
  intros [Hb Hs] Hi -> Hm Hr (Hn & Hino & _) Hft. cbn [fst snd] in *. destruct (seg_at BLOCK_SIZE ltac:(done) img l1 _ h l2 Hb Hs) as (_ & _ & _ & _ & Hw & _). destruct (wf_fields _ Hw) as (W1 & _ & W3 & W4).
  unfold placed_img, placed_at, placed_header. rewrite (proj2 (Z.eqb_neq _ _) Hi), Hm, Hr. unfold NAME_MAX in Hn. change (DOT_LEN + DOT_LEN) with 24. change (BLOCK_SIZE - DOT_LEN - DOT_LEN) with 4072.
  unfold is_block, BLOCK_SIZE in Hb. set (img1 := put_header DOT_LEN (with_rec_len h DOT_LEN) img). assert (Hb1 : zlen img1 = 4096) by (unfold img1; rewrite put_header_len; [done|done|by rewrite Hb|by apply fields_wf]).
  assert (Hwf : c_wf header_codec (Header ino 4072 (zlen name) ft)) by (apply fields_wf; cbn; unfold fits; done || lia).
  set (b := put_entry 24 _ name img1). assert (Hlen : zlen b = 4096) by (unfold b; rewrite put_entry_len; unfold HEADER_LEN; done || lia).
  pose proof (put_entry_at 24 _ name img1 ltac:(lia) ltac:(unfold HEADER_LEN; lia) Hwf) as Eh. fold b in Eh.
  pose proof (header_bytes b 24 Hlen ltac:(lia) ltac:(done)) as Ebytes. rewrite Eh in Ebytes.
  destruct (parse_dx_root_spec b Hlen) as [->|(r & _ & _ & _ & _ & _ & Hx)]; [done|]. exfalso. unfold get_le in Hx. rewrite <- (slice_slice 5 1 24 HEADER_LEN) in Hx by (unfold HEADER_LEN; lia). rewrite Ebytes in Hx.
  revert Hx. unfold header_codec. cbn [struct as_bytes cpair le de_ino de_rec_len de_name_len de_file_type fst snd]. done.
Qed.

(** An index that does not parse cannot be made linear, and no name can be
    added the way [rename] adds names. *)
Lemma broken_index n fs s ds l ext runs img recs : dir_ok dev n fs s ds l ext runs -> ds !! 0%nat = Some ((img, recs) : dblock) -> parse_dx_root img = Err EUCLEAN ->
  degrade_htree_to_linear dev tid (n, (fs, s)) = (Err EUCLEAN, (n, (fs, s))).
Proof.
  intros Hd Hz Hp. unfold degrade_htree_to_linear. rewrite bind_eq, inner_eq, bind_eq.
  destruct (dv_pages _ _ _ _ (dir_ok_view dev _ n fs s ds l ext runs Hd)) as (pc & t & np & Ep & Hok & Hpg). destruct (Hpg 0%nat _ Hz) as [Hpage _]. cbn [fst] in Hpage.
  rewrite (read_cache_eq dev _ n fs s pc t np Ep). pose proof (read_raw_page (read_page dev np t s) pc 0 img 0 BLOCK_SIZE Hok Hpage ltac:(lia) ltac:(done)) as E. unfold dx_index_blocks, read_dx_block.
  change (0 * PAGE_SIZE + 0) with (0 * BLOCK_SIZE) in E. rewrite E by done. cbn [map_err rbind]. rewrite (slice_full BLOCK_SIZE) by (symmetry; apply Hpage). by rewrite Hp.
Qed.


End Index.

(** ** The operations *)

Section Exact.
Context {S : Type} `{MetaStoreOk S}.
Context (dev : device) (tid : Z) (now : nat -> Duration).
Implicit Types s : S.

(** C10: [unlink] of a name that leads to an inode that is not a directory
    removes this name and no other, takes one link from the inode in memory and
    in its stored record in the same transaction, and leaves the records of
    all other inodes; with the last link the inode goes to the front of the
    orphan list and out of the cache, otherwise both stay as they are.  A
    failure is an error the caller handles. *)
Theorem unlink_exact ns fs s self nd ds l ext runs name child ft nc :
  volume fs s -> tables_whole fs -> orphans_ok fs s -> hash_words fs ->
  ns_inodes ns !! self = Some nd -> dir_ok dev nd fs s ds l ext runs -> distinct ds -> names_map (dir_names ds) !! name = Some (child, ft) ->
  in_memory ns fs child nc -> child <> self -> i_type (in_desc nc) <> InodeRecord.Dir ->
  exists r ns' fs' s', unlink dev tid now self name (ns, (fs, s)) = (r, (ns', (fs', s'))) /\
  match r with
  | Ok _ => unlinked_name dev ns fs s self ds l ext runs name child ft nc ns' fs' s'
  | Err e => handled e = true
  end.
Proof. apply unlink_spec. Qed.

(** C15: [rmdir] of a directory with two links succeeds only when it holds no
    name but [.] and [..]; it removes the name, takes the link of [..] from the
    parent in memory and in the stored record, and puts the directory on the
    orphan list with no link left, all in one transaction.  A directory that
    holds a name is refused with [ENOTEMPTY] and nothing changes. *)
Theorem rmdir_exact ns fs s self nd ds l ext runs name child ft nc cds :
  volume fs s -> tables_whole fs -> orphans_ok fs s -> hash_words fs -> in_memory ns fs self nd -> dir_ok dev nd fs s ds l ext runs -> distinct ds ->
  names_map (dir_names ds) !! name = Some (child, ft) -> in_memory ns fs child nc -> child <> self -> dir_view dev nc s cds -> i_link_count (in_desc nc) = 2 ->
  exists r ns' fs' s', rmdir dev tid now self name (ns, (fs, s)) = (r, (ns', (fs', s'))) /\
  match r with
  | Ok _ => holds_no_name child cds /\ removed_dir dev ns fs s self nd ds l ext runs name child ft ns' fs' s'
  | Err e => handled e = true /\ (~ holds_no_name child cds -> e = ENOTEMPTY /\ ns' = ns /\ fs' = fs /\ s' = s)
  end.
Proof. apply rmdir_spec. Qed.

(** C11: [rename] of one file over another in the same directory leaves the new
    name leading to the moved inode and the old name gone, in one transaction.
    The replaced inode loses a link in memory.  With its last link it is on the
    orphan list, its stored record without links; but when it keeps other
    links its stored record is still the old one, so the transaction commits a
    link count that is too high by one. *)
Theorem rename_over_exact ns fs s self nd ds l ext runs old_name new_name old fto no r ftr nr :
  volume fs s -> tables_whole fs -> orphans_ok fs s -> hash_words fs -> in_memory ns fs self nd -> dir_ok dev nd fs s ds l ext runs -> distinct ds -> old_name <> new_name ->
  names_map (dir_names ds) !! old_name = Some (old, fto) -> names_map (dir_names ds) !! new_name = Some (r, ftr) ->
  in_memory ns fs old no -> in_memory ns fs r nr -> old <> self -> r <> self -> r <> old -> i_type (in_desc no) <> InodeRecord.Dir -> i_type (in_desc nr) <> InodeRecord.Dir ->
  exists res ns' fs' s', rename dev tid now self old_name self new_name (ns, (fs, s)) = (res, (ns', (fs', s'))) /\
  match res with
  | Ok _ => renamed_over dev ns fs s self ds l ext runs old_name new_name old fto no r ftr nr ns' fs' s'
  | Err e => handled e = true
  end.
Proof. apply rename_spec. Qed.

(** C19: A target written to a symbolic link that has no data block is read back
    from it.  A short one is kept in the inode, where it is also found when the
    inode is built again from its descriptor; a long one is in the one block
    the tree then maps, and is read back from any device that holds the page
    there when the cache is empty. *)
Theorem symlink_roundtrip target n fs s runs b n' fs' s' :
  i_type (in_desc n) = SymLink -> no_data n fs s runs -> utf8 target -> zlen target < BLOCK_SIZE -> write_link dev target (n, (fs, s)) = (Ok b, (n', (fs', s'))) ->
  read_link dev n' s' = Ok target /\ file_size n' = zlen target /\
  if b then exists pc t l ext p, in_payload n' = DataBacked pc t 1 /\ tree_ok t fs' s' l ext runs /\ ext_map l 0 = Some (p, Written) /\ (forall j, j <> 0 -> ext_map l j = None) /\
         forall dev', dev_read dev' p = Ok (splice 0 target (zeros BLOCK_SIZE)) -> read_link dev' (set_payload n' (DataBacked (pc_new (zlen target)) t 1)) s' = Ok target
  else zlen target < MAX_FAST_SYMLINK_LEN /\ payload_new (in_desc n') = Ok (in_payload n').
Proof.
  intros Hty Hn Hu Hl E. destruct (decide (zlen target < MAX_FAST_SYMLINK_LEN)) as [Hf|Hf].
  - destruct (write_fast_spec dev target n fs s b n' fs' s' Hf E) as (-> & Hp & Hd). assert (Hs : file_size n' = zlen target) by (unfold file_size; by rewrite Hd). split_and!; try done; [by eapply fast_read|].
    unfold payload_new. rewrite Hd. cbn [i_type set_size set_raw_block remove_flags set_flags i_size i_block]. rewrite Hty, Hp. rewrite (proj2 (Z.leb_le _ _)) by lia.
    unfold is_extent_based, contains. cbn [i_flags set_size set_raw_block remove_flags set_flags]. replace (Z.land (Z.ldiff (i_flags (in_desc n)) FileFlags.EXTENTS) FileFlags.EXTENTS) with 0; [done|].
    symmetry. apply Z.bits_inj'. intros k Hk. rewrite Z.land_spec, Z.ldiff_spec, Z.bits_0. by destruct (Z.testbit _ k), (Z.testbit FileFlags.EXTENTS k).
  - destruct (write_slow_spec dev target n fs s runs b n' fs' s' Hn Hty ltac:(lia) E) as (-> & Hs & t & l & ext & p & Hp & Ht & Hm & Ho). split_and!; try done; [by eapply slow_read|].
    eexists _, t, l, ext, p. split_and!; try done. intros dev' Hdev. unfold MAX_FAST_SYMLINK_LEN, BLOCK_SIZE in *. unfold read_link. cbn [in_payload set_payload]. change (file_size (set_payload n' _)) with (file_size n'). rewrite Hs.
    assert (Ha : align_up (zlen target) = PAGE_SIZE). { unfold align_up. replace (div_ceil (zlen target) PAGE_SIZE) with 1; [done|]. unfold div_ceil, PAGE_SIZE. apply Z.div_unique with (zlen target - 1); lia. }
    unfold pc_new. rewrite Ha. set (img := splice 0 target (zeros 4096)) in *. set (pc := {| pc_size := PAGE_SIZE; pc_pages := ∅ |}).
    assert (Hb : is_block img) by (unfold is_block, img; rewrite zlen_splice; rewrite ?zlen_zeros; unfold BLOCK_SIZE; done || lia).
    assert (Hok : pc_ok pc) by (split; [done|done|apply map_Forall_empty]). destruct (mapped_read dev' t fs' s' l ext runs 1 0 p Ht Hm ltac:(lia) ltac:(lia)) as [Hrd _].
    assert (Hpg : page_is (read_page dev' 1 t s') pc 0 img). { split; [|done]. unfold commit_page. cbn [pc pc_pages]. rewrite lookup_empty, Hrd. by rewrite Hdev. }
    pose proof (read_raw_page (read_page dev' 1 t s') pc 0 img 0 (zlen target) Hok Hpg ltac:(lia) ltac:(lia)) as E2. change (0 * PAGE_SIZE + 0) with 0 in E2. rewrite E2 by (unfold PAGE_SIZE; lia).
    cbn [map_err rbind]. unfold img. rewrite slice_splice_same; [exact Hu|..]; rewrite ?zlen_zeros by done; try done; lia.
Qed.
End Exact.

(** ** Locks *)

Lemma skip_repeated_spec l : forall prev, StronglySorted Z.le l -> (forall p, prev = Some p -> Forall (Z.le p) l) ->
  StronglySorted Z.lt (skip_repeated prev l) /\ (forall p, prev = Some p -> Forall (Z.lt p) (skip_repeated prev l)) /\ forall x, x ∈ skip_repeated prev l <-> x ∈ l /\ prev <> Some x.
Proof.
  induction l as [|a l IH]; intros prev Hs Hp; cbn [skip_repeated]; [split_and!; [constructor|constructor|set_solver]|]. apply StronglySorted_inv in Hs as [Hs Ha].
  case_bool_decide as He.
  - destruct (IH prev Hs) as (H1 & H2 & H3); [intros p Ep; specialize (Hp p Ep); by inversion Hp|]. split_and!; try done. intros x. rewrite H3, elem_of_cons, He. split; [naive_solver|]. intros [[->|?] ?]; done.
  - destruct (IH (Some a) Hs) as (H1 & H2 & H3); [by intros p [= <-]|]. split_and!; [by constructor; [|apply H2]| |].
    + intros p ->. specialize (Hp p eq_refl). apply Forall_cons in Hp as [Hpa _]. assert (p < a) by (assert (p <> a) by congruence; lia). constructor; [done|]. eapply Forall_impl; [by apply H2|]. intros x ?. cbn in *. lia.
    + intros x. rewrite !elem_of_cons, H3. split.
      * intros [->|[Hx Hne]]; [by split; [left|]|]. split; [by right|]. intros ->. specialize (Hp x eq_refl). apply Forall_cons in Hp as [Hpa _]. rewrite Forall_forall in Ha. specialize (Ha x Hx). assert (a = x) by lia. congruence.
      * intros [[->|Hx] Hne]; [by left|]. destruct (decide (x = a)) as [->|]; [by left|]. right. split; [done|congruence].
Qed.

Lemma lock_spec inodes : StronglySorted Z.lt (lock inodes) /\ forall ino, ino ∈ lock inodes <-> ino ∈ take MAX_MULTI_INODE_LOCKS inodes.
Proof.
  unfold lock. destruct (skip_repeated_spec (merge_sort Z.le (take MAX_MULTI_INODE_LOCKS inodes)) None) as (H1 & _ & H3); [|done|].
  - apply Sorted_StronglySorted; [intros x y z; lia|]. apply Sorted_merge_sort. intros x y. lia.
  - split; [done|]. intros ino. rewrite H3. rewrite merge_sort_Permutation. naive_solver.
Qed.

Lemma guard_held entries ino : held_guard entries ino = Ok ino <-> ino ∈ entries.
Proof.
  unfold held_guard. split.
  - destruct (find (Z.eqb ino) entries) as [e|] eqn:E; [|done]. intros [= ->]. apply find_some in E as [E _]. by apply list_elem_of_In.
  - intros Hin. destruct (find (Z.eqb ino) entries) as [e|] eqn:E; [apply find_some in E as [_ E%Z.eqb_eq]; by subst|].
    apply list_elem_of_In in Hin. apply (find_none _ _ E) in Hin. by rewrite Z.eqb_refl in Hin.
Qed.

(** A thread in [lock]: the inodes it asks for and how many it has locked.  One
    waits for another when the next lock it takes is one the other holds. *)
Definition thread : Type := list Z * nat.
Definition waits (a b : thread) : Prop := exists ino, lock a.1 !! a.2 = Some ino /\ ino ∈ take b.2 (lock b.1).

(** What a thread holds is below what it waits for. *)
Lemma held_below (t : thread) i j : lock t.1 !! t.2 = Some i -> j ∈ take t.2 (lock t.1) -> j < i.
Proof.
  intros Hi Hj. pose proof (proj1 (lock_spec t.1)) as Hs. rewrite <- (take_drop t.2 (lock t.1)) in Hs. rewrite (drop_S _ i) in Hs by done.
  revert Hs. generalize (take t.2 (lock t.1)) Hj. intros l. induction l as [|a l IH]; intros Hin Hs; [set_solver|]. cbn in Hs. apply StronglySorted_inv in Hs as [Hs Ha].
  apply elem_of_cons in Hin as [->|Hin]; [|by apply IH]. rewrite Forall_forall in Ha. apply Ha. set_solver.
Qed.

(** C21: The locks of the inodes of one operation are taken in ascending order
    and each once, and the guard of every inode of the operation is then there
    (no more than four are ever passed), so that no set of threads inside
    [lock] waits in a cycle. *)
Theorem locks_never_deadlock :
  (forall inodes, StronglySorted Z.lt (lock inodes)) /\
  (forall inodes ino, (length inodes <= MAX_MULTI_INODE_LOCKS)%nat -> ino ∈ inodes <-> held_guard (lock inodes) ino = Ok ino) /\
  (forall t, ~ tc waits t t).
Proof.
  split_and!; [apply lock_spec|intros inodes ino Hl; rewrite guard_held, (proj2 (lock_spec inodes)); by rewrite take_ge|].
  assert (Hw : forall a c, tc waits a c -> exists i j, lock a.1 !! a.2 = Some i /\ j ∈ take c.2 (lock c.1) /\ i <= j).
  { intros a c Hac. induction Hac as [a b (i & Hi & Hin)|a b c (i & Hi & Hin) _ (i' & j & Hi' & Hj & Hle)]; [by exists i, i|].
    exists i, j. pose proof (held_below b i' i Hi' Hin). split_and!; [done|done|lia]. }
  intros t Ht. destruct (Hw t t Ht) as (i & j & Hi & Hj & Hle). pose proof (held_below t i j Hi Hj). lia.
Qed.

(** ** Samples *)

Module SampleNs.
(** The directory [sub] of the sample: its page is in memory. *)
Definition sub_recs : list (Z * (DirEntryHeader * list byte)) := [(0, (Header 14 12 1 2, DOT_BYTE)); (12, (Header 2 4072 2 2, DOT_DOT_BYTE)); (CSUM_COVER, (dir_tail, []))].
Definition sub_block : dblock := Eval vm_compute in (sealed SampleDir.seed (SampleDir.image sub_recs), SampleDir.recs_of sub_recs).
Definition sub : InodeInner :=
  {| in_desc := set_size (desc_new Dir 0x1ED 1000 1000 2 7 SampleDir.now ExtentRoot) 4096; in_dirty := false;
     in_payload := DataBacked {| pc_size := 4096; pc_pages := {[ 0 := sub_block.1 ]} |} SampleTree.half 1; in_sync_tid := None; in_datasync_tid := None; in_seed := SampleDir.seed |}.
Definition ns (dir : InodeInner) : NsState :=
  {| ns_inodes := {[ 2 := dir; 12 := SampleDir.file 1; 13 := SampleDir.file 2; 14 := sub ]}; ns_cached := {[ 2; 12; 13; 14 ]}; next_generation := 7 |}.
Definition now (k : nat) : Duration := {| d_secs := 1700000001 + Z.of_nat k; d_nanos := 0 |}.
Definition link : InodeInner :=
  {| in_desc := desc_new SymLink 0x1FF 1000 1000 1 7 SampleDir.now ExtentRoot; in_dirty := false; in_payload := DataBacked (pc_new 0) empty 0;
     in_sync_tid := None; in_datasync_tid := None; in_seed := SampleDir.seed |}.
Definition long_target : list byte := repeat Byte.x61 70.
Definition dev : device := SampleDir.dev SampleDir.b0.1 SampleDir.b1.1.
Definition dir : InodeInner := SampleDir.inode SampleDir.seed 0.
Definition st : NsState * (Ext4 * op) := (ns dir, (SampleVolume.fs, SampleDir.store SampleDir.b0.1 SampleDir.b1.1)).
End SampleNs.

Lemma sample_file_storable links : fits 16 links -> storable (SampleDir.file links).
Proof. intros Hl. split; [|by vm_compute]. split; try done; by vm_compute. Qed.

Lemma sample_sub_storable : storable SampleNs.sub.
Proof. split; [split; try done; by vm_compute|by vm_compute]. Qed.

Lemma sample_in_memory dir : storable dir ->
  in_memory (SampleNs.ns dir) SampleVolume.fs 2 dir /\ in_memory (SampleNs.ns dir) SampleVolume.fs 12 (SampleDir.file 1) /\
  in_memory (SampleNs.ns dir) SampleVolume.fs 13 (SampleDir.file 2) /\ in_memory (SampleNs.ns dir) SampleVolume.fs 14 SampleNs.sub.
Proof. intros Hd. split_and!; (split; [done|set_solver|by split|try done; (by apply sample_file_storable) || apply sample_sub_storable]). Qed.

Lemma sample_names : names_map (dir_names [SampleDir.b0; SampleDir.b1]) !! SampleDir.name_a = Some (12, 1) /\
  names_map (dir_names [SampleDir.b0; SampleDir.b1]) !! SampleDir.name_b = Some (13, 1) /\ names_map (dir_names [SampleDir.b0; SampleDir.b1]) !! SampleDir.name_sub = Some (14, 2).
Proof. split_and!; vm_compute; reflexivity. Qed.

Lemma sample_volume_dir : volume SampleVolume.fs (SampleDir.store SampleDir.b0.1 SampleDir.b1.1) /\ orphans_ok SampleVolume.fs (SampleDir.store SampleDir.b0.1 SampleDir.b1.1).
Proof. apply sample_dir_volume; [apply sample_b0|apply sample_b1]. Qed.

Lemma sample_no_hash : hash_words SampleVolume.fs.
Proof. intros d E. vm_compute in E. discriminate E. Qed.

Lemma sample_sub_view : dir_view SampleNs.dev SampleNs.sub (SampleDir.store SampleDir.b0.1 SampleDir.b1.1) [SampleNs.sub_block].
Proof.
  split; [done|vm_compute; reflexivity|]. eexists _, _, 1. split; [reflexivity|]. split; [split; [done|done|apply map_Forall_singleton; by vm_compute]|].
  intros i b Hb. destruct i as [|i]; [|discriminate Hb]. change (Some SampleNs.sub_block = Some b) in Hb. rewrite <- (inj Some _ _ Hb). assert (Hok : block_ok SampleNs.sub_block) by sample_block. split; [|done]. split; [by vm_compute|apply Hok].
Qed.

Lemma unlink_exact_witness : exists ns' fs' s',
  unlink SampleNs.dev 5 SampleNs.now 2 SampleDir.name_a SampleNs.st = (Ok tt, (ns', (fs', s'))) /\ orphan_chain fs' = [12] /\ exists raw, read_raw_inode fs' s' 12 = Ok raw /\ ri_link_count raw = 0.
Proof.
  destruct sample_volume_dir as [V Ho]. destruct (sample_in_memory SampleNs.dir (sample_storable _ _ ltac:(by left))) as (Hs & Hc & _).
  destruct (unlink_exact SampleNs.dev 5 SampleNs.now _ _ _ 2 _ _ _ _ _ SampleDir.name_a 12 1 _ V sample_whole Ho sample_no_hash (im_inode _ _ _ _ Hs) sample_linear_ok sample_linear_distinct
    (proj1 sample_names) Hc ltac:(done) ltac:(done)) as (r & ns' & fs' & s' & E & Hr).
  assert (Er : (unlink SampleNs.dev 5 SampleNs.now 2 SampleDir.name_a SampleNs.st).1 = Ok tt) by (vm_compute; reflexivity). unfold SampleNs.st in *. rewrite E in Er. cbn [fst] in Er. subst r.
  exists ns', fs', s'. destruct Hr as [_ _ U3 _ [_ U5]]. split_and!; [exact E|exact U5|exact U3].
Defined.

Lemma rmdir_exact_witness : exists ns' fs' s',
  rmdir SampleNs.dev 5 SampleNs.now 2 SampleDir.name_sub SampleNs.st = (Ok tt, (ns', (fs', s'))) /\ 14 ∈ orphan_chain fs' /\ exists raw, read_raw_inode fs' s' 2 = Ok raw /\ ri_link_count raw = 2.
Proof.
  destruct sample_volume_dir as [V Ho]. destruct (sample_in_memory SampleNs.dir (sample_storable _ _ ltac:(by left))) as (Hs & _ & _ & Hc).
  destruct (rmdir_exact SampleNs.dev 5 SampleNs.now _ _ _ 2 _ _ _ _ _ SampleDir.name_sub 14 2 _ _ V sample_whole Ho sample_no_hash Hs sample_linear_ok sample_linear_distinct
    (proj2 (proj2 sample_names)) Hc ltac:(done) sample_sub_view eq_refl) as (r & ns' & fs' & s' & E & Hr).
  assert (Er : (rmdir SampleNs.dev 5 SampleNs.now 2 SampleDir.name_sub SampleNs.st).1 = Ok tt) by (vm_compute; reflexivity). unfold SampleNs.st in *. rewrite E in Er. cbn [fst] in Er. subst r.
  exists ns', fs', s'. destruct Hr as [_ [_ _ U3 (_ & U4 & _) _]]. split_and!; [exact E|exact U4|exact U3].
Defined.

(** The inode 13 has two links; the record on the volume says nothing new of
    it after its name went to 12. *)
Lemma rename_over_exact_witness : exists ns' fs' s' nr',
  rename SampleNs.dev 5 SampleNs.now 2 SampleDir.name_a 2 SampleDir.name_b SampleNs.st = (Ok tt, (ns', (fs', s'))) /\
  ns_inodes ns' !! 13 = Some nr' /\ i_link_count (in_desc nr') = 1 /\ read_raw_inode fs' s' 13 = read_raw_inode SampleVolume.fs (SampleDir.store SampleDir.b0.1 SampleDir.b1.1) 13.
Proof.
  destruct sample_volume_dir as [V Ho]. destruct (sample_in_memory SampleNs.dir (sample_storable _ _ ltac:(by left))) as (Hs & Ha & Hb & _). destruct sample_names as (Na & Nb & _).
  destruct (rename_over_exact SampleNs.dev 5 SampleNs.now _ _ _ 2 _ _ _ _ _ SampleDir.name_a SampleDir.name_b 12 1 _ 13 1 _ V sample_whole Ho sample_no_hash Hs sample_linear_ok sample_linear_distinct
    ltac:(done) Na Nb Ha Hb ltac:(done) ltac:(done) ltac:(done) ltac:(done) ltac:(done)) as (r & ns' & fs' & s' & E & Hr).
  assert (Er : (rename SampleNs.dev 5 SampleNs.now 2 SampleDir.name_a 2 SampleDir.name_b SampleNs.st).1 = Ok tt) by (vm_compute; reflexivity). unfold SampleNs.st in *. rewrite E in Er. cbn [fst] in Er. subst r.
  destruct Hr as [(nd' & no' & nr' & ds' & rest & U1 & _ & _ & _ & _ & U2) _ _ (_ & _ & U4)]. exists ns', fs', s', nr'. split_and!; [exact E| |exact U2|exact U4]. rewrite U1, lookup_insert_ne by done. apply lookup_insert_eq.
Defined.

Lemma sample_r0_root : index_root SampleDir.r0.2.
Proof. exists (Header 2 12 1 2), (Header 2 4084 2 2), []. split_and!; by vm_compute. Qed.

Lemma sample_plain_index_ok : dir_ok (SampleDir.dev SampleDir.r0.1 SampleDir.r1.1) (SampleDir.inode None FileFlags.INDEX) SampleVolume.fs (SampleDir.store SampleDir.r0.1 SampleDir.r1.1)
  [SampleDir.r0; SampleDir.r1] SampleDir.l [] SampleDir.runs.
Proof. apply sample_dir_ok; [apply sample_r0|apply sample_r1|done]. Qed.


Lemma sample_no_data : no_data SampleNs.link SampleVolume.fs (SampleDir.store SampleDir.b0.1 SampleDir.b1.1) (block_runs [] ++ runs_of SampleDir.l ++ SampleDir.runs).
Proof.
  pose proof sample_linear_ok as [_ _ _ _ _ (pc & t & np & _ & _ & [_ _ Hh _] & _)]. split; [split; [apply Z.leb_le|apply Z.ltb_lt]; vm_compute; reflexivity|]. split; [exact Hh|].
  split; [split; [apply Z.leb_le; vm_compute; reflexivity|vm_compute; reflexivity|apply map_Forall_empty]|]. split; [reflexivity|by apply empty_tree_ok].
Qed.

Lemma symlink_roundtrip_witness : exists n' fs' s',
  write_link SampleNs.dev SampleNs.long_target (SampleNs.link, (SampleVolume.fs, SampleDir.store SampleDir.b0.1 SampleDir.b1.1)) = (Ok true, (n', (fs', s'))) /\ read_link SampleNs.dev n' s' = Ok SampleNs.long_target.
Proof.
  destruct (run_result (write_link SampleNs.dev SampleNs.long_target) (SampleNs.link, (SampleVolume.fs, SampleDir.store SampleDir.b0.1 SampleDir.b1.1)) (Ok true)) as [[n' [fs' s']] E]; [vm_compute; reflexivity|].
  destruct (symlink_roundtrip SampleNs.dev SampleNs.long_target SampleNs.link _ _ _ true n' fs' s' eq_refl sample_no_data ltac:(vm_compute; reflexivity) ltac:(apply Z.ltb_lt; vm_compute; reflexivity) E) as (Hr & _). exists n', fs', s'. split; [exact E|exact Hr].
Defined.
